(* ===== verification/_CoqProject ===== *)
-Q . S2P
Prelude.v
Ord.v
Str.v
Utf8.v
Sse.v
Capability.v
Paths.v
Sandbox.v
Json.v
Strict.v
Codec.v
Data.v
Event.v
State.v
Redact.v
Spill.v
Log.v
FileLog.v
Outside.v
Memory.v
Time.v
Accumulate.v
Deltas.v
Wire.v
OpenAi.v
Registry.v
Kernel.v
Frame.v
Scenario.v
Tasks.v
Retry.v
Turn.v
Answers.v
Lifecycle.v
Cassette.v
Replay.v
CassetteFile.v
DiffLogs.v
Sessions.v
Exits.v
Toml.v
Atom.v
Schema.v
Merge.v
Profile.v
Catalog.v
Resolve.v
Narrowing.v
Resolution.v
Host.v
Launch.v
RpcSession.v
NativeFs.v
NativeHost.v
NativeChild.v
BaseTools.v
ToolProofs.v
AskUser.v
Manifest.v
Extensions.v
Launcher.v
LaunchProofs.v
AcpProject.v
Driver.v
AcpServer.v
AcpRequests.v
Daemon.v
DaemonProofs.v
Connect.v
