(* ===== verification/Prelude.v ===== *)
(** * Grist: a verification development

    Grist is an agent kernel written in Rust (src/crates).  A session is one conversation between
    a model and the tools of one working directory; everything it does is logged, every tool runs
    under a policy derived from capability grants, and a log can be replayed.  This library
    translates the crates into Rocq definitions and proves what the program promises.

    ** The program and the files that model it

    Data flows through five layers; each file below names the Rust files it translates in its own
    opening comment.

    - Vocabulary.  This file, [Ord] (BTreeMap and BTreeSet), [Str], [Utf8], [Paths] (the parts of
      Rust's standard library in use), [Json], [Strict], [Codec] (serde and the canonical JSON of
      kernel/src/hash), [Toml].
    - The kernel crate.  [Capability] and [Sandbox] (capability.rs, sandbox.rs, the policy half of
      host.rs); [Data], [Event], [State] (the serialized types, their hashes, the migrations);
      [Redact], [Spill], [Log], [FileLog], [Time]; [Outside] (the traits tool.rs, middleware.rs,
      provider.rs and the other threads), [Memory]; [Registry], [Kernel], [Tasks], [Retry], [Turn],
      [Lifecycle] (loop_/ and loop_/mod.rs); [Cassette], [Replay], [CassetteFile],
      [DiffLogs] (replay/mod.rs, bin/diff-logs.rs).  [Frame],
      [Scenario], [Answers], [Sessions], [Exits] hold theorems about them.
    - The provider.  [Sse], [Accumulate], [Wire], [OpenAi] (providers/src); [Deltas] holds the theorem
      about the deltas.
    - Profiles.  [Atom], [Schema], [Merge], [Profile], [Catalog], [Resolve], [Narrowing]
      (profiles/src), with the theorems in [Resolution].
    - Host, sandbox, extensions, orchestrator.  [Host], [NativeFs], [NativeHost],
      [NativeChild], [AskUser] (host/src); [Launch], [RpcSession], [BaseTools], [ToolProofs]
      (sandbox/src); [Manifest], [Extensions] (ext/src); [Launcher], [LaunchProofs] (orchestrator/src/launcher.rs);
      [AcpProject], [Driver], [AcpServer], [AcpRequests], [Daemon], [DaemonProofs], [Connect]
      (orchestrator/src/acp).

    How they interact.  [Launcher] resolves a profile ([Narrowing.resolve]), loads extensions,
    builds tools over a [Host] and a [SandboxBackend], and creates or opens a [Kernel].  [Driver]
    owns that kernel and serves commands by [Lifecycle.run], which repeats [Turn.run_turn]; a turn
    drains the inbox ([Tasks]), asks the provider ([Retry], implemented by [OpenAi]), runs the
    tools the [Registry] holds ([BaseTools], [AskUser], [Extensions]), and appends to a log
    ([Log], implemented by the memory log and by [FileLog]).  [AcpServer] routes the requests of a
    client to drivers, and [AcpProject] turns logged events into what the client sees; [Daemon]
    starts one such server per session and forwards to it.

    ** Conventions

    A [&mut self] method of the kernel is a program of the monad [M] below: a function from the
    state to a state and a result, so that a failure keeps the changes made before it.  Everything
    the kernel calls and cannot see into acts on one abstract state [X] ([Outside]); between two
    steps of the kernel the rest of the process may send any signals ([Kernel.interfere]).  An
    asynchronous call is the list of polls that leave it pending, then its result; cancellation
    is looked at where the source selects on it.  u64 counters are [N] with saturation or
    wrap-around written out where the source has them, f64 is [SpecFloat]'s binary64, a string is
    its UTF-8 bytes.  Files, sockets and processes answer as an interface decides, failures
    included.  Panics of the source are results of their own.

    ** What is proved

    Each theorem states its conditions; the main ones are named here.

    - Turns and sessions: a turn answers every call of the model in order and then takes in its
      inbox ([Answers], for hooks that leave the messages alone); it leaves the status its outcome tells,
      restores on failure what it changed, and nothing survives an end ([Exits]); the last
      checkpoint is the state ([Sessions]); what the inbox held adds one message for each user
      message and one for each task it ends ([Tasks]); retries are bounded ([Retry]).
    - Persistence: events and canonical JSON are read back or determined by their bytes ([Event],
      [Json]); a checkpoint that the redactor leaves alone restores the state ([Log]); a torn append is
      recovered from ([FileLog]); no registered secret that cannot be confused with a marker survives
      redaction ([Redact]); a replay delivers the recorded inputs in order, each in the status and at
      the turn it was recorded at, and says why it stops ([Replay]); a cassette is read back from its
      file ([CassetteFile]).
    - Confinement: the files, hosts and listed programs that a derived policy allows were requested
      and granted ([Sandbox]; the environment comes from the limits); the bwrap command line adds the
      sandbox's own /tmp, /dev and /proc and no more, and is read back unambiguously; a child ends at its
      time limit at the latest ([Launch]); the file tools and the native host stay inside ([NativeFs],
      [ToolProofs]), and an edit replaces what it says ([ToolProofs]); the result of a session call is
      read under an id of its own ([RpcSession]); a profile, its sub-agents and its extensions stay
      within the grants and a project file only narrows ([Resolution], [Extensions], [LaunchProofs]).
    - Providers: the deltas of a stream depend on the bytes alone (an error in them may come earlier,
      [OpenAi.error_overtakes_deltas]) and it ends once ([Sse], [OpenAi]); the deltas are a
      well-formed sequence of blocks and spell the response ([Deltas]).
    - The protocol server: every request is answered once, a cancelled answer follows a
      cancellation, commands are served in order, a client reads each answer once if no delta is handled
      before its request ([AcpRequests], [Driver], [AcpProject]).
    - The daemon: a kernel process lives as long as one owner needs it, is asked for one session
      only and so never serves two; a request for a session is answered by the process that opened
      it, or by the daemon exactly if it was not open ([DaemonProofs]); the forwarder passes bytes on unchanged ([Connect]).
    Where the code falls short of what it says, a theorem exhibits the run (for instance
    [FileLog.failed_sync_breaks_the_log], [AcpRequests.two_sessions_despite_the_limit],
    [DaemonProofs.two_kernels_for_one_session]).

    ** Fuel

    Structural recursion is used wherever the source's loop allows.  [Lifecycle.run] and the loops
    on top of it ([Driver.run_through], [Replay.drive]) take the number of turns they may run,
    because a session may go on for ever; running out is a value of its own ([None]), and the
    theorems say what holds of the results that are returned.  Elsewhere the fuel is computed from
    the input and is enough: the attempts that remain ([Retry.call_loop]), the length of a buffer
    ([Sse.drain_lines], [Utf8.lossy]) or of a path ([Merge.origin_loop], [NativeFs.parents],
    [Catalog.discover_loop]), the depth of a JSON value ([Data.dec_block]), the number of agents
    in the catalog ([Narrowing.catalog_fuel], enough by [Resolution.resolve_terminates]).

    ** Parameters

    BLAKE3 and hex ([Json.Platform]), the text of JSON values ([Json.JsonText]), the TOML reader
    and the files of the profiles ([Toml.FileSystem]), the clock ([Log.Clock]), regular
    expressions (span functions in [Redact]), tools, middleware, providers and threads
    ([Outside.Outside]), the operating system ([NativeFs.OsFs], [NativeHost.OsSpawn],
    [NativeChild.ChildOs], [RpcSession.Pipes], [Launcher.StateDir], [Daemon.SocketOs]), reqwest
    ([NativeHost.Reqwest]).  Their laws, where a theorem needs one, are classes beside them ([PlatformLaws], [JsonTextLaws], ...).
    [AcpServer] takes as parameters the relation between a request to create or reopen a session
    and its possible outcomes; a driver's command takes effect in one step at its end, and a
    cancellation that arrives while it runs is among the signals of the run.

    ** Not modelled

    - The regular expressions of the built-in redaction patterns, which are the regex crate's.
    - kernel/src/stream.rs (a stream of one item); crate roots (re-exports); the binaries of the
      orchestrator (command lines around [Launcher], [AcpServer] and [Daemon]); the empty crates
      evolve and provenance.
    - src/spikes: prototypes that the crates do not use.
    - What the protocol library does with a message between its two ends: in [AcpServer] and
      [Daemon] a message that is sent arrives.
    - Interleavings below one step: a race between a path check and the operation after it
      ([NativeFs]), the mutex of a session process ([RpcSession]), [wait] and [terminate] of one
      child ([NativeChild], where the exit that a concurrent [wait] announces is the system's). *)

From stdpp Require Export base tactics list option strings gmap sorting.
From Stdlib Require Export NArith ZArith Ascii Lia.
From Stdlib Require String.


Open Scope list_scope.

(** * Results *)

Inductive result (E A : Type) : Type :=
  | Ok (a : A)
  | Err (e : E).
Arguments Ok {E A} a.
Arguments Err {E A} e.

#[export] Instance result_ret {E} : MRet (result E) := fun A a => Ok a.
#[export] Instance result_bind {E} : MBind (result E) :=
  fun A B f r => match r with Ok a => f a | Err e => Err e end.
#[export] Instance result_fmap {E} : FMap (result E) :=
  fun A B f r => match r with Ok a => Ok (f a) | Err e => Err e end.
#[export] Instance result_eq_dec {E A} `{EqDecision E} `{EqDecision A} : EqDecision (result E A).
Proof. solve_decision. Defined.

Definition map_err {E F A} (f : E -> F) (r : result E A) : result F A :=
  match r with Ok a => Ok a | Err e => Err (f e) end.

Definition ok_or {E A} (e : E) (o : option A) : result E A :=
  match o with Some a => Ok a | None => Err e end.

Definition ok {E A} (r : result E A) : option A :=
  match r with Ok a => Some a | Err _ => None end.

Definition is_ok {E A} (r : result E A) : bool :=
  match r with Ok _ => true | Err _ => false end.

(** [Iterator::collect::<Result<Vec<_>, _>>]: the first error wins. *)
Fixpoint mapR {E A B} (f : A -> result E B) (l : list A) : result E (list B) :=
  match l with
  | [] => Ok []
  | x :: l' => match f x with
               | Err e => Err e
               | Ok y => match mapR f l' with Ok ys => Ok (y :: ys) | Err e => Err e end
               end
  end.

(** [collect::<Option<Vec<_>>>]. *)
Fixpoint mapO {A B} (f : A -> option B) (l : list A) : option (list B) :=
  match l with
  | [] => Some []
  | x :: l' => match f x, mapO f l' with Some y, Some ys => Some (y :: ys) | _, _ => None end
  end.

Lemma fmap_NoDup_inj {A B} (f : A -> B) l x y : NoDup (f <$> l) -> x ∈ l -> y ∈ l -> f x = f y -> x = y.
Proof.
  intros Hn [i Hi]%list_elem_of_lookup [j Hj]%list_elem_of_lookup He.
  assert (i = j) as ->; [|congruence]. eapply NoDup_lookup; [exact Hn|..]; rewrite list_lookup_fmap; [by rewrite Hi|by rewrite Hj, He].
Qed.
Lemma mapO_Some_fmap {A B} (f : A -> option B) (g : B -> A) (l : list B) :
  Forall (fun b => f (g b) = Some b) l -> mapO f (g <$> l) = Some l.
Proof. induction 1 as [|b l Hb _ IH]; [done|]. rewrite fmap_cons. cbn [mapO]. by rewrite Hb, IH. Qed.

Lemma mapR_Ok {E A B} (f : A -> result E B) l ys :
  mapR f l = Ok ys <-> Forall2 (fun x y => f x = Ok y) l ys.
Proof.
  split.
  - revert ys. induction l as [|x l IH]; simpl; intros ys; [by intros [= <-]|].
    destruct (f x) eqn:?, (mapR f l) eqn:?; intros [= <-]; constructor; auto.
  - induction 1 as [|x y l ys Hxy _ IH]; simpl; [done|]. by rewrite Hxy, IH.
Qed.

Lemma ok_or_Ok {E A} (e : E) (o : option A) a : ok_or e o = Ok a <-> o = Some a.
Proof. destruct o; simpl; naive_solver. Qed.
Lemma map_err_Ok {E F A} (f : E -> F) (r : result E A) a : map_err f r = Ok a <-> r = Ok a.
Proof. destruct r; simpl; naive_solver. Qed.

Lemma result_bind_Ok {E A B} (r : result E A) (f : A -> result E B) b :
  (r ≫= f) = Ok b <-> exists a, r = Ok a /\ f a = Ok b.
Proof.
  destruct r as [a|e]; split; [by exists a | by intros (?&[= ->]&?) | done | by intros (?&[=]&?)].
Qed.

(** * The state-and-error monad

    A method [fn m(&mut self, ..) -> Result<A, E>] is a function from the state to the state it
    leaves behind and its result; mutations made before an error persist, as in Rust. *)

Definition M (S E A : Type) : Type := S -> S * result E A.

#[export] Instance M_ret {S E} : MRet (M S E) := fun A a s => (s, Ok a).
#[export] Instance M_bind {S E} : MBind (M S E) :=
  fun A B f m s => match m s with
                   | (s', Ok a) => f a s'
                   | (s', Err e) => (s', Err e)
                   end.
#[export] Instance M_fmap {S E} : FMap (M S E) :=
  fun A B f m s => match m s with
                   | (s', Ok a) => (s', Ok (f a))
                   | (s', Err e) => (s', Err e)
                   end.

Section monad_ops.
Context {S E : Type}.
Definition throw {A} (e : E) : M S E A := fun s => (s, Err e).
Definition gets {A} (f : S -> A) : M S E A := fun s => (s, Ok (f s)).
Definition modify (f : S -> S) : M S E unit := fun s => (f s, Ok tt).
Definition lift {A} (r : result E A) : M S E A := fun s => (s, r).
(** A step that updates the state and returns a value, never failing. *)
Definition step {A} (f : S -> S * A) : M S E A := fun s => let '(s', a) := f s in (s', Ok a).
(** A step whose failure is a value for the caller ([match self.f() { Err(e) => .. }]). *)
Definition try {F A} (m : M S F A) : M S E (result F A) := fun s => let '(s', r) := m s in (s', Ok r).
(** The [From] conversion applied by [?]. *)
Definition conv {F A} (f : F -> E) (m : M S F A) : M S E A :=
  fun s => let '(s', r) := m s in (s', map_err f r).
Definition when (b : bool) (m : M S E unit) : M S E unit := if b then m else mret tt.
Fixpoint forM {A} (l : list A) (f : A -> M S E unit) : M S E unit :=
  match l with [] => mret tt | x :: l' => f x ;; forM l' f end.
End monad_ops.

(** A run, from the result it is known to have. *)
Lemma pair_of {A B} (p : A * B) b : p.2 = b -> p = (p.1, b).
Proof. destruct p. by intros [= <-]. Qed.

(** ** Reasoning: postconditions and step relations *)

Section reasoning.
Context {S E : Type}.

(** [on_ok P m Q]: a run of [m] from a state satisfying [P], if it succeeds, ends in a value and
    a state satisfying [Q]. *)
Definition on_ok {A} (P : S -> Prop) (m : M S E A) (Q : A -> S -> Prop) : Prop :=
  forall s s' a, P s -> m s = (s', Ok a) -> Q a s'.

(** [steps R m]: every run of [m], failing or not, relates the state before to the state after. *)
Definition steps {A} (R : S -> S -> Prop) (m : M S E A) : Prop := forall s, R s (fst (m s)).

Lemma on_ok_ret {A} (P : S -> Prop) (a : A) Q : (forall s, P s -> Q a s) -> on_ok P (mret a) Q.
Proof. intros HQ s s' b Hs Hm. injection Hm as <- <-. by apply HQ. Qed.
Lemma on_ok_bind {A B} (P : S -> Prop) Q R (m : M S E A) (f : A -> M S E B) :
  on_ok P m Q -> (forall a, on_ok (Q a) (f a) R) -> on_ok P (m ≫= f) R.
Proof.
  intros Hm Hf s s' b Hs Hr. unfold mbind, M_bind in Hr. destruct (m s) as [s1 [a|e]] eqn:Hms; [|done].
  by eapply Hf; [eapply Hm|].
Qed.
Lemma on_ok_weaken {A} (P P' : S -> Prop) (Q Q' : A -> S -> Prop) (m : M S E A) :
  (forall s, P s -> P' s) -> (forall a s, Q' a s -> Q a s) -> on_ok P' m Q' -> on_ok P m Q.
Proof. intros HP HQ Hm s s' a Hs Hr. apply HQ. by eapply Hm; [apply HP|]. Qed.
Lemma on_ok_steps {A} (P : S -> Prop) (R : S -> S -> Prop) (m : M S E A) Q :
  steps R m -> (forall s s' a, P s -> R s s' -> Q a s') -> on_ok P m Q.
Proof. intros Hm HQ s s' a Hs Hr. eapply HQ; [done|]. specialize (Hm s). by rewrite Hr in Hm. Qed.

Lemma steps_ret {A} R `{!Reflexive R} (a : A) : steps R (mret a).
Proof. intros s. simpl. reflexivity. Qed.
Lemma steps_throw {A} R `{!Reflexive R} (e : E) : steps R (throw (A := A) e).
Proof. intros s. simpl. reflexivity. Qed.
Lemma steps_gets {A} R `{!Reflexive R} (f : S -> A) : steps R (gets f).
Proof. intros s. simpl. reflexivity. Qed.
Lemma steps_lift {A} R `{!Reflexive R} (r : result E A) : steps R (lift r).
Proof. intros s. simpl. reflexivity. Qed.
Lemma steps_modify (R : S -> S -> Prop) (f : S -> S) : (forall s, R s (f s)) -> steps R (modify f).
Proof. intros H s. apply H. Qed.
Lemma steps_step {A} (R : S -> S -> Prop) (f : S -> S * A) :
  (forall s, R s (fst (f s))) -> steps R (step f).
Proof. intros H s. unfold step. specialize (H s). by destruct (f s). Qed.
Lemma steps_bind {A B} R `{!Transitive R} (m : M S E A) (f : A -> M S E B) :
  steps R m -> (forall a, steps R (f a)) -> steps R (m ≫= f).
Proof.
  intros Hm Hf s. unfold mbind, M_bind. specialize (Hm s).
  destruct (m s) as [s' [a|e]]; simpl in *; [|done]. etrans; [done|apply Hf].
Qed.
Lemma steps_fmap {A B} R (m : M S E A) (f : A -> B) : steps R m -> steps R (f <$> m).
Proof. intros Hm s. specialize (Hm s). unfold fmap, M_fmap. by destruct (m s) as [s' []]. Qed.
Lemma steps_when R `{!Reflexive R} b m : steps R m -> steps R (when b m).
Proof. destruct b; [done|]. intros _. by apply steps_ret. Qed.
Lemma steps_forM {A} R `{!Reflexive R, !Transitive R} (l : list A) (f : A -> M S E unit) :
  (forall x, steps R (f x)) -> steps R (forM l f).
Proof.
  intros Hf. induction l as [|x l IH]; simpl; [by apply steps_ret|].
  apply steps_bind; [done|apply Hf|done].
Qed.
Lemma steps_ran {A} (R : S -> S -> Prop) (m : M S E A) s s' r : steps R m -> m s = (s', r) -> R s s'.
Proof. intros Hm Hr. specialize (Hm s). by rewrite Hr in Hm. Qed.
(** A step whose continuation depends on what was read. *)
Lemma steps_gets_bind {A B} (R : S -> S -> Prop) (g : S -> A) (f : A -> M S E B) :
  (forall s, R s (fst (f (g s) s))) -> steps R (gets g ≫= f).
Proof. intros Hf s. apply Hf. Qed.
Lemma steps_after {A} R `{!Transitive R} (m : M S E A) s s' : R s s' -> steps R m -> R s (fst (m s')).
Proof. intros HR Hm. etrans; [done|apply Hm]. Qed.
End reasoning.

Lemma steps_conv {S E F A} R (g : F -> E) (m : M S F A) :
  steps R m -> steps R (conv g m).
Proof. intros Hm s. specialize (Hm s). unfold conv. by destruct (m s). Qed.
Lemma steps_try {S E F A} R (m : M S F A) : steps R m -> steps R (try (E := E) m).
Proof. intros Hm s. specialize (Hm s). unfold try. by destruct (m s). Qed.
Lemma steps_mono {S E A} (R R' : S -> S -> Prop) (m : M S E A) :
  (forall s s', R s s' -> R' s s') -> steps R m -> steps R' m.
Proof. intros HR Hm s. apply HR, Hm. Qed.

(** What a successful or failed sequence did. *)
Lemma bind_inv {S E A B} (m : M S E A) (f : A -> M S E B) s s' r :
  (m ≫= f) s = (s', r) ->
  (exists e, m s = (s', Err e) /\ r = Err e) \/
  (exists a s1, m s = (s1, Ok a) /\ f a s1 = (s', r)).
Proof.
  unfold mbind, M_bind. destruct (m s) as [s1 [a|e]] eqn:Hm; intros H; simplify_eq.
  - right. eauto.
  - left. eauto.
Qed.

Lemma bind_ok {S E A B} (m : M S E A) (f : A -> M S E B) s s' b :
  (m ≫= f) s = (s', Ok b) -> exists a s1, m s = (s1, Ok a) /\ f a s1 = (s', Ok b).
Proof. intros [(e & _ & ?)|?]%bind_inv; [done|done]. Qed.

Lemma bind_eq {S E A B} (m : M S E A) (f : A -> M S E B) s :
  (m ≫= f) s = match m s with (s', Ok a) => f a s' | (s', Err e) => (s', Err e) end.
Proof. done. Qed.

Create HintDb steps discriminated.
#[export] Hint Resolve steps_conv steps_try : steps.

(** Walks down a monadic program, leaving the primitive steps. *)
Ltac steps_tac :=
  repeat lazymatch goal with
    | |- forall _, _ => intros
    | |- steps _ (_ ≫= _) => apply steps_bind; [apply _| |]
    | |- steps _ (_ <$> _) => apply steps_fmap
    | |- steps _ (mret _) => apply steps_ret; apply _
    | |- steps _ (gets _) => apply steps_gets; apply _
    | |- steps _ (lift _) => apply steps_lift; apply _
    | |- steps _ (throw _) => apply steps_throw; apply _
    | |- steps _ (when _ _) => apply steps_when; [apply _|]
    | |- steps _ (conv _ _) => apply steps_conv
    | |- steps _ (try _) => apply steps_try
    | |- steps _ (forM _ _) => apply steps_forM; [apply _..|]
    | |- _ => first [ solve [ eauto 6 with steps typeclass_instances ] | case_match | case_decide ]
    end.

(** ** Steps that cannot fail *)

Section total.
Context {S E : Type}.
Definition total {A} (m : M S E A) : Prop := forall s, exists s' a, m s = (s', Ok a).
Lemma total_ret {A} (a : A) : total (mret a).
Proof. intros s. by eexists _, _. Qed.
Lemma total_gets {A} (f : S -> A) : total (gets f).
Proof. intros s. by eexists _, _. Qed.
Lemma total_modify (f : S -> S) : total (modify f).
Proof. intros s. by eexists _, _. Qed.
Lemma total_step {A} (f : S -> S * A) : total (step f).
Proof. intros s. unfold step. destruct (f s) as [s' a]. by eexists _, _. Qed.
Lemma total_bind {A B} (m : M S E A) (f : A -> M S E B) : total m -> (forall a, total (f a)) -> total (m ≫= f).
Proof. intros Hm Hf s. destruct (Hm s) as (s1 & a & Hs). rewrite bind_eq, Hs. apply Hf. Qed.
Lemma total_when b (m : M S E unit) : total m -> total (when b m).
Proof. destruct b; [done|]. intros _. apply total_ret. Qed.
Lemma total_no_err {A} (m : M S E A) s s' e : total m -> m s <> (s', Err e).
Proof. intros Hm Hs. destruct (Hm s) as (? & ? & ?). congruence. Qed.
End total.
Lemma total_try {S E F A} (m : M S F A) : total (try (E := E) m).
Proof. intros s. unfold try. destruct (m s) as [s' r]. by eexists _, _. Qed.

Create HintDb total discriminated.
#[export] Hint Resolve total_ret total_gets total_modify total_step total_try : total.
Ltac total_tac :=
  repeat lazymatch goal with
    | |- forall _, _ => intros
    | |- total (_ ≫= _) => apply total_bind
    | |- total (when _ _) => apply total_when
    | |- _ => first [ solve [ eauto 4 with total ] | case_match | case_decide ]
    end.

(** ** Which errors a step may end with, and which values it may return *)

Section outcomes.
Context {S E : Type}.
Definition errs {A} (P : E -> Prop) (m : M S E A) : Prop := forall s s' e, m s = (s', Err e) -> P e.
Definition yields {A} (V : A -> Prop) (m : M S E A) : Prop := forall s s' a, m s = (s', Ok a) -> V a.
Lemma errs_total {A} P (m : M S E A) : total m -> errs P m.
Proof. intros Hm s s' e Hs. by apply total_no_err in Hs. Qed.
Lemma errs_bind {A B} P (m : M S E A) (f : A -> M S E B) : errs P m -> (forall a, errs P (f a)) -> errs P (m ≫= f).
Proof.
  intros Hm Hf s s' e Hs. apply bind_inv in Hs as [(e' & Hs & [= ->])|(a & s1 & _ & Hs)]; [by eapply Hm|by eapply Hf].
Qed.
Lemma errs_when P b (m : M S E unit) : errs P m -> errs P (when b m).
Proof. destruct b; [done|]. intros _. apply errs_total, total_ret. Qed.
Lemma errs_throw {A} (P : E -> Prop) (e : E) : P e -> errs P (throw (A := A) e).
Proof. intros He s s' e' [= _ <-]. done. Qed.
Lemma errs_lift {A} (P : E -> Prop) (r : result E A) :
  match r with Ok _ => True | Err e => P e end -> errs P (lift r).
Proof. intros Hr s s' e [= _ ->]. done. Qed.
Lemma errs_forM {A} P (l : list A) (f : A -> M S E unit) : (forall x, errs P (f x)) -> errs P (forM l f).
Proof. intros Hf. induction l as [|x l IH]; simpl; [apply errs_total, total_ret|]. by apply errs_bind. Qed.
Lemma errs_mono {A} (P Q : E -> Prop) (m : M S E A) : (forall e, P e -> Q e) -> errs P m -> errs Q m.
Proof. intros HP Hm s s' e Hs. eapply HP, Hm, Hs. Qed.
Lemma yields_True {A} (m : M S E A) : yields (fun _ => True) m.
Proof. done. Qed.
Lemma yields_bind {A B} (V : A -> Prop) (W : B -> Prop) (m : M S E A) (f : A -> M S E B) :
  yields V m -> (forall a, V a -> yields W (f a)) -> yields W (m ≫= f).
Proof. intros Hm Hf s s' b Hs. apply bind_ok in Hs as (a & s1 & H1 & H2). eapply Hf; [eapply Hm|]; done. Qed.
Lemma yields_ret {A} (V : A -> Prop) (a : A) : V a -> yields V (mret a).
Proof. intros Ha s s' b [= _ <-]. done. Qed.
End outcomes.
Lemma errs_conv {S E F A} (P : E -> Prop) (g : F -> E) (m : M S F A) : errs (fun e => P (g e)) m -> errs P (conv g m).
Proof.
  intros Hm s s' e Hs. unfold conv in Hs. destruct (m s) as [s1 [a|e']] eqn:Hms; simpl in Hs; simplify_eq. by eapply (Hm s).
Qed.
Lemma errs_any {S E A} (P : E -> Prop) (m : M S E A) : (forall e, P e) -> errs P m.
Proof. intros HP s s' e _. apply HP. Qed.

Create HintDb errs discriminated.
Ltac errs_tac :=
  repeat lazymatch goal with
    | |- forall _, _ => intros
    | |- errs _ (_ ≫= _) => apply errs_bind
    | |- errs _ (when _ _) => apply errs_when
    | |- errs _ (forM _ _) => apply errs_forM
    | |- errs _ (throw _) => apply errs_throw; try done
    | |- errs _ (conv _ _) => first [ solve [ eauto 4 with errs ] | apply errs_conv; solve [ by apply errs_any ] | apply errs_conv ]
    | |- _ => first [ solve [ eauto 4 with errs ] | solve [ apply errs_total; eauto 4 with total ] | case_match | case_decide ]
    end.

(** Invert a chain of [Ok] binds in the result monad. *)
Ltac result_inv :=
  repeat match goal with
  | H : (_ ≫= _) = Ok _ |- _ =>
      let a := fresh "a" in let Ha := fresh "Ha" in
      apply result_bind_Ok in H as (a & Ha & H)
  | H : mret _ = Ok _ |- _ => injection H as H
  | H : Ok _ = Ok _ |- _ => injection H as H
  | H : Err _ = Ok _ |- _ => discriminate H
  | H : ok_or _ ?o = Ok _ |- _ => destruct o eqn:?; simpl in H
  | H : map_err _ ?o = Ok _ |- _ => destruct o eqn:?; simpl in H
  | H : match ?x with _ => _ end = Ok _ |- _ => destruct x eqn:?; simpl in H
  end; simplify_eq.
