(* ===== verification/Ord.v ===== *)
(** Ordered collections: Rust's [BTreeMap] and [BTreeSet] as association lists and lists kept
    strictly sorted by a three-way comparison, with the lookup laws, and the comparison
    instances the program uses (bytewise order of strings, lexicographic order of lists). *)

From S2P Require Import Prelude.

(** * Comparisons ([Ord]) *)

Class Cmp (K : Type) : Type := cmp : K -> K -> comparison.

Class CmpLaws (K : Type) `{Cmp K} : Prop := {
  cmp_refl (x : K) : cmp x x = Eq;
  cmp_eq (x y : K) : cmp x y = Eq -> x = y;
  cmp_anti (x y : K) : cmp x y = CompOpp (cmp y x);
  cmp_trans (x y z : K) : cmp x y = Lt -> cmp y z = Lt -> cmp x z = Lt
}.

#[export] Instance cmp_string : Cmp string := String.compare.
#[export] Instance cmp_N : Cmp N := N.compare.

Fixpoint list_cmp {K} `{Cmp K} (l1 l2 : list K) : comparison :=
  match l1, l2 with
  | [], [] => Eq
  | [], _ :: _ => Lt
  | _ :: _, [] => Gt
  | x :: l1', y :: l2' => match cmp x y with Eq => list_cmp l1' l2' | c => c end
  end.
#[export] Instance cmp_list {K} `{Cmp K} : Cmp (list K) := list_cmp.

#[export] Instance cmp_N_laws : CmpLaws N.
Proof.
  split; unfold cmp, cmp_N; intros.
  - apply N.compare_refl.
  - by apply N.compare_eq.
  - rewrite N.compare_antisym. by destruct (N.compare y x).
  - rewrite N.compare_lt_iff in *. lia.
Qed.

Section list_cmp.
Context {K : Type} `{CmpLaws K}.
Implicit Types x y z : list K.

Lemma list_cmp_refl x : list_cmp x x = Eq.
Proof. induction x as [|a x IH]; simpl; [done|]. by rewrite cmp_refl. Qed.
Lemma list_cmp_eq x y : list_cmp x y = Eq -> x = y.
Proof.
  revert y. induction x as [|a x IH]; intros [|b y]; simpl; try done.
  destruct (cmp a b) eqn:Hab; try done. intros ?%IH. apply cmp_eq in Hab. congruence.
Qed.
Lemma list_cmp_anti x y : list_cmp x y = CompOpp (list_cmp y x).
Proof.
  revert y. induction x as [|a x IH]; intros [|b y]; simpl; try done.
  rewrite (cmp_anti a b). destruct (cmp b a) eqn:Hba; simpl; try done.
Qed.
Lemma list_cmp_trans x y z : list_cmp x y = Lt -> list_cmp y z = Lt -> list_cmp x z = Lt.
Proof.
  revert y z. induction x as [|a x IH]; intros [|b y] [|c z]; simpl; try done.
  destruct (cmp a b) eqn:Hab; try done.
  - apply cmp_eq in Hab as ->. destruct (cmp b c); try done. apply IH.
  - intros _. destruct (cmp b c) eqn:Hbc; try done.
    + apply cmp_eq in Hbc as ->. by rewrite Hab.
    + intros _. by rewrite (cmp_trans a b c).
Qed.
#[export] Instance cmp_list_laws : CmpLaws (list K) :=
  {| cmp_refl := list_cmp_refl; cmp_eq := list_cmp_eq;
     cmp_anti := list_cmp_anti; cmp_trans := list_cmp_trans |}.
End list_cmp.

#[export] Instance cmp_string_laws : CmpLaws string.
Proof.
  split; unfold cmp, cmp_string.
  - induction x as [|a x IH]; simpl; [done|].
    unfold Ascii.compare. by rewrite N.compare_refl.
  - apply String.compare_eq_iff.
  - apply String.compare_antisym.
  - induction x as [|a x IH]; intros [|b y] [|c z]; simpl; try done.
    unfold Ascii.compare.
    destruct (N.compare_spec (N_of_ascii a) (N_of_ascii b)),
      (N.compare_spec (N_of_ascii b) (N_of_ascii c)),
      (N.compare_spec (N_of_ascii a) (N_of_ascii c)); try done; try lia; apply IH.
Qed.

(** * Maps and sets *)

Section omap.
Context {K : Type} `{CmpLaws K} `{EqDecision K} {V : Type}.
Implicit Types (m : list (K * V)) (k : K) (v : V).

Fixpoint omap_get k m : option V :=
  match m with
  | [] => None
  | (k', v) :: m' => if decide (k = k') then Some v else omap_get k m'
  end.

(** [BTreeMap::insert]. *)
Fixpoint omap_insert k v m : list (K * V) :=
  match m with
  | [] => [(k, v)]
  | (k', v') :: m' =>
      match cmp k k' with
      | Eq => (k, v) :: m'
      | Lt => (k, v) :: m
      | Gt => (k', v') :: omap_insert k v m'
      end
  end.

(** [BTreeMap::remove]. *)
Definition omap_remove k m : list (K * V) := filter (fun kv => kv.1 <> k) m.

(** [collect] into a map: later pairs overwrite earlier ones. *)
Definition omap_of_list (l : list (K * V)) : list (K * V) :=
  foldl (fun m kv => omap_insert kv.1 kv.2 m) [] l.

Definition omap_sorted m : Prop := StronglySorted (fun a b => cmp a.1 b.1 = Lt) m.

Lemma omap_get_insert k k' v m :
  omap_get k' (omap_insert k v m) = if decide (k' = k) then Some v else omap_get k' m.
Proof.
  induction m as [|[k2 v2] m IH]; simpl; [by repeat case_decide|].
  destruct (cmp k k2) eqn:Hc; simpl.
  - apply cmp_eq in Hc as ->. by repeat case_decide.
  - by repeat case_decide.
  - rewrite IH. assert (k <> k2) by (intros ->; by rewrite cmp_refl in Hc).
    by repeat case_decide; simplify_eq.
Qed.

Lemma omap_get_remove k k' m :
  omap_get k' (omap_remove k m) = if decide (k' = k) then None else omap_get k' m.
Proof.
  unfold omap_remove. induction m as [|[k2 v2] m IH]; [by case_decide|].
  rewrite filter_cons. simpl. repeat case_decide; simpl; rewrite ?IH;
    repeat case_decide; simplify_eq; try done.
Qed.

Lemma omap_insert_fst_in k v m x :
  x ∈ (omap_insert k v m).*1 -> x = k \/ x ∈ m.*1.
Proof.
  induction m as [|[k2 v2] m IH]; simpl; [set_solver|].
  destruct (cmp k k2); simpl; [set_solver..|].
  intros [->|Hx]%elem_of_cons; [set_solver|]. apply IH in Hx. set_solver.
Qed.

Lemma omap_sorted_cons k v m :
  omap_sorted ((k, v) :: m) <-> omap_sorted m /\ (forall x, x ∈ m.*1 -> cmp k x = Lt).
Proof.
  unfold omap_sorted. split.
  - intros [? Hf]%StronglySorted_inv. split; [done|]. intros x Hx.
    rewrite Forall_forall in Hf. apply list_elem_of_fmap in Hx as ([? ?] & -> & ?).
    by apply (Hf (_, _)).
  - intros [? Hf]. constructor; [done|]. apply Forall_forall. intros [x w] Hx.
    apply (Hf x). apply list_elem_of_fmap. by exists (x, w).
Qed.

Lemma omap_insert_sorted k v m : omap_sorted m -> omap_sorted (omap_insert k v m).
Proof.
  induction m as [|[k2 v2] m IH]; simpl; intros Hs; [by repeat constructor|].
  pose proof Hs as [Hm Hlt]%omap_sorted_cons.
  destruct (cmp k k2) eqn:Hc.
  - apply cmp_eq in Hc as ->. by apply omap_sorted_cons.
  - apply omap_sorted_cons. split; [done|]. simpl. intros x [->|Hx]%elem_of_cons; [done|].
    by apply (cmp_trans k k2 x), Hlt.
  - apply omap_sorted_cons. split; [by apply IH|].
    intros x [->|Hx]%omap_insert_fst_in; [|by apply Hlt]. by rewrite cmp_anti, Hc.
Qed.

Lemma omap_of_list_sorted l : omap_sorted (omap_of_list l).
Proof.
  unfold omap_of_list. assert (Hs : omap_sorted (@nil (K * V))) by constructor. revert Hs.
  generalize (@nil (K * V)). induction l as [|[k v] l IH]; simpl; intros m ?; [done|].
  by apply IH, omap_insert_sorted.
Qed.

Lemma omap_sorted_NoDup m : omap_sorted m -> NoDup m.*1.
Proof.
  induction m as [|[k v] m IH]; intros Hs; [constructor|].
  apply omap_sorted_cons in Hs as [Hm Hlt]. rewrite fmap_cons. constructor; [|by apply IH].
  intros Hin%Hlt. by rewrite cmp_refl in Hin.
Qed.

Lemma omap_get_elem k v m : omap_get k m = Some v -> (k, v) ∈ m.
Proof.
  induction m as [|[k2 v2] m IH]; simpl; [done|]. case_decide; [|set_solver].
  intros [= ->]. subst. constructor.
Qed.

Lemma omap_insert_elem k v m x : x ∈ omap_insert k v m -> x = (k, v) \/ x ∈ m.
Proof.
  induction m as [|[k2 v2] m IH]; simpl; [set_solver|]. destruct (cmp k k2); set_solver.
Qed.

Lemma omap_elem_get k v m : omap_sorted m -> (k, v) ∈ m -> omap_get k m = Some v.
Proof.
  induction m as [|[k2 v2] m IH]; intros Hs; [by intros ?%elem_of_nil|].
  apply omap_sorted_cons in Hs as [Hm Hlt]. simpl. intros [[= <- <-]|Hin]%elem_of_cons.
  - by rewrite decide_True.
  - assert (k ∈ m.*1) by (apply list_elem_of_fmap; by exists (k, v)).
    rewrite decide_False; [by apply IH|]. intros ->. specialize (Hlt k2). rewrite cmp_refl in Hlt.
    by discriminate Hlt.
Qed.

(** Inserting an entry larger than every key appends it. *)
Lemma omap_insert_last k v m :
  (forall x, x ∈ m.*1 -> cmp x k = Lt) -> omap_insert k v m = m ++ [(k, v)].
Proof.
  induction m as [|[k2 v2] m IH]; simpl; intros Hlt; [done|].
  rewrite cmp_anti, Hlt by set_solver. simpl. f_equal. apply IH. set_solver.
Qed.

(** A sorted map rebuilds itself. *)
Lemma omap_of_sorted m : omap_sorted m -> omap_of_list m = m.
Proof.
  unfold omap_of_list. assert (H1 : forall a m2, omap_sorted (a ++ m2) ->
    foldl (fun m kv => omap_insert kv.1 kv.2 m) a m2 = a ++ m2).
  { intros a m2. revert a. induction m2 as [|[k v] m2 IH]; intros a Hs; simpl.
    - by rewrite app_nil_r.
    - rewrite omap_insert_last; [rewrite IH|].
      + by rewrite <- app_assoc.
      + by rewrite <- app_assoc.
      + intros x Hx. clear IH. induction a as [|[k2 v2] a IHa]; [by apply elem_of_nil in Hx|].
        simpl in Hs. apply omap_sorted_cons in Hs as [Hs Hlt].
        rewrite fmap_cons, elem_of_cons in Hx. destruct Hx as [->|Hx]; [|by apply IHa].
        apply Hlt. rewrite fmap_app. set_solver. }
  apply (H1 []).
Qed.
End omap.

(** Sets as sorted lists. *)
Section oset.
Context {K : Type} `{CmpLaws K}.
Implicit Types (l : list K) (x : K).

Fixpoint oset_insert x l : list K :=
  match l with
  | [] => [x]
  | y :: l' => match cmp x y with
               | Eq => x :: l'
               | Lt => x :: l
               | Gt => y :: oset_insert x l'
               end
  end.
Definition oset_of_list (l : list K) : list K := foldl (fun s x => oset_insert x s) [] l.
Definition oset_sorted l : Prop := StronglySorted (fun a b => cmp a b = Lt) l.

Lemma elem_of_oset_insert x y l : y ∈ oset_insert x l <-> y = x \/ y ∈ l.
Proof.
  induction l as [|z l IH]; simpl; [set_solver|].
  destruct (cmp x z) eqn:Hc; [apply cmp_eq in Hc as ->| |]; set_solver.
Qed.

Lemma oset_insert_sorted x l : oset_sorted l -> oset_sorted (oset_insert x l).
Proof.
  induction l as [|z l IH]; simpl; intros Hs; [by repeat constructor|].
  pose proof Hs as [Hl Hlt]%StronglySorted_inv. rewrite Forall_forall in Hlt.
  destruct (cmp x z) eqn:Hc.
  - apply cmp_eq in Hc as ->. done.
  - constructor; [done|]. constructor; [done|]. apply Forall_forall. intros y Hy.
    by apply (cmp_trans x z y), Hlt.
  - constructor; [by apply IH|]. apply Forall_forall.
    intros y [->|Hy]%elem_of_oset_insert; [|by apply Hlt]. by rewrite cmp_anti, Hc.
Qed.

Lemma oset_of_list_spec l : oset_sorted (oset_of_list l) /\ forall x, x ∈ oset_of_list l <-> x ∈ l.
Proof.
  unfold oset_of_list. assert (H1 : forall s, oset_sorted s ->
    oset_sorted (foldl (fun s x => oset_insert x s) s l) /\
    forall x, x ∈ foldl (fun s x => oset_insert x s) s l <-> x ∈ s \/ x ∈ l).
  { induction l as [|y l IH]; simpl; intros s Hs.
    - split; [done|]. set_solver.
    - destruct (IH (oset_insert y s)) as [Hs' He]; [by apply oset_insert_sorted|].
      split; [done|]. intros x. rewrite He, elem_of_oset_insert, elem_of_cons. tauto. }
  destruct (H1 [] ltac:(constructor)) as [? He]. split; [done|]. intros x. rewrite He.
  set_solver.
Qed.

Lemma elem_of_oset_inserts s l x : x ∈ foldl (fun s x => oset_insert x s) s l <-> x ∈ s \/ x ∈ l.
Proof.
  revert s. induction l as [|y l IH]; simpl; intros s; [set_solver|].
  rewrite IH, elem_of_oset_insert, elem_of_cons. tauto.
Qed.

Lemma oset_insert_last x l : (forall y, y ∈ l -> cmp y x = Lt) -> oset_insert x l = l ++ [x].
Proof.
  induction l as [|z l IH]; simpl; intros Hlt; [done|].
  rewrite cmp_anti, Hlt by set_solver. simpl. f_equal. apply IH. set_solver.
Qed.

Lemma oset_of_sorted l : oset_sorted l -> oset_of_list l = l.
Proof.
  unfold oset_of_list. assert (H1 : forall a l2, oset_sorted (a ++ l2) ->
    foldl (fun s x => oset_insert x s) a l2 = a ++ l2).
  { intros a l2. revert a. induction l2 as [|x l2 IH]; intros a Hs; simpl.
    - by rewrite app_nil_r.
    - rewrite oset_insert_last; [rewrite IH|].
      + by rewrite <- app_assoc.
      + by rewrite <- app_assoc.
      + intros y Hy. clear IH. induction a as [|z a IHa]; [by apply elem_of_nil in Hy|].
        apply StronglySorted_inv in Hs as [Hs Hlt]. rewrite Forall_forall in Hlt.
        apply elem_of_cons in Hy as [->|Hy]; [|by apply IHa]. apply Hlt. set_solver. }
  apply (H1 []).
Qed.

(** A set is determined by its members. *)
Lemma oset_ext l1 l2 :
  oset_sorted l1 -> oset_sorted l2 -> (forall x, x ∈ l1 <-> x ∈ l2) -> l1 = l2.
Proof.
  revert l2. induction l1 as [|x l1 IH]; intros [|y l2] Hs1 Hs2 He.
  - done.
  - specialize (He y). set_solver.
  - specialize (He x). set_solver.
  - apply StronglySorted_inv in Hs1 as [Hs1 Hx]. apply StronglySorted_inv in Hs2 as [Hs2 Hy].
    rewrite Forall_forall in Hx, Hy.
    assert (x = y) as ->.
    { destruct (cmp x y) eqn:Hc; [by apply cmp_eq in Hc| |].
      - assert (x ∈ y :: l2) as [->|Hin]%elem_of_cons by (apply He; constructor); [done|].
        apply Hy in Hin. rewrite cmp_anti, Hc in Hin. done.
      - assert (y ∈ x :: l1) as [->|Hin]%elem_of_cons by (apply He; constructor); [done|].
        apply Hx in Hin. by rewrite Hin in Hc. }
    f_equal. apply IH; [done..|]. intros z. specialize (He z).
    rewrite !elem_of_cons in He. split; intros Hz.
    + destruct He as [[->|?] _]; [by right| |done]. apply Hx in Hz. by rewrite cmp_refl in Hz.
    + destruct He as [_ [->|?]]; [by right| |done]. apply Hy in Hz. by rewrite cmp_refl in Hz.
Qed.
End oset.
