(* ===== verification/Str.v ===== *)
(** The [str] operations of Rust's standard library that the program uses, on byte strings:
    prefix stripping, splitting at a separator, joining, ASCII case mapping, Unicode trimming,
    UTF-8 character boundaries, and the facts about them that the components share. *)

From S2P Require Import Prelude Ord.

Open Scope string_scope.

Notation byte_val := N_of_ascii.

(** * Searching and splitting *)

(** [str::strip_prefix] for a string pattern. *)
Fixpoint strip_prefix (p s : string) : option string :=
  match p, s with
  | EmptyString, _ => Some s
  | String a p', String b s' => if decide (a = b) then strip_prefix p' s' else None
  | String _ _, EmptyString => None
  end.

(** [str::starts_with]. *)
Definition starts_with (p s : string) : bool := bool_decide (is_Some (strip_prefix p s)).

(** [str::contains] for a string pattern. *)
Fixpoint contains (p s : string) : bool :=
  starts_with p s || match s with EmptyString => false | String _ s' => contains p s' end.

(** [s.ends_with(c)]. *)
Fixpoint ends_with_char (c : ascii) (s : string) : bool :=
  match s with
  | EmptyString => false
  | String a EmptyString => bool_decide (a = c)
  | String _ s' => ends_with_char c s'
  end.

(** [str::split(c)]: always at least one piece. *)
Fixpoint split_char (c : ascii) (s : string) : list string :=
  match s with
  | EmptyString => [""]
  | String a s' =>
      if decide (a = c) then "" :: split_char c s'
      else match split_char c s' with
           | [] => [String a ""]
           | w :: ws => String a w :: ws
           end
  end.

(** [str::split_once(c)]: at the first occurrence. *)
Fixpoint split_once (c : ascii) (s : string) : option (string * string) :=
  match s with
  | EmptyString => None
  | String a s' =>
      if decide (a = c) then Some ("", s')
      else match split_once c s' with
           | Some (l, r) => Some (String a l, r)
           | None => None
           end
  end.

(** [str::rsplit_once(c)]: at the last occurrence. *)
Fixpoint rsplit_once (c : ascii) (s : string) : option (string * string) :=
  match s with
  | EmptyString => None
  | String a s' =>
      match rsplit_once c s' with
      | Some (l, r) => Some (String a l, r)
      | None => if decide (a = c) then Some ("", s') else None
      end
  end.

(** [[&str]::join(sep)]. *)
Fixpoint join (sep : string) (l : list string) : string :=
  match l with
  | [] => ""
  | [w] => w
  | w :: ws => w +:+ sep +:+ join sep ws
  end.

(** [s.bytes().all(f)]. *)
Fixpoint all_bytes (f : ascii -> bool) (s : string) : bool :=
  match s with EmptyString => true | String a s' => f a && all_bytes f s' end.

Fixpoint map_bytes (f : ascii -> ascii) (s : string) : string :=
  match s with EmptyString => "" | String a s' => String (f a) (map_bytes f s') end.

Definition has_char (c : ascii) (s : string) : bool := negb (all_bytes (fun a => negb (bool_decide (a = c))) s).

(** * ASCII classes and case *)

Definition in_range (lo hi : ascii) (a : ascii) : bool :=
  (byte_val lo <=? byte_val a)%N && (byte_val a <=? byte_val hi)%N.
Definition is_ascii_digit : ascii -> bool := in_range "0" "9".
Definition is_ascii_lowercase : ascii -> bool := in_range "a" "z".
Definition is_ascii_uppercase : ascii -> bool := in_range "A" "Z".

Definition ascii_lower (a : ascii) : ascii :=
  if is_ascii_uppercase a then ascii_of_N (byte_val a + 32) else a.
Definition ascii_upper (a : ascii) : ascii :=
  if is_ascii_lowercase a then ascii_of_N (byte_val a - 32) else a.
Definition to_ascii_lowercase : string -> string := map_bytes ascii_lower.
Definition to_ascii_uppercase : string -> string := map_bytes ascii_upper.

(** * Trimming *)

(** One leading character with the Unicode property [White_Space], in its UTF-8 encoding. *)
Definition strip_ws (s : string) : option string :=
  match s with
  | String a r =>
      let n := byte_val a in
      if ((9 <=? n) && (n <=? 13) || (n =? 32))%N then Some r
      else match r with
           | String b r2 =>
               let m := byte_val b in
               if ((n =? 194) && ((m =? 133) || (m =? 160)))%N then Some r2
               else match r2 with
                    | String c r3 =>
                        let k := byte_val c in
                        if ((n =? 225) && (m =? 154) && (k =? 128)
                            || (n =? 226) && (m =? 128)
                               && ((128 <=? k) && (k <=? 138) || (k =? 168) || (k =? 169) || (k =? 175))
                            || (n =? 226) && (m =? 129) && (k =? 159)
                            || (n =? 227) && (m =? 128) && (k =? 128))%N
                        then Some r3 else None
                    | EmptyString => None
                    end
           | EmptyString => None
           end
  | EmptyString => None
  end.

(** [strip_ws] of the reversed string, one trailing character. *)
Definition strip_ws_rev (s : string) : option string :=
  match s with
  | String a r =>
      match strip_ws (String a "") with
      | Some _ => Some r
      | None =>
          match r with
          | String b r2 =>
              match strip_ws (String b (String a "")) with
              | Some "" => Some r2
              | _ => match r2 with
                     | String c r3 =>
                         match strip_ws (String c (String b (String a ""))) with
                         | Some "" => Some r3
                         | _ => None
                         end
                     | EmptyString => None
                     end
              end
          | EmptyString => None
          end
      end
  | EmptyString => None
  end.

Fixpoint strip_all (f : string -> option string) (fuel : nat) (s : string) : string :=
  match fuel with
  | O => s
  | S n => match f s with Some s' => strip_all f n s' | None => s end
  end.

(** [str::trim]. Each round removes at least one byte, so the length is enough fuel. *)
Definition trim (s : string) : string :=
  let s1 := strip_all strip_ws (String.length s) s in
  String.rev (strip_all strip_ws_rev (String.length s1) (String.rev s1)).

(** [str::trim_end_matches(c)]. *)
Fixpoint trim_end_matches (c : ascii) (s : string) : string :=
  match s with
  | EmptyString => ""
  | String a s' =>
      match trim_end_matches c s' with
      | EmptyString => if decide (a = c) then "" else String a ""
      | r => String a r
      end
  end.

(** * UTF-8 character boundaries *)

(** A continuation byte [10xxxxxx]. *)
Definition is_cont (a : ascii) : bool := (N.land (byte_val a) 192 =? 128)%N.

(** [str::is_char_boundary(i)]. *)
Definition is_char_boundary (s : string) (i : nat) : bool :=
  match Nat.compare i (String.length s) with
  | Eq => true
  | Gt => false
  | Lt => (i =? 0)%nat || match String.get i s with Some a => negb (is_cont a) | None => false end
  end.

(** [&s[..n]] and [&s[n..]]. *)
Fixpoint str_take (n : nat) (s : string) : string :=
  match n, s with
  | S n', String a s' => String a (str_take n' s')
  | _, _ => ""
  end.
Fixpoint str_drop (n : nat) (s : string) : string :=
  match n, s with
  | S n', String _ s' => str_drop n' s'
  | _, _ => s
  end.

(** * Facts *)

Lemma str_app_nil (s : string) : "" +:+ s = s.
Proof. done. Qed.
Lemma str_app_cons (x : ascii) (a b : string) : String x a +:+ b = String x (a +:+ b).
Proof. done. Qed.
Lemma str_app_nil_r (s : string) : s +:+ "" = s.
Proof. induction s as [|a s IH]; [done|]. by rewrite str_app_cons, IH. Qed.
Lemma str_app_assoc (a b c : string) : (a +:+ b) +:+ c = a +:+ (b +:+ c).
Proof. induction a as [|x a IH]; [done|]. by rewrite !str_app_cons, IH. Qed.
Lemma str_length_app (a b : string) : String.length (a +:+ b) = (String.length a + String.length b)%nat.
Proof. induction a as [|x a IH]; [done|]. rewrite str_app_cons. simpl. by rewrite IH. Qed.

Ltac str_simpl := rewrite ?str_app_cons, ?str_app_nil; simpl; rewrite ?str_app_cons, ?str_app_nil.

Lemma strip_prefix_Some p s r : strip_prefix p s = Some r <-> s = p +:+ r.
Proof.
  revert s. induction p as [|a p IH]; intros s; str_simpl; [naive_solver|].
  destruct s as [|b s]; [done|]. case_decide; subst.
  - rewrite IH. naive_solver.
  - naive_solver.
Qed.

Lemma strip_prefix_app p r : strip_prefix p (p +:+ r) = Some r.
Proof. by apply strip_prefix_Some. Qed.

Lemma starts_with_spec p s : starts_with p s = true <-> exists r, s = p +:+ r.
Proof.
  unfold starts_with. rewrite bool_decide_eq_true. split.
  - intros [r Hr%strip_prefix_Some]. eauto.
  - intros [r ->]. rewrite strip_prefix_app. eauto.
Qed.

Lemma all_bytes_app f a b : all_bytes f (a +:+ b) = all_bytes f a && all_bytes f b.
Proof. induction a as [|x a IH]; str_simpl; [done|]. by rewrite IH, andb_assoc. Qed.

Lemma has_char_cons c a s : has_char c (String a s) = bool_decide (a = c) || has_char c s.
Proof. unfold has_char. simpl. by rewrite negb_andb, negb_involutive. Qed.
Lemma has_char_app c a b : has_char c (a +:+ b) = has_char c a || has_char c b.
Proof. unfold has_char. by rewrite all_bytes_app, negb_andb. Qed.

Lemma split_once_app c l r : has_char c l = false -> split_once c (l +:+ String c r) = Some (l, r).
Proof.
  induction l as [|a l IH]; str_simpl; [by rewrite decide_True|].
  rewrite has_char_cons, orb_false_iff, bool_decide_eq_false. intros [? ?].
  rewrite decide_False by done. by rewrite IH.
Qed.

Lemma split_once_Some c s l r :
  split_once c s = Some (l, r) -> s = l +:+ String c r /\ has_char c l = false.
Proof.
  revert l. induction s as [|a s IH]; simpl; [done|]. intros l. case_decide; subst.
  - by intros [= <- <-].
  - destruct (split_once c s) as [[l' r']|]; [|done]. intros [= <- <-].
    destruct (IH l' eq_refl) as [-> Hl]. split; [done|].
    by rewrite has_char_cons, Hl, orb_false_r, bool_decide_eq_false.
Qed.

Lemma split_once_None c s : split_once c s = None <-> has_char c s = false.
Proof.
  induction s as [|a s IH]; simpl; [done|]. rewrite has_char_cons. case_decide; subst.
  - rewrite bool_decide_true by done. done.
  - rewrite bool_decide_false by done. simpl. rewrite <- IH.
    destruct (split_once c s) as [[]|]; done.
Qed.

Lemma split_char_None c s : has_char c s = false -> split_char c s = [s].
Proof.
  induction s as [|a s IH]; simpl; [done|].
  rewrite has_char_cons, orb_false_iff, bool_decide_eq_false. intros [? Hs].
  rewrite decide_False by done. by rewrite IH.
Qed.

Lemma split_char_app c w s :
  has_char c w = false -> split_char c (w +:+ String c s) = w :: split_char c s.
Proof.
  induction w as [|a w IH]; str_simpl; [by rewrite decide_True|].
  rewrite has_char_cons, orb_false_iff, bool_decide_eq_false. intros [? Hs].
  rewrite decide_False by done. by rewrite IH.
Qed.

(** Splitting undoes joining when no piece contains the separator. *)
Lemma split_join c (l : list string) :
  l <> [] -> Forall (fun w => has_char c w = false) l -> split_char c (join (String c "") l) = l.
Proof.
  intros Hne Hl. induction Hl as [|w l Hw Hl IH]; [done|]. destruct l as [|w' l].
  - by apply split_char_None.
  - change (join _ (w :: w' :: l)) with (w +:+ String c (join (String c "") (w' :: l))).
    rewrite split_char_app by done. by rewrite IH.
Qed.

Lemma str_take_drop n s : str_take n s +:+ str_drop n s = s.
Proof. revert s. induction n as [|n IH]; intros [|a s]; str_simpl; try done. by rewrite IH. Qed.

Lemma str_take_length n s : String.length (str_take n s) = Nat.min n (String.length s).
Proof. revert s. induction n as [|n IH]; intros [|a s]; simpl; try done. by rewrite IH. Qed.
Lemma str_drop_app s t : str_drop (String.length s) (s +:+ t) = t.
Proof. induction s as [|c s IH]; [by destruct t|exact IH]. Qed.
Lemma str_drop_length n s : String.length (str_drop n s) = (String.length s - n)%nat.
Proof. revert s. induction n as [|n IH]; intros [|a s]; simpl; try done. Qed.

Lemma split_char_pieces c s : Forall (fun w => has_char c w = false) (split_char c s).
Proof.
  induction s as [|a s IH]; simpl; [by repeat constructor|]. case_decide; subst.
  - by constructor.
  - destruct (split_char c s) as [|w ws]; [repeat constructor|].
    + by rewrite has_char_cons, bool_decide_false.
    + apply Forall_cons in IH as [Hw Hws]. constructor; [|done].
      by rewrite has_char_cons, Hw, bool_decide_false.
Qed.

Lemma join_snoc sep (l : list string) x :
  l <> [] -> join sep (l ++ [x]) = join sep l +:+ sep +:+ x.
Proof.
  induction l as [|w l IH]; [done|]. intros _. destruct l as [|w' l]; [done|].
  change (join sep ((w :: w' :: l) ++ [x])) with (w +:+ sep +:+ join sep ((w' :: l) ++ [x])).
  rewrite IH by done. change (join sep (w :: w' :: l)) with (w +:+ sep +:+ join sep (w' :: l)).
  by rewrite !str_app_assoc.
Qed.

Lemma ends_with_char_app c a b : b <> "" -> ends_with_char c (a +:+ b) = ends_with_char c b.
Proof.
  intros Hb. induction a as [|x a IH]; [done|]. rewrite str_app_cons. simpl.
  destruct (a +:+ b) eqn:E; [|by rewrite IH]. destruct a, b; done.
Qed.

Lemma ends_with_has_char c s : ends_with_char c s = true -> has_char c s = true.
Proof.
  induction s as [|a s IH]; simpl; [done|]. rewrite has_char_cons. destruct s.
  - by intros ->.
  - intros ?%IH. by rewrite H, orb_true_r.
Qed.

Lemma all_bytes_forall f s : all_bytes f s = true <-> forall a, has_char a s = true -> f a = true.
Proof.
  induction s as [|b s IH]; simpl; [split; [by intros _ a|done]|].
  rewrite andb_true_iff, IH. setoid_rewrite has_char_cons. setoid_rewrite orb_true_iff.
  setoid_rewrite bool_decide_eq_true. naive_solver.
Qed.
Lemma all_bytes_impl f g s : (forall a, f a = true -> g a = true) -> all_bytes f s = true -> all_bytes g s = true.
Proof. rewrite !all_bytes_forall. auto. Qed.
Lemma has_char_false f c s : all_bytes f s = true -> f c = false -> has_char c s = false.
Proof. rewrite all_bytes_forall. intros H Hc. destruct (has_char c s) eqn:E; [|done]. by rewrite (H _ E) in Hc. Qed.

Lemma rev_app_twice s t u : String.rev_app (String.rev_app s t) u = String.rev_app t (s +:+ u).
Proof. revert t. induction s as [|a s IH]; intros t; [done|]. cbn [String.rev_app]. by rewrite IH. Qed.
Lemma rev_twice s : String.rev (String.rev s) = s.
Proof. unfold String.rev. rewrite rev_app_twice. apply str_app_nil_r. Qed.
Lemma all_bytes_rev_app f s t : all_bytes f (String.rev_app s t) = all_bytes f s && all_bytes f t.
Proof.
  revert t. induction s as [|a s IH]; intros t; [done|]. cbn [String.rev_app all_bytes]. rewrite IH. cbn [all_bytes].
  destruct (f a), (all_bytes f s); done.
Qed.
(** A name that does not end in a dot keeps its end. *)
Lemma trim_end_matches_id c s : ends_with_char c s = false -> trim_end_matches c s = s.
Proof.
  induction s as [|a s IH]; [done|]. destruct s as [|b s].
  - cbn. intros H%bool_decide_eq_false. by rewrite decide_False.
  - intros H. change (ends_with_char c (String b s) = false) in H. cbn [trim_end_matches] in *. by rewrite IH.
Qed.

(** The pieces of a split, put together again. *)
Lemma join_split c s : join (String c "") (split_char c s) = s.
Proof.
  induction s as [|a s IH]; [done|]. cbn [split_char]. case_decide as Ha.
  - subst. destruct (split_char c s) as [|w ws] eqn:E; [by destruct s; cbn in E; repeat case_match|].
    change (String c (join (String c "") (w :: ws)) = String c s). by rewrite IH.
  - destruct (split_char c s) as [|w ws] eqn:E; [by destruct s; cbn in E; repeat case_match|].
    destruct ws as [|w' ws]; cbn [join] in *; by rewrite <- IH.
Qed.

Lemma rsplit_once_None c s : has_char c s = false -> rsplit_once c s = None.
Proof.
  induction s as [|a s IH]; simpl; [done|]. rewrite has_char_cons, orb_false_iff, bool_decide_eq_false.
  intros [? Hs]. by rewrite IH, decide_False.
Qed.
Lemma rsplit_once_None_inv c s : rsplit_once c s = None -> has_char c s = false.
Proof.
  induction s as [|a s IH]; cbn [rsplit_once]; [done|]. rewrite has_char_cons.
  destruct (rsplit_once c s) as [[]|]; [done|]. case_decide; [done|]. intros _. by rewrite IH, bool_decide_false.
Qed.
Lemma rsplit_once_app c a t : has_char c t = false -> rsplit_once c (a +:+ String c t) = Some (a, t).
Proof.
  intros Ht. induction a as [|x a IH]; rewrite ?str_app_nil, ?str_app_cons; cbn [rsplit_once].
  - by rewrite rsplit_once_None, decide_True.
  - by rewrite IH.
Qed.
Lemma rsplit_once_Some c s l r : rsplit_once c s = Some (l, r) -> s = l +:+ String c r /\ has_char c r = false.
Proof.
  revert l. induction s as [|a s IH]; intros l; [done|]. cbn [rsplit_once].
  destruct (rsplit_once c s) as [[l' r']|] eqn:E.
  - intros [= <- <-]. destruct (IH _ eq_refl) as [-> ?]. done.
  - case_decide; [|done]. intros [= <- <-]. subst. split; [done|]. by apply rsplit_once_None_inv.
Qed.
