(* ===== verification/Utf8.v ===== *)
(** Bytes that may not be text: UTF-8 validity and the lossy decoding of the standard library
    ([std::str::from_utf8], [String::from_utf8_lossy]). *)

From S2P Require Import Prelude Ord Str.

Open Scope string_scope.

Definition newline : ascii := "010".

(** * UTF-8 validity ([std::str::from_utf8]) *)

Definition byte_in (lo hi : N) (a : ascii) : bool := (lo <=? byte_val a)%N && (byte_val a <=? hi)%N.
Fixpoint utf8_valid (s : string) : bool :=
  match s with
  | EmptyString => true
  | String a s1 =>
      if byte_in 0 127 a then utf8_valid s1
      else match s1 with
      | EmptyString => false
      | String b s2 =>
          if byte_in 194 223 a then is_cont b && utf8_valid s2
          else match s2 with
          | EmptyString => false
          | String c s3 =>
              if byte_in 224 239 a then
                byte_in (if (byte_val a =? 224)%N then 160 else 128) (if (byte_val a =? 237)%N then 159 else 191) b
                && is_cont c && utf8_valid s3
              else match s3 with
              | EmptyString => false
              | String d s4 =>
                  byte_in 240 244 a
                  && byte_in (if (byte_val a =? 240)%N then 144 else 128) (if (byte_val a =? 244)%N then 143 else 191) b
                  && is_cont c && is_cont d && utf8_valid s4
              end
          end
      end
  end.

(** * Lossy decoding *)

(** U+FFFD. *)
Definition replacement_char : string := String "239" (String "191" (String "189" "")).

(** The byte at an index, zero past the end. *)
Fixpoint byte_at (i : nat) (s : string) {struct s} : N :=
  match s, i with
  | EmptyString, _ => 0
  | String a _, O => byte_val a
  | String _ s', S i' => byte_at i' s'
  end.
Definition n_in (lo hi n : N) : bool := ((lo <=? n) && (n <=? hi))%N.
(** Whether the text starts with a character, and how many bytes that character has; otherwise how
    many bytes one replacement stands for. *)
Definition head_char (s : string) : bool * nat :=
  let b := byte_at 0 s in
  if (b <? 128)%N then (true, 1)
  else if n_in 194 223 b then if n_in 128 191 (byte_at 1 s) then (true, 2) else (false, 1)
  else if n_in 224 239 b then
    if n_in (if (b =? 224)%N then 160 else 128) (if (b =? 237)%N then 159 else 191) (byte_at 1 s) then
      if n_in 128 191 (byte_at 2 s) then (true, 3) else (false, 2)
    else (false, 1)
  else if n_in 240 244 b then
    if n_in (if (b =? 240)%N then 144 else 128) (if (b =? 244)%N then 143 else 191) (byte_at 1 s) then
      if n_in 128 191 (byte_at 2 s) then if n_in 128 191 (byte_at 3 s) then (true, 4) else (false, 3)
      else (false, 2)
    else (false, 1)
  else (false, 1).

(** Each round consumes at least one byte. *)
Fixpoint lossy (fuel : nat) (s : string) : string :=
  match fuel, s with
  | S fuel, String _ _ =>
      let '(ok, n) := head_char s in
      (if ok then str_take n s else replacement_char) +:+ lossy fuel (str_drop n s)
  | _, _ => ""
  end.
Definition from_utf8_lossy (s : string) : string := lossy (String.length s) s.

Lemma head_char_pos s : (1 <= (head_char s).2)%nat.
Proof. unfold head_char. repeat case_match; simpl; lia. Qed.

Lemma lossy_fuel n m s : (String.length s <= n)%nat -> (String.length s <= m)%nat -> lossy n s = lossy m s.
Proof.
  revert m s. induction n as [|n IH]; intros m s Hn Hm; destruct s as [|a s]; simpl in *; try lia; [by destruct m..|].
  destruct m as [|m]; [lia|]. pose proof (head_char_pos (String a s)) as Hp. simpl.
  destruct (head_char (String a s)) as [ok k]. simpl in Hp. f_equal.
  destruct k as [|k]; [lia|]. apply IH; simpl; rewrite str_drop_length; lia.
Qed.

Lemma lossy_unfold s : s <> "" ->
  from_utf8_lossy s =
    (if (head_char s).1 then str_take (head_char s).2 s else replacement_char) +:+
      from_utf8_lossy (str_drop (head_char s).2 s).
Proof.
  intros Hs. unfold from_utf8_lossy at 1. destruct s as [|a s]; [done|]. cbn [String.length lossy].
  pose proof (head_char_pos (String a s)) as Hp. destruct (head_char (String a s)) as [ok k]. simpl in Hp |- *. f_equal.
  destruct k as [|k]; [lia|]. apply lossy_fuel; simpl; rewrite ?str_drop_length; lia.
Qed.

(** A line end never completes a character that was cut short. *)
Lemma byte_at_snoc i s c : byte_at i (s +:+ String c "") = byte_at i s \/
  (byte_at i s = 0%N /\ byte_at i (s +:+ String c "") = byte_val c).
Proof.
  revert i. induction s as [|a s IH]; intros i.
  - rewrite str_app_nil. destruct i; [by right|by left].
  - rewrite str_app_cons. destruct i; [by left|apply IH].
Qed.
Lemma n_in_snoc lo hi i s : (128 <= lo)%N -> n_in lo hi (byte_at i (s +:+ String newline "")) = n_in lo hi (byte_at i s).
Proof.
  intros Hlo. destruct (byte_at_snoc i s newline) as [->|[H ->]]; [done|]. rewrite H. unfold n_in.
  change (byte_val newline) with 10%N. replace (lo <=? 10)%N with false by (symmetry; apply N.leb_gt; lia).
  replace (lo <=? 0)%N with false by (symmetry; apply N.leb_gt; lia). done.
Qed.
Lemma head_char_snoc s : s <> "" -> head_char (s +:+ String newline "") = head_char s.
Proof.
  intros Hs. assert (H0 : byte_at 0 (s +:+ String newline "") = byte_at 0 s)
    by (destruct s; [done|by rewrite str_app_cons]).
  unfold head_char. rewrite H0, !n_in_snoc by (try case_match; lia). done.
Qed.

Lemma head_char_in s : s <> "" -> ((head_char s).2 <= String.length s)%nat.
Proof.
  assert (Hb : forall i lo hi, (0 < lo)%N -> n_in lo hi (byte_at i s) = true -> (i < String.length s)%nat).
  { intros i lo hi Hlo H. destruct (decide (i < String.length s)%nat) as [|Hi]; [done|]. exfalso.
    assert (byte_at i s = 0%N) as H0.
    { clear H. revert i Hi. induction s as [|a s' IH]; intros [|i] Hi; simpl in *; try lia; try done. apply IH. lia. }
    rewrite H0 in H. unfold n_in in H. apply andb_prop in H as [H _]. apply N.leb_le in H. lia. }
  intros Hs. assert (0 < String.length s)%nat by (destruct s; simpl; [done|lia]).
  unfold head_char. repeat case_match; simpl; try lia;
    repeat match goal with H : n_in _ _ (byte_at _ s) = true |- _ => apply Hb in H; [|try case_match; lia] end; lia.
Qed.

(** Decoding a line with its line end is decoding the line. *)
Lemma lossy_snoc s : from_utf8_lossy (s +:+ String newline "") = from_utf8_lossy s +:+ String newline "".
Proof.
  remember (String.length s) as n eqn:Hn. revert s Hn. induction n as [n IH] using lt_wf_ind. intros s ->.
  destruct (decide (s = "")) as [->|Hs]; [reflexivity|].
  assert (Hne : s +:+ String newline "" <> "") by (destruct s; by rewrite ?str_app_cons).
  rewrite (lossy_unfold (s +:+ _)), (lossy_unfold s), head_char_snoc by done.
  pose proof (head_char_in s Hs) as Hin. pose proof (head_char_pos s) as Hp. destruct (head_char s) as [ok k]. simpl in *.
  assert (Ht : forall j t, (j <= String.length t)%nat -> str_take j (t +:+ String newline "") = str_take j t /\
    str_drop j (t +:+ String newline "") = str_drop j t +:+ String newline "").
  { induction j as [|j IHj]; intros t Hj; [by destruct t|]. destruct t as [|a t]; simpl in Hj; [lia|].
    rewrite str_app_cons. simpl. destruct (IHj t) as [-> ->]; [lia|done]. }
  destruct (Ht k s Hin) as [-> ->]. rewrite str_app_assoc. f_equal.
  apply (IH (String.length (str_drop k s))); [rewrite str_drop_length; lia|done].
Qed.

(** * The ends of lines and texts *)

(** [trim_end_matches] and [trim_start_matches] with a set of characters. *)
Fixpoint trim_end_by (f : ascii -> bool) (s : string) : string :=
  match s with
  | EmptyString => ""
  | String a s' => match trim_end_by f s' with
                   | EmptyString => if f a then "" else String a ""
                   | r => String a r
                   end
  end.
Fixpoint trim_start_by (f : ascii -> bool) (s : string) : string :=
  match s with
  | EmptyString => ""
  | String a s' => if f a then trim_start_by f s' else s
  end.
Definition is_eol (a : ascii) : bool := bool_decide (a = newline \/ a = "013"%char).

Lemma trim_end_by_snoc f s c : f c = true -> trim_end_by f (s +:+ String c "") = trim_end_by f s.
Proof.
  intros Hc. induction s as [|a s IH]; [by rewrite str_app_nil; simpl; rewrite Hc|].
  rewrite str_app_cons. simpl. by rewrite IH.
Qed.
