(* ===== verification/Sse.v ===== *)
(** [providers/src/sse.rs]: the incremental parser of a server-sent-event stream, and its
    equivalence with reading the whole body at once. *)

From S2P Require Import Prelude Ord Str Utf8.

Open Scope string_scope.
Open Scope list_scope.

Inductive SseEvent : Type :=
  | SseDone
  | SseData (payload : string).

Record SseParser : Type := { sse_buf : string; sse_data_lines : list string }.
Definition sse_new : SseParser := {| sse_buf := ""; sse_data_lines := [] |}.

(** [SseParser::dispatch]. *)
Definition dispatch (p : SseParser) : SseParser * list SseEvent :=
  match sse_data_lines p with
  | [] => (p, [])
  | _ =>
      let payload := join (String newline "") (sse_data_lines p) in
      ({| sse_buf := sse_buf p; sse_data_lines := [] |},
       [if decide (trim payload = "[DONE]") then SseDone else SseData payload])
  end.

(** [SseParser::take_line]. *)
Definition take_line (raw : string) (p : SseParser) : SseParser * list SseEvent :=
  let line := trim_end_by is_eol (from_utf8_lossy raw) in
  if decide (line = "") then dispatch p
  else if starts_with ":" line then (p, [])
  else match strip_prefix "data:" line with
       | Some rest =>
           ({| sse_buf := sse_buf p; sse_data_lines := sse_data_lines p ++ [default rest (strip_prefix " " rest)] |}, [])
       | None => (p, [])
       end.

(** The loop of [SseParser::push]; a round removes a line from the buffer. *)
Fixpoint drain_lines (fuel : nat) (p : SseParser) : SseParser * list SseEvent :=
  match fuel with
  | O => (p, [])
  | S fuel =>
      match split_once newline (sse_buf p) with
      | None => (p, [])
      | Some (line, rest) =>
          let '(p, out) := take_line (line +:+ String newline "") {| sse_buf := rest; sse_data_lines := sse_data_lines p |} in
          let '(p, more) := drain_lines fuel p in
          (p, out ++ more)
      end
  end.
Definition push (bytes : string) (p : SseParser) : SseParser * list SseEvent :=
  let buf := sse_buf p +:+ bytes in
  drain_lines (String.length buf) {| sse_buf := buf; sse_data_lines := sse_data_lines p |}.

(** [SseParser::finish]. *)
Definition finish (p : SseParser) : SseParser * list SseEvent :=
  let '(p, out) :=
    if decide (sse_buf p = "") then (p, [])
    else take_line (sse_buf p) {| sse_buf := ""; sse_data_lines := sse_data_lines p |} in
  let '(p, last) := dispatch p in
  (p, out ++ last).

(** A whole stream, chunk by chunk. *)
Fixpoint push_all (chunks : list string) (p : SseParser) : SseParser * list SseEvent :=
  match chunks with
  | [] => (p, [])
  | c :: chunks =>
      let '(p, out) := push c p in
      let '(p, more) := push_all chunks p in
      (p, out ++ more)
  end.
Definition sse_run (chunks : list string) : list SseEvent :=
  let '(p, out) := push_all chunks sse_new in
  out ++ (finish p).2.

(** * Reference: a body read at once *)

Inductive SseLine : Type :=
  | Blank
  | Payload (text : string)
  | Ignored.
Definition classify (raw : string) : SseLine :=
  let line := trim_end_by is_eol (from_utf8_lossy raw) in
  if decide (line = "") then Blank
  else match strip_prefix "data:" line with
       | Some rest => Payload (default rest (strip_prefix " " rest))
       | None => Ignored
       end.
Definition event_of (payloads : list string) : list SseEvent :=
  match payloads with
  | [] => []
  | _ => let text := join (String newline "") payloads in
         [if decide (trim text = "[DONE]") then SseDone else SseData text]
  end.
(** One event for each run of payload lines, which a blank line or the end closes. *)
Fixpoint sse_events (pending : list string) (lines : list SseLine) : list SseEvent :=
  match lines with
  | [] => event_of pending
  | Blank :: lines => event_of pending ++ sse_events [] lines
  | Payload text :: lines => sse_events (pending ++ [text]) lines
  | Ignored :: lines => sse_events pending lines
  end.
Definition sse_reference (body : string) : list SseEvent :=
  sse_events [] (classify <$> split_char newline body).

(** * Facts *)

(** What is still to come from a parser that has yet to read [rest]. *)
Definition to_come (p : SseParser) (rest : string) : list SseEvent :=
  sse_events (sse_data_lines p) (classify <$> split_char newline (sse_buf p +:+ rest)).

Lemma sse_events_blank pending : sse_events pending [Blank] = event_of pending.
Proof. simpl. by rewrite app_nil_r. Qed.

Lemma dispatch_event p : dispatch p = ({| sse_buf := sse_buf p; sse_data_lines := [] |}, event_of (sse_data_lines p)).
Proof. unfold dispatch. by destruct p as [buf [|d ds]]. Qed.

Lemma classify_eol raw : classify (raw +:+ String newline "") = classify raw.
Proof. unfold classify. by rewrite lossy_snoc, trim_end_by_snoc by reflexivity. Qed.

(** A line read by the parser is a line of the reference. *)
Lemma take_line_spec raw p p' out lines : take_line raw p = (p', out) ->
  sse_buf p' = sse_buf p /\
  sse_events (sse_data_lines p) (classify raw :: lines) = out ++ sse_events (sse_data_lines p') lines.
Proof.
  unfold take_line, classify. case_decide as Hb.
  - rewrite dispatch_event. by intros [= <- <-].
  - destruct (starts_with ":" _) eqn:Hc.
    + intros [= <- <-]. split; [done|]. apply starts_with_spec in Hc as [r ->]. rewrite str_app_cons. reflexivity.
    + destruct (strip_prefix "data:" _) as [rest|]; by intros [= <- <-].
Qed.

Lemma split_char_once c s l r : split_once c s = Some (l, r) -> split_char c s = l :: split_char c r.
Proof.
  intros H. apply split_once_Some in H as [-> Hl]. rewrite split_char_app by done. done.
Qed.
Lemma split_once_more c s l r t : split_once c s = Some (l, r) -> split_once c (s +:+ t) = Some (l, r +:+ t).
Proof.
  intros H. apply split_once_Some in H as [-> Hl]. rewrite str_app_assoc, str_app_cons. by apply split_once_app.
Qed.

Lemma drain_lines_spec fuel p p' out rest : (String.length (sse_buf p) <= fuel)%nat -> drain_lines fuel p = (p', out) ->
  has_char newline (sse_buf p') = false /\ to_come p rest = out ++ to_come p' rest.
Proof.
  revert p p' out. induction fuel as [|fuel IH]; intros p p' out Hf; cbn [drain_lines].
  - intros [= <- <-]. split; [by destruct (sse_buf p); simpl in Hf; [|lia]|done].
  - destruct (split_once newline (sse_buf p)) as [[line r]|] eqn:Hs.
    + destruct (take_line _ _) as [p1 o1] eqn:Ht. destruct (drain_lines fuel p1) as [p2 o2] eqn:Hd. intros [= <- <-].
      pose proof Hs as Hs'. apply split_once_Some in Hs' as [Hbuf _].
      destruct (take_line_spec _ _ _ _ (classify <$> split_char newline (r +:+ rest)) Ht) as [Hb He]. cbn [sse_buf sse_data_lines] in Hb, He.
      apply IH in Hd as [Hn Hd]; [|rewrite Hb; rewrite Hbuf, str_length_app in Hf; simpl in Hf; lia].
      split; [done|]. unfold to_come at 1. rewrite (split_char_once _ _ line (r +:+ rest)) by by apply split_once_more.
      rewrite fmap_cons, <- (classify_eol line), He, <- app_assoc. f_equal. rewrite <- Hd. unfold to_come. by rewrite Hb.
    + intros [= <- <-]. split; [by apply split_once_None|done].
Qed.

Lemma push_spec bytes p p' out rest : push bytes p = (p', out) ->
  has_char newline (sse_buf p') = false /\ to_come p (bytes +:+ rest) = out ++ to_come p' rest.
Proof.
  unfold push. intros Hd. apply (drain_lines_spec _ _ _ _ rest) in Hd as [Hn Hd]; [|done]. split; [done|].
  rewrite <- Hd. unfold to_come. simpl. by rewrite str_app_assoc.
Qed.

Lemma finish_spec p : has_char newline (sse_buf p) = false ->
  finish p = (sse_new, to_come p "").
Proof.
  intros Hn. unfold finish, to_come. rewrite str_app_nil_r, split_char_None by done.
  destruct (decide (sse_buf p = "")) as [Hb|Hb].
  - rewrite Hb, dispatch_event, Hb. f_equal. simpl. by rewrite app_nil_r.
  - destruct (take_line _ _) as [p1 o1] eqn:Ht. destruct (take_line_spec _ _ _ _ [] Ht) as [Hb1 He].
    cbn [sse_buf sse_data_lines] in Hb1, He. rewrite dispatch_event, Hb1.
    change (classify <$> [sse_buf p]) with [classify (sse_buf p)]. by rewrite He.
Qed.

Lemma push_all_spec chunks p p' out : has_char newline (sse_buf p) = false -> push_all chunks p = (p', out) ->
  has_char newline (sse_buf p') = false /\ to_come p (join "" chunks) = out ++ to_come p' "".
Proof.
  revert p out. induction chunks as [|c chunks IH]; intros p out Hp; cbn [push_all].
  - by intros [= <- <-].
  - destruct (push c p) as [p1 o1] eqn:Hc. destruct (push_all chunks p1) as [p2 o2] eqn:Hcs. intros [= <- <-].
    destruct (push_spec _ _ _ _ (join "" chunks) Hc) as [H1 H2]. apply IH in Hcs as [H3 H4]; [|done]. split; [done|].
    rewrite <- app_assoc, <- H4, <- H2. f_equal. destruct chunks; simpl; [by rewrite str_app_nil_r|done].
Qed.

(** however the body of a response is cut into chunks, inside a line, a line
    end or a UTF-8 sequence included, the parser gives the events of the whole body: one for each
    run of [data:] lines that a blank line or the end closes. *)
Theorem sse_chunks_do_not_matter (chunks : list string) :
  sse_run chunks = sse_reference (join "" chunks).
Proof.
  unfold sse_run. destruct (push_all chunks sse_new) as [p out] eqn:Hp.
  apply push_all_spec in Hp as [Hn Hp]; [|done]. rewrite (finish_spec p Hn). simpl. by rewrite <- Hp.
Qed.
