(* ===== verification/Capability.v ===== *)
(** Capability atoms ([crates/kernel/src/capability.rs]): filesystem paths by component, the
    canonical string form and its parser, and the [narrower_than] order.  A [PathBuf] is the
    string it was built from; comparisons go through [path_components] as in [std::path]. *)

From S2P Require Import Prelude Ord Str.

Open Scope string_scope.

(** * Paths ([std::path], Unix) *)

Inductive component : Type :=
  | RootDir
  | CurDir
  | ParentDir
  | Normal (seg : string).

#[export] Instance component_eq_dec : EqDecision component.
Proof. solve_decision. Defined.

Definition is_absolute (p : string) : bool := starts_with "/" p.

(** One piece between separators: empty pieces and inner [.] disappear. *)
Definition body_component (w : string) : list component :=
  if decide (w = "") then [] else if decide (w = ".") then []
  else if decide (w = "..") then [ParentDir] else [Normal w].

(** [Path::components]. *)
Definition path_components (p : string) : list component :=
  match split_char "/" p with
  | [] => []
  | w :: ws =>
      if is_absolute p then RootDir :: ((w :: ws) ≫= body_component)
      else (if decide (w = ".") then [CurDir] else body_component w) ++ (ws ≫= body_component)
  end.

Fixpoint is_prefix_of {A} `{EqDecision A} (p l : list A) : bool :=
  match p, l with
  | [], _ => true
  | x :: p', y :: l' => bool_decide (x = y) && is_prefix_of p' l'
  | _ :: _, [] => false
  end.

(** [Path::starts_with]: component-wise. *)
Definition path_starts_with (p base : string) : bool :=
  is_prefix_of (path_components base) (path_components p).

(** [PathBuf::push] of a relative segment. *)
Definition path_push (p seg : string) : string :=
  if ends_with_char "/" p then p +:+ seg else p +:+ "/" +:+ seg.

(** * Atoms *)

Inductive FsMode : Type := Ro | Rw.
#[export] Instance FsMode_eq_dec : EqDecision FsMode.
Proof. solve_decision. Defined.

(** Derived [Ord]: [Ro < Rw]. *)
Definition mode_le (a b : FsMode) : bool :=
  match a, b with Rw, Ro => false | _, _ => true end.

Inductive NetAllow : Type :=
  | Any
  | Hosts (hosts : list string).
#[export] Instance NetAllow_eq_dec : EqDecision NetAllow.
Proof. solve_decision. Defined.

Inductive Capability : Type :=
  | Fs (path : string) (mode : FsMode)
  | Net (allow : NetAllow)
  | Proc (program : string)
  | Tool (name : string)
  | Spawn (catalog_name : string)
  | Secret (name : string).
#[export] Instance Capability_eq_dec : EqDecision Capability.
Proof. solve_decision. Defined.

Inductive CapabilityParseError : Type :=
  | UnknownPrefix (s : string)
  | BadPath (s : string)
  | EmptyName (s : string).

(** ** Hosts *)

Definition is_port (p : string) : bool := negb (bool_decide (p = "")) && all_bytes is_ascii_digit p.

Definition normalize_host (h : string) : string :=
  let h := to_ascii_lowercase (trim h) in
  match rsplit_once ":" h with
  | Some (name, port) =>
      if is_port port then trim_end_matches "." name +:+ ":" +:+ port else trim_end_matches "." h
  | None => trim_end_matches "." h
  end.

Definition host_parts (h : string) : string * option string :=
  match rsplit_once ":" h with
  | Some (name, port) => if is_port port then (name, Some port) else (h, None)
  | None => (h, None)
  end.

Definition normalize_hosts (hosts : list string) : list string :=
  let bare := List.filter (fun h => bool_decide ((host_parts h).2 = None)) hosts in
  List.filter (fun h => match host_parts h with
                        | (name, Some _) => negb (bool_decide (name ∈ bare))
                        | _ => true
                        end) hosts.

Definition host_covered (a b : string) : bool :=
  if decide (a = b) then true else
  let '(an, ap) := host_parts a in
  let '(bn, bp) := host_parts b in
  bool_decide (an = bn) && bool_decide (is_Some ap) && bool_decide (bp = None).

(** ** The order *)

Definition narrower_than (self other : Capability) : bool :=
  match self, other with
  | Fs a am, Fs b bm => mode_le am bm && path_starts_with a b
  | Net _, Net Any => true
  | Net Any, Net _ => false
  | Net (Hosts a), Net (Hosts b) => forallb (fun ah => existsb (fun bh => host_covered ah bh) b) a
  | Proc a, Proc b => bool_decide (a = b)
  | Tool a, Tool b => bool_decide (a = b)
  | Spawn a, Spawn b => bool_decide (a = b)
  | Secret a, Secret b => bool_decide (a = b)
  | _, _ => false
  end.

Definition covered_by (self : Capability) (grants : list Capability) : bool :=
  existsb (fun g => narrower_than self g) grants.

(** ** Normalisation, printing, parsing *)

(** The loop of [normalize_path] over the components. *)
Fixpoint normalize_components (p out : string) (cs : list component) : result CapabilityParseError string :=
  match cs with
  | [] => Ok out
  | RootDir :: cs | CurDir :: cs => normalize_components p out cs
  | ParentDir :: _ => Err (BadPath p)
  | Normal seg :: cs =>
      if decide (seg = "") then Err (BadPath p) else normalize_components p (path_push out seg) cs
  end.

Definition normalize_path (path : string) : result CapabilityParseError string :=
  if negb (is_absolute path) then Err (BadPath path)
  else normalize_components path "/" (path_components path).

Definition mode_str (m : FsMode) : string := match m with Ro => "ro" | Rw => "rw" end.

(** [impl Display for Capability]: the canonical string. *)
Definition display (c : Capability) : string :=
  match c with
  | Fs path mode => "fs." +:+ mode_str mode +:+ ":" +:+ path
  | Net Any => "net:*"
  | Net (Hosts hosts) => "net:" +:+ join "," hosts
  | Proc program => "proc:" +:+ program
  | Tool name => "tool:" +:+ name
  | Spawn n => "spawn:" +:+ n
  | Secret name => "secret:" +:+ name
  end.

Definition nonempty (s v : string) : result CapabilityParseError string :=
  if decide (v = "") then Err (EmptyName s) else Ok v.

(** One host of a [net:] list. *)
Definition parse_host (s h : string) : result CapabilityParseError string :=
  let h := normalize_host h in
  if bool_decide (h = "") || bool_decide (h = "*") then Err (EmptyName s) else Ok h.

Definition parse_fs (s rest : string) (mode : FsMode) : result CapabilityParseError Capability :=
  if decide (rest = "") then Err (EmptyName s)
  else path ← normalize_path rest; mret (Fs path mode).

Definition parse_net (s rest : string) : result CapabilityParseError Capability :=
  if decide (rest = "") then Err (EmptyName s)
  else if decide (rest = "*") then Ok (Net Any)
  else hosts ← mapR (parse_host s) (split_char "," rest);
       mret (Net (Hosts (normalize_hosts (oset_of_list hosts)))).

(** [impl FromStr for Capability]. *)
Definition from_str (s : string) : result CapabilityParseError Capability :=
  match split_once ":" s with
  | None => Err (UnknownPrefix s)
  | Some (prefix, rest) =>
      if decide (prefix = "fs.ro") then parse_fs s rest Ro
      else if decide (prefix = "fs.rw") then parse_fs s rest Rw
      else if decide (prefix = "net") then parse_net s rest
      else if decide (prefix = "proc") then
        program ← nonempty s rest;
        program ← (if starts_with "/" program then normalize_path program else Ok program);
        mret (Proc program)
      else if decide (prefix = "tool") then name ← nonempty s rest; mret (Tool name)
      else if decide (prefix = "spawn") then name ← nonempty s rest; mret (Spawn name)
      else if decide (prefix = "secret") then name ← nonempty s rest; mret (Secret name)
      else Err (UnknownPrefix s)
  end.

Example parse_fs_ex : from_str "fs.rw:/work//repo/./x/" = Ok (Fs "/work/repo/x" Rw).
Proof. reflexivity. Qed.
Example parse_net_ex : from_str "net:B.Example.,a.example" = Ok (Net (Hosts ["a.example"; "b.example"])).
Proof. reflexivity. Qed.
Example parse_net_ex2 : from_str "net:a.example:443,a.example" = Ok (Net (Hosts ["a.example"])).
Proof. reflexivity. Qed.
Example parse_proc_ex : from_str "proc:/usr//bin/./x" = Ok (Proc "/usr/bin/x").
Proof. reflexivity. Qed.
Example parse_bad_ex : from_str "fs.ro:/work/../etc" = Err (BadPath "/work/../etc").
Proof. reflexivity. Qed.
Example parse_bad_ex2 : is_ok (from_str "net:*,a") = false.
Proof. reflexivity. Qed.

(** * Paths: the normal form *)

(** A segment that survives [components] unchanged. *)
Definition seg_ok (w : string) : Prop :=
  has_char "/" w = false /\ w <> "" /\ w <> "." /\ w <> "..".

Definition render (segs : list string) : string := "/" +:+ join "/" segs.

Lemma body_component_ok w : seg_ok w -> body_component w = [Normal w].
Proof. intros (? & ? & ? & ?). unfold body_component. by rewrite !decide_False. Qed.

Lemma bind_body_ok (l : list string) : Forall seg_ok l -> (l ≫= body_component) = Normal <$> l.
Proof.
  induction 1 as [|w l Hw _ IH]; [done|].
  rewrite bind_cons, IH, (body_component_ok _ Hw). done.
Qed.

Lemma path_components_render segs :
  Forall seg_ok segs -> path_components (render segs) = RootDir :: (Normal <$> segs).
Proof.
  intros Hs. unfold path_components, render.
  change (split_char "/" ("/" +:+ join "/" segs))
    with (split_char "/" ("" +:+ String "/" (join "/" segs))).
  rewrite split_char_app by done.
  assert (is_absolute ("/" +:+ join "/" segs) = true) as ->.
  { apply starts_with_spec. eauto. }
  rewrite bind_cons. change (body_component "") with (@nil component). simpl. f_equal.
  destruct segs as [|w segs]; [done|].
  rewrite split_join; [by apply bind_body_ok|done|].
  eapply Forall_impl; [done|]. by intros ? [? _].
Qed.

Lemma path_push_render s0 seg :
  Forall seg_ok s0 -> path_push (render s0) seg = render (s0 ++ [seg]).
Proof.
  intros Hs. unfold path_push, render. destruct s0 as [|w s0] using rev_ind; [done|].
  clear IHs0. apply Forall_app in Hs as [_ Hw]. apply Forall_cons in Hw as [(Hw & Hne & _) _].
  assert (ends_with_char "/" ("/" +:+ join "/" (s0 ++ [w])) = false) as ->.
  { assert (exists x, "/" +:+ join "/" (s0 ++ [w]) = x +:+ w) as [x ->].
    { destruct s0 as [|z s0]; [by exists "/"|]. rewrite join_snoc by done.
      rewrite <- !str_app_assoc. eauto. }
    rewrite ends_with_char_app by done. destruct (ends_with_char "/" w) eqn:E; [|done].
    apply ends_with_has_char in E. congruence. }
  by rewrite (join_snoc _ (s0 ++ [w])), !str_app_assoc by (by destruct s0).
Qed.

Lemma path_components_segs p seg : Normal seg ∈ path_components p -> seg_ok seg.
Proof.
  unfold path_components. pose proof (split_char_pieces "/" p) as Hp.
  assert (Hb : forall w, has_char "/" w = false -> Normal seg ∈ body_component w -> seg_ok seg).
  { intros w Hw. unfold body_component. repeat case_decide; try set_solver.
    intros [= ->]%list_elem_of_singleton. done. }
  destruct (split_char "/" p) as [|w ws]; [by intros ?%elem_of_nil|].
  rewrite Forall_forall in Hp.
  assert (Hl : forall l, l ⊆ w :: ws -> Normal seg ∈ (l ≫= body_component) -> seg_ok seg).
  { intros l Hl (x & Hx & Hin)%list_elem_of_bind. apply (Hb x); [|done]. apply Hp. by apply Hl. }
  destruct (is_absolute p).
  - intros [|H]%elem_of_cons; [done|]. by apply (Hl (w :: ws)).
  - intros [H|H]%elem_of_app.
    + case_decide; [set_solver|]. apply (Hb w); [apply Hp; left|done].
    + apply (Hl ws); [set_solver|done].
Qed.

Lemma normalize_components_spec p cs s0 q :
  Forall seg_ok s0 -> (forall seg, Normal seg ∈ cs -> seg_ok seg) ->
  normalize_components p (render s0) cs = Ok q ->
  exists segs, q = render segs /\ Forall seg_ok segs.
Proof.
  revert s0. induction cs as [|c cs IH]; intros s0 Hs Hcs.
  - intros [= <-]. eauto.
  - assert (forall seg, Normal seg ∈ cs -> seg_ok seg) by (intros; apply Hcs; by right).
    destruct c as [| | |seg]; simpl; [by apply IH..|done|].
    case_decide; [done|]. rewrite path_push_render by done. apply IH; [|done].
    apply Forall_app. split; [done|]. apply Forall_singleton, Hcs. left.
Qed.

Lemma normalize_path_spec p q :
  normalize_path p = Ok q -> exists segs, q = render segs /\ Forall seg_ok segs.
Proof.
  unfold normalize_path. destruct (is_absolute p); [|done].
  apply (normalize_components_spec p _ []); [constructor|apply path_components_segs].
Qed.

Lemma normalize_components_render p s0 segs :
  Forall seg_ok s0 -> Forall seg_ok segs ->
  normalize_components p (render s0) (Normal <$> segs) = Ok (render (s0 ++ segs)).
Proof.
  intros H0 Hs. revert s0 H0. induction Hs as [|w segs Hw Hs IH]; intros s0 H0.
  - by rewrite app_nil_r.
  - rewrite fmap_cons. simpl. rewrite decide_False by apply Hw.
    rewrite path_push_render by done. rewrite IH; [by rewrite <- app_assoc|].
    apply Forall_app. split; [done|]. by constructor.
Qed.

Lemma normalize_path_render segs : Forall seg_ok segs -> normalize_path (render segs) = Ok (render segs).
Proof.
  intros Hs. unfold normalize_path.
  assert (is_absolute (render segs) = true) as -> by (apply starts_with_spec; eexists; done).
  rewrite path_components_render by done. simpl.
  by apply (normalize_components_render (render segs) []).
Qed.

Lemma normal_path_form p :
  normalize_path p = Ok p <-> exists segs, p = render segs /\ Forall seg_ok segs.
Proof.
  split; [apply normalize_path_spec|]. intros (segs & -> & Hs). by apply normalize_path_render.
Qed.

(** * The order *)

Lemma is_prefix_of_spec {A} `{EqDecision A} (p l : list A) :
  is_prefix_of p l = true <-> p `prefix_of` l.
Proof.
  revert l. induction p as [|x p IH]; intros [|y l]; simpl.
  - split; [|done]. by exists [].
  - split; [|done]. intros _. by exists (y :: l).
  - split; [done|]. by intros [k ?].
  - rewrite andb_true_iff, bool_decide_eq_true, IH. split.
    + intros [-> ?]. by apply prefix_cons.
    + intros H. split; [by eapply prefix_cons_inv_1|by eapply prefix_cons_inv_2].
Qed.

Lemma mode_le_trans a b c : mode_le a b = true -> mode_le b c = true -> mode_le a c = true.
Proof. by destruct a, b, c. Qed.
Lemma mode_le_antisym a b : mode_le a b = true -> mode_le b a = true -> a = b.
Proof. by destruct a, b. Qed.

Lemma host_covered_spec a b :
  host_covered a b = true <->
  a = b \/ ((host_parts a).1 = (host_parts b).1 /\ is_Some (host_parts a).2 /\ (host_parts b).2 = None).
Proof.
  unfold host_covered. case_decide; [naive_solver|].
  destruct (host_parts a), (host_parts b). simpl.
  rewrite !andb_true_iff, !bool_decide_eq_true. naive_solver.
Qed.

Lemma host_covered_trans a b c :
  host_covered a b = true -> host_covered b c = true -> host_covered a c = true.
Proof.
  rewrite !host_covered_spec. intros [->|(H1 & H2 & H3)] [<-|(H4 & H5 & H6)]; [by left|by right..|].
  right. rewrite H1. by rewrite H3 in H5; destruct H5.
Qed.

(** A host without a port is its own name. *)
Lemma host_parts_bare h : (host_parts h).2 = None -> (host_parts h).1 = h.
Proof. unfold host_parts. repeat case_match; naive_solver. Qed.

Lemma narrower_net_spec a b :
  narrower_than (Net (Hosts a)) (Net (Hosts b)) = true <->
  forall x, x ∈ a -> exists y, y ∈ b /\ host_covered x y = true.
Proof.
  simpl. rewrite forallb_forall. split.
  - intros H x Hx. apply list_elem_of_In, H, existsb_exists in Hx as (y & Hy & ?).
    exists y. by rewrite list_elem_of_In.
  - intros H x Hx. apply existsb_exists. apply list_elem_of_In, H in Hx as (y & Hy & ?).
    exists y. by rewrite <- list_elem_of_In.
Qed.

Lemma narrower_than_refl c : narrower_than c c = true.
Proof.
  destruct c as [p m|[|hs]|p|n|n|n]; try (simpl; by rewrite bool_decide_true); try done.
  - simpl. assert (mode_le m m = true) as -> by by destruct m. by apply is_prefix_of_spec.
  - apply narrower_net_spec. intros x Hx. exists x. split; [done|]. apply host_covered_spec. by left.
Qed.

Lemma narrower_than_trans a b c :
  narrower_than a b = true -> narrower_than b c = true -> narrower_than a c = true.
Proof.
  destruct a as [p m|[|hs]|p|n|n|n], b as [p' m'|[|hs']|p'|n'|n'|n'],
    c as [p'' m''|[|hs'']|p''|n''|n''|n'']; try done;
    try (simpl; rewrite !bool_decide_eq_true; congruence).
  - simpl. rewrite !andb_true_iff. unfold path_starts_with. rewrite !is_prefix_of_spec.
    intros [? ?] [? ?]. split; [by eapply mode_le_trans|by etrans].
  - rewrite !narrower_net_spec. intros H1 H2 x Hx. apply H1 in Hx as (y & Hy & ?).
    apply H2 in Hy as (z & ? & ?). exists z. split; [done|]. by eapply host_covered_trans.
Qed.

(** Coverage is closed downwards: what a covered atom covers is covered. *)
Lemma covered_by_narrower a b grants :
  narrower_than a b = true -> covered_by b grants = true -> covered_by a grants = true.
Proof.
  unfold covered_by. rewrite !existsb_exists. intros Hab (g & Hg & Hbg).
  exists g. split; [done|]. by eapply narrower_than_trans.
Qed.

(** The representation invariant of atoms: what the parser is meant to produce. *)
Definition host_ok (h : string) : Prop :=
  normalize_host h = h /\ h <> "" /\ h <> "*" /\ has_char "," h = false.

Definition normal_cap (c : Capability) : Prop :=
  match c with
  | Fs p _ => normalize_path p = Ok p
  | Net Any => True
  | Net (Hosts hs) => hs <> [] /\ oset_sorted hs /\ normalize_hosts hs = hs /\ Forall host_ok hs
  | Proc p => p <> "" /\ (starts_with "/" p = true -> normalize_path p = Ok p)
  | Tool n | Spawn n | Secret n => n <> ""
  end.

Lemma filter_id_elem {A} (f : A -> bool) l x : List.filter f l = l -> x ∈ l -> f x = true.
Proof.
  intros Hf Hx. rewrite <- Hf, list_elem_of_In in Hx. by apply filter_In in Hx as [_ ?].
Qed.

(** In a normalised set no [host:port] sits next to its bare host. *)
Lemma normal_hosts_no_shadow hs x y :
  normalize_hosts hs = hs -> x ∈ hs -> y ∈ hs -> host_covered x y = true -> x = y.
Proof.
  intros Hn Hx Hy [|(H1 & [p Hp] & H3)]%host_covered_spec; [done|]. exfalso.
  apply (filter_id_elem _ _ _ Hn) in Hx.
  destruct (host_parts x) as [name [port|]]; [|done]. simpl in *.
  apply negb_true_iff, bool_decide_eq_false in Hx. apply Hx.
  apply list_elem_of_In, filter_In. rewrite <- list_elem_of_In.
  rewrite H1, (host_parts_bare y H3), H3. by rewrite bool_decide_true.
Qed.

Lemma narrower_hosts_incl a b :
  normalize_hosts a = a ->
  narrower_than (Net (Hosts a)) (Net (Hosts b)) = true ->
  narrower_than (Net (Hosts b)) (Net (Hosts a)) = true -> forall x, x ∈ a -> x ∈ b.
Proof.
  rewrite !narrower_net_spec. intros Hn Hab Hba x Hx.
  destruct (Hab x Hx) as (y & Hy & Hxy). destruct (Hba y Hy) as (z & Hz & Hyz).
  assert (x = z) as <- by (apply (normal_hosts_no_shadow a); eauto using host_covered_trans).
  apply host_covered_spec in Hxy as [->|(_ & [? Hs] & Hnone)]; [done|].
  apply host_covered_spec in Hyz as [->|(_ & [? Hs'] & _)]; [done|]. congruence.
Qed.

#[export] Instance Normal_inj : Inj (=) (=) Normal.
Proof. by intros ? ? [= ->]. Qed.

Lemma path_components_inj p q :
  normalize_path p = Ok p -> normalize_path q = Ok q -> path_components p = path_components q -> p = q.
Proof.
  intros (s1 & -> & H1)%normal_path_form (s2 & -> & H2)%normal_path_form.
  rewrite !path_components_render by done. intros [= Heq].
  by apply (inj (fmap Normal)) in Heq as ->.
Qed.

Lemma narrower_than_antisym a b :
  normal_cap a -> normal_cap b -> narrower_than a b = true -> narrower_than b a = true -> a = b.
Proof.
  destruct a as [p m|[|hs]|p|n|n|n], b as [p' m'|[|hs']|p'|n'|n'|n']; try done;
    try (simpl; rewrite !bool_decide_eq_true; congruence).
  - simpl. rewrite !andb_true_iff. unfold path_starts_with. rewrite !is_prefix_of_spec.
    intros Hp Hp' [? H1] [? H2]. f_equal; [|by apply mode_le_antisym].
    apply path_components_inj; [done..|]. by apply (anti_symm prefix).
  - intros (_ & Hs & Hn & _) (_ & Hs' & Hn' & _) H1 H2. do 2 f_equal.
    apply oset_ext; [done..|]. intros x. split; by apply narrower_hosts_incl.
Qed.

(** * Round trip *)

Lemma from_str_split prefix rest :
  has_char ":" prefix = false -> split_once ":" (prefix +:+ ":" +:+ rest) = Some (prefix, rest).
Proof. apply split_once_app. Qed.

Lemma join_hosts_nonempty h hs : host_ok h -> join "," (h :: hs) <> "".
Proof. intros (_ & ? & _). destruct hs; [done|]. simpl. by destruct h. Qed.

Lemma join_hosts_not_star hs : Forall host_ok hs -> join "," hs <> "*".
Proof.
  intros Hh Hj. destruct Hh as [|h hs (Hn & Hne & Hs & _) _]; [done|]. destruct hs; [done|].
  change (h +:+ String "," (join "," (s :: hs)) = "*") in Hj. destruct h as [|c h]; [done|].
  rewrite str_app_cons in Hj. injection Hj as -> Hj. by destruct h.
Qed.

Lemma parse_hosts_ok s hs : Forall host_ok hs -> mapR (parse_host s) hs = Ok hs.
Proof.
  induction 1 as [|h hs (Hn & Hne & Hs & _) _ IH]; [done|]. simpl.
  unfold parse_host at 1. rewrite Hn, !bool_decide_false by done. simpl. by rewrite IH.
Qed.

Lemma parse_net_hosts s hs :
  normal_cap (Net (Hosts hs)) -> parse_net s (join "," hs) = Ok (Net (Hosts hs)).
Proof.
  intros (Hne & Hs & Hn & Hh). unfold parse_net.
  rewrite decide_False; [rewrite decide_False; [rewrite split_join|]|].
  - rewrite parse_hosts_ok by done. simpl. by rewrite oset_of_sorted, Hn.
  - done.
  - eapply Forall_impl; [done|]. by intros h (_ & _ & _ & ?).
  - by apply join_hosts_not_star.
  - destruct Hh; [done|]. by apply join_hosts_nonempty.
Qed.

Lemma normal_path_nonempty p : normalize_path p = Ok p -> p <> "".
Proof. by intros H ->. Qed.

Lemma from_str_display c : normal_cap c -> from_str (display c) = Ok c.
Proof.
  unfold from_str. destruct c as [p m|[|hs]|p|n|n|n]; intros Hc; [destruct m|done|..].
  - change (display (Fs p Ro)) with ("fs.ro" +:+ ":" +:+ p). rewrite from_str_split by done.
    simpl. unfold parse_fs. by rewrite decide_False, Hc by by apply normal_path_nonempty.
  - change (display (Fs p Rw)) with ("fs.rw" +:+ ":" +:+ p). rewrite from_str_split by done.
    simpl. unfold parse_fs. by rewrite decide_False, Hc by by apply normal_path_nonempty.
  - change (display (Net (Hosts hs))) with ("net" +:+ ":" +:+ join "," hs).
    rewrite from_str_split by done. simpl. by apply parse_net_hosts.
  - destruct Hc as [Hne Hp]. change (display (Proc p)) with ("proc" +:+ ":" +:+ p).
    rewrite from_str_split by done. simpl. unfold nonempty. rewrite decide_False by done. simpl.
    destruct (starts_with "/" p); [by rewrite Hp|done].
  - change (display (Tool n)) with ("tool" +:+ ":" +:+ n). rewrite from_str_split by done.
    simpl. unfold nonempty. by rewrite decide_False.
  - change (display (Spawn n)) with ("spawn" +:+ ":" +:+ n). rewrite from_str_split by done.
    simpl. unfold nonempty. by rewrite decide_False.
  - change (display (Secret n)) with ("secret" +:+ ":" +:+ n). rewrite from_str_split by done.
    simpl. unfold nonempty. by rewrite decide_False.
Qed.

(** A parsed filesystem atom is normal: absolute, without [.], [..] or repeated separators. *)
Lemma from_str_fs_normal s p m : from_str s = Ok (Fs p m) -> normal_cap (Fs p m).
Proof.
  unfold from_str, parse_fs, parse_net. intros H.
  repeat (case_match; simplify_eq/=; try done); result_inv; simpl.
  all: match goal with H : normalize_path _ = Ok _ |- _ =>
         by apply normalize_path_spec in H as (segs & -> & ?); apply normalize_path_render end.
Qed.

(** * Properties *)

(** [narrower_than] is a partial order on normal atoms (reflexive and transitive on
    all atoms, antisymmetric on those in the parser's normal form), and coverage by a grant list
    is closed downwards along it. *)
Theorem capability_partial_order :
  (forall a, narrower_than a a = true) /\
  (forall a b c, narrower_than a b = true -> narrower_than b c = true -> narrower_than a c = true) /\
  (forall a b, normal_cap a -> normal_cap b ->
     narrower_than a b = true -> narrower_than b a = true -> a = b) /\
  (forall a b grants, narrower_than a b = true -> covered_by b grants = true -> covered_by a grants = true).
Proof.
  split_and!; [apply narrower_than_refl|apply narrower_than_trans|apply narrower_than_antisym
              |apply covered_by_narrower].
Qed.

Lemma capability_partial_order_witness :
  narrower_than (Fs "/w/src" Ro) (Fs "/w" Rw) = true /\ narrower_than (Fs "/w" Ro) (Fs "/w" Rw) = true /\
  narrower_than (Fs "/w/src" Ro) (Fs "/w" Ro) = true /\
  covered_by (Fs "/w/src" Ro) [Tool "read"; Fs "/w" Rw] = true.
Proof.
  split_and!; [reflexivity..|].
  apply (proj2 (proj2 (proj2 capability_partial_order)) _ (Fs "/w" Ro)); reflexivity.
Defined.

(** the canonical string of a normal atom parses back to that atom, so logs and
    profiles read the same grants; and every filesystem atom the parser accepts is normal
    (absolute, free of [.], [..] and repeated separators), hence round trips. *)
Theorem atom_string_round_trip :
  (forall c, normal_cap c -> from_str (display c) = Ok c) /\
  (forall s p m, from_str s = Ok (Fs p m) ->
     normalize_path p = Ok p /\ from_str (display (Fs p m)) = Ok (Fs p m)).
Proof.
  split; [apply from_str_display|]. intros s p m H%from_str_fs_normal.
  split; [done|]. by apply from_str_display.
Qed.

Lemma atom_string_round_trip_witness :
  from_str (display (Net (Hosts ["a.example"; "b.example:443"]))) = Ok (Net (Hosts ["a.example"; "b.example:443"])).
Proof.
  apply (proj1 atom_string_round_trip). cbn [normal_cap]. split_and!; [done| |reflexivity|].
  - repeat constructor.
  - repeat constructor; done.
Defined.

(** host normalisation is not idempotent (the blank uncovered by dropping a
    trailing dot survives), so an accepted [net:] atom need not be stable under printing and
    parsing again, although the canonical string is the stored form. *)
Theorem host_normalisation_not_idempotent :
  exists s c c', from_str s = Ok c /\ from_str (display c) = Ok c' /\ c <> c'.
Proof.
  exists "net:a .", (Net (Hosts ["a "])), (Net (Hosts ["a"])).
  split_and!; [lazy; reflexivity..|done].
Qed.
