(* ===== verification/Paths.v ===== *)
(** The operations of [std::path] the program uses, on the text of a path: parents, file names,
    joining and stripping prefixes, as [Components] gives them on Unix. *)

From S2P Require Import Prelude Ord Str Capability.

Open Scope string_scope.
Open Scope list_scope.

(** The text between separators with the component it stands for, if any. *)
Definition path_pieces (p : string) : list (string * option component) :=
  match split_char "/" p with
  | [] => []
  | w :: ws =>
      (w, if is_absolute p then Some RootDir else if decide (w = ".") then Some CurDir else head (body_component w))
        :: ((fun w => (w, head (body_component w))) <$> ws)
  end.
(** [Components::as_path]: what is left, without the separators around it. *)
Fixpoint trim_pieces (l : list (string * option component)) : list (string * option component) :=
  match l with (_, None) :: l => trim_pieces l | _ => l end.
Definition pieces_path (l : list (string * option component)) : string :=
  match reverse (trim_pieces (reverse (trim_pieces l))) with
  | [(_, Some RootDir)] => "/"
  | l => join "/" l.*1
  end.
(** Without the first [n] components. *)
Fixpoint skip_components (n : nat) (l : list (string * option component)) : list (string * option component) :=
  match n, l with
  | O, _ | _, [] => l
  | S n, (_, Some _) :: l => skip_components n l
  | S _, (_, None) :: l => skip_components n l
  end.
(** [Path::strip_prefix]. *)
Definition path_strip_prefix (p base : string) : option string :=
  if is_prefix_of (path_components base) (path_components p)
  then Some (pieces_path (skip_components (length (path_components base)) (path_pieces p)))
  else None.
(** [Path::parent]. *)
Definition path_parent (p : string) : option string :=
  match trim_pieces (reverse (path_pieces p)) with
  | [] | (_, Some RootDir) :: _ => None
  | _ :: l => Some (pieces_path (reverse l))
  end.
(** [Path::file_name]. *)
Definition path_file_name (p : string) : option string :=
  match last (path_components p) with Some (Normal w) => Some w | _ => None end.
(** [Path::join]. *)
Definition path_join (p q : string) : string :=
  if is_absolute q then q else if decide (p = "") then q else path_push p q.

Example strip_prefix_ex : path_strip_prefix "/work//repo/./src//x/" "/work/repo" = Some "src//x".
Proof. reflexivity. Qed.
Example strip_prefix_ex2 : path_strip_prefix "/work/repo" "/work/repo/" = Some "".
Proof. reflexivity. Qed.
Example strip_prefix_ex3 : path_strip_prefix "/work/repository" "/work/repo" = None.
Proof. reflexivity. Qed.
Example parent_ex : path_parent "/p//models/a.toml" = Some "/p//models".
Proof. reflexivity. Qed.
Example parent_ex2 : (path_parent "/", path_parent "/a", path_parent "a") = (None, Some "/", Some "").
Proof. reflexivity. Qed.


(** * A parent is shorter *)

Lemma trim_pieces_suffix l : exists n, l = n ++ trim_pieces l /\ Forall (fun x => x.2 = None) n.
Proof.
  induction l as [|[w [c|]] l (n & IH & Hn)]; simpl; [by exists []|by exists []|].
  exists ((w, None) :: n). split; [by rewrite IH at 1|by constructor].
Qed.
Lemma join_length_app sep l1 l2 :
  l2 <> [] -> String.length (join sep (l1 ++ l2)) =
    (String.length (join sep l1) + (if decide (l1 = []) then 0 else String.length sep) + String.length (join sep l2))%nat.
Proof.
  intros H2. induction l1 as [|w l1 IH]; [done|].
  destruct l1 as [|w' l1]; [destruct l2 as [|w2 l2]; [done|]; simpl; by rewrite !str_length_app, Nat.add_assoc|].
  change (join sep ((w :: w' :: l1) ++ l2)) with (w +:+ sep +:+ join sep ((w' :: l1) ++ l2)).
  change (join sep (w :: w' :: l1)) with (w +:+ sep +:+ join sep (w' :: l1)).
  rewrite !str_length_app, IH. case_decide; [done|]. case_decide; [done|]. lia.
Qed.
Lemma join_length_sublist sep a l b : (String.length (join sep l) <= String.length (join sep (a ++ l ++ b)))%nat.
Proof.
  destruct (decide (l = [])) as [->|Hl]; [simpl; lia|].
  rewrite join_length_app by (by destruct l). destruct (decide (b = [])) as [->|Hb]; [rewrite app_nil_r; lia|].
  rewrite (join_length_app _ l b) by done. lia.
Qed.
Lemma path_pieces_fst p : (path_pieces p).*1 = split_char "/" p.
Proof.
  unfold path_pieces. destruct (split_char "/" p) as [|w ws]; [done|]. cbn. f_equal.
  by induction ws as [|x ws IH]; [|cbn; rewrite IH].
Qed.
Lemma path_pieces_named p w c : (w, Some c) ∈ path_pieces p -> c <> RootDir -> w <> "".
Proof.
  unfold path_pieces. destruct (split_char "/" p) as [|v vs]; [by intros ?%elem_of_nil|].
  intros [H|H]%elem_of_cons Hc ->.
  - injection H as <- H. destruct (is_absolute p); [congruence|]. by case_decide.
  - apply list_elem_of_fmap in H as (v' & [= <- H] & _). done.
Qed.
Lemma pieces_path_length l :
  (String.length (pieces_path l) <= Nat.max (String.length (join "/" l.*1)) (if decide (l = []) then 0 else 1))%nat.
Proof.
  unfold pieces_path.
  destruct (trim_pieces_suffix l) as (n1 & H1 & _).
  destruct (trim_pieces_suffix (reverse (trim_pieces l))) as (n2 & H2 & _).
  set (m := reverse (trim_pieces (reverse (trim_pieces l)))).
  assert (Hl : l = n1 ++ m ++ reverse n2).
  { rewrite H1 at 1. f_equal. apply (f_equal reverse) in H2. rewrite reverse_involutive, reverse_app in H2. exact H2. }
  assert (Hlen : (String.length (join "/" m.*1) <= String.length (join "/" l.*1))%nat).
  { rewrite Hl, !fmap_app. apply join_length_sublist. }
  assert (Hm : m <> [] -> l <> []) by (intros Hm ->; destruct n1; [|done]; by destruct m).
  destruct m as [|[w [[]|]] [|]]; simpl in *; try lia. rewrite decide_False by (by apply Hm). simpl. lia.
Qed.

(** [Path::parent] takes at least a byte away, so climbing from a path ends. *)
Lemma path_parent_shorter p q : path_parent p = Some q -> (String.length q < String.length p)%nat.
Proof.
  unfold path_parent. destruct (trim_pieces_suffix (reverse (path_pieces p))) as (n & Hn & _).
  destruct (trim_pieces _) as [|[w [c|]] l] eqn:Ht; try done; [|exfalso].
  - intros Hq. assert (c <> RootDir /\ q = pieces_path (reverse l)) as [Hc ->] by (by destruct c; simplify_eq).
    assert (Hp : path_pieces p = reverse l ++ [(w, Some c)] ++ reverse n).
    { apply (f_equal reverse) in Hn. rewrite reverse_involutive, reverse_app, reverse_cons in Hn.
      by rewrite Hn, <- app_assoc. }
    assert (Hw : w <> "").
    { apply (path_pieces_named p w c); [|done]. rewrite Hp. set_solver. }
    assert (Hj : String.length p = String.length (join "/" (path_pieces p).*1))
      by (rewrite path_pieces_fst; by rewrite join_split).
    rewrite Hj, Hp, !fmap_app. pose proof (pieces_path_length (reverse l)) as Hle.
    rewrite join_length_app by done. cbn [fmap list_fmap fst app].
    assert (Hw1 : (1 <= String.length (join "/" (w :: (reverse n).*1)))%nat).
    { destruct w as [|a w]; [done|]. destruct ((reverse n).*1); simpl; lia. }
    change (String.length "/") with 1%nat.
    destruct (decide (reverse l = [])) as [->|]; [simpl in *; lia|].
    rewrite decide_False by (by destruct (reverse l)). lia.
  - clear -Ht. revert Ht. generalize (reverse (path_pieces p)) as m. induction m as [|[v [d|]] m IH]; simpl; [done|done|done].
Qed.
