(* ===== verification/Sandbox.v ===== *)
(** Sandbox policies ([crates/kernel/src/sandbox.rs]): the derivation of a [SandboxPolicy] from
    capability atoms, and the checks that enforce a policy: [FsPolicy::check]
    ([kernel/src/host.rs]), [host_allowed] and [check_program] ([host/src/native]). *)

From stdpp Require pretty.
From S2P Require Import Prelude Ord Str Capability Paths.

Open Scope string_scope.
Open Scope list_scope.

(** * Data *)

Record Mount : Type := { mount_path : string; mount_mode : FsMode }.
#[export] Instance Mount_eq_dec : EqDecision Mount.
Proof. solve_decision. Defined.

Record NetPolicy : Type := { net_enabled : bool; net_allow : NetAllow }.

(** Durations are nanoseconds. *)
Definition secs (n : N) : N := (n * 1000000000)%N.

Record SandboxPolicy : Type := {
  mounts : list Mount;
  scratch_tmpfs_mb : N;
  net : NetPolicy;
  timeout : N;
  env_allowlist : list string;
  programs : list string
}.

Record SandboxLimits : Type := {
  lim_timeout : N;
  lim_scratch_tmpfs_mb : N;
  lim_env_allowlist : list string;
  lim_network : bool
}.

Definition default_limits : SandboxLimits :=
  {| lim_timeout := secs 600; lim_scratch_tmpfs_mb := 256;
     lim_env_allowlist := oset_of_list ["PATH"; "LANG"; "LC_ALL"; "TERM"; "TZ"];
     lim_network := false |}.

Inductive PolicyError : Type :=
  | Exceeds (cap : string)
  | PathDenied (path : string) (mode : FsMode)
  | ProgramDenied (program : string)
  | NetDenied (host : string)
  | EnvNameForbidden (name : string)
  | SecretInSandbox.
#[export] Instance PolicyError_eq_dec : EqDecision PolicyError.
Proof. solve_decision. Defined.

Definition SECRET_LIKE_ENV : list string :=
  ["KEY"; "TOKEN"; "SECRET"; "PASSWORD"; "PASSWD"; "CREDENTIAL"; "AUTH"].

Definition env_name_is_secret_like (name : string) : bool :=
  let upper := to_ascii_uppercase name in
  existsb (fun pat => contains pat upper) SECRET_LIKE_ENV.

Definition MIN_TIMEOUT : N := secs 1.
Definition MAX_TIMEOUT : N := secs (24 * 3600).
Definition clampN (lo hi x : N) : N := N.min hi (N.max lo x).

(** * Derivation *)

(** Derived [Ord] on [std::path::Component] (no prefixes on Unix). *)
#[export] Instance cmp_component : Cmp component := fun a b =>
  match a, b with
  | RootDir, RootDir | CurDir, CurDir | ParentDir, ParentDir => Eq
  | RootDir, _ => Lt | _, RootDir => Gt
  | CurDir, _ => Lt | _, CurDir => Gt
  | ParentDir, _ => Lt | _, ParentDir => Gt
  | Normal x, Normal y => cmp x y
  end.
#[export] Instance cmp_component_laws : CmpLaws component.
Proof.
  split; unfold cmp, cmp_component.
  - intros [| | |x]; [done..|apply (cmp_refl x)].
  - intros [| | |x] [| | |y]; try done. intros H. f_equal. by apply (cmp_eq x y).
  - intros [| | |x] [| | |y]; try done. apply (cmp_anti x y).
  - intros [| | |x] [| | |y] [| | |z]; try done. apply (cmp_trans x y z).
Qed.

(** ** The order of capabilities ([derive(Ord)]) *)

Definition cmp_then (c d : comparison) : comparison := match c with Eq => d | _ => c end.
Definition cmp_mode (a b : FsMode) : comparison :=
  match a, b with Ro, Rw => Lt | Rw, Ro => Gt | _, _ => Eq end.
Definition cmp_net_allow (a b : NetAllow) : comparison :=
  match a, b with
  | Any, Any => Eq
  | Any, Hosts _ => Lt
  | Hosts _, Any => Gt
  | Hosts l1, Hosts l2 => cmp l1 l2
  end.
Definition capability_rank (c : Capability) : nat :=
  match c with Fs _ _ => 0 | Net _ => 1 | Proc _ => 2 | Capability.Tool _ => 3 | Spawn _ => 4 | Secret _ => 5 end.
Definition cmp_capability (a b : Capability) : comparison :=
  match a, b with
  | Fs p m, Fs p' m' => cmp_then (cmp (path_components p) (path_components p')) (cmp_mode m m')
  | Net x, Net y => cmp_net_allow x y
  | Proc x, Proc y | Capability.Tool x, Capability.Tool y | Spawn x, Spawn y | Secret x, Secret y => cmp x y
  | _, _ => Nat.compare (capability_rank a) (capability_rank b)
  end.
Fixpoint insert_capability (c : Capability) (l : list Capability) : list Capability :=
  match l with
  | [] => [c]
  | d :: l' => match cmp_capability c d with Gt => d :: insert_capability c l' | _ => c :: l end
  end.
Definition sort_grants (l : list Capability) : list Capability := foldr insert_capability [] l.

(** The accumulators of the derivation loop. *)
Record derive_acc : Type := {
  a_mounts : list (list component * Mount);
  a_programs : list string;
  a_net_any : bool;
  a_net_hosts : list string;
  a_net_present : bool
}.
Definition derive_acc0 : derive_acc :=
  {| a_mounts := []; a_programs := []; a_net_any := false; a_net_hosts := []; a_net_present := false |}.

(** [mounts.entry(path).or_insert(mode)], then the wider mode wins. *)
Definition mount_entry (path : string) (mode : FsMode) (m : list (list component * Mount)) :=
  match omap_get (path_components path) m with
  | None => omap_insert (path_components path) {| mount_path := path; mount_mode := mode |} m
  | Some e =>
      if negb (mode_le mode (mount_mode e))
      then omap_insert (path_components path) {| mount_path := mount_path e; mount_mode := mode |} m
      else m
  end.

Definition derive_one (acc : derive_acc) (cap : Capability) : derive_acc :=
  match cap with
  | Fs path mode =>
      {| a_mounts := mount_entry path mode (a_mounts acc); a_programs := a_programs acc;
         a_net_any := a_net_any acc; a_net_hosts := a_net_hosts acc; a_net_present := a_net_present acc |}
  | Net allow =>
      {| a_mounts := a_mounts acc; a_programs := a_programs acc;
         a_net_any := match allow with Any => true | Hosts _ => a_net_any acc end;
         a_net_hosts := match allow with
                        | Any => a_net_hosts acc
                        | Hosts hosts => foldl (fun s x => oset_insert x s) (a_net_hosts acc) hosts
                        end;
         a_net_present := true |}
  | Proc program =>
      {| a_mounts := a_mounts acc; a_programs := oset_insert program (a_programs acc);
         a_net_any := a_net_any acc; a_net_hosts := a_net_hosts acc; a_net_present := a_net_present acc |}
  | Tool _ | Spawn _ | Secret _ => acc
  end.

Fixpoint derive_caps (grants : list Capability) (acc : derive_acc) (caps : list Capability)
    : result PolicyError derive_acc :=
  match caps with
  | [] => Ok acc
  | cap :: caps' =>
      match cap with
      | Secret _ => Err SecretInSandbox
      | _ => if negb (covered_by cap grants) then Err (Exceeds (display cap))
             else derive_caps grants (derive_one acc cap) caps'
      end
  end.

Fixpoint derive_env (env acc : list string) : result PolicyError (list string) :=
  match env with
  | [] => Ok acc
  | name :: env' =>
      if env_name_is_secret_like name then Err (EnvNameForbidden name)
      else derive_env env' (oset_insert name acc)
  end.

Definition derive_policy_with (caps grants : list Capability) (limits : SandboxLimits)
    : result PolicyError SandboxPolicy :=
  acc ← derive_caps grants derive_acc0 caps;
  env ← derive_env (lim_env_allowlist limits) [];
  mret {| mounts := (a_mounts acc).*2;
          scratch_tmpfs_mb := N.max (lim_scratch_tmpfs_mb limits) 1;
          net := if lim_network limits && a_net_present acc
                 then {| net_enabled := true;
                         net_allow := if a_net_any acc then Any else Hosts (a_net_hosts acc) |}
                 else {| net_enabled := false; net_allow := Hosts [] |};
          timeout := clampN MIN_TIMEOUT MAX_TIMEOUT (lim_timeout limits);
          env_allowlist := env;
          programs := a_programs acc |}.

Definition derive_policy (caps grants : list Capability) : result PolicyError SandboxPolicy :=
  derive_policy_with caps grants default_limits.

(** * Enforcement *)

(** [Iterator::max_by_key]: the last of the maximal elements. *)
Definition max_by_key {A} (key : A -> nat) (l : list A) : option A :=
  foldl (fun best x => match best with
                       | None => Some x
                       | Some b => if (key b <=? key x)%nat then Some x else best
                       end) None l.

(** [FsPolicy::check]. *)
Definition fs_check (ms : list Mount) (path : string) (mode : FsMode) : result PolicyError unit :=
  let best := max_by_key (fun m => length (path_components (mount_path m)))
                (List.filter (fun m => path_starts_with path (mount_path m)) ms) in
  match best with
  | Some m => if mode_le mode (mount_mode m) then Ok tt else Err (PathDenied path mode)
  | None => Err (PathDenied path mode)
  end.

(** [native::net::normalize_host] (all trailing dots, no port handling). *)
Definition net_normalize_host (h : string) : string :=
  to_ascii_lowercase (trim_end_matches "." (trim h)).

(** [u16] printed in decimal, as by [format!("{p}")]. *)
Definition show_N (n : N) : string := pretty.pretty n.

(** [native::net::host_allowed]. *)
Definition host_allowed (allow : NetAllow) (host : string) (port : option N) : bool :=
  match allow with
  | Any => true
  | Hosts set =>
      let host := net_normalize_host host in
      bool_decide (host ∈ set) ||
      match port with
      | Some p => bool_decide (host +:+ ":" +:+ show_N p ∈ set)
      | None => false
      end
  end.

(** [native::process::check_program]. *)
Definition check_program (programs : list string) (program : string) : result PolicyError unit :=
  if bool_decide (programs = []) || bool_decide (program ∈ programs) then Ok tt
  else match path_file_name program with
       | Some b => if bool_decide (b ∈ programs) then Ok tt else Err (ProgramDenied program)
       | None => Err (ProgramDenied program)
       end.

(** * What a derived policy contains *)

Section derivation.
Implicit Types (acc : derive_acc) (caps grants : list Capability).

(** Everything in the accumulator comes from the atoms in [P]. *)
Record acc_sound (P : Capability -> Prop) acc : Prop := {
  sound_mounts k m : (k, m) ∈ a_mounts acc ->
    exists p, P (Fs p (mount_mode m)) /\ path_components p = path_components (mount_path m)
              /\ k = path_components (mount_path m);
  sound_any : a_net_any acc = true -> P (Net Any);
  sound_hosts h : h ∈ a_net_hosts acc -> exists hs, P (Net (Hosts hs)) /\ h ∈ hs;
  sound_present : a_net_present acc = true -> exists a, P (Net a);
  sound_programs p : p ∈ a_programs acc -> P (Proc p);
  sound_sorted : omap_sorted (a_mounts acc)
}.

(** Everything the atoms in [caps] ask for is in the accumulator. *)
Record acc_complete caps acc : Prop := {
  complete_mounts p m : Fs p m ∈ caps ->
    exists e, omap_get (path_components p) (a_mounts acc) = Some e /\ mode_le m (mount_mode e) = true;
  complete_any : Net Any ∈ caps -> a_net_any acc = true;
  complete_hosts hs h : Net (Hosts hs) ∈ caps -> h ∈ hs -> h ∈ a_net_hosts acc;
  complete_present a : Net a ∈ caps -> a_net_present acc = true;
  complete_programs p : Proc p ∈ caps -> p ∈ a_programs acc
}.

Lemma mount_entry_sound (P : Capability -> Prop) path mode m :
  (forall k e, (k, e) ∈ m ->
    exists p, P (Fs p (mount_mode e)) /\ path_components p = path_components (mount_path e)
              /\ k = path_components (mount_path e)) ->
  P (Fs path mode) ->
  forall k e, (k, e) ∈ mount_entry path mode m ->
    exists p, P (Fs p (mount_mode e)) /\ path_components p = path_components (mount_path e)
              /\ k = path_components (mount_path e).
Proof.
  intros Hm HP k e. unfold mount_entry.
  destruct (omap_get _ m) as [e'|] eqn:Hg; [case_match|]; intros Hin; eauto.
  - apply omap_get_elem in Hg. destruct (Hm _ _ Hg) as (p & _ & _ & Hk).
    apply omap_insert_elem in Hin as [[= -> ->]|]; [|by eauto].
    exists path. simpl. by rewrite Hk.
  - apply omap_insert_elem in Hin as [[= -> ->]|]; eauto.
Qed.

Lemma mount_entry_sorted path mode m : omap_sorted m -> omap_sorted (mount_entry path mode m).
Proof.
  intros Hs. unfold mount_entry.
  destruct (omap_get _ m); [case_match|]; try done; by apply omap_insert_sorted.
Qed.

Lemma derive_one_sound P acc cap : acc_sound P acc -> P cap -> acc_sound P (derive_one acc cap).
Proof.
  intros [Hm Ha Hh Hp Hg Hs] HP.
  destruct cap as [path mode|[|hs]|program| | |]; split; simpl;
    eauto using mount_entry_sound, mount_entry_sorted.
  - intros h [|]%elem_of_oset_inserts; eauto.
  - intros p [->|]%elem_of_oset_insert; eauto.
Qed.

Lemma mount_entry_get path mode m :
  exists e, omap_get (path_components path) (mount_entry path mode m) = Some e /\
    mode_le mode (mount_mode e) = true /\
    (forall e', omap_get (path_components path) m = Some e' -> mode_le (mount_mode e') (mount_mode e) = true).
Proof.
  unfold mount_entry. destruct (omap_get _ m) as [e'|] eqn:Hg.
  - destruct (mode_le mode (mount_mode e')) eqn:Hle; simpl.
    + exists e'. split; [done|]. split; [done|]. intros ? [= <-]. by destruct (mount_mode e').
    + eexists. rewrite omap_get_insert, decide_True by done. split; [done|]. simpl.
      split; [by destruct mode|]. intros ? [= <-]. by destruct mode, (mount_mode e').
  - eexists. rewrite omap_get_insert, decide_True by done. split; [done|]. simpl.
    split; [by destruct mode|done].
Qed.

Lemma mount_entry_other path mode m k :
  k <> path_components path -> omap_get k (mount_entry path mode m) = omap_get k m.
Proof.
  intros Hk. unfold mount_entry.
  destruct (omap_get (path_components path) m); [case_match|]; try done;
    by rewrite omap_get_insert, decide_False.
Qed.

Lemma mount_entry_mono path mode m k e :
  omap_get k m = Some e ->
  exists e', omap_get k (mount_entry path mode m) = Some e' /\
             mode_le (mount_mode e) (mount_mode e') = true.
Proof.
  intros Hg. destruct (decide (k = path_components path)) as [->|Hk].
  - destruct (mount_entry_get path mode m) as (e' & ? & _ & Hmono). eauto.
  - rewrite mount_entry_other by done. exists e. split; [done|]. by destruct (mount_mode e).
Qed.

Lemma derive_one_complete caps acc cap :
  acc_complete caps acc -> acc_complete (caps ++ [cap]) (derive_one acc cap).
Proof.
  intros [Hm Ha Hh Hp Hg]. split.
  - intros p m [Hin|Heq%list_elem_of_singleton]%elem_of_app.
    + destruct (Hm _ _ Hin) as (e & He & Hle).
      destruct cap as [path mode|[|hs]|program| | |]; simpl; eauto.
      destruct (mount_entry_mono path mode (a_mounts acc) _ _ He) as (e' & ? & ?).
      exists e'. split; [done|]. by eapply mode_le_trans.
    + subst. simpl. destruct (mount_entry_get p m (a_mounts acc)) as (e & ? & ? & _). eauto.
  - intros [Hin|Heq%list_elem_of_singleton]%elem_of_app; [|by subst].
    destruct cap as [| [|] | | | |]; simpl; eauto.
  - intros hs h [Hin|Heq%list_elem_of_singleton]%elem_of_app Hh'.
    + destruct cap as [| [|] | | | |]; simpl; eauto. apply elem_of_oset_inserts. eauto.
    + subst. simpl. apply elem_of_oset_inserts. eauto.
  - intros a [Hin|Heq%list_elem_of_singleton]%elem_of_app; [|by subst].
    destruct cap as [| [|] | | | |]; simpl; eauto.
  - intros p [Hin|Heq%list_elem_of_singleton]%elem_of_app.
    + destruct cap as [| [|] | | | |]; simpl; eauto. apply elem_of_oset_insert. eauto.
    + subst. simpl. apply elem_of_oset_insert. by left.
Qed.

Definition cap_ok grants (c : Capability) : Prop :=
  match c with Secret _ => False | _ => covered_by c grants = true end.

Lemma derive_caps_spec grants caps acc acc' done_caps :
  derive_caps grants acc caps = Ok acc' ->
  acc_sound (fun c => c ∈ done_caps) acc -> acc_complete done_caps acc ->
  Forall (cap_ok grants) caps /\
  acc_sound (fun c => c ∈ done_caps ++ caps) acc' /\ acc_complete (done_caps ++ caps) acc'.
Proof.
  revert acc done_caps. induction caps as [|cap caps IH]; simpl; intros acc dc Hd Hs Hc.
  - injection Hd as <-. rewrite app_nil_r. split_and!; [by constructor|done..].
  - assert (cap_ok grants cap /\ derive_caps grants (derive_one acc cap) caps = Ok acc') as [Hok Hd'].
    { destruct cap; try done; simpl; destruct (covered_by _ grants); by try done. }
    destruct (IH _ (dc ++ [cap]) Hd') as (? & ? & ?).
    + apply derive_one_sound; [|set_solver]. destruct Hs as [Hm Ha Hh Hp Hg Hso].
      split; intros.
      * destruct (Hm _ _ H) as (p & ? & ? & ?). exists p. set_solver.
      * set_solver.
      * destruct (Hh _ H) as (hs & ? & ?). exists hs. set_solver.
      * destruct (Hp H) as (a & ?). exists a. set_solver.
      * set_solver.
      * done.
    + by apply derive_one_complete.
    + rewrite <- app_assoc in *. split_and!; [by constructor|done..].
Qed.

(** The derivation succeeds exactly on covered, secret-free requests. *)
Lemma derive_caps_ok_iff grants caps acc :
  (exists acc', derive_caps grants acc caps = Ok acc') <-> Forall (cap_ok grants) caps.
Proof.
  revert acc. induction caps as [|cap caps IH]; intros acc; simpl; [by split; eauto|].
  rewrite Forall_cons, <- (IH (derive_one acc cap)).
  destruct cap; simpl; try (destruct (covered_by _ grants); simpl); try tauto;
    split; try (by intros [? ?]); by intros [? [? ?]].
Qed.

Lemma derive_env_ok_iff (env acc : list string) :
  (exists e, derive_env env acc = Ok e) <-> Forall (fun n => env_name_is_secret_like n = false) env.
Proof.
  revert acc. induction env as [|n env IH]; intros acc; simpl; [by split; eauto|].
  rewrite Forall_cons, <- (IH (oset_insert n acc)). destruct (env_name_is_secret_like n).
  - split; [by intros [? ?]|by intros [? ?]].
  - tauto.
Qed.

Lemma derive_env_elem (env acc e : list string) :
  derive_env env acc = Ok e -> forall n, n ∈ e <-> n ∈ acc \/ n ∈ env.
Proof.
  revert acc. induction env as [|x env IH]; intros acc; simpl.
  - intros [= <-]. set_solver.
  - destruct (env_name_is_secret_like x); [done|]. intros He n.
    rewrite (IH _ He), elem_of_oset_insert, elem_of_cons. tauto.
Qed.
End derivation.

Lemma max_by_key_elem {A} (key : A -> nat) l x : max_by_key key l = Some x -> x ∈ l.
Proof.
  unfold max_by_key. assert (H : forall b, foldl (fun best x => match best with
      | None => Some x | Some b => if (key b <=? key x)%nat then Some x else best end) b l = Some x ->
      b = Some x \/ x ∈ l).
  { induction l as [|y l IH]; simpl; intros b Hb; [by left|].
    apply IH in Hb as [Hb|Hb]; [|by right; right]. destruct b; [case_match|]; simplify_eq.
    - right. left.
    - by left.
    - right. left. }
  intros Hm. by destruct (H None Hm).
Qed.

Lemma max_by_key_max {A} (key : A -> nat) l x :
  x ∈ l -> exists b, max_by_key key l = Some b /\ (key x <= key b)%nat.
Proof.
  unfold max_by_key. assert (H : forall b, x ∈ l \/ (exists b0, b = Some b0 /\ (key x <= key b0)%nat) ->
    exists b', foldl (fun best x => match best with
      | None => Some x | Some b => if (key b <=? key x)%nat then Some x else best end) b l = Some b' /\
      (key x <= key b')%nat).
  { induction l as [|y l IH]; simpl; intros b Hb.
    - destruct Hb as [?%elem_of_nil|?]; done.
    - apply IH. destruct Hb as [[->|Hin]%elem_of_cons|(b0 & -> & Hle)].
      + right. destruct b as [b|]; [|by eauto]. destruct (Nat.leb_spec (key b) (key y)); eauto with lia.
      + by left.
      + right. destruct (Nat.leb_spec (key b0) (key y)); eauto with lia. }
  intros Hx. apply H. by left.
Qed.

(** A permitted access is inside some mount of the policy with a sufficient mode. *)
Lemma fs_check_mount ms path mode :
  fs_check ms path mode = Ok tt ->
  exists m, m ∈ ms /\ path_starts_with path (mount_path m) = true /\ mode_le mode (mount_mode m) = true.
Proof.
  unfold fs_check. destruct (max_by_key _ _) as [m|] eqn:Hm; [|done].
  destruct (mode_le mode (mount_mode m)) eqn:Hle; [|done]. intros _.
  apply max_by_key_elem, list_elem_of_In, filter_In in Hm as [Hin ?].
  exists m. by rewrite list_elem_of_In.
Qed.

(** Inverting a successful derivation. *)
Lemma derive_inv caps grants limits pol :
  derive_policy_with caps grants limits = Ok pol ->
  exists acc, acc_sound (fun c => c ∈ caps) acc /\ acc_complete caps acc /\
    Forall (cap_ok grants) caps /\
    mounts pol = (a_mounts acc).*2 /\ programs pol = a_programs acc /\
    net pol = (if lim_network limits && a_net_present acc
               then {| net_enabled := true;
                       net_allow := if a_net_any acc then Any else Hosts (a_net_hosts acc) |}
               else {| net_enabled := false; net_allow := Hosts [] |}) /\
    timeout pol = clampN MIN_TIMEOUT MAX_TIMEOUT (lim_timeout limits) /\
    scratch_tmpfs_mb pol = N.max (lim_scratch_tmpfs_mb limits) 1 /\
    Forall (fun n => env_name_is_secret_like n = false) (lim_env_allowlist limits) /\
    (forall n, n ∈ env_allowlist pol <-> n ∈ lim_env_allowlist limits).
Proof.
  unfold derive_policy_with. intros (acc & Hacc & H)%result_bind_Ok.
  apply result_bind_Ok in H as (env & Henv & [= <-]). exists acc.
  destruct (derive_caps_spec _ _ _ _ [] Hacc) as (? & ? & ?).
  { split; simpl; intros; try set_solver. constructor. }
  { by split; simpl; intros; try set_solver. }
  simpl. split_and!; try done.
  - by apply (derive_env_ok_iff _ []); eauto.
  - intros n. rewrite (derive_env_elem _ _ _ Henv). set_solver.
Qed.

(** * Properties *)

Section access.
Context (caps grants : list Capability) (limits : SandboxLimits).

(** A granted atom that covers the access, and is at most what some requested atom asked for. *)
Definition granted (access : Capability) : Prop :=
  (exists c, c ∈ caps /\ narrower_than access c = true) /\ covered_by access grants = true.

Lemma granted_intro access c :
  Forall (cap_ok grants) caps -> c ∈ caps -> c <> Secret "" -> narrower_than access c = true ->
  (forall n, c <> Secret n) -> granted access.
Proof.
  intros Hok Hc _ Hn Hs. split; [by eauto|]. rewrite Forall_forall in Hok. apply Hok in Hc.
  eapply covered_by_narrower; [done|]. by destruct c.
Qed.
End access.

Lemma derived_fs_granted caps grants limits pol path mode :
  derive_policy_with caps grants limits = Ok pol -> fs_check (mounts pol) path mode = Ok tt ->
  granted caps grants (Fs path mode).
Proof.
  intros (acc & [Hm _ _ _ _ _] & _ & Hok & -> & _)%derive_inv (m & Hmem & Hpre & Hle)%fs_check_mount.
  apply list_elem_of_fmap in Hmem as ([k m'] & -> & Hmem). simpl in *.
  destruct (Hm _ _ Hmem) as (p & Hc & Heq & _).
  apply (granted_intro _ _ _ (Fs p (mount_mode m'))); try done. simpl.
  unfold path_starts_with in *. by rewrite Heq, Hle, Hpre.
Qed.
Lemma derived_hosts_granted caps grants limits pol hs h :
  derive_policy_with caps grants limits = Ok pol ->
  net_enabled (net pol) = true -> net_allow (net pol) = Hosts hs -> h ∈ hs -> granted caps grants (Net (Hosts [h])).
Proof.
  intros (acc & [_ _ Hh _ _ _] & _ & Hok & _ & _ & -> & _)%derive_inv.
  destruct (lim_network limits && _); [|done]. simpl. intros _.
  destruct (a_net_any acc); [done|]. intros [= <-] (hs' & Hc & Hin')%Hh.
  apply (granted_intro _ _ _ (Net (Hosts hs'))); try done. apply narrower_net_spec.
  intros x ->%list_elem_of_singleton. exists h. split; [done|]. apply host_covered_spec. by left.
Qed.
Lemma derived_any_granted caps grants limits pol :
  derive_policy_with caps grants limits = Ok pol ->
  net_enabled (net pol) = true -> net_allow (net pol) = Any -> granted caps grants (Net Any).
Proof.
  intros (acc & [_ Ha _ _ _ _] & _ & Hok & _ & _ & -> & _)%derive_inv.
  destruct (lim_network limits && _); [|done]. simpl. intros _.
  destruct (a_net_any acc) eqn:E; [|done]. intros _.
  apply (granted_intro _ _ _ (Net Any)); try done. by apply Ha.
Qed.

Lemma derived_program_granted caps grants limits pol p :
  derive_policy_with caps grants limits = Ok pol -> p ∈ programs pol -> granted caps grants (Proc p).
Proof.
  intros (acc & [_ _ _ _ Hg _] & _ & Hok & _ & -> & _)%derive_inv Hin.
  apply (granted_intro _ _ _ (Proc p)); try done; [by apply Hg|apply narrower_than_refl].
Qed.
(** An empty list of programs, which admits any of them, is that of a tool without a [proc:] atom. *)
Lemma derived_no_programs caps grants limits pol p :
  derive_policy_with caps grants limits = Ok pol -> programs pol = [] -> Proc p ∉ caps.
Proof. intros (acc & _ & [_ _ _ _ Hg] & _ & _ & -> & _)%derive_inv He Hin%Hg. rewrite He in Hin. by apply elem_of_nil in Hin. Qed.

(** C23: what a derived policy lets a tool reach.  Under the policy [derive_policy_with] builds,
    every path the filesystem check lets through and every host of an enabled network policy is
    covered by an atom the tool requested and by a granted atom; so is every listed program.  A
    program that the check lets through is one whose path or file name was requested and
    granted, unless the tool requested no program at all: then the list is empty, which admits any
    program on its path.  No atom stands for the environment: its names are the limits' own,
    without those that look like secrets.  The time limit lies between one second and a day. *)
Theorem derived_access_granted caps grants limits pol :
  derive_policy_with caps grants limits = Ok pol ->
  (forall path mode, fs_check (mounts pol) path mode = Ok tt -> granted caps grants (Fs path mode)) /\
  (forall p, p ∈ programs pol -> granted caps grants (Proc p)) /\
  (forall program, check_program (programs pol) program = Ok tt ->
     (forall p, Proc p ∉ caps) \/
     exists p, (p = program \/ path_file_name program = Some p) /\ granted caps grants (Proc p)) /\
  (forall hs h, net_enabled (net pol) = true -> net_allow (net pol) = Hosts hs -> h ∈ hs ->
     granted caps grants (Net (Hosts [h]))) /\
  (net_enabled (net pol) = true -> net_allow (net pol) = Any -> granted caps grants (Net Any)) /\
  (net_enabled (net pol) = true -> lim_network limits = true) /\
  (forall n, n ∈ env_allowlist pol -> env_name_is_secret_like n = false /\ n ∈ lim_env_allowlist limits) /\
  (secs 1 <= timeout pol <= secs 86400)%N /\ (1 <= scratch_tmpfs_mb pol)%N.
Proof.
  intros Hd. pose proof Hd as (acc & _ & _ & _ & _ & _ & En & Et & Es & Henv & Hin)%derive_inv.
  split_and!.
  - intros path mode. by eapply derived_fs_granted.
  - intros p. by eapply derived_program_granted.
  - intros program. unfold check_program. destruct (bool_decide_reflect (programs pol = [])) as [He|].
    { intros _. left. intros p. by eapply derived_no_programs. }
    destruct (bool_decide_reflect (program ∈ programs pol)) as [Hp|]; cbn [orb].
    { intros _. right. exists program. split; [by left|by eapply derived_program_granted]. }
    destruct (path_file_name program) as [b|]; [|done]. destruct (bool_decide_reflect (b ∈ programs pol)) as [Hb|]; [|done].
    intros _. right. exists b. split; [by right|by eapply derived_program_granted].
  - intros hs h. by eapply derived_hosts_granted.
  - by eapply derived_any_granted.
  - rewrite En. destruct (lim_network limits); [done|]. by simpl.
  - intros n Hn. apply Hin in Hn. split; [|done]. rewrite Forall_forall in Henv. by apply Henv.
  - rewrite Et. unfold clampN, MIN_TIMEOUT, MAX_TIMEOUT, secs. lia.
  - rewrite Et. unfold clampN, MIN_TIMEOUT, MAX_TIMEOUT, secs. lia.
  - rewrite Es. lia.
Qed.

(** the derivation refuses exactly the requests it documents.  It succeeds if and
    only if no requested atom is a [secret:] atom, every requested atom is covered by a grant,
    and no name in the environment allowlist looks like a secret. *)
Theorem derive_succeeds_iff caps grants limits :
  (exists pol, derive_policy_with caps grants limits = Ok pol) <->
  Forall (cap_ok grants) caps /\
  Forall (fun n => env_name_is_secret_like n = false) (lim_env_allowlist limits).
Proof.
  rewrite <- (derive_caps_ok_iff grants caps derive_acc0), <- (derive_env_ok_iff _ []).
  unfold derive_policy_with. split.
  - intros (pol & (acc & Hacc & H)%result_bind_Ok). apply result_bind_Ok in H as (env & ? & _). eauto.
  - intros [(acc & ->) (env & Henv)]. simpl. rewrite Henv. simpl. eauto.
Qed.

(** a derived policy delivers what was asked for.  Each filesystem atom of the
    request is usable at its own path with its own mode (the widest mode wins when a path is
    requested twice, and no shorter mount shadows it), and every requested program and, with the
    network switch on, every requested host is admitted. *)
Theorem derive_grants_request caps grants limits pol :
  derive_policy_with caps grants limits = Ok pol ->
  (forall p m, Fs p m ∈ caps -> fs_check (mounts pol) p m = Ok tt) /\
  (forall p, Proc p ∈ caps -> check_program (programs pol) p = Ok tt) /\
  (forall hs h, lim_network limits = true -> Net (Hosts hs) ∈ caps -> h ∈ hs ->
     net_normalize_host h = h -> host_allowed (net_allow (net pol)) h None = true).
Proof.
  intros (acc & [Hm _ _ _ _ Hs] & [Cm Ca Ch Cp Cg] & _ & Em & Ep & En & _)%derive_inv.
  rewrite Em, Ep, En. split_and!.
  - intros p m Hin. destruct (Cm _ _ Hin) as (e & He & Hle).
    apply omap_get_elem in He as Hel. destruct (Hm _ _ Hel) as (_ & _ & _ & Hk).
    unfold fs_check.
    destruct (max_by_key_max (fun m => length (path_components (mount_path m)))
      (List.filter (fun m => path_starts_with p (mount_path m)) (a_mounts acc).*2) e) as (b & Hb & Hlen).
    { apply list_elem_of_In, filter_In. rewrite <- list_elem_of_In. split.
      - apply list_elem_of_fmap. by exists (path_components p, e).
      - unfold path_starts_with. rewrite <- Hk. by apply is_prefix_of_spec. }
    rewrite Hb. assert (b = e) as ->; [|by rewrite Hle].
    apply max_by_key_elem, list_elem_of_In, filter_In in Hb as [Hin' Hpre].
    apply list_elem_of_In, list_elem_of_fmap in Hin' as ([k b'] & -> & Hin'). simpl in *.
    destruct (Hm _ _ Hin') as (_ & _ & _ & Hk').
    apply is_prefix_of_spec in Hpre.
    assert (path_components (mount_path b') = path_components p) as Hpp.
    { destruct Hpre as [k2 Hk2]. apply (f_equal length) in Hk2 as Hl. rewrite length_app in Hl.
      rewrite Hk2. destruct k2; [by rewrite app_nil_r|]. simpl in Hl. rewrite <- Hk in Hlen. lia. }
    apply omap_elem_get in Hin'; [|done]. rewrite Hk', Hpp in Hin'.
    apply omap_elem_get in Hel; [|done]. congruence.
  - intros p Hin. unfold check_program. apply Cg in Hin.
    by rewrite (bool_decide_true (p ∈ _)), orb_true_r.
  - intros hs h -> Hnet Hh Hn. rewrite (Cp _ Hnet). simpl.
    destruct (a_net_any acc); [done|]. simpl. rewrite Hn, bool_decide_true; [done|]. eauto.
Qed.

(** A policy is narrower than another when every filesystem access it permits is permitted there. *)
Definition fs_narrower (p1 p2 : SandboxPolicy) : Prop :=
  forall path mode, fs_check (mounts p1) path mode = Ok tt -> fs_check (mounts p2) path mode = Ok tt.

Definition non_secret (c : Capability) : bool := match c with Secret _ => false | _ => true end.

(** The session envelope of [Registry::build]. *)
Definition envelope (grants : list Capability) (limits : SandboxLimits) : result PolicyError SandboxPolicy :=
  derive_policy_with (List.filter non_secret grants) grants limits.

(** "per-tool policies are by construction narrower than the envelope"
    (the doc comment of [derive_policy_with]) does not hold for overlapping grants: with grants
    [fs.rw:/w] and [fs.ro:/w/in], a tool that requests [fs.rw:/w] may write below [/w/in], which the
    envelope policy refuses because there the more specific read-only mount decides. *)
Theorem tool_policy_may_exceed_envelope :
  exists grants caps pt pe,
    derive_policy_with caps grants default_limits = Ok pt /\
    envelope grants default_limits = Ok pe /\ ~ fs_narrower pt pe.
Proof.
  exists [Fs "/w" Rw; Fs "/w/in" Ro], [Fs "/w" Rw].
  eexists _, _. split; [lazy; reflexivity|]. split; [lazy; reflexivity|].
  intros H. specialize (H "/w/in/x" Rw eq_refl). lazy in H. discriminate H.
Qed.

(** * Witnesses *)

Definition wit_grants : list Capability :=
  [Fs "/work" Rw; Net (Hosts ["a.example"]); Proc "sbatch"; Secret "K"].
Definition wit_caps : list Capability := [Fs "/work/in" Ro; Net (Hosts ["a.example:443"]); Proc "sbatch"].
Definition wit_limits : SandboxLimits :=
  {| lim_timeout := secs 0; lim_scratch_tmpfs_mb := 0; lim_env_allowlist := ["PATH"]; lim_network := true |}.

Definition wit_policy : SandboxPolicy :=
  {| mounts := [{| mount_path := "/work/in"; mount_mode := Ro |}]; scratch_tmpfs_mb := 1;
     net := {| net_enabled := true; net_allow := Hosts ["a.example:443"] |};
     timeout := secs 1; env_allowlist := ["PATH"]; programs := ["sbatch"] |}.

Lemma derived_access_granted_witness :
  derive_policy_with wit_caps wit_grants wit_limits = Ok wit_policy /\
  granted wit_caps wit_grants (Fs "/work/in/mesh" Ro).
Proof.
  assert (H : derive_policy_with wit_caps wit_grants wit_limits = Ok wit_policy)
    by (lazy; reflexivity).
  split; [exact H|]. apply (proj1 (derived_access_granted _ _ _ _ H)). lazy. reflexivity.
Defined.

Lemma derive_grants_request_witness :
  derive_policy_with wit_caps wit_grants wit_limits = Ok wit_policy /\
  fs_check (mounts wit_policy) "/work/in" Ro = Ok tt.
Proof.
  assert (H : derive_policy_with wit_caps wit_grants wit_limits = Ok wit_policy)
    by (lazy; reflexivity).
  split; [exact H|]. apply (proj1 (derive_grants_request _ _ _ _ H)). left.
Defined.
