(* ===== verification/Json.v ===== *)
(** [serde_json::Value] and its accessors, and the canonical form and hashes of
    [crates/kernel/src/hash/mod.rs]: BLAKE3 over RFC 8785 JSON, rendered [b3:<hex>].  An object
    is an association list kept sorted by its keys' bytes, as [serde_json::Map] is without the
    [preserve_order] feature. *)

From Stdlib Require Import Floats.SpecFloat.
From stdpp Require Import pretty.
From S2P Require Import Prelude Ord Str.

Open Scope string_scope.
Open Scope list_scope.

(** * Values *)

(** [serde_json::Number]: a [u64], a negative [i64], or an IEEE double. *)
Inductive number : Type :=
  | PosInt (n : N)
  | NegInt (z : Z)
  | Float (f : spec_float).
#[export] Instance spec_float_eq_dec : EqDecision spec_float.
Proof. solve_decision. Defined.
#[export] Instance number_eq_dec : EqDecision number.
Proof. solve_decision. Defined.

Inductive json : Type :=
  | JNull
  | JBool (b : bool)
  | JNum (n : number)
  | JStr (s : string)
  | JArr (items : list json)
  | JObj (members : list (string * json)).

(** Induction with hypotheses for array items and object members. *)
Section json_ind_strong.
Variable P : json -> Prop.
Hypothesis HNull : P JNull.
Hypothesis HBool : forall b, P (JBool b).
Hypothesis HNum : forall n, P (JNum n).
Hypothesis HStr : forall s, P (JStr s).
Hypothesis HArr : forall l, Forall P l -> P (JArr l).
Hypothesis HObj : forall m, Forall (fun kv => P kv.2) m -> P (JObj m).
Fixpoint json_ind_strong (v : json) : P v :=
  match v with
  | JNull => HNull | JBool b => HBool b | JNum n => HNum n | JStr s => HStr s
  | JArr l => HArr l ((fix go l : Forall P l :=
      match l with [] => Forall_nil_2 _ | x :: l' => Forall_cons_2 _ _ _ (json_ind_strong x) (go l') end) l)
  | JObj m => HObj m ((fix go m : Forall (fun kv => P kv.2) m :=
      match m with [] => Forall_nil_2 _ | x :: m' => Forall_cons_2 _ _ _ (json_ind_strong x.2) (go m') end) m)
  end.
End json_ind_strong.

#[export] Instance json_eq_dec : EqDecision json.
Proof.
  unfold EqDecision. fix go 1. intros x y. unfold Decision in *.
  destruct x, y; try (right; discriminate).
  - by left.
  - destruct (decide (b = b0)); [left|right]; congruence.
  - destruct (decide (n = n0)); [left|right]; congruence.
  - destruct (decide (s = s0)); [left|right]; congruence.
  - destruct (@list_eq_dec _ go items items0); [left|right]; congruence.
  - assert (forall a b : string * json, {a = b} + {a <> b}) as Hp.
    { intros [k v] [k' v']. destruct (decide (k = k')); [|right; congruence].
      destruct (go v v'); [left|right]; congruence. }
    destruct (@list_eq_dec _ Hp members members0); [left|right]; congruence.
Defined.

(** [Value::get(key)], [as_*]. *)
Definition jget (k : string) (v : json) : option json :=
  match v with JObj m => omap_get k m | _ => None end.
Definition as_str (v : json) : option string := match v with JStr s => Some s | _ => None end.
Definition as_bool (v : json) : option bool := match v with JBool b => Some b | _ => None end.
Definition as_array (v : json) : option (list json) := match v with JArr l => Some l | _ => None end.
Definition as_object (v : json) : option (list (string * json)) := match v with JObj m => Some m | _ => None end.
Definition as_u64 (v : json) : option N := match v with JNum (PosInt n) => Some n | _ => None end.

(** A struct as an object: serde inserts the fields in declaration order into the sorted map. *)
Definition jobj (fields : list (string * json)) : json := JObj (omap_of_list fields).

(** [obj.remove(key)] on an object, nothing on any other value. *)
Definition jremove (k : string) (v : json) : json :=
  match v with JObj m => JObj (omap_remove k m) | _ => v end.

Lemma omap_get_foldl {V} k (l m : list (string * V)) :
  k ∉ l.*1 -> omap_get k (foldl (fun m kv => omap_insert kv.1 kv.2 m) m l) = omap_get k m.
Proof.
  revert m. induction l as [|[k' v'] l IH]; simpl; intros m Hk; [done|].
  rewrite IH, omap_get_insert, decide_False by set_solver. done.
Qed.

(** Reading a field of a struct back. *)
Lemma jget_jobj k fields : NoDup fields.*1 -> jget k (jobj fields) = omap_get k fields.
Proof.
  unfold jget, jobj, omap_of_list.
  assert (H : forall m, NoDup fields.*1 ->
    omap_get k (foldl (fun m kv => omap_insert kv.1 kv.2 m) m fields) =
    match omap_get k fields with Some v => Some v | None => omap_get k m end).
  { induction fields as [|[k' v'] l IH]; intros m; [done|].
    rewrite fmap_cons, NoDup_cons. intros [Hk Hnd]. simpl. case_decide; subst.
    - rewrite omap_get_foldl by done. by rewrite omap_get_insert, decide_True.
    - rewrite IH by done. by rewrite omap_get_insert, decide_False. }
  intros Hnd. rewrite H by done. by destruct (omap_get k fields).
Qed.

(** * Canonical bytes (RFC 8785) *)

(** Third-party primitives: BLAKE3 in hexadecimal and the ECMAScript formatting of a finite
    double ([ryu_js::Buffer::format_finite]). *)
Class Platform : Type := {
  blake3_hex : string -> string;
  ryu_js_format : spec_float -> string
}.

(** Documented behaviour of [blake3::Hash::to_hex]: 64 lowercase hexadecimal digits. *)
Definition is_hex_lower (a : ascii) : bool := in_range "0" "9" a || in_range "a" "f" a.
Class PlatformLaws `{Platform} : Prop := {
  blake3_hex_length s : String.length (blake3_hex s) = 64%nat;
  blake3_hex_digits s : all_bytes is_hex_lower (blake3_hex s) = true
}.

(** [serde_json]'s text: [to_string] of a value is compact and total, [from_str] reads a document
    or says why not. *)
Class JsonText : Type := {
  to_string : json -> string;
  from_str_json : string -> result string json
}.

Inductive HashError : Type :=
  | NotCanonicalizable (msg : string)
  | Serialize (msg : string)
  | Malformed (s : string).

Definition SAFE : N := (2 ^ 53)%N.

(** [x as f64]: rounding to nearest, ties to even. *)
Definition f64_of_Z (z : Z) : spec_float := binary_normalize 53 1024 z 0 false.

Definition is_finite (f : spec_float) : bool :=
  match f with S754_zero _ | S754_finite _ _ _ => true | _ => false end.

(** UTF-16 code units of a key. *)
Fixpoint utf16_units (s : string) : list N :=
  match s with
  | EmptyString => []
  | String a r =>
      let n := byte_val a in
      if (n <? 128)%N then n :: utf16_units r
      else match r with
           | EmptyString => [n]
           | String b r2 =>
               let m := (byte_val b - 128)%N in
               if (n <? 224)%N then ((n - 192) * 64 + m)%N :: utf16_units r2
               else match r2 with
                    | EmptyString => [n]
                    | String c r3 =>
                        let k := (byte_val c - 128)%N in
                        if (n <? 240)%N then ((n - 224) * 4096 + m * 64 + k)%N :: utf16_units r3
                        else match r3 with
                             | EmptyString => [n]
                             | String d r4 =>
                                 let cp := ((n - 240) * 262144 + m * 4096 + k * 64 + (byte_val d - 128) - 65536)%N in
                                 (55296 + cp / 1024)%N :: (56320 + cp mod 1024)%N :: utf16_units r4
                             end
                    end
           end
  end.

Definition hex_digit (n : N) : ascii :=
  if (n <? 10)%N then ascii_of_N (48 + n) else ascii_of_N (87 + n).

Definition dquote : string := String "034" "".

(** JCS escaping of one byte: only ASCII characters are ever escaped. *)
Definition escape_byte (a : ascii) : string :=
  let n := byte_val a in
  if (n =? 34)%N then String "\" dquote
  else if (n =? 92)%N then "\\"
  else if (n =? 8)%N then "\b"
  else if (n =? 12)%N then "\f"
  else if (n =? 10)%N then "\n"
  else if (n =? 13)%N then "\r"
  else if (n =? 9)%N then "\t"
  else if (n <? 32)%N then "\u00" +:+ String (hex_digit (n / 16)) (String (hex_digit (n mod 16)) "")
  else String a "".

Fixpoint escape (s : string) : string :=
  match s with EmptyString => "" | String a s' => escape_byte a +:+ escape s' end.

Definition write_string (s : string) : string := dquote +:+ escape s +:+ dquote.

Definition show_Z (z : Z) : string := pretty z.
Definition show_u64 (n : N) : string := pretty n.

(** [Display] of the doubles that are not finite. *)
Definition show_non_finite (f : spec_float) : string :=
  match f with
  | S754_infinity false => "inf"
  | S754_infinity true => "-inf"
  | _ => "NaN"
  end.

Section canonical.
Context `{Platform}.

Definition write_f64 (f : spec_float) : result HashError string :=
  if negb (is_finite f) then Err (NotCanonicalizable ("non-finite float " +:+ show_non_finite f))
  else match f with
       | S754_zero _ => Ok "0"
       | _ => Ok (ryu_js_format f)
       end.

Definition write_number (n : number) : result HashError string :=
  match n with
  | PosInt u => if (u <=? SAFE)%N then Ok (show_u64 u) else write_f64 (f64_of_Z (Z.of_N u))
  | NegInt i => if (Z.to_N (Z.abs i) <=? SAFE)%N then Ok (show_Z i) else write_f64 (f64_of_Z i)
  | Float f => write_f64 f
  end.

(** [sort_by] on the keys' UTF-16 code units: a stable insertion sort. *)
Fixpoint insert_entry {A} (e : string * A) (l : list (string * A)) : list (string * A) :=
  match l with
  | [] => [e]
  | e' :: l' => match cmp (utf16_units e.1) (utf16_units e'.1) with
                | Gt => e' :: insert_entry e l'
                | _ => e :: l
                end
  end.
Definition sort_entries {A} (l : list (string * A)) : list (string * A) := foldr insert_entry [] l.

(** The member [key:value], failing when the value fails. *)
Definition write_member (e : string * result HashError string) : result HashError string :=
  v ← e.2; mret (write_string e.1 +:+ ":" +:+ v).
Definition write_object (es : list (string * result HashError string)) : result HashError string :=
  ms ← mapR write_member (sort_entries es); mret ("{" +:+ join "," ms +:+ "}").

(** Members and items are rendered where they stand; a failure surfaces when its turn in the
    output comes. *)
Fixpoint write_canonical (v : json) : result HashError string :=
  match v with
  | JNull => Ok "null"
  | JBool b => Ok (if b then "true" else "false")
  | JNum n => write_number n
  | JStr s => Ok (write_string s)
  | JArr items =>
      xs ← (fix go l := match l with
                        | [] => Ok []
                        | x :: l' => match write_canonical x with
                                     | Ok s => match go l' with Ok ss => Ok (s :: ss) | Err e => Err e end
                                     | Err e => Err e
                                     end
                        end) items;
      mret ("[" +:+ join "," xs +:+ "]")
  | JObj members =>
      write_object ((fix go (m : list (string * json)) := match m with
                     | [] => []
                     | kv :: m' => (kv.1, write_canonical kv.2) :: go m'
                     end) members)
  end.

Definition canonical_json_value (v : json) : result HashError string := write_canonical v.

(** * Hashes *)

(** [Hash::of_bytes]. *)
Definition of_bytes (bytes : string) : string := "b3:" +:+ blake3_hex bytes.

(** [Hash::parse]. *)
Definition parse_hash (s : string) : result HashError string :=
  match strip_prefix "b3:" s with
  | None => Err (Malformed s)
  | Some hex =>
      if negb (String.length hex =? 64)%nat || negb (all_bytes is_hex_lower hex) then Err (Malformed s)
      else Ok s
  end.

(** [Hash::of_canonical_json] of a value. *)
Definition of_canonical_json (v : json) : result HashError string :=
  of_bytes <$> canonical_json_value v.
End canonical.

(** * The canonical form determines the value

    On values whose numbers are integers a double holds exactly, [write_canonical] is an injective
    prefix code, so two values with one hash are one value or a BLAKE3 collision. *)

Definition exact_number (n : number) : Prop :=
  match n with
  | PosInt u => (u <= SAFE)%N
  | NegInt i => (i < 0)%Z /\ (Z.abs i <= Z.of_N SAFE)%Z
  | Float _ => False
  end.
Inductive exact : json -> Prop :=
  | exact_null : exact JNull
  | exact_bool b : exact (JBool b)
  | exact_num n : exact_number n -> exact (JNum n)
  | exact_str s : exact (JStr s)
  | exact_arr l : Forall exact l -> exact (JArr l)
  | exact_obj m : omap_sorted m -> Forall (fun kv => exact kv.2) m -> exact (JObj m).

Definition is_num_char (a : ascii) : bool := is_ascii_digit a || bool_decide (a = "-"%char).
Definition stops (r : string) : Prop :=
  match r with EmptyString => True | String c _ => c = ","%char \/ c = "]"%char \/ c = "}"%char end.

(** Reads one escaped byte back. *)
Definition unescape_byte (s : string) : option (ascii * string) :=
  match s with
  | String "\" (String "u" (String _ (String _ (String h (String l r))))) =>
      let v a := let n := byte_val a in if (n <? 58)%N then (n - 48)%N else (n - 87)%N in
      Some (ascii_of_N (v h * 16 + v l), r)
  | String "\" (String c r) =>
      Some ((if decide (c = "b") then ascii_of_N 8 else if decide (c = "f") then ascii_of_N 12
             else if decide (c = "n") then ascii_of_N 10 else if decide (c = "r") then ascii_of_N 13
             else if decide (c = "t") then ascii_of_N 9 else c)%char, r)
  | String c r => Some (c, r)
  | EmptyString => None
  end.

Lemma unescape_escape a r : unescape_byte (escape_byte a +:+ r) = Some (a, r).
Proof. by destruct a as [[] [] [] [] [] [] [] []]. Qed.
Lemma escape_byte_head a : exists c s, escape_byte a = String c s /\ c <> "034"%char.
Proof. destruct a as [[] [] [] [] [] [] [] []]; eexists _, _; (split; [reflexivity|done]). Qed.

Lemma escape_cancel s1 s2 r1 r2 :
  escape s1 +:+ dquote +:+ r1 = escape s2 +:+ dquote +:+ r2 -> s1 = s2 /\ r1 = r2.
Proof.
  revert s2. induction s1 as [|a s1 IH]; intros [|b s2]; simpl; rewrite ?str_app_nil.
  - unfold dquote. str_simpl. by intros [= ->].
  - destruct (escape_byte_head b) as (c & s & -> & ?). unfold dquote. str_simpl. intros [= ? ?]. congruence.
  - destruct (escape_byte_head a) as (c & s & -> & ?). unfold dquote. str_simpl. intros [= ? ?]. congruence.
  - rewrite !str_app_assoc. intros He. pose proof (f_equal unescape_byte He) as Hu.
    rewrite !unescape_escape in Hu. injection Hu as -> Hr. by apply IH in Hr as [-> ->].
Qed.
Lemma write_string_cancel s1 s2 r1 r2 :
  write_string s1 +:+ r1 = write_string s2 +:+ r2 -> s1 = s2 /\ r1 = r2.
Proof.
  unfold write_string. rewrite !str_app_assoc. intros H. injection H as H. by apply escape_cancel.
Qed.

(** Decimal numerals. *)
Lemma num_run_cancel a b r1 r2 :
  all_bytes is_num_char a = true -> all_bytes is_num_char b = true -> stops r1 -> stops r2 ->
  a +:+ r1 = b +:+ r2 -> a = b /\ r1 = r2.
Proof.
  assert (Hstop : forall c s, stops (String c s) -> is_num_char c = false).
  { intros c s. simpl. by intros [->|[->| ->]]. }
  revert b. induction a as [|x a IH]; intros [|y b]; simpl; rewrite ?str_app_nil, ?str_app_cons.
  - done.
  - intros _ Hy Hs _ ->. apply andb_true_iff in Hy as [Hy _]. by rewrite (Hstop _ _ Hs) in Hy.
  - intros Hx _ _ Hs <-. apply andb_true_iff in Hx as [Hx _]. by rewrite (Hstop _ _ Hs) in Hx.
  - intros [_ Ha]%andb_true_iff [_ Hb]%andb_true_iff ? ? [= -> H].
    by apply IH in H as [-> ->].
Qed.

Lemma pretty_N_go_digits x s :
  all_bytes is_ascii_digit s = true -> all_bytes is_ascii_digit (pretty_N_go x s) = true.
Proof.
  revert s. induction (N.lt_wf_0 x) as [x _ IH]; intros s Hs.
  destruct (decide (x = 0)%N) as [->|Hx]; [by rewrite pretty_N_go_0|].
  rewrite pretty_N_go_step by lia. apply IH; [by apply N.div_lt; lia|].
  simpl. rewrite Hs, andb_true_r. unfold pretty_N_char.
  assert (x `mod` 10 < 10)%N by (apply N.mod_lt; lia).
  by repeat case_match.
Qed.
Lemma show_u64_digits n : all_bytes is_ascii_digit (show_u64 n) = true /\ show_u64 n <> "".
Proof.
  unfold show_u64, pretty, pretty_N. case_decide as Hn; [done|]. split; [by apply pretty_N_go_digits|].
  rewrite pretty_N_go_step by lia.
  assert (H : forall s x, s <> "" -> pretty_N_go x s <> "").
  { intros s x. revert s. induction (N.lt_wf_0 x) as [x _ IH]; intros s Hs.
    destruct (decide (x = 0)%N) as [->|]; [by rewrite pretty_N_go_0|].
    rewrite pretty_N_go_step by lia. apply IH; [by apply N.div_lt; lia|done]. }
  by apply H.
Qed.
Lemma all_bytes_mono (f g : ascii -> bool) s :
  (forall a, f a = true -> g a = true) -> all_bytes f s = true -> all_bytes g s = true.
Proof. intros Hfg. induction s; simpl; [done|]. rewrite !andb_true_iff. naive_solver. Qed.
Lemma digits_num s : all_bytes is_ascii_digit s = true -> all_bytes is_num_char s = true.
Proof. apply all_bytes_mono. unfold is_num_char. by intros a ->. Qed.
Lemma show_Z_num z : all_bytes is_num_char (show_Z z) = true /\ show_Z z <> "".
Proof.
  destruct z as [|p|p]; [done|..]; unfold show_Z, pretty, pretty_Z;
    destruct (show_u64_digits (N.pos p)) as [Hd Hne].
  - by split; [apply digits_num|].
  - change (pretty p) with (show_u64 (N.pos p)). split; [|done]. str_simpl. by apply digits_num.
Qed.

Section canonical_facts.
Context `{Platform}.

Lemma write_number_exact n : exact_number n -> exists s, write_number n = Ok s /\
  all_bytes is_num_char s = true /\ s <> "" /\
  s = show_Z (match n with PosInt u => Z.of_N u | NegInt i => i | Float _ => 0 end).
Proof.
  destruct n as [u|i|f]; simpl; [intros Hu|intros [Hi Ha]|done].
  - apply N.leb_le in Hu as ->. exists (show_u64 u). destruct (show_u64_digits u).
    split_and!; [done|by apply digits_num|done|]. by destruct u.
  - assert ((Z.to_N (Z.abs i) <=? SAFE)%N = true) as -> by (apply N.leb_le; unfold SAFE in *; lia).
    exists (show_Z i). by destruct (show_Z_num i).
Qed.

Definition write_items : list json -> result HashError (list string) := mapR write_canonical.
Lemma write_canonical_arr l : write_canonical (JArr l) = (xs ← write_items l; mret ("[" +:+ join "," xs +:+ "]")).
Proof.
  cbn [write_canonical]. f_equal. unfold write_items. induction l as [|x l IH]; [done|].
  cbn [mapR]. by rewrite <- IH.
Qed.
Lemma write_canonical_obj m :
  write_canonical (JObj m) = write_object ((fun kv => (kv.1, write_canonical kv.2)) <$> m).
Proof. reflexivity. Qed.

(** Sorting the members looks at the keys only. *)
Lemma sort_entries_fmap {A B} (f : A -> B) (l : list (string * A)) :
  sort_entries ((fun kv => (kv.1, f kv.2)) <$> l) = (fun kv => (kv.1, f kv.2)) <$> sort_entries l.
Proof.
  induction l as [|[k v] l IH]; [done|]. cbn. fold (sort_entries l).
  change (foldr insert_entry [] ?x) with (sort_entries x). rewrite IH. clear IH.
  induction (sort_entries l) as [|[k' v'] l' IH]; [done|]. simpl.
  destruct (cmp (utf16_units k) (utf16_units k')); [done..|].
  rewrite fmap_cons. f_equal. exact IH.
Qed.
Lemma sort_entries_perm {A} (l : list (string * A)) : sort_entries l ≡ₚ l.
Proof.
  induction l as [|e l IH]; [done|]. simpl. rewrite <- IH at 2. clear IH.
  change (foldr insert_entry [] ?x) with (sort_entries x).
  induction (sort_entries l) as [|e' l' IH]; [done|]. simpl.
  destruct (cmp _ _); [done..|]. rewrite IH. by constructor.
Qed.

(** Comma-separated texts that are uniquely readable in front of a delimiter make a uniquely
    readable list. *)
Lemma join_cancel {A} (close : ascii) (l1 l2 : list (A * string)) r1 r2 :
  close = "]"%char \/ close = "}"%char ->
  (forall x y s1 s2, x ∈ l1 -> y ∈ l2 -> stops s1 -> stops s2 -> x.2 +:+ s1 = y.2 +:+ s2 ->
    x.1 = y.1 /\ s1 = s2) ->
  (forall x, x ∈ l1 ++ l2 -> exists c s, x.2 = String c s /\ c <> "]"%char /\ c <> "}"%char) ->
  join "," l1.*2 +:+ String close r1 = join "," l2.*2 +:+ String close r2 -> l1.*1 = l2.*1 /\ r1 = r2.
Proof.
  assert (Hj : forall z (l : list (A * string)) r, join "," (z :: l).*2 +:+ String close r =
    z.2 +:+ match l with [] => String close r | _ => String "," (join "," l.*2 +:+ String close r) end).
  { intros z [|z' l] r; [done|]. rewrite !fmap_cons. cbn [join]. by rewrite !str_app_assoc. }
  assert (Hn : forall r, join "," (@nil (A * string)).*2 +:+ String close r = String close r) by done.
  intros Hclose. revert l2. induction l1 as [|x l1 IH]; intros [|y l2] Hc Hh; rewrite ?Hj, ?Hn.
  - by intros [= ->].
  - destruct (Hh y) as (c & s & -> & ? & ?); [set_solver|]. rewrite str_app_cons.
    intros He. injection He as He _. naive_solver.
  - destruct (Hh x) as (c & s & -> & ? & ?); [set_solver|]. rewrite str_app_cons.
    intros He. injection He as He _. naive_solver.
  - intros He. apply Hc in He as [Hxy He]; [|set_solver|set_solver|..].
    2,3: clear -Hclose; by case_match; simpl; [right|left].
    destruct l1 as [|x' l1], l2 as [|y' l2].
    + injection He as He. by rewrite !fmap_cons, Hxy, He.
    + injection He as He _. clear -Hclose He. by destruct Hclose; subst.
    + injection He as He _. clear -Hclose He. by destruct Hclose; subst.
    + assert (He' : join "," (x' :: l1).*2 +:+ String close r1 = join "," (y' :: l2).*2 +:+ String close r2)
        by (by injection He).
      apply IH in He' as [Ht ->]; [|intros; eapply Hc; set_solver|intros; apply Hh; set_solver].
      by rewrite !(fmap_cons fst x), !(fmap_cons fst y), Hxy, Ht.
Qed.

Definition head_class (v : json) (c : ascii) : Prop :=
  match v with
  | JNull => c = "n"%char
  | JBool b => c = if b then "t"%char else "f"%char
  | JNum _ => is_num_char c = true
  | JStr _ => c = "034"%char
  | JArr _ => c = "["%char
  | JObj _ => c = "{"%char
  end.

Lemma write_canonical_head v s : exact v -> write_canonical v = Ok s ->
  exists c s', s = String c s' /\ head_class v c.
Proof.
  destruct 1 as [|[]|n Hn|t|l|m].
  - intros [= <-]. by eexists _, _.
  - intros [= <-]. by eexists _, _.
  - intros [= <-]. by eexists _, _.
  - destruct (write_number_exact n Hn) as ([|c s'] & Hw & Hc & Hne & _); [done|].
    cbn [write_canonical]. rewrite Hw. intros [= <-]. apply andb_true_iff in Hc as [Hc _].
    by eexists _, _.
  - intros [= <-]. by eexists _, _.
  - rewrite write_canonical_arr. intros Hw. result_inv. by eexists _, _.
  - rewrite write_canonical_obj. unfold write_object. intros Hw. result_inv. by eexists _, _.
Qed.

Lemma head_not_close v c : head_class v c -> c <> "]"%char /\ c <> "}"%char.
Proof. destruct v as [|[]|n| | |]; simpl; try (intros ->; done). intros Hc. by split; intros ->. Qed.

Definition cancels (v1 : json) : Prop := forall v2 s1 s2 r1 r2,
  exact v1 -> exact v2 -> write_canonical v1 = Ok s1 -> write_canonical v2 = Ok s2 ->
  stops r1 -> stops r2 -> s1 +:+ r1 = s2 +:+ r2 -> v1 = v2 /\ r1 = r2.

Lemma zip_elem_Forall2 {A B} (P : A -> B -> Prop) l k x y :
  Forall2 P l k -> (x, y) ∈ zip l k -> P x y /\ x ∈ l.
Proof.
  induction 1 as [|a b l k Hab _ IH]; simpl; [by intros ?%elem_of_nil|].
  rewrite elem_of_cons. intros [[= -> ->]|Hin]; [split; [done|constructor]|].
  split; [by apply IH|]. constructor. by apply IH.
Qed.

Lemma cancels_arr l : Forall cancels l -> cancels (JArr l).
Proof.
  intros Hl v2 s1 s2 r1 r2 He1 He2 Hw1 Hw2 Hr1 Hr2 Heq.
  destruct (write_canonical_head _ _ He1 Hw1) as (c1 & t1 & Ht1 & Hc1).
  destruct (write_canonical_head _ _ He2 Hw2) as (c2 & t2 & Ht2 & Hc2).
  assert (c1 = c2) as -> by (subst; by injection Heq).
  destruct v2 as [|[]|n| |l2|]; simpl in Hc1, Hc2; subst c2; try done. clear Ht1 Ht2 t1 t2.
  rewrite write_canonical_arr in Hw1, Hw2. unfold write_items in *.
  apply result_bind_Ok in Hw1 as (a & Ha & [= <-]). apply result_bind_Ok in Hw2 as (a0 & Ha0 & [= <-]).
  apply mapR_Ok in Ha, Ha0. inversion He1 as [| | | |? Hx1|]; inversion He2 as [| | | |? Hx2|]; subst.
  rewrite Forall_forall in Hl, Hx1, Hx2. rewrite !str_app_assoc in Heq. injection Heq as Heq. pose proof (Forall2_length _ _ _ Ha). pose proof (Forall2_length _ _ _ Ha0).
  assert (Hj := join_cancel "]"%char (zip l a) (zip l2 a0) r1 r2). rewrite !fst_zip, !snd_zip in Hj by lia.
  destruct Hj as [-> ->]; [by left|..|done|done].
  - intros [x sx] [y sy] q1 q2 Hx Hy ?? Hq. simpl in *.
    apply (zip_elem_Forall2 _ _ _ _ _ Ha) in Hx as [? ?].
    apply (zip_elem_Forall2 _ _ _ _ _ Ha0) in Hy as [? ?]. eapply Hl; eauto.
  - intros [x sx]. rewrite elem_of_app. intros Hx.
    assert (write_canonical x = Ok sx /\ exact x) as [Hw Hx'].
    { destruct Hx as [Hx|Hx]; [apply (zip_elem_Forall2 _ _ _ _ _ Ha) in Hx as [? ?]
      |apply (zip_elem_Forall2 _ _ _ _ _ Ha0) in Hx as [? ?]]; auto. }
    destruct (write_canonical_head _ _ Hx' Hw) as (c & s' & -> & Hc).
    apply head_not_close in Hc. eauto.
Qed.

(** The rendered members of an object, in the order they are written. *)
Lemma write_object_inv (m : list (string * json)) s :
  write_canonical (JObj m) = Ok s -> exists ms,
    s = "{" +:+ join "," ms +:+ "}" /\
    Forall2 (fun kv t => exists w, write_canonical kv.2 = Ok w /\ t = write_string kv.1 +:+ ":" +:+ w)
      (sort_entries m) ms.
Proof.
  rewrite write_canonical_obj. unfold write_object. rewrite sort_entries_fmap.
  intros (ms & Hms & [= <-])%result_bind_Ok. exists ms. split; [done|].
  apply mapR_Ok, Forall2_fmap_l in Hms. eapply Forall2_impl; [exact Hms|]. intros [k v] t. simpl.
  unfold write_member. simpl. intros (w & Hw & [= <-])%result_bind_Ok. eauto.
Qed.

Lemma omap_perm_eq {V} (m1 m2 : list (string * V)) :
  omap_sorted m1 -> omap_sorted m2 -> m1 ≡ₚ m2 -> m1 = m2.
Proof.
  intros H1 H2. refine (StronglySorted_unique_strong _ _ _ _ H1 H2).
  intros a b _ _ Hab Hba. by rewrite cmp_anti, Hab in Hba.
Qed.

Lemma cancels_obj m : Forall (fun kv => cancels kv.2) m -> cancels (JObj m).
Proof.
  intros Hl v2 s1 s2 r1 r2 He1 He2 Hw1 Hw2 Hr1 Hr2 Heq.
  destruct (write_canonical_head _ _ He1 Hw1) as (c1 & t1 & Ht1 & Hc1).
  destruct (write_canonical_head _ _ He2 Hw2) as (c2 & t2 & Ht2 & Hc2).
  assert (c1 = c2) as -> by (subst; by injection Heq).
  destruct v2 as [|[]|n| | |m2]; simpl in Hc1, Hc2; subst c2; try done. clear Ht1 Ht2 t1 t2.
  apply write_object_inv in Hw1 as (ms1 & -> & H1). apply write_object_inv in Hw2 as (ms2 & -> & H2).
  inversion He1 as [| | | | |? Hs1 Hx1]; inversion He2 as [| | | | |? Hs2 Hx2]; subst.
  rewrite <- (sort_entries_perm m) in Hl, Hx1. rewrite <- (sort_entries_perm m2) in Hx2.
  rewrite Forall_forall in Hl, Hx1, Hx2. rewrite !str_app_assoc in Heq. injection Heq as Heq.
  pose proof (Forall2_length _ _ _ H1). pose proof (Forall2_length _ _ _ H2).
  assert (Hj := join_cancel "}"%char (zip (sort_entries m) ms1) (zip (sort_entries m2) ms2) r1 r2).
  rewrite !fst_zip, !snd_zip in Hj by lia.
  destruct Hj as [Hse ->]; [by right|..|done|].
  - intros [[k1 x1] sx] [[k2 x2] sy] q1 q2 Hx Hy ?? Hq. simpl in *.
    apply (zip_elem_Forall2 _ _ _ _ _ H1) in Hx as [(w1 & Hw1 & ->) Hi1].
    apply (zip_elem_Forall2 _ _ _ _ _ H2) in Hy as [(w2 & Hw2 & ->) Hi2]. simpl in *.
    rewrite !str_app_assoc in Hq. apply write_string_cancel in Hq as [-> Hq]. injection Hq as Hq.
    destruct (Hl _ Hi1 x2 w1 w2 q1 q2) as [Hx ->]; simpl in *; try done;
      [apply (Hx1 _ Hi1)|apply (Hx2 _ Hi2)|by subst].
  - intros [[k x] sx]. rewrite elem_of_app. intros Hx.
    assert (exists w, sx = write_string k +:+ ":" +:+ w) as [w ->].
    { destruct Hx as [Hx|Hx]; [apply (zip_elem_Forall2 _ _ _ _ _ H1) in Hx as [(w & _ & ->) _]
      |apply (zip_elem_Forall2 _ _ _ _ _ H2) in Hx as [(w & _ & ->) _]]; eauto. }
    eexists "034"%char, _. split; [reflexivity|done].
  - split; [|done]. f_equal. apply omap_perm_eq; [done..|].
    by rewrite <- (sort_entries_perm m), Hse, sort_entries_perm.
Qed.

Lemma cancels_all v : cancels v.
Proof.
  induction v using json_ind_strong; [| | | |by apply cancels_arr|by apply cancels_obj];
    intros v2 s1 s2 r1 r2 He1 He2 Hw1 Hw2 Hr1 Hr2 Heq;
    destruct (write_canonical_head _ _ He1 Hw1) as (c1 & t1 & Ht1 & Hc1);
    destruct (write_canonical_head _ _ He2 Hw2) as (c2 & t2 & Ht2 & Hc2);
    (assert (c1 = c2) as -> by (subst; by injection Heq)); clear Ht1 Ht2.
  - destruct v2 as [|[]|n| | |]; simpl in Hc1, Hc2; subst c2; try done. simpl in *; by simplify_eq.
  - destruct b, v2 as [|[]|n| | |]; simpl in Hc1, Hc2; subst c2; try done; simpl in *; by simplify_eq.
  - destruct v2 as [|[]|n2| | |]; simpl in Hc1, Hc2; subst; try done.
    inversion He1 as [| |? Hn1| | |]; inversion He2 as [| |? Hn2| | |]; subst.
    destruct (write_number_exact n Hn1) as (w1 & E1 & Hc1' & _ & Hv1).
    destruct (write_number_exact n2 Hn2) as (w2 & E2 & Hc2' & _ & Hv2).
    cbn [write_canonical] in Hw1, Hw2. rewrite E1 in Hw1. rewrite E2 in Hw2.
    injection Hw1 as <-. injection Hw2 as <-.
    apply num_run_cancel in Heq as [Hw ->]; [|done..]. split; [|done]. rewrite Hv1, Hv2 in Hw.
    apply (inj pretty) in Hw. destruct n as [u|i|], n2 as [u2|i2|]; simpl in *; try done.
    + f_equal. f_equal. lia.
    + lia.
    + lia.
    + by subst.
  - destruct v2 as [|[]|n| | |]; simpl in Hc1, Hc2; subst c2; try done.
    simpl in Hw1, Hw2. injection Hw1 as <-. injection Hw2 as <-.
    by apply write_string_cancel in Heq as [-> ->].
Qed.
End canonical_facts.

Lemma write_canonical_total `{Platform} v : exact v -> exists s, write_canonical v = Ok s.
Proof.
  induction v as [| | | |l IH|m IH] using json_ind_strong; try (by eexists); intros He.
  - inversion He as [| |? Hn| | |]. destruct (write_number_exact n Hn) as (s & Hs & _). by exists s.
  - inversion He as [| | | |? Hl|]; subst.
    assert (exists xs, write_items l = Ok xs) as [xs Hxs]; [|rewrite write_canonical_arr, Hxs; by eexists].
    clear He. unfold write_items. induction IH as [|x l Hx _ IHl]; [by exists []|].
    apply Forall_cons in Hl as [Hx' Hl]. destruct (Hx Hx') as [s Hs], (IHl Hl) as [ss Hss].
    exists (s :: ss). simpl. by rewrite Hs, Hss.
  - inversion He as [| | | | |? _ Hm]; subst. rewrite write_canonical_obj. unfold write_object.
    rewrite sort_entries_fmap. assert (Hall : forall kv, kv ∈ sort_entries m -> exists s, write_canonical kv.2 = Ok s).
    { intros kv Hin. rewrite sort_entries_perm in Hin. rewrite Forall_forall in IH, Hm.
      apply (IH _ Hin), (Hm _ Hin). }
    clear -Hall. induction (sort_entries m) as [|[k v] l IHl]; [by eexists|].
    destruct IHl as [s Hs]; [set_solver|]. destruct (Hall (k, v)) as [w Hw]; [constructor|].
    rewrite fmap_cons. simpl in *. unfold write_member at 1. simpl. rewrite Hw. simpl.
    destruct (mapR _ _); [by eexists|discriminate Hs].
Qed.

(** C40: on JSON whose numbers are integers of at most 53 bits,
    [canonical_json_value] never fails, and two values with the same canonical bytes are the same
    value: nothing but a BLAKE3 collision can give two different states, requests or tool calls
    one hash. *)
Theorem canonical_json_injective `{Platform} (v1 v2 : json) :
  exact v1 -> exact v2 ->
  is_ok (canonical_json_value v1) = true /\
  (canonical_json_value v1 = canonical_json_value v2 -> v1 = v2).
Proof.
  intros H1 H2. destruct (write_canonical_total v1 H1) as [s Hs]. unfold canonical_json_value.
  split; [by rewrite Hs|]. rewrite Hs. intros Hs2.
  by destruct (cancels_all v1 v2 s s "" "" H1 H2 Hs (eq_sym Hs2)).
Qed.

(** [Hash::parse] returns its argument or fails; it accepts
    exactly [b3:] followed by 64 lowercase hexadecimal digits, and therefore every hash
    [Hash::of_bytes] renders. *)
Theorem hash_parse_accepts_own_output `{PlatformLaws} (s : string) :
  (forall h, parse_hash s = Ok h <->
    h = s /\ exists hex, s = "b3:" +:+ hex /\ String.length hex = 64 /\ all_bytes is_hex_lower hex = true) /\
  parse_hash (of_bytes s) = Ok (of_bytes s).
Proof.
  split; unfold parse_hash, of_bytes.
  - intros h. destruct (strip_prefix "b3:" s) as [hex|] eqn:Hp.
    + apply strip_prefix_Some in Hp as ->.
      destruct (Nat.eqb_spec (String.length hex) 64), (all_bytes is_hex_lower hex) eqn:Hx; simpl;
        (split; [intros [=]; by eauto|]); intros (-> & hex' & Heq & ? & ?); apply (inj _) in Heq; subst; try done;
        congruence.
    + split; [done|]. intros (_ & hex & -> & _). by rewrite strip_prefix_app in Hp.
  - by rewrite strip_prefix_app, blake3_hex_length, blake3_hex_digits.
Qed.

(** A toy platform for evaluation on concrete inputs: a checksum in hexadecimal and a fixed text
    for doubles. *)
Fixpoint toy_sum (s : string) (acc : N) : N :=
  match s with EmptyString => acc | String a s' => toy_sum s' (N.land (acc * 31 + byte_val a) 65535) end.
Fixpoint toy_hex (n : nat) (x : N) : string :=
  match n with O => "" | S n' => String (hex_digit (x mod 16)) (toy_hex n' (x / 16)%N) end.
Definition toy_platform : Platform := {|
  blake3_hex s := toy_hex 64 (toy_sum s 7);
  ryu_js_format _ := "0.5"
|}.
Lemma toy_platform_laws : @PlatformLaws toy_platform.
Proof.
  assert (Hd : forall x, is_hex_lower (hex_digit (x mod 16)) = true).
  { intros x. assert (x mod 16 < 16)%N as Hx by (apply N.mod_lt; lia). revert Hx.
    generalize (x mod 16)%N. intros y Hy.
    assert (forall k, (k < 16)%nat -> is_hex_lower (hex_digit (N.of_nat k)) = true) as Hk.
    { intros k Hk. do 16 (destruct k as [|k]; [done|]). lia. }
    rewrite <- (N2Nat.id y). apply Hk. lia. }
  split; intros s; cbn [blake3_hex toy_platform]; generalize (toy_sum s 7).
  - assert (forall n x, String.length (toy_hex n x) = n) as Hl by (induction n; intros; simpl; auto). apply Hl.
  - generalize 64. induction n as [|n IH]; intros x; [done|]. cbn [toy_hex all_bytes]. by rewrite Hd, IH.
Qed.

Lemma canonical_json_injective_witness :
  let v := JObj [("a", JArr [JNum (PosInt 5); JNum (NegInt (-7)); JNull]); ("b", JStr "x")] in
  exact v /\ @canonical_json_value toy_platform v =
    @canonical_json_value toy_platform (jobj [("b", JStr "x"); ("a", JArr [JNum (PosInt 5); JNum (NegInt (-7)); JNull])]) /\
  is_ok (@canonical_json_value toy_platform v) = true.
Proof.
  assert (He : exact (JObj [("a", JArr [JNum (PosInt 5); JNum (NegInt (-7)); JNull]); ("b", JStr "x")])).
  { repeat (constructor; try done). }
  split_and!; [exact He|reflexivity|apply (@canonical_json_injective toy_platform _ _ He He)].
Defined.

Lemma hash_parse_accepts_own_output_witness :
  @parse_hash (@of_bytes toy_platform "abc") = Ok (@of_bytes toy_platform "abc").
Proof. exact (proj2 (@hash_parse_accepts_own_output toy_platform toy_platform_laws "abc")). Defined.
