(* ===== verification/Strict.v ===== *)
(** [crates/kernel/src/hash/strict.rs]: the serializer that turns a serde data-model value into a
    JSON value and refuses what plain [serde_json] would silently change (non-finite floats,
    map keys that are not strings, 128-bit integers out of range). *)

From Stdlib Require Import Floats.SpecFloat.
From S2P Require Import Prelude Ord Str Json.

Open Scope string_scope.
Open Scope list_scope.

(** * The serde data model: what a [Serialize] implementation asks of its serializer *)

Inductive sdata : Type :=
  | SBool (b : bool)
  | SInt (z : Z)                 (** [i8] to [i64] *)
  | SUint (n : N)                (** [u8] to [u64] *)
  | SI128 (z : Z)
  | SU128 (n : N)
  | SF32 (f : spec_float)
  | SF64 (f : spec_float)
  | SChar (c : string)
  | SStr (s : string)
  | SBytes (s : string)
  | SNone
  | SSome (v : sdata)
  | SUnit
  | SUnitStruct
  | SUnitVariant (variant : string)
  | SNewtypeStruct (v : sdata)
  | SNewtypeVariant (variant : string) (v : sdata)
  | SSeq (l : list sdata)
  | STuple (l : list sdata)
  | STupleStruct (l : list sdata)
  | STupleVariant (variant : string) (l : list sdata)
  | SMap (calls : list (sdata + sdata))    (** [serialize_key] (left) and [serialize_value] (right) *)
  | SStruct (fields : list (string * sdata))
  | SStructVariant (variant : string) (fields : list (string * sdata)).

Section sdata_ind_strong.
Variable P : sdata -> Prop.
Let Q (kv : sdata + sdata) : Prop := match kv with inl k => P k | inr v => P v end.
Hypothesis Hleaf : forall v, match v with
  | SSome _ | SNewtypeStruct _ | SNewtypeVariant _ _ | SSeq _ | STuple _ | STupleStruct _
  | STupleVariant _ _ | SMap _ | SStruct _ | SStructVariant _ _ => True
  | _ => P v end.
Hypothesis HSome : forall v, P v -> P (SSome v).
Hypothesis HNs : forall v, P v -> P (SNewtypeStruct v).
Hypothesis HNv : forall n v, P v -> P (SNewtypeVariant n v).
Hypothesis HSeq : forall l, Forall P l -> P (SSeq l).
Hypothesis HTuple : forall l, Forall P l -> P (STuple l).
Hypothesis HTs : forall l, Forall P l -> P (STupleStruct l).
Hypothesis HTv : forall n l, Forall P l -> P (STupleVariant n l).
Hypothesis HMap : forall l, Forall Q l -> P (SMap l).
Hypothesis HSt : forall l, Forall (fun kv => P kv.2) l -> P (SStruct l).
Hypothesis HSv : forall n l, Forall (fun kv => P kv.2) l -> P (SStructVariant n l).
Fixpoint sdata_ind_strong (v : sdata) : P v :=
  let list_case := fix go l : Forall P l :=
    match l with [] => Forall_nil_2 _ | x :: l' => Forall_cons_2 _ _ _ (sdata_ind_strong x) (go l') end in
  let field_case := fix go l : Forall (fun kv => P kv.2) l :=
    match l with [] => Forall_nil_2 _ | x :: l' => Forall_cons_2 _ _ _ (sdata_ind_strong x.2) (go l') end in
  match v with
  | SSome v => HSome v (sdata_ind_strong v)
  | SNewtypeStruct v => HNs v (sdata_ind_strong v)
  | SNewtypeVariant n v => HNv n v (sdata_ind_strong v)
  | SSeq l => HSeq l (list_case l)
  | STuple l => HTuple l (list_case l)
  | STupleStruct l => HTs l (list_case l)
  | STupleVariant n l => HTv n l (list_case l)
  | SMap l => HMap l ((fix go l : Forall Q l :=
      match l with
      | [] => Forall_nil_2 _
      | inl x :: l' => Forall_cons_2 Q (inl x) _ (sdata_ind_strong x) (go l')
      | inr x :: l' => Forall_cons_2 Q (inr x) _ (sdata_ind_strong x) (go l')
      end) l)
  | SStruct l => HSt l (field_case l)
  | SStructVariant n l => HSv n l (field_case l)
  | v => Hleaf v
  end.
End sdata_ind_strong.

(** * The serializer *)

(** [Number::from_f64]. *)
Definition number_from_f64 (f : spec_float) : option number :=
  if is_finite f then Some (Float f) else None.

(** The [f64] with the value of an [f32]. *)
Definition f64_from_f32 (f : spec_float) : spec_float :=
  match f with
  | S754_finite s m e => binary_normalize 53 1024 (if s then Z.neg m else Z.pos m) e s
  | _ => f
  end.

(** [Value::from] of a machine integer. *)
Definition value_of_int (z : Z) : json := JNum (if (z <? 0)%Z then NegInt z else PosInt (Z.to_N z)).

Definition float (f : spec_float) : result HashError json :=
  if negb (is_finite f) then Err (NotCanonicalizable ("non-finite float " +:+ show_non_finite f))
  else ok_or (NotCanonicalizable "float") (JNum <$> number_from_f64 f).

Definition out_of_range (z : Z) : HashError :=
  NotCanonicalizable ("integer " +:+ show_Z z +:+ " out of range").
Definition i64_fits (z : Z) : bool := (- 2 ^ 63 <=? z)%Z && (z <? 2 ^ 63)%Z.
Definition u64_fits (n : N) : bool := (n <? 2 ^ 64)%N.

Definition non_string_key : HashError := NotCanonicalizable "map key is not a string".

(** [KeyS]: strings, characters and unit variants, through newtypes and [Some].  [i128] and [u128]
    fall to serde's default methods, which report the type as unsupported. *)
Fixpoint key_s (v : sdata) : result HashError string :=
  match v with
  | SChar c => Ok c
  | SStr s => Ok s
  | SUnitVariant variant => Ok variant
  | SSome v => key_s v
  | SNewtypeStruct v => key_s v
  | SI128 _ => Err (NotCanonicalizable "i128 is not supported")
  | SU128 _ => Err (NotCanonicalizable "u128 is not supported")
  | _ => Err non_string_key
  end.

(** [VariantSeqS::end], [VariantMapS::end]: the payload under the variant's name. *)
Definition variant_obj (variant : string) (v : json) : json := JObj (omap_insert variant v []).

(** [MapS]: the members so far and the key waiting for its value. *)
Definition MapS : Type := list (string * json) * option string.
Definition serialize_key (k : sdata) (st : MapS) : result HashError MapS :=
  s ← key_s k; mret (st.1, Some s).
Definition serialize_value (v : result HashError json) (st : MapS) : result HashError MapS :=
  match st.2 with
  | None => Err (NotCanonicalizable "value without key")
  | Some k => j ← v; mret (omap_insert k j st.1, None)
  end.

(** [to_strict_value]: [v.serialize(Strict)]. *)
Fixpoint to_strict_value (v : sdata) : result HashError json :=
  let elements := fix go (acc : list json) (l : list sdata) : result HashError (list json) :=
    match l with
    | [] => Ok acc
    | x :: l' => match to_strict_value x with Ok j => go (acc ++ [j]) l' | Err e => Err e end
    end in
  let fields := fix go (acc : list (string * json)) (l : list (string * sdata)) :
      result HashError (list (string * json)) :=
    match l with
    | [] => Ok acc
    | kv :: l' => match to_strict_value kv.2 with
                  | Ok j => go (omap_insert kv.1 j acc) l'
                  | Err e => Err e
                  end
    end in
  match v with
  | SBool b => Ok (JBool b)
  | SInt z => Ok (value_of_int z)
  | SUint n => Ok (JNum (PosInt n))
  | SI128 z => if i64_fits z then Ok (value_of_int z) else Err (out_of_range z)
  | SU128 n => if u64_fits n then Ok (JNum (PosInt n)) else Err (out_of_range (Z.of_N n))
  | SF32 f => float (f64_from_f32 f)
  | SF64 f => float f
  | SChar c => Ok (JStr c)
  | SStr s => Ok (JStr s)
  | SBytes s => Ok (JArr ((fun a => JNum (PosInt (N_of_ascii a))) <$> String.list_ascii_of_string s))
  | SNone => Ok JNull
  | SSome v => to_strict_value v
  | SUnit => Ok JNull
  | SUnitStruct => Ok JNull
  | SUnitVariant variant => Ok (JStr variant)
  | SNewtypeStruct v => to_strict_value v
  | SNewtypeVariant variant v => j ← to_strict_value v; mret (variant_obj variant j)
  | SSeq l => JArr <$> elements [] l
  | STuple l => JArr <$> elements [] l
  | STupleStruct l => JArr <$> elements [] l
  | STupleVariant variant l => xs ← elements [] l; mret (variant_obj variant (JArr xs))
  | SMap calls =>
      st ← (fix go (st : MapS) l := match l with
            | [] => Ok st
            | inl k :: l' => match serialize_key k st with Ok st' => go st' l' | Err e => Err e end
            | inr v :: l' => match serialize_value (to_strict_value v) st with
                             | Ok st' => go st' l'
                             | Err e => Err e
                             end
            end) ([], None) calls;
      mret (JObj st.1)
  | SStruct fs => JObj <$> fields [] fs
  | SStructVariant variant fs => m ← fields [] fs; mret (variant_obj variant (JObj m))
  end.

(** [Hash::of_canonical_json] of any serializable value. *)
Definition hash_of `{Platform} (v : sdata) : result HashError string :=
  j ← to_strict_value v; of_canonical_json j.

(** * What is refused, and what comes out *)

(** Accepted input: finite floats, 128-bit integers within 64 bits, maps whose calls alternate
    between a string key and its value. *)
Fixpoint representable (v : sdata) : bool :=
  let all := fix go l := match l with [] => true | x :: l' => representable x && go l' end in
  let all2 := fix go (l : list (string * sdata)) :=
    match l with [] => true | kv :: l' => representable kv.2 && go l' end in
  match v with
  | SI128 z => i64_fits z
  | SU128 n => u64_fits n
  | SF32 f => is_finite (f64_from_f32 f)
  | SF64 f => is_finite f
  | SSome v | SNewtypeStruct v | SNewtypeVariant _ v => representable v
  | SSeq l | STuple l | STupleStruct l | STupleVariant _ l => all l
  | SMap calls => (fix go (pending : bool) l := match l with
                   | [] => true
                   | inl k :: l' => is_ok (key_s k) && go true l'
                   | inr v :: l' => pending && representable v && go false l'
                   end) false calls
  | SStruct fs | SStructVariant _ fs => all2 fs
  | _ => true
  end.

(** A value serde_json itself can hold: no non-finite double anywhere, members sorted. *)
Inductive holdable : json -> Prop :=
  | holdable_null : holdable JNull
  | holdable_bool b : holdable (JBool b)
  | holdable_num n : match n with Float f => is_finite f = true | NegInt z => (z < 0)%Z | PosInt _ => True end ->
      holdable (JNum n)
  | holdable_str s : holdable (JStr s)
  | holdable_arr l : Forall holdable l -> holdable (JArr l)
  | holdable_obj m : omap_sorted m -> Forall (fun kv => holdable kv.2) m -> holdable (JObj m).

Definition strict_ok (v : sdata) : Prop :=
  match to_strict_value v with Ok j => representable v = true /\ holdable j | Err _ => representable v = false end.

Lemma holdable_insert k j (m : list (string * json)) :
  holdable j -> holdable (JObj m) -> holdable (JObj (omap_insert k j m)).
Proof.
  intros Hj Hm. inversion Hm as [| | | | |? Hs Hf]; subst. constructor; [by apply omap_insert_sorted|].
  rewrite Forall_forall in *. intros x [->|Hx]%omap_insert_elem; [done|by apply Hf].
Qed.
Lemma holdable_variant n j : holdable j -> holdable (variant_obj n j).
Proof. intros Hj. apply holdable_insert; [done|]. repeat constructor. Qed.

Lemma strict_elements l acc : Forall strict_ok l -> Forall holdable acc ->
  match (fix go (acc : list json) (l : list sdata) : result HashError (list json) :=
    match l with
    | [] => Ok acc
    | x :: l' => match to_strict_value x with Ok j => go (acc ++ [j]) l' | Err e => Err e end
    end) acc l with
  | Ok js => (fix go l := match l with [] => true | x :: l' => representable x && go l' end) l = true /\
             Forall holdable js
  | Err _ => (fix go l := match l with [] => true | x :: l' => representable x && go l' end) l = false
  end.
Proof.
  intros Hl. revert acc. induction Hl as [|x l Hx _ IH]; intros acc Hacc; [done|].
  unfold strict_ok in Hx. destruct (to_strict_value x) as [j|e]; [|by rewrite Hx].
  destruct Hx as [-> Hj]. apply IH. apply Forall_app_2; [done|]. by repeat constructor.
Qed.

Lemma strict_fields l acc : Forall (fun kv => strict_ok kv.2) l -> holdable (JObj acc) ->
  match (fix go (acc : list (string * json)) (l : list (string * sdata)) :
      result HashError (list (string * json)) :=
    match l with
    | [] => Ok acc
    | kv :: l' => match to_strict_value kv.2 with
                  | Ok j => go (omap_insert kv.1 j acc) l'
                  | Err e => Err e
                  end
    end) acc l with
  | Ok m => (fix go (l : list (string * sdata)) :=
      match l with [] => true | kv :: l' => representable kv.2 && go l' end) l = true /\ holdable (JObj m)
  | Err _ => (fix go (l : list (string * sdata)) :=
      match l with [] => true | kv :: l' => representable kv.2 && go l' end) l = false
  end.
Proof.
  intros Hl. revert acc. induction Hl as [|[k x] l Hx _ IH]; intros acc Hacc; [done|]. simpl in *.
  unfold strict_ok in Hx. destruct (to_strict_value x) as [j|e]; [|by rewrite Hx].
  destruct Hx as [-> Hj]. by apply IH, holdable_insert.
Qed.

Lemma float_ok f : match float f with Ok j => is_finite f = true /\ holdable j | Err _ => is_finite f = false end.
Proof.
  unfold float, number_from_f64. destruct (is_finite f) eqn:Hf; [|done]. simpl.
  split; [done|]. by constructor.
Qed.
Lemma holdable_int z : holdable (value_of_int z).
Proof. unfold value_of_int. constructor. destruct (Z.ltb_spec z 0); [done|trivial]. Qed.

Lemma strict_map l (st : MapS) :
  Forall (fun kv => match kv with inl k => strict_ok k | inr v => strict_ok v end) l -> holdable (JObj st.1) ->
  match (fix go (st : MapS) l := match l with
            | [] => Ok st
            | inl k :: l' => match serialize_key k st with Ok st' => go st' l' | Err e => Err e end
            | inr v :: l' => match serialize_value (to_strict_value v) st with
                             | Ok st' => go st' l'
                             | Err e => Err e
                             end
            end) st l with
  | Ok st' => (fix go (pending : bool) l := match l with
                   | [] => true
                   | inl k :: l' => is_ok (key_s k) && go true l'
                   | inr v :: l' => pending && representable v && go false l'
                   end) (bool_decide (st.2 <> None)) l = true /\ holdable (JObj st'.1)
  | Err _ => (fix go (pending : bool) l := match l with
                   | [] => true
                   | inl k :: l' => is_ok (key_s k) && go true l'
                   | inr v :: l' => pending && representable v && go false l'
                   end) (bool_decide (st.2 <> None)) l = false
  end.
Proof.
  intros Hl. revert st. induction Hl as [|[k|v] l Hx _ IH]; intros [m p] Hm; [done|..].
  - unfold serialize_key. destruct (key_s k) as [s|e]; [|done]. by apply (IH (m, Some s)).
  - unfold serialize_value. destruct p as [k|]; [|done]. unfold strict_ok in Hx. simpl.
    destruct (to_strict_value v) as [j|e]; [|by rewrite Hx]. destruct Hx as [-> Hj].
    apply (IH (omap_insert k j m, None)). by apply holdable_insert.
Qed.

Lemma strict_ok_all v : strict_ok v.
Proof.
  revert v. apply sdata_ind_strong.
  1: intros v; destruct v; trivial; unfold strict_ok; cbn [to_strict_value representable];
     try (split; [done|]; constructor; done).
  all: try (intros n v IH || intros v IH); unfold strict_ok in *; cbn [to_strict_value representable];
    try done.
  - split; [done|apply holdable_int].
  - destruct (i64_fits z); [split; [done|apply holdable_int]|done].
  - destruct (u64_fits n); [by split; [|constructor]|done].
  - apply float_ok.
  - apply float_ok.
  - split; [done|]. constructor. apply Forall_fmap, Forall_true. intros a. by constructor.
  - destruct (to_strict_value v); simpl; [|done]. destruct IH. split; [done|]. by apply holdable_variant.
  - pose proof (strict_elements v [] IH ltac:(constructor)) as He. unfold fmap, result_fmap.
    case_match; [|done]. destruct He. split; [done|]. by constructor.
  - pose proof (strict_elements v [] IH ltac:(constructor)) as He. unfold fmap, result_fmap.
    case_match; [|done]. destruct He. split; [done|]. by constructor.
  - pose proof (strict_elements v [] IH ltac:(constructor)) as He. unfold fmap, result_fmap.
    case_match; [|done]. destruct He. split; [done|]. by constructor.
  - pose proof (strict_elements v [] IH ltac:(constructor)) as He. unfold mbind, result_bind.
    case_match; [|done]. destruct He. split; [done|]. apply holdable_variant. by constructor.
  - pose proof (strict_map v ([], None) IH ltac:(repeat constructor)) as He. unfold mbind, result_bind.
    case_match; [|done]. by destruct He.
  - pose proof (strict_fields v [] IH ltac:(repeat constructor)) as He. unfold fmap, result_fmap.
    case_match; [|done]. by destruct He.
  - pose proof (strict_fields v [] IH ltac:(repeat constructor)) as He. unfold mbind, result_bind.
    case_match; [|done]. destruct He. split; [done|]. by apply holdable_variant.
Qed.

(** [to_strict_value] accepts exactly the representable data (every
    float finite, every 128-bit integer within 64 bits, every map alternating string keys and
    values), and the JSON it yields contains no non-finite double and only sorted, duplicate-free
    objects: [Hash::of_canonical_json] can never hash a [null] where a [NaN] was. *)
Theorem strict_serializer_total (v : sdata) :
  is_ok (to_strict_value v) = representable v /\
  (forall j, to_strict_value v = Ok j -> holdable j).
Proof.
  pose proof (strict_ok_all v) as H. unfold strict_ok in H.
  destruct (to_strict_value v) as [j|e]; simpl; [|by rewrite H].
  destruct H as [-> Hj]. split; [done|]. by intros ? [= <-].
Qed.

Example nan_in_a_map_is_refused :
  to_strict_value (SMap [inl (SStr "score"); inr (SF64 S754_nan)]) =
    Err (NotCanonicalizable "non-finite float NaN").
Proof. reflexivity. Qed.
