(* ===== verification/Codec.v ===== *)
(** Serde's derived [Serialize] and [Deserialize] as pairs of functions between Rocq data and
    [serde_json::Value]s, with the law that reading back what was written gives the datum again.
    A struct's codec is assembled from its fields in declaration order, so its round trip follows
    by instance resolution. *)

From Stdlib Require Import Floats.SpecFloat.
From S2P Require Import Prelude Ord Str Capability Json Strict.

Open Scope string_scope.
Open Scope list_scope.

(** [valid] marks the data the pair is exact on: integers within their width, durations that are
    whole in the unit written, and optional values whose text is not [null]. *)
Record codec (A : Type) : Type := { enc : A -> json; dec : json -> option A; valid : A -> Prop }.
Arguments enc {A} c a.
Arguments dec {A} c j.
Arguments valid {A} c a.

Class CodecOk {A} (c : codec A) : Prop := dec_enc : forall a, valid c a -> dec c (enc c a) = Some a.

(** The fields of a struct. *)
Record fcodec (A : Type) : Type := {
  fnames : list string;
  fenc : A -> list (string * json);
  fdec : list (string * json) -> option A;
  fvalid : A -> Prop
}.
Arguments fnames {A} f.
Arguments fenc {A} f a.
Arguments fdec {A} f m.
Arguments fvalid {A} f a.

Class FOk {A} (f : fcodec A) : Prop := {
  fo_names a : (fenc f a).*1 = fnames f;
  fo_dec a m : fvalid f a -> (forall k v, (k, v) ∈ fenc f a -> omap_get k m = Some v) -> fdec f m = Some a
}.

(** * Fields *)

(** A field of type [A]. *)
Definition freq {A} (name : string) (c : codec A) : fcodec A := {|
  fnames := [name];
  fenc a := [(name, enc c a)];
  fdec m := omap_get name m ≫= dec c;
  fvalid := valid c
|}.

(** A field of type [Option<A>]: [null] when [None], and [None] when missing. *)
Definition enc_opt {A} (c : codec A) (o : option A) : json := match o with None => JNull | Some a => enc c a end.
Definition dec_opt {A} (c : codec A) (j : json) : option (option A) :=
  match j with JNull => Some None | _ => Some <$> dec c j end.
Definition valid_opt {A} (c : codec A) (o : option A) : Prop :=
  match o with None => True | Some a => valid c a /\ enc c a <> JNull end.
Definition fopt {A} (name : string) (c : codec A) : fcodec (option A) := {|
  fnames := [name];
  fenc o := [(name, enc_opt c o)];
  fdec m := match omap_get name m with None => Some None | Some j => dec_opt c j end;
  fvalid := valid_opt c
|}.

(** [#[serde(default)]]. *)
Definition fdefault {A} (name : string) (c : codec A) (d : A) : fcodec A := {|
  fnames := [name];
  fenc a := [(name, enc c a)];
  fdec m := match omap_get name m with None => Some d | Some j => dec c j end;
  fvalid := valid c
|}.

(** A constant, as an internal tag writes it. *)
Definition fpair {A B} (f : fcodec A) (g : fcodec B) : fcodec (A * B) := {|
  fnames := fnames f ++ fnames g;
  fenc ab := fenc f ab.1 ++ fenc g ab.2;
  fdec m := a ← fdec f m; b ← fdec g m; Some (a, b);
  fvalid ab := fvalid f ab.1 /\ fvalid g ab.2
|}.
Infix "⊗" := fpair (at level 60, right associativity).

(** A struct and the tuple of its fields. *)
Definition fiso {A B} (to : B -> A) (from : A -> B) (f : fcodec B) : fcodec A := {|
  fnames := fnames f;
  fenc a := fenc f (from a);
  fdec m := to <$> fdec f m;
  fvalid a := fvalid f (from a)
|}.

(** * Whole values *)

Definition struct {A} (f : fcodec A) : codec A := {|
  enc a := jobj (fenc f a);
  dec j := match j with JObj m => fdec f m | _ => None end;
  valid := fvalid f
|}.

(** [Option<A>] as a value. *)
Definition copt {A} (c : codec A) : codec (option A) :=
  {| enc := enc_opt c; dec := dec_opt c; valid := valid_opt c |}.

(** A transparent newtype, or a type converted through another ([try_from]/[into]). *)
Definition cconv {A B} (to : B -> option A) (from : A -> B) (ok_a : A -> Prop) (c : codec B) : codec A := {|
  enc a := enc c (from a);
  dec j := dec c j ≫= to;
  valid a := ok_a a /\ valid c (from a)
|}.

Definition cvalue : codec json := {| enc j := j; dec j := Some j; valid _ := True |}.
Definition cstr : codec string := {| enc := JStr; dec := as_str; valid _ := True |}.
Definition cbool : codec bool := {| enc := JBool; dec := as_bool; valid _ := True |}.

(** Unsigned integers below [2^w]. *)
Definition cuint (w : N) : codec N := {|
  enc n := JNum (PosInt n);
  dec j := n ← as_u64 j; if (n <? 2 ^ w)%N then Some n else None;
  valid n := (n < 2 ^ w)%N
|}.
Definition cu64 : codec N := cuint 64.
Definition cu32 : codec N := cuint 32.

(** [i32]. *)
Definition in_i32 (z : Z) : bool := (- 2 ^ 31 <=? z)%Z && (z <? 2 ^ 31)%Z.
Definition ci32 : codec Z := {|
  enc := value_of_int;
  dec j := match j with
           | JNum (PosInt n) => if in_i32 (Z.of_N n) then Some (Z.of_N n) else None
           | JNum (NegInt z) => if in_i32 z then Some z else None
           | _ => None
           end;
  valid z := in_i32 z = true
|}.

(** [f64]: a double that is not finite is written [null]; integers are read too. *)
Definition cf64 : codec spec_float := {|
  enc f := if is_finite f then JNum (Float f) else JNull;
  dec j := match j with
           | JNum (Float f) => Some f
           | JNum (PosInt n) => Some (f64_of_Z (Z.of_N n))
           | JNum (NegInt z) => Some (f64_of_Z z)
           | _ => None
           end;
  valid f := is_finite f = true
|}.

(** [serde_util]: durations (nanoseconds) written as whole seconds or milliseconds; a count of
    milliseconds beyond [u64] saturates. *)
Definition as_secs (d : N) : N := (d / 1000000000)%N.
Definition as_millis (d : N) : N := (d / 1000000)%N.
Definition U64_MAX : N := (2 ^ 64 - 1)%N.
Definition duration_secs : codec N := {|
  enc d := JNum (PosInt (as_secs d));
  dec j := (fun n => n * 1000000000)%N <$> dec cu64 j;
  valid d := (d mod 1000000000 = 0)%N /\ (as_secs d < 2 ^ 64)%N
|}.
Definition duration_ms : codec N := {|
  enc d := JNum (PosInt (N.min (as_millis d) U64_MAX));
  dec j := (fun n => n * 1000000)%N <$> dec cu64 j;
  valid d := (d mod 1000000 = 0)%N /\ (as_millis d < 2 ^ 64)%N
|}.

(** Sequences, and maps with string keys. *)
Definition clist {A} (c : codec A) : codec (list A) := {|
  enc l := JArr (enc c <$> l);
  dec j := l ← as_array j; mapO (dec c) l;
  valid l := Forall (valid c) l
|}.
Definition cmap {A} (c : codec A) : codec (list (string * A)) := {|
  enc m := JObj ((fun kv => (kv.1, enc c kv.2)) <$> m);
  dec j := m ← as_object j; omap_of_list <$> mapO (fun kv => v ← dec c kv.2; Some (kv.1, v)) m;
  valid m := omap_sorted m /\ Forall (fun kv => valid c kv.2) m
|}.

(** A fieldless enum, by its variants' names. *)
Definition cenum {A} (name : A -> string) (all : list A) : codec A := {|
  enc a := JStr (name a);
  dec j := s ← as_str j; head (List.filter (fun a => bool_decide (name a = s)) all);
  valid _ := True
|}.

(** An externally tagged variant with a payload. *)
Definition tagged (name : string) (v : json) : json := JObj [(name, v)].

(** [Capability] travels as its canonical string. *)
Definition ccap : codec Capability :=
  cconv (fun s => ok (from_str s)) display normal_cap cstr.

(** * Laws *)

Lemma holdable_jobj fields : Forall (fun kv => holdable kv.2) fields -> holdable (jobj fields).
Proof.
  intros Hf. unfold jobj. constructor; [apply omap_of_list_sorted|]. unfold omap_of_list.
  assert (Hm : Forall (fun kv : string * json => holdable kv.2) []) by constructor. revert Hm.
  generalize (@nil (string * json)). induction Hf as [|[k v] l Hv _ IH]; intros m Hm; [done|]. simpl. apply IH.
  rewrite Forall_forall in *. intros x [->|Hx]%omap_insert_elem; [done|by apply Hm].
Qed.

Section field_laws.
Lemma freq_ok {A} name (c : codec A) : CodecOk c -> FOk (freq name c).
Proof.
  intros Hc. split; [done|]. intros a m Hv Hm. simpl in *. rewrite (Hm name (enc c a)) by set_solver.
  by apply Hc.
Qed.
Lemma dec_enc_opt {A} (c : codec A) o : CodecOk c -> valid_opt c o -> dec_opt c (enc_opt c o) = Some o.
Proof.
  intros Hc Hv. destruct o as [a|]; [|done]. destruct Hv as [Hv Hn]. simpl. unfold dec_opt.
  destruct (enc c a) eqn:He; [done|..]; by rewrite <- He, (Hc _ Hv).
Qed.
Lemma fopt_ok {A} name (c : codec A) : CodecOk c -> FOk (fopt name c).
Proof.
  intros Hc. split; [done|]. intros o m Hv Hm. simpl in *. rewrite (Hm name (enc_opt c o)) by set_solver.
  by apply dec_enc_opt.
Qed.
Lemma fdefault_ok {A} name (c : codec A) d : CodecOk c -> FOk (fdefault name c d).
Proof.
  intros Hc. split; [done|]. intros a m Hv Hm. simpl in *. rewrite (Hm name (enc c a)) by set_solver.
  by apply Hc.
Qed.
Lemma fpair_ok {A B} (f : fcodec A) (g : fcodec B) : FOk f -> FOk g -> FOk (f ⊗ g).
Proof.
  intros Hf Hg. split.
  - intros a. simpl. by rewrite fmap_app, !fo_names.
  - intros [a b] m [Ha Hb] Hm. simpl in *. rewrite (fo_dec a m Ha); [|set_solver]. simpl.
    rewrite (fo_dec b m Hb); [done|set_solver].
Qed.
Lemma fiso_ok {A B} (to : B -> A) (from : A -> B) (f : fcodec B) :
  (forall a, to (from a) = a) -> FOk f -> FOk (fiso to from f).
Proof.
  intros Hi Hf. split; [intros a; apply (@fo_names _ f Hf)|]. intros a m Hv Hm. simpl in *.
  rewrite (fo_dec _ m Hv Hm). simpl. by rewrite Hi.
Qed.

Lemma fields_found {A} (f : fcodec A) a k v :
  FOk f -> NoDup (fnames f) -> (k, v) ∈ fenc f a -> omap_get k (omap_of_list (fenc f a)) = Some v.
Proof.
  intros Hf Hnd Hin. pose proof (jget_jobj k (fenc f a)) as Hg. rewrite fo_names in Hg.
  specialize (Hg Hnd). simpl in Hg. rewrite Hg. clear Hg.
  rewrite <- (fo_names a) in Hnd. induction (fenc f a) as [|[k' v'] l IH]; [by apply elem_of_nil in Hin|].
  apply NoDup_cons in Hnd as [Hk Hnd]. simpl in *. apply elem_of_cons in Hin as [[= -> ->]|Hin].
  - by rewrite decide_True.
  - rewrite decide_False; [by apply IH|]. intros ->. apply Hk, list_elem_of_fmap. by exists (k', v).
Qed.
Lemma struct_ok {A} (f : fcodec A) : FOk f -> NoDup (fnames f) -> CodecOk (struct f).
Proof.
  intros Hf Hnd a Hv. simpl. apply (fo_dec a); [done|]. intros k v Hin. by apply fields_found.
Qed.
End field_laws.

#[export] Hint Resolve freq_ok fopt_ok fdefault_ok fpair_ok : typeclass_instances.
#[export] Hint Extern 2 (FOk (fiso _ _ _)) => (apply fiso_ok; [by intros []|]) : typeclass_instances.
#[export] Hint Extern 2 (CodecOk (struct _)) =>
  (apply struct_ok; [|apply (bool_decide_unpack _); lazy; exact I]) : typeclass_instances.

#[export] Instance copt_ok {A} (c : codec A) : CodecOk c -> CodecOk (copt c).
Proof. intros Hc o Hv. by apply dec_enc_opt. Qed.
#[export] Instance cvalue_ok : CodecOk cvalue.
Proof. by intros a. Qed.
#[export] Instance cstr_ok : CodecOk cstr.
Proof. by intros a. Qed.
#[export] Instance cbool_ok : CodecOk cbool.
Proof. by intros a. Qed.
#[export] Instance cuint_ok w : CodecOk (cuint w).
Proof. intros n Hn. simpl in *. apply N.ltb_lt in Hn. by rewrite Hn. Qed.
#[export] Instance cu64_ok : CodecOk cu64 := cuint_ok 64.
#[export] Instance cu32_ok : CodecOk cu32 := cuint_ok 32.
#[export] Instance ci32_ok : CodecOk ci32.
Proof.
  intros z Hz. simpl in *. unfold value_of_int. destruct (Z.ltb_spec z 0); [by rewrite Hz|].
  by rewrite Z2N.id, Hz by done.
Qed.
#[export] Instance cf64_ok : CodecOk cf64.
Proof. intros f Hf. simpl in *. by rewrite Hf. Qed.
#[export] Instance duration_secs_ok : CodecOk duration_secs.
Proof.
  intros d [Hm Hb]. cbn [enc dec duration_secs cu64 cuint as_u64 mbind option_bind].
  apply N.ltb_lt in Hb. rewrite Hb. cbn. f_equal. unfold as_secs.
  pose proof (N.div_mod d 1000000000 ltac:(done)) as Hd. lia.
Qed.
#[export] Instance duration_ms_ok : CodecOk duration_ms.
Proof.
  intros d [Hm Hb]. cbn [enc dec duration_ms cu64 cuint as_u64 mbind option_bind].
  assert (N.min (as_millis d) U64_MAX = as_millis d) as ->.
  { apply N.min_l. unfold U64_MAX. lia. }
  apply N.ltb_lt in Hb. rewrite Hb. cbn. f_equal. unfold as_millis.
  pose proof (N.div_mod d 1000000 ltac:(done)) as Hd. lia.
Qed.
#[export] Instance clist_ok {A} (c : codec A) : CodecOk c -> CodecOk (clist c).
Proof.
  intros Hc l Hl. simpl in *. apply mapO_Some_fmap. eapply Forall_impl; [exact Hl|]. intros a. apply Hc.
Qed.
#[export] Instance cmap_ok {A} (c : codec A) : CodecOk c -> CodecOk (cmap c).
Proof.
  intros Hc m [Hs Hf]. simpl. rewrite mapO_Some_fmap.
  - simpl. by rewrite omap_of_sorted.
  - eapply Forall_impl; [exact Hf|]. intros [k a] Ha. simpl in *. by rewrite (Hc _ Ha).
Qed.
Lemma cenum_ok {A} (name : A -> string) (all : list A) :
  (forall a, head (List.filter (fun b => bool_decide (name b = name a)) all) = Some a) -> CodecOk (cenum name all).
Proof. intros Ha a _. apply Ha. Qed.
#[export] Hint Extern 2 (CodecOk (cenum _ _)) => (apply cenum_ok; by intros []) : typeclass_instances.
#[export] Instance cconv_ok {A B} (to : B -> option A) (from : A -> B) ok_a (c : codec B) :
  CodecOk c -> (forall a, ok_a a -> to (from a) = Some a) -> CodecOk (cconv to from ok_a c).
Proof. intros Hc Hi a [Ha Hv]. simpl. rewrite (Hc _ Hv). simpl. by apply Hi. Qed.
#[export] Instance ccap_ok : CodecOk ccap.
Proof. apply cconv_ok; [apply _|]. intros c Hc. by rewrite from_str_display. Qed.
