(* ===== verification/Data.v ===== *)
(** The plain data of the kernel crate: [content.rs], [task.rs], [artifact.rs], [tool.rs],
    [provider.rs], [config.rs], [state.rs], and the serialized parts of [sandbox.rs] and [host.rs],
    each with its serde codec and its hashes.  A hash, a handle, a session or task id and a path
    are strings; a [Duration] is a number of nanoseconds. *)

From Stdlib Require Import Floats.SpecFloat.
From S2P Require Import Prelude Ord Str Capability Sandbox Json Strict Codec.

Open Scope string_scope.
Open Scope list_scope.

Definition SessionId : Type := string.
Definition TaskId : Type := string.
Definition STATE_SCHEMA_VERSION : N := 1.
Definition EVENT_SCHEMA_VERSION : N := 1.

(** * Content (content.rs) *)

Inductive TaskStatus : Type := TPending | TRunning | TSucceeded | TFailed | TCancelled.
#[export] Instance TaskStatus_eq_dec : EqDecision TaskStatus.
Proof. solve_decision. Defined.
Definition TaskStatus_str (x : TaskStatus) : string :=
  match x with TPending => "pending" | TRunning => "running" | TSucceeded => "succeeded" | TFailed => "failed" | TCancelled => "cancelled" end.
Definition TaskStatus_codec : codec TaskStatus := cenum TaskStatus_str [TPending; TRunning; TSucceeded; TFailed; TCancelled].
#[export] Instance TaskStatus_codec_ok : CodecOk TaskStatus_codec.
Proof. unfold TaskStatus_codec. apply _. Qed.

(** [TaskStatus::is_terminal]. *)
Definition is_terminal (s : TaskStatus) : bool :=
  match s with TSucceeded | TFailed | TCancelled => true | _ => false end.

Inductive ContentBlock : Type :=
  | Text (text : string)
  | Thinking (text : string) (signature : option string)
  | ToolUse (id name : string) (input : json)
  | ToolResultBlock (tool_use_id : string) (content : ToolResultContent) (is_error : bool)
  | Image (artifact_handle mime : string)
  | TaskResultBlock (task_id tool_use_id : string) (status : TaskStatus) (content : ToolResultContent)
      (is_error : bool)
with ToolResultContent : Type :=
  | Blocks (blocks : list ContentBlock)
  | Json (v : json).

(** [ToolResultContent::is_valid]. *)
Definition trc_is_valid (c : ToolResultContent) : bool :=
  match c with
  | Json _ => true
  | Blocks bs => forallb (fun b => match b with Text _ | Image _ _ => true | _ => false end) bs
  end.

(** The internally tagged ([type]) and externally tagged forms. *)
Fixpoint enc_block (b : ContentBlock) : json :=
  match b with
  | Text text => jobj [("type", JStr "text"); ("text", JStr text)]
  | Thinking text signature =>
      jobj [("type", JStr "thinking"); ("text", JStr text); ("signature", enc_opt cstr signature)]
  | ToolUse id name input =>
      jobj [("type", JStr "tool_use"); ("id", JStr id); ("name", JStr name); ("input", input)]
  | ToolResultBlock tool_use_id content is_error =>
      jobj [("type", JStr "tool_result"); ("tool_use_id", JStr tool_use_id); ("content", enc_content content);
            ("is_error", JBool is_error)]
  | Image artifact_handle mime =>
      jobj [("type", JStr "image"); ("artifact_handle", JStr artifact_handle); ("mime", JStr mime)]
  | TaskResultBlock task_id tool_use_id status content is_error =>
      jobj [("type", JStr "task_result"); ("task_id", JStr task_id); ("tool_use_id", JStr tool_use_id);
            ("status", enc TaskStatus_codec status); ("content", enc_content content); ("is_error", JBool is_error)]
  end
with enc_content (c : ToolResultContent) : json :=
  match c with
  | Blocks bs => tagged "blocks" (JArr (map enc_block bs))
  | Json v => tagged "json" v
  end.

(** An externally tagged enum is an object with exactly one member. *)
Definition dec_content_with (dec_block : json -> option ContentBlock) (j : json) : option ToolResultContent :=
  match j with
  | JObj [(k, v)] =>
      if decide (k = "blocks") then l ← as_array v; Blocks <$> mapO dec_block l
      else if decide (k = "json") then Some (Json v)
      else None
  | _ => None
  end.

(** How deep a value nests: enough fuel for reading blocks inside blocks. *)
Fixpoint json_depth (v : json) : nat :=
  match v with
  | JArr l => S ((fix go l := match l with [] => 0 | x :: l' => Nat.max (json_depth x) (go l') end) l)
  | JObj m => S ((fix go (m : list (string * json)) :=
      match m with [] => 0 | kv :: m' => Nat.max (json_depth kv.2) (go m') end) m)
  | _ => 1
  end%nat.

Definition dec_block_with (dec_nested : json -> option ContentBlock) (j : json) : option ContentBlock :=
  let str k := jget k j ≫= as_str in
  let boolean k := jget k j ≫= as_bool in
  let content := jget "content" j ≫= dec_content_with dec_nested in
  tag ← str "type";
  if decide (tag = "text") then Text <$> str "text"
  else if decide (tag = "thinking") then
    text ← str "text";
    signature ← match jget "signature" j with None => Some None | Some s => dec_opt cstr s end;
    Some (Thinking text signature)
  else if decide (tag = "tool_use") then
    id ← str "id"; name ← str "name"; input ← jget "input" j; Some (ToolUse id name input)
  else if decide (tag = "tool_result") then
    id ← str "tool_use_id"; c ← content; e ← boolean "is_error"; Some (ToolResultBlock id c e)
  else if decide (tag = "image") then
    h ← str "artifact_handle"; mime ← str "mime"; Some (Image h mime)
  else if decide (tag = "task_result") then
    id ← str "task_id"; use ← str "tool_use_id"; status ← jget "status" j ≫= dec TaskStatus_codec;
    c ← content; e ← boolean "is_error"; Some (TaskResultBlock id use status c e)
  else None.
Fixpoint dec_block (fuel : nat) (j : json) : option ContentBlock :=
  match fuel with O => None | S fuel => dec_block_with (dec_block fuel) j end.

Definition ContentBlock_codec : codec ContentBlock :=
  {| enc := enc_block; dec j := dec_block (json_depth j) j; valid _ := True |}.
Definition ToolResultContent_codec : codec ToolResultContent :=
  {| enc := enc_content; dec j := dec_content_with (dec_block (json_depth j)) j; valid _ := True |}.

Lemma json_depth_get k m v : omap_get k m = Some v -> (json_depth v < json_depth (JObj m))%nat.
Proof.
  simpl. induction m as [|[k' v'] m IH]; simpl; [done|]. case_decide.
  - intros [= ->]. lia.
  - intros Hv. specialize (IH Hv). lia.
Qed.
Lemma json_depth_elem v l : v ∈ l -> (json_depth v < json_depth (JArr l))%nat.
Proof.
  simpl. induction l as [|x l IH]; [by intros ?%elem_of_nil|]. intros [->|Hv]%elem_of_cons; [lia|].
  specialize (IH Hv). lia.
Qed.

Lemma dec_content_enc (f : json -> option ContentBlock) c :
  (forall b, (json_depth (enc_block b) < json_depth (enc_content c))%nat -> f (enc_block b) = Some b) ->
  dec_content_with f (enc_content c) = Some c.
Proof.
  destruct c as [bs|v]; [|done]. intros Hf. cbn [enc_content dec_content_with tagged].
  rewrite decide_True by done. cbn [as_array mbind option_bind]. change (map enc_block bs) with (enc_block <$> bs).
  rewrite mapO_Some_fmap; [done|]. apply Forall_forall. intros b Hb. apply Hf. cbn [enc_content tagged].
  etrans; [|apply (json_depth_get "blocks"); cbn; by rewrite decide_True by done].
  apply json_depth_elem. change (map enc_block bs) with (enc_block <$> bs). by apply list_elem_of_fmap_2.
Qed.

Lemma dec_block_enc fuel b : (json_depth (enc_block b) <= fuel)%nat -> dec_block fuel (enc_block b) = Some b.
Proof.
  revert b. induction fuel as [|fuel IH]; intros b Hd.
  - destruct b; simpl in Hd; lia.
  - assert (Hc : forall c m, (json_depth (JObj m) <= S fuel)%nat -> omap_get "content" m = Some (enc_content c) ->
      dec_content_with (dec_block fuel) (enc_content c) = Some c).
    { intros c m Hm Hg. apply dec_content_enc. intros b' Hb'. apply IH.
      apply json_depth_get in Hg. lia. }
    destruct b as [| | |i c e| |i u s c e]; cbn [enc_block dec_block] in *; try reflexivity.
    + by destruct signature.
    + specialize (Hc c _ Hd eq_refl). cbv -[dec_content_with dec_block enc_content]. by rewrite Hc.
    + specialize (Hc c _ Hd eq_refl). destruct s; cbv -[dec_content_with dec_block enc_content]; by rewrite Hc.
Qed.
#[export] Instance ContentBlock_codec_ok : CodecOk ContentBlock_codec.
Proof. intros b _. by apply dec_block_enc. Qed.
#[export] Instance ToolResultContent_codec_ok : CodecOk ToolResultContent_codec.
Proof. intros c _. apply dec_content_enc. intros b Hb. apply dec_block_enc. by apply Nat.lt_le_incl. Qed.

Inductive Role : Type := RoleSystem | RoleUser | RoleAssistant | RoleTool.
#[export] Instance Role_eq_dec : EqDecision Role.
Proof. solve_decision. Defined.
Definition Role_str (x : Role) : string :=
  match x with RoleSystem => "system" | RoleUser => "user" | RoleAssistant => "assistant" | RoleTool => "tool" end.
Definition Role_codec : codec Role := cenum Role_str [RoleSystem; RoleUser; RoleAssistant; RoleTool].
#[export] Instance Role_codec_ok : CodecOk Role_codec.
Proof. unfold Role_codec. apply _. Qed.

Record Message : Type := {
  msg_role : Role;
  msg_content : list ContentBlock
}.
Definition Message_fields : fcodec Message := fiso
  (fun '(x1, x2) => Build_Message x1 x2)
  (fun r => (r.(msg_role), r.(msg_content)))
  (freq "role" Role_codec
   ⊗ freq "content" (clist ContentBlock_codec)).
Definition Message_codec : codec Message := struct Message_fields.
#[export] Instance Message_codec_ok : CodecOk Message_codec.
Proof. unfold Message_codec, Message_fields. apply _. Qed.

(** [Message::user_text]. *)
Definition user_text (text : string) : Message := {| msg_role := RoleUser; msg_content := [Text text] |}.

Inductive PromptBlockKind : Type := PbModel | PbRole | PbAgentsMd | PbToolIndex | PbSkills | PbNotebook.
#[export] Instance PromptBlockKind_eq_dec : EqDecision PromptBlockKind.
Proof. solve_decision. Defined.
Definition PromptBlockKind_str (x : PromptBlockKind) : string :=
  match x with PbModel => "model" | PbRole => "role" | PbAgentsMd => "agents_md" | PbToolIndex => "tool_index" | PbSkills => "skills" | PbNotebook => "notebook" end.
Definition PromptBlockKind_codec : codec PromptBlockKind := cenum PromptBlockKind_str [PbModel; PbRole; PbAgentsMd; PbToolIndex; PbSkills; PbNotebook].
#[export] Instance PromptBlockKind_codec_ok : CodecOk PromptBlockKind_codec.
Proof. unfold PromptBlockKind_codec. apply _. Qed.

Record PromptBlock : Type := {
  pb_kind : PromptBlockKind;
  pb_name : string;
  pb_text : string;
  pb_hash : string
}.
Definition PromptBlock_fields : fcodec PromptBlock := fiso
  (fun '(x1, (x2, (x3, x4))) => Build_PromptBlock x1 x2 x3 x4)
  (fun r => (r.(pb_kind), (r.(pb_name), (r.(pb_text), r.(pb_hash)))))
  (freq "kind" PromptBlockKind_codec
   ⊗ freq "name" cstr
   ⊗ freq "text" cstr
   ⊗ freq "hash" cstr).
Definition PromptBlock_codec : codec PromptBlock := struct PromptBlock_fields.
#[export] Instance PromptBlock_codec_ok : CodecOk PromptBlock_codec.
Proof. unfold PromptBlock_codec, PromptBlock_fields. apply _. Qed.

(** [PromptBlock::new]. *)
Definition prompt_block_new `{Platform} (kind : PromptBlockKind) (name text : string) : PromptBlock :=
  {| pb_kind := kind; pb_name := name; pb_text := text; pb_hash := of_bytes text |}.

(** * Artifacts and tasks (artifact.rs, task.rs) *)

Record Spilled : Type := {
  sp_handle : string;
  sp_head : string;
  sp_tail : string;
  sp_size : N;
  sp_mime : string
}.
Definition Spilled_fields : fcodec Spilled := fiso
  (fun '(x1, (x2, (x3, (x4, x5)))) => Build_Spilled x1 x2 x3 x4 x5)
  (fun r => (r.(sp_handle), (r.(sp_head), (r.(sp_tail), (r.(sp_size), r.(sp_mime))))))
  (freq "handle" cstr
   ⊗ freq "head" cstr
   ⊗ freq "tail" cstr
   ⊗ freq "size" cu64
   ⊗ freq "mime" cstr).
Definition Spilled_codec : codec Spilled := struct Spilled_fields.
#[export] Instance Spilled_codec_ok : CodecOk Spilled_codec.
Proof. unfold Spilled_codec, Spilled_fields. apply _. Qed.

Record TaskHandle : Type := {
  th_id : string;
  th_status : TaskStatus;
  th_eta : option N;
  th_check_hint : option json;
  th_description : option string
}.
Definition TaskHandle_fields : fcodec TaskHandle := fiso
  (fun '(x1, (x2, (x3, (x4, x5)))) => Build_TaskHandle x1 x2 x3 x4 x5)
  (fun r => (r.(th_id), (r.(th_status), (r.(th_eta), (r.(th_check_hint), r.(th_description))))))
  (freq "id" cstr
   ⊗ freq "status" TaskStatus_codec
   ⊗ fopt "eta_secs" duration_secs
   ⊗ fopt "check_hint" cvalue
   ⊗ fopt "description" cstr).
Definition TaskHandle_codec : codec TaskHandle := struct TaskHandle_fields.
#[export] Instance TaskHandle_codec_ok : CodecOk TaskHandle_codec.
Proof. unfold TaskHandle_codec, TaskHandle_fields. apply _. Qed.

Record TaskOutcome : Type := {
  oc_content : ToolResultContent;
  oc_is_error : bool;
  oc_artifact_handles : list string
}.
Definition TaskOutcome_fields : fcodec TaskOutcome := fiso
  (fun '(x1, (x2, x3)) => Build_TaskOutcome x1 x2 x3)
  (fun r => (r.(oc_content), (r.(oc_is_error), r.(oc_artifact_handles))))
  (freq "content" ToolResultContent_codec
   ⊗ freq "is_error" cbool
   ⊗ fdefault "artifact_handles" (clist cstr) []).
Definition TaskOutcome_codec : codec TaskOutcome := struct TaskOutcome_fields.
#[export] Instance TaskOutcome_codec_ok : CodecOk TaskOutcome_codec.
Proof. unfold TaskOutcome_codec, TaskOutcome_fields. apply _. Qed.

Inductive TrustTier : Type := Interactive | Scheduled | Inbound.
#[export] Instance TrustTier_eq_dec : EqDecision TrustTier.
Proof. solve_decision. Defined.
Definition TrustTier_str (x : TrustTier) : string :=
  match x with Interactive => "interactive" | Scheduled => "scheduled" | Inbound => "inbound" end.
Definition TrustTier_codec : codec TrustTier := cenum TrustTier_str [Interactive; Scheduled; Inbound].
#[export] Instance TrustTier_codec_ok : CodecOk TrustTier_codec.
Proof. unfold TrustTier_codec. apply _. Qed.

Record WakerSource : Type := {
  ws_kind : string;
  ws_trust_tier : option TrustTier;
  ws_detail : json
}.
Definition WakerSource_fields : fcodec WakerSource := fiso
  (fun '(x1, (x2, x3)) => Build_WakerSource x1 x2 x3)
  (fun r => (r.(ws_kind), (r.(ws_trust_tier), r.(ws_detail))))
  (freq "kind" cstr
   ⊗ fopt "trust_tier" TrustTier_codec
   ⊗ fdefault "detail" cvalue JNull).
Definition WakerSource_codec : codec WakerSource := struct WakerSource_fields.
#[export] Instance WakerSource_codec_ok : CodecOk WakerSource_codec.
Proof. unfold WakerSource_codec, WakerSource_fields. apply _. Qed.

(** [WakerSource::in_process_exit]. *)
Definition in_process_exit (detail : json) : WakerSource :=
  {| ws_kind := "in_process_exit"; ws_trust_tier := None; ws_detail := detail |}.

Record TaskUpdate : Type := {
  tu_id : string;
  tu_status : TaskStatus;
  tu_outcome : option TaskOutcome;
  tu_eta : option N;
  tu_check_hint : option json;
  tu_source : WakerSource
}.
Definition TaskUpdate_fields : fcodec TaskUpdate := fiso
  (fun '(x1, (x2, (x3, (x4, (x5, x6))))) => Build_TaskUpdate x1 x2 x3 x4 x5 x6)
  (fun r => (r.(tu_id), (r.(tu_status), (r.(tu_outcome), (r.(tu_eta), (r.(tu_check_hint), r.(tu_source)))))))
  (freq "id" cstr
   ⊗ freq "status" TaskStatus_codec
   ⊗ fopt "outcome" TaskOutcome_codec
   ⊗ fopt "eta_secs" duration_secs
   ⊗ fopt "check_hint" cvalue
   ⊗ freq "source" WakerSource_codec).
Definition TaskUpdate_codec : codec TaskUpdate := struct TaskUpdate_fields.
#[export] Instance TaskUpdate_codec_ok : CodecOk TaskUpdate_codec.
Proof. unfold TaskUpdate_codec, TaskUpdate_fields. apply _. Qed.

(** [host.rs: UserAnswer]. *)
Record UserAnswer : Type := { ua_question_id : string; ua_answer : option string }.
Definition UserAnswer_fields : fcodec UserAnswer := fiso
  (fun '(x1, x2) => Build_UserAnswer x1 x2)
  (fun r => (r.(ua_question_id), r.(ua_answer)))
  (freq "question_id" cstr
   ⊗ fopt "answer" cstr).
Definition UserAnswer_codec : codec UserAnswer := struct UserAnswer_fields.
#[export] Instance UserAnswer_codec_ok : CodecOk UserAnswer_codec.
Proof. unfold UserAnswer_codec, UserAnswer_fields. apply _. Qed.

Record Task : Type := {
  tk_id : string;
  tk_tool_use_id : string;
  tk_tool_name : string;
  tk_status : TaskStatus;
  tk_started_turn : N;
  tk_completed_turn : option N;
  tk_eta : option N;
  tk_check_hint : option json;
  tk_description : option string;
  tk_outcome : option TaskOutcome;
  tk_in_process_waker : bool
}.
Definition Task_fields : fcodec Task := fiso
  (fun '(x1, (x2, (x3, (x4, (x5, (x6, (x7, (x8, (x9, (x10, x11)))))))))) => Build_Task x1 x2 x3 x4 x5 x6 x7 x8 x9 x10 x11)
  (fun r => (r.(tk_id), (r.(tk_tool_use_id), (r.(tk_tool_name), (r.(tk_status), (r.(tk_started_turn), (r.(tk_completed_turn), (r.(tk_eta), (r.(tk_check_hint), (r.(tk_description), (r.(tk_outcome), r.(tk_in_process_waker))))))))))))
  (freq "id" cstr
   ⊗ freq "tool_use_id" cstr
   ⊗ freq "tool_name" cstr
   ⊗ freq "status" TaskStatus_codec
   ⊗ freq "started_turn" cu64
   ⊗ fopt "completed_turn" cu64
   ⊗ fopt "eta_secs" duration_secs
   ⊗ fopt "check_hint" cvalue
   ⊗ fopt "description" cstr
   ⊗ fopt "outcome" TaskOutcome_codec
   ⊗ freq "in_process_waker" cbool).
Definition Task_codec : codec Task := struct Task_fields.
#[export] Instance Task_codec_ok : CodecOk Task_codec.
Proof. unfold Task_codec, Task_fields. apply _. Qed.

(** [Task::is_open]. *)
Definition is_open (t : Task) : bool := negb (is_terminal (tk_status t)).

(** * Tools (tool.rs) *)

Inductive ToolKind : Type := Stateless | Session.
#[export] Instance ToolKind_eq_dec : EqDecision ToolKind.
Proof. solve_decision. Defined.
Definition ToolKind_str (x : ToolKind) : string :=
  match x with Stateless => "stateless" | Session => "session" end.
Definition ToolKind_codec : codec ToolKind := cenum ToolKind_str [Stateless; Session].
#[export] Instance ToolKind_codec_ok : CodecOk ToolKind_codec.
Proof. unfold ToolKind_codec. apply _. Qed.

Record ToolCall : Type := {
  tc_tool_use_id : string;
  tc_name : string;
  tc_input : json
}.
Definition ToolCall_fields : fcodec ToolCall := fiso
  (fun '(x1, (x2, x3)) => Build_ToolCall x1 x2 x3)
  (fun r => (r.(tc_tool_use_id), (r.(tc_name), r.(tc_input))))
  (freq "tool_use_id" cstr
   ⊗ freq "name" cstr
   ⊗ freq "input" cvalue).
Definition ToolCall_codec : codec ToolCall := struct ToolCall_fields.
#[export] Instance ToolCall_codec_ok : CodecOk ToolCall_codec.
Proof. unfold ToolCall_codec, ToolCall_fields. apply _. Qed.

(** [ToolCall::args_hash], [ToolCall::request_hash]. *)
Definition args_hash `{Platform} (c : ToolCall) : result HashError string := of_canonical_json (tc_input c).
Definition tool_request_hash `{Platform} (c : ToolCall) : result HashError string :=
  of_canonical_json (enc ToolCall_codec c).

Inductive ToolOutputOrigin : Type := OInvoke | OMiddleware | OUnregistered | OCancelled | OTimeout.
#[export] Instance ToolOutputOrigin_eq_dec : EqDecision ToolOutputOrigin.
Proof. solve_decision. Defined.
Definition ToolOutputOrigin_str (x : ToolOutputOrigin) : string :=
  match x with OInvoke => "invoke" | OMiddleware => "middleware" | OUnregistered => "unregistered" | OCancelled => "cancelled" | OTimeout => "timeout" end.
Definition ToolOutputOrigin_codec : codec ToolOutputOrigin := cenum ToolOutputOrigin_str [OInvoke; OMiddleware; OUnregistered; OCancelled; OTimeout].
#[export] Instance ToolOutputOrigin_codec_ok : CodecOk ToolOutputOrigin_codec.
Proof. unfold ToolOutputOrigin_codec. apply _. Qed.

Record ToolOutput : Type := {
  out_content : ToolResultContent;
  out_is_error : bool;
  out_artifact_handles : list string;
  out_spilled : bool;
  out_task : option TaskHandle;
  out_origin : ToolOutputOrigin;
  out_in_process_waker : bool
}.
Definition ToolOutput_fields : fcodec ToolOutput := fiso
  (fun '(x1, (x2, (x3, (x4, (x5, (x6, x7)))))) => Build_ToolOutput x1 x2 x3 x4 x5 x6 x7)
  (fun r => (r.(out_content), (r.(out_is_error), (r.(out_artifact_handles), (r.(out_spilled), (r.(out_task), (r.(out_origin), r.(out_in_process_waker))))))))
  (freq "content" ToolResultContent_codec
   ⊗ freq "is_error" cbool
   ⊗ freq "artifact_handles" (clist cstr)
   ⊗ freq "spilled" cbool
   ⊗ fopt "task" TaskHandle_codec
   ⊗ freq "origin" ToolOutputOrigin_codec
   ⊗ fdefault "in_process_waker" cbool false).
Definition ToolOutput_codec : codec ToolOutput := struct ToolOutput_fields.
#[export] Instance ToolOutput_codec_ok : CodecOk ToolOutput_codec.
Proof. unfold ToolOutput_codec, ToolOutput_fields. apply _. Qed.

(** [ToolResult] and [ToolError]; a boxed error is its message. *)
Inductive ToolResult : Type :=
  | RValue (v : json)
  | RBlocks (blocks : list ContentBlock)
  | RTask (handle : TaskHandle)
  | RReplayed (out : ToolOutput).
Inductive ToolError : Type :=
  | InvalidInput (msg : string)
  | ToolFailed (msg : string)
  | Denied (msg : string)
  | ToolTimeout (d : N)
  | ToolCancelled
  | InvalidTaskHandle (msg : string)
  | ToolReplayMiss (tool request_hash : string)
  | Internal (msg : string).

Record ToolDefinition : Type := {
  td_name : string;
  td_description : string;
  td_input_schema : json
}.
Definition ToolDefinition_fields : fcodec ToolDefinition := fiso
  (fun '(x1, (x2, x3)) => Build_ToolDefinition x1 x2 x3)
  (fun r => (r.(td_name), (r.(td_description), r.(td_input_schema))))
  (freq "name" cstr
   ⊗ freq "description" cstr
   ⊗ freq "input_schema" cvalue).
Definition ToolDefinition_codec : codec ToolDefinition := struct ToolDefinition_fields.
#[export] Instance ToolDefinition_codec_ok : CodecOk ToolDefinition_codec.
Proof. unfold ToolDefinition_codec, ToolDefinition_fields. apply _. Qed.

(** [is_valid_tool_name]. *)
Definition is_tool_name_byte (a : ascii) : bool :=
  is_ascii_lowercase a || is_ascii_digit a || bool_decide (a = "_"%char) || bool_decide (a = "."%char)
  || bool_decide (a = "-"%char).
Definition is_valid_tool_name (name : string) : bool :=
  match name with
  | EmptyString => false
  | String a rest => is_ascii_lowercase a && (String.length name <=? 64)%nat && all_bytes is_tool_name_byte rest
  end.

(** [ToolContext::task_id]. *)
Definition task_id_of (turn : N) (tool_use_id : string) : TaskId := "t" +:+ show_u64 turn +:+ "-" +:+ tool_use_id.

(** * Providers (provider.rs) *)

Record ThinkingConfig : Type := {
  tkc_enabled : bool;
  tkc_budget_tokens : option N
}.
Definition ThinkingConfig_fields : fcodec ThinkingConfig := fiso
  (fun '(x1, x2) => Build_ThinkingConfig x1 x2)
  (fun r => (r.(tkc_enabled), r.(tkc_budget_tokens)))
  (freq "enabled" cbool
   ⊗ fopt "budget_tokens" cu32).
Definition ThinkingConfig_codec : codec ThinkingConfig := struct ThinkingConfig_fields.
#[export] Instance ThinkingConfig_codec_ok : CodecOk ThinkingConfig_codec.
Proof. unfold ThinkingConfig_codec, ThinkingConfig_fields. apply _. Qed.

Record ModelParams : Type := {
  mp_temperature : option spec_float;
  mp_top_p : option spec_float;
  mp_max_tokens : option N;
  mp_stop : list string;
  mp_thinking : option ThinkingConfig;
  mp_extra : json
}.
Definition ModelParams_fields : fcodec ModelParams := fiso
  (fun '(x1, (x2, (x3, (x4, (x5, x6))))) => Build_ModelParams x1 x2 x3 x4 x5 x6)
  (fun r => (r.(mp_temperature), (r.(mp_top_p), (r.(mp_max_tokens), (r.(mp_stop), (r.(mp_thinking), r.(mp_extra)))))))
  (fopt "temperature" cf64
   ⊗ fopt "top_p" cf64
   ⊗ fopt "max_tokens" cu32
   ⊗ fdefault "stop" (clist cstr) []
   ⊗ fopt "thinking" ThinkingConfig_codec
   ⊗ fdefault "extra" cvalue JNull).
Definition ModelParams_codec : codec ModelParams := struct ModelParams_fields.
#[export] Instance ModelParams_codec_ok : CodecOk ModelParams_codec.
Proof. unfold ModelParams_codec, ModelParams_fields. apply _. Qed.

Record RequestTrace : Type := {
  rt_session_id : string;
  rt_turn : N;
  rt_attempt : N;
  rt_checkpoint_hash : string;
  rt_request_id : string
}.
Definition RequestTrace_fields : fcodec RequestTrace := fiso
  (fun '(x1, (x2, (x3, (x4, x5)))) => Build_RequestTrace x1 x2 x3 x4 x5)
  (fun r => (r.(rt_session_id), (r.(rt_turn), (r.(rt_attempt), (r.(rt_checkpoint_hash), r.(rt_request_id))))))
  (freq "session_id" cstr
   ⊗ freq "turn" cu64
   ⊗ freq "attempt" cu32
   ⊗ freq "checkpoint_hash" cstr
   ⊗ freq "request_id" cstr).
Definition RequestTrace_codec : codec RequestTrace := struct RequestTrace_fields.
#[export] Instance RequestTrace_codec_ok : CodecOk RequestTrace_codec.
Proof. unfold RequestTrace_codec, RequestTrace_fields. apply _. Qed.

Record ModelRequest : Type := {
  mq_model_id : string;
  mq_system : list PromptBlock;
  mq_messages : list Message;
  mq_tools : list ToolDefinition;
  mq_params : ModelParams;
  mq_trace : RequestTrace
}.
Definition ModelRequest_fields : fcodec ModelRequest := fiso
  (fun '(x1, (x2, (x3, (x4, (x5, x6))))) => Build_ModelRequest x1 x2 x3 x4 x5 x6)
  (fun r => (r.(mq_model_id), (r.(mq_system), (r.(mq_messages), (r.(mq_tools), (r.(mq_params), r.(mq_trace)))))))
  (freq "model_id" cstr
   ⊗ freq "system" (clist PromptBlock_codec)
   ⊗ freq "messages" (clist Message_codec)
   ⊗ freq "tools" (clist ToolDefinition_codec)
   ⊗ freq "params" ModelParams_codec
   ⊗ freq "trace" RequestTrace_codec).
Definition ModelRequest_codec : codec ModelRequest := struct ModelRequest_fields.
#[export] Instance ModelRequest_codec_ok : CodecOk ModelRequest_codec.
Proof. unfold ModelRequest_codec, ModelRequest_fields. apply _. Qed.

(** [ModelRequest::request_hash], over [HashedRequest]. *)
Definition hashed_request (r : ModelRequest) : json :=
  jobj [("model_id", JStr (mq_model_id r)); ("system", enc (clist PromptBlock_codec) (mq_system r));
        ("messages", enc (clist Message_codec) (mq_messages r));
        ("tools", enc (clist ToolDefinition_codec) (mq_tools r)); ("params", enc ModelParams_codec (mq_params r))].
Definition model_request_hash `{Platform} (r : ModelRequest) : result HashError string :=
  of_canonical_json (hashed_request r).

(** [ModelRequest::system_text]. *)
Definition system_text (r : ModelRequest) : string :=
  join (String "010" (String "010" "")) (pb_text <$> mq_system r).

Inductive StopReason : Type := EndTurn | StopToolUse | MaxTokens | StopSequence | ContentFilter | Other (s : string).
Definition StopReason_codec : codec StopReason := {|
  enc r := match r with
           | EndTurn => JStr "end_turn" | StopToolUse => JStr "tool_use" | MaxTokens => JStr "max_tokens"
           | StopSequence => JStr "stop_sequence" | ContentFilter => JStr "content_filter"
           | Other s => tagged "other" (JStr s)
           end;
  dec j := match j with
           | JStr s => head (List.filter (fun x => bool_decide (x.1 = s))
               [("end_turn", EndTurn); ("tool_use", StopToolUse); ("max_tokens", MaxTokens);
                ("stop_sequence", StopSequence); ("content_filter", ContentFilter)]) ≫= fun x => Some x.2
           | JObj [(k, JStr s)] => if decide (k = "other") then Some (Other s) else None
           | _ => None
           end;
  valid _ := True |}.
#[export] Instance StopReason_codec_ok : CodecOk StopReason_codec.
Proof. by intros [] _. Qed.

Record Usage : Type := {
  us_input_tokens : N;
  us_output_tokens : N;
  us_cache_read_tokens : option N;
  us_reasoning_tokens : option N
}.
Definition Usage_fields : fcodec Usage := fiso
  (fun '(x1, (x2, (x3, x4))) => Build_Usage x1 x2 x3 x4)
  (fun r => (r.(us_input_tokens), (r.(us_output_tokens), (r.(us_cache_read_tokens), r.(us_reasoning_tokens)))))
  (freq "input_tokens" cu64
   ⊗ freq "output_tokens" cu64
   ⊗ fopt "cache_read_tokens" cu64
   ⊗ fopt "reasoning_tokens" cu64).
Definition Usage_codec : codec Usage := struct Usage_fields.
#[export] Instance Usage_codec_ok : CodecOk Usage_codec.
Proof. unfold Usage_codec, Usage_fields. apply _. Qed.

Record ModelResponse : Type := {
  mr_content : list ContentBlock;
  mr_stop_reason : StopReason;
  mr_usage : Usage;
  mr_model_id : string;
  mr_raw_response_hash : string;
  mr_response_id : option string
}.
Definition ModelResponse_fields : fcodec ModelResponse := fiso
  (fun '(x1, (x2, (x3, (x4, (x5, x6))))) => Build_ModelResponse x1 x2 x3 x4 x5 x6)
  (fun r => (r.(mr_content), (r.(mr_stop_reason), (r.(mr_usage), (r.(mr_model_id), (r.(mr_raw_response_hash), r.(mr_response_id)))))))
  (freq "content" (clist ContentBlock_codec)
   ⊗ freq "stop_reason" StopReason_codec
   ⊗ freq "usage" Usage_codec
   ⊗ freq "model_id" cstr
   ⊗ freq "raw_response_hash" cstr
   ⊗ fopt "response_id" cstr).
Definition ModelResponse_codec : codec ModelResponse := struct ModelResponse_fields.
#[export] Instance ModelResponse_codec_ok : CodecOk ModelResponse_codec.
Proof. unfold ModelResponse_codec, ModelResponse_fields. apply _. Qed.

(** [ModelResponse::response_hash], over [HashedResponse]. *)
Definition hashed_response (r : ModelResponse) : json :=
  jobj [("content", enc (clist ContentBlock_codec) (mr_content r));
        ("stop_reason", enc StopReason_codec (mr_stop_reason r)); ("usage", enc Usage_codec (mr_usage r));
        ("model_id", JStr (mr_model_id r))].
Definition response_hash `{Platform} (r : ModelResponse) : result HashError string :=
  of_canonical_json (hashed_response r).

(** [ModelResponse::tool_calls]. *)
Definition tool_calls (r : ModelResponse) : list ToolCall :=
  omap (fun b => match b with
                 | ToolUse id name input => Some {| tc_tool_use_id := id; tc_name := name; tc_input := input |}
                 | _ => None
                 end) (mr_content r).

Inductive ProviderError : Type :=
  | RateLimited (retry_after : option N)
  | Server (status : N) (message : string)
  | ProviderTimeout (d : N)
  | Transport (msg : string)
  | Client (status : N) (message : string)
  | Auth (msg : string)
  | ContextTooLong (msg : string)
  | InvalidResponse (msg : string)
  | ReplayMiss (checkpoint_hash request_hash : string)
  | ProviderCancelled.

(** [ProviderError::retryable], [ProviderError::class]. *)
Definition retryable (e : ProviderError) : bool :=
  match e with
  | RateLimited _ | ProviderTimeout _ | Transport _ => true
  | Server status _ => negb ((status =? 501)%N || (status =? 505)%N)
  | _ => false
  end.
Definition error_class (e : ProviderError) : string :=
  match e with
  | RateLimited _ => "provider_rate_limited"
  | Server _ _ => "provider_server"
  | ProviderTimeout _ => "provider_timeout"
  | Transport _ => "provider_transport"
  | Client _ _ => "provider_client"
  | Auth _ => "provider_auth"
  | ContextTooLong _ => "provider_context_too_long"
  | InvalidResponse _ => "provider_invalid_response"
  | ReplayMiss _ _ => "replay_miss"
  | ProviderCancelled => "cancelled"
  end.

(** * Configuration and outcomes (config.rs) *)

Record SpillConfig : Type := {
  sc_cap_bytes : N;
  sc_head_bytes : N;
  sc_tail_bytes : N
}.
Definition SpillConfig_fields : fcodec SpillConfig := fiso
  (fun '(x1, (x2, x3)) => Build_SpillConfig x1 x2 x3)
  (fun r => (r.(sc_cap_bytes), (r.(sc_head_bytes), r.(sc_tail_bytes))))
  (freq "cap_bytes" cu64
   ⊗ freq "head_bytes" cu64
   ⊗ freq "tail_bytes" cu64).
Definition SpillConfig_codec : codec SpillConfig := struct SpillConfig_fields.
#[export] Instance SpillConfig_codec_ok : CodecOk SpillConfig_codec.
Proof. unfold SpillConfig_codec, SpillConfig_fields. apply _. Qed.
Definition MIN_CAP_BYTES : N := 1024.
Definition MAX_CAP_BYTES : N := 1048576.
(** [SpillConfig::clamped]. *)
Definition clamped (c : SpillConfig) : SpillConfig * bool :=
  let cap := clampN MIN_CAP_BYTES MAX_CAP_BYTES (sc_cap_bytes c) in
  ({| sc_cap_bytes := cap; sc_head_bytes := sc_head_bytes c; sc_tail_bytes := sc_tail_bytes c |},
   negb (cap =? sc_cap_bytes c)%N).
Definition default_spill : SpillConfig := {| sc_cap_bytes := 16384; sc_head_bytes := 2048; sc_tail_bytes := 2048 |}.

Record RetryPolicy : Type := {
  rp_max_attempts : N;
  rp_base_delay : N;
  rp_max_delay : N;
  rp_multiplier : spec_float;
  rp_jitter : bool;
  rp_request_timeout : N
}.
Definition RetryPolicy_fields : fcodec RetryPolicy := fiso
  (fun '(x1, (x2, (x3, (x4, (x5, x6))))) => Build_RetryPolicy x1 x2 x3 x4 x5 x6)
  (fun r => (r.(rp_max_attempts), (r.(rp_base_delay), (r.(rp_max_delay), (r.(rp_multiplier), (r.(rp_jitter), r.(rp_request_timeout)))))))
  (freq "max_attempts" cu32
   ⊗ freq "base_delay_ms" duration_ms
   ⊗ freq "max_delay_ms" duration_ms
   ⊗ freq "multiplier" cf64
   ⊗ freq "jitter" cbool
   ⊗ freq "request_timeout_secs" duration_secs).
Definition RetryPolicy_codec : codec RetryPolicy := struct RetryPolicy_fields.
#[export] Instance RetryPolicy_codec_ok : CodecOk RetryPolicy_codec.
Proof. unfold RetryPolicy_codec, RetryPolicy_fields. apply _. Qed.
Definition default_retry : RetryPolicy := {|
  rp_max_attempts := 5; rp_base_delay := 500000000; rp_max_delay := secs 30;
  rp_multiplier := f64_of_Z 2; rp_jitter := true; rp_request_timeout := secs 300 |}.

Inductive ResumeCause : Type :=
  | CauseTaskUpdate (u : TaskUpdate)
  | CauseUserMessage (m : Message)
  | CauseOperator
  | CauseRecovery.
Record Suspension : Type := {
  su_pending_task_ids : list TaskId;
  su_in_process_wakers : N;
  su_checkpoint_hash : string
}.
Inductive TurnOutcome : Type :=
  | Continue
  | TurnIdle
  | TurnSuspended (s : Suspension)
  | TurnFailed (error_class : string)
  | TurnCancelled.
Inductive RunStop : Type :=
  | StopIdle
  | StopSuspended (s : Suspension)
  | StopDone
  | StopFailed (error_class : string).

(** * Sandbox policies as JSON (sandbox.rs, host.rs) *)

Definition mode_codec : codec FsMode := cenum mode_str [Ro; Rw].
#[export] Instance mode_codec_ok : CodecOk mode_codec.
Proof. unfold mode_codec. apply _. Qed.

Definition NetAllow_codec : codec NetAllow := {|
  enc a := match a with Any => JStr "any" | Hosts l => tagged "hosts" (enc (clist cstr) l) end;
  dec j := match j with
           | JStr s => if decide (s = "any") then Some Any else None
           | JObj [(k, v)] => if decide (k = "hosts") then Hosts <$> dec (clist cstr) v else None
           | _ => None
           end;
  valid _ := True |}.
#[export] Instance NetAllow_codec_ok : CodecOk NetAllow_codec.
Proof.
  intros [|l] _; [done|]. cbn [enc dec NetAllow_codec tagged]. rewrite decide_True by done.
  rewrite dec_enc; [done|]. by apply Forall_true.
Qed.

(** A [BTreeSet<String>]. *)
Definition cset : codec (list string) := cconv (fun l => Some (oset_of_list l)) id oset_sorted (clist cstr).
#[export] Instance cset_ok : CodecOk cset.
Proof. apply cconv_ok; [apply _|]. intros l Hl. simpl. by rewrite oset_of_sorted. Qed.

Definition Mount_codec : codec Mount := struct (fiso (fun '(p, m) => Build_Mount p m)
  (fun r => (mount_path r, mount_mode r)) (freq "path" cstr ⊗ freq "mode" mode_codec)).
Definition NetPolicy_codec : codec NetPolicy := struct (fiso (fun '(e, a) => Build_NetPolicy e a)
  (fun r => (net_enabled r, net_allow r)) (freq "enabled" cbool ⊗ freq "allow" NetAllow_codec)).
Definition SandboxLimits_codec : codec SandboxLimits := struct (fiso
  (fun '(t, (s, (e, n))) => Build_SandboxLimits t s e n)
  (fun r => (lim_timeout r, (lim_scratch_tmpfs_mb r, (lim_env_allowlist r, lim_network r))))
  (freq "timeout_s" duration_secs ⊗ freq "scratch_tmpfs_mb" cu64 ⊗ freq "env_allow" cset ⊗ freq "network" cbool)).
#[export] Instance Mount_codec_ok : CodecOk Mount_codec.
Proof. unfold Mount_codec. apply _. Qed.
#[export] Instance NetPolicy_codec_ok : CodecOk NetPolicy_codec.
Proof. unfold NetPolicy_codec. apply _. Qed.
#[export] Instance SandboxLimits_codec_ok : CodecOk SandboxLimits_codec.
Proof. unfold SandboxLimits_codec. apply _. Qed.
Definition SandboxPolicy_codec : codec SandboxPolicy := struct (fiso
  (fun '(m, (s, (n, (t, (e, p))))) => Build_SandboxPolicy m s n t e p)
  (fun r => (mounts r, (scratch_tmpfs_mb r, (net r, (timeout r, (env_allowlist r, programs r))))))
  (freq "mounts" (clist Mount_codec) ⊗ freq "scratch_tmpfs_mb" cu64 ⊗ freq "net" NetPolicy_codec
   ⊗ freq "timeout_secs" duration_secs ⊗ freq "env_allowlist" cset ⊗ freq "programs" cset)).
#[export] Instance SandboxPolicy_codec_ok : CodecOk SandboxPolicy_codec.
Proof. unfold SandboxPolicy_codec. apply _. Qed.
(** [SandboxPolicy::hash]. *)
Definition policy_hash `{Platform} (p : SandboxPolicy) : result HashError string :=
  of_canonical_json (enc SandboxPolicy_codec p).

(** * The session state (state.rs) *)

Inductive SessionStatus : Type := Created | Running | Idle | Suspended | Done | Failed.
#[export] Instance SessionStatus_eq_dec : EqDecision SessionStatus.
Proof. solve_decision. Defined.
Definition SessionStatus_str (x : SessionStatus) : string :=
  match x with Created => "created" | Running => "running" | Idle => "idle" | Suspended => "suspended" | Done => "done" | Failed => "failed" end.
Definition SessionStatus_codec : codec SessionStatus := cenum SessionStatus_str [Created; Running; Idle; Suspended; Done; Failed].
#[export] Instance SessionStatus_codec_ok : CodecOk SessionStatus_codec.
Proof. unfold SessionStatus_codec. apply _. Qed.

Record ActiveProfiles : Type := {
  ap_model_profile_hash : string;
  ap_agent_profile_hash : string;
  ap_resolved_profile_hash : string;
  ap_project_profile_hash : option string;
  ap_bundles_hash : option string
}.
Definition ActiveProfiles_fields : fcodec ActiveProfiles := fiso
  (fun '(x1, (x2, (x3, (x4, x5)))) => Build_ActiveProfiles x1 x2 x3 x4 x5)
  (fun r => (r.(ap_model_profile_hash), (r.(ap_agent_profile_hash), (r.(ap_resolved_profile_hash), (r.(ap_project_profile_hash), r.(ap_bundles_hash))))))
  (freq "model_profile_hash" cstr
   ⊗ freq "agent_profile_hash" cstr
   ⊗ freq "resolved_profile_hash" cstr
   ⊗ fopt "project_profile_hash" cstr
   ⊗ fopt "bundles_hash" cstr).
Definition ActiveProfiles_codec : codec ActiveProfiles := struct ActiveProfiles_fields.
#[export] Instance ActiveProfiles_codec_ok : CodecOk ActiveProfiles_codec.
Proof. unfold ActiveProfiles_codec, ActiveProfiles_fields. apply _. Qed.

Record State : Type := {
  st_schema_version : N;
  st_session_id : string;
  st_created_at : string;
  st_turn : N;
  st_session_status : SessionStatus;
  st_messages : list Message;
  st_pending_tasks : list (string * Task);
  st_profiles : ActiveProfiles;
  st_memory : option string;
  st_notebook_path : option string;
  st_sandbox_policy_hash : string;
  st_sandbox_backend : string
}.
Definition State_fields : fcodec State := fiso
  (fun '(x1, (x2, (x3, (x4, (x5, (x6, (x7, (x8, (x9, (x10, (x11, x12))))))))))) => Build_State x1 x2 x3 x4 x5 x6 x7 x8 x9 x10 x11 x12)
  (fun r => (r.(st_schema_version), (r.(st_session_id), (r.(st_created_at), (r.(st_turn), (r.(st_session_status), (r.(st_messages), (r.(st_pending_tasks), (r.(st_profiles), (r.(st_memory), (r.(st_notebook_path), (r.(st_sandbox_policy_hash), r.(st_sandbox_backend)))))))))))))
  (freq "schema_version" cu32
   ⊗ freq "session_id" cstr
   ⊗ freq "created_at" cstr
   ⊗ freq "turn" cu64
   ⊗ freq "session_status" SessionStatus_codec
   ⊗ freq "messages" (clist Message_codec)
   ⊗ freq "pending_tasks" (cmap Task_codec)
   ⊗ freq "profiles" ActiveProfiles_codec
   ⊗ fopt "memory" cstr
   ⊗ fopt "notebook_path" cstr
   ⊗ freq "sandbox_policy_hash" cstr
   ⊗ freq "sandbox_backend" cstr).
Definition State_codec : codec State := struct State_fields.
#[export] Instance State_codec_ok : CodecOk State_codec.
Proof. unfold State_codec, State_fields. apply _. Qed.

Definition VOLATILE_FIELDS : list string := ["session_id"; "created_at"; "sandbox_policy_hash"; "sandbox_backend"].

(** [state_hash_of_raw], [State::state_hash]. *)
Definition hashed_state (raw : json) : result HashError json :=
  match raw with
  | JObj _ => Ok (foldl (fun v f => jremove f v) raw VOLATILE_FIELDS)
  | _ => Err (NotCanonicalizable "state is not a JSON object")
  end.
Definition state_hash_of_raw `{Platform} (raw : json) : result HashError string :=
  v ← hashed_state raw; of_canonical_json v.
Definition state_hash `{Platform} (s : State) : result HashError string :=
  state_hash_of_raw (enc State_codec s).

(** [State::open_tasks]. *)
Definition open_tasks (s : State) : list Task := List.filter is_open (st_pending_tasks s).*2.
