(* ===== verification/Event.v ===== *)
(** [event.rs]: the event envelope, one payload per event kind, and the forward-compatible codec
    of [EventBody].  Field and variant names are the source's; a record's fields carry the initials
    of its payload. *)

From Stdlib Require Import Floats.SpecFloat.
From S2P Require Import Prelude Ord Str Capability Sandbox Json Strict Codec Data.

Open Scope string_scope.
Open Scope list_scope.

(** [MiddlewareSource] (middleware.rs). *)
Inductive MiddlewareSource : Type := MsKernel | MsModel | MsAgent | MsProject.
#[export] Instance MiddlewareSource_eq_dec : EqDecision MiddlewareSource.
Proof. solve_decision. Defined.
Definition MiddlewareSource_str (x : MiddlewareSource) : string :=
  match x with MsKernel => "kernel" | MsModel => "model" | MsAgent => "agent" | MsProject => "project" end.
Definition MiddlewareSource_codec : codec MiddlewareSource := cenum MiddlewareSource_str [MsKernel; MsModel; MsAgent; MsProject].
#[export] Instance MiddlewareSource_codec_ok : CodecOk MiddlewareSource_codec.
Proof. unfold MiddlewareSource_codec. apply _. Qed.

(** * Payloads *)

Inductive LogMode : Type := ModeLive | ModeReplay.
#[export] Instance LogMode_eq_dec : EqDecision LogMode.
Proof. solve_decision. Defined.
Definition LogMode_str (x : LogMode) : string :=
  match x with ModeLive => "live" | ModeReplay => "replay" end.
Definition LogMode_codec : codec LogMode := cenum LogMode_str [ModeLive; ModeReplay].
#[export] Instance LogMode_codec_ok : CodecOk LogMode_codec.
Proof. unfold LogMode_codec. apply _. Qed.

Record LogOpenedPayload : Type := {
  lopen_event_schema_version : N;
  lopen_state_schema_version : N;
  lopen_kernel_version : string;
  lopen_mode : LogMode
}.
Definition LogOpenedPayload_fields : fcodec LogOpenedPayload := fiso
  (fun '(x1, (x2, (x3, x4))) => Build_LogOpenedPayload x1 x2 x3 x4)
  (fun r => (r.(lopen_event_schema_version), (r.(lopen_state_schema_version), (r.(lopen_kernel_version), r.(lopen_mode)))))
  (freq "event_schema_version" cu32
   ⊗ freq "state_schema_version" cu32
   ⊗ freq "kernel_version" cstr
   ⊗ freq "mode" LogMode_codec).
Definition LogOpenedPayload_codec : codec LogOpenedPayload := struct LogOpenedPayload_fields.
#[export] Instance LogOpenedPayload_codec_ok : CodecOk LogOpenedPayload_codec.
Proof. unfold LogOpenedPayload_codec, LogOpenedPayload_fields. apply _. Qed.

Record ParentRef : Type := {
  pref_session_id : string;
  pref_task_id : string
}.
Definition ParentRef_fields : fcodec ParentRef := fiso
  (fun '(x1, x2) => Build_ParentRef x1 x2)
  (fun r => (r.(pref_session_id), r.(pref_task_id)))
  (freq "session_id" cstr
   ⊗ freq "task_id" cstr).
Definition ParentRef_codec : codec ParentRef := struct ParentRef_fields.
#[export] Instance ParentRef_codec_ok : CodecOk ParentRef_codec.
Proof. unfold ParentRef_codec, ParentRef_fields. apply _. Qed.

Record SessionCreatedPayload : Type := {
  screat_session_id : string;
  screat_created_at : string;
  screat_kernel_version : string;
  screat_profiles : ActiveProfiles;
  screat_model_id : string;
  screat_tools : list string;
  screat_grants : list Capability;
  screat_sandbox_backend : string;
  screat_sandbox_policy_hash : string;
  screat_artifact_store : string;
  screat_memory : string;
  screat_provider : string;
  screat_spill : SpillConfig;
  screat_retry : RetryPolicy;
  screat_notebook_path : option string;
  screat_sandbox_limits : SandboxLimits;
  screat_overrides : option json;
  screat_parent : option ParentRef
}.
Definition SessionCreatedPayload_fields : fcodec SessionCreatedPayload := fiso
  (fun '(x1, (x2, (x3, (x4, (x5, (x6, (x7, (x8, (x9, (x10, (x11, (x12, (x13, (x14, (x15, (x16, (x17, x18))))))))))))))))) => Build_SessionCreatedPayload x1 x2 x3 x4 x5 x6 x7 x8 x9 x10 x11 x12 x13 x14 x15 x16 x17 x18)
  (fun r => (r.(screat_session_id), (r.(screat_created_at), (r.(screat_kernel_version), (r.(screat_profiles), (r.(screat_model_id), (r.(screat_tools), (r.(screat_grants), (r.(screat_sandbox_backend), (r.(screat_sandbox_policy_hash), (r.(screat_artifact_store), (r.(screat_memory), (r.(screat_provider), (r.(screat_spill), (r.(screat_retry), (r.(screat_notebook_path), (r.(screat_sandbox_limits), (r.(screat_overrides), r.(screat_parent)))))))))))))))))))
  (freq "session_id" cstr
   ⊗ freq "created_at" cstr
   ⊗ freq "kernel_version" cstr
   ⊗ freq "profiles" ActiveProfiles_codec
   ⊗ freq "model_id" cstr
   ⊗ freq "tools" (clist cstr)
   ⊗ freq "grants" (clist ccap)
   ⊗ freq "sandbox_backend" cstr
   ⊗ freq "sandbox_policy_hash" cstr
   ⊗ freq "artifact_store" cstr
   ⊗ freq "memory" cstr
   ⊗ freq "provider" cstr
   ⊗ freq "spill" SpillConfig_codec
   ⊗ freq "retry" RetryPolicy_codec
   ⊗ fopt "notebook_path" cstr
   ⊗ freq "sandbox_limits" SandboxLimits_codec
   ⊗ fopt "overrides" cvalue
   ⊗ fopt "parent" ParentRef_codec).
Definition SessionCreatedPayload_codec : codec SessionCreatedPayload := struct SessionCreatedPayload_fields.
#[export] Instance SessionCreatedPayload_codec_ok : CodecOk SessionCreatedPayload_codec.
Proof. unfold SessionCreatedPayload_codec, SessionCreatedPayload_fields. apply _. Qed.

Inductive ProfileKind : Type := PKModel | PKAgent | PKProject | PKBundles | PKCatalog | PKSkill | PKSubagent.
#[export] Instance ProfileKind_eq_dec : EqDecision ProfileKind.
Proof. solve_decision. Defined.
Definition ProfileKind_str (x : ProfileKind) : string :=
  match x with PKModel => "model" | PKAgent => "agent" | PKProject => "project" | PKBundles => "bundles" | PKCatalog => "catalog" | PKSkill => "skill" | PKSubagent => "subagent" end.
Definition ProfileKind_codec : codec ProfileKind := cenum ProfileKind_str [PKModel; PKAgent; PKProject; PKBundles; PKCatalog; PKSkill; PKSubagent].
#[export] Instance ProfileKind_codec_ok : CodecOk ProfileKind_codec.
Proof. unfold ProfileKind_codec. apply _. Qed.

Record ProfileLoadPayload : Type := {
  plp_kind : ProfileKind;
  plp_name : string;
  plp_path : option string;
  plp_hash : string;
  plp_rejected : bool;
  plp_turn : N
}.
Definition ProfileLoadPayload_fields : fcodec ProfileLoadPayload := fiso
  (fun '(x1, (x2, (x3, (x4, (x5, x6))))) => Build_ProfileLoadPayload x1 x2 x3 x4 x5 x6)
  (fun r => (r.(plp_kind), (r.(plp_name), (r.(plp_path), (r.(plp_hash), (r.(plp_rejected), r.(plp_turn)))))))
  (freq "kind" ProfileKind_codec
   ⊗ freq "name" cstr
   ⊗ fopt "path" cstr
   ⊗ freq "hash" cstr
   ⊗ freq "rejected" cbool
   ⊗ freq "turn" cu64).
Definition ProfileLoadPayload_codec : codec ProfileLoadPayload := struct ProfileLoadPayload_fields.
#[export] Instance ProfileLoadPayload_codec_ok : CodecOk ProfileLoadPayload_codec.
Proof. unfold ProfileLoadPayload_codec, ProfileLoadPayload_fields. apply _. Qed.

Record ChainEntry : Type := {
  ce_index : N;
  ce_name : string;
  ce_priority : Z;
  ce_source : MiddlewareSource;
  ce_config_hash : option string
}.
Definition ChainEntry_fields : fcodec ChainEntry := fiso
  (fun '(x1, (x2, (x3, (x4, x5)))) => Build_ChainEntry x1 x2 x3 x4 x5)
  (fun r => (r.(ce_index), (r.(ce_name), (r.(ce_priority), (r.(ce_source), r.(ce_config_hash))))))
  (freq "index" cu32
   ⊗ freq "name" cstr
   ⊗ freq "priority" ci32
   ⊗ freq "source" MiddlewareSource_codec
   ⊗ fopt "config_hash" cstr).
Definition ChainEntry_codec : codec ChainEntry := struct ChainEntry_fields.
#[export] Instance ChainEntry_codec_ok : CodecOk ChainEntry_codec.
Proof. unfold ChainEntry_codec, ChainEntry_fields. apply _. Qed.

Record MiddlewareChainResolvedPayload : Type := {
  mcrp_chain : list ChainEntry;
  mcrp_chain_hash : string
}.
Definition MiddlewareChainResolvedPayload_fields : fcodec MiddlewareChainResolvedPayload := fiso
  (fun '(x1, x2) => Build_MiddlewareChainResolvedPayload x1 x2)
  (fun r => (r.(mcrp_chain), r.(mcrp_chain_hash)))
  (freq "chain" (clist ChainEntry_codec)
   ⊗ freq "chain_hash" cstr).
Definition MiddlewareChainResolvedPayload_codec : codec MiddlewareChainResolvedPayload := struct MiddlewareChainResolvedPayload_fields.
#[export] Instance MiddlewareChainResolvedPayload_codec_ok : CodecOk MiddlewareChainResolvedPayload_codec.
Proof. unfold MiddlewareChainResolvedPayload_codec, MiddlewareChainResolvedPayload_fields. apply _. Qed.

Inductive AppliedPoint : Type := AtCreated | AtIdle | AtSuspended | AtFailed | AtEndOfTurn | AtIgnored.
#[export] Instance AppliedPoint_eq_dec : EqDecision AppliedPoint.
Proof. solve_decision. Defined.
Definition AppliedPoint_str (x : AppliedPoint) : string :=
  match x with AtCreated => "created" | AtIdle => "idle" | AtSuspended => "suspended" | AtFailed => "failed" | AtEndOfTurn => "end_of_turn" | AtIgnored => "ignored" end.
Definition AppliedPoint_codec : codec AppliedPoint := cenum AppliedPoint_str [AtCreated; AtIdle; AtSuspended; AtFailed; AtEndOfTurn; AtIgnored].
#[export] Instance AppliedPoint_codec_ok : CodecOk AppliedPoint_codec.
Proof. unfold AppliedPoint_codec. apply _. Qed.

Record AppliedAt : Type := {
  aa_turn : N;
  aa_at : AppliedPoint
}.
Definition AppliedAt_fields : fcodec AppliedAt := fiso
  (fun '(x1, x2) => Build_AppliedAt x1 x2)
  (fun r => (r.(aa_turn), r.(aa_at)))
  (freq "turn" cu64
   ⊗ freq "at" AppliedPoint_codec).
Definition AppliedAt_codec : codec AppliedAt := struct AppliedAt_fields.
#[export] Instance AppliedAt_codec_ok : CodecOk AppliedAt_codec.
Proof. unfold AppliedAt_codec, AppliedAt_fields. apply _. Qed.

Record UserMessagePayload : Type := {
  umsg_turn : N;
  umsg_applied : AppliedAt;
  umsg_content : list ContentBlock
}.
Definition UserMessagePayload_fields : fcodec UserMessagePayload := fiso
  (fun '(x1, (x2, x3)) => Build_UserMessagePayload x1 x2 x3)
  (fun r => (r.(umsg_turn), (r.(umsg_applied), r.(umsg_content))))
  (freq "turn" cu64
   ⊗ freq "applied" AppliedAt_codec
   ⊗ freq "content" (clist ContentBlock_codec)).
Definition UserMessagePayload_codec : codec UserMessagePayload := struct UserMessagePayload_fields.
#[export] Instance UserMessagePayload_codec_ok : CodecOk UserMessagePayload_codec.
Proof. unfold UserMessagePayload_codec, UserMessagePayload_fields. apply _. Qed.

Record PromptBlockRef : Type := {
  pbr_kind : PromptBlockKind;
  pbr_name : string;
  pbr_hash : string
}.
Definition PromptBlockRef_fields : fcodec PromptBlockRef := fiso
  (fun '(x1, (x2, x3)) => Build_PromptBlockRef x1 x2 x3)
  (fun r => (r.(pbr_kind), (r.(pbr_name), r.(pbr_hash))))
  (freq "kind" PromptBlockKind_codec
   ⊗ freq "name" cstr
   ⊗ freq "hash" cstr).
Definition PromptBlockRef_codec : codec PromptBlockRef := struct PromptBlockRef_fields.
#[export] Instance PromptBlockRef_codec_ok : CodecOk PromptBlockRef_codec.
Proof. unfold PromptBlockRef_codec, PromptBlockRef_fields. apply _. Qed.

Record ModelRequestPayload : Type := {
  mreq_turn : N;
  mreq_request_hash : string;
  mreq_checkpoint_hash : string;
  mreq_model_id : string;
  mreq_profiles : ActiveProfiles;
  mreq_system_prompt_hash : string;
  mreq_prompt_blocks : list PromptBlockRef;
  mreq_message_count : N;
  mreq_tool_names : list string;
  mreq_params_hash : string
}.
Definition ModelRequestPayload_fields : fcodec ModelRequestPayload := fiso
  (fun '(x1, (x2, (x3, (x4, (x5, (x6, (x7, (x8, (x9, x10))))))))) => Build_ModelRequestPayload x1 x2 x3 x4 x5 x6 x7 x8 x9 x10)
  (fun r => (r.(mreq_turn), (r.(mreq_request_hash), (r.(mreq_checkpoint_hash), (r.(mreq_model_id), (r.(mreq_profiles), (r.(mreq_system_prompt_hash), (r.(mreq_prompt_blocks), (r.(mreq_message_count), (r.(mreq_tool_names), r.(mreq_params_hash)))))))))))
  (freq "turn" cu64
   ⊗ freq "request_hash" cstr
   ⊗ freq "checkpoint_hash" cstr
   ⊗ freq "model_id" cstr
   ⊗ freq "profiles" ActiveProfiles_codec
   ⊗ freq "system_prompt_hash" cstr
   ⊗ freq "prompt_blocks" (clist PromptBlockRef_codec)
   ⊗ freq "message_count" cu32
   ⊗ freq "tool_names" (clist cstr)
   ⊗ freq "params_hash" cstr).
Definition ModelRequestPayload_codec : codec ModelRequestPayload := struct ModelRequestPayload_fields.
#[export] Instance ModelRequestPayload_codec_ok : CodecOk ModelRequestPayload_codec.
Proof. unfold ModelRequestPayload_codec, ModelRequestPayload_fields. apply _. Qed.

Record ModelResponsePayload : Type := {
  mresp_turn : N;
  mresp_request_hash : string;
  mresp_response_hash : string;
  mresp_raw_response_hash : string;
  mresp_model_id : string;
  mresp_stop_reason : StopReason;
  mresp_usage : Usage;
  mresp_content : list ContentBlock;
  mresp_attempts : N
}.
Definition ModelResponsePayload_fields : fcodec ModelResponsePayload := fiso
  (fun '(x1, (x2, (x3, (x4, (x5, (x6, (x7, (x8, x9)))))))) => Build_ModelResponsePayload x1 x2 x3 x4 x5 x6 x7 x8 x9)
  (fun r => (r.(mresp_turn), (r.(mresp_request_hash), (r.(mresp_response_hash), (r.(mresp_raw_response_hash), (r.(mresp_model_id), (r.(mresp_stop_reason), (r.(mresp_usage), (r.(mresp_content), r.(mresp_attempts))))))))))
  (freq "turn" cu64
   ⊗ freq "request_hash" cstr
   ⊗ freq "response_hash" cstr
   ⊗ freq "raw_response_hash" cstr
   ⊗ freq "model_id" cstr
   ⊗ freq "stop_reason" StopReason_codec
   ⊗ freq "usage" Usage_codec
   ⊗ freq "content" (clist ContentBlock_codec)
   ⊗ freq "attempts" cu32).
Definition ModelResponsePayload_codec : codec ModelResponsePayload := struct ModelResponsePayload_fields.
#[export] Instance ModelResponsePayload_codec_ok : CodecOk ModelResponsePayload_codec.
Proof. unfold ModelResponsePayload_codec, ModelResponsePayload_fields. apply _. Qed.

Record ProviderRetryPayload : Type := {
  prp_turn : N;
  prp_attempt : N;
  prp_error_class : string;
  prp_message : string;
  prp_delay_ms : N
}.
Definition ProviderRetryPayload_fields : fcodec ProviderRetryPayload := fiso
  (fun '(x1, (x2, (x3, (x4, x5)))) => Build_ProviderRetryPayload x1 x2 x3 x4 x5)
  (fun r => (r.(prp_turn), (r.(prp_attempt), (r.(prp_error_class), (r.(prp_message), r.(prp_delay_ms))))))
  (freq "turn" cu64
   ⊗ freq "attempt" cu32
   ⊗ freq "error_class" cstr
   ⊗ freq "message" cstr
   ⊗ freq "delay_ms" cu64).
Definition ProviderRetryPayload_codec : codec ProviderRetryPayload := struct ProviderRetryPayload_fields.
#[export] Instance ProviderRetryPayload_codec_ok : CodecOk ProviderRetryPayload_codec.
Proof. unfold ProviderRetryPayload_codec, ProviderRetryPayload_fields. apply _. Qed.

Record ToolCallPayload : Type := {
  tcall_turn : N;
  tcall_tool_use_id : string;
  tcall_name : string;
  tcall_args_hash : string;
  tcall_request_hash : string;
  tcall_checkpoint_hash : string;
  tcall_input : json;
  tcall_registered : bool;
  tcall_kind : option ToolKind;
  tcall_capabilities : list Capability;
  tcall_policy_hash : option string
}.
Definition ToolCallPayload_fields : fcodec ToolCallPayload := fiso
  (fun '(x1, (x2, (x3, (x4, (x5, (x6, (x7, (x8, (x9, (x10, x11)))))))))) => Build_ToolCallPayload x1 x2 x3 x4 x5 x6 x7 x8 x9 x10 x11)
  (fun r => (r.(tcall_turn), (r.(tcall_tool_use_id), (r.(tcall_name), (r.(tcall_args_hash), (r.(tcall_request_hash), (r.(tcall_checkpoint_hash), (r.(tcall_input), (r.(tcall_registered), (r.(tcall_kind), (r.(tcall_capabilities), r.(tcall_policy_hash))))))))))))
  (freq "turn" cu64
   ⊗ freq "tool_use_id" cstr
   ⊗ freq "name" cstr
   ⊗ freq "args_hash" cstr
   ⊗ freq "request_hash" cstr
   ⊗ freq "checkpoint_hash" cstr
   ⊗ freq "input" cvalue
   ⊗ freq "registered" cbool
   ⊗ fopt "kind" ToolKind_codec
   ⊗ freq "capabilities" (clist ccap)
   ⊗ fopt "policy_hash" cstr).
Definition ToolCallPayload_codec : codec ToolCallPayload := struct ToolCallPayload_fields.
#[export] Instance ToolCallPayload_codec_ok : CodecOk ToolCallPayload_codec.
Proof. unfold ToolCallPayload_codec, ToolCallPayload_fields. apply _. Qed.

Record SpillRef : Type := {
  sref_handle : string;
  sref_size : N;
  sref_mime : string
}.
Definition SpillRef_fields : fcodec SpillRef := fiso
  (fun '(x1, (x2, x3)) => Build_SpillRef x1 x2 x3)
  (fun r => (r.(sref_handle), (r.(sref_size), r.(sref_mime))))
  (freq "handle" cstr
   ⊗ freq "size" cu64
   ⊗ freq "mime" cstr).
Definition SpillRef_codec : codec SpillRef := struct SpillRef_fields.
#[export] Instance SpillRef_codec_ok : CodecOk SpillRef_codec.
Proof. unfold SpillRef_codec, SpillRef_fields. apply _. Qed.

Record TaskRef : Type := {
  tref_task_id : string;
  tref_status : TaskStatus
}.
Definition TaskRef_fields : fcodec TaskRef := fiso
  (fun '(x1, x2) => Build_TaskRef x1 x2)
  (fun r => (r.(tref_task_id), r.(tref_status)))
  (freq "task_id" cstr
   ⊗ freq "status" TaskStatus_codec).
Definition TaskRef_codec : codec TaskRef := struct TaskRef_fields.
#[export] Instance TaskRef_codec_ok : CodecOk TaskRef_codec.
Proof. unfold TaskRef_codec, TaskRef_fields. apply _. Qed.

Record ToolResultPayload : Type := {
  tres_turn : N;
  tres_tool_use_id : string;
  tres_name : string;
  tres_result_hash : string;
  tres_is_error : bool;
  tres_content : ToolResultContent;
  tres_artifact_handles : list string;
  tres_spilled : bool;
  tres_spill : option SpillRef;
  tres_duration_ms : N;
  tres_origin : ToolOutputOrigin;
  tres_task : option TaskRef
}.
Definition ToolResultPayload_fields : fcodec ToolResultPayload := fiso
  (fun '(x1, (x2, (x3, (x4, (x5, (x6, (x7, (x8, (x9, (x10, (x11, x12))))))))))) => Build_ToolResultPayload x1 x2 x3 x4 x5 x6 x7 x8 x9 x10 x11 x12)
  (fun r => (r.(tres_turn), (r.(tres_tool_use_id), (r.(tres_name), (r.(tres_result_hash), (r.(tres_is_error), (r.(tres_content), (r.(tres_artifact_handles), (r.(tres_spilled), (r.(tres_spill), (r.(tres_duration_ms), (r.(tres_origin), r.(tres_task)))))))))))))
  (freq "turn" cu64
   ⊗ freq "tool_use_id" cstr
   ⊗ freq "name" cstr
   ⊗ freq "result_hash" cstr
   ⊗ freq "is_error" cbool
   ⊗ freq "content" ToolResultContent_codec
   ⊗ freq "artifact_handles" (clist cstr)
   ⊗ freq "spilled" cbool
   ⊗ fopt "spill" SpillRef_codec
   ⊗ freq "duration_ms" cu64
   ⊗ freq "origin" ToolOutputOrigin_codec
   ⊗ fopt "task" TaskRef_codec).
Definition ToolResultPayload_codec : codec ToolResultPayload := struct ToolResultPayload_fields.
#[export] Instance ToolResultPayload_codec_ok : CodecOk ToolResultPayload_codec.
Proof. unfold ToolResultPayload_codec, ToolResultPayload_fields. apply _. Qed.

Record TaskStartedPayload : Type := {
  tstart_turn : N;
  tstart_task_id : string;
  tstart_tool_use_id : string;
  tstart_tool_name : string;
  tstart_status : TaskStatus;
  tstart_eta_secs : option N;
  tstart_description : option string;
  tstart_check_hint : option json;
  tstart_in_process_waker : bool
}.
Definition TaskStartedPayload_fields : fcodec TaskStartedPayload := fiso
  (fun '(x1, (x2, (x3, (x4, (x5, (x6, (x7, (x8, x9)))))))) => Build_TaskStartedPayload x1 x2 x3 x4 x5 x6 x7 x8 x9)
  (fun r => (r.(tstart_turn), (r.(tstart_task_id), (r.(tstart_tool_use_id), (r.(tstart_tool_name), (r.(tstart_status), (r.(tstart_eta_secs), (r.(tstart_description), (r.(tstart_check_hint), r.(tstart_in_process_waker))))))))))
  (freq "turn" cu64
   ⊗ freq "task_id" cstr
   ⊗ freq "tool_use_id" cstr
   ⊗ freq "tool_name" cstr
   ⊗ freq "status" TaskStatus_codec
   ⊗ fopt "eta_secs" cu64
   ⊗ fopt "description" cstr
   ⊗ fopt "check_hint" cvalue
   ⊗ freq "in_process_waker" cbool).
Definition TaskStartedPayload_codec : codec TaskStartedPayload := struct TaskStartedPayload_fields.
#[export] Instance TaskStartedPayload_codec_ok : CodecOk TaskStartedPayload_codec.
Proof. unfold TaskStartedPayload_codec, TaskStartedPayload_fields. apply _. Qed.

Record TaskUpdatePayload : Type := {
  tupd_turn : N;
  tupd_task_id : string;
  tupd_from_status : option TaskStatus;
  tupd_status : TaskStatus;
  tupd_outcome : option TaskOutcome;
  tupd_eta_secs : option N;
  tupd_check_hint : option json;
  tupd_waker : WakerSource;
  tupd_applied : AppliedAt;
  tupd_ignored_reason : option string
}.
Definition TaskUpdatePayload_fields : fcodec TaskUpdatePayload := fiso
  (fun '(x1, (x2, (x3, (x4, (x5, (x6, (x7, (x8, (x9, x10))))))))) => Build_TaskUpdatePayload x1 x2 x3 x4 x5 x6 x7 x8 x9 x10)
  (fun r => (r.(tupd_turn), (r.(tupd_task_id), (r.(tupd_from_status), (r.(tupd_status), (r.(tupd_outcome), (r.(tupd_eta_secs), (r.(tupd_check_hint), (r.(tupd_waker), (r.(tupd_applied), r.(tupd_ignored_reason)))))))))))
  (freq "turn" cu64
   ⊗ freq "task_id" cstr
   ⊗ fopt "from_status" TaskStatus_codec
   ⊗ freq "status" TaskStatus_codec
   ⊗ fopt "outcome" TaskOutcome_codec
   ⊗ fopt "eta_secs" cu64
   ⊗ fopt "check_hint" cvalue
   ⊗ freq "waker" WakerSource_codec
   ⊗ freq "applied" AppliedAt_codec
   ⊗ fopt "ignored_reason" cstr).
Definition TaskUpdatePayload_codec : codec TaskUpdatePayload := struct TaskUpdatePayload_fields.
#[export] Instance TaskUpdatePayload_codec_ok : CodecOk TaskUpdatePayload_codec.
Proof. unfold TaskUpdatePayload_codec, TaskUpdatePayload_fields. apply _. Qed.

Inductive CheckpointReason : Type := CrUserInput | CrTurnEnd | CrTaskUpdate | CrResume | CrRecovery | CrCompaction | CrCancel | CrFailure | CrEnd | CrSuspend.
#[export] Instance CheckpointReason_eq_dec : EqDecision CheckpointReason.
Proof. solve_decision. Defined.
Definition CheckpointReason_str (x : CheckpointReason) : string :=
  match x with CrUserInput => "user_input" | CrTurnEnd => "turn_end" | CrTaskUpdate => "task_update" | CrResume => "resume" | CrRecovery => "recovery" | CrCompaction => "compaction" | CrCancel => "cancel" | CrFailure => "failure" | CrEnd => "end" | CrSuspend => "suspend" end.
Definition CheckpointReason_codec : codec CheckpointReason := cenum CheckpointReason_str [CrUserInput; CrTurnEnd; CrTaskUpdate; CrResume; CrRecovery; CrCompaction; CrCancel; CrFailure; CrEnd; CrSuspend].
#[export] Instance CheckpointReason_codec_ok : CodecOk CheckpointReason_codec.
Proof. unfold CheckpointReason_codec. apply _. Qed.

Record CheckpointPayload : Type := {
  ckpt_turn : N;
  ckpt_reason : CheckpointReason;
  ckpt_session_status : SessionStatus;
  ckpt_state_hash : string;
  ckpt_state : State
}.
Definition CheckpointPayload_fields : fcodec CheckpointPayload := fiso
  (fun '(x1, (x2, (x3, (x4, x5)))) => Build_CheckpointPayload x1 x2 x3 x4 x5)
  (fun r => (r.(ckpt_turn), (r.(ckpt_reason), (r.(ckpt_session_status), (r.(ckpt_state_hash), r.(ckpt_state))))))
  (freq "turn" cu64
   ⊗ freq "reason" CheckpointReason_codec
   ⊗ freq "session_status" SessionStatus_codec
   ⊗ freq "state_hash" cstr
   ⊗ freq "state" State_codec).
Definition CheckpointPayload_codec : codec CheckpointPayload := struct CheckpointPayload_fields.
#[export] Instance CheckpointPayload_codec_ok : CodecOk CheckpointPayload_codec.
Proof. unfold CheckpointPayload_codec, CheckpointPayload_fields. apply _. Qed.

Inductive SuspendReason : Type := SrPendingTasks | SrExplicit.
#[export] Instance SuspendReason_eq_dec : EqDecision SuspendReason.
Proof. solve_decision. Defined.
Definition SuspendReason_str (x : SuspendReason) : string :=
  match x with SrPendingTasks => "pending_tasks" | SrExplicit => "explicit" end.
Definition SuspendReason_codec : codec SuspendReason := cenum SuspendReason_str [SrPendingTasks; SrExplicit].
#[export] Instance SuspendReason_codec_ok : CodecOk SuspendReason_codec.
Proof. unfold SuspendReason_codec. apply _. Qed.

Record SuspendedPayload : Type := {
  susp_turn : N;
  susp_reason : SuspendReason;
  susp_pending_task_ids : list string;
  susp_in_process_wakers : N;
  susp_checkpoint_hash : string
}.
Definition SuspendedPayload_fields : fcodec SuspendedPayload := fiso
  (fun '(x1, (x2, (x3, (x4, x5)))) => Build_SuspendedPayload x1 x2 x3 x4 x5)
  (fun r => (r.(susp_turn), (r.(susp_reason), (r.(susp_pending_task_ids), (r.(susp_in_process_wakers), r.(susp_checkpoint_hash))))))
  (freq "turn" cu64
   ⊗ freq "reason" SuspendReason_codec
   ⊗ freq "pending_task_ids" (clist cstr)
   ⊗ freq "in_process_wakers" cu32
   ⊗ freq "checkpoint_hash" cstr).
Definition SuspendedPayload_codec : codec SuspendedPayload := struct SuspendedPayload_fields.
#[export] Instance SuspendedPayload_codec_ok : CodecOk SuspendedPayload_codec.
Proof. unfold SuspendedPayload_codec, SuspendedPayload_fields. apply _. Qed.

Inductive ResumeCauseKind : Type := RkTaskUpdate | RkUserMessage | RkOperator.
#[export] Instance ResumeCauseKind_eq_dec : EqDecision ResumeCauseKind.
Proof. solve_decision. Defined.
Definition ResumeCauseKind_str (x : ResumeCauseKind) : string :=
  match x with RkTaskUpdate => "task_update" | RkUserMessage => "user_message" | RkOperator => "operator" end.
Definition ResumeCauseKind_codec : codec ResumeCauseKind := cenum ResumeCauseKind_str [RkTaskUpdate; RkUserMessage; RkOperator].
#[export] Instance ResumeCauseKind_codec_ok : CodecOk ResumeCauseKind_codec.
Proof. unfold ResumeCauseKind_codec. apply _. Qed.

Record ResumedPayload : Type := {
  resm_from_checkpoint_hash : string;
  resm_from_checkpoint_seq : N;
  resm_from_status : SessionStatus;
  resm_cause : ResumeCauseKind;
  resm_waker : option WakerSource;
  resm_new_process : bool;
  resm_kernel_version : string;
  resm_event_schema_version : N
}.
Definition ResumedPayload_fields : fcodec ResumedPayload := fiso
  (fun '(x1, (x2, (x3, (x4, (x5, (x6, (x7, x8))))))) => Build_ResumedPayload x1 x2 x3 x4 x5 x6 x7 x8)
  (fun r => (r.(resm_from_checkpoint_hash), (r.(resm_from_checkpoint_seq), (r.(resm_from_status), (r.(resm_cause), (r.(resm_waker), (r.(resm_new_process), (r.(resm_kernel_version), r.(resm_event_schema_version)))))))))
  (freq "from_checkpoint_hash" cstr
   ⊗ freq "from_checkpoint_seq" cu64
   ⊗ freq "from_status" SessionStatus_codec
   ⊗ freq "cause" ResumeCauseKind_codec
   ⊗ fopt "waker" WakerSource_codec
   ⊗ freq "new_process" cbool
   ⊗ freq "kernel_version" cstr
   ⊗ freq "event_schema_version" cu32).
Definition ResumedPayload_codec : codec ResumedPayload := struct ResumedPayload_fields.
#[export] Instance ResumedPayload_codec_ok : CodecOk ResumedPayload_codec.
Proof. unfold ResumedPayload_codec, ResumedPayload_fields. apply _. Qed.

Inductive CancelScopeKind : Type := SkTurn | SkTool | SkTask.
#[export] Instance CancelScopeKind_eq_dec : EqDecision CancelScopeKind.
Proof. solve_decision. Defined.
Definition CancelScopeKind_str (x : CancelScopeKind) : string :=
  match x with SkTurn => "turn" | SkTool => "tool" | SkTask => "task" end.
Definition CancelScopeKind_codec : codec CancelScopeKind := cenum CancelScopeKind_str [SkTurn; SkTool; SkTask].
#[export] Instance CancelScopeKind_codec_ok : CodecOk CancelScopeKind_codec.
Proof. unfold CancelScopeKind_codec. apply _. Qed.

Inductive LoopPhase : Type := PhBeforeModel | PhModelCall | PhAfterModel | PhBeforeTool | PhTool | PhAfterTool | PhIdle.
#[export] Instance LoopPhase_eq_dec : EqDecision LoopPhase.
Proof. solve_decision. Defined.
Definition LoopPhase_str (x : LoopPhase) : string :=
  match x with PhBeforeModel => "before_model" | PhModelCall => "model_call" | PhAfterModel => "after_model" | PhBeforeTool => "before_tool" | PhTool => "tool" | PhAfterTool => "after_tool" | PhIdle => "idle" end.
Definition LoopPhase_codec : codec LoopPhase := cenum LoopPhase_str [PhBeforeModel; PhModelCall; PhAfterModel; PhBeforeTool; PhTool; PhAfterTool; PhIdle].
#[export] Instance LoopPhase_codec_ok : CodecOk LoopPhase_codec.
Proof. unfold LoopPhase_codec. apply _. Qed.

Record CancelledPayload : Type := {
  canc_turn : N;
  canc_scope : CancelScopeKind;
  canc_tool_use_id : option string;
  canc_task_id : option string;
  canc_phase : LoopPhase;
  canc_signalled : bool;
  canc_skipped_tool_use_ids : list string
}.
Definition CancelledPayload_fields : fcodec CancelledPayload := fiso
  (fun '(x1, (x2, (x3, (x4, (x5, (x6, x7)))))) => Build_CancelledPayload x1 x2 x3 x4 x5 x6 x7)
  (fun r => (r.(canc_turn), (r.(canc_scope), (r.(canc_tool_use_id), (r.(canc_task_id), (r.(canc_phase), (r.(canc_signalled), r.(canc_skipped_tool_use_ids))))))))
  (freq "turn" cu64
   ⊗ freq "scope" CancelScopeKind_codec
   ⊗ fopt "tool_use_id" cstr
   ⊗ fopt "task_id" cstr
   ⊗ freq "phase" LoopPhase_codec
   ⊗ freq "signalled" cbool
   ⊗ freq "skipped_tool_use_ids" (clist cstr)).
Definition CancelledPayload_codec : codec CancelledPayload := struct CancelledPayload_fields.
#[export] Instance CancelledPayload_codec_ok : CodecOk CancelledPayload_codec.
Proof. unfold CancelledPayload_codec, CancelledPayload_fields. apply _. Qed.

Record TurnFailedPayload : Type := {
  tfail_turn : N;
  tfail_error_class : string;
  tfail_attempts : N;
  tfail_message : string;
  tfail_middleware : option string;
  tfail_hook : option string
}.
Definition TurnFailedPayload_fields : fcodec TurnFailedPayload := fiso
  (fun '(x1, (x2, (x3, (x4, (x5, x6))))) => Build_TurnFailedPayload x1 x2 x3 x4 x5 x6)
  (fun r => (r.(tfail_turn), (r.(tfail_error_class), (r.(tfail_attempts), (r.(tfail_message), (r.(tfail_middleware), r.(tfail_hook)))))))
  (freq "turn" cu64
   ⊗ freq "error_class" cstr
   ⊗ freq "attempts" cu32
   ⊗ freq "message" cstr
   ⊗ fopt "middleware" cstr
   ⊗ fopt "hook" cstr).
Definition TurnFailedPayload_codec : codec TurnFailedPayload := struct TurnFailedPayload_fields.
#[export] Instance TurnFailedPayload_codec_ok : CodecOk TurnFailedPayload_codec.
Proof. unfold TurnFailedPayload_codec, TurnFailedPayload_fields. apply _. Qed.

Record SessionFailedPayload : Type := {
  sfail_turn : N;
  sfail_cause_seq : N;
  sfail_error_class : string;
  sfail_checkpoint_hash : string;
  sfail_resumable : bool
}.
Definition SessionFailedPayload_fields : fcodec SessionFailedPayload := fiso
  (fun '(x1, (x2, (x3, (x4, x5)))) => Build_SessionFailedPayload x1 x2 x3 x4 x5)
  (fun r => (r.(sfail_turn), (r.(sfail_cause_seq), (r.(sfail_error_class), (r.(sfail_checkpoint_hash), r.(sfail_resumable))))))
  (freq "turn" cu64
   ⊗ freq "cause_seq" cu64
   ⊗ freq "error_class" cstr
   ⊗ freq "checkpoint_hash" cstr
   ⊗ freq "resumable" cbool).
Definition SessionFailedPayload_codec : codec SessionFailedPayload := struct SessionFailedPayload_fields.
#[export] Instance SessionFailedPayload_codec_ok : CodecOk SessionFailedPayload_codec.
Proof. unfold SessionFailedPayload_codec, SessionFailedPayload_fields. apply _. Qed.

Inductive EndedBy : Type := ByUser | ByOperator | ByParent.
#[export] Instance EndedBy_eq_dec : EqDecision EndedBy.
Proof. solve_decision. Defined.
Definition EndedBy_str (x : EndedBy) : string :=
  match x with ByUser => "user" | ByOperator => "operator" | ByParent => "parent" end.
Definition EndedBy_codec : codec EndedBy := cenum EndedBy_str [ByUser; ByOperator; ByParent].
#[export] Instance EndedBy_codec_ok : CodecOk EndedBy_codec.
Proof. unfold EndedBy_codec. apply _. Qed.

Record SessionEndedPayload : Type := {
  send_turn : N;
  send_by : EndedBy;
  send_checkpoint_hash : string;
  send_cancelled_task_ids : list string
}.
Definition SessionEndedPayload_fields : fcodec SessionEndedPayload := fiso
  (fun '(x1, (x2, (x3, x4))) => Build_SessionEndedPayload x1 x2 x3 x4)
  (fun r => (r.(send_turn), (r.(send_by), (r.(send_checkpoint_hash), r.(send_cancelled_task_ids)))))
  (freq "turn" cu64
   ⊗ freq "by" EndedBy_codec
   ⊗ freq "checkpoint_hash" cstr
   ⊗ freq "cancelled_task_ids" (clist cstr)).
Definition SessionEndedPayload_codec : codec SessionEndedPayload := struct SessionEndedPayload_fields.
#[export] Instance SessionEndedPayload_codec_ok : CodecOk SessionEndedPayload_codec.
Proof. unfold SessionEndedPayload_codec, SessionEndedPayload_fields. apply _. Qed.

Record SeqRange : Type := {
  srange_from : N;
  srange_to : N
}.
Definition SeqRange_fields : fcodec SeqRange := fiso
  (fun '(x1, x2) => Build_SeqRange x1 x2)
  (fun r => (r.(srange_from), r.(srange_to)))
  (freq "from" cu64
   ⊗ freq "to" cu64).
Definition SeqRange_codec : codec SeqRange := struct SeqRange_fields.
#[export] Instance SeqRange_codec_ok : CodecOk SeqRange_codec.
Proof. unfold SeqRange_codec, SeqRange_fields. apply _. Qed.

Record RecoveredPayload : Type := {
  recov_checkpoint_hash : string;
  recov_checkpoint_seq : N;
  recov_discarded_seq : option SeqRange;
  recov_restored_status : SessionStatus;
  recov_tasks_cancelled : list string;
  recov_kernel_version : string;
  recov_event_schema_version : N
}.
Definition RecoveredPayload_fields : fcodec RecoveredPayload := fiso
  (fun '(x1, (x2, (x3, (x4, (x5, (x6, x7)))))) => Build_RecoveredPayload x1 x2 x3 x4 x5 x6 x7)
  (fun r => (r.(recov_checkpoint_hash), (r.(recov_checkpoint_seq), (r.(recov_discarded_seq), (r.(recov_restored_status), (r.(recov_tasks_cancelled), (r.(recov_kernel_version), r.(recov_event_schema_version))))))))
  (freq "checkpoint_hash" cstr
   ⊗ freq "checkpoint_seq" cu64
   ⊗ fopt "discarded_seq" SeqRange_codec
   ⊗ freq "restored_status" SessionStatus_codec
   ⊗ freq "tasks_cancelled" (clist cstr)
   ⊗ freq "kernel_version" cstr
   ⊗ freq "event_schema_version" cu32).
Definition RecoveredPayload_codec : codec RecoveredPayload := struct RecoveredPayload_fields.
#[export] Instance RecoveredPayload_codec_ok : CodecOk RecoveredPayload_codec.
Proof. unfold RecoveredPayload_codec, RecoveredPayload_fields. apply _. Qed.

Record CompactionPayload : Type := {
  comp_turn : N;
  comp_strategy : string;
  comp_before_state_hash : string;
  comp_after_state_hash : string;
  comp_notebook_hash : option string;
  comp_messages_before : N;
  comp_messages_after : N;
  comp_tokens_before : option N;
  comp_summary_artifact : option string
}.
Definition CompactionPayload_fields : fcodec CompactionPayload := fiso
  (fun '(x1, (x2, (x3, (x4, (x5, (x6, (x7, (x8, x9)))))))) => Build_CompactionPayload x1 x2 x3 x4 x5 x6 x7 x8 x9)
  (fun r => (r.(comp_turn), (r.(comp_strategy), (r.(comp_before_state_hash), (r.(comp_after_state_hash), (r.(comp_notebook_hash), (r.(comp_messages_before), (r.(comp_messages_after), (r.(comp_tokens_before), r.(comp_summary_artifact))))))))))
  (freq "turn" cu64
   ⊗ freq "strategy" cstr
   ⊗ freq "before_state_hash" cstr
   ⊗ freq "after_state_hash" cstr
   ⊗ fopt "notebook_hash" cstr
   ⊗ freq "messages_before" cu32
   ⊗ freq "messages_after" cu32
   ⊗ fopt "tokens_before" cu64
   ⊗ fopt "summary_artifact" cstr).
Definition CompactionPayload_codec : codec CompactionPayload := struct CompactionPayload_fields.
#[export] Instance CompactionPayload_codec_ok : CodecOk CompactionPayload_codec.
Proof. unfold CompactionPayload_codec, CompactionPayload_fields. apply _. Qed.

Record SpawnPayload : Type := {
  spwn_turn : N;
  spwn_tool_use_id : string;
  spwn_task_id : string;
  spwn_catalog_name : string;
  spwn_child_session_id : string;
  spwn_child_log_path : string;
  spwn_child_profiles : ActiveProfiles;
  spwn_child_tools : list string;
  spwn_child_grants : list Capability
}.
Definition SpawnPayload_fields : fcodec SpawnPayload := fiso
  (fun '(x1, (x2, (x3, (x4, (x5, (x6, (x7, (x8, x9)))))))) => Build_SpawnPayload x1 x2 x3 x4 x5 x6 x7 x8 x9)
  (fun r => (r.(spwn_turn), (r.(spwn_tool_use_id), (r.(spwn_task_id), (r.(spwn_catalog_name), (r.(spwn_child_session_id), (r.(spwn_child_log_path), (r.(spwn_child_profiles), (r.(spwn_child_tools), r.(spwn_child_grants))))))))))
  (freq "turn" cu64
   ⊗ freq "tool_use_id" cstr
   ⊗ freq "task_id" cstr
   ⊗ freq "catalog_name" cstr
   ⊗ freq "child_session_id" cstr
   ⊗ freq "child_log_path" cstr
   ⊗ freq "child_profiles" ActiveProfiles_codec
   ⊗ freq "child_tools" (clist cstr)
   ⊗ freq "child_grants" (clist ccap)).
Definition SpawnPayload_codec : codec SpawnPayload := struct SpawnPayload_fields.
#[export] Instance SpawnPayload_codec_ok : CodecOk SpawnPayload_codec.
Proof. unfold SpawnPayload_codec, SpawnPayload_fields. apply _. Qed.

Record ChildCompletedPayload : Type := {
  ccp_turn : N;
  ccp_task_id : string;
  ccp_child_session_id : string;
  ccp_child_status : SessionStatus;
  ccp_child_final_checkpoint_hash : string;
  ccp_child_usage : option Usage
}.
Definition ChildCompletedPayload_fields : fcodec ChildCompletedPayload := fiso
  (fun '(x1, (x2, (x3, (x4, (x5, x6))))) => Build_ChildCompletedPayload x1 x2 x3 x4 x5 x6)
  (fun r => (r.(ccp_turn), (r.(ccp_task_id), (r.(ccp_child_session_id), (r.(ccp_child_status), (r.(ccp_child_final_checkpoint_hash), r.(ccp_child_usage)))))))
  (freq "turn" cu64
   ⊗ freq "task_id" cstr
   ⊗ freq "child_session_id" cstr
   ⊗ freq "child_status" SessionStatus_codec
   ⊗ freq "child_final_checkpoint_hash" cstr
   ⊗ fopt "child_usage" Usage_codec).
Definition ChildCompletedPayload_codec : codec ChildCompletedPayload := struct ChildCompletedPayload_fields.
#[export] Instance ChildCompletedPayload_codec_ok : CodecOk ChildCompletedPayload_codec.
Proof. unfold ChildCompletedPayload_codec, ChildCompletedPayload_fields. apply _. Qed.

Inductive UsageSource : Type := UsProviderUsage | UsEstimate.
#[export] Instance UsageSource_eq_dec : EqDecision UsageSource.
Proof. solve_decision. Defined.
Definition UsageSource_str (x : UsageSource) : string :=
  match x with UsProviderUsage => "provider_usage" | UsEstimate => "estimate" end.
Definition UsageSource_codec : codec UsageSource := cenum UsageSource_str [UsProviderUsage; UsEstimate].
#[export] Instance UsageSource_codec_ok : CodecOk UsageSource_codec.
Proof. unfold UsageSource_codec. apply _. Qed.

Record ContextUsagePayload : Type := {
  cup_turn : N;
  cup_input_tokens : N;
  cup_budget_tokens : N;
  cup_over_budget : bool;
  cup_source : UsageSource
}.
Definition ContextUsagePayload_fields : fcodec ContextUsagePayload := fiso
  (fun '(x1, (x2, (x3, (x4, x5)))) => Build_ContextUsagePayload x1 x2 x3 x4 x5)
  (fun r => (r.(cup_turn), (r.(cup_input_tokens), (r.(cup_budget_tokens), (r.(cup_over_budget), r.(cup_source))))))
  (freq "turn" cu64
   ⊗ freq "input_tokens" cu64
   ⊗ freq "budget_tokens" cu64
   ⊗ freq "over_budget" cbool
   ⊗ freq "source" UsageSource_codec).
Definition ContextUsagePayload_codec : codec ContextUsagePayload := struct ContextUsagePayload_fields.
#[export] Instance ContextUsagePayload_codec_ok : CodecOk ContextUsagePayload_codec.
Proof. unfold ContextUsagePayload_codec, ContextUsagePayload_fields. apply _. Qed.

Record HarnessEditPayload : Type := {
  hep_turn : N;
  hep_target : string;
  hep_target_kind : string;
  hep_before_hash : option string;
  hep_after_hash : string;
  hep_rationale_artifact : option string
}.
Definition HarnessEditPayload_fields : fcodec HarnessEditPayload := fiso
  (fun '(x1, (x2, (x3, (x4, (x5, x6))))) => Build_HarnessEditPayload x1 x2 x3 x4 x5 x6)
  (fun r => (r.(hep_turn), (r.(hep_target), (r.(hep_target_kind), (r.(hep_before_hash), (r.(hep_after_hash), r.(hep_rationale_artifact)))))))
  (freq "turn" cu64
   ⊗ freq "target" cstr
   ⊗ freq "target_kind" cstr
   ⊗ fopt "before_hash" cstr
   ⊗ freq "after_hash" cstr
   ⊗ fopt "rationale_artifact" cstr).
Definition HarnessEditPayload_codec : codec HarnessEditPayload := struct HarnessEditPayload_fields.
#[export] Instance HarnessEditPayload_codec_ok : CodecOk HarnessEditPayload_codec.
Proof. unfold HarnessEditPayload_codec, HarnessEditPayload_fields. apply _. Qed.

Record AskUserPayload : Type := {
  aup_turn : N;
  aup_tool_use_id : string;
  aup_question_id : string;
  aup_question : string;
  aup_options : list string;
  aup_allow_free_text : bool
}.
Definition AskUserPayload_fields : fcodec AskUserPayload := fiso
  (fun '(x1, (x2, (x3, (x4, (x5, x6))))) => Build_AskUserPayload x1 x2 x3 x4 x5 x6)
  (fun r => (r.(aup_turn), (r.(aup_tool_use_id), (r.(aup_question_id), (r.(aup_question), (r.(aup_options), r.(aup_allow_free_text)))))))
  (freq "turn" cu64
   ⊗ freq "tool_use_id" cstr
   ⊗ freq "question_id" cstr
   ⊗ freq "question" cstr
   ⊗ freq "options" (clist cstr)
   ⊗ freq "allow_free_text" cbool).
Definition AskUserPayload_codec : codec AskUserPayload := struct AskUserPayload_fields.
#[export] Instance AskUserPayload_codec_ok : CodecOk AskUserPayload_codec.
Proof. unfold AskUserPayload_codec, AskUserPayload_fields. apply _. Qed.

Record UserAnswerPayload : Type := {
  uap_turn : N;
  uap_tool_use_id : string;
  uap_question_id : string;
  uap_answer : option string;
  uap_declined : bool
}.
Definition UserAnswerPayload_fields : fcodec UserAnswerPayload := fiso
  (fun '(x1, (x2, (x3, (x4, x5)))) => Build_UserAnswerPayload x1 x2 x3 x4 x5)
  (fun r => (r.(uap_turn), (r.(uap_tool_use_id), (r.(uap_question_id), (r.(uap_answer), r.(uap_declined))))))
  (freq "turn" cu64
   ⊗ freq "tool_use_id" cstr
   ⊗ freq "question_id" cstr
   ⊗ fopt "answer" cstr
   ⊗ freq "declined" cbool).
Definition UserAnswerPayload_codec : codec UserAnswerPayload := struct UserAnswerPayload_fields.
#[export] Instance UserAnswerPayload_codec_ok : CodecOk UserAnswerPayload_codec.
Proof. unfold UserAnswerPayload_codec, UserAnswerPayload_fields. apply _. Qed.

Record WarningPayload : Type := {
  warn_turn : N;
  warn_class : string;
  warn_message : string;
  warn_detail : option json;
  warn_source : string
}.
Definition WarningPayload_fields : fcodec WarningPayload := fiso
  (fun '(x1, (x2, (x3, (x4, x5)))) => Build_WarningPayload x1 x2 x3 x4 x5)
  (fun r => (r.(warn_turn), (r.(warn_class), (r.(warn_message), (r.(warn_detail), r.(warn_source))))))
  (freq "turn" cu64
   ⊗ freq "class" cstr
   ⊗ freq "message" cstr
   ⊗ fopt "detail" cvalue
   ⊗ freq "source" cstr).
Definition WarningPayload_codec : codec WarningPayload := struct WarningPayload_fields.
#[export] Instance WarningPayload_codec_ok : CodecOk WarningPayload_codec.
Proof. unfold WarningPayload_codec, WarningPayload_fields. apply _. Qed.

(** [WarningPayload::kernel]. *)
Definition warning_kernel (turn : N) (class message : string) (detail : option json) : WarningPayload :=
  {| warn_turn := turn; warn_class := class; warn_message := message; warn_detail := detail; warn_source := "kernel" |}.

(** * Bodies *)

Inductive EventBody : Type :=
  | EvLogOpened (p : LogOpenedPayload)
  | EvSessionCreated (p : SessionCreatedPayload)
  | EvProfileLoad (p : ProfileLoadPayload)
  | EvMiddlewareChainResolved (p : MiddlewareChainResolvedPayload)
  | EvUserMessage (p : UserMessagePayload)
  | EvModelRequest (p : ModelRequestPayload)
  | EvModelResponse (p : ModelResponsePayload)
  | EvProviderRetry (p : ProviderRetryPayload)
  | EvToolCall (p : ToolCallPayload)
  | EvToolResult (p : ToolResultPayload)
  | EvTaskStarted (p : TaskStartedPayload)
  | EvTaskUpdate (p : TaskUpdatePayload)
  | EvCheckpoint (p : CheckpointPayload)
  | EvSuspended (p : SuspendedPayload)
  | EvResumed (p : ResumedPayload)
  | EvCancelled (p : CancelledPayload)
  | EvTurnFailed (p : TurnFailedPayload)
  | EvSessionFailed (p : SessionFailedPayload)
  | EvSessionEnded (p : SessionEndedPayload)
  | EvRecovered (p : RecoveredPayload)
  | EvCompaction (p : CompactionPayload)
  | EvSpawn (p : SpawnPayload)
  | EvChildCompleted (p : ChildCompletedPayload)
  | EvContextUsage (p : ContextUsagePayload)
  | EvHarnessEdit (p : HarnessEditPayload)
  | EvAskUser (p : AskUserPayload)
  | EvUserAnswer (p : UserAnswerPayload)
  | EvWarning (p : WarningPayload)
  | EvUnknown (kind : string) (payload : json).

(** [EventBody::kind], [EventBody::payload_value]. *)
Definition kind (b : EventBody) : string :=
  match b with
  | EvLogOpened _ => "log_opened"
  | EvSessionCreated _ => "session_created"
  | EvProfileLoad _ => "profile_load"
  | EvMiddlewareChainResolved _ => "middleware_chain_resolved"
  | EvUserMessage _ => "user_message"
  | EvModelRequest _ => "model_request"
  | EvModelResponse _ => "model_response"
  | EvProviderRetry _ => "provider_retry"
  | EvToolCall _ => "tool_call"
  | EvToolResult _ => "tool_result"
  | EvTaskStarted _ => "task_started"
  | EvTaskUpdate _ => "task_update"
  | EvCheckpoint _ => "checkpoint"
  | EvSuspended _ => "suspended"
  | EvResumed _ => "resumed"
  | EvCancelled _ => "cancelled"
  | EvTurnFailed _ => "turn_failed"
  | EvSessionFailed _ => "session_failed"
  | EvSessionEnded _ => "session_ended"
  | EvRecovered _ => "recovered"
  | EvCompaction _ => "compaction"
  | EvSpawn _ => "spawn"
  | EvChildCompleted _ => "child_completed"
  | EvContextUsage _ => "context_usage"
  | EvHarnessEdit _ => "harness_edit"
  | EvAskUser _ => "ask_user"
  | EvUserAnswer _ => "user_answer"
  | EvWarning _ => "warning"
  | EvUnknown kind _ => kind
  end.
Definition payload_value (b : EventBody) : json :=
  match b with
  | EvLogOpened p => enc LogOpenedPayload_codec p
  | EvSessionCreated p => enc SessionCreatedPayload_codec p
  | EvProfileLoad p => enc ProfileLoadPayload_codec p
  | EvMiddlewareChainResolved p => enc MiddlewareChainResolvedPayload_codec p
  | EvUserMessage p => enc UserMessagePayload_codec p
  | EvModelRequest p => enc ModelRequestPayload_codec p
  | EvModelResponse p => enc ModelResponsePayload_codec p
  | EvProviderRetry p => enc ProviderRetryPayload_codec p
  | EvToolCall p => enc ToolCallPayload_codec p
  | EvToolResult p => enc ToolResultPayload_codec p
  | EvTaskStarted p => enc TaskStartedPayload_codec p
  | EvTaskUpdate p => enc TaskUpdatePayload_codec p
  | EvCheckpoint p => enc CheckpointPayload_codec p
  | EvSuspended p => enc SuspendedPayload_codec p
  | EvResumed p => enc ResumedPayload_codec p
  | EvCancelled p => enc CancelledPayload_codec p
  | EvTurnFailed p => enc TurnFailedPayload_codec p
  | EvSessionFailed p => enc SessionFailedPayload_codec p
  | EvSessionEnded p => enc SessionEndedPayload_codec p
  | EvRecovered p => enc RecoveredPayload_codec p
  | EvCompaction p => enc CompactionPayload_codec p
  | EvSpawn p => enc SpawnPayload_codec p
  | EvChildCompleted p => enc ChildCompletedPayload_codec p
  | EvContextUsage p => enc ContextUsagePayload_codec p
  | EvHarnessEdit p => enc HarnessEditPayload_codec p
  | EvAskUser p => enc AskUserPayload_codec p
  | EvUserAnswer p => enc UserAnswerPayload_codec p
  | EvWarning p => enc WarningPayload_codec p
  | EvUnknown _ payload => payload
  end.
(** How each known kind reads its payload. *)
Definition known_kinds : list (string * (json -> option EventBody)) := [
  ("log_opened", fun j => EvLogOpened <$> dec LogOpenedPayload_codec j);
  ("session_created", fun j => EvSessionCreated <$> dec SessionCreatedPayload_codec j);
  ("profile_load", fun j => EvProfileLoad <$> dec ProfileLoadPayload_codec j);
  ("middleware_chain_resolved", fun j => EvMiddlewareChainResolved <$> dec MiddlewareChainResolvedPayload_codec j);
  ("user_message", fun j => EvUserMessage <$> dec UserMessagePayload_codec j);
  ("model_request", fun j => EvModelRequest <$> dec ModelRequestPayload_codec j);
  ("model_response", fun j => EvModelResponse <$> dec ModelResponsePayload_codec j);
  ("provider_retry", fun j => EvProviderRetry <$> dec ProviderRetryPayload_codec j);
  ("tool_call", fun j => EvToolCall <$> dec ToolCallPayload_codec j);
  ("tool_result", fun j => EvToolResult <$> dec ToolResultPayload_codec j);
  ("task_started", fun j => EvTaskStarted <$> dec TaskStartedPayload_codec j);
  ("task_update", fun j => EvTaskUpdate <$> dec TaskUpdatePayload_codec j);
  ("checkpoint", fun j => EvCheckpoint <$> dec CheckpointPayload_codec j);
  ("suspended", fun j => EvSuspended <$> dec SuspendedPayload_codec j);
  ("resumed", fun j => EvResumed <$> dec ResumedPayload_codec j);
  ("cancelled", fun j => EvCancelled <$> dec CancelledPayload_codec j);
  ("turn_failed", fun j => EvTurnFailed <$> dec TurnFailedPayload_codec j);
  ("session_failed", fun j => EvSessionFailed <$> dec SessionFailedPayload_codec j);
  ("session_ended", fun j => EvSessionEnded <$> dec SessionEndedPayload_codec j);
  ("recovered", fun j => EvRecovered <$> dec RecoveredPayload_codec j);
  ("compaction", fun j => EvCompaction <$> dec CompactionPayload_codec j);
  ("spawn", fun j => EvSpawn <$> dec SpawnPayload_codec j);
  ("child_completed", fun j => EvChildCompleted <$> dec ChildCompletedPayload_codec j);
  ("context_usage", fun j => EvContextUsage <$> dec ContextUsagePayload_codec j);
  ("harness_edit", fun j => EvHarnessEdit <$> dec HarnessEditPayload_codec j);
  ("ask_user", fun j => EvAskUser <$> dec AskUserPayload_codec j);
  ("user_answer", fun j => EvUserAnswer <$> dec UserAnswerPayload_codec j);
  ("warning", fun j => EvWarning <$> dec WarningPayload_codec j)].
Definition KNOWN_KINDS : list string := known_kinds.*1.
Definition dec_body (kind : string) (payload : json) : option EventBody :=
  match omap_get kind known_kinds with Some f => f payload | None => Some (EvUnknown kind payload) end.

Definition body_valid (b : EventBody) : Prop :=
  match b with
  | EvLogOpened p => valid LogOpenedPayload_codec p
  | EvSessionCreated p => valid SessionCreatedPayload_codec p
  | EvProfileLoad p => valid ProfileLoadPayload_codec p
  | EvMiddlewareChainResolved p => valid MiddlewareChainResolvedPayload_codec p
  | EvUserMessage p => valid UserMessagePayload_codec p
  | EvModelRequest p => valid ModelRequestPayload_codec p
  | EvModelResponse p => valid ModelResponsePayload_codec p
  | EvProviderRetry p => valid ProviderRetryPayload_codec p
  | EvToolCall p => valid ToolCallPayload_codec p
  | EvToolResult p => valid ToolResultPayload_codec p
  | EvTaskStarted p => valid TaskStartedPayload_codec p
  | EvTaskUpdate p => valid TaskUpdatePayload_codec p
  | EvCheckpoint p => valid CheckpointPayload_codec p
  | EvSuspended p => valid SuspendedPayload_codec p
  | EvResumed p => valid ResumedPayload_codec p
  | EvCancelled p => valid CancelledPayload_codec p
  | EvTurnFailed p => valid TurnFailedPayload_codec p
  | EvSessionFailed p => valid SessionFailedPayload_codec p
  | EvSessionEnded p => valid SessionEndedPayload_codec p
  | EvRecovered p => valid RecoveredPayload_codec p
  | EvCompaction p => valid CompactionPayload_codec p
  | EvSpawn p => valid SpawnPayload_codec p
  | EvChildCompleted p => valid ChildCompletedPayload_codec p
  | EvContextUsage p => valid ContextUsagePayload_codec p
  | EvHarnessEdit p => valid HarnessEditPayload_codec p
  | EvAskUser p => valid AskUserPayload_codec p
  | EvUserAnswer p => valid UserAnswerPayload_codec p
  | EvWarning p => valid WarningPayload_codec p
  | EvUnknown kind _ => kind ∉ KNOWN_KINDS
  end.
Definition EventBody_fields : fcodec EventBody := {|
  fnames := ["kind"; "payload"];
  fenc b := [("kind", JStr (kind b)); ("payload", payload_value b)];
  fdec m := k ← omap_get "kind" m ≫= as_str; p ← omap_get "payload" m; dec_body k p;
  fvalid := body_valid
|}.

Record Event : Type := { ev_seq : N; ev_ts : string; ev_session_id : SessionId; ev_body : EventBody }.
Definition Event_fields : fcodec Event := fiso
  (fun '(s, (t, (i, b))) => Build_Event s t i b)
  (fun r => (ev_seq r, (ev_ts r, (ev_session_id r, ev_body r))))
  (freq "seq" cu64 ⊗ freq "ts" cstr ⊗ freq "session_id" cstr ⊗ EventBody_fields).
Definition Event_codec : codec Event := struct Event_fields.

(** [From<ExtensionEvent> for EventBody]. *)
Inductive ExtensionEvent : Type :=
  | XProfileLoad (p : ProfileLoadPayload)
  | XContextUsage (p : ContextUsagePayload)
  | XSpawn (p : SpawnPayload)
  | XChildCompleted (p : ChildCompletedPayload)
  | XHarnessEdit (p : HarnessEditPayload)
  | XWarning (p : WarningPayload).
Definition from_extension (ev : ExtensionEvent) : EventBody :=
  match ev with
  | XProfileLoad p => EvProfileLoad p
  | XContextUsage p => EvContextUsage p
  | XSpawn p => EvSpawn p
  | XChildCompleted p => EvChildCompleted p
  | XHarnessEdit p => EvHarnessEdit p
  | XWarning p => EvWarning p
  end.

(** * The codec's laws *)

Lemma dec_body_enc b : body_valid b -> dec_body (kind b) (payload_value b) = Some b.
Proof.
  destruct b; intros Hv; cbn [kind payload_value body_valid] in *;
    lazymatch goal with
    | |- dec_body ?k ?p = Some (EvUnknown _ _) =>
        unfold dec_body; destruct (omap_get k known_kinds) as [f|] eqn:Hf; [|done];
        exfalso; apply Hv, list_elem_of_fmap; exists (k, f); split; [done|by apply omap_get_elem]
    | |- dec_body ?k (enc ?c ?p) = Some (?C ?p) =>
        transitivity (C <$> dec c (enc c p)); [reflexivity|by rewrite dec_enc]
    end.
Qed.

#[export] Instance EventBody_fields_ok : FOk EventBody_fields.
Proof.
  split; [done|]. intros b m Hv Hm. cbn [fdec EventBody_fields].
  rewrite (Hm "kind" (JStr (kind b))), (Hm "payload" (payload_value b)) by (cbn; set_solver).
  by apply dec_body_enc.
Qed.
#[export] Instance Event_codec_ok : CodecOk Event_codec.
Proof. unfold Event_codec, Event_fields. apply _. Qed.

(** A payload read under a kind gives a body of that kind. *)
Lemma known_kinds_tag : Forall (fun kf => forall p b, kf.2 p = Some b -> kind b = kf.1) known_kinds.
Proof.
  repeat (constructor; [intros p b; cbn [fst snd]; match goal with |- _ <$> ?o = _ -> _ => destruct o end;
    [by intros [= <-]|done]|]).
  constructor.
Qed.
Lemma dec_body_kind k p b : dec_body k p = Some b -> kind b = k.
Proof.
  unfold dec_body. destruct (omap_get k known_kinds) as [f|] eqn:Hf; [|by intros [= <-]].
  apply omap_get_elem in Hf. pose proof known_kinds_tag as Hk. rewrite Forall_forall in Hk.
  apply (Hk _ Hf).
Qed.

(** C39: an event whose integers fit their widths is read back exactly as it was
    written, an event of a kind this kernel does not know included; and a reader never fails on
    an unknown kind: any envelope with one is kept with its payload verbatim. *)
Theorem event_round_trip :
  (forall e, valid Event_codec e -> dec Event_codec (enc Event_codec e) = Some e) /\
  (forall seq ts sid k payload, (seq < 2 ^ 64)%N -> k ∉ KNOWN_KINDS ->
    dec Event_codec (jobj [("seq", JNum (PosInt seq)); ("ts", JStr ts); ("session_id", JStr sid);
                           ("kind", JStr k); ("payload", payload)]) =
      Some {| ev_seq := seq; ev_ts := ts; ev_session_id := sid; ev_body := EvUnknown k payload |}).
Proof.
  split; [intros e; apply dec_enc|]. intros seq ts sid k payload Hs Hk.
  apply (dec_enc (c := Event_codec) {| ev_seq := seq; ev_ts := ts; ev_session_id := sid; ev_body := EvUnknown k payload |}).
  cbn. by split_and!.
Qed.

Definition wit_event : Event :=
  {| ev_seq := 3; ev_ts := "2026-01-01T00:00:00.000Z"; ev_session_id := "s";
     ev_body := EvWarning (warning_kernel 1 "late_input" "dropped" None) |}.
Lemma event_round_trip_witness :
  dec Event_codec (enc Event_codec wit_event) = Some wit_event /\
  ev_body <$> dec Event_codec (jobj [("seq", JNum (PosInt 4)); ("ts", JStr "t"); ("session_id", JStr "s");
                      ("kind", JStr "hologram"); ("payload", JArr [JNull])]) =
    Some (EvUnknown "hologram" (JArr [JNull])).
Proof.
  split.
  - apply (proj1 event_round_trip). cbn. by split_and!.
  - rewrite (proj2 event_round_trip 4%N "t" "s" "hologram" (JArr [JNull])); [done|done|].
    apply (bool_decide_unpack _). lazy. exact I.
Defined.
