(* ===== verification/State.v ===== *)
(** [state.rs], continued: which fields [state_hash] ignores, and the registry that migrates a
    checkpoint written by an older kernel. *)

From Stdlib Require Import Floats.SpecFloat.
From S2P Require Import Prelude Ord Str Capability Sandbox Json Strict Codec Data.

Open Scope string_scope.
Open Scope list_scope.

(** * Migrations *)

Inductive MigrationError : Type :=
  | NewerThanSupported (found supported : N)
  | MissingStep (from to : N)
  | MigrationFailed (from : N) (source : string)
  | NoVersion
  | Duplicate (from : N)
  | InvalidState (msg : string).

(** A step is its [from_version()] and its [migrate], which is the implementor's. *)
Record StateMigration : Type := { from_version : N; migrate : json -> result MigrationError json }.

(** [MigrationRegistry]: the steps by source version. *)
Definition MigrationRegistry : Type := list (N * StateMigration).

Record Migrated : Type := { migrated_state : State; migrated : option (N * N) }.

Definition register (reg : MigrationRegistry) (m : StateMigration) : MigrationRegistry * result MigrationError unit :=
  let from := from_version m in
  match omap_get from reg with
  | Some _ => (reg, Err (Duplicate from))
  | None => (omap_insert from m reg, Ok tt)
  end.

(** The integer [schema_version] of a raw state, when it is a [u32]. *)
Definition raw_version (raw : json) : option N :=
  v ← jget "schema_version" raw ≫= as_u64; if (v <? 2 ^ 32)%N then Some v else None.

Definition show_stamped (o : option N) : string :=
  match o with Some v => "Some(" +:+ show_u64 v +:+ ")" | None => "None" end.

(** The [while] loop of [migrate_to_current]; each round raises [version] by one, so
    [STATE_SCHEMA_VERSION - version] rounds of fuel reach the end. *)
Fixpoint migrate_loop (target : N) (reg : MigrationRegistry) (fuel : nat) (version : N) (raw : json) :
    result MigrationError json :=
  if (version <? target)%N then
    match fuel with
    | O => Err (MissingStep version target)
    | S fuel =>
        step ← ok_or (MissingStep version target) (omap_get version reg);
        raw' ← migrate step raw;
        let version' := (version + 1)%N in
        if decide (raw_version raw' = Some version') then migrate_loop target reg fuel version' raw'
        else Err (MigrationFailed version
          ("migration did not set schema_version to " +:+ show_u64 version' +:+ " (found "
           +:+ show_stamped (raw_version raw') +:+ ")"))
    end
  else Ok raw.

Definition migrate_to (target : N) (reg : MigrationRegistry) (raw : json) : result MigrationError Migrated :=
  found ← ok_or NoVersion (raw_version raw);
  if (target <? found)%N then Err (NewerThanSupported found target)
  else
    raw' ← migrate_loop target reg (N.to_nat (target - found)) found raw;
    state ← ok_or (InvalidState "state does not deserialize") (dec State_codec raw');
    mret {| migrated_state := state; migrated := if (found =? target)%N then None else Some (found, target) |}.

(** [MigrationRegistry::migrate_to_current]. *)
Definition migrate_to_current : MigrationRegistry -> json -> result MigrationError Migrated :=
  migrate_to STATE_SCHEMA_VERSION.

(** * Lemmas *)

(** The chain of registered steps from [version] to [target]: each one succeeds and stamps the
    version it reaches. *)
Inductive chain (target : N) (reg : MigrationRegistry) : N -> json -> json -> Prop :=
  | chain_done v raw : (target <= v)%N -> chain target reg v raw raw
  | chain_step v raw step raw' raw'' :
      (v < target)%N -> omap_get v reg = Some step -> migrate step raw = Ok raw' ->
      raw_version raw' = Some (v + 1)%N -> chain target reg (v + 1) raw' raw'' ->
      chain target reg v raw raw''.

Lemma migrate_loop_chain target reg fuel v raw raw' :
  (N.to_nat (target - v) <= fuel)%nat ->
  migrate_loop target reg fuel v raw = Ok raw' <-> chain target reg v raw raw'.
Proof.
  revert v raw. induction fuel as [|fuel IH]; intros v raw Hf; simpl.
  - assert ((v <? target)%N = false) as -> by (apply N.ltb_ge; lia). split.
    + intros [= <-]. constructor. lia.
    + inversion 1; [done|lia].
  - destruct (N.ltb_spec v target) as [Hlt|Hge].
    + split.
      * intros Hr. result_inv. eapply chain_step; eauto. by apply IH; [lia|].
      * inversion 1 as [|? ? step r1 ? ? Hg Hm Hv Hc]; subst; [lia|]. rewrite Hg. simpl. rewrite Hm. simpl.
        rewrite decide_True by done. by apply IH; [lia|].
    + split; [intros [= <-]; by constructor|]. inversion 1; [done|lia].
Qed.

Lemma chain_version target reg v raw raw' :
  chain target reg v raw raw' -> (v <= target)%N -> raw_version raw = Some v -> raw_version raw' = Some target.
Proof.
  induction 1 as [v raw|v raw step r1 r2 Hlt Hg Hm Hv Hc IH]; intros Hle Hr.
  - rewrite Hr. f_equal. lia.
  - apply IH; [lia|done].
Qed.

Lemma migrate_to_same target reg raw s :
  raw_version raw = Some target -> dec State_codec raw = Some s ->
  migrate_to target reg raw = Ok {| migrated_state := s; migrated := None |}.
Proof.
  intros Hv Hd. unfold migrate_to. rewrite Hv. cbn [ok_or mbind result_bind].
  rewrite N.ltb_irrefl, N.eqb_refl.
  assert (Hl : forall fuel, migrate_loop target reg fuel target raw = Ok raw)
    by (intros [|fuel]; cbn [migrate_loop]; by rewrite N.ltb_irrefl).
  rewrite Hl. cbn [mbind result_bind]. by rewrite Hd.
Qed.

Lemma exact_remove k v : exact v -> exact (jremove k v).
Proof.
  destruct 1 as [| | | | |m Hs Hm]; simpl; try (by constructor).
  constructor.
  - unfold omap_remove. induction m as [|[k' v'] m IH]; [constructor|].
    apply omap_sorted_cons in Hs as [Hs Hlt]. apply Forall_cons in Hm as [_ Hm]. rewrite filter_cons.
    case_decide; [|by apply IH]. apply omap_sorted_cons. split; [by apply IH|].
    intros x Hx. apply Hlt. apply list_elem_of_fmap in Hx as (y & -> & Hy).
    apply list_elem_of_filter in Hy as [_ Hy]. by apply list_elem_of_fmap_2.
  - apply Forall_forall. intros x Hx. unfold omap_remove in Hx.
    apply list_elem_of_filter in Hx as [_ Hx]. rewrite Forall_forall in Hm. by apply Hm.
Qed.

(** The members that are hashed, in the map's order. *)
Lemma hashed_state_members s : hashed_state (enc State_codec s) = Ok (JObj [
  ("memory", enc_opt cstr (st_memory s)); ("messages", enc (clist Message_codec) (st_messages s));
  ("notebook_path", enc_opt cstr (st_notebook_path s)); ("pending_tasks", enc (cmap Task_codec) (st_pending_tasks s));
  ("profiles", enc ActiveProfiles_codec (st_profiles s)); ("schema_version", enc cu32 (st_schema_version s));
  ("session_status", enc SessionStatus_codec (st_session_status s)); ("turn", enc cu64 (st_turn s))]).
Proof.
  cbn [enc State_codec struct fenc State_fields fiso fpair freq fopt app fst snd].
  generalize (enc_opt cstr (st_memory s)), (enc (clist Message_codec) (st_messages s)),
    (enc_opt cstr (st_notebook_path s)), (enc (cmap Task_codec) (st_pending_tasks s)),
    (enc ActiveProfiles_codec (st_profiles s)), (enc cu32 (st_schema_version s)),
    (enc SessionStatus_codec (st_session_status s)), (enc cu64 (st_turn s)),
    (enc cstr (st_session_id s)), (enc cstr (st_created_at s)), (enc cstr (st_sandbox_policy_hash s)),
    (enc cstr (st_sandbox_backend s)). intros. reflexivity.
Qed.

(** A state without its volatile fields. *)
Definition erase (s : State) : State := {|
  st_schema_version := st_schema_version s; st_session_id := ""; st_created_at := "";
  st_turn := st_turn s; st_session_status := st_session_status s; st_messages := st_messages s;
  st_pending_tasks := st_pending_tasks s; st_profiles := st_profiles s; st_memory := st_memory s;
  st_notebook_path := st_notebook_path s; st_sandbox_policy_hash := ""; st_sandbox_backend := "" |}.

Lemma enc_inj {A} (c : codec A) a b : CodecOk c -> valid c a -> valid c b -> enc c a = enc c b -> a = b.
Proof. intros Hc Ha Hb He. apply (f_equal (dec c)) in He. rewrite !dec_enc in He by done. congruence. Qed.

Lemma obj_inj (ks : list string) (vs ws : list json) :
  length vs = length ks -> length ws = length ks ->
  Ok (E := HashError) (JObj (zip ks vs)) = Ok (JObj (zip ks ws)) -> vs = ws.
Proof.
  intros Hv Hw [= H]. apply (f_equal (fmap snd)) in H. by rewrite !snd_zip in H by lia.
Qed.

Lemma hashed_state_erase s1 s2 : valid State_codec s1 -> valid State_codec s2 ->
  hashed_state (enc State_codec s1) = hashed_state (enc State_codec s2) <-> erase s1 = erase s2.
Proof.
  intros V1 V2. rewrite !hashed_state_members. split.
  - intros H. destruct V1 as (S1 & _ & _ & T1 & A1 & M1 & P1 & F1 & E1 & N1 & _).
    destruct V2 as (S2 & _ & _ & T2 & A2 & M2 & P2 & F2 & E2 & N2 & _).
    apply (obj_inj ["memory"; "messages"; "notebook_path"; "pending_tasks"; "profiles"; "schema_version";
      "session_status"; "turn"] [_; _; _; _; _; _; _; _] [_; _; _; _; _; _; _; _]) in H; [|done|done].
    pose proof (fun k => f_equal (.!! k) H) as Hk. clear H.
    pose proof (Hk 0) as H0. pose proof (Hk 1) as H1. pose proof (Hk 2) as H2. pose proof (Hk 3) as H3.
    pose proof (Hk 4) as H4. pose proof (Hk 5) as H5. pose proof (Hk 6) as H6. pose proof (Hk 7) as H7. clear Hk.
    apply Some_inj in H0, H1, H2, H3, H4, H5, H6, H7.
    change (enc (copt cstr) (st_memory s1) = enc (copt cstr) (st_memory s2)) in H0.
    change (enc (copt cstr) (st_notebook_path s1) = enc (copt cstr) (st_notebook_path s2)) in H2.
    apply enc_inj in H0, H1, H2, H3, H4, H5, H6, H7; try done; try apply _. by unfold erase; f_equal.
  - intros H. injection H as -> -> -> -> -> -> -> ->. done.
Qed.

Section state_claims.
Context `{Platform}.

(** The canonical bytes [state_hash] is taken over. *)
Definition state_canonical (s : State) : result HashError string :=
  v ← hashed_state (enc State_codec s); canonical_json_value v.

Lemma state_hash_bytes s : state_hash s = of_bytes <$> state_canonical s.
Proof.
  unfold state_hash, state_hash_of_raw, state_canonical, of_canonical_json.
  destruct (hashed_state _); [|done]. reflexivity.
Qed.

(** [state_hash] hashes the canonical bytes of the state
    without [session_id], [created_at], [sandbox_policy_hash] and [sandbox_backend]: it never
    fails on a state whose data are exact, states that differ only there have one hash, and two
    states with the same hashed bytes agree on every other field. *)
Theorem state_hash_ignores_exactly_volatile (s1 s2 : State) :
  valid State_codec s1 -> valid State_codec s2 ->
  exact (enc State_codec s1) -> exact (enc State_codec s2) ->
  is_ok (state_hash s1) = true /\
  (erase s1 = erase s2 -> state_hash s1 = state_hash s2) /\
  (state_canonical s1 = state_canonical s2 -> erase s1 = erase s2).
Proof.
  intros V1 V2 E1 E2.
  assert (Hx : forall s, exact (enc State_codec s) -> exists v, hashed_state (enc State_codec s) = Ok v /\ exact v).
  { intros s Hs. eexists. split; [reflexivity|]. cbn [foldl VOLATILE_FIELDS]. by repeat apply exact_remove. }
  destruct (Hx s1 E1) as (v1 & Hv1 & X1), (Hx s2 E2) as (v2 & Hv2 & X2).
  rewrite !state_hash_bytes. unfold state_canonical. rewrite Hv1, Hv2. simpl.
  destruct (write_canonical_total v1 X1) as [t Ht]. split_and!.
  - unfold canonical_json_value. by rewrite Ht.
  - intros He. apply hashed_state_erase in He; [|done..]. rewrite Hv1, Hv2 in He. by injection He as ->.
  - intros He. apply hashed_state_erase; [done..|]. rewrite Hv1, Hv2. f_equal.
    destruct (write_canonical_total v2 X2) as [t2 Ht2]. unfold canonical_json_value in He.
    rewrite Ht, Ht2 in He. injection He as ->. by apply (cancels_all v1 v2 t2 t2 "" "").
Qed.
End state_claims.

(** a state read back from the JSON a checkpoint holds is the state that
    was written, provided its integers fit, its task ETAs are whole seconds, its tasks are keyed in
    order and no optional JSON value is [null] (serde reads [null] as [None]). *)
Theorem state_json_round_trip (s : State) :
  valid State_codec s -> dec State_codec (enc State_codec s) = Some s.
Proof. apply dec_enc. Qed.

(** migrating to a target version succeeds exactly when the raw state
    carries an integer version not above the target, every version from there up to the target has
    a registered step that succeeds and stamps the next version, and the result deserializes; the
    loop always terminates, the result carries the target version, and [migrated] reports the
    versions crossed. *)
Theorem migration_runs_the_chain (target : N) (reg : MigrationRegistry) (raw : json) (m : Migrated) :
  migrate_to target reg raw = Ok m <->
  exists found raw', raw_version raw = Some found /\ (found <= target)%N /\
    chain target reg found raw raw' /\ raw_version raw' = Some target /\
    dec State_codec raw' = Some (migrated_state m) /\
    migrated m = (if (found =? target)%N then None else Some (found, target)).
Proof.
  unfold migrate_to. split.
  - intros Hm. apply result_bind_Ok in Hm as (found & Hf & Hm). destruct (raw_version raw) as [v|] eqn:Hr; [|done].
    injection Hf as ->. destruct (N.ltb_spec target found); [done|].
    apply result_bind_Ok in Hm as (raw' & Hl & Hm). apply result_bind_Ok in Hm as (st & Hd & [= <-]).
    apply migrate_loop_chain in Hl; [|lia]. destruct (dec State_codec raw') eqn:Hs; [|done].
    injection Hd as ->. exists found, raw'. split_and!; try done. by eapply chain_version.
  - intros (found & raw' & Hr & Hle & Hc & _ & Hd & Hm). rewrite Hr. cbn [ok_or mbind result_bind].
    destruct (N.ltb_spec target found); [lia|].
    apply (migrate_loop_chain target reg (N.to_nat (target - found))) in Hc; [|lia]. rewrite Hc.
    cbn [mbind result_bind]. rewrite Hd. cbn [mbind result_bind ok_or]. destruct m; simpl in *. by subst.
Qed.

(** registering a second migration from one version is an error that
    changes nothing; otherwise exactly that version's entry is added. *)
Theorem register_keeps_the_first (reg : MigrationRegistry) (m : StateMigration) :
  match omap_get (from_version m) reg with
  | Some _ => register reg m = (reg, Err (Duplicate (from_version m)))
  | None => snd (register reg m) = Ok tt /\
            forall v, omap_get v (fst (register reg m)) = if decide (v = from_version m) then Some m else omap_get v reg
  end.
Proof.
  unfold register. destruct (omap_get (from_version m) reg); [done|]. split; [done|].
  intros v. simpl. apply omap_get_insert.
Qed.

(** ** Witnesses *)

Definition wit_profiles : ActiveProfiles :=
  {| ap_model_profile_hash := "m"; ap_agent_profile_hash := "a"; ap_resolved_profile_hash := "r";
     ap_project_profile_hash := None; ap_bundles_hash := Some "b" |}.
Definition wit_task : Task :=
  {| tk_id := "t1-c1"; tk_tool_use_id := "c1"; tk_tool_name := "run_script"; tk_status := TRunning;
     tk_started_turn := 1; tk_completed_turn := None; tk_eta := Some (secs 60); tk_check_hint := None;
     tk_description := Some "job"; tk_outcome := None; tk_in_process_waker := true |}.
Definition wit_state : State :=
  {| st_schema_version := 1; st_session_id := "s1"; st_created_at := "2026-01-01T00:00:00.000Z"; st_turn := 2;
     st_session_status := Suspended;
     st_messages := [user_text "hello"; {| msg_role := RoleAssistant; msg_content := [Text "hi"; ToolUse "c1" "run_script" (JObj [])] |}];
     st_pending_tasks := [("t1-c1", wit_task)]; st_profiles := wit_profiles; st_memory := None;
     st_notebook_path := None; st_sandbox_policy_hash := "p"; st_sandbox_backend := "bwrap" |}.
Definition wit_state' : State :=
  {| st_schema_version := 1; st_session_id := "s2"; st_created_at := "2027-01-01T00:00:00.000Z"; st_turn := 2;
     st_session_status := Suspended; st_messages := st_messages wit_state;
     st_pending_tasks := [("t1-c1", wit_task)]; st_profiles := wit_profiles; st_memory := None;
     st_notebook_path := None; st_sandbox_policy_hash := "q"; st_sandbox_backend := "none" |}.

Lemma wit_state_valid : valid State_codec wit_state.
Proof. cbn. split_and!; repeat (constructor || done). Qed.
Lemma wit_state_valid' : valid State_codec wit_state'.
Proof. cbn. split_and!; repeat (constructor || done). Qed.
Lemma wit_state_exact : exact (enc State_codec wit_state).
Proof. lazy. repeat (constructor; try done). Qed.
Lemma wit_state_exact' : exact (enc State_codec wit_state').
Proof. lazy. repeat (constructor; try done). Qed.

Lemma state_hash_ignores_exactly_volatile_witness :
  @state_hash toy_platform wit_state = @state_hash toy_platform wit_state' /\
  is_ok (@state_hash toy_platform wit_state) = true.
Proof.
  destruct (@state_hash_ignores_exactly_volatile toy_platform wit_state wit_state'
    wit_state_valid wit_state_valid' wit_state_exact wit_state_exact') as (Hok & He & _).
  split; [apply He; reflexivity|exact Hok].
Defined.

Lemma state_json_round_trip_witness : dec State_codec (enc State_codec wit_state) = Some wit_state.
Proof. apply (state_json_round_trip wit_state). exact wit_state_valid. Defined.

(** A registry with one step, from version 0. *)
Definition wit_step : StateMigration :=
  {| from_version := 0;
     migrate raw := match raw with JObj m => Ok (JObj (omap_insert "schema_version" (JNum (PosInt 1)) m))
                    | _ => Err (InvalidState "not an object") end |}.
Example migrates_version_0 :
  match enc State_codec wit_state with
  | JObj m => migrated <$> migrate_to_current [(0%N, wit_step)] (JObj (omap_insert "schema_version" (JNum (PosInt 0)) m))
  | _ => Err NoVersion
  end = Ok (Some (0%N, 1%N)).
Proof. lazy. reflexivity. Qed.
