(* ===== verification/Redact.v ===== *)
(** [redact.rs]: registered secret values are replaced first, longest first, then the matches of
    the patterns; a payload is redacted string by string, keys left alone.  Regular expressions
    are the regex crate's: a pattern is given by the spans its secret group matches in a text. *)

From S2P Require Import Prelude Ord Str Json.

Open Scope string_scope.
Open Scope list_scope.

(** * Replacing *)

Definition replacement (kind : string) : string := "[REDACTED:" +:+ kind +:+ "]".
Definition MIN_SECRET_LEN : nat := 8.
Definition UNNAMED_SECRET : string := "<unnamed>".

(** The pieces between the leftmost non-overlapping matches of [k] ([str::matches], [str::replace]);
    [skip] counts the bytes of the current match still to pass. *)
Fixpoint split_str (k : string) (skip : nat) (s : string) : list string :=
  match s with
  | EmptyString => [""]
  | String a s' =>
      match skip with
      | S skip => split_str k skip s'
      | O => if starts_with k s then "" :: split_str k (String.length k - 1) s'
             else match split_str k 0 s' with p :: ps => String a p :: ps | [] => [] end
      end
  end.
Definition matches_count (k s : string) : N := N.of_nat (length (split_str k 0 s) - 1).
Definition replace_all (k by_ s : string) : string := join by_ (split_str k 0 s).

(** A pattern: the kind written into the marker and the spans (start, end) of its group, in the
    order of [captures_iter]. *)
Record Pattern : Type := { pat_kind : string; pat_spans : string -> list (nat * nat) }.

Record Redactor : Type := {
  known : list string;
  patterns : list Pattern;
  short : list string
}.

(** [known.sort_by_key(|k| Reverse(len))]: stable, longest first. *)
Fixpoint insert_by_len (v : string) (l : list string) : list string :=
  match l with
  | [] => [v]
  | k :: l' => if (String.length v <=? String.length k)%nat then k :: insert_by_len v l' else v :: l
  end.

(** [Redactor::register_secret], [register_named_secret], [take_short_names]. *)
Definition note_short (name : string) (r : Redactor) : Redactor :=
  if existsb (fun n => bool_decide (n = name)) (short r) then r
  else {| known := known r; patterns := patterns r; short := short r ++ [name] |}.
Definition register_secret (v : string) (r : Redactor) : Redactor :=
  if (String.length v <? MIN_SECRET_LEN)%nat then note_short UNNAMED_SECRET r
  else if existsb (fun k => bool_decide (k = v)) (known r) then r
  else {| known := insert_by_len v (known r); patterns := patterns r; short := short r |}.
Definition register_named_secret (name v : string) (r : Redactor) : Redactor * bool :=
  if (String.length v <? MIN_SECRET_LEN)%nat then (note_short name r, false)
  else (register_secret v r, true).
Definition take_short_names (r : Redactor) : Redactor * list string :=
  ({| known := known r; patterns := patterns r; short := [] |}, short r).

(** One known value. *)
Definition redact_known (st : string * N) (k : string) : string * N :=
  let '(out, n) := st in
  if contains k out then (replace_all k (replacement "secret") out, (n + matches_count k out)%N) else (out, n).

(** The spans of one pattern: [next] so far, the end of the last span, and the count. *)
Definition slice (a b : nat) (s : string) : string := str_take (b - a) (str_drop a s).
Fixpoint redact_spans (kind out : string) (spans : list (nat * nat)) (next : string) (last : nat) (hits : N) :
    string * nat * N :=
  match spans with
  | [] => (next, last, hits)
  | (s, e) :: spans =>
      if starts_with "[REDACTED:" (slice s e out) then redact_spans kind out spans next last hits
      else redact_spans kind out spans (next +:+ slice last s out +:+ replacement kind) e (hits + 1)
  end.
Definition redact_pattern (st : string * N) (p : Pattern) : string * N :=
  let '(out, n) := st in
  let '(next, last, hits) := redact_spans (pat_kind p) out (pat_spans p out) "" 0 0 in
  if (0 <? hits)%N then (next +:+ str_drop last out, (n + hits)%N) else (out, n).

(** [Redactor::redact_str]: the redacted text and the number of replacements. *)
Definition redact_str (r : Redactor) (s : string) : string * N :=
  foldl redact_pattern (foldl redact_known (s, 0%N) (known r)) (patterns r).

(** [Redactor::redact_value]: [walk] over every string, keys excluded. *)
Fixpoint redact_value (r : Redactor) (v : json) : json * N :=
  match v with
  | JStr s => let '(out, n) := redact_str r s in if (0 <? n)%N then (JStr out, n) else (v, 0%N)
  | JArr l =>
      let '(l', n) := (fix go l := match l with
        | [] => ([], 0%N)
        | x :: l' => let '(y, n) := redact_value r x in let '(ys, m) := go l' in (y :: ys, (n + m)%N)
        end) l in (JArr l', n)
  | JObj m =>
      let '(m', n) := (fix go (m : list (string * json)) := match m with
        | [] => ([], 0%N)
        | kv :: m' => let '(y, n) := redact_value r kv.2 in let '(ys, k) := go m' in ((kv.1, y) :: ys, (n + k)%N)
        end) m in (JObj m', n)
  | _ => (v, 0%N)
  end.

Example redacts_registered :
  redact_str (register_secret "hunter2hunter2" {| known := []; patterns := []; short := [] |})
    "a hunter2hunter2 b hunter2hunter2" = ("a [REDACTED:secret] b [REDACTED:secret]", 2%N).
Proof. reflexivity. Qed.

(** * No registered secret survives *)

Lemma contains_spec k s : contains k s = true <-> exists x y, s = x +:+ k +:+ y.
Proof.
  induction s as [|a s IH]; simpl.
  - rewrite orb_false_r, starts_with_spec. split.
    + intros [r ->]. exists "", r. done.
    + intros (x & y & Hs). exists y. destruct x; [done|discriminate Hs].
  - rewrite orb_true_iff, starts_with_spec, IH. split.
    + intros [[r ->]|(x & y & ->)]; [by exists "", r|by exists (String a x), y].
    + intros ([|b x] & y & Hs); [left; by exists y|right]. injection Hs as -> ->. eauto.
Qed.
Lemma contains_sub k x s y : contains k s = true -> contains k (x +:+ s +:+ y) = true.
Proof.
  rewrite !contains_spec. intros (u & v & ->). exists (x +:+ u), (v +:+ y). by rewrite !str_app_assoc.
Qed.
Lemma contains_sub_false k x s y : contains k (x +:+ s +:+ y) = false -> contains k s = false.
Proof. intros H. destruct (contains k s) eqn:Hs; [|done]. by rewrite (contains_sub _ x _ y Hs) in H. Qed.

Lemma starts_with_before_char c k a b :
  has_char c k = false -> k <> "" -> starts_with k (a +:+ String c b) = starts_with k a.
Proof.
  intros Hc Hk. apply eq_true_iff_eq. rewrite !starts_with_spec. revert k Hc Hk.
  induction a as [|x a IH]; intros k Hc Hk; (destruct k as [|y k]; [done|]);
    rewrite has_char_cons in Hc; apply orb_false_iff in Hc as [Hy Hc]; apply bool_decide_eq_false in Hy.
  - split; intros [r Hr]; [|discriminate Hr]. injection Hr as -> _. done.
  - destruct k as [|z k].
    + split; intros [r Hr]; injection Hr as -> _; [by exists a|by exists (a +:+ String c b)].
    + specialize (IH _ Hc ltac:(done)). split; intros [r Hr]; injection Hr as -> Hr.
      * destruct (proj1 IH) as [r' Hr']; [by exists r|]. exists r'. by rewrite Hr'.
      * exists (r +:+ String c b). by rewrite Hr, !str_app_cons, str_app_assoc.
Qed.
Lemma contains_char c k a b :
  has_char c k = false -> k <> "" -> contains k (a +:+ String c b) = contains k a || contains k b.
Proof.
  intros Hc Hk. induction a as [|x a IH].
  - rewrite str_app_nil. change (contains k (String c b)) with (starts_with k (String c b) || contains k b).
    rewrite <- (str_app_nil (String c b)), starts_with_before_char by done.
    simpl. by rewrite orb_false_r.
  - rewrite str_app_cons. change (contains k (String x ?s)) with (starts_with k (String x s) || contains k s).
    rewrite IH, <- str_app_cons, starts_with_before_char by done. simpl. by rewrite orb_assoc.
Qed.

(** A secret that cannot be part of a marker or straddle one. *)
Definition clean_for (kind k : string) : Prop :=
  k <> "" /\ has_char "[" k = false /\ has_char "]" k = false /\ contains k ("REDACTED:" +:+ kind) = false.

Lemma contains_marker kind k a b :
  clean_for kind k -> contains k (a +:+ replacement kind +:+ b) = contains k a || contains k b.
Proof.
  intros (Hk & Ho & Hc & Hm). unfold replacement. rewrite !str_app_assoc.
  change ("[REDACTED:" +:+ ?x) with (String "[" ("REDACTED:" +:+ x)).
  rewrite contains_char by done. rewrite <- str_app_assoc. change ("]" +:+ b) with (String "]" b).
  rewrite contains_char by done. by rewrite Hm.
Qed.
Lemma contains_join kind k ps :
  clean_for kind k -> Forall (fun p => contains k p = false) ps -> contains k (join (replacement kind) ps) = false.
Proof.
  intros Hk. induction 1 as [|p ps Hp Hps IH]; [by destruct k; [destruct Hk|]|].
  destruct ps as [|q ps]; [done|]. cbn [join] in *. by rewrite contains_marker, Hp, IH.
Qed.

Lemma split_str_pieces k n s p : p ∈ split_str k n s -> exists x y, s = x +:+ p +:+ y.
Proof.
  assert (H : (forall p, p ∈ split_str k n s -> exists x y, s = x +:+ p +:+ y) /\
              (n = 0 -> exists hd tl y, split_str k n s = hd :: tl /\ s = hd +:+ y)).
  { clear p. revert n. induction s as [|a s IH]; intros n.
    - split; [intros p ->%list_elem_of_singleton; by exists "", ""|intros _; by exists "", [], ""].
    - assert (Hsub : forall m p, p ∈ split_str k m s -> exists x y, String a s = x +:+ p +:+ y).
      { intros m p Hp. apply IH in Hp as (x & y & ->). by exists (String a x), y. }
      destruct n as [|n]; cbn [split_str]; [|split; [apply Hsub|done]].
      destruct (starts_with k (String a s)).
      + split; [|intros _; by eexists "", _, _].
        intros p [->|Hp]%elem_of_cons; [by exists "", (String a s)|by eapply Hsub].
      + destruct (IH 0) as [Hp (hd & tl & y & Hs & Hy)]; [done|]. rewrite Hs in *. split.
        * intros p [->|Hin]%elem_of_cons; [by exists "", y; subst|].
          destruct (Hp p) as (x & z & ->); [by constructor|]. by exists (String a x), z.
        * intros _. exists (String a hd), tl, y. by subst. }
  apply H.
Qed.

Lemma split_str_head k s : exists hd tl y, split_str k 0 s = hd :: tl /\ s = hd +:+ y.
Proof.
  induction s as [|a s (hd & tl & y & Hs & Hy)]; [by exists "", [], ""|]. cbn [split_str].
  destruct (starts_with k (String a s)); [by eexists "", _, _|].
  rewrite Hs. exists (String a hd), tl, y. by subst.
Qed.
Lemma split_str_clean k n s : k <> "" -> Forall (fun p => contains k p = false) (split_str k n s).
Proof.
  intros Hk. revert n. induction s as [|a s IH]; intros n; cbn [split_str].
  - constructor; [by destruct k|constructor].
  - destruct n as [|n]; [|apply IH]. destruct (starts_with k (String a s)) eqn:Hst.
    + constructor; [by destruct k|apply IH].
    + destruct (split_str_head k s) as (hd & tl & y & Hs & ->). specialize (IH 0). rewrite Hs in *.
      apply Forall_cons in IH as [Hhd Htl]. constructor; [|done].
      change (starts_with k (String a hd) || contains k hd = false). rewrite Hhd, orb_false_r.
      destruct (starts_with k (String a hd)) eqn:Hp; [|done]. apply starts_with_spec in Hp as [r Hr].
      exfalso. apply not_true_iff_false in Hst. apply Hst, starts_with_spec. exists (r +:+ y).
      by rewrite <- str_app_cons, Hr, str_app_assoc.
Qed.

Lemma replace_all_removes k s : clean_for "secret" k -> contains k (replace_all k (replacement "secret") s) = false.
Proof. intros Hk. apply contains_join; [done|]. apply split_str_clean, Hk. Qed.
Lemma replace_all_keeps k k' s :
  clean_for "secret" k' -> contains k' s = false -> contains k' (replace_all k (replacement "secret") s) = false.
Proof.
  intros Hk Hs. apply contains_join; [done|]. apply Forall_forall. intros p Hp.
  apply split_str_pieces in Hp as (x & y & ->). by eapply contains_sub_false.
Qed.

Lemma redact_known_clean ks st k :
  clean_for "secret" k -> k ∈ ks \/ contains k st.1 = false -> contains k (foldl redact_known st ks).1 = false.
Proof.
  intros Hk. revert st. induction ks as [|k' ks IH]; intros [out n]; simpl; [by intros [?%elem_of_nil|?]|].
  intros Hin. apply IH. destruct (contains k' out) eqn:Hc; simpl.
  - destruct Hin as [[->|Hin]%elem_of_cons|Hno]; [right; by apply replace_all_removes|by left|].
    right. by apply replace_all_keeps.
  - destruct Hin as [[->|Hin]%elem_of_cons|Hno]; [by right|by left|by right].
Qed.

Lemma str_sub_take k n s : contains k s = false -> contains k (str_take n s) = false.
Proof.
  intros Hs. rewrite <- (str_take_drop n s) in Hs. by apply (contains_sub_false _ "" _ (str_drop n s)).
Qed.
Lemma str_sub_drop k n s : contains k s = false -> contains k (str_drop n s) = false.
Proof.
  intros Hs. rewrite <- (str_take_drop n s), <- (str_app_nil_r (str_drop n s)) in Hs.
  by apply contains_sub_false in Hs.
Qed.

(** [next] is empty or ends in a marker, so what is appended to it cannot complete a secret. *)
Lemma redact_spans_clean kind k out spans next last hits next' last' hits' :
  clean_for kind k -> contains k out = false ->
  (forall t, contains k t = false -> contains k (next +:+ t) = false) ->
  redact_spans kind out spans next last hits = (next', last', hits') ->
  forall t, contains k t = false -> contains k (next' +:+ t) = false.
Proof.
  intros Hk Ho. revert next last hits. induction spans as [|[s e] spans IH]; intros next last hits Hn; cbn [redact_spans].
  - by intros [= <- <- <-].
  - destruct (starts_with _ _); [by apply IH|]. apply IH. intros t Ht.
    rewrite !str_app_assoc, <- str_app_assoc, contains_marker by done. rewrite Ht, orb_false_r.
    apply Hn. by apply str_sub_take, str_sub_drop.
Qed.

Lemma redact_pattern_clean p k st :
  clean_for (pat_kind p) k -> contains k st.1 = false -> contains k (redact_pattern st p).1 = false.
Proof.
  intros Hk Hs. destruct st as [out n]. simpl in *.
  destruct (redact_spans _ _ _ _ _ _) as [[next last] hits] eqn:Hr.
  destruct (0 <? hits)%N; [|done]. simpl.
  eapply redact_spans_clean; [exact Hk|exact Hs| |exact Hr|by apply str_sub_drop]. done.
Qed.

(** Secrets that no marker of this redactor can be confused with. *)
Definition clean_secret (r : Redactor) (k : string) : Prop :=
  clean_for "secret" k /\ Forall (fun p => clean_for (pat_kind p) k) (patterns r).

Lemma redact_str_clean r k s : k ∈ known r -> clean_secret r k -> contains k (redact_str r s).1 = false.
Proof.
  intros Hin [Hs Hp]. unfold redact_str.
  assert (Hk : contains k (foldl redact_known (s, 0%N) (known r)).1 = false)
    by (apply redact_known_clean; auto).
  revert Hk. generalize (foldl redact_known (s, 0%N) (known r)).
  induction Hp as [|p ps Hp _ IH]; intros st Hst; [done|]. simpl. by apply IH, redact_pattern_clean.
Qed.

Definition registered_ok (r : Redactor) : Prop := Forall (fun k => (MIN_SECRET_LEN <= String.length k)%nat) (known r).

Lemma split_str_no_match k s : k <> "" -> contains k s = false -> split_str k 0 s = [s].
Proof.
  intros Hk. induction s as [|a s IH]; [done|]. intros Hs.
  change (starts_with k (String a s) || contains k s = false) in Hs. apply orb_false_iff in Hs as [Hst Hs].
  cbn [split_str]. by rewrite Hst, IH.
Qed.
Lemma matches_count_pos k s : k <> "" -> contains k s = true -> (0 < matches_count k s)%N.
Proof.
  intros Hk. unfold matches_count. assert (Hl : forall n s, (0 < length (split_str k n s))%nat).
  { intros n t. revert n. induction t as [|a t IH]; intros [|n]; simpl; [lia|lia| |apply IH].
    destruct (starts_with _ _); [simpl; lia|]. specialize (IH 0). by destruct (split_str k 0 t). }
  intros Hs. enough (2 <= length (split_str k 0 s))%nat by lia. induction s as [|a s IH].
  - destruct k; [done|discriminate Hs].
  - cbn [split_str]. destruct (starts_with k (String a s)) eqn:Hst; [specialize (Hl (String.length k - 1) s); simpl; lia|].
    change (starts_with k (String a s) || contains k s = true) in Hs. rewrite Hst in Hs. simpl in Hs.
    specialize (IH Hs). by destruct (split_str k 0 s).
Qed.

Lemma redact_known_zero ks st : Forall (fun k => k <> "") ks ->
  (st.2 <= (foldl redact_known st ks).2)%N /\
  ((foldl redact_known st ks).2 = st.2 -> (foldl redact_known st ks).1 = st.1).
Proof.
  intros Hks. revert st. induction Hks as [|k ks Hk _ IH]; intros [out n]; simpl; [split; [lia|done]|].
  destruct (contains k out) eqn:Hc; [|exact (IH (out, n))].
  destruct (IH (replace_all k (replacement "secret") out, (n + matches_count k out)%N)) as [Hle _]. simpl in *.
  pose proof (matches_count_pos k out Hk Hc). split; [lia|]. intros He. lia.
Qed.
Lemma redact_patterns_zero ps st :
  (st.2 <= (foldl redact_pattern st ps).2)%N /\
  ((foldl redact_pattern st ps).2 = st.2 -> (foldl redact_pattern st ps).1 = st.1).
Proof.
  revert st. induction ps as [|p ps IH]; intros [out n]; simpl; [split; [lia|done]|].
  destruct (redact_spans _ _ _ _ _ _) as [[next last] hits]. destruct (N.ltb_spec 0 hits); [|exact (IH (out, n))].
  destruct (IH (next +:+ str_drop last out, (n + hits)%N)) as [Hle _]. simpl in *. split; [lia|]. intros He. lia.
Qed.
Lemma redact_str_zero r s : registered_ok r -> (redact_str r s).2 = 0%N -> (redact_str r s).1 = s.
Proof.
  intros Hr. unfold redact_str. intros H0.
  destruct (redact_patterns_zero (patterns r) (foldl redact_known (s, 0%N) (known r))) as [Hle He].
  destruct (redact_known_zero (known r) (s, 0%N)) as [Hle2 He2].
  { eapply Forall_impl; [exact Hr|]. intros k Hk ->. unfold MIN_SECRET_LEN in Hk. simpl in Hk. lia. }
  rewrite He by lia. apply He2. simpl. lia.
Qed.

(** The strings of a value, keys excluded, and the value with its strings blanked. *)
Fixpoint strings_of (v : json) : list string :=
  match v with
  | JStr s => [s]
  | JArr l => (fix go l := match l with [] => [] | x :: l' => strings_of x ++ go l' end) l
  | JObj m => (fix go (m : list (string * json)) := match m with [] => [] | kv :: m' => strings_of kv.2 ++ go m' end) m
  | _ => []
  end.
Fixpoint blank (v : json) : json :=
  match v with
  | JStr _ => JStr ""
  | JArr l => JArr ((fix go l := match l with [] => [] | x :: l' => blank x :: go l' end) l)
  | JObj m => JObj ((fix go (m : list (string * json)) :=
      match m with [] => [] | kv :: m' => (kv.1, blank kv.2) :: go m' end) m)
  | _ => v
  end.

Lemma redact_value_strings r v k :
  registered_ok r -> k ∈ known r -> clean_secret r k ->
  blank (redact_value r v).1 = blank v /\
  Forall (fun s => contains k s = false) (strings_of (redact_value r v).1) /\
  ((redact_value r v).2 = 0%N -> (redact_value r v).1 = v).
Proof.
  intros Hr Hk Hc. induction v as [| | |s|l IH|m IH] using json_ind_strong; try by split_and!; [..|constructor|].
  - cbn [redact_value]. pose proof (redact_str_clean r k s Hk Hc) as Hno. pose proof (redact_str_zero r s Hr) as Hz.
    destruct (redact_str r s) as [out n]. simpl in *. destruct (N.ltb_spec 0 n) as [Hn|Hn]; simpl.
    + split_and!; [done|by repeat constructor|lia].
    + rewrite Hz in Hno by lia. split_and!; [done|by repeat constructor|done].
  - cbn [redact_value]. match goal with |- context [let '(_, _) := ?g l in _] => set (go := g) end.
    enough (H : (fix go l := match l with [] => [] | x :: l' => blank x :: go l' end) (go l).1 =
                (fix go l := match l with [] => [] | x :: l' => blank x :: go l' end) l /\
                Forall (fun s => contains k s = false)
                  ((fix go l := match l with [] => [] | x :: l' => strings_of x ++ go l' end) (go l).1) /\
                ((go l).2 = 0%N -> (go l).1 = l)).
    { destruct (go l) as [l' n]. destruct H as (H1 & H2 & H3). cbn. split_and!; [by f_equal|done|].
      intros Hn. f_equal. by apply H3. }
    induction IH as [|x l (B & F & Z) _ IHl]; [by split_and!; [|constructor|]|]. cbn [go]. fold go.
    destruct (redact_value r x) as [y n], (go l) as [ys n']. destruct IHl as (B' & F' & Z'). cbn in *.
    split_and!; [by f_equal|by apply Forall_app|]. intros Hn. f_equal; [apply Z|apply Z']; lia.
  - cbn [redact_value]. match goal with |- context [let '(_, _) := ?g m in _] => set (go := g) end.
    enough (H : (fix go (m : list (string * json)) := match m with [] => [] | kv :: m' => (kv.1, blank kv.2) :: go m' end) (go m).1 =
                (fix go (m : list (string * json)) := match m with [] => [] | kv :: m' => (kv.1, blank kv.2) :: go m' end) m /\
                Forall (fun s => contains k s = false)
                  ((fix go (m : list (string * json)) := match m with [] => [] | kv :: m' => strings_of kv.2 ++ go m' end) (go m).1) /\
                ((go m).2 = 0%N -> (go m).1 = m)).
    { destruct (go m) as [m' n]. destruct H as (H1 & H2 & H3). cbn. split_and!; [by f_equal|done|].
      intros Hn. f_equal. by apply H3. }
    induction IH as [|[q x] m (B & F & Z) _ IHm]; [by split_and!; [|constructor|]|]. cbn [go]. fold go. cbn [fst snd] in *.
    destruct (redact_value r x) as [y n], (go m) as [ys n']. destruct IHm as (B' & F' & Z'). cbn in *.
    split_and!; [by f_equal; [f_equal|]|by apply Forall_app|]. intros Hn. f_equal; [f_equal; apply Z|apply Z']; lia.
Qed.

Lemma redact_value_zero r v : (redact_value r v).2 = 0%N -> (redact_value r v).1 = v.
Proof.
  induction v as [| | |s|l IH|m IH] using json_ind_strong; try done.
  - cbn [redact_value]. destruct (redact_str r s) as [out n]. destruct (N.ltb_spec 0 n); simpl; [lia|done].
  - cbn [redact_value]. match goal with |- context [let '(_, _) := ?g l in _] => set (go := g) end.
    enough (H : (go l).2 = 0%N -> (go l).1 = l) by (destruct (go l); simpl in *; intros ?; f_equal; auto).
    induction IH as [|x l Z _ IHl]; [done|]. cbn [go]. fold go.
    destruct (redact_value r x) as [y n], (go l) as [ys n']. simpl in *.
    intros Hn. f_equal; [apply Z|apply IHl]; lia.
  - cbn [redact_value]. match goal with |- context [let '(_, _) := ?g m in _] => set (go := g) end.
    enough (H : (go m).2 = 0%N -> (go m).1 = m) by (destruct (go m); simpl in *; intros ?; f_equal; auto).
    induction IH as [|[q x] m Z _ IHm]; [done|]. cbn [go]. fold go. cbn [fst snd] in *.
    destruct (redact_value r x) as [y n], (go m) as [ys n']. simpl in *.
    intros Hn. f_equal; [f_equal; apply Z|apply IHm]; lia.
Qed.

(** C30: redacting a payload leaves no occurrence of a registered value in any string, whatever the
    patterns match, keeps the keys and the shape of the payload, and reports zero replacements only
    when it changed nothing.  This is for a registry of values of the least length or more, as
    [register_secret] makes it, and for a value that cannot be confused with a marker
    ([clean_secret]): it has no square bracket and is not part of the text of a marker.
    [redaction_not_idempotent] has a registered value that is, and stays in the redacted text. *)
Theorem no_registered_secret_survives (r : Redactor) (v : json) (k : string) :
  registered_ok r -> k ∈ known r -> clean_secret r k ->
  Forall (fun s => contains k s = false) (strings_of (redact_value r v).1) /\
  blank (redact_value r v).1 = blank v /\
  ((redact_value r v).2 = 0%N -> (redact_value r v).1 = v).
Proof. intros Hr Hk Hc. destruct (redact_value_strings r v k Hr Hk Hc) as (? & ? & ?). by split_and!. Qed.

Definition by_length (l : list string) : Prop := StronglySorted (fun a b => (String.length b <= String.length a)%nat) l.
Lemma elem_of_insert_by_len v l x : x ∈ insert_by_len v l <-> x = v \/ x ∈ l.
Proof.
  induction l as [|k l IH]; simpl; [set_solver|]. destruct (_ <=? _)%nat; set_solver.
Qed.
Lemma insert_by_len_sorted v l : by_length l -> by_length (insert_by_len v l).
Proof.
  induction l as [|k l IH]; simpl; intros Hs; [by repeat constructor|].
  apply StronglySorted_inv in Hs as [Hs Hk]. destruct (Nat.leb_spec (String.length v) (String.length k)).
  - constructor; [by apply IH|]. apply Forall_forall. intros x [->|Hx]%elem_of_insert_by_len; [done|].
    rewrite Forall_forall in Hk. by apply Hk.
  - constructor; [by constructor|]. constructor; [lia|]. eapply Forall_impl; [exact Hk|]. simpl. lia.
Qed.
Lemma insert_by_len_NoDup v l : v ∉ l -> NoDup l -> NoDup (insert_by_len v l).
Proof.
  induction l as [|k l IH]; simpl; intros Hv Hl; [by repeat constructor; set_solver|].
  apply NoDup_cons in Hl as [Hk Hl]. destruct (_ <=? _)%nat.
  - constructor; [rewrite elem_of_insert_by_len; set_solver|]. apply IH; set_solver.
  - constructor; [set_solver|]. by constructor.
Qed.

(** What a registration adds, whatever was there. *)
Lemma register_named_secret_adds name v r :
  ((MIN_SECRET_LEN <= String.length v)%nat -> v ∈ known (register_named_secret name v r).1) /\
  ((String.length v < MIN_SECRET_LEN)%nat -> name ∈ short (register_named_secret name v r).1) /\
  forall k, k ∈ known r -> k ∈ known (register_named_secret name v r).1.
Proof.
  unfold register_named_secret, register_secret, note_short.
  assert (Hex : forall (w : string) l, existsb (fun k => bool_decide (k = w)) l = true -> w ∈ l).
  { intros w l (y & Hy & Hd)%existsb_exists. apply bool_decide_eq_true in Hd as ->. by apply list_elem_of_In. }
  destruct (Nat.ltb_spec (String.length v) MIN_SECRET_LEN) as [Hlt|Hge]; cbn [fst].
  - split; [lia|]. destruct (existsb _ _) eqn:He; cbn [known short]; (split; [intros _|done]).
    + by apply Hex.
    + apply elem_of_app. right. by apply list_elem_of_singleton.
  - split_and!; [|lia|]; destruct (existsb _ _) eqn:He; cbn [known]; try done.
    + intros _. by apply Hex.
    + intros _. apply elem_of_insert_by_len. by left.
    + intros k Hk. apply elem_of_insert_by_len. by right.
Qed.

(** registering a value keeps the known values distinct, at least
    [MIN_SECRET_LEN] bytes long and longest first; a value long enough becomes known, and a short
    one is not stored but leaves exactly its name to be reported. *)
Theorem register_secret_invariant (r : Redactor) (name v : string) :
  registered_ok r -> by_length (known r) -> NoDup (known r) ->
  let r' := (register_named_secret name v r).1 in
  registered_ok r' /\ by_length (known r') /\ NoDup (known r') /\ patterns r' = patterns r /\
  (forall x, x ∈ known r' <-> x ∈ known r \/ x = v /\ (MIN_SECRET_LEN <= String.length v)%nat) /\
  (forall x, x ∈ short r' <-> x ∈ short r \/ x = name /\ (String.length v < MIN_SECRET_LEN)%nat).
Proof.
  intros Hr Hs Hn. unfold register_named_secret, register_secret.
  destruct (Nat.ltb_spec (String.length v) MIN_SECRET_LEN) as [Hlt|Hge]; cbn [fst].
  - unfold note_short. destruct (existsb _ _) eqn:He; cbn [known patterns short]; split_and!; try done.
    1, 3: intros x; split; [auto|intros [?|[_ ?]]; [done|lia]].
    + intros x. split; [auto|]. intros [?|[-> _]]; [done|].
      apply existsb_exists in He as (y & Hy & Hd). apply bool_decide_eq_true in Hd as ->. by apply list_elem_of_In.
    + intros x. rewrite elem_of_app, list_elem_of_singleton. intuition.
  - destruct (existsb _ _) eqn:He; cbn [known patterns short]; split_and!; try done.
    + intros x. split; [auto|]. intros [?|[-> _]]; [done|].
      apply existsb_exists in He as (y & Hy & Hd). apply bool_decide_eq_true in Hd as ->. by apply list_elem_of_In.
    + intros x. split; [auto|intros [?|[_ ?]]; [done|lia]].
    + unfold registered_ok in *. cbn [known]. rewrite Forall_forall in *.
      intros x [->|Hx]%elem_of_insert_by_len; [done|by apply Hr].
    + by apply insert_by_len_sorted.
    + apply insert_by_len_NoDup; [|done]. intros Hin. apply not_true_iff_false in He. apply He.
      apply existsb_exists. exists v. rewrite <- list_elem_of_In. split; [done|by apply bool_decide_eq_true].
    + intros x. rewrite elem_of_insert_by_len. intuition.
    + intros x. split; [auto|intros [?|[_ ?]]; [done|lia]].
Qed.

(** a registered value that occurs in the marker itself is found again
    in redacted text, so redaction is not a fixed point on it. *)
Theorem redaction_not_idempotent :
  let r := register_secret "REDACTED" {| known := []; patterns := []; short := [] |} in
  (redact_str r "key REDACTED").1 <> (redact_str r (redact_str r "key REDACTED").1).1.
Proof. lazy. discriminate. Qed.

(** ** Witnesses *)

Definition wit_redactor : Redactor :=
  register_secret "hunter2hunter2" {| known := []; patterns := [{| pat_kind := "bearer"; pat_spans _ := [(0, 3)] |}]; short := [] |}.

Lemma no_registered_secret_survives_witness :
  Forall (fun s => contains "hunter2hunter2" s = false)
    (strings_of (redact_value wit_redactor (JArr [JStr "xhunter2hunter2"; JNull])).1).
Proof.
  apply (no_registered_secret_survives wit_redactor (JArr [JStr "xhunter2hunter2"; JNull]) "hunter2hunter2").
  - repeat constructor.
  - constructor.
  - split; [|repeat constructor; try discriminate]. split_and!; [discriminate|reflexivity..].
Defined.

Lemma register_secret_invariant_witness :
  known (register_named_secret "token" "hunter2hunter22" wit_redactor).1 = ["hunter2hunter22"; "hunter2hunter2"] /\
  NoDup (known (register_named_secret "token" "hunter2hunter22" wit_redactor).1).
Proof.
  split; [reflexivity|].
  apply (register_secret_invariant wit_redactor "token" "hunter2hunter22").
  - repeat constructor.
  - repeat constructor.
  - repeat constructor. set_solver.
Defined.
