(* ===== verification/Spill.v ===== *)
(** [loop_/spill.rs] and the stores of [artifact.rs]: a tool result over the cap is replaced by a
    head, a tail and a handle to the stored bytes. *)

From S2P Require Import Prelude Ord Str Json Codec Data Event.

Open Scope string_scope.
Open Scope list_scope.

Definition JSON_MIME : string := "application/json".
Definition TEXT_MIME : string := "text/plain; charset=utf-8".

Inductive ArtifactError : Type := ArtNotFound (handle : string) | ArtReadOnly | ArtIo (msg : string).
Definition show_artifact_error (e : ArtifactError) : string :=
  match e with
  | ArtNotFound h => "artifact ArtifactHandle(Hash(" +:+ dquote +:+ h +:+ dquote +:+ ")) not found"
  | ArtReadOnly => "store is read-only"
  | ArtIo m => "io error: " +:+ m
  end.

(** An [ArtifactStore] as its client sees it: [put] and [get] over a state. *)
Class ArtifactStore (St : Type) : Type := {
  store_name : string;
  put : St -> string -> string -> St * result ArtifactError string;
  get : St -> string -> result ArtifactError string
}.

(** [NoopArtifactStore]. *)
Definition noop_store `{Platform} : ArtifactStore unit := {|
  store_name := "noop";
  put st bytes _ := (st, Ok (of_bytes bytes));
  get _ handle := Err (ArtNotFound handle)
|}.

(** * Heads and tails on character boundaries *)

(** The [while end > 0 && !is_char_boundary(end)] loop. *)
Fixpoint cut_back (s : string) (end_ : nat) : nat :=
  match end_ with
  | O => O
  | S e => if is_char_boundary s end_ then end_ else cut_back s e
  end.
Definition head_utf8 (s : string) (n : N) : string :=
  str_take (cut_back s (Nat.min (N.to_nat n) (String.length s))) s.

(** The [while start < len && !is_char_boundary(start)] loop; [String.length s - start] rounds. *)
Fixpoint cut_forward (fuel : nat) (s : string) (start : nat) : nat :=
  match fuel with
  | O => start
  | S fuel =>
      if (start <? String.length s)%nat && negb (is_char_boundary s start) then cut_forward fuel s (S start)
      else start
  end.
Definition tail_utf8 (s : string) (n : N) : string :=
  let n := Nat.min (N.to_nat n) (String.length s) in
  let start := (String.length s - n)%nat in
  str_drop (cut_forward n s start) s.

(** * Spilling *)

Inductive Unit_ : Type :=
  | Stored (sp : Spilled)
  | StoreFailed (head tail : string) (size : N) (mime error : string).

Definition str_len (s : string) : N := N.of_nat (String.length s).

(** The state of the loop over the units: the store, the output, the reference and the warnings. *)
Record spill_st (St : Type) : Type := {
  ss_store : St; ss_out : ToolOutput; ss_ref : option SpillRef; ss_warnings : list WarningPayload
}.
Arguments ss_store {St} _.
Arguments ss_out {St} _.
Arguments ss_ref {St} _.
Arguments ss_warnings {St} _.

Section apply.
Context {HP : Platform} {HJ : JsonText} {St : Type} {HA : ArtifactStore St}.

Definition spill_unit (text mime : string) (cfg : SpillConfig) (store : St) : St * Unit_ :=
  let head := head_utf8 text (sc_head_bytes cfg) in
  let tail := tail_utf8 text (sc_tail_bytes cfg) in
  match put store text mime with
  | (store', Ok handle) =>
      (store', Stored {| sp_handle := handle; sp_head := head; sp_tail := tail; sp_size := str_len text; sp_mime := mime |})
  | (store', Err e) => (store', StoreFailed head tail (str_len text) mime (show_artifact_error e))
  end.

(** The units over the cap: the canonical bytes of a JSON result, or single text blocks. *)
Fixpoint over_cap (cap : N) (i : nat) (blocks : list ContentBlock) : list (nat * string * string) :=
  match blocks with
  | [] => []
  | Text text :: bs => if (cap <? str_len text)%N then (i, text, TEXT_MIME) :: over_cap cap (S i) bs
                       else over_cap cap (S i) bs
  | _ :: bs => over_cap cap (S i) bs
  end.
Definition spill_units (cap : N) (c : ToolResultContent) : list (nat * string * string) :=
  match c with
  | Json v => match canonical_json_value v with
              | Ok bytes => if (cap <? str_len bytes)%N then [(0, bytes, JSON_MIME)] else []
              | Err _ => []
              end
  | Blocks bs => over_cap cap 0 bs
  end.

Definition set_content (c : ToolResultContent) (o : ToolOutput) : ToolOutput :=
  {| out_content := c; out_is_error := out_is_error o; out_artifact_handles := out_artifact_handles o;
     out_spilled := out_spilled o; out_task := out_task o; out_origin := out_origin o;
     out_in_process_waker := out_in_process_waker o |}.

(** The replacement value put where the unit was. *)
Definition put_back (index : nat) (replacement : json) (c : ToolResultContent) : ToolResultContent :=
  match c with
  | Json _ => Json replacement
  | Blocks bs => Blocks (<[index := Text (to_string replacement)]> bs)
  end.

(** One iteration of the loop. *)
Definition spill_one (cfg : SpillConfig) (turn : N) (st : spill_st St) (u : nat * string * string) : spill_st St :=
  let '(index, text, mime) := u in
  let '(store, unit_) := spill_unit text mime cfg (ss_store st) in
  let o := ss_out st in
  match unit_ with
  | Stored sp =>
      {| ss_store := store;
         ss_out := {| out_content := put_back index (enc Spilled_codec sp) (out_content o);
                      out_is_error := out_is_error o;
                      out_artifact_handles := out_artifact_handles o ++ [sp_handle sp];
                      out_spilled := true; out_task := out_task o; out_origin := out_origin o;
                      out_in_process_waker := out_in_process_waker o |};
         ss_ref := match ss_ref st with
                   | Some r => Some r
                   | None => Some {| sref_handle := sp_handle sp; sref_size := sp_size sp; sref_mime := sp_mime sp |}
                   end;
         ss_warnings := ss_warnings st |}
  | StoreFailed head tail size mime error =>
      let v := jobj [("error", JStr "spill store failed; oversized result was not stored"); ("head", JStr head);
                     ("tail", JStr tail); ("size", JNum (PosInt size)); ("mime", JStr mime)] in
      {| ss_store := store;
         ss_out := {| out_content := put_back index v (out_content o);
                      out_is_error := true; out_artifact_handles := out_artifact_handles o;
                      out_spilled := true; out_task := out_task o; out_origin := out_origin o;
                      out_in_process_waker := out_in_process_waker o |};
         ss_ref := ss_ref st;
         ss_warnings := ss_warnings st ++
           [warning_kernel turn "spill_store_failed"
              ("artifact store refused a spilled result: " +:+ error)
              (Some (jobj [("size", JNum (PosInt size)); ("mime", JStr mime)]))] |}
  end.

(** [spill::apply]. *)
Definition apply (out : ToolOutput) (cfg : SpillConfig) (store : St) (turn : N) : spill_st St :=
  let st := {| ss_store := store; ss_out := out; ss_ref := None; ss_warnings := [] |} in
  match out_task out with
  | Some _ => st
  | None => foldl (spill_one cfg turn) st (spill_units (sc_cap_bytes cfg) (out_content out))
  end.
End apply.

(** * Heads and tails *)

Lemma boundary_0 s : is_char_boundary s 0 = true.
Proof. by destruct s. Qed.
Lemma boundary_len s : is_char_boundary s (String.length s) = true.
Proof. unfold is_char_boundary. by rewrite Nat.compare_refl. Qed.

Lemma cut_back_spec s n :
  (cut_back s n <= n)%nat /\ is_char_boundary s (cut_back s n) = true /\
  (forall i, (i <= n)%nat -> is_char_boundary s i = true -> (i <= cut_back s n)%nat).
Proof.
  induction n as [|n (Hle & Hb & Hm)]; cbn [cut_back].
  - split_and!; [lia|apply boundary_0|lia].
  - destruct (is_char_boundary s (S n)) eqn:Hn; [by split_and!; [lia| |intros; lia]|].
    split_and!; [lia|done|]. intros i Hi Hbi. apply Hm; [|done].
    destruct (decide (i = S n)) as [->|]; [congruence|lia].
Qed.

Lemma cut_forward_spec s fuel start :
  (start <= String.length s)%nat -> (String.length s - start <= fuel)%nat ->
  (start <= cut_forward fuel s start <= String.length s)%nat /\
  is_char_boundary s (cut_forward fuel s start) = true /\
  (forall i, (start <= i <= String.length s)%nat -> is_char_boundary s i = true -> (cut_forward fuel s start <= i)%nat).
Proof.
  revert start. induction fuel as [|fuel IH]; intros start Hs Hf; cbn [cut_forward].
  - assert (start = String.length s) as -> by lia. split_and!; [lia|lia|apply boundary_len|lia].
  - destruct (Nat.ltb_spec start (String.length s)) as [Hlt|Hge]; simpl.
    + destruct (is_char_boundary s start) eqn:Hb; simpl.
      * split_and!; [lia|lia|done|lia].
      * destruct (IH (S start)) as (Hr & Hb' & Hm); [lia..|]. split_and!; [lia|lia|done|].
        intros i Hi Hbi. apply Hm; [|done]. destruct (decide (i = start)) as [->|]; [congruence|lia].
    + assert (start = String.length s) as -> by lia. split_and!; [lia|lia|apply boundary_len|lia].
Qed.

(** the head kept of a spilled text is its longest prefix of at most [n] bytes
    that ends on a character boundary, the tail its longest such suffix that starts on one; both
    loops end, and nothing is cut inside a character. *)
Theorem spill_head_tail (s : string) (n : N) :
  (exists rest, s = head_utf8 s n +:+ rest) /\ (str_len (head_utf8 s n) <= n)%N /\
  is_char_boundary s (String.length (head_utf8 s n)) = true /\
  (forall i, (N.of_nat i <= n)%N -> (i <= String.length s)%nat -> is_char_boundary s i = true ->
     (i <= String.length (head_utf8 s n))%nat) /\
  (exists front, s = front +:+ tail_utf8 s n /\ is_char_boundary s (String.length front) = true /\
     (forall i, (N.of_nat (String.length s - i) <= n)%N -> (i <= String.length s)%nat ->
        is_char_boundary s i = true -> (String.length front <= i)%nat)) /\
  (str_len (tail_utf8 s n) <= n)%N.
Proof.
  unfold head_utf8, tail_utf8, str_len. set (m := Nat.min (N.to_nat n) (String.length s)).
  destruct (cut_back_spec s m) as (Hle & Hb & Hmax).
  destruct (cut_forward_spec s m (String.length s - m)) as (Hr & Hb' & Hmin); [lia|lia|].
  rewrite !str_take_length, str_drop_length. rewrite (Nat.min_l (cut_back s m)) by lia. split_and!.
  - exists (str_drop (cut_back s m) s). by rewrite str_take_drop.
  - lia.
  - done.
  - intros i Hi Hl Hbi. apply Hmax; [lia|done].
  - exists (str_take (cut_forward m s (String.length s - m)) s). rewrite str_take_drop, str_take_length.
    rewrite Nat.min_l by lia. split_and!; [done|done|]. intros i Hi Hl Hbi. apply Hmin; [lia|done].
  - lia.
Qed.

(** * What spilling does to a result *)

Section apply_facts.
Context {HP : Platform} {HJ : JsonText} {St : Type} {HA : ArtifactStore St}.
Implicit Types (st : spill_st St).

Definition blocks_of (c : ToolResultContent) : list ContentBlock := match c with Blocks bs => bs | Json _ => [] end.

Lemma over_cap_units cap i bs u :
  u ∈ over_cap cap i bs <->
  exists j text, u = ((i + j)%nat, text, TEXT_MIME) /\ bs !! j = Some (Text text) /\ (cap < str_len text)%N.
Proof.
  revert i. induction bs as [|b bs IH]; intros i.
  - simpl. split; [by intros ?%elem_of_nil|]. by intros (j & t & _ & Hj & _).
  - assert (Htail : u ∈ over_cap cap (S i) bs <-> exists j text, u = ((i + S j)%nat, text, TEXT_MIME) /\
      bs !! j = Some (Text text) /\ (cap < str_len text)%N).
    { rewrite IH. by setoid_rewrite Nat.add_succ_comm. }
    assert (Hstep : (exists j text, u = ((i + j)%nat, text, TEXT_MIME) /\ (b :: bs) !! j = Some (Text text) /\
        (cap < str_len text)%N) <->
      (exists text, u = (i, text, TEXT_MIME) /\ b = Text text /\ (cap < str_len text)%N) \/ u ∈ over_cap cap (S i) bs).
    { rewrite Htail. split.
      - intros ([|j] & text & -> & Hj & Hc); [left; exists text; rewrite Nat.add_0_r; naive_solver|right; eauto].
      - intros [(text & -> & -> & Hc)|(j & text & -> & Hj & Hc)];
          [exists 0, text; by rewrite Nat.add_0_r|exists (S j), text; done]. }
    rewrite Hstep. destruct b as [text| | | | |]; simpl;
      try (split; [by right|by intros [(? & _ & ? & _)|?]]).
    destruct (N.ltb_spec cap (str_len text)) as [Hc|Hc].
    + rewrite elem_of_cons. split; [intros [->|?]; [left; eauto|by right]|intros [(? & -> & [= ->] & _)|?]; auto].
    + split; [by right|]. intros [(t & _ & [= ->] & ?)|?]; [lia|done].
Qed.

(** What one unit changes. *)
Lemma spill_one_step cfg turn st u :
  let st' := spill_one cfg turn st u in
  out_spilled (ss_out st') = true /\
  out_task (ss_out st') = out_task (ss_out st) /\ out_origin (ss_out st') = out_origin (ss_out st) /\
  out_in_process_waker (ss_out st') = out_in_process_waker (ss_out st) /\
  length (blocks_of (out_content (ss_out st'))) = length (blocks_of (out_content (ss_out st))) /\
  (forall i, i <> u.1.1 -> blocks_of (out_content (ss_out st')) !! i = blocks_of (out_content (ss_out st)) !! i) /\
  (exists stored : bool,
     length (out_artifact_handles (ss_out st')) =
       (length (out_artifact_handles (ss_out st)) + if stored then 1 else 0)%nat /\
     length (ss_warnings st') = (length (ss_warnings st) + if stored then 0 else 1)%nat /\
     out_is_error (ss_out st') = out_is_error (ss_out st) || negb stored).
Proof.
  destruct u as [[i text] mime]. simpl. unfold spill_unit.
  assert (Hpb : forall v c, length (blocks_of (put_back i v c)) = length (blocks_of c) /\
    forall j, j <> i -> blocks_of (put_back i v c) !! j = blocks_of c !! j).
  { intros v [bs|w]; simpl; [|done]. split; [by rewrite length_insert|]. intros j Hj. by rewrite list_lookup_insert_ne. }
  destruct (put (ss_store st) text mime) as [store [handle|e]]; simpl;
    (split_and!; [done..|apply Hpb|apply Hpb|]).
  - exists true. rewrite length_app, orb_false_r. by split_and!; simpl; lia || done.
  - exists false. rewrite length_app, orb_true_r. by split_and!; simpl; lia || done.
Qed.

Lemma spill_fold cfg turn st us :
  let st' := foldl (spill_one cfg turn) st us in
  out_spilled (ss_out st') = out_spilled (ss_out st) || negb (bool_decide (us = [])) /\
  out_task (ss_out st') = out_task (ss_out st) /\ out_origin (ss_out st') = out_origin (ss_out st) /\
  out_in_process_waker (ss_out st') = out_in_process_waker (ss_out st) /\
  length (blocks_of (out_content (ss_out st'))) = length (blocks_of (out_content (ss_out st))) /\
  (forall i, (forall u, u ∈ us -> u.1.1 <> i) ->
     blocks_of (out_content (ss_out st')) !! i = blocks_of (out_content (ss_out st)) !! i) /\
  (exists failed, (failed <= length us)%nat /\
     length (out_artifact_handles (ss_out st')) = (length (out_artifact_handles (ss_out st)) + (length us - failed))%nat /\
     length (ss_warnings st') = (length (ss_warnings st) + failed)%nat /\
     out_is_error (ss_out st') = out_is_error (ss_out st) || (0 <? failed)%nat).
Proof.
  revert st. induction us as [|u us IH]; intros st.
  - simpl. rewrite orb_false_r. split_and!; try done. exists 0. cbn. rewrite orb_false_r. split_and!; done || lia.
  - cbn [foldl]. destruct (spill_one_step cfg turn st u) as (H1 & H2 & H3 & H4 & H5 & H6 & b & H7 & H8 & H9).
    destruct (IH (spill_one cfg turn st u)) as (I1 & I2 & I3 & I4 & I5 & I6 & f & I7 & I8 & I9 & I10).
    split_and!.
    + rewrite I1, H1. simpl. by rewrite orb_true_r.
    + by rewrite I2.
    + by rewrite I3.
    + by rewrite I4.
    + by rewrite I5.
    + intros i Hi. rewrite I6, H6; [done| |]; intros; [|apply Hi; set_solver].
      intros ->. by apply (Hi u); [set_solver|].
    + exists (if b then f else S f). rewrite I8, I9, I10, H7, H8, H9. cbn [length].
      destruct b; cbn [negb]; rewrite ?orb_false_r, ?orb_true_r; split_and!; done || lia.
Qed.

(** a task result is never spilled; otherwise exactly the units
    over the cap are replaced (every other block stands), [spilled] is set iff there was one, each
    stored unit adds its handle and each refused one makes the result an error and adds a
    warning, and status, task and origin are kept. *)
Theorem spill_replaces_exactly_over_cap (out : ToolOutput) (cfg : SpillConfig) (store : St) (turn : N) :
  let st' := apply out cfg store turn in
  let units := spill_units (sc_cap_bytes cfg) (out_content out) in
  (is_Some (out_task out) -> ss_out st' = out /\ ss_warnings st' = [] /\ ss_store st' = store) /\
  (out_task out = None ->
     out_spilled (ss_out st') = out_spilled out || negb (bool_decide (units = [])) /\
     (forall i b, blocks_of (out_content out) !! i = Some b ->
        match b with Text text => (str_len text <= sc_cap_bytes cfg)%N | _ => True end ->
        blocks_of (out_content (ss_out st')) !! i = Some b) /\
     length (out_artifact_handles (ss_out st')) =
       (length (out_artifact_handles out) + (length units - length (ss_warnings st')))%nat /\
     (length (ss_warnings st') <= length units)%nat /\
     out_is_error (ss_out st') = out_is_error out || (0 <? length (ss_warnings st'))%nat /\
     out_task (ss_out st') = None /\ out_origin (ss_out st') = out_origin out).
Proof.
  unfold apply. split.
  - intros [t Ht]. by rewrite Ht.
  - intros Ht. rewrite Ht.
    destruct (spill_fold cfg turn {| ss_store := store; ss_out := out; ss_ref := None; ss_warnings := [] |}
      (spill_units (sc_cap_bytes cfg) (out_content out))) as (H1 & H2 & H3 & _ & _ & H6 & f & H7 & H8 & H9 & H10).
    cbn [ss_out ss_warnings length] in *. rewrite Nat.add_0_l in H9. rewrite H9. split_and!; try done; [|by rewrite H2].
    intros i b Hb Hcap. rewrite H6; [done|]. intros [[j text] mime] Hu <-. simpl in *.
    destruct (out_content out) as [bs|v]; simpl in *; [|done].
    apply over_cap_units in Hu as (k & t & [= -> -> _] & Hk & Hlt). rewrite Hb in Hk. injection Hk as ->. lia.
Qed.
End apply_facts.

(** ** Witness *)

Definition toy_json : JsonText := {|
  to_string v := match @canonical_json_value toy_platform v with Ok s => s | Err _ => "null" end;
  from_str_json s := if decide (s = "null") then Ok JNull else Err "not null"
|}.
Definition wit_output : ToolOutput :=
  {| out_content := Blocks [Text "short"; Text "a long text that is over the cap"]; out_is_error := false;
     out_artifact_handles := []; out_spilled := false; out_task := None; out_origin := OInvoke;
     out_in_process_waker := false |}.
Definition wit_spill_cfg : SpillConfig := {| sc_cap_bytes := 8; sc_head_bytes := 4; sc_tail_bytes := 3 |}.
Lemma spill_replaces_exactly_over_cap_witness :
  let st' := @apply toy_platform toy_json unit (@noop_store toy_platform) wit_output wit_spill_cfg tt 1 in
  out_spilled (ss_out st') = true /\ length (out_artifact_handles (ss_out st')) = 1.
Proof.
  destruct (@spill_replaces_exactly_over_cap toy_platform toy_json unit (@noop_store toy_platform)
    wit_output wit_spill_cfg tt 1) as [_ Hs].
  destruct (Hs eq_refl) as (H1 & _ & H3 & _). split.
  - rewrite H1. reflexivity.
  - rewrite H3. reflexivity.
Defined.
