(* ===== verification/Log.v ===== *)
(** [log/mod.rs] and [log/memory.rs]: the reader over a snapshot of lines (the effective log, the
    latest checkpoint, restoring), the writer side shared by both logs (redaction pass, [seq] and
    [ts], the [late_redaction] follow-up), the in-memory log, and the interface the kernel uses. *)

From Stdlib Require Import Floats.SpecFloat.
From S2P Require Import Prelude Ord Str Capability Json Codec Data State Event Redact.

Open Scope string_scope.
Open Scope list_scope.

(** [log/memory.rs: Line]. *)
Record Line : Type := { ln_event : Event; ln_raw : json }.

Inductive LogError : Type :=
  | LogIo (msg : string)
  | LogMalformed (line : N) (source : string)
  | SeqOrder (found expected : N)
  | WrongSession (found expected : SessionId)
  | NewerSchema (found supported : N)
  | LogClosed.

Inductive RestoreError : Type :=
  | RestoreNotFound (h : string)
  | HashMismatch (recorded computed : string)
  | RestoreMigration (e : MigrationError)
  | RestoreLog (e : LogError).

(** Wall-clock readings, as [now_rfc3339_ms] renders them: the text obtained when the line with a
    given [seq] is staged.  Nothing branches on it. *)
Class Clock : Type := now : N -> string.

(** * Reader (log/mod.rs: reader) *)

Definition le_range (a b : N * N) : bool := (a.1 <? b.1)%N || ((a.1 =? b.1)%N && (a.2 <=? b.2)%N).
Fixpoint insert_range (r : N * N) (l : list (N * N)) : list (N * N) :=
  match l with [] => [r] | r' :: l' => if le_range r r' then r :: l else r' :: insert_range r l' end.

Definition range_of (e : Event) : option (N * N) :=
  match ev_body e with
  | EvRecovered p => (fun r => (srange_from r, srange_to r)) <$> recov_discarded_seq p
  | _ => None
  end.
(** The voided ranges, sorted ([sort_unstable] on pairs). *)
Definition discarded_seqs (events : list Event) : list (N * N) := foldr insert_range [] (omap range_of events).
Definition is_discarded (ranges : list (N * N)) (seq : N) : bool :=
  existsb (fun r => (r.1 <=? seq)%N && (seq <=? r.2)%N) ranges.
Definition effective (events : list Event) : list Event :=
  List.filter (fun e => negb (is_discarded (discarded_seqs events) (ev_seq e))) events.

Definition as_checkpoint (e : Event) : option (Event * CheckpointPayload) :=
  match ev_body e with EvCheckpoint c => Some (e, c) | _ => None end.
Definition latest_checkpoint (eff : list Event) : option (Event * CheckpointPayload) :=
  head (omap as_checkpoint (rev eff)).

Definition checkpoint_hash_of (e : Event) : option string :=
  match ev_body e with
  | EvCheckpoint c => Some (ckpt_state_hash c)
  | EvUnknown k payload =>
      if decide (k = "checkpoint") then s ← (jget "state_hash" payload ≫= as_str); ok (parse_hash s) else None
  | _ => None
  end.

(** The last effective checkpoint, with the wanted hash if one is given. *)
Definition find_checkpoint (want : option string) (eff : list Event) : option (N * string) :=
  head (omap (fun e => h ← checkpoint_hash_of e;
                       if match want with None => true | Some w => bool_decide (w = h) end
                       then Some (ev_seq e, h) else None) (rev eff)).

Section restore.
Context `{Platform}.
Definition restore_from (eff : list Event) (raw_payload_of : N -> option json) (checkpoint_hash : option string)
    (migrations : MigrationRegistry) : result RestoreError (option Migrated) :=
  match find_checkpoint checkpoint_hash eff with
  | None => match checkpoint_hash with Some h => Err (RestoreNotFound h) | None => Ok None end
  | Some (seq, recorded) =>
      raw ← ok_or (RestoreNotFound recorded) (raw_payload_of seq);
      raw_state ← ok_or (RestoreNotFound recorded) (jget "state" raw);
      computed ← map_err (fun _ => RestoreLog (LogIo "cannot hash checkpoint state")) (state_hash_of_raw raw_state);
      if decide (computed = recorded) then
        Some <$> map_err RestoreMigration (migrate_to_current migrations raw_state)
      else Err (HashMismatch recorded computed)
  end.
End restore.

Definition ends_cleanly (eff : list Event) : bool :=
  match ev_body <$> last eff with
  | Some (EvSuspended _) | Some (EvSessionEnded _) | Some (EvSessionFailed _) => true
  | Some (EvCheckpoint c) => bool_decide (ckpt_session_status c = Idle)
  | Some (EvUnknown k payload) =>
      bool_decide (k = "checkpoint") && bool_decide (jget "session_status" payload ≫= as_str = Some "idle")
  | _ => false
  end.

(** ** Snapshots (log/memory.rs: SnapshotReader) *)

Record SnapshotReader : Type := { sn_lines : list Line; sn_effective : list Event }.
Definition snapshot (lines : list Line) : SnapshotReader :=
  {| sn_lines := lines; sn_effective := effective (ln_event <$> lines) |}.
Definition raw_payload (r : SnapshotReader) (seq : N) : option json :=
  ln_raw <$> head (List.filter (fun l => (ev_seq (ln_event l) =? seq)%N) (sn_lines r)).
Definition restore `{Platform} (r : SnapshotReader) (checkpoint_hash : string) (migrations : MigrationRegistry) :
    result RestoreError Migrated :=
  o ← restore_from (sn_effective r) (raw_payload r) (Some checkpoint_hash) migrations;
  ok_or (RestoreNotFound checkpoint_hash) o.
Definition restore_latest `{Platform} (r : SnapshotReader) (migrations : MigrationRegistry) :
    result RestoreError (option Migrated) :=
  restore_from (sn_effective r) (raw_payload r) None migrations.

(** * Writer (log/mod.rs: writer) *)

(** [log/memory.rs: writer_redact]. *)
Definition writer_redact (r : Redactor) (body : EventBody) : result LogError (EventBody * json * N) :=
  let '(payload, n) := redact_value r (payload_value body) in
  if (n =? 0)%N then Ok (body, payload, 0%N)
  else redacted ← ok_or (LogIo "redacted payload does not deserialize") (dec_body (kind body) payload);
       mret (redacted, payload, n).

Record Staged : Type := { stg_event : Event; stg_lines : list Line }.

Definition late_redaction_warning (offending : Event) (replacements : N) : EventBody :=
  let turn := default 0%N (jget "turn" (payload_value (ev_body offending)) ≫= as_u64) in
  EvWarning (warning_kernel turn "late_redaction"
    "writer-side redaction changed a payload; an ingress path was missed"
    (Some (jobj [("seq", JNum (PosInt (ev_seq offending))); ("replacements", JNum (PosInt replacements))]))).

Definition mk_event `{Clock} (session_id : SessionId) (seq : N) (body : EventBody) : Event :=
  {| ev_seq := seq; ev_ts := now seq; ev_session_id := session_id; ev_body := body |}.

(** [writer::stage]. *)
Definition stage `{Clock} (session_id : SessionId) (next_seq : N) (r : Redactor) (body : EventBody) :
    result LogError Staged :=
  x ← writer_redact r body;
  let '(body, raw, late) := x in
  let event := mk_event session_id next_seq body in
  let first := {| ln_event := event; ln_raw := raw |} in
  let warn := late_redaction_warning event late in
  mret {| stg_event := event;
          stg_lines := first :: (if (0 <? late)%N
            then [{| ln_event := mk_event session_id (next_seq + 1) warn; ln_raw := payload_value warn |}]
            else []) |}.

Definition needs_fsync (body : EventBody) : bool :=
  match body with
  | EvCheckpoint _ | EvSuspended _ | EvSessionEnded _ | EvSessionFailed _ => true
  | _ => false
  end.

(** * The interface, and the in-memory log *)

(** [EventLog]: the state of a log, its lines, and [append]. *)
Class EventLog (L : Type) : Type := {
  log_session : L -> SessionId;
  log_redactor : L -> Redactor;
  log_lines : L -> list Line;
  log_append : EventBody -> L -> L * result LogError Event
}.
Definition next_seq {L} `{EventLog L} (l : L) : N := N.of_nat (length (log_lines l)).
Definition last_seq {L} `{EventLog L} (l : L) : option N := (fun x => ev_seq (ln_event x)) <$> last (log_lines l).
Definition events {L} `{EventLog L} (l : L) : list Event := ln_event <$> log_lines l.
Definition reader {L} `{EventLog L} (l : L) : SnapshotReader := snapshot (log_lines l).

(** What the kernel relies on: a successful append adds exactly the staged lines at the end, a
    failed one adds none. *)
Class EventLogLaws (L : Type) `{EventLog L, Clock} : Prop := {
  append_ok body l l' e : log_append body l = (l', Ok e) ->
    exists s, stage (log_session l) (next_seq l) (log_redactor l) body = Ok s /\ e = stg_event s /\
      log_lines l' = log_lines l ++ stg_lines s /\
      log_session l' = log_session l /\ log_redactor l' = log_redactor l;
  append_err body l l' x : log_append body l = (l', Err x) ->
    log_lines l' = log_lines l /\ log_session l' = log_session l /\ log_redactor l' = log_redactor l
}.

Record MemoryEventLog : Type := { mem_session_id : SessionId; mem_redactor : Redactor; mem_lines : list Line }.
Definition memory_new (session_id : SessionId) (r : Redactor) : MemoryEventLog :=
  {| mem_session_id := session_id; mem_redactor := r; mem_lines := [] |}.
(** [MemoryEventLog::from_events]. *)
Definition memory_from_events (session_id : SessionId) (r : Redactor) (evs : list Event) : MemoryEventLog :=
  {| mem_session_id := session_id; mem_redactor := r;
     mem_lines := (fun e => {| ln_event := e; ln_raw := payload_value (ev_body e) |}) <$> evs |}.
Definition memory_append `{Clock} (body : EventBody) (l : MemoryEventLog) : MemoryEventLog * result LogError Event :=
  match stage (mem_session_id l) (N.of_nat (length (mem_lines l))) (mem_redactor l) body with
  | Err e => (l, Err e)
  | Ok s => ({| mem_session_id := mem_session_id l; mem_redactor := mem_redactor l;
                mem_lines := mem_lines l ++ stg_lines s |}, Ok (stg_event s))
  end.
#[export] Instance memory_log `{Clock} : EventLog MemoryEventLog := {|
  log_session := mem_session_id; log_redactor := mem_redactor; log_lines := mem_lines; log_append := memory_append
|}.
#[export] Instance memory_log_laws `{Clock} : EventLogLaws MemoryEventLog.
Proof.
  split; intros body l l' x; simpl; unfold memory_append, next_seq; simpl; destruct (stage _ _ _ _) eqn:Hs;
    intros [= <- <-]; [|done]. eauto 10.
Qed.

(** * Facts *)

Lemma elem_of_insert_range r l x : x ∈ insert_range r l <-> x = r \/ x ∈ l.
Proof. induction l as [|y l IH]; simpl; [set_solver|]. destruct (le_range r y); set_solver. Qed.
Lemma elem_of_discarded events r : r ∈ discarded_seqs events <-> r ∈ omap range_of events.
Proof.
  unfold discarded_seqs. induction (omap range_of events) as [|y l IH]; simpl; [done|].
  rewrite elem_of_insert_range, IH. set_solver.
Qed.
Lemma is_discarded_spec ranges seq :
  is_discarded ranges seq = true <-> exists r, r ∈ ranges /\ (r.1 <= seq <= r.2)%N.
Proof.
  unfold is_discarded. rewrite existsb_exists. split; intros (r & Hr & Hb); exists r;
    rewrite <- list_elem_of_In in *; (split; [done|]).
  - apply andb_true_iff in Hb as [?%N.leb_le ?%N.leb_le]. done.
  - apply andb_true_iff. by rewrite !N.leb_le.
Qed.

(** Seqs are consecutive from 0. *)
Definition consecutive (events : list Event) : Prop := forall i e, events !! i = Some e -> ev_seq e = N.of_nat i.

Lemma stage_seqs `{Clock} sid n r body s : stage sid n r body = Ok s ->
  forall i l, stg_lines s !! i = Some l -> ev_seq (ln_event l) = (n + N.of_nat i)%N.
Proof.
  unfold stage. intros (x & Hx & Hs)%result_bind_Ok. destruct x as [[b raw] late]. injection Hs as <-. simpl.
  intros [|[|i]] l; simpl.
  - intros [= <-]. simpl. lia.
  - destruct (0 <? late)%N; simpl; [|done]. intros [= <-]. simpl. lia.
  - destruct (0 <? late)%N; simpl; by destruct i.
Qed.

Lemma consecutive_append `{EventLogLaws L} body l l' e :
  consecutive (events l) -> log_append body l = (l', Ok e) -> consecutive (events l').
Proof.
  intros Hc Ha. destruct (append_ok _ _ _ _ Ha) as (s & Hs & _ & Hl & _). intros i x. unfold events.
  rewrite Hl, fmap_app. intros [Hi|[Hlen Hi]]%lookup_app_Some; [by apply Hc|].
  rewrite list_lookup_fmap in Hi. destruct (stg_lines s !! (i - _)) as [ln|] eqn:Hln; [|discriminate Hi].
  injection Hi as <-. rewrite (stage_seqs _ _ _ _ _ Hs _ _ Hln). unfold next_seq.
  rewrite length_fmap in *. lia.
Qed.

Lemma effective_elem evs e :
  e ∈ effective evs <-> e ∈ evs /\ forall r, r ∈ omap range_of evs -> ~ (r.1 <= ev_seq e <= r.2)%N.
Proof.
  unfold effective. rewrite !list_elem_of_In, List.filter_In, <- !list_elem_of_In, negb_true_iff.
  split; intros [Hin Hd]; (split; [done|]).
  - intros r Hr Hle. apply not_true_iff_false in Hd. apply Hd, is_discarded_spec. exists r.
    by rewrite elem_of_discarded.
  - apply not_true_iff_false. intros (r & Hr & Hle)%is_discarded_spec. rewrite elem_of_discarded in Hr.
    by apply (Hd r).
Qed.

Lemma filter_ext_in' {A} (f g : A -> bool) l : (forall x, x ∈ l -> f x = g x) -> List.filter f l = List.filter g l.
Proof.
  induction l as [|x l IH]; intros H; [done|]. simpl. rewrite (H x), IH; [done| |constructor].
  intros y Hy. apply H. by constructor.
Qed.

Lemma head_omap_filter {A B} (g : A -> option B) (f : A -> bool) l x :
  head (omap g l) = Some x ->
  exists y, y ∈ l /\ g y = Some x /\ (f y = true -> head (omap g (List.filter f l)) = Some x).
Proof.
  induction l as [|a l IH]; simpl; [done|]. destruct (g a) as [b|] eqn:Hg; simpl.
  - intros [= ->]. exists a. split_and!; [constructor|done|]. intros ->. simpl. by rewrite Hg.
  - intros Hx. destruct (IH Hx) as (y & Hy & Hgy & Hf). exists y. split_and!; [by constructor|done|].
    intros Hfy. destruct (f a); [simpl; rewrite Hg|]; by apply Hf.
Qed.
Lemma head_omap_split {A B} (g : A -> option B) l x :
  head (omap g l) = Some x <-> exists pre y post, l = pre ++ y :: post /\ g y = Some x /\ Forall (fun z => g z = None) pre.
Proof.
  split.
  - induction l as [|a l IH]; simpl; [done|]. destruct (g a) as [b|] eqn:Hg; simpl.
    + intros [= ->]. by exists [], a, l.
    + intros (pre & y & post & -> & Hy & Hp)%IH. exists (a :: pre), y, post. by split_and!; [| |constructor].
  - intros (pre & y & post & -> & Hy & Hp). induction Hp as [|z pre Hz _ IH]; simpl; [by rewrite Hy|by rewrite Hz].
Qed.

Lemma effective_recovered evs rec p r :
  consecutive evs -> ev_body rec = EvRecovered p -> recov_discarded_seq p = Some r ->
  (srange_to r + 1 = N.of_nat (length evs))%N -> ev_seq rec = N.of_nat (length evs) ->
  (forall x, x ∈ omap range_of evs -> (x.2 < N.of_nat (length evs))%N) ->
  effective (evs ++ [rec]) = List.filter (fun e => (ev_seq e <? srange_from r)%N) (effective evs) ++ [rec].
Proof.
  intros Hc Hb Hr Hto Hs Hold. unfold effective at 1. rewrite List.filter_app.
  assert (Hrange : omap range_of (evs ++ [rec]) = omap range_of evs ++ [(srange_from r, srange_to r)]).
  { rewrite omap_app. simpl. unfold range_of at 2. rewrite Hb, Hr. done. }
  assert (Hd : forall s, is_discarded (discarded_seqs (evs ++ [rec])) s =
    is_discarded (discarded_seqs evs) s || ((srange_from r <=? s)%N && (s <=? srange_to r)%N)).
  { intros s. apply eq_true_iff_eq. rewrite orb_true_iff, !is_discarded_spec, andb_true_iff, !N.leb_le.
    setoid_rewrite elem_of_discarded. rewrite Hrange. setoid_rewrite elem_of_app.
    setoid_rewrite list_elem_of_singleton. naive_solver. }
  f_equal.
  - unfold effective.
    assert (Hlt : forall e, e ∈ evs -> (ev_seq e <= srange_to r)%N).
    { intros e (i & Hi)%list_elem_of_lookup. rewrite (Hc _ _ Hi). apply lookup_lt_Some in Hi. lia. }
    revert Hlt. generalize evs at 1 3 5. intros l Hlt. induction l as [|e l IH]; [done|]. simpl. rewrite Hd.
    assert ((ev_seq e <=? srange_to r)%N = true) as -> by (apply N.leb_le, Hlt; constructor).
    rewrite andb_true_r, IH by (intros; apply Hlt; by constructor).
    destruct (is_discarded (discarded_seqs evs) (ev_seq e)); simpl; [done|].
    destruct (N.leb_spec (srange_from r) (ev_seq e)), (N.ltb_spec (ev_seq e) (srange_from r)); simpl; done || lia.
  - simpl. rewrite Hd, Hs.
    assert (is_discarded (discarded_seqs evs) (N.of_nat (length evs)) = false) as ->.
    { apply not_true_iff_false. intros (x & Hx & Hle)%is_discarded_spec. rewrite elem_of_discarded in Hx.
      specialize (Hold _ Hx). lia. }
    assert ((N.of_nat (length evs) <=? srange_to r)%N = false) as -> by (apply N.leb_gt; lia).
    by rewrite andb_false_r.
Qed.

(** after a [recovered] line whose range runs from just past a checkpoint
    to the last line, the effective log is what was effective up to that checkpoint followed by the
    [recovered] line itself; if the checkpoint was the latest effective one it still is. *)
Theorem recovery_voids_exactly (evs : list Event) (rec : Event) (p : RecoveredPayload) (r : SeqRange) :
  consecutive evs -> ev_body rec = EvRecovered p -> recov_discarded_seq p = Some r ->
  (srange_to r + 1 = N.of_nat (length evs))%N -> ev_seq rec = N.of_nat (length evs) ->
  (forall x, x ∈ omap range_of evs -> (x.2 < N.of_nat (length evs))%N) ->
  effective (evs ++ [rec]) = List.filter (fun e => (ev_seq e <? srange_from r)%N) (effective evs) ++ [rec] /\
  (forall e c, latest_checkpoint (effective evs) = Some (e, c) -> (ev_seq e < srange_from r)%N ->
     latest_checkpoint (effective (evs ++ [rec])) = Some (e, c)).
Proof.
  intros Hc Hb Hr Hto Hs Hold. pose proof (effective_recovered _ _ _ _ Hc Hb Hr Hto Hs Hold) as He.
  split; [done|]. intros e c Hl Hlt. rewrite He. unfold latest_checkpoint in *. rewrite rev_app_distr. simpl.
  unfold as_checkpoint at 1. rewrite Hb, <- List.filter_rev.
  destruct (head_omap_filter as_checkpoint (fun e => (ev_seq e <? srange_from r)%N) _ _ Hl) as (y & _ & Hy & Hf).
  apply Hf. unfold as_checkpoint in Hy. destruct (ev_body y); simplify_eq. by apply N.ltb_lt.
Qed.

Section log_claims.
Context {HP : Platform} {HC : Clock}.

(** on any log that keeps the interface's laws, [append] is
    append-only, keeps the seqs consecutive from 0, gives the written event the next seq, and
    writes no registered secret in its payload; a failed append leaves the log as it was. *)
Theorem append_orders_and_redacts {L} `{EventLogLaws L} (body : EventBody) (l : L) :
  consecutive (events l) ->
  consecutive (events (log_append body l).1) /\
  match (log_append body l).2 with
  | Ok e => exists raw more, log_lines (log_append body l).1 = log_lines l ++ {| ln_event := e; ln_raw := raw |} :: more /\
      ev_seq e = next_seq l /\ ev_session_id e = log_session l /\ length more <= 1 /\
      (forall k, registered_ok (log_redactor l) -> k ∈ known (log_redactor l) -> clean_secret (log_redactor l) k ->
         Forall (fun s => contains k s = false) (strings_of raw))
  | Err _ => log_lines (log_append body l).1 = log_lines l
  end.
Proof.
  intros Hc. destruct (log_append body l) as [l' [e|x]] eqn:Ha; simpl.
  - split; [by eapply consecutive_append|]. destruct (append_ok _ _ _ _ Ha) as (s & Hs & -> & Hl & _).
    unfold stage, writer_redact in Hs. pose proof (redact_value_strings (log_redactor l) (payload_value body)) as Hr.
    destruct (redact_value (log_redactor l) (payload_value body)) as [payload n] eqn:Hrv. simpl in Hr.
    assert (Hst : exists b late, s = {| stg_event := mk_event (log_session l) (next_seq l) b;
      stg_lines := {| ln_event := mk_event (log_session l) (next_seq l) b; ln_raw := payload |} ::
        (if (0 <? late)%N then [{| ln_event := mk_event (log_session l) (next_seq l + 1)
           (late_redaction_warning (mk_event (log_session l) (next_seq l) b) late);
           ln_raw := payload_value (late_redaction_warning (mk_event (log_session l) (next_seq l) b) late) |}] else []) |}).
    { destruct (n =? 0)%N; simpl in Hs; [injection Hs as <-; by eexists _, 0%N|].
      destruct (dec_body (kind body) payload) as [b|]; simpl in Hs; [|done]. injection Hs as <-. by eexists b, n. }
    destruct Hst as (b & late & ->). simpl in Hl. rewrite Hl. eexists _, _. split_and!; [done|done|done| |].
    + by destruct (0 <? late)%N; simpl; lia.
    + intros k ???. by apply Hr.
  - destruct (append_err _ _ _ _ Ha) as (Hl & _). unfold events in *. by rewrite Hl.
Qed.

Lemma find_checkpoint_spec want eff seq h : find_checkpoint want eff = Some (seq, h) ->
  exists pre e post, eff = pre ++ e :: post /\ ev_seq e = seq /\ checkpoint_hash_of e = Some h /\
    match want with None => True | Some w => w = h end /\
    Forall (fun e' => match want with
                      | None => checkpoint_hash_of e' = None
                      | Some w => checkpoint_hash_of e' <> Some w
                      end) post.
Proof.
  intros (pre & y & post & Hrev & Hy & Hp)%head_omap_split.
  exists (rev post), y, (rev pre). assert (eff = rev post ++ y :: rev pre) as ->.
  { rewrite <- (rev_involutive eff), Hrev, rev_app_distr. simpl. by rewrite <- app_assoc. }
  destruct (checkpoint_hash_of y) as [h'|] eqn:Hh; [|done]. simpl in Hy.
  assert (h' = h /\ ev_seq y = seq /\ match want with None => True | Some w => w = h end) as (-> & <- & Hw).
  { destruct want as [w|]; [case_bool_decide|]; by simplify_eq. }
  split_and!; [done|done|done|done|].
  - apply Forall_forall. intros z Hz. rewrite Forall_forall in Hp.
    assert (z ∈ pre) as Hz' by (rewrite list_elem_of_In in Hz |- *; by apply in_rev).
    specialize (Hp _ Hz'). simpl in Hp. destruct (checkpoint_hash_of z) as [hz|]; [|by destruct want].
    simpl in Hp. destruct want as [w|]; [|done]. case_bool_decide; [done|]. congruence.
Qed.
End log_claims.

Section restore_claims.
Context {HP : Platform} {HC : Clock}.

(** [restore] answers with the latest effective checkpoint recorded
    under the wanted hash, only after the raw state written in its line was hashed to that very
    hash, and migrates that raw state; with no such checkpoint it is [NotFound]. *)
Theorem restore_verifies_hash (lines : list Line) (h : string) (migrations : MigrationRegistry) :
  (forall m, restore (snapshot lines) h migrations = Ok m ->
     exists pre e post raw raw_state,
       effective (ln_event <$> lines) = pre ++ e :: post /\ checkpoint_hash_of e = Some h /\
       Forall (fun e' => checkpoint_hash_of e' <> Some h) post /\
       raw_payload (snapshot lines) (ev_seq e) = Some raw /\ jget "state" raw = Some raw_state /\
       state_hash_of_raw raw_state = Ok h /\ migrate_to_current migrations raw_state = Ok m) /\
  (Forall (fun e => checkpoint_hash_of e <> Some h) (effective (ln_event <$> lines)) ->
     restore (snapshot lines) h migrations = Err (RestoreNotFound h)).
Proof.
  split.
  - intros m Hr. unfold restore in Hr. apply result_bind_Ok in Hr as (o & Hr & Ho).
    unfold restore_from in Hr. destruct (find_checkpoint (Some h) (sn_effective (snapshot lines))) as [[seq h']|] eqn:Hf;
      [|done]. destruct (find_checkpoint_spec _ _ _ _ Hf) as (pre & e & post & He & <- & Hh & <- & Hp).
    apply result_bind_Ok in Hr as (raw & Hraw & Hr). apply result_bind_Ok in Hr as (rs & Hrs & Hr).
    apply result_bind_Ok in Hr as (computed & Hcomp & Hr). case_decide as Hd; [subst computed|done].
    exists pre, e, post, raw, rs. split_and!; try done.
    + by apply ok_or_Ok in Hraw.
    + by apply ok_or_Ok in Hrs.
    + by apply map_err_Ok in Hcomp.
    + unfold fmap, result_fmap in Hr. destruct (migrate_to_current migrations rs); [|done].
      injection Hr as <-. by injection Ho as ->.
  - intros Hn. unfold restore, restore_from.
    destruct (find_checkpoint (Some h) (sn_effective (snapshot lines))) as [[seq h']|] eqn:Hf; [|done].
    destruct (find_checkpoint_spec _ _ _ _ Hf) as (pre & e & post & He & <- & Hh & <- & _).
    simpl in He. rewrite He in Hn. apply Forall_app in Hn as [_ [Hn _]%Forall_cons]. done.
Qed.

Lemma raw_version_enc s : valid State_codec s -> raw_version (enc State_codec s) = Some (st_schema_version s).
Proof.
  intros (Hv & _). cbn in Hv. unfold raw_version.
  assert (jget "schema_version" (enc State_codec s) = Some (enc cu32 (st_schema_version s))) as ->.
  { cbn [enc State_codec struct fenc State_fields fiso fpair freq fopt app fst snd].
    generalize (enc_opt cstr (st_memory s)), (enc (clist Message_codec) (st_messages s)),
      (enc_opt cstr (st_notebook_path s)), (enc (cmap Task_codec) (st_pending_tasks s)),
      (enc ActiveProfiles_codec (st_profiles s)), (enc cu32 (st_schema_version s)),
      (enc SessionStatus_codec (st_session_status s)), (enc cu64 (st_turn s)). intros. reflexivity. }
  simpl. apply N.ltb_lt in Hv. by rewrite Hv.
Qed.
Lemma checkpoint_state_member p :
  jget "state" (enc CheckpointPayload_codec p) = Some (enc State_codec (ckpt_state p)).
Proof.
  cbn [enc CheckpointPayload_codec struct fenc CheckpointPayload_fields fiso fpair freq app fst snd].
  generalize (enc State_codec (ckpt_state p)), (enc cu64 (ckpt_turn p)), (enc CheckpointReason_codec (ckpt_reason p)),
    (enc SessionStatus_codec (ckpt_session_status p)), (enc cstr (ckpt_state_hash p)). intros. reflexivity.
Qed.

Lemma migrate_current s migrations : valid State_codec s -> st_schema_version s = STATE_SCHEMA_VERSION ->
  migrate_to_current migrations (enc State_codec s) = Ok {| migrated_state := s; migrated := None |}.
Proof.
  intros Hv Hs. apply migrate_to_same; [by rewrite raw_version_enc, Hs|by apply dec_enc].
Qed.

Lemma raw_payload_nth (lines : list Line) i l :
  consecutive (ln_event <$> lines) -> lines !! i = Some l ->
  raw_payload (snapshot lines) (N.of_nat i) = Some (ln_raw l).
Proof.
  intros Hc Hi. unfold raw_payload. simpl.
  assert (H1 : forall k ls, (forall j x, ls !! j = Some x -> ev_seq (ln_event x) = N.of_nat (k + j)) ->
    (k <= i)%nat -> ls !! (i - k) = Some l ->
    head (List.filter (fun l => (ev_seq (ln_event l) =? N.of_nat i)%N) ls) = Some l).
  { intros k ls. revert k. induction ls as [|x ls IH]; intros k Hk Hle Hl; [done|]. simpl.
    rewrite (Hk 0 x), Nat.add_0_r by done. destruct (decide (k = i)) as [->|Hne].
    - rewrite N.eqb_refl. rewrite Nat.sub_diag in Hl. by injection Hl as ->.
    - assert ((N.of_nat k =? N.of_nat i)%N = false) as -> by (apply N.eqb_neq; lia).
      apply (IH (S k)); [|lia|].
      + intros j y Hy. rewrite (Hk (S j) y) by done. lia.
      + by replace (i - k) with (S (i - S k)) in Hl by lia. }
  rewrite (H1 0 lines); [done| |lia|by rewrite Nat.sub_0_r].
  intros j x Hx. apply (Hc j). rewrite list_lookup_fmap. unfold lookup in Hx |- *. by rewrite Hx.
Qed.

Lemma effective_snoc evs e :
  range_of e = None -> (forall x, x ∈ omap range_of evs -> (x.2 < ev_seq e)%N) ->
  effective (evs ++ [e]) = effective evs ++ [e].
Proof.
  intros Hr Hx. unfold effective. assert (Ho : omap range_of (evs ++ [e]) = omap range_of evs).
  { rewrite omap_app. simpl. rewrite Hr. by rewrite app_nil_r. }
  unfold discarded_seqs. rewrite Ho, List.filter_app. f_equal. simpl.
  change (foldr insert_range [] (omap range_of evs)) with (discarded_seqs evs).
  assert (is_discarded (discarded_seqs evs) (ev_seq e) = false) as ->; [|done].
  apply not_true_iff_false. intros (r & Hin & Hle)%is_discarded_spec. rewrite elem_of_discarded in Hin.
  specialize (Hx _ Hin). lia.
Qed.

(** C28: a checkpoint the kernel appended is restored, by its hash, to the very state it holds, on
    any lawful log: nothing is lost between writing the line, reading it back as raw JSON, hashing
    it again and deserializing it.  This needs a log numbered from 0 whose earlier [recovered]
    lines void only lines it has, a state of the current schema whose values fit their types and
    whose recorded hash is its hash, and a log redactor that finds nothing to replace in the
    checkpoint's payload: [append] redacts the payload without hashing it again, so that a checkpoint it does change
    is refused ([redacted_checkpoint_refused]). *)
Theorem checkpoint_restores {L} `{EventLogLaws L} (l l' : L) (p : CheckpointPayload) (e : Event)
    (migrations : MigrationRegistry) :
  consecutive (events l) -> (forall x, x ∈ omap range_of (events l) -> (x.2 < next_seq l)%N) ->
  log_append (EvCheckpoint p) l = (l', Ok e) ->
  (redact_value (log_redactor l) (enc CheckpointPayload_codec p)).2 = 0%N ->
  state_hash (ckpt_state p) = Ok (ckpt_state_hash p) ->
  valid State_codec (ckpt_state p) -> st_schema_version (ckpt_state p) = STATE_SCHEMA_VERSION ->
  restore (reader l') (ckpt_state_hash p) migrations = Ok {| migrated_state := ckpt_state p; migrated := None |}.
Proof.
  intros Hc Hx Ha Hcount Hh Hv Hs. pose proof (consecutive_append _ _ _ _ Hc Ha) as Hc'.
  assert (Hred : redact_value (log_redactor l) (enc CheckpointPayload_codec p) = (enc CheckpointPayload_codec p, 0%N)).
  { pose proof (redact_value_zero _ _ Hcount) as Hsame. destruct (redact_value _ _) as [v n]. cbn in *. by subst. }
  destruct (append_ok _ _ _ _ Ha) as (s & Hst & -> & Hl & _).
  unfold stage, writer_redact in Hst. cbn [payload_value] in Hst. rewrite Hred in Hst. injection Hst as <-.
  simpl in Hl. set (ev := mk_event (log_session l) (next_seq l) (EvCheckpoint p)) in *.
  unfold reader, restore, restore_from. unfold events in Hc'. rewrite Hl in *. cbn [sn_effective snapshot].
  rewrite fmap_app. simpl. rewrite effective_snoc; [|done|exact Hx].
  assert (find_checkpoint (Some (ckpt_state_hash p)) (effective (ln_event <$> log_lines l) ++ [ev]) =
    Some (next_seq l, ckpt_state_hash p)) as ->.
  { unfold find_checkpoint. rewrite rev_app_distr. simpl. by rewrite bool_decide_eq_true_2. }
  unfold next_seq. rewrite (raw_payload_nth _ _ {| ln_event := ev; ln_raw := enc CheckpointPayload_codec p |});
    [|exact Hc'|by rewrite lookup_app_r, Nat.sub_diag by lia].
  cbn [ok_or mbind result_bind ln_raw]. rewrite checkpoint_state_member. cbn [ok_or mbind result_bind].
  unfold state_hash in Hh. rewrite Hh. cbn [map_err mbind result_bind]. rewrite decide_True by done.
  by rewrite migrate_current.
Qed.
End restore_claims.

(** ** Witnesses *)

Definition wit_clock : Clock := fun _ => "2026-01-01T00:00:00.000Z".
Definition plain_redactor : Redactor := {| known := []; patterns := []; short := [] |}.
Definition wit_hash : string := match @state_hash toy_platform wit_state with Ok h => h | Err _ => "" end.
Definition wit_checkpoint : CheckpointPayload :=
  {| ckpt_turn := 2; ckpt_reason := CrTurnEnd; ckpt_session_status := Suspended; ckpt_state_hash := wit_hash;
     ckpt_state := wit_state |}.
Definition wit_log : MemoryEventLog := memory_from_events "s1" plain_redactor
  [@mk_event wit_clock "s1" 0 (EvLogOpened {| lopen_event_schema_version := 1; lopen_state_schema_version := 1;
     lopen_kernel_version := "0.0.0"; lopen_mode := ModeLive |})].
Definition wit_log' : MemoryEventLog := (@memory_append wit_clock (EvCheckpoint wit_checkpoint) wit_log).1.
Definition wit_ckpt_event : Event := @mk_event wit_clock "s1" 1 (EvCheckpoint wit_checkpoint).

Lemma wit_log_consecutive : consecutive (ln_event <$> mem_lines wit_log).
Proof. intros [|i] e; simpl; [by intros [= <-]|]. by destruct i. Qed.

Lemma append_orders_and_redacts_witness :
  consecutive (@events _ (@memory_log wit_clock) (@log_append _ (@memory_log wit_clock) (EvCheckpoint wit_checkpoint) wit_log).1).
Proof.
  apply (@append_orders_and_redacts MemoryEventLog (@memory_log wit_clock) wit_clock (@memory_log_laws wit_clock)).
  exact wit_log_consecutive.
Defined.

Lemma checkpoint_restores_witness :
  @restore toy_platform (@reader _ (@memory_log wit_clock) wit_log') wit_hash [] =
    Ok {| migrated_state := wit_state; migrated := None |}.
Proof.
  apply (@checkpoint_restores toy_platform MemoryEventLog (@memory_log wit_clock) wit_clock (@memory_log_laws wit_clock)
    wit_log wit_log' wit_checkpoint wit_ckpt_event []).
  - exact wit_log_consecutive.
  - intros x. lazy. by intros ?%elem_of_nil.
  - lazy. reflexivity.
  - lazy. reflexivity.
  - lazy. reflexivity.
  - exact wit_state_valid.
  - reflexivity.
Defined.

(** A secret registered after it had got into the state: the checkpoint is written redacted, under
    the hash of the unredacted state, and restoring it fails. *)
Lemma redacted_checkpoint_refused :
  let l := {| mem_session_id := "s1"; mem_redactor := register_secret "run_script" plain_redactor;
              mem_lines := mem_lines wit_log |} in
  let l' := (@memory_append wit_clock (EvCheckpoint wit_checkpoint) l).1 in
  is_ok (@memory_append wit_clock (EvCheckpoint wit_checkpoint) l).2 = true /\
  exists computed, @restore toy_platform (@reader _ (@memory_log wit_clock) l') wit_hash [] =
    Err (HashMismatch wit_hash computed).
Proof. intros l l'. split; [vm_compute; reflexivity|]. eexists. vm_compute. reflexivity. Qed.

Lemma restore_verifies_hash_witness :
  @restore toy_platform (snapshot []) "b3:none" [] = Err (RestoreNotFound "b3:none").
Proof. apply (@restore_verifies_hash toy_platform [] "b3:none" []). constructor. Defined.

Definition wit_range : SeqRange := {| srange_from := 2; srange_to := 2 |}.
Definition wit_recovered : RecoveredPayload :=
  {| recov_checkpoint_hash := wit_hash; recov_checkpoint_seq := 1; recov_discarded_seq := Some wit_range;
     recov_restored_status := Suspended; recov_tasks_cancelled := []; recov_kernel_version := "0.0.0";
     recov_event_schema_version := 1 |}.
Definition wit_torn : list Event :=
  (ln_event <$> mem_lines wit_log') ++ [@mk_event wit_clock "s1" 2 (EvWarning (warning_kernel 3 "c" "m" None))].
Lemma recovery_voids_exactly_witness :
  latest_checkpoint (effective (wit_torn ++ [@mk_event wit_clock "s1" 3 (EvRecovered wit_recovered)])) =
    Some (wit_ckpt_event, wit_checkpoint).
Proof.
  apply (recovery_voids_exactly wit_torn (@mk_event wit_clock "s1" 3 (EvRecovered wit_recovered)) wit_recovered wit_range).
  - intros i e. do 3 (destruct i as [|i]; [lazy; by intros [= <-]|]). by destruct i.
  - reflexivity.
  - reflexivity.
  - reflexivity.
  - reflexivity.
  - intros x. lazy. by intros ?%elem_of_nil.
  - lazy. reflexivity.
  - reflexivity.
Defined.
