(* ===== verification/FileLog.v ===== *)
(** [log/file.rs]: the JSONL log file.  One line per event, appended and never rewritten; a torn
    final line is ignored by a reader and cut off by [open].  The file is its bytes; an append may
    fail after part of its buffer reached the file. *)

From Stdlib Require Import Floats.SpecFloat.
From S2P Require Import Prelude Ord Str Utf8 Capability Json Strict Codec Data State Event Redact Log.

Open Scope string_scope.
Open Scope list_scope.

Definition KERNEL_VERSION : string := "0.0.0".

(** * Lines as text *)

(** [RawEnvelope]. *)
Record RawEnvelope : Type := {
  env_seq : N; env_ts : string; env_session_id : SessionId; env_kind : string; env_payload : json
}.
Definition RawEnvelope_codec : codec RawEnvelope := struct (fiso
  (fun '(s, (t, (i, (k, p)))) => Build_RawEnvelope s t i k p)
  (fun r => (env_seq r, (env_ts r, (env_session_id r, (env_kind r, env_payload r)))))
  (freq "seq" cu64 ⊗ freq "ts" cstr ⊗ freq "session_id" cstr ⊗ freq "kind" cstr ⊗ freq "payload" cvalue)).
#[export] Instance RawEnvelope_codec_ok : CodecOk RawEnvelope_codec.
Proof. unfold RawEnvelope_codec. apply _. Qed.

Definition quoted (s : string) : string := dquote +:+ s +:+ dquote.

Section file_log.
Context {HJ : JsonText} {HC : Clock}.

(** [writer::envelope_line] without its terminating newline. *)
Definition envelope_text (seq : N) (ts sid k : string) (payload : json) : string :=
  "{" +:+ quoted "seq" +:+ ":" +:+ show_u64 seq +:+ "," +:+ quoted "ts" +:+ ":" +:+ to_string (JStr ts)
  +:+ "," +:+ quoted "session_id" +:+ ":" +:+ to_string (JStr sid)
  +:+ "," +:+ quoted "kind" +:+ ":" +:+ to_string (JStr k)
  +:+ "," +:+ quoted "payload" +:+ ":" +:+ to_string payload +:+ "}".
Definition line_text (l : Line) : string :=
  let e := ln_event l in envelope_text (ev_seq e) (ev_ts e) (ev_session_id e) (kind (ev_body e)) (ln_raw l).
Definition envelope_line (l : Line) : string := line_text l +:+ String newline "".

(** * Parsing *)

Record ParsedLog : Type := { pl_lines : list Line; pl_complete_len : nat; pl_truncated_tail : bool }.

Definition check_schema (found : N) : result LogError unit :=
  if (EVENT_SCHEMA_VERSION <? found)%N then Err (NewerSchema found EVENT_SCHEMA_VERSION) else Ok tt.
Definition is_old_schema_state (payload : json) : bool :=
  match jget "state" payload ≫= jget "schema_version" with
  | Some v => match as_u64 v with Some n => (n <? STATE_SCHEMA_VERSION)%N | None => false end
  | None => false
  end.

(** The body of one line: typed, or kept raw for an older checkpoint. *)
Definition line_body (line_no : N) (env : RawEnvelope) : result LogError EventBody :=
  match dec_body (env_kind env) (env_payload env) with
  | Some body => Ok body
  | None => if bool_decide (env_kind env = "checkpoint") && is_old_schema_state (env_payload env)
            then Ok (EvUnknown (env_kind env) (env_payload env))
            else Err (LogMalformed line_no "payload does not deserialize")
  end.

Definition check_line (line_no : N) (expected : option SessionId) (event : Event) : result LogError SessionId :=
  match expected with
  | None =>
      match ev_body event with
      | EvLogOpened opened =>
          _ ← check_schema (lopen_event_schema_version opened); mret (ev_session_id event)
      | b => Err (LogMalformed line_no ("first event must be `log_opened`, found `" +:+ kind b +:+ "`"))
      end
  | Some sid =>
      if decide (ev_session_id event = sid) then
        _ ← match ev_body event with
            | EvResumed r => check_schema (resm_event_schema_version r)
            | EvRecovered r => check_schema (recov_event_schema_version r)
            | _ => Ok tt
            end;
        mret sid
      else Err (WrongSession (ev_session_id event) sid)
  end.

(** One iteration of [parse_log]'s loop: the line at index [idx]. *)
Definition parse_line (idx : N) (expected : option SessionId) (raw : string) : result LogError (SessionId * Line) :=
  let line_no := (idx + 1)%N in
  _ ← (if utf8_valid raw then Ok tt else Err (LogMalformed line_no "not UTF-8"));
  v ← map_err (LogMalformed line_no) (from_str_json raw);
  env ← ok_or (LogMalformed line_no "not an envelope") (dec RawEnvelope_codec v);
  body ← line_body line_no env;
  let event := {| ev_seq := env_seq env; ev_ts := env_ts env; ev_session_id := env_session_id env; ev_body := body |} in
  if decide (env_seq env = idx) then
    sid ← check_line line_no expected event;
    mret (sid, {| ln_event := event; ln_raw := env_payload env |})
  else Err (SeqOrder (env_seq env) idx).

Fixpoint parse_lines (idx : N) (expected : option SessionId) (raws : list string) : result LogError (list Line) :=
  match raws with
  | [] => Ok []
  | raw :: raws =>
      x ← parse_line idx expected raw;
      ls ← parse_lines (idx + 1) (Some x.1) raws;
      mret (x.2 :: ls)
  end.

(** [parse_log]: everything up to the last newline is complete. *)
Definition parse_log (bytes : string) : result LogError ParsedLog :=
  match rsplit_once newline bytes with
  | None => Ok {| pl_lines := []; pl_complete_len := 0; pl_truncated_tail := negb (bool_decide (bytes = "")) |}
  | Some (body, tail) =>
      ls ← parse_lines 0 None (split_char newline body);
      mret {| pl_lines := ls; pl_complete_len := String.length body + 1;
              pl_truncated_tail := negb (bool_decide (tail = "")) |}
  end.

(** * The log *)

(** What happened to one append's writes: all done, or an error after [n] bytes of the buffer. *)
Inductive io_outcome : Type := Written | IoFails (n : nat) (msg : string).

Record FileEventLog : Type := {
  fl_session_id : SessionId;
  fl_redactor : Redactor;
  fl_file : string;
  fl_lines : list Line;
  fl_io : list io_outcome         (** outcomes of the appends to come; [Written] when used up *)
}.

Definition buffer (lines : list Line) : string := foldr (fun l s => envelope_line l +:+ s) "" lines.

(** [FileEventLog::append]: write, flush, sync, and only then remember the lines. *)
Definition file_append (body : EventBody) (l : FileEventLog) : FileEventLog * result LogError Event :=
  match stage (fl_session_id l) (N.of_nat (length (fl_lines l))) (fl_redactor l) body with
  | Err e => (l, Err e)
  | Ok s =>
      let buf := buffer (stg_lines s) in
      match hd Written (fl_io l) with
      | Written =>
          ({| fl_session_id := fl_session_id l; fl_redactor := fl_redactor l; fl_file := fl_file l +:+ buf;
              fl_lines := fl_lines l ++ stg_lines s; fl_io := tail (fl_io l) |}, Ok (stg_event s))
      | IoFails n msg =>
          ({| fl_session_id := fl_session_id l; fl_redactor := fl_redactor l;
              fl_file := fl_file l +:+ str_take n buf;
              fl_lines := fl_lines l; fl_io := tail (fl_io l) |}, Err (LogIo msg))
      end
  end.

Definition log_opened (mode : LogMode) : EventBody :=
  EvLogOpened {| lopen_event_schema_version := EVENT_SCHEMA_VERSION; lopen_state_schema_version := STATE_SCHEMA_VERSION;
                 lopen_kernel_version := KERNEL_VERSION; lopen_mode := mode |}.

(** [create_with_mode] on a path where no file exists. *)
Definition create_with_mode (session_id : SessionId) (mode : LogMode) (r : Redactor) (io : list io_outcome) :
    result LogError FileEventLog :=
  let l := {| fl_session_id := session_id; fl_redactor := r; fl_file := ""; fl_lines := []; fl_io := io |} in
  match file_append (log_opened mode) l with
  | (l', Ok _) => Ok l'
  | (_, Err e) => Err e
  end.

(** The errors of the three file calls of [open], if they fail. *)
Record open_io : Type := { oi_read : option string; oi_open : option string; oi_set_len : option string }.
Definition no_io_error : open_io := {| oi_read := None; oi_open := None; oi_set_len := None |}.
Definition io_call (failed : option string) : result LogError unit :=
  match failed with None => Ok tt | Some msg => Err (LogIo msg) end.
(** [open] on a file with these bytes: the log, whose file has lost a torn tail; on an error the
    file keeps its bytes. *)
Definition open (bytes : string) (r : Redactor) (oi : open_io) (io : list io_outcome) : result LogError FileEventLog :=
  _ ← io_call (oi_read oi);
  parsed ← parse_log bytes;
  first ← ok_or (LogMalformed 1 "empty log: no `log_opened` line") (head (pl_lines parsed));
  _ ← io_call (oi_open oi);
  _ ← (if pl_truncated_tail parsed then io_call (oi_set_len oi) else Ok tt);
  mret {| fl_session_id := ev_session_id (ln_event first); fl_redactor := r;
          fl_file := if pl_truncated_tail parsed then str_take (pl_complete_len parsed) bytes else bytes;
          fl_lines := pl_lines parsed; fl_io := io |}.
Definition open_for (bytes : string) (expected : SessionId) (r : Redactor) (oi : open_io) (io : list io_outcome) :
    result LogError FileEventLog :=
  l ← open bytes r oi io;
  if decide (fl_session_id l = expected) then Ok l else Err (WrongSession (fl_session_id l) expected).
(** [FileEventLog::snapshot]. *)
Definition file_snapshot (bytes : string) : result LogError SnapshotReader :=
  (fun p => snapshot (pl_lines p)) <$> parse_log bytes.

#[export] Instance file_log : EventLog FileEventLog := {|
  log_session := fl_session_id; log_redactor := fl_redactor; log_lines := fl_lines; log_append := file_append
|}.
#[export] Instance file_log_laws : EventLogLaws FileEventLog.
Proof.
  split; intros body l l' x; simpl; unfold file_append, next_seq; simpl;
    destruct (stage _ _ _ _) eqn:Hs; try destruct (hd Written (fl_io l)); intros [= <- <-]; eauto 10.
Qed.
End file_log.
Arguments FileEventLog : clear implicits.

(** * Laws of the text *)

(** Documented behaviour of [serde_json]: compact text escapes control characters, so it holds no
    raw newline; text is UTF-8; and a document made of the texts of its members is read back as the
    object with those members. *)
Class JsonTextLaws `{JsonText} : Prop := {
  to_string_no_newline v : has_char newline (to_string v) = false;
  to_string_utf8 v : utf8_valid (to_string v) = true;
  from_envelope seq ts sid k payload : (seq < 2 ^ 64)%N -> holdable payload ->
    from_str_json (envelope_text seq ts sid k payload) =
      Ok (enc RawEnvelope_codec {| env_seq := seq; env_ts := ts; env_session_id := sid; env_kind := k; env_payload := payload |})
}.

Lemma utf8_valid_app a b : utf8_valid a = true -> utf8_valid (a +:+ b) = utf8_valid b.
Proof.
  remember (String.length a) as n eqn:Hn. revert a Hn. induction (lt_wf n) as [n _ IH]; intros a -> Ha.
  assert (IH' : forall s, (String.length s < String.length a)%nat -> utf8_valid s = true ->
    utf8_valid (s +:+ b) = utf8_valid b) by (intros s Hs; by apply (IH _ Hs)). clear IH.
  destruct a as [|x1 a]; [done|]. rewrite str_app_cons. cbn [utf8_valid] in *.
  destruct (byte_in 0 127 x1); [apply IH'; [simpl; lia|done]|].
  destruct a as [|x2 a]; [done|]. rewrite str_app_cons.
  destruct (byte_in 194 223 x1).
  { apply andb_true_iff in Ha as [-> Ha]. simpl. apply IH'; [simpl; lia|done]. }
  destruct a as [|x3 a]; [done|]. rewrite str_app_cons.
  destruct (byte_in 224 239 x1).
  { apply andb_true_iff in Ha as [-> Ha]. simpl. apply IH'; [simpl; lia|done]. }
  destruct a as [|x4 a]; [done|]. rewrite str_app_cons.
  apply andb_true_iff in Ha as [-> Ha]. simpl. apply IH'; [simpl; lia|done].
Qed.
Lemma utf8_ascii s : all_bytes (fun a => (byte_val a <=? 127)%N) s = true -> utf8_valid s = true.
Proof.
  induction s as [|a s IH]; [done|]. simpl. intros [Ha Hs]%andb_true_iff. unfold byte_in at 1.
  rewrite Ha. assert ((0 <=? byte_val a)%N = true) as -> by (apply N.leb_le; lia). by apply IH.
Qed.
Lemma digit_ascii a : is_ascii_digit a = true -> (byte_val a <=? 127)%N = true /\ a <> newline.
Proof. by destruct a as [[] [] [] [] [] [] [] []]; lazy. Qed.
Lemma all_bytes_no_char f c s : (forall a, f a = true -> a <> c) -> all_bytes f s = true -> has_char c s = false.
Proof.
  intros Hf. induction s as [|a s IH]; [done|]. simpl. intros [Ha Hs]%andb_true_iff.
  rewrite has_char_cons, IH, orb_false_r by done. apply bool_decide_eq_false. by apply Hf.
Qed.

Section text_facts.
Context {HJ : JsonText} {HL : JsonTextLaws}.

Lemma envelope_text_no_newline seq ts sid k payload :
  has_char newline (envelope_text seq ts sid k payload) = false.
Proof.
  unfold envelope_text, quoted. rewrite !has_char_app, !to_string_no_newline.
  rewrite (all_bytes_no_char is_ascii_digit _ (show_u64 seq));
    [done|intros a Ha; by apply digit_ascii|apply show_u64_digits].
Qed.
Lemma envelope_text_utf8 seq ts sid k payload : utf8_valid (envelope_text seq ts sid k payload) = true.
Proof.
  unfold envelope_text. repeat (rewrite utf8_valid_app;
    [|first [apply to_string_utf8|reflexivity|apply utf8_ascii; eapply all_bytes_mono; [|apply show_u64_digits];
             intros a Ha; by apply digit_ascii]]).
  done.
Qed.

(** ** Reading lines back *)

(** A line that [parse_line] reads back as it is. *)
Definition readable (sid : SessionId) (idx : N) (l : Line) : Prop :=
  let e := ln_event l in
  ev_seq e = idx /\ (idx < 2 ^ 64)%N /\ ev_session_id e = sid /\ holdable (ln_raw l) /\
  dec_body (kind (ev_body e)) (ln_raw l) = Some (ev_body e).
(** Its place in the file: [log_opened] first, and no record of a newer schema. *)
Definition body_allowed (first : bool) (b : EventBody) : Prop :=
  match first, b with
  | true, EvLogOpened o => (lopen_event_schema_version o <= EVENT_SCHEMA_VERSION)%N
  | true, _ => False
  | false, EvResumed r => (resm_event_schema_version r <= EVENT_SCHEMA_VERSION)%N
  | false, EvRecovered r => (recov_event_schema_version r <= EVENT_SCHEMA_VERSION)%N
  | false, _ => True
  end.

Lemma check_schema_ok n : (n <= EVENT_SCHEMA_VERSION)%N -> check_schema n = Ok tt.
Proof. intros Hn. unfold check_schema. by apply N.ltb_ge in Hn as ->. Qed.

Lemma parse_line_text sid idx (expected : option SessionId) l :
  readable sid idx l ->
  body_allowed (match expected with None => true | Some _ => false end) (ev_body (ln_event l)) ->
  (forall s, expected = Some s -> s = sid) ->
  parse_line idx expected (line_text l) = Ok (sid, l).
Proof.
  intros (Hs & Hb & Hsid & Hh & Hd) Ha He. unfold parse_line, line_text.
  rewrite envelope_text_utf8. cbn [mbind result_bind]. rewrite from_envelope by (done || by rewrite Hs).
  cbn [map_err mbind result_bind]. rewrite dec_enc by (rewrite Hs; by split_and!).
  cbn [ok_or mbind result_bind]. unfold line_body. cbn [env_kind env_payload env_seq env_ts env_session_id].
  rewrite Hd. cbn [mbind result_bind]. rewrite decide_True by done.
  destruct l as [[seq ts sid' body] raw]. simpl in *. subst. unfold check_line. cbn [ev_body ev_session_id].
  destruct expected as [s|].
  - rewrite (He s eq_refl), decide_True by done.
    destruct body; simpl in Ha; cbn; rewrite ?check_schema_ok by done; done.
  - destruct body; simpl in Ha; try done. by rewrite check_schema_ok.
Qed.

Definition lines_ok (sid : SessionId) (lines : list Line) : Prop :=
  forall i l, lines !! i = Some l -> readable sid (N.of_nat i) l /\ body_allowed (i =? 0)%nat (ev_body (ln_event l)).

Lemma parse_lines_text sid lines :
  lines_ok sid lines -> parse_lines 0 None (line_text <$> lines) = Ok lines.
Proof.
  intros Hok. assert (H1 : forall k ls, (forall i l, ls !! i = Some l ->
      readable sid (N.of_nat (k + i)) l /\ body_allowed (k + i =? 0)%nat (ev_body (ln_event l))) ->
    parse_lines (N.of_nat k) (if (k =? 0)%nat then None else Some sid) (line_text <$> ls) = Ok ls).
  { intros k ls. revert k. induction ls as [|l ls IH]; intros k Hk; [done|]. rewrite fmap_cons. cbn [parse_lines].
    destruct (Hk 0 l eq_refl) as [Hr Hb]. rewrite Nat.add_0_r in *.
    rewrite (parse_line_text sid _ _ _ Hr); [|by destruct (k =? 0)%nat|destruct (k =? 0)%nat; naive_solver].
    cbn [mbind result_bind fst snd]. replace (N.of_nat k + 1)%N with (N.of_nat (S k)) by lia.
    pose proof (IH (S k)) as IHk. cbn [Nat.eqb] in IHk. rewrite IHk; [done|]. intros i x Hx. replace (S k + i) with (k + S i) by lia. by apply Hk. }
  apply (H1 0). intros i l Hl. by apply Hok.
Qed.

Lemma buffer_app a b : buffer (a ++ b) = buffer a +:+ buffer b.
Proof. induction a as [|l a IH]; [done|]. simpl. by rewrite IH, str_app_assoc. Qed.
Lemma buffer_body lines : lines <> [] ->
  buffer lines = join (String newline "") (line_text <$> lines) +:+ String newline "".
Proof.
  induction lines as [|l lines IH]; [done|]. intros _. destruct lines as [|l' lines].
  - simpl. by rewrite str_app_nil_r.
  - cbn [buffer foldr] in *. rewrite IH by done. rewrite !fmap_cons. cbn [join]. unfold envelope_line.
    by rewrite !str_app_assoc.
Qed.

(** [parse_log] of complete lines followed by a torn one. *)
Lemma parse_log_buffer sid lines tail :
  lines_ok sid lines -> has_char newline tail = false ->
  parse_log (buffer lines +:+ tail) =
    Ok {| pl_lines := lines; pl_complete_len := String.length (buffer lines);
          pl_truncated_tail := negb (bool_decide (tail = "")) |}.
Proof.
  intros Hok Ht. unfold parse_log. destruct (decide (lines = [])) as [->|Hne].
  - simpl. rewrite str_app_nil, rsplit_once_None by done. done.
  - rewrite buffer_body, str_app_assoc by done. change (String newline "" +:+ tail) with (String newline tail).
    rewrite rsplit_once_app by done. rewrite split_join.
    + rewrite (parse_lines_text sid) by done. cbn [mbind result_bind]. rewrite str_length_app. done.
    + by destruct lines.
    + apply Forall_fmap, Forall_true. intros l. apply envelope_text_no_newline.
Qed.

(** A prefix of a buffer is some of its lines and a torn rest. *)
Lemma str_take_app_le n a b : (n <= String.length a)%nat -> str_take n (a +:+ b) = str_take n a.
Proof.
  revert n. induction a as [|x a IH]; intros [|n] Hn; try done; simpl in Hn; [lia|].
  rewrite str_app_cons. simpl. rewrite IH by lia. done.
Qed.
Lemma str_take_app_ge n a b : (String.length a <= n)%nat -> str_take n (a +:+ b) = a +:+ str_take (n - String.length a) b.
Proof.
  revert n. induction a as [|x a IH]; intros n Hn; [by rewrite Nat.sub_0_r|]. simpl in Hn.
  destruct n as [|n]; [lia|]. rewrite str_app_cons. simpl. rewrite IH by lia. done.
Qed.
Lemma torn_buffer n lines : exists j tail,
  str_take n (buffer lines) = buffer (take j lines) +:+ tail /\ has_char newline tail = false /\
  (j <= length lines)%nat /\ ((String.length (buffer lines) <= n)%nat -> j = length lines /\ tail = "").
Proof.
  revert n. induction lines as [|l lines IH]; intros n.
  - exists 0, "". simpl. destruct n; split_and!; auto.
  - cbn [buffer foldr]. fold (buffer lines). destruct (decide (String.length (envelope_line l) <= n)%nat) as [Hle|Hgt].
    + destruct (IH (n - String.length (envelope_line l))) as (j & tail & Ht & Hn & Hj & Hall).
      exists (S j), tail. rewrite str_take_app_ge by done. rewrite Ht. cbn [take buffer foldr length].
      fold (buffer (take j lines)). rewrite str_app_assoc. split_and!; [done|done|lia|].
      rewrite str_length_app. intros Hlen. destruct Hall as [-> ->]; [lia|]. done.
    + exists 0, (str_take n (envelope_line l)). rewrite str_take_app_le by lia. split_and!; [done| |lia|].
      * unfold envelope_line in *. rewrite str_length_app in Hgt. cbn [String.length] in Hgt.
        rewrite str_take_app_le by lia. pose proof (envelope_text_no_newline (ev_seq (ln_event l)) (ev_ts (ln_event l))
          (ev_session_id (ln_event l)) (kind (ev_body (ln_event l))) (ln_raw l)) as Hnl.
        fold (line_text l) in Hnl. rewrite <- (str_take_drop n (line_text l)), has_char_app in Hnl.
        by apply orb_false_iff in Hnl as [? _].
      * rewrite str_length_app. intros Hlen. exfalso. lia.
Qed.
End text_facts.

(** ** What one append stages *)

Lemma omap_sorted_fst {V W} (m : list (string * V)) (m' : list (string * W)) :
  m.*1 = m'.*1 -> omap_sorted m -> omap_sorted m'.
Proof.
  revert m'. induction m as [|[k v] m IH]; intros [|[k' v'] m'] Hk Hs; try done; [constructor|].
  rewrite !fmap_cons in Hk. injection Hk as <- Hk. apply omap_sorted_cons in Hs as [Hs Hlt].
  apply omap_sorted_cons. split; [by apply IH|]. by rewrite <- Hk.
Qed.

Lemma redact_holdable r v : holdable v -> holdable (redact_value r v).1.
Proof.
  induction v as [| | |s|l IH|m IH] using json_ind_strong; intros Hv; try done.
  - cbn [redact_value]. destruct (redact_str r s) as [out n]. destruct (0 <? n)%N; constructor.
  - inversion Hv as [| | | |? Hl|]; subst. cbn [redact_value].
    match goal with |- context [let '(_, _) := ?g l in _] => set (go := g) end.
    enough (Forall holdable (go l).1) by (destruct (go l); by constructor). clear Hv.
    induction IH as [|x l Hx _ IHl]; [constructor|]. apply Forall_cons in Hl as [Hx' Hl]. cbn [go]. fold go.
    specialize (Hx Hx'). specialize (IHl Hl). destruct (redact_value r x), (go l). by constructor.
  - inversion Hv as [| | | | |? Hs Hm]; subst. cbn [redact_value].
    match goal with |- context [let '(_, _) := ?g m in _] => set (go := g) end.
    enough (Forall (fun kv => holdable kv.2) (go m).1 /\ (go m).1.*1 = m.*1) as [Hf Hk].
    { destruct (go m) as [m' n]. simpl in *. constructor; [|done]. by eapply omap_sorted_fst. }
    clear Hv Hs. induction IH as [|[k x] m Hx _ IHm]; [by split|]. apply Forall_cons in Hm as [Hx' Hm]. cbn [go]. fold go.
    cbn [fst snd] in *. specialize (Hx Hx'). destruct (IHm Hm) as [Hf Hk].
    destruct (redact_value r x), (go m). simpl in *. split; [by constructor|]. by f_equal.
Qed.

(** Side conditions on a staged event: where it may stand, and a [turn] that fits in [u64]. *)
Definition turn_fits (e : Event) : Prop :=
  match jget "turn" (payload_value (ev_body e)) ≫= as_u64 with Some n => (n < 2 ^ 64)%N | None => True end.
Definition writable (body : EventBody) : Prop := body_valid body /\ holdable (payload_value body).

Section staging.
Context {HC : Clock}.

Lemma stage_readable sid seq r body s :
  stage sid seq r body = Ok s -> writable body -> turn_fits (stg_event s) -> (seq + 1 < 2 ^ 64)%N ->
  body_allowed false (ev_body (stg_event s)) ->
  forall i l, stg_lines s !! i = Some l -> readable sid (seq + N.of_nat i) l /\ body_allowed false (ev_body (ln_event l)).
Proof.
  intros Hs [Hv Hh] Ht Hb Ha. unfold stage in Hs. apply result_bind_Ok in Hs as (x & Hx & Hs).
  destruct x as [[b raw] late]. injection Hs as <-. cbn [stg_event stg_lines] in *.
  assert (Hraw : holdable raw /\ dec_body (kind b) raw = Some b).
  { unfold writer_redact in Hx. pose proof (redact_holdable r _ Hh) as Hrh.
    destruct (redact_value r (payload_value body)) as [payload n] eqn:Hrv. simpl in Hrh.
    destruct (N.eqb_spec n 0) as [->|Hn].
    - injection Hx as <- <- <-. split; [done|].
      pose proof (redact_value_zero r (payload_value body)) as Hz. rewrite Hrv in Hz. simpl in Hz.
      rewrite Hz by done. by apply dec_body_enc.
    - apply result_bind_Ok in Hx as (rb & Hrb & [= <- <- <-]). apply ok_or_Ok in Hrb. split; [done|].
      by rewrite (dec_body_kind _ _ _ Hrb). }
  intros [|[|i]] l; cbn [lookup list_lookup].
  - intros [= <-]. cbn. rewrite N.add_0_r. by split; [split_and!; [done|lia|done|apply Hraw|apply Hraw]|].
  - destruct (0 <? late)%N; [|done]. intros [= <-]. cbn [ln_event ln_raw ev_seq ev_session_id ev_body mk_event].
    set (w := late_redaction_warning (mk_event sid seq b) late). unfold turn_fits in Ht. cbn [ev_body mk_event] in Ht.
    assert (Hw : body_valid w).
    { subst w. unfold late_redaction_warning. cbn [mk_event ev_body ev_seq body_valid]. cbn.
      split_and!; try done. destruct (jget "turn" (payload_value b) ≫= as_u64); simpl; [done|lia]. }
    assert (Hhw : holdable (payload_value w)).
    { subst w. unfold late_redaction_warning. cbn [payload_value warning_kernel]. apply holdable_jobj.
      generalize (default 0%N (jget "turn" (payload_value (ev_body (mk_event sid seq b))) ≫= as_u64)). intros t. cbn.
      repeat constructor. }
    split; [|done]. split_and!; [done|lia|done|exact Hhw|]. by apply dec_body_enc.
  - destruct (0 <? late)%N; by destruct i.
Qed.
End staging.

Section file_claims.
Context {HJ : JsonText} {HL : JsonTextLaws} {HC : Clock}.

(** The file holds exactly the remembered lines, and they read back. *)
Definition file_wf (l : FileEventLog) : Prop :=
  fl_file l = buffer (fl_lines l) /\ lines_ok (fl_session_id l) (fl_lines l).

Lemma lines_ok_app sid a b : lines_ok sid a -> a <> [] ->
  (forall i l, b !! i = Some l -> readable sid (N.of_nat (length a) + N.of_nat i) l /\ body_allowed false (ev_body (ln_event l))) ->
  lines_ok sid (a ++ b).
Proof.
  intros Ha Hne Hb i l [Hi|[Hlen Hi]]%lookup_app_Some; [by apply Ha|]. apply Hb in Hi as [Hr Hbo].
  replace (N.of_nat (length a) + N.of_nat (i - length a))%N with (N.of_nat i) in Hr by lia.
  split; [done|]. destruct i; [|done]. destruct a; [done|]. simpl in Hlen. lia.
Qed.

Lemma staged_lines_ok l body s :
  file_wf l -> fl_lines l <> [] -> stage (fl_session_id l) (N.of_nat (length (fl_lines l))) (fl_redactor l) body = Ok s ->
  writable body -> turn_fits (stg_event s) -> (N.of_nat (length (fl_lines l)) + 1 < 2 ^ 64)%N ->
  body_allowed false (ev_body (stg_event s)) ->
  lines_ok (fl_session_id l) (fl_lines l ++ stg_lines s).
Proof.
  intros [_ Hok] Hne Hs Hw Ht Hb Ha. apply lines_ok_app; [done|done|].
  intros i x Hx. by eapply stage_readable.
Qed.

Lemma open_buffer sid lines tail r io :
  lines_ok sid lines -> lines <> [] -> has_char newline tail = false ->
  open (buffer lines +:+ tail) r no_io_error io =
    Ok {| fl_session_id := sid; fl_redactor := r; fl_file := buffer lines; fl_lines := lines; fl_io := io |}.
Proof.
  intros Hok Hne Ht. unfold open. cbn [no_io_error oi_read oi_open oi_set_len io_call mbind result_bind].
  rewrite (parse_log_buffer sid) by done. cbn [mbind result_bind pl_lines].
  destruct lines as [|first lines]; [done|]. cbn [head ok_or mbind result_bind pl_truncated_tail pl_complete_len].
  destruct (Hok 0 first eq_refl) as [(_ & _ & -> & _) _].
  assert (forall b : bool, (if b then Ok tt else Ok tt : result LogError unit) = Ok tt) as -> by by intros [].
  cbn [mbind result_bind]. do 2 f_equal.
  case_bool_decide as Hnil; cbn [negb].
  - subst tail. by rewrite str_app_nil_r.
  - rewrite str_take_app_le by lia. clear. generalize (buffer (first :: lines)). intros s.
    induction s as [|a s IH]; [done|]. simpl. by rewrite IH.
Qed.


(** reopening a log whose file holds its remembered lines, with or without
    a torn last line, gives back exactly those lines, the session and a repaired file; and every
    successful append of a writable event keeps the file in that state, so what a process wrote is
    what the next process reads. *)
Theorem file_log_round_trip (l : FileEventLog) (tail : string) (r : Redactor) (io : list io_outcome) :
  file_wf l -> fl_lines l <> [] -> has_char newline tail = false ->
  open (fl_file l +:+ tail) r no_io_error io =
    Ok {| fl_session_id := fl_session_id l; fl_redactor := r; fl_file := fl_file l; fl_lines := fl_lines l; fl_io := io |} /\
  (forall body l' e, file_append body l = (l', Ok e) -> writable body -> turn_fits e ->
     (next_seq l + 1 < 2 ^ 64)%N -> body_allowed false (ev_body e) -> file_wf l').
Proof.
  intros [Hf Hok] Hne Ht. split; [rewrite Hf; by apply open_buffer|].
  intros body l' e Ha Hw Htf Hb Hal. unfold file_append in Ha. unfold next_seq in Hb. simpl in Hb.
  destruct (stage _ _ _ _) as [s|] eqn:Hs; [|done]. destruct (hd Written (fl_io l)); [|done].
  injection Ha as <- <-. split; cbn [fl_file fl_lines fl_session_id].
  - by rewrite buffer_app, Hf.
  - by apply (staged_lines_ok l body s).
Qed.


Lemma parse_lines_app sid a raws :
  lines_ok sid a -> a <> [] ->
  parse_lines 0 None ((line_text <$> a) ++ raws) =
    match parse_lines (N.of_nat (length a)) (Some sid) raws with Ok ls => Ok (a ++ ls) | Err e => Err e end.
Proof.
  intros Hok Hne. assert (H1 : forall k ls, (forall i l, ls !! i = Some l ->
      readable sid (N.of_nat (k + i)) l /\ body_allowed (k + i =? 0)%nat (ev_body (ln_event l))) -> ls <> [] ->
    parse_lines (N.of_nat k) (if (k =? 0)%nat then None else Some sid) ((line_text <$> ls) ++ raws) =
      match parse_lines (N.of_nat (k + length ls)) (Some sid) raws with Ok l' => Ok (ls ++ l') | Err e => Err e end).
  { intros k ls. revert k. induction ls as [|l ls IH]; intros k Hk Hn; [done|]. rewrite fmap_cons. cbn [parse_lines app].
    destruct (Hk 0 l eq_refl) as [Hr Hb]. rewrite Nat.add_0_r in *.
    rewrite (parse_line_text sid _ _ _ Hr); [|by destruct (k =? 0)%nat|destruct (k =? 0)%nat; naive_solver].
    cbn [mbind result_bind fst snd length]. replace (N.of_nat k + 1)%N with (N.of_nat (S k)) by lia.
    destruct (decide (ls = [])) as [->|Hls].
    - simpl. replace (k + 1) with (S k) by lia. by destruct (parse_lines _ _ _).
    - pose proof (IH (S k)) as IHk. cbn [Nat.eqb] in IHk. rewrite IHk; [| |done].
      + replace (S k + length ls) with (k + S (length ls)) by lia. by destruct (parse_lines (N.of_nat (k + S (length ls))) (Some sid) raws).
      + intros i x Hx. replace (S k + i) with (k + S i) by lia. by apply Hk. }
  apply (H1 0 a); [|done]. intros i l Hl. by apply Hok.
Qed.

Lemma parse_line_wrong_seq sid k idx (expected : option SessionId) l :
  readable sid k l -> k <> idx -> parse_line idx expected (line_text l) = Err (SeqOrder k idx).
Proof.
  intros (Hs & Hb & Hsid & Hh & Hd) Hne. unfold parse_line, line_text.
  rewrite envelope_text_utf8. cbn [mbind result_bind]. rewrite from_envelope by (done || by rewrite Hs).
  cbn [map_err mbind result_bind]. rewrite dec_enc by (rewrite Hs; by split_and!).
  cbn [ok_or mbind result_bind]. unfold line_body. cbn [env_kind env_payload env_seq env_ts env_session_id].
  rewrite Hd. cbn [mbind result_bind]. rewrite Hs. by rewrite decide_False.
Qed.

(** an append that fails after its bytes reached the file (a failed
    flush or fsync) does not remember its lines, so the next successful append writes the same
    [seq] again and from then on the file is refused with [SeqOrder]. *)
Theorem failed_sync_breaks_the_log (l l1 l2 : FileEventLog) (body1 body2 : EventBody) (s1 s2 : Staged)
    (n : nat) (msg : string) (err : LogError) (e2 : Event) (rest : list io_outcome) :
  file_wf l -> fl_lines l <> [] -> fl_io l = IoFails n msg :: Written :: rest ->
  stage (fl_session_id l) (next_seq l) (fl_redactor l) body1 = Ok s1 ->
  stage (fl_session_id l) (next_seq l) (fl_redactor l) body2 = Ok s2 ->
  writable body1 -> turn_fits (stg_event s1) -> body_allowed false (ev_body (stg_event s1)) ->
  writable body2 -> turn_fits (stg_event s2) -> body_allowed false (ev_body (stg_event s2)) ->
  (next_seq l + 1 < 2 ^ 64)%N -> (String.length (buffer (stg_lines s1)) <= n)%nat ->
  file_append body1 l = (l1, Err err) -> file_append body2 l1 = (l2, Ok e2) ->
  parse_log (fl_file l2) = Err (SeqOrder (next_seq l) (next_seq l + N.of_nat (length (stg_lines s1)))).
Proof.
  intros Hwf Hne Hio Hs1 Hs2 Hw1 Ht1 Ha1 Hw2 Ht2 Ha2 Hb Hn H1 H2.
  pose proof (staged_lines_ok l body1 s1 Hwf Hne Hs1 Hw1 Ht1 Hb Ha1) as Hok.
  pose proof (fun i x => stage_readable _ _ _ _ _ Hs2 Hw2 Ht2 Hb Ha2 i x) as Hr2.
  unfold next_seq in *. cbn [log_lines file_log] in *. destruct Hwf as [Hf _].
  unfold file_append in H1. rewrite Hs1, Hio in H1. cbn [hd tail] in H1. injection H1 as <- <-.
  unfold file_append in H2. cbn [fl_session_id fl_redactor fl_lines fl_io fl_file hd tail] in H2. rewrite Hs2 in H2.
  injection H2 as <- <-. cbn [fl_file]. rewrite Hf.
  assert (str_take n (buffer (stg_lines s1)) = buffer (stg_lines s1)) as ->.
  { destruct (torn_buffer n (stg_lines s1)) as (j & tail & -> & _ & _ & Hall). destruct (Hall Hn) as [-> ->].
    by rewrite str_app_nil_r, firstn_all. }
  rewrite <- !buffer_app. unfold stage in Hs2. apply result_bind_Ok in Hs2 as (x & _ & Hs2).
  destruct x as [[b raw] late]. injection Hs2 as Hs2.
  assert (exists x xs, stg_lines s2 = x :: xs) as (x & xs & Hx) by (rewrite <- Hs2; by eexists _, _).
  assert (Hxr : readable (fl_session_id l) (N.of_nat (length (fl_lines l))) x).
  { destruct (Hr2 0 x) as [Hx' _]; [by rewrite Hx|]. by rewrite N.add_0_r in Hx'. }
  rewrite Hx. unfold parse_log. rewrite buffer_body by (by intros [[? _]%app_nil _]%app_nil).
  rewrite rsplit_once_app by done. rewrite split_join.
  - rewrite fmap_app, (parse_lines_app (fl_session_id l)); [|exact Hok|by intros [? _]%app_nil].
    rewrite fmap_cons. cbn [parse_lines]. rewrite (parse_line_wrong_seq _ _ _ _ _ Hxr).
    + cbn [mbind result_bind]. do 2 f_equal. rewrite length_app. lia.
    + rewrite length_app. unfold stage in Hs1. apply result_bind_Ok in Hs1 as (y & _ & Hs1).
      destruct y as [[b1 raw1] late1]. injection Hs1 as Hs1. rewrite <- Hs1. cbn [stg_lines length]. lia.
  - destruct (fl_lines l); [done|]. by rewrite fmap_app.
  - apply Forall_fmap, Forall_true. intros y. apply envelope_text_no_newline.
Qed.
End file_claims.

(** ** Witnesses: a concrete text format that keeps the laws *)

(** Values as numerals: [json] is countable. *)
#[export] Instance spec_float_countable : Countable spec_float.
Proof.
  refine (inj_countable'
    (fun f => match f with S754_zero b => inl (inl b) | S754_infinity b => inl (inr b) | S754_nan => inr (inl tt)
              | S754_finite s m e => inr (inr (s, m, e)) end)
    (fun x => match x with inl (inl b) => S754_zero b | inl (inr b) => S754_infinity b | inr (inl _) => S754_nan
              | inr (inr (s, m, e)) => S754_finite s m e end) _).
  by intros [].
Qed.
#[export] Instance number_countable : Countable number.
Proof.
  refine (inj_countable'
    (fun n => match n with PosInt n => inl n | NegInt z => inr (inl z) | Float f => inr (inr f) end)
    (fun x => match x with inl n => PosInt n | inr (inl z) => NegInt z | inr (inr f) => Float f end) _).
  by intros [].
Qed.
Definition leaf : Type := bool + (number + string).
Fixpoint to_tree (v : json) : gen_tree leaf :=
  match v with
  | JNull => GenNode 0 []
  | JBool b => GenLeaf (inl b)
  | JNum n => GenLeaf (inr (inl n))
  | JStr s => GenLeaf (inr (inr s))
  | JArr l => GenNode 1 (map to_tree l)
  | JObj m => GenNode 2 (map (fun kv => GenNode 3 [GenLeaf (inr (inr kv.1)); to_tree kv.2]) m)
  end.
Fixpoint of_tree (t : gen_tree leaf) : json :=
  match t with
  | GenLeaf (inl b) => JBool b
  | GenLeaf (inr (inl n)) => JNum n
  | GenLeaf (inr (inr s)) => JStr s
  | GenNode 0 _ => JNull
  | GenNode 1 l => JArr (map of_tree l)
  | GenNode _ l => JObj (map (fun t => match t with
      | GenNode _ [GenLeaf (inr (inr k)); v] => (k, of_tree v)
      | _ => ("", JNull) end) l)
  end.
Lemma of_to_tree v : of_tree (to_tree v) = v.
Proof.
  induction v as [| | | |l IH|m IH] using json_ind_strong; try done; cbn [to_tree of_tree]; f_equal; rewrite map_map.
  - induction IH as [|x l Hx _ IHl]; [done|]. simpl. by rewrite Hx, IHl.
  - induction IH as [|[k x] m Hx _ IHm]; [done|]. cbn [map fst snd] in *. by rewrite Hx, IHm.
Qed.
#[export] Instance json_countable : Countable json.
Proof. exact (inj_countable' to_tree of_tree of_to_tree). Qed.

Fixpoint parse_digits (s : string) (acc : N) : N :=
  match s with EmptyString => acc | String a s' => parse_digits s' (acc * 10 + (byte_val a - 48)) end.
Lemma parse_pretty n : parse_digits (show_u64 n) 0 = n.
Proof.
  assert (Hgo : forall x s, parse_digits (pretty.pretty_N_go x s) 0 = parse_digits s x).
  { intros x. induction (N.lt_wf_0 x) as [x _ IH]; intros s.
    destruct (decide (x = 0)%N) as [->|Hx]; [by rewrite pretty.pretty_N_go_0|].
    rewrite pretty.pretty_N_go_step by lia. rewrite IH by (apply N.div_lt; lia). cbn [parse_digits]. f_equal.
    assert (byte_val (pretty.pretty_N_char (x mod 10)) = 48 + x mod 10)%N as ->.
    { assert (x mod 10 < 10)%N as Hd by (apply N.mod_lt; lia). revert Hd. generalize (x mod 10)%N. intros d Hd.
      assert (forall k, (k < 10)%nat -> byte_val (pretty.pretty_N_char (N.of_nat k)) = 48 + N.of_nat k)%N as Hk.
      { intros k Hk. do 10 (destruct k as [|k]; [reflexivity|]). lia. }
      rewrite <- (N2Nat.id d). apply Hk. lia. }
    pose proof (N.div_mod x 10 ltac:(done)) as Hdm. revert Hdm. generalize (x / 10)%N, (x mod 10)%N. lia. }
  unfold show_u64, pretty.pretty, pretty.pretty_N. case_decide as Hn; [by subst|]. apply Hgo.
Qed.

Definition num_text (v : json) : string := show_u64 (N.pos (encode v)).
Definition num_read (s : string) : option json :=
  match parse_digits s 0 with N.pos p => decode p | N0 => None end.
Lemma num_read_text v : num_read (num_text v) = Some v.
Proof. unfold num_read, num_text. rewrite parse_pretty. apply decode_encode. Qed.

(** A member [quoted name: digits] up to the delimiter. *)
Definition member_text (name : string) (delim : ascii) (s : string) : option (string * string) :=
  r ← strip_prefix (quoted name +:+ ":") s; split_once delim r.
Definition num_str (s : string) : option string := num_read s ≫= as_str.
Definition toy_read (s : string) : option json :=
  r ← strip_prefix "{" s;
  x ← member_text "seq" "," r;
  y ← member_text "ts" "," x.2;
  z ← member_text "session_id" "," y.2;
  w ← member_text "kind" "," z.2;
  p ← member_text "payload" "}" w.2;
  ts ← num_str y.1; sid ← num_str z.1; k ← num_str w.1; payload ← num_read p.1;
  Some (enc RawEnvelope_codec {| env_seq := parse_digits x.1 0; env_ts := ts; env_session_id := sid; env_kind := k; env_payload := payload |}).
Definition num_json : JsonText :=
  {| to_string := num_text; from_str_json s := ok_or "expected an envelope" (toy_read s) |}.

Lemma num_text_digits v : all_bytes is_ascii_digit (num_text v) = true.
Proof. apply show_u64_digits. Qed.
Lemma digits_no_char c s : is_ascii_digit c = false -> all_bytes is_ascii_digit s = true -> has_char c s = false.
Proof. intros Hc. apply all_bytes_no_char. intros a Ha ->. congruence. Qed.
Lemma member_text_app name delim v rest :
  is_ascii_digit delim = false -> all_bytes is_ascii_digit v = true ->
  member_text name delim (quoted name +:+ ":" +:+ v +:+ String delim "" +:+ rest) = Some (v, rest).
Proof.
  intros Hd Hv. unfold member_text. rewrite <- (str_app_assoc (quoted name)), strip_prefix_app. cbn [mbind option_bind].
  apply split_once_app. by apply digits_no_char.
Qed.
Lemma num_json_laws : @JsonTextLaws num_json.
Proof.
  split.
  - intros v. simpl. apply digits_no_char; [reflexivity|apply num_text_digits].
  - intros v. simpl. apply utf8_ascii. eapply all_bytes_mono; [|apply num_text_digits]. intros a Ha. by apply digit_ascii.
  - intros seq ts sid k payload Hs _. cbn [from_str_json num_json]. unfold envelope_text. cbn [to_string num_json].
    unfold toy_read. rewrite strip_prefix_app. cbn [mbind option_bind].
    rewrite <- (str_app_nil_r "}").
    rewrite member_text_app by (reflexivity || apply show_u64_digits). cbn [mbind option_bind snd fst].
    do 3 (rewrite member_text_app by (reflexivity || apply num_text_digits); cbn [mbind option_bind snd fst]).
    rewrite member_text_app by (reflexivity || apply num_text_digits). cbn [mbind option_bind snd fst].
    unfold num_str. rewrite !num_read_text. cbn [mbind option_bind as_str].
    by rewrite parse_pretty.
Qed.

Definition wit_opened : Line :=
  let e := @mk_event wit_clock "s1" 0 (log_opened ModeLive) in {| ln_event := e; ln_raw := payload_value (ev_body e) |}.
Definition wit_file (io : list io_outcome) : FileEventLog :=
  {| fl_session_id := "s1"; fl_redactor := plain_redactor; fl_file := @buffer num_json [wit_opened];
     fl_lines := [wit_opened]; fl_io := io |}.
Definition wit_warning : EventBody := EvWarning (warning_kernel 1 "class" "message" None).
Definition wit_staged : Staged :=
  match @stage wit_clock "s1" 1 plain_redactor wit_warning with Ok s => s | Err _ => {| stg_event := ln_event wit_opened; stg_lines := [] |} end.

Lemma wit_file_wf io : @file_wf num_json (wit_file io).
Proof.
  split; [reflexivity|]. intros [|i] l; [|by destruct i]. intros [= <-]. split; [|lazy; discriminate].
  split_and!; [reflexivity|reflexivity|reflexivity|lazy; repeat constructor|lazy; reflexivity].
Qed.
Lemma wit_staged_ok io : @stage wit_clock (fl_session_id (wit_file io)) (@next_seq _ (@file_log num_json wit_clock) (wit_file io))
  (fl_redactor (wit_file io)) wit_warning = Ok wit_staged.
Proof. lazy. reflexivity. Qed.
Lemma wit_writable : writable wit_warning.
Proof. split; [lazy; by split_and!|lazy; repeat constructor]. Qed.
Lemma wit_turn : turn_fits (stg_event wit_staged).
Proof. lazy. reflexivity. Qed.

Lemma file_log_round_trip_witness :
  @open num_json (fl_file (wit_file []) +:+ "{torn") plain_redactor no_io_error [] = Ok (wit_file []).
Proof.
  apply (@file_log_round_trip num_json num_json_laws wit_clock (wit_file []) "{torn" plain_redactor []).
  - exact (wit_file_wf []).
  - discriminate.
  - reflexivity.
Defined.


Definition wit_big : nat := String.length (@buffer num_json (stg_lines wit_staged)).
Definition wit_l0 : FileEventLog := wit_file [IoFails wit_big "disk full"; Written].
Definition wit_l1 : FileEventLog := (@file_append num_json wit_clock wit_warning wit_l0).1.
Definition wit_l2 : FileEventLog := (@file_append num_json wit_clock wit_warning wit_l1).1.
Lemma wit_stage0 : @stage wit_clock (fl_session_id wit_l0) (N.of_nat (length (fl_lines wit_l0))) (fl_redactor wit_l0)
  wit_warning = Ok wit_staged.
Proof. lazy. reflexivity. Qed.
Lemma wit_stage1 : @stage wit_clock (fl_session_id wit_l1) (N.of_nat (length (fl_lines wit_l1))) (fl_redactor wit_l1)
  wit_warning = Ok wit_staged.
Proof. lazy. reflexivity. Qed.
Lemma failed_sync_breaks_the_log_witness :
  exists seq, @parse_log num_json (fl_file wit_l2) = Err (SeqOrder seq (seq + 1)).
Proof.
  exists 1%N.
  apply (@failed_sync_breaks_the_log num_json num_json_laws wit_clock wit_l0 wit_l1 wit_l2 wit_warning wit_warning
    wit_staged wit_staged wit_big "disk full" (LogIo "disk full") (stg_event wit_staged) []).
  - exact (wit_file_wf _).
  - discriminate.
  - reflexivity.
  - exact (wit_staged_ok _).
  - exact (wit_staged_ok _).
  - exact wit_writable.
  - exact wit_turn.
  - exact I.
  - exact wit_writable.
  - exact wit_turn.
  - exact I.
  - reflexivity.
  - apply Nat.le_refl.
  - unfold wit_l1, file_append. rewrite (wit_stage0 : stage _ _ _ _ = _). reflexivity.
  - unfold wit_l2, file_append.
    rewrite (wit_stage1 : stage (fl_session_id wit_l1) (N.of_nat (length (fl_lines wit_l1))) (fl_redactor wit_l1) _ = _).
    reflexivity.
Defined.
