(* ===== verification/Outside.v ===== *)
(** What the kernel calls and cannot see into, as interfaces: tools ([tool.rs]), middleware
    ([middleware.rs]), the provider ([provider.rs]), the sandbox backend ([sandbox.rs]), and the
    other threads of the process.  All of them act on one state [X], which no definition of the
    kernel inspects; an asynchronous call is the list of the polls that leave it pending. *)

From Stdlib Require Import Floats.SpecFloat.
From S2P Require Import Prelude Ord Str Capability Sandbox Json Strict Codec Data Event Log.

Open Scope string_scope.
Open Scope list_scope.

(** * Errors, as [Display] writes them *)

(** The fraction [frac] of a unit of [10 ^ width], without its trailing zeros. *)
Fixpoint pad_left (width : nat) (s : string) : string :=
  match width with
  | O => s
  | S w => if (String.length s <? width)%nat then "0" +:+ pad_left w s else s
  end.
Definition show_fraction (int frac : N) (width : nat) (suffix : string) : string :=
  if (frac =? 0)%N then show_u64 int +:+ suffix
  else show_u64 int +:+ "." +:+ trim_end_matches "0" (pad_left width (show_u64 frac)) +:+ suffix.
(** [<Duration as Debug>]; durations are in nanoseconds. *)
Definition show_duration (d : N) : string :=
  if (1000000000 <=? d)%N then show_fraction (d / 1000000000) (d mod 1000000000) 9 "s"
  else if (1000000 <=? d)%N then show_fraction (d / 1000000) (d mod 1000000) 6 "ms"
  else if (1000 <=? d)%N then show_fraction (d / 1000) (d mod 1000) 3 (String "194" (String "181" "s"))
  else show_u64 d +:+ "ns".
Example show_durations :
  show_duration 1500000000 = "1.5s" /\ show_duration 20005000 = "20.005ms" /\ show_duration 0 = "0ns".
Proof. by lazy. Qed.

Definition show_tool_error (e : ToolError) : string :=
  match e with
  | InvalidInput m => "invalid input: " +:+ m
  | ToolFailed m => m
  | Denied m => "denied by policy: " +:+ m
  | ToolTimeout d => "timed out after " +:+ show_duration d
  | ToolCancelled => "cancelled"
  | InvalidTaskHandle m => "task handle is invalid: " +:+ m
  | ToolReplayMiss tool h => "replay miss for " +:+ tool +:+ " (" +:+ h +:+ ")"
  | Internal m => "internal tool error: " +:+ m
  end.

Definition show_option_duration (o : option N) : string :=
  match o with Some d => "Some(" +:+ show_duration d +:+ ")" | None => "None" end.
Definition show_provider_error (e : ProviderError) : string :=
  match e with
  | RateLimited r => "rate limited (retry_after: " +:+ show_option_duration r +:+ ")"
  | Server s m => "server error " +:+ show_u64 s +:+ ": " +:+ m
  | ProviderTimeout d => "request timed out after " +:+ show_duration d
  | Transport m => "transport error: " +:+ m
  | Client s m => "client error " +:+ show_u64 s +:+ ": " +:+ m
  | Auth m => "authentication failed: " +:+ m
  | ContextTooLong m => "context length exceeded: " +:+ m
  | InvalidResponse m => "unparseable response: " +:+ m
  | ReplayMiss ck rq => "replay miss for request " +:+ rq +:+ " at checkpoint " +:+ ck
  | ProviderCancelled => "cancelled"
  end.

Definition show_hash_error (e : HashError) : string :=
  match e with
  | NotCanonicalizable m => "value is not canonicalizable: " +:+ m
  | Serialize m => "serialization failed: " +:+ m
  | Malformed m => "malformed hash string: " +:+ m
  end.

Definition show_session_id (s : SessionId) : string := "SessionId(" +:+ dquote +:+ s +:+ dquote +:+ ")".
Definition show_log_error (e : LogError) : string :=
  match e with
  | LogIo m => "io error: " +:+ m
  | LogMalformed line source => "malformed line " +:+ show_u64 line +:+ ": " +:+ source
  | SeqOrder f e => "seq " +:+ show_u64 f +:+ " out of order (expected " +:+ show_u64 e +:+ ")"
  | WrongSession f e => "log is for session " +:+ show_session_id f +:+ ", expected " +:+ show_session_id e
  | NewerSchema f s =>
      "log has event_schema_version " +:+ show_u64 f +:+ ", this kernel reads up to " +:+ show_u64 s
  | LogClosed => "log is closed"
  end.

(** * Tools, sandbox and session processes *)

(** [host::Command]. *)
Record Command : Type := {
  cmd_program : string; cmd_args : list string; cmd_cwd : option string; cmd_env : list (string * string);
  cmd_stdin : option string
}.

(** What an invocation does: the tasks its completion futures are registered for at each pending
    poll and at the last one, and how it ends ([None]: the policy timeout fires first). *)
Record Invocation : Type := {
  inv_pending : list (list TaskId);
  inv_last : list TaskId;
  inv_end : option (result ToolError ToolResult)
}.

Record SessionProcess (X : Type) : Type := { is_alive : X -> bool; terminate : X -> X }.
Arguments is_alive {X} _ _.
Arguments terminate {X} _ _.

(** What a [ToolContext] says about the call besides the handles of the process. *)
Record ToolContext (X : Type) : Type := {
  tcx_session_id : SessionId; tcx_turn : N; tcx_tool_use_id : string; tcx_policy : SandboxPolicy;
  tcx_session : option (SessionProcess X)
}.

Record Tool (X : Type) : Type := {
  tool_name : string;
  tool_description : string;
  tool_schema : json;
  tool_kind : ToolKind;
  tool_capabilities : list Capability;
  tool_session_command : option Command;
  tool_invoke : ToolContext X -> json -> X -> X * Invocation
}.
Arguments tool_name {X} _.
Arguments tool_description {X} _.
Arguments tool_schema {X} _.
Arguments tool_kind {X} _.
Arguments tool_capabilities {X} _.
Arguments tool_session_command {X} _.
Arguments tool_invoke {X} _ _ _ _.

(** [Tool::definition]. *)
Definition definition {X} (t : Tool X) : ToolDefinition :=
  {| td_name := tool_name t; td_description := tool_description t; td_input_schema := tool_schema t |}.

Record SandboxBackend (X : Type) : Type := {
  sandbox_name : string;
  launch_session : SandboxPolicy -> Command -> X -> X * result string (SessionProcess X)
}.
Arguments sandbox_name {X} _.
Arguments launch_session {X} _ _ _ _.

(** * The provider *)

Inductive ModelDelta : Type :=
  | TextDelta (index : N) (text : string)
  | ThinkingDelta (index : N) (text : string)
  | ToolUseStart (index : N) (id name : string)
  | ToolUseInputDelta (index : N) (partial_json : string)
  | BlockStop (index : N)
  | Complete (r : ModelResponse).

(** A call that stays pending for some polls and then resolves, or runs into its timeout. *)
Record Call (A : Type) : Type := { call_pending : nat; call_end : option A }.
Arguments call_pending {A} _.
Arguments call_end {A} _.

(** [complete_stream] is given with the items the stream yields until the kernel stops reading. *)
Record Provider (X : Type) : Type := {
  provider_name : string;
  complete : ModelRequest -> X -> X * Call (result ProviderError ModelResponse);
  complete_stream : ModelRequest -> X -> X * Call (result ProviderError (list (result ProviderError ModelDelta)))
}.
Arguments provider_name {X} _.
Arguments complete {X} _ _ _.
Arguments complete_stream {X} _ _ _.

(** * Middleware *)

Inductive ToolFlow : Type :=
  | FlowContinue
  | Replace (r : result ToolError ToolResult).

Record MiddlewareError : Type := { mwe_name : string; mwe_hook : string; mwe_source : string }.
Definition show_middleware_error (e : MiddlewareError) : string :=
  "middleware `" +:+ mwe_name e +:+ "` failed in " +:+ mwe_hook e +:+ ": " +:+ mwe_source e.

(** What a hook does through its [HookContext]: [emit] and [request_compaction]. *)
Inductive HookEffect : Type :=
  | Emit (ev : ExtensionEvent)
  | RequestCompaction (strategy : string).

(** The data of a [HookContext]. *)
Record HookContext : Type := {
  hcx_session_id : SessionId; hcx_turn : N; hcx_checkpoint_hash : string; hcx_profiles : ActiveProfiles;
  hcx_registry : list ToolDefinition
}.

(** A hook run: the outside state it leaves, what it made of its [&mut] arguments, its effects in
    order, and its result. *)
Record HookRun (X A R : Type) : Type := {
  hr_outside : X; hr_args : A; hr_effects : list HookEffect; hr_result : result MiddlewareError R
}.
Arguments hr_outside {X A R} _.
Arguments hr_args {X A R} _.
Arguments hr_effects {X A R} _.
Arguments hr_result {X A R} _.

Record Middleware (X : Type) : Type := {
  before_model : HookContext -> State -> ModelRequest -> X -> HookRun X (State * ModelRequest) unit;
  after_model : HookContext -> State -> ModelResponse -> X -> HookRun X (State * ModelResponse) unit;
  before_tool : HookContext -> State -> ToolCall -> X -> HookRun X (State * ToolCall) ToolFlow;
  after_tool : HookContext -> State -> ToolCall -> ToolOutput -> X -> HookRun X (State * ToolOutput) unit;
  on_compact : HookContext -> State -> X -> HookRun X State unit;
  on_resume : HookContext -> State -> ResumeCause -> X -> HookRun X State unit
}.
Arguments before_model {X} _ _ _ _ _.
Arguments after_model {X} _ _ _ _ _.
Arguments before_tool {X} _ _ _ _ _.
Arguments after_tool {X} _ _ _ _ _ _.
Arguments on_compact {X} _ _ _ _.
Arguments on_resume {X} _ _ _ _ _.

(** The trait's default hooks: every argument is left alone. *)
Definition quiet {X A R} (r : R) (a : A) (x : X) : HookRun X A R :=
  {| hr_outside := x; hr_args := a; hr_effects := []; hr_result := Ok r |}.
Definition default_middleware {X} : Middleware X := {|
  before_model _ s q x := quiet tt (s, q) x;
  after_model _ s r x := quiet tt (s, r) x;
  before_tool _ s c x := quiet FlowContinue (s, c) x;
  after_tool _ s _ o x := quiet tt (s, o) x;
  on_compact _ s x := quiet tt s x;
  on_resume _ s _ x := quiet tt s x
|}.

Record MiddlewareEntry (X : Type) : Type := {
  mw_name : string; mw_priority : Z; mw_source : MiddlewareSource; mw_config_hash : option string;
  mw_middleware : Middleware X
}.
Arguments mw_name {X} _.
Arguments mw_priority {X} _.
Arguments mw_source {X} _.
Arguments mw_config_hash {X} _.
Arguments mw_middleware {X} _.

(** * The other threads *)

(** [cancel.rs: CancelScope]. *)
Inductive CancelScope : Type :=
  | ScopeTurn
  | ScopeTool (tool_use_id : string)
  | ScopeTask (task_id : TaskId).

(** What another thread may do to the kernel between two of its steps: use a [KernelHandle], let a
    registered completion future resolve, or register a secret with the shared redactor. *)
Inductive Signal : Type :=
  | SigUserMessage (m : Message)
  | SigTaskUpdate (u : TaskUpdate)
  | SigCancel (scope : CancelScope)
  | SigFutureDone (id : TaskId) (outcome : TaskOutcome)
  | SigRegisterSecret (v : string).

(** The rest of the process as the kernel meets it.  [more_rounds] is how many items beyond those
    already there arrive in the inbox while the kernel empties it. *)
Class Outside (X : Type) : Type := {
  signals : X -> X * list Signal;
  more_rounds : X -> X * nat;
  new_request_id : X -> X * string;
  random_f64 : X -> X * spec_float;
  now_rfc3339_ms : X -> X * string;
  elapsed_ms : X -> X * N;
  sleep : N -> X -> X * nat
}.
