(* ===== verification/Memory.v ===== *)
(** Functional memory ([kernel/src/memory.rs]): the interface, and the implementation that keeps
    nothing. *)

From S2P Require Import Prelude Ord Str Json Outside.

Open Scope string_scope.
Open Scope list_scope.

(** [MemoryPointer] is the hash of a snapshot; [None] is the panic of [expect]. *)
Definition MemoryPointer : Type := string.
Record MemoryItem : Type := { mi_id : string; mi_content : json; mi_tags : list string }.
Record MemoryQuery : Type := { mq_text : string; mq_limit : N; mq_tags : list string }.
Inductive MemoryError : Type :=
  | MemoryNotFound (p : MemoryPointer)
  | NoItem (id : string)
  | MemoryIo (m : string).
(** The [Memory] trait: every mutation gives the pointer of a new snapshot. *)
Record Memory (X : Type) : Type := {
  mem_name : string;
  mem_store : option MemoryPointer -> MemoryItem -> X -> X * option (result MemoryError MemoryPointer);
  mem_retrieve : MemoryPointer -> MemoryQuery -> X -> X * option (result MemoryError (list MemoryItem));
  mem_update : MemoryPointer -> MemoryItem -> X -> X * option (result MemoryError MemoryPointer);
  mem_compress : MemoryPointer -> X -> X * option (result MemoryError MemoryPointer);
  mem_forget : MemoryPointer -> string -> X -> X * option (result MemoryError MemoryPointer)
}.
Arguments mem_name {X} _.
Arguments mem_store {X} _ _ _ _.
Arguments mem_retrieve {X} _ _ _ _.
Arguments mem_update {X} _ _ _ _.
Arguments mem_compress {X} _ _ _.
Arguments mem_forget {X} _ _ _ _.

Section noop.
Context {HP : Platform} {X : Type}.
(** [MemoryPointer::empty]: the hash of [null]. *)
Definition empty_pointer : option MemoryPointer := ok (of_canonical_json JNull).
Definition noop_memory : Memory X := {|
  mem_name := "noop";
  mem_store _ _ x := (x, Ok <$> empty_pointer);
  mem_retrieve _ _ x := (x, Some (Ok []));
  mem_update _ _ x := (x, Ok <$> empty_pointer);
  mem_compress _ x := (x, Ok <$> empty_pointer);
  mem_forget _ _ x := (x, Ok <$> empty_pointer)
|}.

(** [null] is canonicalizable, so no call panics, and every mutation gives the pointer of
    an empty snapshot. *)
Lemma noop_memory_never_panics : exists p, empty_pointer = Some p /\
  forall at_ from item id (x : X),
    mem_store noop_memory at_ item x = (x, Some (Ok p)) /\ mem_update noop_memory from item x = (x, Some (Ok p)) /\
    mem_compress noop_memory from x = (x, Some (Ok p)) /\ mem_forget noop_memory from id x = (x, Some (Ok p)).
Proof. exists (of_bytes "null"). split; [done|]. intros. by split_and!. Qed.
End noop.
