(* ===== verification/Time.v ===== *)
(** [time.rs]: RFC 3339 timestamps.  The civil-from-days algorithm against the calendar counted
    year by year. *)

From S2P Require Import Prelude Ord Str Json Outside.

Open Scope string_scope.
Open Scope Z_scope.

(** [civil_from_days]; days are counted from 1970-01-01. *)
Definition civil_from_days (z : Z) : Z * Z * Z :=
  let z := z + 719468 in
  let era := z / 146097 in
  let doe := z mod 146097 in
  let yoe := (doe - doe / 1460 + doe / 36524 - doe / 146096) / 365 in
  let y := yoe + era * 400 in
  let doy := doe - (365 * yoe + yoe / 4 - yoe / 100) in
  let mp := (5 * doy + 2) / 153 in
  let d := doy - (153 * mp + 2) / 5 + 1 in
  let m := if mp <? 10 then mp + 3 else mp - 9 in
  (if m <=? 2 then y + 1 else y, m, d).

(** [{:0w}] of a number that is not negative; a sign counts as a digit. *)
Definition show_padded (w : nat) (n : Z) : string :=
  if n <? 0 then "-" +:+ pad_left (w - 1) (show_Z (- n)) else pad_left w (show_Z n).
(** [x as i64]. *)
Definition as_i64 (n : Z) : Z := (n + 2 ^ 63) mod 2 ^ 64 - 2 ^ 63.

Definition format_rfc3339_ms (unix_ms : N) : string :=
  let secs := as_i64 (Z.of_N unix_ms / 1000) in
  let millis := Z.of_N unix_ms mod 1000 in
  let days := secs / 86400 in
  let sod := secs mod 86400 in
  let '(y, m, d) := civil_from_days days in
  show_padded 4 y +:+ "-" +:+ show_padded 2 m +:+ "-" +:+ show_padded 2 d +:+ "T" +:+ show_padded 2 (sod / 3600) +:+ ":" +:+
  show_padded 2 ((sod mod 3600) / 60) +:+ ":" +:+ show_padded 2 (sod mod 60) +:+ "." +:+ show_padded 3 millis +:+ "Z".

Example known_instants :
  format_rfc3339_ms 0 = "1970-01-01T00:00:00.000Z" /\ format_rfc3339_ms 1788698096789 = "2026-09-06T12:34:56.789Z" /\
  format_rfc3339_ms 951782400000 = "2000-02-29T00:00:00.000Z".
Proof. by lazy. Qed.

(** * Reference: the Gregorian calendar *)

Definition leap (y : Z) : bool := (y mod 4 =? 0) && (negb (y mod 100 =? 0) || (y mod 400 =? 0)).
Definition month_length (y m : Z) : Z :=
  if m =? 2 then if leap y then 29 else 28
  else if (m =? 4) || (m =? 6) || (m =? 9) || (m =? 11) then 30 else 31.
Definition valid_date (y m d : Z) : Prop := 1 <= m <= 12 /\ 1 <= d <= month_length y m.

(** The day after a date. *)
Definition next_day (date : Z * Z * Z) : Z * Z * Z :=
  let '(y, m, d) := date in
  if d <? month_length y m then (y, m, d + 1)
  else if m <? 12 then (y, m + 1, 1) else (y + 1, 1, 1).

(** * Facts *)

(** The year of the era and the day of the year, which starts in March. *)
Definition yoe_of (doe : Z) : Z := (doe - doe / 1460 + doe / 36524 - doe / 146096) / 365.
Definition doy_of (doe : Z) : Z := doe - (365 * yoe_of doe + yoe_of doe / 4 - yoe_of doe / 100).
Lemma leap_era y era : leap (y + era * 400) = leap y.
Proof.
  unfold leap. assert (forall a, 400 mod a = 0 -> a <> 0 -> (y + era * 400) mod a = y mod a) as H.
  { intros a Ha Hne. rewrite Z.add_mod, Z.mul_mod, Ha, Z.mul_0_r, Z.mod_0_l, Z.add_0_r, Z.mod_mod by done. done. }
  by rewrite !H.
Qed.
Lemma yoe_range doe : 0 <= doe < 146097 -> 0 <= yoe_of doe < 400 /\ 0 <= doy_of doe <= if leap (yoe_of doe + 1) then 365 else 364.
Proof.
  intros H. unfold leap.
  destruct (Z.eqb_spec ((yoe_of doe + 1) mod 4) 0), (Z.eqb_spec ((yoe_of doe + 1) mod 100) 0), (Z.eqb_spec ((yoe_of doe + 1) mod 400) 0); simpl;
  unfold doy_of, yoe_of in *;
  Z.to_euclidean_division_equations; lia.
Qed.

(** The first day of a year of the era. *)
Definition year_start (y : Z) : Z := 365 * y + y / 4 - y / 100.
Lemma year_start_mono y y' : y <= y' -> year_start y <= year_start y'.
Proof. unfold year_start. Z.to_euclidean_division_equations. lia. Qed.
Lemma year_start_next y : 0 <= y < 399 -> year_start (y + 1) = year_start y + (if leap (y + 1) then 366 else 365).
Proof.
  intros H. unfold leap, year_start.
  destruct (Z.eqb_spec ((y + 1) mod 4) 0), (Z.eqb_spec ((y + 1) mod 100) 0), (Z.eqb_spec ((y + 1) mod 400) 0); simpl;
    Z.to_euclidean_division_equations; lia.
Qed.
Lemma doe_split doe : doe = year_start (yoe_of doe) + doy_of doe.
Proof. unfold doy_of, year_start. lia. Qed.
Lemma yoe_next doe : 0 <= doe < 146096 ->
  (yoe_of (doe + 1) = yoe_of doe /\ doy_of (doe + 1) = doy_of doe + 1) \/
  (yoe_of (doe + 1) = yoe_of doe + 1 /\ doy_of (doe + 1) = 0 /\ doy_of doe = if leap (yoe_of doe + 1) then 365 else 364).
Proof.
  intros H. destruct (yoe_range doe) as [Hy Hd]; [lia|]. destruct (yoe_range (doe + 1)) as [Hy' Hd']; [lia|].
  pose proof (doe_split doe) as Hs. pose proof (doe_split (doe + 1)) as Hs'.
  set (y := yoe_of doe) in *. set (y' := yoe_of (doe + 1)) in *.
  assert (Hlast : year_start 399 + 365 = 146096) by reflexivity.
  destruct (Z.lt_trichotomy y y') as [Hlt|[Heq|Hlt]].
  - right. pose proof (year_start_mono (y + 1) y' ltac:(lia)) as Hm. pose proof (year_start_next y ltac:(lia)) as Hn.
    assert (y' = y + 1) as ->; [|split_and!; [done|destruct (leap (y + 1)); lia..]].
    destruct (decide (y' = y + 1)) as [|Hne]; [done|]. exfalso.
    pose proof (year_start_mono (y + 2) y' ltac:(lia)) as Hm2. pose proof (year_start_next (y + 1) ltac:(lia)) as Hn2.
    replace (y + 1 + 1) with (y + 2) in Hn2 by lia. destruct (leap (y + 1)), (leap (y + 2)); lia.
  - left. rewrite <- Heq in Hs'. lia.
  - exfalso. pose proof (year_start_mono (y' + 1) y ltac:(lia)) as Hm. pose proof (year_start_next y' ltac:(lia)) as Hn.
    destruct (leap (y' + 1)); lia.
Qed.
(** Month and day within a year that starts in March. *)
Definition month_day (doy : Z) : Z * Z :=
  let mp := (5 * doy + 2) / 153 in
  (if mp <? 10 then mp + 3 else mp - 9, doy - (153 * mp + 2) / 5 + 1).
Definition check_day (lp : bool) (doy : Z) : bool :=
  let '(m, d) := month_day doy in
  let '(m', d') := month_day (doy + 1) in
  let len := if m =? 2 then if lp then 29 else 28
             else if (m =? 4) || (m =? 6) || (m =? 9) || (m =? 11) then 30 else 31 in
  (1 <=? m) && (m <=? 12) && (1 <=? d) && (d <=? len) &&
  (if doy =? (if lp then 365 else 364) then (m =? 2) && (d =? len)
   else if d <? len then (m' =? m) && (d' =? d + 1)
   else (d' =? 1) && if m =? 12 then m' =? 1 else negb (m =? 2) && (m' =? m + 1)).
Lemma days_checked (lp : bool) (doy : Z) : 0 <= doy <= (if lp then 365 else 364) -> check_day lp doy = true.
Proof.
  intros H. assert (Hall : forall lp : bool, forallb (check_day lp) (map Z.of_nat (seq 0 (if lp then 366 else 365)%nat)) = true)
    by (intros []; reflexivity).
  specialize (Hall lp). rewrite forallb_forall in Hall. apply Hall, in_map_iff. exists (Z.to_nat doy).
  split; [lia|]. apply in_seq. destruct lp; lia.
Qed.

(** A date, from the year that starts in March and the day of it. *)
Definition date_of (y doy : Z) : Z * Z * Z :=
  let '(m, d) := month_day doy in (if m <=? 2 then y + 1 else y, m, d).
Lemma civil_date z : let n := z + 719468 in
  civil_from_days z = date_of (yoe_of (n mod 146097) + n / 146097 * 400) (doy_of (n mod 146097)).
Proof. reflexivity. Qed.

Lemma month_length_shift y era m : month_length (y + era * 400) m = month_length y m.
Proof. unfold month_length. by rewrite leap_era. Qed.
Lemma date_next y doy : 0 <= doy <= (if leap (y + 1) then 365 else 364) ->
  let '(y1, m, d) := date_of y doy in valid_date y1 m d /\
  next_day (date_of y doy) = if doy =? (if leap (y + 1) then 365 else 364) then date_of (y + 1) 0 else date_of y (doy + 1).
Proof.
  intros H. pose proof (days_checked _ _ H) as Hc. unfold check_day in Hc. unfold date_of, next_day, valid_date.
  change (month_day 0) with (3, 1). destruct (month_day doy) as [m d], (month_day (doy + 1)) as [m' d'].
  set (lp := leap (y + 1)) in *. set (len := if m =? 2 then _ else _) in Hc. rewrite !andb_true_iff in Hc.
  destruct Hc as ((((H1 & H2) & H3) & H4) & H5).
  assert (Hlen : month_length (if m <=? 2 then y + 1 else y) m = len).
  { unfold month_length, len. destruct (Z.eqb_spec m 2) as [->|]; [done|done]. }
  rewrite Hlen. split; [lia|]. destruct (doy =? _).
  - apply andb_prop in H5 as [->%Z.eqb_eq ->%Z.eqb_eq]. rewrite Z.ltb_irrefl. done.
  - destruct (d <? len).
    + apply andb_prop in H5 as [->%Z.eqb_eq ->%Z.eqb_eq]. done.
    + apply andb_prop in H5 as [->%Z.eqb_eq H5]. destruct (Z.eqb_spec m 12) as [->|].
      * apply Z.eqb_eq in H5 as ->. done.
      * apply andb_prop in H5 as [H5 ->%Z.eqb_eq]. replace (m <? 12) with true by lia.
        assert (m <> 2) by (intros ->; done). by destruct (Z.leb_spec m 2), (Z.leb_spec (m + 1) 2); try lia.
Qed.

(** the dates given to consecutive days are consecutive dates of the Gregorian
    calendar, for every day before and after 1970-01-01, which day zero is. *)
Theorem civil_from_days_counts_days :
  civil_from_days 0 = (1970, 1, 1) /\
  forall z, civil_from_days (z + 1) = next_day (civil_from_days z) /\
    let '(y, m, d) := civil_from_days z in valid_date y m d.
Proof.
  split; [reflexivity|]. intros z. rewrite !civil_date. set (n := z + 719468). replace (z + 1 + 719468) with (n + 1) by lia.
  pose proof (Z.mod_pos_bound n 146097 ltac:(lia)) as Hdoe. set (doe := n mod 146097) in *. set (era := n / 146097).
  destruct (yoe_range doe Hdoe) as [Hy Hd].
  assert (Hl : forall y, leap (y + era * 400 + 1) = leap (y + 1)) by (intros y; rewrite <- (leap_era (y + 1) era); f_equal; lia).
  pose proof (date_next (yoe_of doe + era * 400) (doy_of doe)) as Hn. rewrite Hl in Hn. specialize (Hn Hd).
  destruct (date_of (yoe_of doe + era * 400) (doy_of doe)) as [[y m] d]. destruct Hn as [Hv ->]. split; [|done].
  destruct (decide (doe = 146096)) as [Hlast|Hlast].
  - assert ((n + 1) mod 146097 = 0 /\ (n + 1) / 146097 = era + 1) as [-> ->].
    { unfold doe, era in *. Z.to_euclidean_division_equations. lia. }
    rewrite Hlast. change (yoe_of 146096) with 399. change (doy_of 146096) with 365. change (leap (399 + 1)) with true.
    change (yoe_of 0) with 0. change (doy_of 0) with 0. simpl. f_equal. lia.
  - assert ((n + 1) mod 146097 = doe + 1 /\ (n + 1) / 146097 = era) as [-> ->].
    { unfold doe, era in *. Z.to_euclidean_division_equations. lia. }
    destruct (yoe_next doe ltac:(lia)) as [[E1 E2]|(-> & -> & ->)].
    + destruct (yoe_range (doe + 1) ltac:(lia)) as [_ Hd']. rewrite E1, E2 in *.
      destruct (Z.eqb_spec (doy_of doe) (if leap (yoe_of doe + 1) then 365 else 364)); [|done]. lia.
    + rewrite Z.eqb_refl. f_equal. lia.
Qed.
