(* ===== verification/Accumulate.v ===== *)
(** [providers/src/accumulate.rs]: streamed chunks assembled into deltas and one response.  Every
    step takes the accumulator with the deltas of the current call. *)

From Stdlib Require Import Floats.SpecFloat.
From S2P Require Import Prelude Ord Str Utf8 Capability Sandbox Json Strict Codec Data Event Spill Log Outside.

Open Scope string_scope.
Open Scope list_scope.

(** [quirks.rs: ReasoningField]. *)
Inductive ReasoningField : Type :=
  | NoReasoning
  | ReasoningContent
  | Reasoning
  | ProviderSpecificFields
  | InlineThink.
#[export] Instance ReasoningField_eq_dec : EqDecision ReasoningField.
Proof. solve_decision. Defined.

Record ToolAcc : Type := {
  ta_block : option N;
  ta_id : string;
  ta_name : string;
  ta_arguments : string;
  ta_emitted : nat
}.
Definition default_tool : ToolAcc := {| ta_block := None; ta_id := ""; ta_name := ""; ta_arguments := ""; ta_emitted := 0 |}.

Record Accumulator : Type := {
  ac_reasoning_field : ReasoningField;
  ac_next_block : N;
  ac_thinking_block : option N;
  ac_text_block : option N;
  ac_open_stream_block : option N;
  ac_thinking : string;
  ac_signature : option string;
  ac_text : string;
  ac_tools : list (N * ToolAcc);
  ac_last_tool_index : option N;
  ac_usage : option Usage;
  ac_finish_reason : option string;
  ac_model : option string;
  ac_response_id : option string;
  ac_raw : string;
  ac_chunks : nat
}.
Definition ac_set_next_block (v : N) (a : Accumulator) : Accumulator :=
  {| ac_reasoning_field := ac_reasoning_field a; ac_next_block := v; ac_thinking_block := ac_thinking_block a;
     ac_text_block := ac_text_block a; ac_open_stream_block := ac_open_stream_block a; ac_thinking := ac_thinking a;
     ac_signature := ac_signature a; ac_text := ac_text a; ac_tools := ac_tools a;
     ac_last_tool_index := ac_last_tool_index a; ac_usage := ac_usage a; ac_finish_reason := ac_finish_reason a;
     ac_model := ac_model a; ac_response_id := ac_response_id a; ac_raw := ac_raw a; ac_chunks := ac_chunks a |}.
Definition ac_set_thinking_block (v : option N) (a : Accumulator) : Accumulator :=
  {| ac_reasoning_field := ac_reasoning_field a; ac_next_block := ac_next_block a; ac_thinking_block := v;
     ac_text_block := ac_text_block a; ac_open_stream_block := ac_open_stream_block a; ac_thinking := ac_thinking a;
     ac_signature := ac_signature a; ac_text := ac_text a; ac_tools := ac_tools a;
     ac_last_tool_index := ac_last_tool_index a; ac_usage := ac_usage a; ac_finish_reason := ac_finish_reason a;
     ac_model := ac_model a; ac_response_id := ac_response_id a; ac_raw := ac_raw a; ac_chunks := ac_chunks a |}.
Definition ac_set_text_block (v : option N) (a : Accumulator) : Accumulator :=
  {| ac_reasoning_field := ac_reasoning_field a; ac_next_block := ac_next_block a;
     ac_thinking_block := ac_thinking_block a; ac_text_block := v; ac_open_stream_block := ac_open_stream_block a;
     ac_thinking := ac_thinking a; ac_signature := ac_signature a; ac_text := ac_text a; ac_tools := ac_tools a;
     ac_last_tool_index := ac_last_tool_index a; ac_usage := ac_usage a; ac_finish_reason := ac_finish_reason a;
     ac_model := ac_model a; ac_response_id := ac_response_id a; ac_raw := ac_raw a; ac_chunks := ac_chunks a |}.
Definition ac_set_open_stream_block (v : option N) (a : Accumulator) : Accumulator :=
  {| ac_reasoning_field := ac_reasoning_field a; ac_next_block := ac_next_block a;
     ac_thinking_block := ac_thinking_block a; ac_text_block := ac_text_block a; ac_open_stream_block := v;
     ac_thinking := ac_thinking a; ac_signature := ac_signature a; ac_text := ac_text a; ac_tools := ac_tools a;
     ac_last_tool_index := ac_last_tool_index a; ac_usage := ac_usage a; ac_finish_reason := ac_finish_reason a;
     ac_model := ac_model a; ac_response_id := ac_response_id a; ac_raw := ac_raw a; ac_chunks := ac_chunks a |}.
Definition ac_set_thinking (v : string) (a : Accumulator) : Accumulator :=
  {| ac_reasoning_field := ac_reasoning_field a; ac_next_block := ac_next_block a;
     ac_thinking_block := ac_thinking_block a; ac_text_block := ac_text_block a;
     ac_open_stream_block := ac_open_stream_block a; ac_thinking := v; ac_signature := ac_signature a;
     ac_text := ac_text a; ac_tools := ac_tools a; ac_last_tool_index := ac_last_tool_index a;
     ac_usage := ac_usage a; ac_finish_reason := ac_finish_reason a; ac_model := ac_model a;
     ac_response_id := ac_response_id a; ac_raw := ac_raw a; ac_chunks := ac_chunks a |}.
Definition ac_set_signature (v : option string) (a : Accumulator) : Accumulator :=
  {| ac_reasoning_field := ac_reasoning_field a; ac_next_block := ac_next_block a;
     ac_thinking_block := ac_thinking_block a; ac_text_block := ac_text_block a;
     ac_open_stream_block := ac_open_stream_block a; ac_thinking := ac_thinking a; ac_signature := v;
     ac_text := ac_text a; ac_tools := ac_tools a; ac_last_tool_index := ac_last_tool_index a;
     ac_usage := ac_usage a; ac_finish_reason := ac_finish_reason a; ac_model := ac_model a;
     ac_response_id := ac_response_id a; ac_raw := ac_raw a; ac_chunks := ac_chunks a |}.
Definition ac_set_text (v : string) (a : Accumulator) : Accumulator :=
  {| ac_reasoning_field := ac_reasoning_field a; ac_next_block := ac_next_block a;
     ac_thinking_block := ac_thinking_block a; ac_text_block := ac_text_block a;
     ac_open_stream_block := ac_open_stream_block a; ac_thinking := ac_thinking a; ac_signature := ac_signature a;
     ac_text := v; ac_tools := ac_tools a; ac_last_tool_index := ac_last_tool_index a; ac_usage := ac_usage a;
     ac_finish_reason := ac_finish_reason a; ac_model := ac_model a; ac_response_id := ac_response_id a;
     ac_raw := ac_raw a; ac_chunks := ac_chunks a |}.
Definition ac_set_tools (v : list (N * ToolAcc)) (a : Accumulator) : Accumulator :=
  {| ac_reasoning_field := ac_reasoning_field a; ac_next_block := ac_next_block a;
     ac_thinking_block := ac_thinking_block a; ac_text_block := ac_text_block a;
     ac_open_stream_block := ac_open_stream_block a; ac_thinking := ac_thinking a; ac_signature := ac_signature a;
     ac_text := ac_text a; ac_tools := v; ac_last_tool_index := ac_last_tool_index a; ac_usage := ac_usage a;
     ac_finish_reason := ac_finish_reason a; ac_model := ac_model a; ac_response_id := ac_response_id a;
     ac_raw := ac_raw a; ac_chunks := ac_chunks a |}.
Definition ac_set_last_tool_index (v : option N) (a : Accumulator) : Accumulator :=
  {| ac_reasoning_field := ac_reasoning_field a; ac_next_block := ac_next_block a;
     ac_thinking_block := ac_thinking_block a; ac_text_block := ac_text_block a;
     ac_open_stream_block := ac_open_stream_block a; ac_thinking := ac_thinking a; ac_signature := ac_signature a;
     ac_text := ac_text a; ac_tools := ac_tools a; ac_last_tool_index := v; ac_usage := ac_usage a;
     ac_finish_reason := ac_finish_reason a; ac_model := ac_model a; ac_response_id := ac_response_id a;
     ac_raw := ac_raw a; ac_chunks := ac_chunks a |}.
Definition ac_set_usage (v : option Usage) (a : Accumulator) : Accumulator :=
  {| ac_reasoning_field := ac_reasoning_field a; ac_next_block := ac_next_block a;
     ac_thinking_block := ac_thinking_block a; ac_text_block := ac_text_block a;
     ac_open_stream_block := ac_open_stream_block a; ac_thinking := ac_thinking a; ac_signature := ac_signature a;
     ac_text := ac_text a; ac_tools := ac_tools a; ac_last_tool_index := ac_last_tool_index a; ac_usage := v;
     ac_finish_reason := ac_finish_reason a; ac_model := ac_model a; ac_response_id := ac_response_id a;
     ac_raw := ac_raw a; ac_chunks := ac_chunks a |}.
Definition ac_set_finish_reason (v : option string) (a : Accumulator) : Accumulator :=
  {| ac_reasoning_field := ac_reasoning_field a; ac_next_block := ac_next_block a;
     ac_thinking_block := ac_thinking_block a; ac_text_block := ac_text_block a;
     ac_open_stream_block := ac_open_stream_block a; ac_thinking := ac_thinking a; ac_signature := ac_signature a;
     ac_text := ac_text a; ac_tools := ac_tools a; ac_last_tool_index := ac_last_tool_index a;
     ac_usage := ac_usage a; ac_finish_reason := v; ac_model := ac_model a; ac_response_id := ac_response_id a;
     ac_raw := ac_raw a; ac_chunks := ac_chunks a |}.
Definition ac_set_model (v : option string) (a : Accumulator) : Accumulator :=
  {| ac_reasoning_field := ac_reasoning_field a; ac_next_block := ac_next_block a;
     ac_thinking_block := ac_thinking_block a; ac_text_block := ac_text_block a;
     ac_open_stream_block := ac_open_stream_block a; ac_thinking := ac_thinking a; ac_signature := ac_signature a;
     ac_text := ac_text a; ac_tools := ac_tools a; ac_last_tool_index := ac_last_tool_index a;
     ac_usage := ac_usage a; ac_finish_reason := ac_finish_reason a; ac_model := v;
     ac_response_id := ac_response_id a; ac_raw := ac_raw a; ac_chunks := ac_chunks a |}.
Definition ac_set_response_id (v : option string) (a : Accumulator) : Accumulator :=
  {| ac_reasoning_field := ac_reasoning_field a; ac_next_block := ac_next_block a;
     ac_thinking_block := ac_thinking_block a; ac_text_block := ac_text_block a;
     ac_open_stream_block := ac_open_stream_block a; ac_thinking := ac_thinking a; ac_signature := ac_signature a;
     ac_text := ac_text a; ac_tools := ac_tools a; ac_last_tool_index := ac_last_tool_index a;
     ac_usage := ac_usage a; ac_finish_reason := ac_finish_reason a; ac_model := ac_model a; ac_response_id := v;
     ac_raw := ac_raw a; ac_chunks := ac_chunks a |}.
Definition ac_set_raw (v : string) (a : Accumulator) : Accumulator :=
  {| ac_reasoning_field := ac_reasoning_field a; ac_next_block := ac_next_block a;
     ac_thinking_block := ac_thinking_block a; ac_text_block := ac_text_block a;
     ac_open_stream_block := ac_open_stream_block a; ac_thinking := ac_thinking a; ac_signature := ac_signature a;
     ac_text := ac_text a; ac_tools := ac_tools a; ac_last_tool_index := ac_last_tool_index a;
     ac_usage := ac_usage a; ac_finish_reason := ac_finish_reason a; ac_model := ac_model a;
     ac_response_id := ac_response_id a; ac_raw := v; ac_chunks := ac_chunks a |}.
Definition ac_set_chunks (v : nat) (a : Accumulator) : Accumulator :=
  {| ac_reasoning_field := ac_reasoning_field a; ac_next_block := ac_next_block a;
     ac_thinking_block := ac_thinking_block a; ac_text_block := ac_text_block a;
     ac_open_stream_block := ac_open_stream_block a; ac_thinking := ac_thinking a; ac_signature := ac_signature a;
     ac_text := ac_text a; ac_tools := ac_tools a; ac_last_tool_index := ac_last_tool_index a;
     ac_usage := ac_usage a; ac_finish_reason := ac_finish_reason a; ac_model := ac_model a;
     ac_response_id := ac_response_id a; ac_raw := ac_raw a; ac_chunks := v |}.

(** [Accumulator::new]. *)
Definition ac_new (f : ReasoningField) : Accumulator :=
  {| ac_reasoning_field := f; ac_next_block := 0; ac_thinking_block := None; ac_text_block := None;
     ac_open_stream_block := None; ac_thinking := ""; ac_signature := None; ac_text := ""; ac_tools := [];
     ac_last_tool_index := None; ac_usage := None; ac_finish_reason := None; ac_model := None;
     ac_response_id := None; ac_raw := ""; ac_chunks := 0 |}.

(** [Accumulator::push_raw]. *)
Definition push_raw (payload : string) (a : Accumulator) : Accumulator :=
  ac_set_raw ((if decide (ac_raw a = "") then "" else ac_raw a +:+ String newline "") +:+ payload) a.
Definition saw_finish_reason (a : Accumulator) : bool := bool_decide (is_Some (ac_finish_reason a)).

(** The accumulator with the deltas pushed so far. *)
Definition Out : Type := Accumulator * list ModelDelta.
Definition emit (d : ModelDelta) (o : Out) : Out := (o.1, o.2 ++ [d]).
Definition upd (f : Accumulator -> Accumulator) (o : Out) : Out := (f o.1, o.2).

Definition U32 : N := 2 ^ 32.
(** [alloc_block]; the counter wraps at its width. *)
Definition alloc_block (a : Accumulator) : Accumulator * N :=
  (ac_set_next_block ((ac_next_block a + 1) mod U32) a, ac_next_block a).

Definition close_open_stream_block (o : Out) : Out :=
  match ac_open_stream_block o.1 with
  | Some i => emit (BlockStop i) (upd (ac_set_open_stream_block None) o)
  | None => o
  end.

(** [start_text] and [start_thinking], which differ in the block they start. *)
Definition start_block (block : Accumulator -> option N) (set_block : option N -> Accumulator -> Accumulator)
    (o : Out) : Out * N :=
  match block o.1 with
  | Some i =>
      (if decide (ac_open_stream_block o.1 = Some i) then o
       else upd (ac_set_open_stream_block (Some i)) (close_open_stream_block o), i)
  | None =>
      let o := close_open_stream_block o in
      let '(a, i) := alloc_block o.1 in
      ((ac_set_open_stream_block (Some i) (set_block (Some i) a), o.2), i)
  end.
Definition start_text : Out -> Out * N := start_block ac_text_block ac_set_text_block.
Definition start_thinking : Out -> Out * N := start_block ac_thinking_block ac_set_thinking_block.

Definition str_at (k : string) (v : json) : option string := jget k v ≫= as_str.
Definition non_empty (o : option string) : option string :=
  s ← o; if decide (s = "") then None else Some s.

(** [take_reasoning]. *)
Definition picked_reasoning (f : ReasoningField) (node : json) : option string :=
  non_empty (match f with
             | NoReasoning | InlineThink => None
             | ReasoningContent => jget "reasoning_content" node
             | Reasoning => jget "reasoning" node
             | ProviderSpecificFields => jget "provider_specific_fields" node ≫= jget "reasoning_content"
             end ≫= as_str).
Definition take_signature (a : Accumulator) (b : json) : Accumulator :=
  match non_empty (str_at "signature" b) with Some sig => ac_set_signature (Some sig) a | None => a end.
Definition take_reasoning (node : json) (o : Out) : Out :=
  let o :=
    match picked_reasoning (ac_reasoning_field o.1) node with
    | Some s =>
        let '(o, i) := start_thinking o in
        emit (ThinkingDelta i s) (upd (fun a => ac_set_thinking (ac_thinking a +:+ s) a) o)
    | None => o
    end in
  match jget "thinking_blocks" node ≫= as_array with
  | Some blocks => upd (fun a => foldl take_signature a blocks) o
  | None => o
  end.

Definition take_content (node : json) (o : Out) : Out :=
  match non_empty (str_at "content" node) with
  | Some s =>
      let '(o, i) := start_text o in
      emit (TextDelta i s) (upd (fun a => ac_set_text (ac_text a +:+ s) a) o)
  | None => o
  end.

Section accumulate.
Context {HP : Platform} {HJ : JsonText}.

(** * Tool calls *)

(** The index a fragment belongs to. *)
Definition call_index (pos : nat) (c : json) (a : Accumulator) : N :=
  match jget "index" c ≫= as_u64 with
  | Some i => i
  | None => if non_empty (str_at "id" c) then N.of_nat (Nat.max (length (ac_tools a)) pos)
            else default 0%N (ac_last_tool_index a)
  end.
(** What the fragment says of the call. *)
Definition merge_function (f : json) (t : ToolAcc) : ToolAcc :=
  let t := match non_empty (str_at "name" f) with
           | Some n => {| ta_block := ta_block t; ta_id := ta_id t; ta_name := n; ta_arguments := ta_arguments t;
                          ta_emitted := ta_emitted t |}
           | None => t
           end in
  match jget "arguments" f with
  | Some (JStr s) => {| ta_block := ta_block t; ta_id := ta_id t; ta_name := ta_name t;
                        ta_arguments := ta_arguments t +:+ s; ta_emitted := ta_emitted t |}
  | Some (JObj o) => {| ta_block := ta_block t; ta_id := ta_id t; ta_name := ta_name t;
                        ta_arguments := to_string (JObj o); ta_emitted := 0 |}
  | _ => t
  end.
Definition merge_call (c : json) (t : ToolAcc) : ToolAcc :=
  let t := match non_empty (str_at "id" c) with
           | Some id => {| ta_block := ta_block t; ta_id := id; ta_name := ta_name t; ta_arguments := ta_arguments t;
                           ta_emitted := ta_emitted t |}
           | None => t
           end in
  match jget "function" c with Some f => merge_function f t | None => t end.

(** [ToolUseStart] once the name is known. *)
Definition start_tool (t : ToolAcc) (o : Out) : Out * ToolAcc :=
  if bool_decide (ta_block t = None) && negb (bool_decide (ta_name t = "")) then
    let '(a, i) := alloc_block o.1 in
    let t := {| ta_block := Some i; ta_id := ta_id t; ta_name := ta_name t; ta_arguments := ta_arguments t;
                ta_emitted := ta_emitted t |} in
    (emit (ToolUseStart i (ta_id t) (ta_name t)) (a, o.2), t)
  else (o, t).
(** Then the arguments not yet emitted. *)
Definition emit_arguments (t : ToolAcc) (o : Out) : Out * ToolAcc :=
  match ta_block t with
  | Some i =>
      if (ta_emitted t <? String.length (ta_arguments t))%nat then
        (emit (ToolUseInputDelta i (str_drop (ta_emitted t) (ta_arguments t))) o,
         {| ta_block := ta_block t; ta_id := ta_id t; ta_name := ta_name t; ta_arguments := ta_arguments t;
            ta_emitted := String.length (ta_arguments t) |})
      else (o, t)
  | None => (o, t)
  end.
Definition advance_tool (t : ToolAcc) (o : Out) : Out * ToolAcc :=
  let '(o, t) := start_tool t o in emit_arguments t o.
Definition take_call (o : Out) (pos : nat) (c : json) : Out :=
  let idx := call_index pos c o.1 in
  let o := upd (ac_set_last_tool_index (Some idx)) o in
  let t := merge_call c (default default_tool (omap_get idx (ac_tools o.1))) in
  let '(o, t) := advance_tool t o in
  upd (fun a => ac_set_tools (omap_insert idx t (ac_tools a)) a) o.
Fixpoint take_calls (pos : nat) (calls : list json) (o : Out) : Out :=
  match calls with
  | [] => o
  | c :: calls => take_calls (S pos) calls (take_call o pos c)
  end.
Definition take_tool_calls (node : json) (o : Out) : Out :=
  match jget "tool_calls" node ≫= as_array with
  | Some calls => take_calls 0 calls o
  | None => o
  end.

(** * Chunks *)

Definition usage_from (u : json) : Usage :=
  let n (k : string) : option N := jget k u ≫= as_u64 in
  {| us_input_tokens := default 0%N (n "prompt_tokens"); us_output_tokens := default 0%N (n "completion_tokens");
     us_cache_read_tokens := (jget "prompt_tokens_details" u ≫= jget "cached_tokens") ≫= as_u64;
     us_reasoning_tokens := (jget "completion_tokens_details" u ≫= jget "reasoning_tokens") ≫= as_u64 |}.

Definition choice_node (ch : json) : option json :=
  match jget "delta" ch with Some d => Some d | None => jget "message" ch end.
Definition push_choice (o : Out) (ch : json) : Out :=
  let o := match choice_node ch with
           | Some node => take_tool_calls node (take_content node (take_reasoning node o))
           | None => o
           end in
  match non_empty (str_at "finish_reason" ch) with
  | Some fr => upd (ac_set_finish_reason (Some fr)) o
  | None => o
  end.
Definition take_header (v : json) (a : Accumulator) : Accumulator :=
  let a := ac_set_chunks (S (ac_chunks a)) a in
  let a := match ac_response_id a, non_empty (str_at "id" v) with
           | None, Some id => ac_set_response_id (Some id) a
           | _, _ => a
           end in
  let a := match ac_model a, non_empty (str_at "model" v) with
           | None, Some m => ac_set_model (Some m) a
           | _, _ => a
           end in
  match jget "usage" v with
  | Some (JObj u) => ac_set_usage (Some (usage_from (JObj u))) a
  | _ => a
  end.
(** [Accumulator::push_chunk]. *)
Definition push_chunk (v : json) (a : Accumulator) : Out :=
  let o := (take_header v a, []) in
  match jget "choices" v ≫= as_array with
  | Some choices => foldl push_choice o choices
  | None => o
  end.

(** * The response *)

(** The first occurrence of [needle]: what precedes and what follows it. *)
Fixpoint find_split (needle s : string) : option (string * string) :=
  match strip_prefix needle s with
  | Some rest => Some ("", rest)
  | None => match s with
            | EmptyString => None
            | String c s => '(before, after) ← find_split needle s; Some (String c before, after)
            end
  end.
Definition split_inline_think (text : string) : option string * string :=
  match find_split "</think>" text with
  | None => (None, text)
  | Some (head, rest) =>
      let think := match find_split "<think>" head with Some (_, t) => t | None => head end in
      (Some (trim think), trim_start_by is_eol rest)
  end.

Definition U32_MAX : N := U32 - 1.
(** The input a call's arguments stand for. *)
Definition parse_arguments (arguments : string) : json :=
  if decide (trim arguments = "") then JObj []
  else match from_str_json arguments with Ok v => v | Err _ => JStr arguments end.
Definition tool_block (kt : N * ToolAcc) : option (N * ContentBlock) :=
  let '(k, t) := kt in
  if bool_decide (ta_name t = "") && bool_decide (ta_arguments t = "") then None
  else Some (default U32_MAX (ta_block t),
             ToolUse (if decide (ta_id t = "") then "call_" +:+ show_u64 k else ta_id t) (ta_name t)
               (parse_arguments (ta_arguments t))).
(** The thinking and the text, after the inline split. *)
Definition split_text (a : Accumulator) : string * string :=
  if decide (ac_reasoning_field a = InlineThink) then
    match split_inline_think (ac_text a) with
    | (Some th, rest) => (ac_thinking a +:+ th, rest)
    | (None, _) => (ac_thinking a, ac_text a)
    end
  else (ac_thinking a, ac_text a).
Definition or_else {A} (o o' : option A) : option A := match o with Some _ => o | None => o' end.
Definition ordered_blocks (a : Accumulator) : list (N * ContentBlock) :=
  let '(thinking, text) := split_text a in
  (if bool_decide (thinking = "") && bool_decide (ac_signature a = None) then []
   else [(default 0%N (or_else (ac_thinking_block a) (ac_text_block a)), Thinking thinking (ac_signature a))]) ++
  (if decide (text = "") then [] else [(default U32_MAX (ac_text_block a), Text text)]) ++
  omap tool_block (ac_tools a).

(** [sort_by_key] on the slot: stable. *)
Fixpoint insert_slot (b : N * ContentBlock) (l : list (N * ContentBlock)) : list (N * ContentBlock) :=
  match l with
  | [] => [b]
  | b' :: l' => if (b.1 <=? b'.1)%N then b :: l else b' :: insert_slot b l'
  end.
Definition sort_slots (l : list (N * ContentBlock)) : list (N * ContentBlock) := foldr insert_slot [] l.

Definition stop_reason (had_tool_calls : bool) (finish_reason : option string) : StopReason :=
  match finish_reason with
  | None => if had_tool_calls then StopToolUse else EndTurn
  | Some s =>
      if decide (s = "tool_calls") then StopToolUse
      else if decide (s = "length") then MaxTokens
      else if decide (s = "content_filter") then ContentFilter
      else if decide (s = "stop") then if had_tool_calls then StopToolUse else EndTurn
      else Other s
  end.
Definition no_usage : Usage :=
  {| us_input_tokens := 0; us_output_tokens := 0; us_cache_read_tokens := None; us_reasoning_tokens := None |}.
Definition response (fallback_model : string) (a : Accumulator) : ModelResponse :=
  {| mr_content := (sort_slots (ordered_blocks a)).*2;
     mr_stop_reason := stop_reason (negb (bool_decide (omap tool_block (ac_tools a) = []))) (ac_finish_reason a);
     mr_usage := default no_usage (ac_usage a); mr_model_id := default fallback_model (ac_model a);
     mr_raw_response_hash := of_bytes (ac_raw a); mr_response_id := ac_response_id a |}.
Definition stop_tool (kt : N * ToolAcc) : option ModelDelta := BlockStop <$> ta_block kt.2.
(** [Accumulator::finish]. *)
Definition finish_response (fallback_model : string) (a : Accumulator) : list ModelDelta * ModelResponse :=
  let '(a, out) := close_open_stream_block (a, []) in
  let resp := response fallback_model a in
  (out ++ omap stop_tool (ac_tools a) ++ [Complete resp], resp).
End accumulate.

(** * What a stream of deltas spells *)

Definition texts (ds : list ModelDelta) : string :=
  foldr (fun d s => match d with TextDelta _ t => t +:+ s | _ => s end) "" ds.
Definition thoughts (ds : list ModelDelta) : string :=
  foldr (fun d s => match d with ThinkingDelta _ t => t +:+ s | _ => s end) "" ds.
Definition inputs (i : N) (ds : list ModelDelta) : string :=
  foldr (fun d s => match d with ToolUseInputDelta j p => if (j =? i)%N then p +:+ s else s | _ => s end) "" ds.
Definition completed (ds : list ModelDelta) : list ModelResponse :=
  omap (fun d => match d with Complete r => Some r | _ => None end) ds.
Definition announced (i : N) (ds : list ModelDelta) : Prop := exists id name, ToolUseStart i id name ∈ ds.

Lemma texts_app ds ds' : texts (ds ++ ds') = texts ds +:+ texts ds'.
Proof.
  induction ds as [|d ds IH]; [done|]. simpl. destruct d; rewrite ?IH, ?str_app_assoc; done.
Qed.
Lemma thoughts_app ds ds' : thoughts (ds ++ ds') = thoughts ds +:+ thoughts ds'.
Proof.
  induction ds as [|d ds IH]; [done|]. simpl. destruct d; rewrite ?IH, ?str_app_assoc; done.
Qed.
Lemma inputs_app i ds ds' : inputs i (ds ++ ds') = inputs i ds +:+ inputs i ds'.
Proof.
  induction ds as [|d ds IH]; [done|]. simpl. destruct d; try case_match; rewrite ?IH, ?str_app_assoc; done.
Qed.
Lemma announced_snoc i ds d : announced i (ds ++ [d]) <-> announced i ds \/ exists id name, d = ToolUseStart i id name.
Proof.
  unfold announced. setoid_rewrite elem_of_app. setoid_rewrite list_elem_of_singleton. naive_solver.
Qed.

(** A whole stream of chunks. *)
Fixpoint push_chunks `{JsonText} (vs : list json) (a : Accumulator) : Out :=
  match vs with
  | [] => (a, [])
  | v :: vs =>
      let '(a, ds) := push_chunk v a in
      let '(a, more) := push_chunks vs a in
      (a, ds ++ more)
  end.

(** Chunks whose call arguments come as text, not as parsed objects. *)
Definition spelled_call (c : json) : bool :=
  match jget "function" c ≫= jget "arguments" with Some (JObj _) => false | _ => true end.
Definition spelled_choice (ch : json) : bool :=
  match (choice_node ch ≫= jget "tool_calls") ≫= as_array with Some calls => forallb spelled_call calls | None => true end.
Definition spelled (v : json) : bool :=
  match jget "choices" v ≫= as_array with Some choices => forallb spelled_choice choices | None => true end.

(** * The accumulator holds what its deltas spell *)

Record spells (a : Accumulator) (ds : list ModelDelta) : Prop := {
  sp_text : ac_text a = texts ds;
  sp_thoughts : ac_thinking a = thoughts ds;
  sp_next : (ac_next_block a <= N.of_nat (length ds))%N;
  sp_tool : forall k t i, omap_get k (ac_tools a) = Some t -> ta_block t = Some i ->
    (i < ac_next_block a)%N /\ ta_name t <> "" /\ ta_emitted t = String.length (ta_arguments t) /\
    inputs i ds = ta_arguments t;
  sp_waiting : forall k t, omap_get k (ac_tools a) = Some t -> ta_block t = None ->
    ta_emitted t = 0%nat /\ ta_name t = "";
  sp_distinct : forall k k' t t' i, omap_get k (ac_tools a) = Some t -> omap_get k' (ac_tools a) = Some t' ->
    ta_block t = Some i -> ta_block t' = Some i -> k = k';
  sp_fresh : forall i, (ac_next_block a <= i)%N -> inputs i ds = "";
  sp_announced : forall i, announced i ds <-> exists k t, omap_get k (ac_tools a) = Some t /\ ta_block t = Some i;
  sp_completed : completed ds = []
}.

Lemma spells_new f : spells (ac_new f) [].
Proof.
  split; try done. intros i. split; [intros (id & name & H); by apply elem_of_nil in H|by intros (k & t & H & _)].
Qed.

(** Deltas that concern no tool call. *)
Definition aside (new : list ModelDelta) : Prop :=
  (forall i, inputs i new = "") /\ (forall i, ~ announced i new) /\ completed new = [].
Lemma aside_stop i : aside [BlockStop i].
Proof. split_and!; [done| |done]. intros j (id & name & H). by apply list_elem_of_singleton in H. Qed.
Lemma aside_nil : aside [].
Proof. split_and!; [done| |done]. intros j (id & name & H). by apply elem_of_nil in H. Qed.
Lemma aside_app l l' : aside l -> aside l' -> aside (l ++ l').
Proof.
  intros (H1 & H2 & H3) (H4 & H5 & H6). split_and!.
  - intros i. by rewrite inputs_app, H1, H4.
  - intros i (id & name & [H|H]%elem_of_app); [eapply H2|eapply H5]; by exists id, name.
  - unfold completed in *. by rewrite omap_app, H3, H6.
Qed.
Lemma aside_text i s : aside [TextDelta i s].
Proof. split_and!; [done| |done]. intros j (id & name & H). by apply list_elem_of_singleton in H. Qed.
Lemma aside_thinking i s : aside [ThinkingDelta i s].
Proof. split_and!; [done| |done]. intros j (id & name & H). by apply list_elem_of_singleton in H. Qed.

Lemma spells_aside a a' ds new : spells a ds -> aside new -> ac_tools a' = ac_tools a ->
  ac_text a' = ac_text a +:+ texts new -> ac_thinking a' = ac_thinking a +:+ thoughts new ->
  (ac_next_block a <= ac_next_block a' <= ac_next_block a + N.of_nat (length new))%N -> spells a' (ds ++ new).
Proof.
  intros [H1 H2 H3 H4 H5 H6 H7 H8 H9] (A1 & A2 & A3) Ht Hx Hg Hn.
  assert (Hi : forall i, inputs i (ds ++ new) = inputs i ds) by (intros i; by rewrite inputs_app, A1, str_app_nil_r).
  split; rewrite ?Ht.
  - by rewrite Hx, texts_app, H1.
  - by rewrite Hg, thoughts_app, H2.
  - rewrite length_app. lia.
  - intros k t i Hk Hb. destruct (H4 k t i Hk Hb) as (? & ? & ? & ?). rewrite Hi. split_and!; [lia|done..].
  - done.
  - done.
  - intros i Hle. rewrite Hi. apply H7. lia.
  - intros i. rewrite <- H8. split; [|intros (id & name & H); exists id, name; apply elem_of_app; by left].
    intros (id & name & [H|H]%elem_of_app); [by exists id, name|destruct (A2 i); by exists id, name].
  - unfold completed in *. by rewrite omap_app, H9, A3.
Qed.

(** [keeps f]: [f] only adds deltas, and keeps the accumulator in step with all of them as long as
    block numbers fit their width. *)
Definition keeps (f : Out -> Out) : Prop := forall pre o,
  (length o.2 <= length (f o).2)%nat /\
  ((N.of_nat (length (pre ++ (f o).2)) < U32)%N -> spells o.1 (pre ++ o.2) -> spells (f o).1 (pre ++ (f o).2)).
Lemma keeps_id : keeps id.
Proof. intros pre o. done. Qed.
Lemma keeps_comp f g : keeps f -> keeps g -> keeps (fun o => g (f o)).
Proof.
  intros Hf Hg pre o. destruct (Hf pre o) as [L1 S1], (Hg pre (f o)) as [L2 S2]. split; [lia|]. intros Hb Hs.
  apply S2; [done|]. apply S1; [|done]. rewrite !length_app in *. lia.
Qed.
(** A step that adds deltas aside from tool calls. *)
Lemma keeps_aside f :
  (forall o, exists a new, f o = (a, o.2 ++ new) /\ aside new /\ ac_tools a = ac_tools o.1 /\
    ac_text a = ac_text o.1 +:+ texts new /\ ac_thinking a = ac_thinking o.1 +:+ thoughts new /\
    ((ac_next_block o.1 + N.of_nat (length new) < U32)%N ->
     (ac_next_block o.1 <= ac_next_block a <= ac_next_block o.1 + N.of_nat (length new))%N)) -> keeps f.
Proof.
  intros H pre o. destruct (H o) as (a & new & -> & Ha & H1 & H2 & H3 & H4). simpl. split; [rewrite length_app; lia|].
  intros Hb Hs. rewrite app_assoc in *. eapply spells_aside; [done..|]. apply H4.
  pose proof (sp_next _ _ Hs). rewrite length_app in Hb. lia.
Qed.
Lemma keeps_silent g : (forall a, ac_tools (g a) = ac_tools a /\ ac_text (g a) = ac_text a /\
    ac_thinking (g a) = ac_thinking a /\ ac_next_block (g a) = ac_next_block a) -> keeps (upd g).
Proof.
  intros H. apply keeps_aside. intros o. destruct (H o.1) as (H1 & H2 & H3 & H4). exists (g o.1), [].
  rewrite app_nil_r. split_and!; [done|apply aside_nil|done|..]; simpl; rewrite ?str_app_nil_r; [done..|]. lia.
Qed.

(** ** Text and thinking *)

Record same_content (a a' : Accumulator) : Prop := {
  sc_tools : ac_tools a' = ac_tools a;
  sc_text : ac_text a' = ac_text a;
  sc_thinking : ac_thinking a' = ac_thinking a
}.
Definition mute (new : list ModelDelta) : Prop := aside new /\ texts new = "" /\ thoughts new = "".

Lemma close_spec o : exists a new, close_open_stream_block o = (a, o.2 ++ new) /\ mute new /\ same_content o.1 a /\
  ac_next_block a = ac_next_block o.1.
Proof.
  unfold close_open_stream_block. destruct (ac_open_stream_block o.1) as [i|].
  - eexists _, [BlockStop i]. split_and!; [reflexivity|split; [apply aside_stop|done]|done|done].
  - exists o.1, []. rewrite app_nil_r. split_and!; [by destruct o|split; [apply aside_nil|done]|done|done].
Qed.
Lemma start_block_spec block set_block o :
  (forall v a, same_content a (set_block v a) /\ ac_next_block (set_block v a) = ac_next_block a) ->
  exists a new i, start_block block set_block o = ((a, o.2 ++ new), i) /\ mute new /\ same_content o.1 a /\
    ((ac_next_block o.1 + 1 < U32)%N -> (ac_next_block o.1 <= ac_next_block a <= ac_next_block o.1 + 1)%N).
Proof.
  intros Hset. destruct (close_spec o) as (a & new & Hc & Hm & [H1 H2 H3] & Hn). unfold start_block.
  destruct (block o.1) as [i|].
  - case_decide.
    + exists o.1, [], i. rewrite app_nil_r. split_and!; [by destruct o|split; [apply aside_nil|done]|done|lia].
    + rewrite Hc. eexists _, new, i. split_and!; [reflexivity|done|done|simpl; lia].
  - rewrite Hc. cbn [fst snd]. unfold alloc_block. destruct (Hset (Some (ac_next_block a)) (ac_set_next_block ((ac_next_block a + 1) mod U32) a)) as [[G1 G2 G3] G4].
    eexists _, new, _. split_and!; [reflexivity|done|split; [etransitivity; [exact G1|exact H1]|etransitivity; [exact G2|exact H2]|etransitivity; [exact G3|exact H3]]|].
    intros Hb. cbn [ac_set_open_stream_block ac_next_block]. rewrite G4. cbn [ac_set_next_block ac_next_block].
    rewrite Hn, N.mod_small by done. lia.
Qed.

Lemma keeps_take_content node : keeps (take_content node).
Proof.
  unfold take_content. destruct (non_empty _) as [s|]; [|apply keeps_id]. apply keeps_aside. intros o. unfold start_text.
  destruct (start_block_spec ac_text_block ac_set_text_block o) as (a & new & i & -> & [Hm [Hx Hg]] & [H1 H2 H3] & Hn); [done|].
  exists (ac_set_text (ac_text a +:+ s) a), (new ++ [TextDelta i s]). split; [by unfold emit, upd; rewrite app_assoc|].
  cbn [ac_set_text ac_tools ac_text ac_thinking ac_next_block].
  rewrite texts_app, thoughts_app, Hx, Hg, length_app. simpl. rewrite str_app_nil, !str_app_nil_r, H1, H2, H3.
  split_and!; [apply aside_app; [done|apply aside_text]|done..|]. intros Hb. specialize (Hn ltac:(lia)). lia.
Qed.
Lemma keeps_take_reasoning node : keeps (take_reasoning node).
Proof.
  unfold take_reasoning. apply (keeps_comp _ (fun o => match jget "thinking_blocks" node ≫= as_array with
    | Some blocks => upd (fun a => foldl take_signature a blocks) o | None => o end)).
  - intros pre o. destruct (picked_reasoning _ node) as [s|] eqn:Hp; [|by apply keeps_id]. revert pre o Hp.
    enough (keeps (fun o => let '(o, i) := start_thinking o in
      emit (ThinkingDelta i s) (upd (fun a => ac_set_thinking (ac_thinking a +:+ s) a) o))) as H by (intros; apply H).
    apply keeps_aside. intros o. unfold start_thinking.
    destruct (start_block_spec ac_thinking_block ac_set_thinking_block o) as (a & new & i & -> & [Hm [Hx Hg]] & [H1 H2 H3] & Hn); [done|].
    exists (ac_set_thinking (ac_thinking a +:+ s) a), (new ++ [ThinkingDelta i s]). split; [by unfold emit, upd; rewrite app_assoc|].
    cbn [ac_set_thinking ac_tools ac_text ac_thinking ac_next_block].
    rewrite texts_app, thoughts_app, Hx, Hg, length_app. simpl. rewrite str_app_nil, !str_app_nil_r, H1, H2, H3.
    split_and!; [apply aside_app; [done|apply aside_thinking]|done..|]. intros Hb. specialize (Hn ltac:(lia)). lia.
  - destruct (_ ≫= as_array) as [blocks|]; [|apply keeps_id]. apply keeps_silent.
    induction blocks as [|b blocks IH] using rev_ind; [done|]. intros a. rewrite foldl_snoc. unfold take_signature at 1 3 5 7.
    destruct (IH a) as (H1 & H2 & H3 & H4). by destruct (non_empty _).
Qed.

(** ** Tool calls *)

Section call_facts.
Context {HJ : JsonText}.

Lemma non_empty_Some o s : non_empty o = Some s -> s <> "".
Proof. unfold non_empty. destruct o as [s'|]; simpl; [|done]. case_decide; [done|]. by intros [= <-]. Qed.

Lemma merge_call_spec c t : spelled_call c = true ->
  let t' := merge_call c t in
  ta_block t' = ta_block t /\ ta_emitted t' = ta_emitted t /\ (exists s, ta_arguments t' = ta_arguments t +:+ s) /\
  (ta_name t <> "" -> ta_name t' <> "").
Proof.
  intros Hs t'. subst t'. unfold merge_call. set (t1 := match non_empty (str_at "id" c) with Some _ => _ | None => _ end).
  assert (Ht1 : ta_block t1 = ta_block t /\ ta_emitted t1 = ta_emitted t /\ ta_arguments t1 = ta_arguments t /\ ta_name t1 = ta_name t)
    by (subst t1; by destruct (non_empty _)).
  destruct Ht1 as (<- & <- & <- & <-). unfold spelled_call in Hs.
  destruct (jget "function" c) as [f|]; cbn [mbind option_bind] in Hs.
  - unfold merge_function. destruct (non_empty (str_at "name" f)) as [n|] eqn:Hn.
    + apply non_empty_Some in Hn. destruct (jget "arguments" f) as [[]|]; try done; simpl;
        (split_and!; [done|done| |done]); try (exists ""; by rewrite str_app_nil_r). by eexists.
    + destruct (jget "arguments" f) as [[]|]; try done; simpl;
        (split_and!; [done|done| |done]); try (exists ""; by rewrite str_app_nil_r). by eexists.
  - split_and!; [done|done| |done]. exists "". by rewrite str_app_nil_r.
Qed.

Lemma str_drop_all n s : (String.length s <= n)%nat -> str_drop n s = "".
Proof. revert n. induction s as [|c s IH]; intros [|n] H; simpl in *; try done; [lia|]. apply IH. lia. Qed.

(** What one fragment of a call adds. *)
Definition call_deltas (t t' : ToolAcc) (i : N) (new : list ModelDelta) : Prop :=
  ta_block t' = Some i /\ ta_emitted t' = String.length (ta_arguments t') /\
  (forall j, inputs j new = if decide (j = i) then str_drop (ta_emitted t) (ta_arguments t) else "") /\
  (forall j, announced j new -> j = i).

Lemma emit_arguments_spec t o i : ta_block t = Some i ->
  (ta_emitted t = 0 \/ ta_emitted t <= String.length (ta_arguments t))%nat ->
  exists t' new, emit_arguments t o = ((o.1, o.2 ++ new), t') /\ ta_arguments t' = ta_arguments t /\
    ta_name t' = ta_name t /\ texts new = "" /\ thoughts new = "" /\ completed new = [] /\ (forall j, ~ announced j new) /\
    call_deltas t t' i new.
Proof.
  intros Hb He. unfold emit_arguments. rewrite Hb. destruct (Nat.ltb_spec (ta_emitted t) (String.length (ta_arguments t))).
  - eexists _, [ToolUseInputDelta i _]. split; [reflexivity|].
    assert (Hn : forall j, ~ announced j [ToolUseInputDelta i (str_drop (ta_emitted t) (ta_arguments t))])
      by (intros j (id & name & Hj); by apply list_elem_of_singleton in Hj).
    do 6 (split; [done|]). split; [done|]. split; [done|]. split; [|by intros j ?%Hn].
    intros j. simpl. rewrite str_app_nil_r. by destruct (N.eqb_spec i j), (decide (j = i)).
  - exists t, []. rewrite app_nil_r.
    assert (Hn : forall j, ~ announced j []) by (intros j (id & name & Hj); by apply elem_of_nil in Hj).
    split; [by destruct o|]. do 5 (split; [done|]). split; [done|]. split; [done|]. split; [lia|].
    split; [|by intros j ?%Hn]. intros j. simpl. rewrite str_drop_all by lia. by case_decide.
Qed.

(** The call started if need be, and its arguments emitted. *)
Lemma advance_spec t o : (ta_block t = None -> ta_emitted t = 0%nat) ->
  (forall i, ta_block t = Some i -> (ta_emitted t <= String.length (ta_arguments t))%nat) ->
  exists a t' new, advance_tool t o = ((a, o.2 ++ new), t') /\ same_content o.1 a /\
    ta_arguments t' = ta_arguments t /\ ta_name t' = ta_name t /\ texts new = "" /\ thoughts new = "" /\ completed new = [] /\
    ((ta_block t = None /\ ta_block t' = None /\ ta_emitted t' = 0%nat /\ ta_name t' = "" /\ new = [] /\ a = o.1) \/
     (exists i, call_deltas t t' i new /\
       ((ta_block t = Some i /\ ac_next_block a = ac_next_block o.1) \/
        (ta_block t = None /\ ta_name t <> "" /\ i = ac_next_block o.1 /\ (1 <= length new)%nat /\ announced i new /\
         ac_next_block a = ((ac_next_block o.1 + 1) mod U32)%N)))).
Proof.
  intros H0 Hle. unfold advance_tool, start_tool. destruct (ta_block t) as [i|] eqn:Hb.
  - rewrite bool_decide_eq_false_2 by done. cbn [andb].
    destruct (emit_arguments_spec t o i Hb) as (t' & new & -> & H1 & H2 & H3 & H4 & H5 & _ & H6); [right; by apply (Hle i)|].
    exists o.1, t', new. do 7 (split; [done|]). right. exists i. split; [done|]. by left.
  - specialize (H0 eq_refl). rewrite bool_decide_eq_true_2 by done. destruct (decide (ta_name t = "")) as [Hn|Hn].
    + rewrite bool_decide_eq_true_2 by done. cbn [andb negb]. exists o.1, t, []. unfold emit_arguments. rewrite Hb, app_nil_r.
      destruct o. do 7 (split; [done|]). left. by split_and!.
    + rewrite bool_decide_eq_false_2 by done. cbn [andb negb]. unfold alloc_block.
      set (i := ac_next_block o.1). set (t1 := {| ta_block := Some i; ta_id := _; ta_name := _; ta_arguments := _; ta_emitted := _ |}).
      destruct (emit_arguments_spec t1 (emit (ToolUseStart i (ta_id t1) (ta_name t1)) (ac_set_next_block ((i + 1) mod U32) o.1, o.2)) i eq_refl)
        as (t' & new & -> & H1 & H2 & H3 & H4 & H5 & Hna & H6 & H7 & H8 & H9); [by left|].
      cbn [emit fst snd]. rewrite <- app_assoc. eexists _, t', (_ :: new). split; [reflexivity|].
      do 6 (split; [done|]). right. exists i. split.
      * split; [done|]. split; [done|]. split; [done|].
        intros j (id & name & [[= -> _ _]|Hj]%elem_of_cons); [done|]. destruct (Hna j). by exists id, name.
      * right. split; [done|]. split; [done|]. split; [done|]. split; [simpl; lia|]. split; [|done].
        exists (ta_id t1), (ta_name t1). by left.
Qed.

Lemma take_call_grows pos c o : (length o.2 <= length (take_call o pos c).2)%nat.
Proof.
  unfold take_call, advance_tool, start_tool, emit_arguments, alloc_block, emit, upd.
  repeat (case_match; simplify_eq; cbn [fst snd] in *; try rewrite !length_app; try lia).
Qed.

(** A call that is not yet started leaves everything but itself as it was. *)
Lemma spells_put_waiting a ds idx t' :
  spells a ds -> (forall t, omap_get idx (ac_tools a) = Some t -> ta_block t = None) ->
  ta_block t' = None -> ta_emitted t' = 0%nat -> ta_name t' = "" -> spells (ac_set_tools (omap_insert idx t' (ac_tools a)) a) ds.
Proof.
  intros [H1 H2 H3 H4 H5 H6 H7 H8 H9] Hold Hb He Hname.
  split; cbn [ac_set_tools ac_tools ac_text ac_thinking ac_next_block]; try done.
  - intros k t i. rewrite omap_get_insert. case_decide; [|by apply H4]. intros [= <-]. by rewrite Hb.
  - intros k t. rewrite omap_get_insert. case_decide; [|by apply H5]. by intros [= <-].
  - intros k k' t t2 i. rewrite !omap_get_insert. repeat case_decide; intros; simplify_eq; try congruence. by eapply H6.
  - intros i. rewrite H8. split; intros (k & t & Hk & Hi); exists k, t; revert Hk; rewrite omap_get_insert; case_decide; try done.
    + subst. intros Hk%Hold. congruence.
    + intros [= ->]. congruence.
Qed.
(** A started call whose deltas have caught up with its arguments. *)
Lemma spells_put_started a ds idx t' i a' new :
  spells a ds -> same_content a a' -> texts new = "" -> thoughts new = "" -> completed new = [] ->
  ta_block t' = Some i -> ta_emitted t' = String.length (ta_arguments t') -> ta_name t' <> "" ->
  inputs i (ds ++ new) = ta_arguments t' -> (forall j, j <> i -> inputs j new = "") -> (forall j, announced j new -> j = i) ->
  announced i (ds ++ new) -> (i < ac_next_block a')%N -> (ac_next_block a <= ac_next_block a')%N ->
  (ac_next_block a' <= N.of_nat (length (ds ++ new)))%N ->
  (forall k t, k <> idx -> omap_get k (ac_tools a) = Some t -> ta_block t <> Some i) ->
  (forall t j, omap_get idx (ac_tools a) = Some t -> ta_block t = Some j -> j = i) ->
  spells (ac_set_tools (omap_insert idx t' (ac_tools a')) a') (ds ++ new).
Proof.
  intros [H1 H2 H3 H4 H5 H6 H7 H8 H9] [E1 E2 E3] Tx Th Cm Hb He Hn Hi Hj Han Hai F1 F2 F3 F4 F5.
  split; cbn [ac_set_tools ac_tools ac_text ac_thinking ac_next_block]; rewrite ?E1, ?E2, ?E3.
  - by rewrite texts_app, Tx, str_app_nil_r.
  - by rewrite thoughts_app, Th, str_app_nil_r.
  - done.
  - intros k t j. rewrite omap_get_insert. case_decide as Hk.
    + intros [= <-]. rewrite Hb. intros [= <-]. done.
    + intros Ht Hbj. destruct (H4 _ _ _ Ht Hbj) as (? & ? & ? & ?). assert (j <> i) by (intros ->; by eapply F4).
      rewrite inputs_app, Hj, str_app_nil_r by done. split_and!; [lia|done..].
  - intros k t. rewrite omap_get_insert. case_decide; [|by apply H5]. intros [= <-]. by rewrite Hb.
  - intros k k' t t2 j. rewrite !omap_get_insert. repeat case_decide; intros; simplify_eq; try done.
    + exfalso. eapply F4; [|done|]; [done|congruence].
    + exfalso. eapply F4; [|done|]; [done|congruence].
    + by eapply H6.
  - intros j Hle. rewrite inputs_app, H7, Hj by lia. done.
  - intros j. split.
    2:{ intros (k & t & Hk & Ht). revert Hk. rewrite omap_get_insert. case_decide; [intros [= <-]; by simplify_eq|].
        intros Hk. destruct (proj2 (H8 j)) as (id & name & Hin); [by exists k, t|]. exists id, name. apply elem_of_app. by left. }
    intros (id & name & [Hin|Hin]%elem_of_app).
    + destruct (proj1 (H8 j)) as (k & t & Hk & Ht); [by exists id, name|]. destruct (decide (k = idx)) as [->|].
      * rewrite (F5 _ _ Hk Ht). exists idx, t'. by rewrite omap_get_insert, decide_True.
      * exists k, t. by rewrite omap_get_insert, decide_False.
    + rewrite (Han j) by by exists id, name. exists idx, t'. by rewrite omap_get_insert, decide_True.
  - unfold completed in *. by rewrite omap_app, H9, Cm.
Qed.

Lemma keeps_take_call pos c : spelled_call c = true -> keeps (fun o => take_call o pos c).
Proof.
  intros Hsp pre [a ds]. split; [apply take_call_grows|]. unfold take_call, upd. cbn [fst snd].
  set (idx := call_index pos c a). set (a1 := ac_set_last_tool_index (Some idx) a).
  destruct (merge_call_spec c (default default_tool (omap_get idx (ac_tools a1))) Hsp) as (M1 & M2 & (arg & M3) & M4).
  set (t0 := default default_tool (omap_get idx (ac_tools a1))) in *. set (t := merge_call c t0) in *. intros Hlt Hs0.
  assert (Hs : spells a1 (pre ++ ds)) by by destruct Hs0. clear Hs0. pose proof Hs as [_ _ S3 S4 S5 S6 S7 S8 _].
  assert (Hold : forall i, ta_block t = Some i -> omap_get idx (ac_tools a1) = Some t0).
  { intros i Hi. rewrite M1 in Hi. subst t0. by destruct (omap_get idx (ac_tools a1)). }
  assert (Hwait : ta_block t = None -> ta_emitted t = 0%nat).
  { rewrite M1, M2. subst t0. destruct (omap_get idx (ac_tools a1)) eqn:Hg; [|done]. by apply (S5 idx). }
  destruct (advance_spec t (a1, ds) Hwait) as (a' & t' & new & Hadv & Hsc & Ha & Hn & Tx & Th & Cm & Hcase).
  { intros i Hi. rewrite M2, M3. destruct (S4 _ _ i (Hold _ Hi)) as (_ & _ & -> & _); [by rewrite <- M1|].
    rewrite str_length_app. lia. }
  rewrite Hadv in *. cbn [fst snd] in *. rewrite app_assoc in *.
  destruct Hcase as [(Hb & Hb' & He' & Hn' & -> & ->)|(i & (Hb' & He' & Hin & Han) & Hcase)].
  - rewrite app_nil_r. apply spells_put_waiting; [done| |done..]. intros t2 Ht2. rewrite <- Hb, M1. subst t0. by rewrite Ht2.
  - assert (Hother : forall j, j <> i -> inputs j new = "") by (intros j Hj; by rewrite Hin, decide_False).
    destruct Hcase as [[Hb Hnb]|(Hb & Hne & -> & Hlen & Hai & Hnb)].
    + pose proof (Hold _ Hb) as Hg. destruct (S4 _ _ i Hg) as (Q1 & Q2 & Q3 & Q4); [by rewrite <- M1|].
      apply (spells_put_started a1 _ _ _ i); try done; [rewrite Hn; by apply M4| | | | |rewrite length_app; lia| |]; try lia.
      * rewrite inputs_app, Hin, decide_True, Q4, M2, Q3, M3, str_drop_app, <- M3 by done. by rewrite Ha.
      * destruct (proj2 (S8 i)) as (id & name & H); [exists idx, t0; by rewrite <- M1|].
        exists id, name. apply elem_of_app. by left.
      * intros k t2 Hk Ht2 Hb2. apply Hk. eapply S6; [done|exact Hg|done|]. by rewrite <- M1.
      * intros t2 j Ht2 Hbj. rewrite Hg in Ht2. simplify_eq. rewrite <- M1, Hb in Hbj. by injection Hbj.
    + assert (Hsmall : (ac_next_block a1 + 1 < U32)%N) by (rewrite length_app in Hlt; lia).
      rewrite N.mod_small in Hnb by done.
      apply (spells_put_started a1 _ _ _ (ac_next_block a1)); try done; [by rewrite Hn| | | | |rewrite length_app; lia| |]; try lia.
      * rewrite inputs_app, Hin, decide_True, S7, Hwait, Ha by done. by rewrite str_app_nil.
      * destruct Hai as (id & name & H). exists id, name. apply elem_of_app. by right.
      * intros k t2 Hk Ht2 Hb2. destruct (S4 _ _ _ Ht2 Hb2). lia.
      * intros t2 j Ht2 Hbj. rewrite M1 in Hb. subst t0. rewrite Ht2 in Hb. simpl in Hb. congruence.
Qed.

Lemma keeps_take_calls pos calls : forallb spelled_call calls = true -> keeps (take_calls pos calls).
Proof.
  revert pos. induction calls as [|c calls IH]; intros pos; [intros _; apply keeps_id|]. simpl. intros [Hc Hcs]%andb_prop.
  apply (keeps_comp (fun o => take_call o pos c) (take_calls (S pos) calls)); [by apply keeps_take_call|by apply IH].
Qed.
Lemma keeps_push_choice ch : spelled_choice ch = true -> keeps (fun o => push_choice o ch).
Proof.
  intros Hs. unfold push_choice. apply (keeps_comp _ (fun o => match non_empty (str_at "finish_reason" ch) with
    | Some fr => upd (ac_set_finish_reason (Some fr)) o | None => o end)).
  - unfold spelled_choice in Hs. destruct (choice_node ch) as [node|]; [|apply keeps_id].
    apply (keeps_comp (fun o => take_content node (take_reasoning node o)) (take_tool_calls node)).
    + apply (keeps_comp (take_reasoning node) (take_content node)); [apply keeps_take_reasoning|apply keeps_take_content].
    + unfold take_tool_calls. cbn [mbind option_bind] in Hs. destruct (_ ≫= as_array); [|apply keeps_id].
      by apply keeps_take_calls.
  - destruct (non_empty _); [|apply keeps_id]. by apply keeps_silent.
Qed.
Lemma push_chunk_spells v a pre a' new : spelled v = true -> spells a pre -> push_chunk v a = (a', new) ->
  (N.of_nat (length (pre ++ new)) < U32)%N -> spells a' (pre ++ new).
Proof.
  intros Hv Hs. assert (Hs' : spells (take_header v a) pre).
  { assert (ac_text (take_header v a) = ac_text a /\ ac_thinking (take_header v a) = ac_thinking a /\
      ac_next_block (take_header v a) = ac_next_block a /\ ac_tools (take_header v a) = ac_tools a) as (E1 & E2 & E3 & E4)
      by (unfold take_header; repeat case_match; done).
    destruct Hs. split; rewrite ?E1, ?E2, ?E3, ?E4; done. }
  unfold push_chunk, spelled in *. destruct (_ ≫= as_array) as [choices|].
  - assert (Hk : keeps (fun o => foldl push_choice o choices)).
    { clear -Hv. induction choices as [|ch choices IH]; [apply keeps_id|]. simpl in *. apply andb_prop in Hv as [Hc Hcs].
      apply (keeps_comp (fun o => push_choice o ch) (fun o => foldl push_choice o choices)); [by apply keeps_push_choice|by apply IH]. }
    intros He Hlt. destruct (Hk pre (take_header v a, [])) as [_ H]. rewrite He in H. apply H; [done|].
    simpl. by rewrite app_nil_r.
  - intros [= <- <-] _. by rewrite app_nil_r.
Qed.
Lemma push_chunks_spells vs a pre a' new : forallb spelled vs = true -> spells a pre -> push_chunks vs a = (a', new) ->
  (N.of_nat (length (pre ++ new)) < U32)%N -> spells a' (pre ++ new).
Proof.
  revert a pre new. induction vs as [|v vs IH]; intros a pre new Hv Hs.
  - intros [= <- <-] _. by rewrite app_nil_r.
  - simpl in Hv |- *. apply andb_prop in Hv as [Hv Hvs]. destruct (push_chunk v a) as [a1 n1] eqn:H1.
    destruct (push_chunks vs a1) as [a2 n2] eqn:H2. intros [= <- <-] Hlt. rewrite app_assoc in *.
    apply (IH a1); [done| |done|done]. apply (push_chunk_spells v a); [done..|]. rewrite length_app in Hlt. lia.
Qed.

(** ** The response *)

Context {HP : Platform}.

Lemma insert_slot_perm b l : insert_slot b l ≡ₚ b :: l.
Proof. induction l as [|b' l IH]; [done|]. simpl. case_match; [done|]. rewrite IH. apply Permutation_swap. Qed.
Lemma sort_slots_perm l : sort_slots l ≡ₚ l.
Proof. induction l as [|b l IH]; [done|]. simpl. by rewrite insert_slot_perm, IH. Qed.

Lemma content_elem model a b : b ∈ mr_content (response model a) <-> exists slot, (slot, b) ∈ ordered_blocks a.
Proof.
  unfold response. cbn [mr_content]. rewrite list_elem_of_fmap.
  setoid_rewrite (sort_slots_perm (ordered_blocks a)). split.
  - intros ([slot b'] & -> & H). by exists slot.
  - intros (slot & H). by exists (slot, b).
Qed.
Lemma tool_block_is_tool kt slot b : tool_block kt = Some (slot, b) -> exists id, b = ToolUse id (ta_name kt.2) (parse_arguments (ta_arguments kt.2)).
Proof. destruct kt as [k t]. unfold tool_block. destruct (_ && _); [done|]. intros [= <- <-]. by eexists. Qed.

Lemma content_spelled model a b : ac_reasoning_field a <> InlineThink -> b ∈ mr_content (response model a) <->
  (b = Thinking (ac_thinking a) (ac_signature a) /\ (ac_thinking a <> "" \/ ac_signature a <> None)) \/
  (b = Text (ac_text a) /\ ac_text a <> "") \/
  exists kt slot, kt ∈ ac_tools a /\ tool_block kt = Some (slot, b).
Proof.
  intros Hf. rewrite content_elem. unfold ordered_blocks, split_text. rewrite decide_False by done.
  setoid_rewrite elem_of_app. setoid_rewrite elem_of_app. setoid_rewrite list_elem_of_omap.
  assert (H1 : forall slot, (slot, b) ∈ (if bool_decide (ac_thinking a = "") && bool_decide (ac_signature a = None) then []
    else [(default 0%N (or_else (ac_thinking_block a) (ac_text_block a)), Thinking (ac_thinking a) (ac_signature a))]) <->
    slot = default 0%N (or_else (ac_thinking_block a) (ac_text_block a)) /\ b = Thinking (ac_thinking a) (ac_signature a) /\
    (ac_thinking a <> "" \/ ac_signature a <> None)).
  { intros slot. repeat case_bool_decide; simpl; rewrite ?list_elem_of_singleton, ?elem_of_nil;
      (split; [first [done|intros [= -> ->]; auto]|intros (-> & -> & [?|?]); done]). }
  setoid_rewrite H1.
  assert (H2 : forall slot, (slot, b) ∈ (if decide (ac_text a = "") then [] else [(default U32_MAX (ac_text_block a), Text (ac_text a))]) <->
    slot = default U32_MAX (ac_text_block a) /\ b = Text (ac_text a) /\ ac_text a <> "").
  { intros slot. destruct (decide (ac_text a = "")) as [Hx|Hx]; [rewrite elem_of_nil|rewrite list_elem_of_singleton].
    - split; [done|]. by intros (_ & _ & ?).
    - split; [by intros [= -> ->]|]. by intros (-> & -> & _). }
  setoid_rewrite H2. split.
  - intros (slot & [(_ & ?)|[(_ & ?)|(kt & ? & ?)]]); auto. right; right. by exists kt, slot.
  - intros [H|[H|(kt & slot & H)]]; eexists; [left|right; left|right; right; exists kt; exact H]; by split.
Qed.

(** The field reasoning is read from never changes, the calls stay in order of their keys, and no
    response is announced. *)
Definition steady (o o' : Out) : Prop :=
  ac_reasoning_field o'.1 = ac_reasoning_field o.1 /\ (omap_sorted (ac_tools o.1) -> omap_sorted (ac_tools o'.1)) /\
  completed o'.2 = completed o.2.
#[local] Instance steady_preorder : PreOrder steady.
Proof. split; [done|]. intros x y z (H1 & H2 & H3) (H4 & H5 & H6). split_and!; [congruence|auto|congruence]. Qed.
Lemma steady_emit d o : completed [d] = [] -> steady o (emit d o).
Proof.
  intros Hd. split_and!; [done|done|]. unfold completed, emit in *. cbn [snd]. rewrite omap_app, Hd. apply app_nil_r.
Qed.
Lemma steady_upd g o : ac_reasoning_field (g o.1) = ac_reasoning_field o.1 -> ac_tools (g o.1) = ac_tools o.1 -> steady o (upd g o).
Proof. intros H1 H2. split_and!; simpl; [done|by rewrite H2|done]. Qed.

Lemma close_steady o : steady o (close_open_stream_block o).
Proof.
  unfold close_open_stream_block. destruct (ac_open_stream_block o.1); [|done].
  etransitivity; [by apply (steady_upd (ac_set_open_stream_block None))|]. by apply steady_emit.
Qed.
Lemma start_block_steady block set_block o :
  (forall v a, ac_reasoning_field (set_block v a) = ac_reasoning_field a /\ ac_tools (set_block v a) = ac_tools a) ->
  steady o (start_block block set_block o).1.
Proof.
  intros H. unfold start_block. destruct (block o.1).
  - case_decide; [done|]. etransitivity; [apply close_steady|]. by apply steady_upd.
  - etransitivity; [apply close_steady|]. unfold steady. cbn [fst alloc_block ac_set_open_stream_block ac_reasoning_field ac_tools].
    by rewrite (proj1 (H _ _)), (proj2 (H _ _)).
Qed.
Lemma take_reasoning_steady node o : steady o (take_reasoning node o).
Proof.
  unfold take_reasoning. set (o1 := match picked_reasoning _ node with Some _ => _ | None => _ end).
  assert (Ho : steady o o1).
  { subst o1. destruct (picked_reasoning _ node); [|done].
    pose proof (start_block_steady ac_thinking_block ac_set_thinking_block o (fun _ _ => conj eq_refl eq_refl)) as H.
    unfold start_thinking. destruct (start_block _ _ o) as [o2 i]. etransitivity; [exact H|].
    etransitivity; [|by apply steady_emit]; by apply steady_upd. }
  destruct (_ ≫= as_array) as [blocks|]; [|done]. etransitivity; [exact Ho|].
  enough (forall a, ac_reasoning_field (foldl take_signature a blocks) = ac_reasoning_field a /\
    ac_tools (foldl take_signature a blocks) = ac_tools a) as H by (apply steady_upd; apply H).
  clear. induction blocks as [|b blocks IH]; intros a; [done|]. simpl.
  assert (ac_reasoning_field (take_signature a b) = ac_reasoning_field a /\ ac_tools (take_signature a b) = ac_tools a) as [E1 E2]
    by (unfold take_signature; by destruct (non_empty _)).
  specialize (IH (take_signature a b)). by rewrite E1, E2 in IH.
Qed.
Lemma take_content_steady node o : steady o (take_content node o).
Proof.
  unfold take_content. destruct (non_empty _); [|done].
  pose proof (start_block_steady ac_text_block ac_set_text_block o (fun _ _ => conj eq_refl eq_refl)) as H. unfold start_text.
  destruct (start_block _ _ o) as [o2 i]. etransitivity; [exact H|]. etransitivity; [|by apply steady_emit]; by apply steady_upd.
Qed.
Lemma take_call_steady pos c o : steady o (take_call o pos c).
Proof.
  unfold take_call. destruct (advance_tool _ _) as [o2 t2] eqn:Ha.
  assert (ac_reasoning_field o2.1 = ac_reasoning_field o.1 /\ ac_tools o2.1 = ac_tools o.1 /\ completed o2.2 = completed o.2)
    as (H1 & H2 & H3).
  { change o2 with (o2, t2).1. rewrite <- Ha. unfold advance_tool, start_tool, emit_arguments, alloc_block.
    case_match eqn:Hst; simplify_eq. repeat case_match; simplify_eq; cbn [fst snd upd emit];
      split_and!; try done; unfold completed; rewrite ?omap_app; simpl; by rewrite ?app_nil_r. }
  unfold upd, steady. simpl. rewrite H1, H2, H3. split_and!; [done|apply omap_insert_sorted|done].
Qed.
Lemma foldl_steady {A} (f : Out -> A -> Out) l : (forall o x, steady o (f o x)) -> forall o, steady o (foldl f o l).
Proof. intros Hf. induction l as [|x l IH]; intros o; [done|]. simpl. etransitivity; [apply Hf|apply IH]. Qed.
Lemma take_tool_calls_steady node o : steady o (take_tool_calls node o).
Proof.
  unfold take_tool_calls. destruct (_ ≫= as_array) as [calls|]; [|done]. generalize 0%nat. revert o.
  induction calls as [|c calls IH]; intros o pos; [done|]. simpl. etransitivity; [apply take_call_steady|apply IH].
Qed.
Lemma push_choice_steady o ch : steady o (push_choice o ch).
Proof.
  unfold push_choice. set (o1 := match choice_node ch with Some _ => _ | None => _ end). assert (Ho : steady o o1).
  { subst o1. destruct (choice_node ch) as [node|]; [|done].
    etransitivity; [apply take_reasoning_steady|]. etransitivity; [apply take_content_steady|]. apply take_tool_calls_steady. }
  etransitivity; [exact Ho|]. destruct (non_empty _); [by apply steady_upd|done].
Qed.
Lemma push_chunk_steady v a : steady (a, []) (push_chunk v a).
Proof.
  unfold push_chunk. assert (Hh : steady (a, []) (take_header v a, [])) by (unfold take_header; repeat case_match; done).
  destruct (_ ≫= as_array) as [choices|]; [|done]. etransitivity; [exact Hh|]. apply foldl_steady, push_choice_steady.
Qed.
Lemma push_chunks_steady vs a : steady (a, []) (push_chunks vs a).
Proof.
  revert a. induction vs as [|v vs IH]; intros a; [done|]. simpl. pose proof (push_chunk_steady v a) as Hv.
  destruct (push_chunk v a) as [a1 n1]. specialize (IH a1). destruct (push_chunks vs a1) as [a2 n2].
  destruct Hv as (H1 & H2 & H3), IH as (H4 & H5 & H6). unfold completed in *. simpl in *.
  split_and!; unfold completed; simpl; [congruence|auto|]. by rewrite omap_app, H3, H6.
Qed.

(** The closing deltas end with the response, and announce no other. *)
Lemma finish_response_spec model a : exists stops,
  (finish_response model a).1 = stops ++ [Complete (finish_response model a).2] /\ completed stops = [].
Proof.
  unfold finish_response. pose proof (close_steady (a, [])) as (_ & _ & Hm). destruct (close_open_stream_block (a, [])) as [a1 out].
  exists (out ++ omap stop_tool (ac_tools a1)). simpl in *. split; [by rewrite app_assoc|]. unfold completed in *.
  rewrite omap_app, Hm. clear. induction (ac_tools a1) as [|[k t] l IH]; [done|]. simpl.
  unfold stop_tool at 1. simpl. by destruct (ta_block t).
Qed.
End call_facts.
