(* ===== verification/Deltas.v ===== *)
(** The order of the deltas a provider shows ([providers/src/accumulate.rs]): block numbers follow
    the arrival of the blocks, and the response has the same blocks in the same order. *)

From Stdlib Require Import Floats.SpecFloat.
From S2P Require Import Prelude Ord Str Utf8 Capability Sandbox Json Strict Codec Data Event Spill Log Outside Accumulate.

Open Scope string_scope.
Open Scope list_scope.

(** * What a reader of the deltas expects *)

Inductive BlockKind : Type := KText | KThinking | KTool.
#[export] Instance BlockKind_eq_dec : EqDecision BlockKind.
Proof. solve_decision. Defined.

(** The kinds of the blocks shown so far, by number; the text or thinking block that is going on;
    the calls that were not closed yet. *)
Record Flow : Type := { fw_blocks : list BlockKind; fw_stream : option N; fw_tools : list N }.
Definition block_at (fw : Flow) (i : N) : option BlockKind := fw_blocks fw !! N.to_nat i.
Definition next_number (fw : Flow) : N := N.of_nat (length (fw_blocks fw)).

(** A piece of text or thinking: of the block that is going on, or with none going on of the one
    block of its kind, which takes the next number at its first piece. *)
Definition speak (kind : BlockKind) (i : N) (piece : string) (fw : Flow) : option Flow :=
  let fw' blocks := {| fw_blocks := blocks; fw_stream := Some i; fw_tools := fw_tools fw |} in
  if decide (piece = "") then None
  else if decide (block_at fw i = Some kind) then
    match fw_stream fw with
    | None => Some (fw' (fw_blocks fw))
    | Some j => if decide (j = i) then Some fw else None
    end
  else if decide (i = next_number fw /\ kind ∉ fw_blocks fw /\ fw_stream fw = None)
    then Some (fw' (fw_blocks fw ++ [kind]))
  else None.
Definition flow_step (fw : Flow) (d : ModelDelta) : option Flow :=
  match d with
  | TextDelta i s => speak KText i s fw
  | ThinkingDelta i s => speak KThinking i s fw
  | ToolUseStart i _ name =>
      if decide (i = next_number fw /\ name <> "") then
        Some {| fw_blocks := fw_blocks fw ++ [KTool]; fw_stream := fw_stream fw; fw_tools := i :: fw_tools fw |}
      else None
  | ToolUseInputDelta i _ => if decide (i ∈ fw_tools fw) then Some fw else None
  | BlockStop i =>
      if decide (fw_stream fw = Some i) then
        Some {| fw_blocks := fw_blocks fw; fw_stream := None; fw_tools := fw_tools fw |}
      else if decide (i ∈ fw_tools fw) then
        Some {| fw_blocks := fw_blocks fw; fw_stream := fw_stream fw;
                fw_tools := List.filter (fun j => negb (bool_decide (j = i))) (fw_tools fw) |}
      else None
  | Complete _ => None
  end.
Fixpoint flow (ds : list ModelDelta) (fw : Flow) : option Flow :=
  match ds with [] => Some fw | d :: ds => fw ← flow_step fw d; flow ds fw end.


(** ** Facts *)

Lemma flow_completed ds fw fw' : flow ds fw = Some fw' -> completed ds = [].
Proof.
  revert fw. induction ds as [|d ds IH]; intros fw; [done|]. simpl. destruct (flow_step fw d) as [fw1|] eqn:Hd; [|done].
  intros H. unfold completed in *. simpl. rewrite (IH _ H). by destruct d.
Qed.

(** * The accumulator is where its deltas say *)

Definition piece (kind : BlockKind) (i : N) (s : string) : ModelDelta :=
  match kind with KThinking => ThinkingDelta i s | _ => TextDelta i s end.




(** ** Text and thinking *)





(** ** Tool calls *)

Section calls.
Context {HJ : JsonText}.




(** ** Names *)


(** The calls are the same, and deltas are only added. *)
Definition beside (o o' : Out) : Prop := ac_tools o'.1 = ac_tools o.1 /\ exists new, o'.2 = o.2 ++ new.
#[local] Instance beside_preorder : PreOrder beside.
Proof.
  split; [intros o; split; [done|exists []; by rewrite app_nil_r]|]. intros x y z [H1 [n1 E1]] [H2 [n2 E2]].
  split; [congruence|]. exists (n1 ++ n2). by rewrite E2, E1, app_assoc.
Qed.
End calls.

(** * The end of the stream *)



Section content.
Context {HP : Platform} {HJ : JsonText}.




(** ** Sorting *)

End content.

(** * The response is what was shown *)


Section claim.
Context {HP : Platform} {HJ : JsonText}.




End claim.

(** ** Witness *)

