(* ===== verification/Wire.v ===== *)
(** The wire side of the OpenAI-compatible client: [providers/src/error.rs] (failures as provider
    errors), [providers/src/quirks.rs] (endpoint flags) and [providers/src/request.rs] (rendering a
    request).  What a typed block looks like as JSON text and the base64 alphabet are
    third-party primitives. *)

From Stdlib Require Import Floats.SpecFloat.
From S2P Require Import Prelude Ord Str Utf8 Capability Sandbox Json Strict Codec Data Event Spill Log Outside Accumulate.

Open Scope string_scope.
Open Scope list_scope.

(** [serde_json::to_string] of a derived type writes its fields in declaration order;
    [base64::STANDARD.encode]. *)
Class WireText : Type := {
  block_to_string : ContentBlock -> string;
  base64_encode : string -> string
}.

(** * Host errors *)

Definition show_policy_error (e : PolicyError) : string :=
  match e with
  | Exceeds cap => "capability `" +:+ cap +:+ "` is not covered by any grant"
  | PathDenied path mode =>
      "path `" +:+ path +:+ "` is not permitted for " +:+ match mode with Ro => "Ro" | Rw => "Rw" end
  | ProgramDenied p => "program `" +:+ p +:+ "` is not permitted"
  | NetDenied h => "network is not permitted for host `" +:+ h +:+ "`"
  | EnvNameForbidden n => "environment variable `" +:+ n +:+ "` looks like a secret and cannot be allowlisted"
  | SecretInSandbox => "a `secret:` atom cannot be requested by a sandboxed tool"
  end.

(** [host.rs: HostError]. *)
Inductive HostError : Type :=
  | HostDenied (e : PolicyError)
  | HostNotFound (m : string)
  | HostIo (m : string)
  | UnknownSecret (name : string)
  | NoUser (m : string)
  | HostNet (m : string)
  | HostCancelled.
Definition show_host_error (e : HostError) : string :=
  match e with
  | HostDenied e => "denied by policy: " +:+ show_policy_error e
  | HostNotFound m => "not found: " +:+ m
  | HostIo m => "io error: " +:+ m
  | UnknownSecret n => "unknown secret `" +:+ n +:+ "`"
  | NoUser m => "user interaction unavailable: " +:+ m
  | HostNet m => "network error: " +:+ m
  | HostCancelled => "cancelled"
  end.

(** * Failures as provider errors *)

Section errors.
Context {HJ : JsonText}.

Definition ellipsis : string := String "226" (String "128" (String "166" "")).
(** [truncate]; a text that is too long is cut on a character boundary. *)
Definition truncate (s : string) (max : nat) : string :=
  if (String.length s <=? max)%nat then s else str_take (cut_back s max) s +:+ ellipsis.
Definition MAX_MESSAGE : nat := N.to_nat 2048.

Definition message_candidates (v : json) : list (option json) :=
  [jget "error" v ≫= jget "message";
   match jget "error" v with Some (JStr s) => Some (JStr s) | _ => None end;
   jget "message" v;
   jget "detail" v].
Definition candidate_text (c : json) : string := match c with JStr s => s | other => to_string other end.
Fixpoint first_message (candidates : list (option json)) : option string :=
  match candidates with
  | [] => None
  | None :: cs => first_message cs
  | Some c :: cs => if decide (candidate_text c = "") then first_message cs else Some (candidate_text c)
  end.
Definition error_message (body : string) : string :=
  let text := trim (from_utf8_lossy body) in
  match from_str_json text with
  | Ok v => match first_message (message_candidates v) with
            | Some m => truncate m MAX_MESSAGE
            | None => truncate text MAX_MESSAGE
            end
  | Err _ => truncate text MAX_MESSAGE
  end.

Definition CONTEXT_NEEDLES : list string :=
  ["context length"; "context_length"; "context window"; "maximum context"; "max_tokens"; "max tokens";
   "too many tokens"; "prompt is too long"; "reduce the length"; "exceeds the limit"; "input is too long"].
Definition looks_like_context_overflow (message : string) : bool :=
  existsb (fun needle => contains needle (to_ascii_lowercase message)) CONTEXT_NEEDLES.

(** [str::parse::<u64>]: an optional plus sign and digits that fit. *)
Fixpoint digits_value (s : string) (acc : N) : N :=
  match s with EmptyString => acc | String a s' => digits_value s' (acc * 10 + (byte_val a - 48)) end.
Definition parse_u64 (s : string) : option N :=
  let s := match s with String "+" s' => s' | _ => s end in
  if bool_decide (s <> "") && all_bytes is_ascii_digit s && (digits_value s 0 <? 2 ^ 64)%N then Some (digits_value s 0)
  else None.
(** The first header of that name, in seconds; a duration is in nanoseconds. *)
Definition header (name : string) (headers : list (string * string)) : option string :=
  snd <$> List.find (fun kv => bool_decide (to_ascii_lowercase kv.1 = name)) headers.
Definition secs_of (n : N) : N := n * 1000000000.
Definition retry_after (headers : list (string * string)) : option N :=
  v ← header "retry-after" headers; secs_of <$> parse_u64 (trim v).

Definition classify_status (status : N) (headers : list (string * string)) (body : string) : ProviderError :=
  let message := error_message body in
  if (status =? 429)%N then RateLimited (retry_after headers)
  else if ((status =? 401) || (status =? 403))%N then Auth ("HTTP " +:+ show_u64 status +:+ ": " +:+ message)
  else if (status =? 400)%N && looks_like_context_overflow message then ContextTooLong message
  else if ((500 <=? status) && (status <=? 599))%N then Server status message
  else Client status message.

Definition mentions_timeout (m : string) : bool :=
  let m := to_ascii_lowercase m in contains "timed out" m || contains "timeout" m.
Definition classify_host_error (e : HostError) (timeout : option N) : ProviderError :=
  match e with
  | HostCancelled => ProviderCancelled
  | HostNet m | HostIo m =>
      if mentions_timeout m then ProviderTimeout (default 0%N timeout) else Transport (show_host_error e)
  | _ => Transport (show_host_error e)
  end.
End errors.

(** * Quirks *)

Inductive ToolFormat : Type := NativeTools | ParsedTools (syntax : string).
Inductive Tri : Type := Yes | No | Unknown.
Inductive AuthMode : Type := NoAuth | Bearer (secret_name : string).

Record Quirks : Type := {
  qk_reasoning_field : ReasoningField;
  qk_tool_format : ToolFormat;
  qk_supports_structured_output : Tri;
  qk_supports_stream_usage : bool;
  qk_auth : AuthMode;
  qk_strict_tool_schema : bool;
  qk_sends_finish_reason_tool_calls : bool;
  qk_streams_tool_call_fragments : bool
}.
Definition default_quirks : Quirks :=
  {| qk_reasoning_field := NoReasoning; qk_tool_format := NativeTools; qk_supports_structured_output := Unknown;
     qk_supports_stream_usage := true; qk_auth := NoAuth; qk_strict_tool_schema := false;
     qk_sends_finish_reason_tool_calls := true; qk_streams_tool_call_fragments := true |}.

Record QuirksProfile : Type := {
  qp_reasoning_field : string;
  qp_supports_structured_output : bool;
  qp_supports_stream_usage : bool;
  qp_strict_tool_schema : bool;
  qp_auth : string;
  qp_tool_format : string
}.

Inductive QuirksError : Type :=
  | BadReasoningField (s : string)
  | BadAuth (s : string)
  | BadToolFormat (s : string).

(** [is_secret_name] and [is_syntax_name]: a first character and the rest. *)
Definition is_name (first rest : ascii -> bool) (s : string) : bool :=
  match s with EmptyString => false | String a s' => first a && all_bytes rest s' end.
Definition is_secret_name : string -> bool :=
  is_name is_ascii_uppercase (fun a => is_ascii_uppercase a || is_ascii_digit a || bool_decide (a = "_"%char)).
Definition is_syntax_name : string -> bool :=
  is_name is_ascii_lowercase (fun a => is_ascii_lowercase a || is_ascii_digit a || bool_decide (a = "_"%char) || bool_decide (a = "-"%char)).

Definition parse_reasoning_field (s : string) : result QuirksError ReasoningField :=
  if decide (s = "none") then Ok NoReasoning
  else if decide (s = "reasoning_content") then Ok ReasoningContent
  else if decide (s = "reasoning") then Ok Reasoning
  else if decide (s = "provider_specific_fields") then Ok ProviderSpecificFields
  else if decide (s = "inline_think") then Ok InlineThink
  else Err (BadReasoningField s).
Definition parse_auth (s : string) : result QuirksError AuthMode :=
  if decide (s = "none") then Ok NoAuth
  else match strip_prefix "bearer:" s with
       | Some name => if is_secret_name name then Ok (Bearer name) else Err (BadAuth s)
       | None => Err (BadAuth s)
       end.
Definition parse_tool_format (s : string) : result QuirksError ToolFormat :=
  if decide (s = "native") then Ok NativeTools
  else match strip_prefix "parsed:" s with
       | Some syntax => if is_syntax_name syntax then Ok (ParsedTools syntax) else Err (BadToolFormat s)
       | None => Err (BadToolFormat s)
       end.
(** [Quirks::from_profile]. *)
Definition from_profile (p : QuirksProfile) : result QuirksError Quirks :=
  field ← parse_reasoning_field (qp_reasoning_field p);
  auth ← parse_auth (qp_auth p);
  fmt ← parse_tool_format (qp_tool_format p);
  Ok {| qk_reasoning_field := field; qk_tool_format := fmt;
        qk_supports_structured_output := if qp_supports_structured_output p then Yes else No;
        qk_supports_stream_usage := qp_supports_stream_usage p; qk_auth := auth;
        qk_strict_tool_schema := qp_strict_tool_schema p;
        qk_sends_finish_reason_tool_calls := qk_sends_finish_reason_tool_calls default_quirks;
        qk_streams_tool_call_fragments := qk_streams_tool_call_fragments default_quirks |}.

(** * Rendering a request *)

(** ** Tools *)

Definition OBJECT_KEYWORDS : list string := ["properties"; "$defs"; "definitions"; "patternProperties"].
Definition SCHEMA_KEYWORDS : list string := ["items"; "additionalProperties"; "not"; "if"; "then"; "else"].
Definition ARRAY_KEYWORDS : list string := ["anyOf"; "oneOf"; "allOf"; "prefixItems"].

Definition is_object_schema (o : list (string * json)) : bool :=
  bool_decide (omap_get "type" o ≫= as_str = Some "object") || bool_decide (is_Some (omap_get "properties" o)).
(** [close_object_schemas].  The entry it may add is a boolean, which the loop over the entries
    leaves alone, so it is added after the loop. *)
Fixpoint close_object_schemas (schema : json) : json :=
  match schema with
  | JObj o =>
      let descend (k : string) (v : json) : json :=
        if decide (k ∈ OBJECT_KEYWORDS) then
          match v with JObj children => JObj (map (fun '(c, x) => (c, close_object_schemas x)) children) | _ => v end
        else if decide (k ∈ SCHEMA_KEYWORDS) then close_object_schemas v
        else if decide (k ∈ ARRAY_KEYWORDS) then
          match v with JArr children => JArr (map close_object_schemas children) | _ => v end
        else v in
      let closed := map (fun '(k, v) => (k, descend k v)) o in
      JObj (if is_object_schema o && negb (bool_decide (is_Some (omap_get "additionalProperties" o)))
            then omap_insert "additionalProperties" (JBool false) closed else closed)
  | _ => schema
  end.

Definition render_tool (t : ToolDefinition) (strict : bool) : json :=
  let parameters := match td_input_schema t with
                    | JNull => jobj [("type", JStr "object"); ("properties", JObj [])]
                    | s => s
                    end in
  let parameters := if strict then close_object_schemas parameters else parameters in
  jobj [("type", JStr "function");
        ("function", jobj ([("name", JStr (td_name t)); ("description", JStr (td_description t)); ("parameters", parameters)] ++
                           (if strict then [("strict", JBool true)] else [])))].

Definition nl : string := String newline "".
Definition q : string := dquote.
Section rendering.
Context {HJ : JsonText} {HW : WireText} {X : Type} {HA : ArtifactStore X}.

(** [render_tools_block]. *)
Definition render_tools_block (syntax : string) (tools : list ToolDefinition) : string :=
  "# Tools" +:+ nl +:+ nl +:+ "You may call one or more functions to assist with the user query." +:+ nl +:+ nl +:+
  "You are provided with function signatures within <tools></tools> XML tags:" +:+ nl +:+ "<tools>" +:+ nl +:+
  foldr (fun t s => to_string (render_tool t false) +:+ nl +:+ s) "" tools +:+
  "</tools>" +:+ nl +:+ nl +:+
  (if decide (syntax = "hermes") then
     "For each function call, return a json object with function name and arguments within <tool_call></tool_call> XML tags:" +:+
     nl +:+ "<tool_call>" +:+ nl +:+ "{" +:+ q +:+ "name" +:+ q +:+ ": <function-name>, " +:+ q +:+ "arguments" +:+ q +:+
     ": <args-json-object>}" +:+ nl +:+ "</tool_call>"
   else "Emit function calls in the `" +:+ syntax +:+ "` tool-call syntax expected by this model.").

(** ** Messages *)

Definition wire_block_text (b : ContentBlock) : string :=
  match b with
  | Text text => text
  | Thinking text _ => text
  | Image _ mime => "[image: " +:+ mime +:+ "]"
  | other => block_to_string other
  end.
Definition text_of (blocks : list ContentBlock) : string :=
  join nl (List.filter (fun s => bool_decide (s <> "")) (map wire_block_text blocks)).
Definition tool_result_text (content : ToolResultContent) : string :=
  match content with
  | Json (JStr s) => s
  | Json other => to_string other
  | Blocks blocks => text_of blocks
  end.
Definition data_url (mime bytes : string) : string := "data:" +:+ mime +:+ ";base64," +:+ base64_encode bytes.
Definition artifact_error (handle : string) (e : ArtifactError) : ProviderError :=
  match e with
  | ArtIo m => Transport ("image artifact " +:+ handle +:+ ": io error: " +:+ m)
  | other => Client 0 ("image artifact " +:+ handle +:+ " unavailable: " +:+ show_artifact_error other)
  end.

Definition text_part (text : string) : json := jobj [("type", JStr "text"); ("text", JStr text)].
(** One part of a user message. *)
Definition user_part (x : X) (b : ContentBlock) : result ProviderError json :=
  match b with
  | Text text => Ok (text_part text)
  | Image handle mime =>
      bytes ← map_err (artifact_error handle) (get x handle);
      Ok (jobj [("type", JStr "image_url"); ("image_url", jobj [("url", JStr (data_url mime bytes))])])
  | TaskResultBlock _ _ _ _ _ => Ok (text_part (block_to_string b))
  | other => Ok (text_part (wire_block_text other))
  end.
Definition user_content (parts : list json) : json :=
  match parts with
  | [single] =>
      if decide (jget "type" single ≫= as_str = Some "text") then default JNull (jget "text" single) else JArr parts
  | _ => JArr parts
  end.

(** What an assistant message is gathered into. *)
Record Gathered : Type := {
  ga_text : string; ga_thinking : string; ga_signature : option string; ga_tool_calls : list json
}.
Definition gather (g : Gathered) (b : ContentBlock) : Gathered :=
  match b with
  | Thinking t sig =>
      {| ga_text := ga_text g; ga_thinking := ga_thinking g +:+ t;
         ga_signature := match sig with Some _ => sig | None => ga_signature g end; ga_tool_calls := ga_tool_calls g |}
  | ToolUse id name input =>
      {| ga_text := ga_text g; ga_thinking := ga_thinking g; ga_signature := ga_signature g;
         ga_tool_calls := ga_tool_calls g ++
           [jobj [("id", JStr id); ("type", JStr "function");
                  ("function", jobj [("name", JStr name); ("arguments", JStr (to_string input))])]] |}
  | other =>
      {| ga_text := ga_text g +:+ wire_block_text other; ga_thinking := ga_thinking g; ga_signature := ga_signature g;
         ga_tool_calls := ga_tool_calls g |}
  end.
Definition reasoning_key (f : ReasoningField) : option string :=
  match f with
  | ReasoningContent | ProviderSpecificFields => Some "reasoning_content"
  | Reasoning => Some "reasoning"
  | NoReasoning | InlineThink => None
  end.
Definition assistant_json (f : ReasoningField) (g : Gathered) : json :=
  jobj ([("role", JStr "assistant");
         ("content", if bool_decide (ga_text g = "") && negb (bool_decide (ga_tool_calls g = [])) then JNull else JStr (ga_text g))] ++
        (if bool_decide (ga_thinking g = "") && bool_decide (ga_signature g = None) then []
         else match reasoning_key f with
              | Some field =>
                  (field, JStr (ga_thinking g)) ::
                  match ga_signature g with
                  | Some sig => [("thinking_blocks", JArr [jobj [("type", JStr "thinking"); ("thinking", JStr (ga_thinking g));
                                                               ("signature", JStr sig)]])]
                  | None => []
                  end
              | None => []
              end) ++
        (if decide (ga_tool_calls g = []) then [] else [("tool_calls", JArr (ga_tool_calls g))])).
Definition tool_message_json (b : ContentBlock) : json :=
  match b with
  | ToolResultBlock id content _ =>
      jobj [("role", JStr "tool"); ("tool_call_id", JStr id); ("content", JStr (tool_result_text content))]
  | other => jobj [("role", JStr "user"); ("content", JStr (wire_block_text other))]
  end.

(** [render_message]. *)
Definition render_message (f : ReasoningField) (x : X) (m : Message) : result ProviderError (list json) :=
  match msg_role m with
  | RoleSystem => Ok [jobj [("role", JStr "system"); ("content", JStr (text_of (msg_content m)))]]
  | RoleUser =>
      parts ← mapR (user_part x) (msg_content m);
      Ok [jobj [("role", JStr "user"); ("content", user_content parts)]]
  | RoleAssistant =>
      Ok [assistant_json f (foldl gather {| ga_text := ""; ga_thinking := ""; ga_signature := None; ga_tool_calls := [] |}
                              (msg_content m))]
  | RoleTool => Ok (map tool_message_json (msg_content m))
  end.

(** ** The body *)

Definition system_prompt (quirks : Quirks) (req : ModelRequest) : string :=
  let system := system_text req in
  match qk_tool_format quirks, mq_tools req with
  | ParsedTools syntax, _ :: _ =>
      system +:+ (if decide (system = "") then "" else nl +:+ nl) +:+ render_tools_block syntax (mq_tools req)
  | _, _ => system
  end.
Definition param_fields (p : ModelParams) : list (string * json) :=
  (match mp_temperature p with Some t => [("temperature", enc cf64 t)] | None => [] end) ++
  (match mp_top_p p with Some t => [("top_p", enc cf64 t)] | None => [] end) ++
  (match mp_max_tokens p with Some n => [("max_tokens", JNum (PosInt n))] | None => [] end) ++
  (match mp_stop p with [] => [] | stop => [("stop", JArr (JStr <$> stop))] end) ++
  (match mp_thinking p with
   | Some th =>
       if tkc_enabled th then
         [("thinking", jobj (("type", JStr "enabled") ::
                             match tkc_budget_tokens th with Some b => [("budget_tokens", JNum (PosInt b))] | None => [] end))]
       else []
   | None => []
   end) ++
  (match mp_extra p with JObj extra => extra | _ => [] end).
(** [render_body]; fields are inserted in order, so that those of [extra] win. *)
Definition render_body (req : ModelRequest) (quirks : Quirks) (x : X) : result ProviderError json :=
  let system := system_prompt quirks req in
  rendered ← mapR (render_message (qk_reasoning_field quirks) x) (mq_messages req);
  let messages := (if decide (system = "") then [] else [jobj [("role", JStr "system"); ("content", JStr system)]]) ++
                  concat rendered in
  Ok (jobj ([("model", JStr (mq_model_id req)); ("messages", JArr messages); ("stream", JBool true);
             ("stream_options", jobj [("include_usage", JBool true)])] ++
            (match qk_tool_format quirks, mq_tools req with
             | NativeTools, _ :: _ => [("tools", JArr (map (fun t => render_tool t (qk_strict_tool_schema quirks)) (mq_tools req)))]
             | _, _ => []
             end) ++
            param_fields (mq_params req))).
End rendering.

(** * Facts *)

Lemma truncate_bound s max : (String.length (truncate s max) <= max + 3)%nat.
Proof.
  unfold truncate. destruct (Nat.leb_spec (String.length s) max); [lia|]. rewrite str_length_app, str_take_length.
  destruct (cut_back_spec s max) as [H1 _]. simpl. lia.
Qed.
Lemma error_message_bound `{JsonText} body : (String.length (error_message body) <= 2051)%nat.
Proof.
  assert (H1 : forall s, (String.length (truncate s MAX_MESSAGE) <= 2051)%nat)
    by (intros s; pose proof (truncate_bound s MAX_MESSAGE); unfold MAX_MESSAGE in *; lia).
  unfold error_message. repeat case_match; apply H1.
Qed.

(** an answer other than a success becomes a provider error that the kernel
    retries exactly for status 429 and for the 5xx but 501 and 505; the delay an endpoint asks for
    is its [Retry-After] in whole seconds, and no message the error carries is longer than 2048
    bytes and an ellipsis, the text of an authentication failure apart, which names the status. *)
Theorem http_failures_are_classified `{JsonText} status headers body :
  let e := classify_status status headers body in
  retryable e = ((status =? 429)%N || ((500 <=? status)%N && (status <=? 599)%N && negb ((status =? 501)%N || (status =? 505)%N))) /\
  (forall d, e = RateLimited (Some d) -> exists v n, header "retry-after" headers = Some v /\ parse_u64 (trim v) = Some n /\
    d = (n * 1000000000)%N /\ (n < 2 ^ 64)%N) /\
  match e with
  | Server _ m | Client _ m | ContextTooLong m => (String.length m <= 2051)%nat
  | Auth m => exists s, m = "HTTP " +:+ show_u64 status +:+ ": " +:+ s /\ (String.length s <= 2051)%nat
  | RateLimited _ => True
  | _ => False
  end.
Proof.
  intros e. subst e. pose proof (error_message_bound body) as Hb. unfold classify_status. split_and!.
  - destruct (N.eqb_spec status 429) as [->|]; [done|]. destruct (N.eqb_spec status 401) as [->|]; [done|].
    destruct (N.eqb_spec status 403) as [->|]; [done|]. destruct (N.eqb_spec status 400) as [->|]; simpl.
    + by destruct (looks_like_context_overflow _).
    + by destruct ((500 <=? status)%N && (status <=? 599)%N).
  - intros d. repeat case_match; try done. intros [= Hd]. unfold retry_after in Hd.
    destruct (header "retry-after" headers) as [v|]; [|done]. simpl in Hd. destruct (parse_u64 (trim v)) as [n|] eqn:Hn; [|done].
    injection Hd as <-. exists v, n. split_and!; try done. revert Hn. unfold parse_u64.
    destruct (_ && _ && _) eqn:Hc; [|done]. intros [= <-]. apply andb_prop in Hc as [_ Hc]. by apply N.ltb_lt.
  - destruct (status =? 429)%N; [done|]. destruct (_ || _); [by eexists|]. destruct (_ && _); [done|]. by destruct (_ && _).
Qed.
