(* ===== verification/OpenAi.v ===== *)
(** [providers/src/openai_compat.rs]: the OpenAI-compatible provider.  Its network handle and its
    secret resolver are interfaces on the outside state; the body of a response is the list of what
    arrives, silences longer than the idle timeout included. *)

From Stdlib Require Import Floats.SpecFloat.
From S2P Require Import Prelude Ord Str Utf8 Sse Capability Sandbox Json Strict Codec Data Event Spill Log Outside Accumulate Wire.

Open Scope string_scope.
Open Scope list_scope.

(** One item of a body, or the idle timeout firing. *)
Inductive Arrival : Type :=
  | Bytes (b : string)
  | BodyError (e : HostError)
  | Silence.

Record HttpRequest : Type := {
  hq_url : string; hq_headers : list (string * string); hq_body : string; hq_timeout : option N
}.
Record HttpResponse : Type := {
  hr_status : N; hr_headers : list (string * string); hr_body : list Arrival
}.

Record EndpointConfig : Type := {
  ep_base_url : string; ep_timeout : option N; ep_extra_headers : list (string * string)
}.
Definition chat_completions_url (ep : EndpointConfig) : string :=
  trim_end_matches "/" (ep_base_url ep) +:+ "/chat/completions".
Definition MAX_ERROR_BODY : nat := N.to_nat 65536.

(** * The stream of deltas *)

Section stream.
Context {HP : Platform} {HJ : JsonText}.

Record StreamState : Type := {
  sm_parser : SseParser;
  sm_acc : option Accumulator;
  sm_pending : list ModelDelta;
  sm_model_id : string;
  sm_timeout : option N;
  sm_done : bool
}.
Definition stream_new (f : ReasoningField) (model_id : string) (timeout : option N) : StreamState :=
  {| sm_parser := sse_new; sm_acc := Some (ac_new f); sm_pending := []; sm_model_id := model_id;
     sm_timeout := timeout; sm_done := false |}.
Definition set_parser (p : SseParser) (st : StreamState) : StreamState :=
  {| sm_parser := p; sm_acc := sm_acc st; sm_pending := sm_pending st; sm_model_id := sm_model_id st;
     sm_timeout := sm_timeout st; sm_done := sm_done st |}.
Definition set_acc (acc : option Accumulator) (st : StreamState) : StreamState :=
  {| sm_parser := sm_parser st; sm_acc := acc; sm_pending := sm_pending st; sm_model_id := sm_model_id st;
     sm_timeout := sm_timeout st; sm_done := sm_done st |}.
Definition set_pending (ds : list ModelDelta) (st : StreamState) : StreamState :=
  {| sm_parser := sm_parser st; sm_acc := sm_acc st; sm_pending := ds; sm_model_id := sm_model_id st;
     sm_timeout := sm_timeout st; sm_done := sm_done st |}.
Definition set_done (st : StreamState) : StreamState :=
  {| sm_parser := sm_parser st; sm_acc := sm_acc st; sm_pending := sm_pending st; sm_model_id := sm_model_id st;
     sm_timeout := sm_timeout st; sm_done := true |}.

(** [finalize]. *)
Definition finalize (st : StreamState) : StreamState :=
  set_done match sm_acc st with
           | Some acc => set_pending (sm_pending st ++ (finish_response (sm_model_id st) acc).1) (set_acc None st)
           | None => st
           end.

(** What one data payload makes of the accumulator. *)
Definition chunk_error (payload e : string) : ProviderError :=
  InvalidResponse ("malformed SSE JSON chunk: " +:+ e +:+ ": " +:+ error_message payload).
Definition stream_error (err : json) : ProviderError := Server 200 (error_message (to_string err)).
Definition take_payload (payload : string) (acc : Accumulator) : Accumulator * result ProviderError (list ModelDelta) :=
  let acc := push_raw payload acc in
  match from_str_json payload with
  | Err e => (acc, Err (chunk_error payload e))
  | Ok v =>
      match jget "error" v with
      | None | Some JNull => let '(acc, ds) := push_chunk v acc in (acc, Ok ds)
      | Some err => (acc, Err (stream_error err))
      end
  end.

(** [handle_events]. *)
Fixpoint handle_events (events : list SseEvent) (st : StreamState) : StreamState * result ProviderError unit :=
  match events with
  | [] => (st, Ok tt)
  | ev :: events =>
      match sm_acc st with
      | None => (st, Ok tt)
      | Some acc =>
          match ev with
          | SseDone => (finalize st, Ok tt)
          | SseData payload =>
              match take_payload payload acc with
              | (acc, Err e) => (set_acc (Some acc) st, Err e)
              | (acc, Ok ds) => handle_events events (set_pending (sm_pending st ++ ds) (set_acc (Some acc) st))
              end
          end
      end
  end.

(** [step], which yields the next item.  [ready] is the top of its loop: a pending delta, or the end
    once the stream is done. *)
Definition StepItem : Type := result ProviderError ModelDelta.
Definition ready (st : StreamState) : option (option (StepItem * StreamState)) :=
  match sm_pending st with
  | d :: ds => Some (Some (Ok d, set_pending ds st))
  | [] => if sm_done st then Some None else None
  end.
Definition truncated (acc : Accumulator) : ProviderError :=
  InvalidResponse ("stream ended without [DONE] after " +:+ show_u64 (N.of_nat (ac_chunks acc)) +:+
                   " chunk(s) and no finish_reason").
(** The end of the body: what is left in the parser, and then the response if a choice was
    finished. *)
Definition at_eof (st : StreamState) : option StepItem * StreamState :=
  let '(p, events) := finish (sm_parser st) in
  match handle_events events (set_parser p st) with
  | (st, Err e) => (Some (Err e), set_done st)
  | (st, Ok tt) =>
      match sm_acc st with
      | Some acc =>
          if saw_finish_reason acc then (None, finalize st)
          else (Some (Err (truncated acc)), set_done (set_acc None st))
      | None => (None, st)
      end
  end.
Fixpoint step (body : list Arrival) (st : StreamState) : option (StepItem * StreamState * list Arrival) :=
  match ready st with
  | Some None => None
  | Some (Some (item, st)) => Some (item, st, body)
  | None =>
      match body with
      | Silence :: body =>
          match sm_timeout st with
          | Some t => Some (Err (ProviderTimeout t), set_done st, body)
          | None => step body st
          end
      | Bytes bytes :: body =>
          let '(p, events) := push bytes (sm_parser st) in
          match handle_events events (set_parser p st) with
          | (st, Err e) => Some (Err e, set_done st, body)
          | (st, Ok tt) => step body st
          end
      | BodyError e :: body => Some (Err (classify_host_error e (sm_timeout st)), set_done st, body)
      | [] =>
          match at_eof st with
          | (Some item, st) => Some (item, st, [])
          | (None, st) => match ready st with
                          | Some (Some (item, st)) => Some (item, st, [])
                          | _ => None
                          end
          end
      end
  end.

(** Everything a stream yields, until [step] ends it. *)
Fixpoint items (body : list Arrival) (st : StreamState) : list StepItem :=
  (Ok <$> sm_pending st) ++
  if sm_done st then []
  else match body with
       | Silence :: body =>
           match sm_timeout st with
           | Some t => [Err (ProviderTimeout t)]
           | None => items body (set_pending [] st)
           end
       | Bytes bytes :: body =>
           let '(p, events) := push bytes (sm_parser st) in
           match handle_events events (set_parser p (set_pending [] st)) with
           | (st, Err e) => Err e :: (Ok <$> sm_pending st)
           | (st, Ok tt) => items body st
           end
       | BodyError e :: body => [Err (classify_host_error e (sm_timeout st))]
       | [] => let '(item, st) := at_eof (set_pending [] st) in
               (match item with Some i => [i] | None => [] end) ++ (Ok <$> sm_pending st)
       end.

(** What [Provider::complete] makes of a stream: its first response or error. *)
Fixpoint complete_of (its : list StepItem) : result ProviderError ModelResponse :=
  match its with
  | [] => Err (InvalidResponse "stream ended without a Complete delta")
  | Ok (Complete r) :: _ => Ok r
  | Ok _ :: its => complete_of its
  | Err e :: _ => Err e
  end.
End stream.

(** * The provider *)

(** [NetHandle::send], with the polls it stays pending for; [None]: it does not answer in time.
    [SecretResolver::resolve_secret]. *)
Class NetHandle (X : Type) : Type := {
  send : HttpRequest -> X -> X * (nat * option (result HostError HttpResponse))
}.
Class SecretResolver (X : Type) : Type := { resolve_secret : string -> X -> X * result HostError string }.

(** [read_bounded]. *)
Fixpoint read_bounded (max : nat) (timeout : option N) (body : list Arrival) (out : string) : result ProviderError string :=
  match body with
  | [] => Ok out
  | Silence :: body =>
      match timeout with Some t => Err (ProviderTimeout t) | None => read_bounded max timeout body out end
  | BodyError e :: _ => Err (classify_host_error e timeout)
  | Bytes chunk :: body =>
      let out := out +:+ chunk in
      if (max <=? String.length out)%nat then Ok (str_take max out) else read_bounded max timeout body out
  end.

Section provider.
Context {HP : Platform} {HJ : JsonText} {HW : WireText} {X : Type} {HA : ArtifactStore X} {HN : NetHandle X}
  {HS : SecretResolver X}.
Variables (name : string) (endpoint : EndpointConfig) (quirks : Quirks).

Definition secret_error (secret : string) (e : HostError) : ProviderError :=
  Auth ("secret `" +:+ secret +:+ "` could not be resolved: " +:+ show_host_error e).
(** [OpenAiCompatProvider::build_request]. *)
Definition build_request (req : ModelRequest) (x : X) : X * result ProviderError HttpRequest :=
  match render_body req quirks x with
  | Err e => (x, Err e)
  | Ok body =>
      let request headers :=
        {| hq_url := chat_completions_url endpoint; hq_headers := headers; hq_body := to_string body;
           hq_timeout := ep_timeout endpoint |} in
      let headers := [("Content-Type", "application/json"); ("Accept", "text/event-stream");
                      ("X-Request-Id", rt_request_id (mq_trace req))] ++ ep_extra_headers endpoint in
      match qk_auth quirks with
      | NoAuth => (x, Ok (request headers))
      | Bearer secret =>
          match resolve_secret secret x with
          | (x, Ok value) => (x, Ok (request (headers ++ [("Authorization", "Bearer " +:+ value)])))
          | (x, Err e) => (x, Err (secret_error secret e))
          end
      end
  end.

(** What [complete_stream] makes of an answer. *)
Definition open_stream (req : ModelRequest) (resp : HttpResponse) : result ProviderError (list StepItem) :=
  let timeout := ep_timeout endpoint in
  if ((200 <=? hr_status resp) && (hr_status resp <? 300))%N then
    Ok (items (hr_body resp) (stream_new (qk_reasoning_field quirks) (mq_model_id req) timeout))
  else
    body ← read_bounded MAX_ERROR_BODY timeout (hr_body resp) "";
    Err (classify_status (hr_status resp) (hr_headers resp) body).
(** [complete_stream]; without an answer in time it ends by its own timeout, if it has one. *)
Definition openai_complete_stream (req : ModelRequest) (x : X) : X * Call (result ProviderError (list StepItem)) :=
  match build_request req x with
  | (x, Err e) => (x, {| call_pending := 0; call_end := Some (Err e) |})
  | (x, Ok http) =>
      let '(x, (pending, answer)) := send http x in
      (x, {| call_pending := pending;
             call_end := match answer with
                         | None => t ← ep_timeout endpoint; Some (Err (ProviderTimeout t))
                         | Some (Err e) => Some (Err (classify_host_error e (ep_timeout endpoint)))
                         | Some (Ok resp) => Some (open_stream req resp)
                         end |})
  end.
Definition openai_complete (req : ModelRequest) (x : X) : X * Call (result ProviderError ModelResponse) :=
  let '(x, c) := openai_complete_stream req x in
  (x, {| call_pending := call_pending c; call_end := (fun r => r ≫= complete_of) <$> call_end c |}).
Definition openai_provider : Provider X :=
  {| provider_name := name; complete := openai_complete; complete_stream := openai_complete_stream |}.
End provider.

(** * Reference: a stream read from its events *)

Section stream_facts.
Context {HP : Platform} {HJ : JsonText}.

Inductive verdict : Type :=
  | More (acc : Accumulator)
  | Finished (acc : Accumulator)
  | Failed_ (e : ProviderError).
(** The deltas of a list of events, and how reading them ends. *)
Fixpoint read_events (events : list SseEvent) (acc : Accumulator) : list ModelDelta * verdict :=
  match events with
  | [] => ([], More acc)
  | SseDone :: _ => ([], Finished acc)
  | SseData payload :: events =>
      match take_payload payload acc with
      | (_, Err e) => ([], Failed_ e)
      | (acc, Ok ds) => let '(more, v) := read_events events acc in (ds ++ more, v)
      end
  end.
(** The deltas of a whole stream, and the error it ends with, if any. *)
Definition outcome (model_id : string) (r : list ModelDelta * verdict) : list ModelDelta * option ProviderError :=
  let '(ds, v) := r in
  match v with
  | Finished acc => (ds ++ (finish_response model_id acc).1, None)
  | More acc => if saw_finish_reason acc then (ds ++ (finish_response model_id acc).1, None) else (ds, Some (truncated acc))
  | Failed_ e => (ds, Some e)
  end.

Definition oks (its : list StepItem) : list ModelDelta := omap (fun i => match i with Ok d => Some d | Err _ => None end) its.
Definition failures (its : list StepItem) : list ProviderError :=
  omap (fun i => match i with Ok _ => None | Err e => Some e end) its.

Lemma oks_ok ds : oks (Ok <$> ds) = ds.
Proof. unfold oks. induction ds as [|d ds IH]; [done|]. simpl. by f_equal. Qed.
Lemma failures_ok ds : failures (Ok <$> ds) = [].
Proof. unfold failures. by induction ds. Qed.
Lemma oks_app a b : oks (a ++ b) = oks a ++ oks b.
Proof. apply omap_app. Qed.
Lemma failures_app a b : failures (a ++ b) = failures a ++ failures b.
Proof. apply omap_app. Qed.

Lemma items_done body st : sm_done st = true -> items body st = Ok <$> sm_pending st.
Proof. intros Hd. destruct body; cbn [items]; by rewrite Hd, app_nil_r. Qed.

Lemma read_events_app e1 e2 acc : read_events (e1 ++ e2) acc =
  let '(ds, v) := read_events e1 acc in
  match v with
  | More acc => let '(more, v) := read_events e2 acc in (ds ++ more, v)
  | _ => (ds, v)
  end.
Proof.
  revert acc. induction e1 as [|[|payload] e1 IH]; intros acc; [by simpl; destruct (read_events e2 acc)|done|]. simpl.
  destruct (take_payload payload acc) as [acc1 [ds|e]]; [|done]. rewrite IH. destruct (read_events e1 acc1) as [ds1 v1].
  destruct v1; [|done..]. destruct (read_events e2 acc0). by rewrite app_assoc.
Qed.

Lemma outcome_app model_id ds r : outcome model_id (let '(more, v) := r in (ds ++ more, v)) =
  let '(o, e) := outcome model_id r in (ds ++ o, e).
Proof. destruct r as [more [acc|acc|e]]; simpl; try case_match; by rewrite ?app_assoc. Qed.

(** The stream's handling of events, from the reference. *)
Lemma handle_events_spec events st acc : sm_acc st = Some acc ->
  let '(ds, v) := read_events events acc in
  exists acc', handle_events events st =
    match v with
    | More acc => (set_acc (Some acc) (set_pending (sm_pending st ++ ds) st), Ok tt)
    | Finished acc =>
        (set_done (set_acc None (set_pending (sm_pending st ++ ds ++ (finish_response (sm_model_id st) acc).1) st)), Ok tt)
    | Failed_ e => (set_acc (Some acc') (set_pending (sm_pending st ++ ds) st), Err e)
    end.
Proof.
  revert st acc. induction events as [|[|payload] events IH]; intros st acc Ha; simpl.
  - exists acc. rewrite app_nil_r. destruct st; simpl in *. by subst.
  - exists acc. rewrite Ha. unfold finalize. rewrite Ha. done.
  - rewrite Ha. destruct (take_payload payload acc) as [acc1 [ds|e]]; [|exists acc1; rewrite app_nil_r; by destruct st].
    specialize (IH (set_pending (sm_pending st ++ ds) (set_acc (Some acc1) st)) acc1 eq_refl).
    destruct (read_events events acc1) as [more v]. destruct IH as [acc' ->]. exists acc'.
    cbn [set_pending set_acc sm_pending sm_model_id]. destruct v; by rewrite <- ?app_assoc.
Qed.
Lemma at_eof_spec st acc : sm_acc st = Some acc -> has_char newline (sse_buf (sm_parser st)) = false ->
  sm_pending st = [] ->
  let '(item, st') := at_eof st in
  let '(ds, e) := outcome (sm_model_id st) (read_events (to_come (sm_parser st) "") acc) in
  item = Err <$> e /\ sm_pending st' = ds.
Proof.
  intros Ha Hn Hp. unfold at_eof. rewrite finish_spec by done.
  pose proof (handle_events_spec (to_come (sm_parser st) "") (set_parser sse_new st) acc Ha) as H.
  destruct (read_events _ acc) as [ds v]. destruct H as [acc' ->]. destruct v as [acc1|acc1|e]; simpl; rewrite Hp.
  - destruct (saw_finish_reason acc1); [|done]. unfold finalize. simpl. done.
  - done.
  - done.
Qed.

(** The deltas and the errors, from which the items follow up to the place of an error. *)
Lemma items_oks_failures f model_id timeout chunks :
  let its := items (Bytes <$> chunks) (stream_new f model_id timeout) in
  let '(ds, e) := outcome model_id (read_events (sse_reference (join "" chunks)) (ac_new f)) in
  oks its = ds /\ failures its = option_list e.
Proof.
  cbv zeta.
  enough (H : forall st acc, sm_acc st = Some acc -> sm_done st = false -> has_char newline (sse_buf (sm_parser st)) = false ->
    let '(ds, e) := outcome (sm_model_id st) (read_events (to_come (sm_parser st) (join "" chunks)) acc) in
    oks (items (Bytes <$> chunks) st) = sm_pending st ++ ds /\ failures (items (Bytes <$> chunks) st) = option_list e).
  { apply (H (stream_new f model_id timeout) (ac_new f)); done. }
  induction chunks as [|c chunks IH]; intros st acc Ha Hd Hn; cbn [fmap list_fmap items]; rewrite Hd, oks_app, failures_app, oks_ok, failures_ok.
  - pose proof (at_eof_spec (set_pending [] st) acc Ha Hn eq_refl) as H. destruct (at_eof _) as [item st'].
    cbn [set_pending sm_model_id sm_parser] in H. simpl. destruct (outcome _ _) as [ds e]. destruct H as [-> ->].
    rewrite oks_app, failures_app, oks_ok, failures_ok. destruct e; by rewrite ?app_nil_r.
  - destruct (push c (sm_parser st)) as [p events] eqn:Hp. destruct (push_spec _ _ _ _ (join "" chunks) Hp) as [Hn' Hev].
    assert (Hj : join "" (c :: chunks) = c +:+ join "" chunks) by (destruct chunks; simpl; [by rewrite str_app_nil_r|done]).
    rewrite Hj, Hev, read_events_app.
    pose proof (handle_events_spec events (set_parser p (set_pending [] st)) acc Ha) as H.
    destruct (read_events events acc) as [ds v]. destruct H as [acc' ->]. destruct v as [acc1|acc1|e].
    + specialize (IH (set_acc (Some acc1) (set_pending ds (set_parser p (set_pending [] st)))) acc1 eq_refl Hd Hn').
      cbn [set_acc set_pending set_parser sm_model_id sm_parser sm_pending app] in IH |- *.
      rewrite outcome_app. destruct (outcome _ _) as [o e]. by destruct IH as [-> ->].
    + rewrite items_done, oks_ok, failures_ok by done. done.
    + simpl. rewrite oks_ok, failures_ok. done.
Qed.
Lemma items_split its : match failures its with
  | [] => its = Ok <$> oks its
  | [e] => exists before after, oks its = before ++ after /\ its = (Ok <$> before) ++ Err e :: (Ok <$> after)
  | _ => True
  end.
Proof.
  induction its as [|[d|e] its IH]; [done| |].
  - change (failures (Ok d :: its)) with (failures its). change (oks (Ok d :: its)) with (d :: oks its).
    destruct (failures its) as [|e [|]]; [|destruct IH as (before & after & Ho & IH)|done].
    + rewrite fmap_cons. by f_equal.
    + exists (d :: before), after. rewrite Ho. split; [done|]. rewrite fmap_cons. simpl. by f_equal.
  - change (failures (Err e :: its)) with (e :: failures its). change (oks (Err e :: its)) with (oks its).
    destruct (failures its) as [|]; [|done]. exists [], (oks its). split; [done|]. simpl. by f_equal.
Qed.

(** C32: without host errors and timeouts, the items a stream yields are determined by the bytes of the body, however the network cut
    them: a body read without an error yields exactly the deltas of the events in it, and the
    same list for every cut; a body with an error yields the same deltas in the same order and the
    same one error for every cut.  Only the place of that error among the deltas depends on the
    cut: it comes before those deltas of its chunk that were not yet handed out
    ([error_overtakes_deltas]). *)
Theorem stream_does_not_depend_on_chunks f model_id timeout chunks :
  let its := items (Bytes <$> chunks) (stream_new f model_id timeout) in
  let '(ds, e) := outcome model_id (read_events (sse_reference (join "" chunks)) (ac_new f)) in
  match e with
  | None => its = Ok <$> ds
  | Some e => exists before after, ds = before ++ after /\ its = (Ok <$> before) ++ Err e :: (Ok <$> after)
  end.
Proof.
  pose proof (items_oks_failures f model_id timeout chunks) as H. cbv zeta in *.
  pose proof (items_split (items (Bytes <$> chunks) (stream_new f model_id timeout))) as Hs.
  destruct (outcome _ _) as [ds [e|]]; destruct H as [<- Hf]; rewrite Hf in Hs; exact Hs.
Qed.

(** ** The stream as the items [step] yields *)

Inductive yields_items : list Arrival -> StreamState -> list StepItem -> Prop :=
  | YieldsEnd body st : step body st = None -> yields_items body st []
  | YieldsItem body st i st' body' its :
      step body st = Some (i, st', body') -> yields_items body' st' its -> yields_items body st (i :: its).

(** Once the accumulator is taken the stream is done. *)
Definition live (st : StreamState) : Prop := sm_acc st = None -> sm_done st = true.

Lemma handle_events_live events st : live st -> live (handle_events events st).1.
Proof.
  intros Hl. destruct (sm_acc st) as [acc|] eqn:Ha.
  - pose proof (handle_events_spec events st acc Ha) as H. destruct (read_events events acc) as [ds v].
    destruct H as [acc' ->]. by destruct v.
  - destruct events; simpl; [done|]. by rewrite Ha.
Qed.
Lemma at_eof_live st : live st -> live (at_eof st).2 /\ sm_done (at_eof st).2 = true.
Proof.
  intros Hl. unfold at_eof. destruct (finish _) as [p events].
  pose proof (handle_events_live events (set_parser p st) Hl) as Hh. destruct (handle_events _ _) as [st1 [[]|e]]; [|done].
  destruct (sm_acc st1) as [acc|] eqn:Ha; [|split; [done|]; by apply Hh].
  destruct (saw_finish_reason acc); [|done]. unfold finalize. by rewrite Ha.
Qed.

Lemma items_step body st : live st ->
  match step body st with
  | None => items body st = []
  | Some (i, st', body') => items body st = i :: items body' st' /\ live st'
  end.
Proof.
  revert st. induction body as [|a body IH]; intros st Hl; cbn [step items]; unfold ready.
  all: destruct (sm_pending st) as [|d ds] eqn:Hp;
    [|split; [|by intros ?%Hl]; cbn [fmap list_fmap app]; f_equal; try done].
  - destruct (sm_done st) eqn:Hd; [done|]. simpl.
    assert (set_pending [] st = st) as -> by (destruct st; simpl in *; by subst).
    pose proof (at_eof_live st Hl) as [Hl' Hd']. destruct (at_eof st) as [[i|] st1]; simpl in *.
    + split; [|done]. by rewrite Hd', app_nil_r.
    + destruct (sm_pending st1) as [|d ds]; [by rewrite Hd'|]. simpl. split; [|by intros ?%Hl']. by rewrite Hd', app_nil_r.
  - destruct (sm_done st) eqn:Hd; [done|]. simpl.
    assert (set_pending [] st = st) as Hst by (destruct st; simpl in *; by subst). rewrite Hst.
    destruct a as [bytes|e|].
    + destruct (push bytes (sm_parser st)) as [p events].
      pose proof (handle_events_live events (set_parser p st) Hl) as Hh. destruct (handle_events _ _) as [st1 [[]|e]].
      * by apply IH.
      * split; [|done]. by rewrite items_done.
    + split; [|done]. rewrite items_done by done. simpl. by rewrite Hp.
    + destruct (sm_timeout st); [|by apply IH]. split; [|done]. rewrite items_done by done. simpl. by rewrite Hp.
Qed.

Lemma items_yielded body st : live st -> yields_items body st (items body st).
Proof.
  intros Hl. remember (length (items body st)) as n eqn:Hn. revert body st Hl Hn.
  induction n as [n IH] using lt_wf_ind. intros body st Hl ->. pose proof (items_step body st Hl) as Hs.
  destruct (step body st) as [[[i st'] body']|] eqn:He.
  - destruct Hs as [Hs Hl']. rewrite Hs. econstructor; [exact He|]. eapply IH; [|exact Hl'|reflexivity]. rewrite Hs. simpl. lia.
  - rewrite Hs. by constructor.
Qed.
Lemma yielded_items body st its : live st -> yields_items body st its -> its = items body st.
Proof.
  intros Hl Hy. induction Hy as [body st He|body st i st' body' its He Hy IH]; pose proof (items_step body st Hl) as Hs; rewrite He in Hs.
  - done.
  - destruct Hs as [-> Hl']. by rewrite IH.
Qed.

(** ** One ending *)

Lemma completed_app a b : completed (a ++ b) = completed a ++ completed b.
Proof. apply omap_app. Qed.
Lemma take_payload_quiet payload acc acc' ds : take_payload payload acc = (acc', Ok ds) -> completed ds = [].
Proof.
  unfold take_payload. destruct (from_str_json payload) as [v|e]; [|done].
  assert (Hc : (let '(acc, ds) := push_chunk v (push_raw payload acc) in (acc, Ok ds)) = (acc', @Ok ProviderError _ ds) -> completed ds = []).
  { pose proof (push_chunk_steady v (push_raw payload acc)) as (_ & _ & H). destruct (push_chunk _ _). by intros [= _ <-]. }
  destruct (jget "error" v) as [[]|]; done.
Qed.
Lemma read_events_quiet events acc : completed (read_events events acc).1 = [].
Proof.
  revert acc. induction events as [|[|payload] events IH]; intros acc; [done|done|]. simpl.
  destruct (take_payload payload acc) as [acc1 [ds|e]] eqn:Ht; [|done]. specialize (IH acc1).
  destruct (read_events events acc1). apply take_payload_quiet in Ht. simpl in *. by rewrite completed_app, Ht, IH.
Qed.

(** How a stream ends: with its response, after which and before which there is no other, or with
    one error and no response. *)
Definition ends_once (its : list StepItem) : Prop :=
  (exists ds resp, its = (Ok <$> ds) ++ [Ok (Complete resp)] /\ completed ds = [] /\ complete_of its = Ok resp) \/
  (exists e, failures its = [e] /\ completed (oks its) = [] /\ complete_of its = Err e).

Lemma complete_of_quiet ds its : completed ds = [] -> complete_of ((Ok <$> ds) ++ its) = complete_of its.
Proof. induction ds as [|d ds IH]; [done|]. intros H. simpl. destruct d; simpl in H; try by apply IH. discriminate H. Qed.
Lemma ends_with_response ds model acc : completed ds = [] -> ends_once (Ok <$> ds ++ (finish_response model acc).1).
Proof.
  intros Hd. left. destruct (finish_response_spec model acc) as (stops & -> & Hs). exists (ds ++ stops), (finish_response model acc).2.
  rewrite app_assoc, fmap_app. split; [done|]. rewrite completed_app, Hd, Hs. split; [done|].
  rewrite complete_of_quiet; [done|]. by rewrite completed_app, Hd, Hs.
Qed.
Lemma ends_with_error e ds : completed ds = [] -> ends_once (Err e :: (Ok <$> ds)).
Proof.
  intros Hd. right. exists e. change (Err e :: (Ok <$> ds)) with ([Err e] ++ (Ok <$> ds)).
  rewrite failures_app, oks_app, failures_ok, oks_ok. by split_and!.
Qed.
Lemma ends_once_prefix ds its : completed ds = [] -> ends_once its -> ends_once ((Ok <$> ds) ++ its).
Proof.
  intros Hd [(ds' & resp & -> & Hds & Hc)|(e & Hf & Ho & Hc)].
  - left. exists (ds ++ ds'), resp. rewrite fmap_app, app_assoc, completed_app, Hd, Hds. split_and!; [done..|].
    rewrite <- app_assoc, complete_of_quiet; done.
  - right. exists e. rewrite failures_app, oks_app, failures_ok, oks_ok, completed_app, Hd, Ho, complete_of_quiet; done.
Qed.
Lemma items_end_once body st acc : sm_acc st = Some acc -> sm_done st = false -> completed (sm_pending st) = [] ->
  ends_once (items body st).
Proof.
  revert st acc. induction body as [|a body IH]; intros st acc Ha Hd Hp; cbn [items]; rewrite Hd; (apply ends_once_prefix; [done|]).
  - unfold at_eof. destruct (finish _) as [p events].
    pose proof (handle_events_spec events (set_parser p (set_pending [] st)) acc Ha) as H.
    pose proof (read_events_quiet events acc) as Hq. destruct (read_events events acc) as [ds v]. destruct H as [acc' ->].
    simpl in Hq. destruct v as [acc1|acc1|e]; simpl.
    + destruct (saw_finish_reason acc1); [by apply ends_with_response|by apply ends_with_error].
    + by apply ends_with_response.
    + by apply ends_with_error.
  - destruct a as [bytes|e|]; [|by apply (ends_with_error _ [])|].
    + destruct (push bytes _) as [p events].
      pose proof (handle_events_spec events (set_parser p (set_pending [] st)) acc Ha) as H.
      pose proof (read_events_quiet events acc) as Hq. destruct (read_events events acc) as [ds v]. destruct H as [acc' ->].
      simpl in Hq. destruct v as [acc1|acc1|e].
      * by apply (IH _ acc1).
      * rewrite items_done by done. by apply ends_with_response.
      * by apply ends_with_error.
    + destruct (sm_timeout st); [by apply (ends_with_error _ [])|]. by apply (IH _ acc).
Qed.

(** C33: every response stream ends, whatever arrives, and in one of two ways: with
    exactly one response, as its last item, or with exactly one error and no response; waiting for
    the whole response gives that response or that error. *)
Theorem stream_ends_once f model_id timeout body :
  exists its, yields_items body (stream_new f model_id timeout) its /\ ends_once its /\
    forall its', yields_items body (stream_new f model_id timeout) its' -> its' = its.
Proof.
  exists (items body (stream_new f model_id timeout)). split_and!.
  - by apply items_yielded.
  - by eapply items_end_once.
  - intros its' Hy. by apply yielded_items in Hy.
Qed.
End stream_facts.

(** ** An error is yielded before deltas that came before it *)

(** When a chunk holds good events and then a bad one, the error is yielded first. *)
Definition num_or_null : JsonText := {|
  to_string v := "null";
  from_str_json s := if decide (s = "t") then Ok (jobj [("choices", JArr [jobj [("delta", jobj [("content", JStr "hi")])]])])
                     else Err "expected value"
|}.
Lemma error_overtakes_deltas :
  exists chunk e, @items toy_platform num_or_null [Bytes chunk] (stream_new NoReasoning "m" None) = [Err e; Ok (TextDelta 0 "hi")].
Proof.
  exists ("data: t" +:+ String newline (String newline "data: oops" +:+ String newline (String newline ""))).
  eexists. lazy. reflexivity.
Qed.
