(* ===== verification/Registry.v ===== *)
(** [loop_/registry.rs] and [loop_/chain.rs]: the tool registry and the middleware chain a kernel
    is built with, and the kernel's errors ([loop_/mod.rs: KernelError]). *)

From Stdlib Require Import Floats.SpecFloat.
From S2P Require Import Prelude Ord Str Capability Sandbox Json Strict Codec Data Event State Log Outside.

Open Scope string_scope.
Open Scope list_scope.

Inductive KernelError : Type :=
  | NotRunning (s : SessionStatus)
  | KernelDone
  | NothingToWaitFor
  | DuplicateTool (name : string)
  | InvalidToolName (name : string)
  | DuplicateMiddleware (name : string)
  | ReservedPriority (name : string)
  | ToolExceedsGrants (tool : string) (source : PolicyError)
  | MissingSessionCommand (name : string)
  | SpillCapOutOfRange (cap : N)
  | NoCheckpoint
  | KernelRestore (e : RestoreError)
  | KernelLog (e : LogError)
  | KernelHash (e : HashError)
  | KernelTurnFailed (msg : string)
  | KernelInternal (msg : string).

(** * The registry *)

Record RegistryEntry (X : Type) : Type := {
  re_tool : Tool X; re_kind : ToolKind; re_capabilities : list Capability; re_policy : SandboxPolicy;
  re_policy_hash : string
}.
Arguments re_tool {X} _.
Arguments re_kind {X} _.
Arguments re_capabilities {X} _.
Arguments re_policy {X} _.
Arguments re_policy_hash {X} _.

(** The [by_name] map sends a name to its index in [entries]. *)
Record Registry (X : Type) : Type := {
  reg_entries : list (RegistryEntry X);
  reg_by_name : list (string * nat);
  reg_definitions : list ToolDefinition;
  reg_envelope_hash : string
}.
Arguments reg_entries {X} _.
Arguments reg_by_name {X} _.
Arguments reg_definitions {X} _.
Arguments reg_envelope_hash {X} _.

Section registry.
Context {HP : Platform} {X : Type}.
Implicit Types (tools : list (Tool X)) (grants : list Capability) (limits : SandboxLimits).

(** One round of the loop of [Registry::build], [by_name] being the names registered so far. *)
Definition register_tool grants limits (by_name : list (string * nat)) (t : Tool X) :
    result KernelError (RegistryEntry X) :=
  let name := tool_name t in
  if negb (is_valid_tool_name name) then Err (InvalidToolName name)
  else if omap_get name by_name then Err (DuplicateTool name)
  else
    policy ← map_err (ToolExceedsGrants name) (derive_policy_with (tool_capabilities t) grants limits);
    if bool_decide (tool_kind t = Session) && match tool_session_command t with None => true | Some _ => false end
    then Err (MissingSessionCommand name)
    else
      policy_hash ← map_err KernelHash (policy_hash policy);
      mret {| re_tool := t; re_kind := tool_kind t; re_capabilities := tool_capabilities t;
              re_policy := policy; re_policy_hash := policy_hash |}.

Fixpoint build_entries grants limits tools (entries : list (RegistryEntry X)) (by_name : list (string * nat)) :
    result KernelError (list (RegistryEntry X) * list (string * nat)) :=
  match tools with
  | [] => Ok (entries, by_name)
  | t :: tools =>
      e ← register_tool grants limits by_name t;
      build_entries grants limits tools (entries ++ [e]) (omap_insert (tool_name t) (length entries) by_name)
  end.

(** [Registry::build]. *)
Definition build_registry tools grants limits : result KernelError (Registry X) :=
  eb ← build_entries grants limits tools [] [];
  let '(entries, by_name) := eb in
  envelope ← map_err (fun _ => KernelInternal "envelope policy")
    (derive_policy_with (List.filter non_secret grants) grants limits);
  envelope_hash ← map_err KernelHash (policy_hash envelope);
  mret {| reg_entries := entries; reg_by_name := by_name; reg_definitions := definition ∘ re_tool <$> entries;
          reg_envelope_hash := envelope_hash |}.

Definition reg_get (r : Registry X) (name : string) : option (RegistryEntry X) :=
  i ← omap_get name (reg_by_name r); reg_entries r !! i.
Definition names_sorted (r : Registry X) : list string := (reg_by_name r).*1.

(** ** Facts *)

(** The index map and the entries describe one another. *)
Definition indexed (entries : list (RegistryEntry X)) (by_name : list (string * nat)) : Prop :=
  omap_sorted by_name /\
  forall name i, omap_get name by_name = Some i <->
    exists e, entries !! i = Some e /\ tool_name (re_tool e) = name.

Lemma indexed_NoDup entries by_name :
  indexed entries by_name -> NoDup ((fun e => tool_name (re_tool e)) <$> entries).
Proof.
  intros [_ Hi]. apply NoDup_alt. intros i j n Hx Hy.
  apply list_lookup_fmap_Some in Hx as (e1 & -> & H1). apply list_lookup_fmap_Some in Hy as (e2 & Hn & H2).
  assert (omap_get (tool_name (re_tool e1)) by_name = Some i) as Hgi by (apply Hi; eauto).
  assert (omap_get (tool_name (re_tool e1)) by_name = Some j) as Hgj by (apply Hi; eauto). congruence.
Qed.

Lemma indexed_snoc entries by_name e :
  indexed entries by_name -> omap_get (tool_name (re_tool e)) by_name = None ->
  indexed (entries ++ [e]) (omap_insert (tool_name (re_tool e)) (length entries) by_name).
Proof.
  intros [Hs Hi] Hnew. split; [by apply omap_insert_sorted|]. intros name i.
  rewrite omap_get_insert by done. case_decide as Hn.
  - subst. split.
    + intros [= <-]. exists e. by rewrite list_lookup_middle.
    + intros (e' & He & Hne). apply lookup_app_Some in He as [He|[Hle He]].
      * assert (omap_get (tool_name (re_tool e)) by_name = Some i) as Hg by (apply Hi; eauto). congruence.
      * apply list_lookup_singleton_Some in He as [Hz _]. f_equal. lia.
  - rewrite Hi. split; intros (e' & He & Hne); exists e'; (split; [|done]).
    + by apply lookup_app_l_Some.
    + apply lookup_app_Some in He as [He|[Hle He]]; [done|].
      apply list_lookup_singleton_Some in He as [_ <-]. congruence.
Qed.

(** What [register_tool] checked. *)
Definition entry_ok grants limits (t : Tool X) (e : RegistryEntry X) : Prop :=
  re_tool e = t /\ is_valid_tool_name (tool_name t) = true /\ re_kind e = tool_kind t /\
  re_capabilities e = tool_capabilities t /\
  derive_policy_with (tool_capabilities t) grants limits = Ok (re_policy e) /\
  policy_hash (re_policy e) = Ok (re_policy_hash e) /\
  (tool_kind t = Session -> is_Some (tool_session_command t)).

Lemma register_tool_ok grants limits by_name t e :
  register_tool grants limits by_name t = Ok e <->
  entry_ok grants limits t e /\ omap_get (tool_name t) by_name = None.
Proof.
  unfold register_tool, entry_ok. destruct (is_valid_tool_name (tool_name t)) eqn:Hv; simpl; [|naive_solver].
  destruct (omap_get (tool_name t) by_name) eqn:Hg; [naive_solver|].
  destruct (derive_policy_with _ _ _) as [p|] eqn:Hd; simpl; [|naive_solver].
  case_bool_decide as Hk; simpl.
  - destruct (tool_session_command t) eqn:Hc; [|split; [done|]; intros [(_&_&_&_&_&_&Hs) _]; by destruct (Hs Hk)].
    destruct (policy_hash p) as [h|] eqn:Hh; simpl; [|split; [done|]; intros [(_&_&_&_&[= <-]&Hx&_) _]; congruence].
    split; [intros [= <-]; simpl; eauto 10|]. intros [(<-&_&Hr&Hcap&[= ->]&Hx&_) _].
    destruct e; simpl in *. assert (h = re_policy_hash0) as -> by congruence. by rewrite Hr, Hcap.
  - destruct (policy_hash p) as [h|] eqn:Hh; simpl; [|split; [done|]; intros [(_&_&_&_&[= <-]&Hx&_) _]; congruence].
    split; [intros [= <-]; simpl; split_and!; done|]. intros [(<-&_&Hr&Hcap&[= ->]&Hx&_) _].
    destruct e; simpl in *. assert (h = re_policy_hash0) as -> by congruence. by rewrite Hr, Hcap.
Qed.

Lemma indexed_get entries by_name name e :
  indexed entries by_name ->
  (i ← omap_get name by_name; entries !! i) = Some e <-> e ∈ entries /\ tool_name (re_tool e) = name.
Proof.
  intros [_ Hi]. split.
  - intros (i & Hg & He)%bind_Some. apply Hi in Hg as (e' & He' & <-). simplify_eq.
    split; [by eapply list_elem_of_lookup_2|done].
  - intros [[i He]%list_elem_of_lookup <-]. apply bind_Some. exists i. split; [|done]. apply Hi. eauto.
Qed.

Lemma build_entries_spec grants limits tools entries by_name entries' by_name' :
  indexed entries by_name ->
  build_entries grants limits tools entries by_name = Ok (entries', by_name') ->
  indexed entries' by_name' /\
  exists new, entries' = entries ++ new /\ Forall2 (entry_ok grants limits) tools new.
Proof.
  revert entries by_name. induction tools as [|t tools IH]; intros entries by_name Hi Hb; simpl in Hb.
  - injection Hb as <- <-. split; [done|]. exists []. by rewrite app_nil_r.
  - apply result_bind_Ok in Hb as (e & [He Hnew]%register_tool_ok & Hb).
    pose proof He as (Ht & _). rewrite <- Ht in Hb, Hnew.
    apply IH in Hb as (Hi' & new & -> & Hf); [|by apply indexed_snoc].
    split; [done|]. exists (e :: new). rewrite <- app_assoc. by split; [|constructor].
Qed.

(** [build_entries] refuses no list of tools that checks out. *)
Lemma build_entries_total grants limits tools new entries by_name :
  indexed entries by_name -> Forall2 (entry_ok grants limits) tools new ->
  NoDup ((fun e => tool_name (re_tool e)) <$> entries ++ new) ->
  exists by_name', build_entries grants limits tools entries by_name = Ok (entries ++ new, by_name').
Proof.
  intros Hi Hf. revert entries by_name Hi. induction Hf as [|t e tools new He Hf IH]; intros entries by_name Hi Hn.
  - exists by_name. by rewrite app_nil_r.
  - pose proof He as (Ht & _). assert (omap_get (tool_name t) by_name = None) as Hg.
    { destruct (omap_get (tool_name t) by_name) as [i|] eqn:Hg; [|done]. exfalso.
      apply (proj2 Hi) in Hg as (e' & He' & Hne). rewrite fmap_app, NoDup_app in Hn.
      destruct Hn as (_ & Hd & _). apply (Hd (tool_name t)).
      - rewrite <- Hne. apply (list_elem_of_fmap_2 (fun e => tool_name (re_tool e))).
        by eapply list_elem_of_lookup_2.
      - rewrite fmap_cons, Ht. constructor. }
    cbn [build_entries]. rewrite (proj2 (register_tool_ok grants limits by_name t e)) by done.
    cbn [mbind result_bind]. destruct (IH (entries ++ [e]) (omap_insert (tool_name t) (length entries) by_name))
      as (b & Hb).
    + rewrite <- Ht. apply indexed_snoc; [done|]. by rewrite Ht.
    + by rewrite <- app_assoc.
    + exists b. by rewrite Hb, <- app_assoc.
Qed.

Lemma entry_names grants limits tools entries :
  Forall2 (entry_ok grants limits) tools entries -> (fun e => tool_name (re_tool e)) <$> entries = tool_name <$> tools.
Proof. induction 1 as [|t e tools entries (Ht & _) _ IH]; [done|]. rewrite !fmap_cons, IH. by rewrite Ht. Qed.
Lemma indexed_nil : indexed [] [].
Proof. split; [constructor|]. intros name i. split; [done|]. by intros (e & He & _). Qed.

(** a registry is built for a list of tools exactly
    when their names are valid and distinct, each tool's capabilities derive a policy under the
    grants, each session tool has a command, and the envelope can be derived and hashed; it then
    finds under a name exactly the tool of that name with the policy derived for it, keeps the
    definitions in the order given, and lists the names in strictly increasing order. *)
Theorem registry_holds_exactly_the_valid_tools grants limits tools :
  (is_ok (build_registry tools grants limits) = true <->
    exists entries envelope h, Forall2 (entry_ok grants limits) tools entries /\ NoDup (tool_name <$> tools) /\
      derive_policy_with (List.filter non_secret grants) grants limits = Ok envelope /\ policy_hash envelope = Ok h) /\
  (forall r, build_registry tools grants limits = Ok r ->
    (forall name e, reg_get r name = Some e <->
      exists t, t ∈ tools /\ tool_name t = name /\ entry_ok grants limits t e) /\
    reg_definitions r = definition <$> tools /\ oset_sorted (names_sorted r)).
Proof.
  unfold build_registry. split.
  - split.
    + destruct (build_entries _ _ _ _ _) as [[entries by_name]|] eqn:Hb; [|done]. cbn [mbind result_bind].
      destruct (build_entries_spec _ _ _ _ _ _ _ indexed_nil Hb) as (Hi & new & -> & Hf).
      destruct (derive_policy_with _ _ _) as [env|] eqn:He; [|done]. cbn [mbind result_bind map_err].
      destruct (policy_hash env) as [h|] eqn:Hh; [|done]. intros _. exists new, env, h.
      split_and!; [done| |done|done]. rewrite <- (entry_names _ _ _ _ Hf). by eapply indexed_NoDup.
    + intros (entries & env & h & Hf & Hn & He & Hh).
      destruct (build_entries_total grants limits tools entries [] [] indexed_nil Hf) as (b & Hb).
      { by rewrite app_nil_l, (entry_names _ _ _ _ Hf). }
      rewrite Hb. cbn [mbind result_bind]. rewrite He. cbn [mbind result_bind map_err]. by rewrite Hh.
  - intros r Hr. apply result_bind_Ok in Hr as ([entries by_name] & Hb & Hr).
    destruct (build_entries_spec _ _ _ _ _ _ _ indexed_nil Hb) as (Hi & new & -> & Hf). rewrite app_nil_l in *.
    apply result_bind_Ok in Hr as (env & _ & Hr). apply result_bind_Ok in Hr as (h & _ & Hr).
    injection Hr as <-. simpl. split_and!.
    + intros name e. unfold reg_get. simpl. rewrite (indexed_get _ _ _ _ Hi). split.
      * intros [He Hn]. apply list_elem_of_lookup in He as [i He].
        destruct (Forall2_lookup_r _ _ _ _ _ Hf He) as (t & Ht & Hok). exists t.
        split_and!; [by eapply list_elem_of_lookup_2| |done]. by rewrite <- (proj1 Hok).
      * intros (t & Ht & <- & Hok). apply list_elem_of_lookup in Ht as [i Ht].
        destruct (Forall2_lookup_l _ _ _ _ _ Hf Ht) as (e' & He' & Hok').
        assert (e = e') as ->; [|split; [by eapply list_elem_of_lookup_2|by rewrite (proj1 Hok)]].
        destruct Hok as (H1&_&H2&H3&H4&H5&_), Hok' as (H1'&_&H2'&H3'&H4'&H5'&_), e, e'; simpl in *. congruence.
    + clear -Hf. induction Hf as [|t e tools new (Ht & _) _ IH]; [done|]. rewrite !fmap_cons, <- IH. f_equal.
      simpl. by rewrite Ht.
    + destruct Hi as [Hs _]. unfold names_sorted, oset_sorted, omap_sorted in *. simpl.
      clear -Hs. induction Hs as [|x l _ IH Hx]; [constructor|]. constructor; [done|]. by apply Forall_fmap.
Qed.
End registry.

(** * The middleware chain *)

Definition TOOL_CALL_PARSER_PRIORITY : Z := 100.
Definition TOOL_CALL_PARSER_NAME : string := "tool_call_parser".

Section chain.
Context {HP : Platform} {X : Type}.
Implicit Types (entries : list (MiddlewareEntry X)).

(** The checks of one round of the loop, [names] being those seen. *)
Definition check_entry (names : list string) (e : MiddlewareEntry X) : result KernelError unit :=
  let is_parser := bool_decide (mw_name e = TOOL_CALL_PARSER_NAME) in
  if bool_decide (mw_name e ∈ names) then Err (DuplicateMiddleware (mw_name e))
  else if (is_parser && negb (mw_priority e =? TOOL_CALL_PARSER_PRIORITY)%Z)
          || (negb is_parser && (mw_priority e <=? TOOL_CALL_PARSER_PRIORITY)%Z)
  then Err (ReservedPriority (mw_name e))
  else Ok tt.
Fixpoint check_entries (names : list string) entries : result KernelError unit :=
  match entries with
  | [] => Ok tt
  | e :: es => _ ← check_entry names e; check_entries (mw_name e :: names) es
  end.

(** [entries.sort_by_key(|e| e.priority)]: stable. *)
Fixpoint insert_by_priority (e : MiddlewareEntry X) entries : list (MiddlewareEntry X) :=
  match entries with
  | [] => [e]
  | e' :: es => if (mw_priority e <=? mw_priority e')%Z then e :: entries else e' :: insert_by_priority e es
  end.
Definition sort_by_priority entries : list (MiddlewareEntry X) := foldr insert_by_priority [] entries.

Definition chain_entry (i : nat) (e : MiddlewareEntry X) : ChainEntry :=
  {| ce_index := N.of_nat i mod 2 ^ 32; ce_name := mw_name e; ce_priority := mw_priority e;
     ce_source := mw_source e; ce_config_hash := mw_config_hash e |}.

(** [chain::resolve]. *)
Definition resolve entries : result KernelError (list (MiddlewareEntry X) * MiddlewareChainResolvedPayload) :=
  _ ← check_entries [] entries;
  let entries := sort_by_priority entries in
  let chain := imap chain_entry entries in
  chain_hash ← map_err KernelHash (of_canonical_json (enc (clist ChainEntry_codec) chain));
  mret (entries, {| mcrp_chain := chain; mcrp_chain_hash := chain_hash |}).

(** ** Facts *)

(** Where an entry may stand: the parser at its slot and nobody else up to it. *)
Definition placed (e : MiddlewareEntry X) : Prop :=
  if decide (mw_name e = TOOL_CALL_PARSER_NAME) then mw_priority e = TOOL_CALL_PARSER_PRIORITY
  else (TOOL_CALL_PARSER_PRIORITY < mw_priority e)%Z.

Lemma check_entry_ok names e : check_entry names e = Ok tt <-> (mw_name e ∉ names) /\ placed e.
Proof.
  unfold check_entry, placed. case_bool_decide; [naive_solver|].
  case_bool_decide; case_decide; try done; simpl.
  - destruct (Z.eqb_spec (mw_priority e) TOOL_CALL_PARSER_PRIORITY); simpl; naive_solver.
  - destruct (Z.leb_spec (mw_priority e) TOOL_CALL_PARSER_PRIORITY); simpl; [|naive_solver].
    split; [done|]. intros [_ ?]. lia.
Qed.
Lemma check_entries_ok names entries :
  check_entries names entries = Ok tt <->
  NoDup (mw_name <$> entries) /\ Forall placed entries /\ (forall e, e ∈ entries -> mw_name e ∉ names).
Proof.
  revert names. induction entries as [|e es IH]; intros names; cbn [check_entries].
  - split; [|done]. intros _. split_and!; [constructor..|]. by intros e ?%elem_of_nil.
  - rewrite result_bind_Ok, fmap_cons, NoDup_cons, Forall_cons. split.
    + intros ([] & [Hn Hp]%check_entry_ok & (Hnd & Hpl & Hd)%IH). split_and!; try done.
      * intros (e' & He' & Hin)%list_elem_of_fmap. apply (Hd _ Hin). rewrite He'. constructor.
      * intros x [->|Hx]%elem_of_cons; [done|]. specialize (Hd _ Hx). set_solver.
    + intros ((Hn & Hnd) & (Hp & Hpl) & Hd). exists tt. split.
      * apply check_entry_ok. split; [|done]. apply Hd. constructor.
      * apply IH. split_and!; [done..|]. intros x Hx [Heq|Hin]%elem_of_cons.
        -- apply Hn. rewrite <- Heq. by apply list_elem_of_fmap_2.
        -- revert Hin. apply Hd. by constructor.
Qed.

Definition by_priority (a b : MiddlewareEntry X) : Prop := (mw_priority a <= mw_priority b)%Z.
Lemma insert_by_priority_perm e es : insert_by_priority e es ≡ₚ e :: es.
Proof. induction es as [|e' es IH]; simpl; [done|]. destruct (_ <=? _)%Z; [done|]. rewrite IH. constructor. Qed.
Lemma insert_by_priority_sorted e es :
  StronglySorted by_priority es -> StronglySorted by_priority (insert_by_priority e es).
Proof.
  induction 1 as [|e' es Hs IH Hf]; simpl; [by repeat constructor|]. destruct (Z.leb_spec (mw_priority e) (mw_priority e')).
  - constructor; [by constructor|]. constructor; [done|]. eapply Forall_impl; [done|]. unfold by_priority. lia.
  - constructor; [done|]. rewrite insert_by_priority_perm. constructor; [unfold by_priority; lia|done].
Qed.
Lemma sort_by_priority_perm es : sort_by_priority es ≡ₚ es.
Proof. induction es as [|e es IH]; simpl; [done|]. by rewrite insert_by_priority_perm, IH. Qed.
Lemma sort_by_priority_sorted es : StronglySorted by_priority (sort_by_priority es).
Proof. induction es; simpl; [constructor|]. by apply insert_by_priority_sorted. Qed.
Lemma insert_by_priority_stable e es p :
  List.filter (fun x => (mw_priority x =? p)%Z) (insert_by_priority e es) =
  List.filter (fun x => (mw_priority x =? p)%Z) (e :: es).
Proof.
  induction es as [|e' es IH]; simpl; [done|]. destruct (Z.leb_spec (mw_priority e) (mw_priority e')); [done|].
  simpl. rewrite IH. simpl. destruct (Z.eqb_spec (mw_priority e) p), (Z.eqb_spec (mw_priority e') p); done || lia.
Qed.
Lemma sort_by_priority_stable es p :
  List.filter (fun x => (mw_priority x =? p)%Z) (sort_by_priority es) =
  List.filter (fun x => (mw_priority x =? p)%Z) es.
Proof.
  induction es as [|e es IH]; [done|]. unfold sort_by_priority. cbn [foldr].
  rewrite insert_by_priority_stable. cbn [List.filter]. by destruct (_ =? _)%Z; rewrite <- IH.
Qed.

Lemma check_entry_err names e x : check_entry names e = Err x ->
  (x = DuplicateMiddleware (mw_name e) /\ mw_name e ∈ names) \/ (x = ReservedPriority (mw_name e) /\ ~ placed e).
Proof.
  intros Hc. destruct (decide (mw_name e ∈ names)) as [Hn|Hn].
  - left. unfold check_entry in Hc. rewrite bool_decide_true in Hc by done. by injection Hc as <-.
  - right. split.
    + unfold check_entry in Hc. rewrite bool_decide_false in Hc by done. by case_match; simplify_eq.
    + intros Hp. assert (check_entry names e = Ok tt) as Hok by by apply check_entry_ok. congruence.
Qed.
Lemma check_entries_err names entries x : check_entries names entries = Err x ->
  exists e, e ∈ entries /\
    ((x = DuplicateMiddleware (mw_name e) /\ (mw_name e ∈ names \/ ~ NoDup (mw_name <$> entries))) \/
     (x = ReservedPriority (mw_name e) /\ ~ placed e)).
Proof.
  revert names. induction entries as [|e es IH]; intros names; cbn [check_entries]; [done|].
  destruct (check_entry names e) as [[]|y] eqn:Hc; cbn [mbind result_bind].
  - intros (e' & He' & Hx)%IH. exists e'. split; [by constructor|]. rewrite fmap_cons, NoDup_cons.
    destruct Hx as [[-> [Hin|Hnd]]|Hx]; [|naive_solver|naive_solver]. left. split; [done|].
    apply elem_of_cons in Hin as [Heq|Hin]; [|by left]. right. intros [Hni _]. apply Hni. rewrite <- Heq.
    by apply list_elem_of_fmap_2.
  - intros [= <-]. exists e. split; [constructor|]. apply check_entry_err in Hc. naive_solver.
Qed.

Lemma parser_first entries i e :
  NoDup (mw_name <$> entries) -> Forall placed entries -> StronglySorted by_priority entries ->
  entries !! i = Some e -> mw_name e = TOOL_CALL_PARSER_NAME -> i = 0.
Proof.
  intros Hn Hp Hs Hi He. destruct i as [|i]; [done|]. exfalso. destruct entries as [|e0 es]; [done|].
  apply StronglySorted_inv in Hs as [_ Hf]. simpl in Hi. apply list_elem_of_lookup_2 in Hi.
  rewrite Forall_forall in Hf, Hp. specialize (Hf _ Hi). unfold by_priority in Hf.
  assert (H0 := Hp e0 ltac:(constructor)). assert (H1 := Hp e ltac:(by constructor)).
  rewrite fmap_cons, NoDup_cons in Hn. destruct Hn as [Hn _]. unfold placed in *.
  rewrite decide_True in H1 by done. case_decide as Hd; [|lia].
  apply Hn. rewrite Hd, <- He. by apply list_elem_of_fmap_2.
Qed.

(** resolving a middleware chain fails with a duplicate name only if two
    entries share one and with a reserved priority only for an entry out of place (the tool-call
    parser elsewhere than at its slot, or another entry at or below it), and otherwise with a
    hash failure alone; when it succeeds, names are distinct and entries in place, the chain is
    the entries in order of priority with equal priorities in insertion order, the parser is
    first if present, and the logged payload lists the chain. *)
Theorem chain_resolution entries :
  match resolve entries with
  | Ok (es, p) =>
      NoDup (mw_name <$> entries) /\ Forall placed entries /\
      es ≡ₚ entries /\ StronglySorted by_priority es /\
      (forall q, List.filter (fun e => (mw_priority e =? q)%Z) es = List.filter (fun e => (mw_priority e =? q)%Z) entries) /\
      (forall i e, es !! i = Some e -> mw_name e = TOOL_CALL_PARSER_NAME -> i = 0) /\
      mcrp_chain p = imap chain_entry es
  | Err (DuplicateMiddleware n) => n ∈ mw_name <$> entries /\ ~ NoDup (mw_name <$> entries)
  | Err (ReservedPriority n) => exists e, e ∈ entries /\ mw_name e = n /\ ~ placed e
  | Err (KernelHash x) =>
      of_canonical_json (enc (clist ChainEntry_codec) (imap chain_entry (sort_by_priority entries))) = Err x
  | Err _ => False
  end.
Proof.
  unfold resolve. destruct (check_entries [] entries) as [[]|x] eqn:Hc; cbn [mbind result_bind].
  - apply check_entries_ok in Hc as (Hn & Hp & _).
    destruct (of_canonical_json _) as [h|x]; cbn [map_err mbind result_bind]; [|done]. simpl.
    assert (Hperm := sort_by_priority_perm entries). split_and!; try done.
    + apply sort_by_priority_sorted.
    + apply sort_by_priority_stable.
    + intros i e. apply parser_first; [by rewrite Hperm|by rewrite Hperm|apply sort_by_priority_sorted].
  - apply check_entries_err in Hc as (e & He & [[-> [Hin|Hnd]]|[-> Hp]]); [by apply elem_of_nil in Hin| |eauto].
    split; [by apply list_elem_of_fmap_2|done].
Qed.
End chain.
