(* ===== verification/Kernel.v ===== *)
(** The kernel's state and plumbing ([loop_/mod.rs], [loop_/support.rs]): the inbox, the
    cancellation tokens, the registrar of completion futures, the emitter behind a hook's context,
    the handle other threads use, logging, checkpoints, and running one hook.

    A [&mut self] method is a program of the monad [M] over the record [Kernel].  Other threads act
    between the kernel's steps: [interfere] lets the outside send any signals, and it runs before
    every read of what they can change (a token, the inbox, the status mirror, the wakers). *)

From Stdlib Require Import Floats.SpecFloat.
From S2P Require Import Prelude Ord Str Capability Sandbox Json Strict Codec Data Event State Redact Spill Log Outside Registry.

Open Scope string_scope.
Open Scope list_scope.

(** * State updates *)

(** [turn += 1] on a [u64], wrapping as in a release build. *)
Definition next_turn (turn : N) : N := ((turn + 1) mod 2 ^ 64)%N.
Definition with_turn (v : N) (s : State) : State := {|
  st_schema_version := st_schema_version s; st_session_id := st_session_id s; st_created_at := st_created_at s;
  st_turn := v; st_session_status := st_session_status s; st_messages := st_messages s;
  st_pending_tasks := st_pending_tasks s; st_profiles := st_profiles s; st_memory := st_memory s;
  st_notebook_path := st_notebook_path s; st_sandbox_policy_hash := st_sandbox_policy_hash s;
  st_sandbox_backend := st_sandbox_backend s |}.
Definition with_status (v : SessionStatus) (s : State) : State := {|
  st_schema_version := st_schema_version s; st_session_id := st_session_id s; st_created_at := st_created_at s;
  st_turn := st_turn s; st_session_status := v; st_messages := st_messages s;
  st_pending_tasks := st_pending_tasks s; st_profiles := st_profiles s; st_memory := st_memory s;
  st_notebook_path := st_notebook_path s; st_sandbox_policy_hash := st_sandbox_policy_hash s;
  st_sandbox_backend := st_sandbox_backend s |}.
Definition with_messages (v : list Message) (s : State) : State := {|
  st_schema_version := st_schema_version s; st_session_id := st_session_id s; st_created_at := st_created_at s;
  st_turn := st_turn s; st_session_status := st_session_status s; st_messages := v;
  st_pending_tasks := st_pending_tasks s; st_profiles := st_profiles s; st_memory := st_memory s;
  st_notebook_path := st_notebook_path s; st_sandbox_policy_hash := st_sandbox_policy_hash s;
  st_sandbox_backend := st_sandbox_backend s |}.
Definition with_tasks (v : list (string * Task)) (s : State) : State := {|
  st_schema_version := st_schema_version s; st_session_id := st_session_id s; st_created_at := st_created_at s;
  st_turn := st_turn s; st_session_status := st_session_status s; st_messages := st_messages s;
  st_pending_tasks := v; st_profiles := st_profiles s; st_memory := st_memory s;
  st_notebook_path := st_notebook_path s; st_sandbox_policy_hash := st_sandbox_policy_hash s;
  st_sandbox_backend := st_sandbox_backend s |}.
Definition with_sandbox (hash backend : string) (s : State) : State := {|
  st_schema_version := st_schema_version s; st_session_id := st_session_id s; st_created_at := st_created_at s;
  st_turn := st_turn s; st_session_status := st_session_status s; st_messages := st_messages s;
  st_pending_tasks := st_pending_tasks s; st_profiles := st_profiles s; st_memory := st_memory s;
  st_notebook_path := st_notebook_path s; st_sandbox_policy_hash := hash; st_sandbox_backend := backend |}.
Definition push_message (m : Message) (s : State) : State := with_messages (st_messages s ++ [m]) s.

(** * The kernel *)

(** [support.rs: Inbound]. *)
Inductive Inbound : Type :=
  | InUserMessage (m : Message)
  | InTaskUpdate (u : TaskUpdate)
  | InCancelTask (id : TaskId).

(** [support.rs: CancelState]: whether each token was itself cancelled.  A child token is cancelled
    with its parent; the turn's token is the session's child and a tool's the turn's. *)
Record CancelState : Type := { cs_session : bool; cs_turn : option bool; cs_tools : list (string * bool) }.
Inductive Token : Type := SessionToken | TurnToken | ToolToken (tool_use_id : string).
Definition token_cancelled (t : Token) (c : CancelState) : bool :=
  match t with
  | SessionToken => cs_session c
  | TurnToken => cs_session c || default false (cs_turn c)
  | ToolToken id => cs_session c || default false (cs_turn c) || default false (omap_get id (cs_tools c))
  end.

(** [support.rs: Registrar]: the tasks whose completion future is live, and all ever registered. *)
Record Registrar : Type := { rg_wakers : list TaskId; rg_watched : list TaskId }.

(** [support.rs: Emitter]. *)
Record Emitter : Type := {
  em_queue : list EventBody; em_compaction : option string; em_allow_compaction : bool; em_turn : N
}.

(** [loop_/mod.rs: Shared]: what is fixed for the life of the process (the kernel's parts whose
    state changes are fields of [Kernel] below). *)
Record Shared (X : Type) : Type := {
  sh_session_id : SessionId;
  sh_memory_name : string;
  sh_sandbox : SandboxBackend X;
  sh_provider : Provider X;
  sh_registry : Registry X;
  sh_chain : list (MiddlewareEntry X);
  sh_profiles : ActiveProfiles;
  sh_spill : SpillConfig;
  sh_retry : RetryPolicy;
  sh_limits : SandboxLimits;
  sh_model_id : string;
  sh_model_params : ModelParams;
  sh_system_prompt : list PromptBlock;
  sh_grants : list Capability;
  sh_delta_sink : bool
}.
Arguments sh_session_id {X} _.
Arguments sh_memory_name {X} _.
Arguments sh_sandbox {X} _.
Arguments sh_provider {X} _.
Arguments sh_registry {X} _.
Arguments sh_chain {X} _.
Arguments sh_profiles {X} _.
Arguments sh_spill {X} _.
Arguments sh_retry {X} _.
Arguments sh_limits {X} _.
Arguments sh_model_id {X} _.
Arguments sh_model_params {X} _.
Arguments sh_system_prompt {X} _.
Arguments sh_grants {X} _.
Arguments sh_delta_sink {X} _.

(** [loop_/mod.rs: Kernel] with what it shares with its handles: [k_mirror] is the handle's mirror
    of the status, [k_ext] the outside. *)
Record Kernel (X L : Type) : Type := {
  k_state : State;
  k_checkpoint_hash : string;
  k_inbox : list Inbound;
  k_mirror : SessionStatus;
  k_cancel : CancelState;
  k_registrar : Registrar;
  k_emitter : Emitter;
  k_session_procs : list (string * SessionProcess X);
  k_last_error_class : option string;
  k_redactor : Redactor;
  k_log : L;
  k_ext : X
}.
Arguments k_state {X L} _.
Arguments k_checkpoint_hash {X L} _.
Arguments k_inbox {X L} _.
Arguments k_mirror {X L} _.
Arguments k_cancel {X L} _.
Arguments k_registrar {X L} _.
Arguments k_emitter {X L} _.
Arguments k_session_procs {X L} _.
Arguments k_last_error_class {X L} _.
Arguments k_redactor {X L} _.
Arguments k_log {X L} _.
Arguments k_ext {X L} _.

Section setters.
Context {X L : Type}.
Implicit Types k : Kernel X L.
Definition build_kernel s ck i st c r e p le rd lg x : Kernel X L := {|
  k_state := s; k_checkpoint_hash := ck; k_inbox := i; k_mirror := st; k_cancel := c; k_registrar := r;
  k_emitter := e; k_session_procs := p; k_last_error_class := le; k_redactor := rd; k_log := lg; k_ext := x |}.
Definition set_state v k : Kernel X L :=
  build_kernel v (k_checkpoint_hash k) (k_inbox k) (k_mirror k) (k_cancel k) (k_registrar k) (k_emitter k) (k_session_procs k) (k_last_error_class k) (k_redactor k) (k_log k) (k_ext k).
Definition set_checkpoint_hash v k : Kernel X L :=
  build_kernel (k_state k) v (k_inbox k) (k_mirror k) (k_cancel k) (k_registrar k) (k_emitter k) (k_session_procs k) (k_last_error_class k) (k_redactor k) (k_log k) (k_ext k).
Definition set_inbox v k : Kernel X L :=
  build_kernel (k_state k) (k_checkpoint_hash k) v (k_mirror k) (k_cancel k) (k_registrar k) (k_emitter k) (k_session_procs k) (k_last_error_class k) (k_redactor k) (k_log k) (k_ext k).
Definition set_mirror v k : Kernel X L :=
  build_kernel (k_state k) (k_checkpoint_hash k) (k_inbox k) v (k_cancel k) (k_registrar k) (k_emitter k) (k_session_procs k) (k_last_error_class k) (k_redactor k) (k_log k) (k_ext k).
Definition set_cancel v k : Kernel X L :=
  build_kernel (k_state k) (k_checkpoint_hash k) (k_inbox k) (k_mirror k) v (k_registrar k) (k_emitter k) (k_session_procs k) (k_last_error_class k) (k_redactor k) (k_log k) (k_ext k).
Definition set_registrar v k : Kernel X L :=
  build_kernel (k_state k) (k_checkpoint_hash k) (k_inbox k) (k_mirror k) (k_cancel k) v (k_emitter k) (k_session_procs k) (k_last_error_class k) (k_redactor k) (k_log k) (k_ext k).
Definition set_emitter v k : Kernel X L :=
  build_kernel (k_state k) (k_checkpoint_hash k) (k_inbox k) (k_mirror k) (k_cancel k) (k_registrar k) v (k_session_procs k) (k_last_error_class k) (k_redactor k) (k_log k) (k_ext k).
Definition set_session_procs v k : Kernel X L :=
  build_kernel (k_state k) (k_checkpoint_hash k) (k_inbox k) (k_mirror k) (k_cancel k) (k_registrar k) (k_emitter k) v (k_last_error_class k) (k_redactor k) (k_log k) (k_ext k).
Definition set_last_error_class v k : Kernel X L :=
  build_kernel (k_state k) (k_checkpoint_hash k) (k_inbox k) (k_mirror k) (k_cancel k) (k_registrar k) (k_emitter k) (k_session_procs k) v (k_redactor k) (k_log k) (k_ext k).
Definition set_redactor v k : Kernel X L :=
  build_kernel (k_state k) (k_checkpoint_hash k) (k_inbox k) (k_mirror k) (k_cancel k) (k_registrar k) (k_emitter k) (k_session_procs k) (k_last_error_class k) v (k_log k) (k_ext k).
Definition set_log v k : Kernel X L :=
  build_kernel (k_state k) (k_checkpoint_hash k) (k_inbox k) (k_mirror k) (k_cancel k) (k_registrar k) (k_emitter k) (k_session_procs k) (k_last_error_class k) (k_redactor k) v (k_ext k).
Definition set_ext v k : Kernel X L :=
  build_kernel (k_state k) (k_checkpoint_hash k) (k_inbox k) (k_mirror k) (k_cancel k) (k_registrar k) (k_emitter k) (k_session_procs k) (k_last_error_class k) (k_redactor k) (k_log k) v.
Definition on_state (f : State -> State) k : Kernel X L := set_state (f (k_state k)) k.
End setters.

(** * The handle (loop_/mod.rs: KernelHandle) *)

Section handle.
Context {X L : Type}.
Implicit Types k : Kernel X L.

Definition push_inbound (i : Inbound) k : Kernel X L := set_inbox (k_inbox k ++ [i]) k.
Definition remove_waker (id : TaskId) (r : Registrar) : Registrar :=
  {| rg_wakers := List.filter (fun i => negb (bool_decide (i = id))) (rg_wakers r); rg_watched := rg_watched r |}.

Definition enqueue_user_message (m : Message) k : Kernel X L * result KernelError unit :=
  if decide (k_mirror k = Done) then (k, Err KernelDone) else (push_inbound (InUserMessage m) k, Ok tt).
Definition deliver_task_update (u : TaskUpdate) k : Kernel X L * result KernelError unit :=
  match k_mirror k with
  | Done => (k, Err KernelDone)
  | Created => (k, Err (NotRunning Created))
  | _ => (push_inbound (InTaskUpdate u) k, Ok tt)
  end.

(** [KernelHandle::cancel]. *)
Definition cancel (scope : CancelScope) k : Kernel X L :=
  let c := k_cancel k in
  match scope with
  | ScopeTurn =>
      match cs_turn c with
      | Some _ => set_cancel {| cs_session := cs_session c; cs_turn := Some true; cs_tools := cs_tools c |} k
      | None => k
      end
  | ScopeTool id =>
      match omap_get id (cs_tools c) with
      | Some _ => set_cancel {| cs_session := cs_session c; cs_turn := cs_turn c;
                                cs_tools := omap_insert id true (cs_tools c) |} k
      | None => k
      end
  | ScopeTask id =>
      let k := set_registrar (remove_waker id (k_registrar k)) k in
      if decide (k_mirror k = Done) then k else push_inbound (InCancelTask id) k
  end.

(** The future registered by [Registrar::watch] resolves. *)
Definition future_done (id : TaskId) (outcome : TaskOutcome) k : Kernel X L :=
  if bool_decide (id ∈ rg_wakers (k_registrar k)) then
    (deliver_task_update
      {| tu_id := id; tu_status := if oc_is_error outcome then TFailed else TSucceeded; tu_outcome := Some outcome;
         tu_eta := None; tu_check_hint := None; tu_source := in_process_exit JNull |}
      (set_registrar (remove_waker id (k_registrar k)) k)).1
  else k.

Definition signal k (s : Signal) : Kernel X L :=
  match s with
  | SigUserMessage m => (enqueue_user_message m k).1
  | SigTaskUpdate u => (deliver_task_update u k).1
  | SigCancel scope => cancel scope k
  | SigFutureDone id o => future_done id o k
  | SigRegisterSecret v => set_redactor (register_secret v (k_redactor k)) k
  end.
End handle.

(** * Plumbing *)

Section plumbing.
Context {HP : Platform} {X L : Type} {HO : Outside X} {HL : EventLog L} {HA : ArtifactStore X}.
Context (sh : Shared X).
Notation K := (Kernel X L).
Implicit Types k : K.

Definition interfere {E} : M K E unit :=
  step (fun k => let '(x, sigs) := signals (k_ext k) in (foldl signal (set_ext x k) sigs, tt)).
(** A value drawn from the outside. *)
Definition outside {E A} (f : X -> X * A) : M K E A :=
  step (fun k => let '(x, a) := f (k_ext k) in (set_ext x k, a)).

Definition is_cancelled {E} (t : Token) : M K E bool :=
  interfere ;; gets (fun k => token_cancelled t (k_cancel k)).
(** [UnboundedReceiver::try_recv]. *)
Definition pop_inbox {E} : M K E (option Inbound) :=
  step (fun k => match k_inbox k with [] => (k, None) | i :: rest => (set_inbox rest k, Some i) end).
Definition try_recv {E} : M K E (option Inbound) := interfere ;; pop_inbox.

(** ** The registrar *)

Definition watch (id : TaskId) (r : Registrar) : Registrar :=
  {| rg_wakers := id :: rg_wakers (remove_waker id r);
     rg_watched := if bool_decide (id ∈ rg_watched r) then rg_watched r else id :: rg_watched r |}.
Definition was_watched {E} (id : TaskId) : M K E bool :=
  gets (fun k => bool_decide (id ∈ rg_watched (k_registrar k))).
Definition abort {E} (id : TaskId) : M K E unit :=
  interfere ;; modify (fun k => set_registrar (remove_waker id (k_registrar k)) k).
Definition abort_all {E} : M K E unit :=
  interfere ;; modify (fun k => set_registrar {| rg_wakers := []; rg_watched := rg_watched (k_registrar k) |} k).

(** ** Logging *)

Definition log (body : EventBody) : M K LogError Event :=
  fun k => let '(l, r) := log_append body (k_log k) in (set_log l k, r).
Definition warn (class message : string) (detail : option json) : M K LogError unit :=
  turn ← gets (fun k => st_turn (k_state k));
  _ ← log (EvWarning (warning_kernel turn class message detail));
  mret tt.

(** ** The emitter *)

Definition emit (ev : ExtensionEvent) (e : Emitter) : Emitter :=
  {| em_queue := em_queue e ++ [from_extension ev]; em_compaction := em_compaction e;
     em_allow_compaction := em_allow_compaction e; em_turn := em_turn e |}.
Definition request_compaction (strategy : string) (e : Emitter) : Emitter :=
  if em_allow_compaction e then
    {| em_queue := em_queue e; em_compaction := Some strategy;
       em_allow_compaction := em_allow_compaction e; em_turn := em_turn e |}
  else
    {| em_queue := em_queue e ++ [EvWarning (warning_kernel (em_turn e) "compaction_request_ignored"
         "request_compaction is honored only from before_model" (Some (jobj [("strategy", JStr strategy)])))];
       em_compaction := em_compaction e; em_allow_compaction := em_allow_compaction e; em_turn := em_turn e |}.
Definition hook_effect (e : Emitter) (f : HookEffect) : Emitter :=
  match f with Emit ev => emit ev e | RequestCompaction s => request_compaction s e end.
Definition on_emitter (f : Emitter -> Emitter) k : K := set_emitter (f (k_emitter k)) k.
Definition set_turn (turn : N) (e : Emitter) : Emitter :=
  {| em_queue := em_queue e; em_compaction := em_compaction e; em_allow_compaction := em_allow_compaction e;
     em_turn := turn |}.
Definition allow_compaction (b : bool) (e : Emitter) : Emitter :=
  {| em_queue := em_queue e; em_compaction := em_compaction e; em_allow_compaction := b; em_turn := em_turn e |}.
Definition take_compaction {E} : M K E (option string) :=
  step (fun k => let e := k_emitter k in
    (set_emitter {| em_queue := em_queue e; em_compaction := None; em_allow_compaction := em_allow_compaction e;
                    em_turn := em_turn e |} k, em_compaction e)).
Definition take_queue {E} : M K E (list EventBody) :=
  step (fun k => let e := k_emitter k in
    (set_emitter {| em_queue := []; em_compaction := em_compaction e; em_allow_compaction := em_allow_compaction e;
                    em_turn := em_turn e |} k, em_queue e)).
(** [Kernel::flush_emits]. *)
Definition flush_emits : M K LogError unit :=
  queue ← take_queue; forM queue (fun body => _ ← log body; mret tt).

(** ** Hooks *)

(** [Shared::hook_cx]. *)
Definition hook_cx (checkpoint_hash : string) (turn : N) : HookContext :=
  {| hcx_session_id := sh_session_id sh; hcx_turn := turn; hcx_checkpoint_hash := checkpoint_hash;
     hcx_profiles := sh_profiles sh; hcx_registry := reg_definitions (sh_registry sh) |}.
(** One hook: it edits the state and its other argument, and its effects reach the emitter,
    whether or not it then fails. *)
Definition run_hook {A R} (turn : N) (f : HookContext -> State -> X -> HookRun X (State * A) R) :
    M K MiddlewareError (A * R) :=
  fun k =>
    let r := f (hook_cx (k_checkpoint_hash k) turn) (k_state k) (k_ext k) in
    (set_emitter (foldl hook_effect (k_emitter k) (hr_effects r))
      (set_state (hr_args r).1 (set_ext (hr_outside r) k)), pair (hr_args r).2 <$> hr_result r).

(** ** Status, checkpoints, suspension *)

(** [Kernel::set_status]. *)
Definition turn_token_for (s : SessionStatus) (c : CancelState) : CancelState :=
  {| cs_session := cs_session c;
     cs_turn := if decide (s = Running) then Some (default (cs_session c) (cs_turn c)) else None;
     cs_tools := cs_tools c |}.
Definition set_status {E} (s : SessionStatus) : M K E unit :=
  interfere ;;
  modify (fun k => set_cancel (turn_token_for s (k_cancel k)) (set_mirror s (on_state (with_status s) k))).
Definition get_status {E} : M K E SessionStatus := gets (fun k => st_session_status (k_state k)).

Definition error_class_of k : string := default "unknown" (k_last_error_class k).

(** [Kernel::checkpoint]. *)
Definition checkpoint (reason : CheckpointReason) : M K KernelError unit :=
  s ← gets k_state;
  h ← lift (map_err KernelHash (state_hash s));
  _ ← conv KernelLog (log (EvCheckpoint {| ckpt_turn := st_turn s; ckpt_reason := reason;
    ckpt_session_status := st_session_status s; ckpt_state_hash := h; ckpt_state := s |}));
  modify (set_checkpoint_hash h).

(** [Vec::sort] on ids. *)
Fixpoint insert_id (x : string) (l : list string) : list string :=
  match l with
  | [] => [x]
  | y :: l' => match cmp x y with Gt => y :: insert_id x l' | _ => x :: l end
  end.
Definition sort_ids (l : list string) : list string := foldr insert_id [] l.

(** [Kernel::suspension]. *)
Definition suspension k : Suspension :=
  let open := open_tasks (k_state k) in
  {| su_pending_task_ids := sort_ids (tk_id <$> open);
     su_in_process_wakers := N.of_nat (length (List.filter tk_in_process_waker open));
     su_checkpoint_hash := k_checkpoint_hash k |}.

(** [Kernel::terminate_session_processes]; a failure to terminate is ignored. *)
Definition terminate_session_processes {E} : M K E unit :=
  modify (fun k => set_session_procs [] (set_ext (foldl (fun x p => terminate p.2 x) (k_ext k) (k_session_procs k)) k)).

(** [Shared::redact]: redaction of the value's JSON, read back only if something was replaced. *)
Definition redact {A} (c : codec A) (v : A) : M K string A :=
  interfere ;;
  r ← gets k_redactor;
  let '(raw, n) := redact_value r (enc c v) in
  if (0 <? n)%N then lift (ok_or "redaction: the redacted value does not deserialize" (dec c raw)) else mret v.

(** [Kernel::apply_user_message]. *)
Definition apply_user_message (msg : Message) (at_ : AppliedPoint) : M K KernelError unit :=
  msg ← conv KernelInternal (redact Message_codec msg);
  turn ← gets (fun k => st_turn (k_state k));
  _ ← conv KernelLog (log (EvUserMessage {| umsg_turn := turn; umsg_applied := {| aa_turn := turn; aa_at := at_ |};
    umsg_content := msg_content msg |}));
  modify (on_state (push_message msg)).

(** [applied_point]. *)
Definition applied_point (from : SessionStatus) : AppliedPoint :=
  match from with
  | Created => AtCreated
  | Idle => AtIdle
  | Suspended => AtSuspended
  | Failed => AtFailed
  | Running | Done => AtEndOfTurn
  end.
End plumbing.
