(* ===== verification/Frame.v ===== *)
(** What the plumbing of [Kernel.v] leaves alone.  [frame] relates two kernels that differ only in
    what other threads may touch and in the log; every primitive that is not meant to change the
    session keeps it, whatever the outside does, and whether or not it fails. *)

From S2P Require Import Prelude Ord Str Json Strict Codec Data Event State Redact Spill Log Outside Registry Kernel.

Open Scope string_scope.
Open Scope list_scope.

Section frame.
Context {HP : Platform} {X L : Type} {HO : Outside X} {HL : EventLog L} {HC : Clock} {HLL : EventLogLaws L}.
Notation K := (Kernel X L).
Implicit Types k : K.

(** The log [l'] continues [l]. *)
Record log_grows (l l' : L) : Prop := {
  grows_lines : log_lines l `prefix_of` log_lines l';
  grows_session : log_session l' = log_session l;
  grows_seqs : consecutive (events l) -> consecutive (events l')
}.
#[export] Instance log_grows_preorder : PreOrder log_grows.
Proof.
  split.
  - intros l. by split.
  - intros l1 l2 l3 [H1 H2 H3] [H4 H5 H6]. split; [by etrans|congruence|auto].
Qed.
Lemma append_grows body l l' r : log_append body l = (l', r) -> log_grows l l'.
Proof.
  destruct r as [e|x]; intros Ha.
  - destruct (append_ok _ _ _ _ Ha) as (s & _ & _ & Hl & Hs & _). split; [by exists (stg_lines s)|done|].
    intros Hc. by eapply consecutive_append.
  - destruct (append_err _ _ _ _ Ha) as (Hl & Hs & _). split; [by rewrite Hl|done|]. unfold events. by rewrite Hl.
Qed.

Record frame_by (R : State -> State -> Prop) k k' : Prop := {
  frame_state : R (k_state k) (k_state k');
  frame_checkpoint : k_checkpoint_hash k' = k_checkpoint_hash k;
  frame_mirror : k_mirror k' = k_mirror k;
  frame_procs : k_session_procs k' = k_session_procs k;
  frame_error : k_last_error_class k' = k_last_error_class k;
  frame_session_token : cs_session (k_cancel k') = cs_session (k_cancel k);
  frame_turn_token : is_Some (cs_turn (k_cancel k')) <-> is_Some (cs_turn (k_cancel k));
  frame_wakers : rg_wakers (k_registrar k') ⊆ rg_wakers (k_registrar k);
  frame_watched : rg_watched (k_registrar k') = rg_watched (k_registrar k);
  frame_log : log_grows (k_log k) (k_log k')
}.
#[export] Instance frame_by_preorder R `{!PreOrder R} : PreOrder (frame_by R).
Proof.
  split.
  - intros k. by split.
  - intros k1 k2 k3 [] []. split; try congruence; by etrans.
Qed.
Definition frame : K -> K -> Prop := frame_by eq.
#[export] Instance frame_preorder : PreOrder frame := frame_by_preorder eq.
Lemma frame_weaken R `{!Reflexive R} k k' : frame k k' -> frame_by R k k'.
Proof. intros [Hs]. split; try done. by rewrite Hs. Qed.
Lemma steps_frame_by {E A} R `{!Reflexive R} (m : M K E A) : steps frame m -> steps (frame_by R) m.
Proof. apply steps_mono. intros k k'. by apply frame_weaken. Qed.
(** A state edit. *)
Lemma on_state_frame (R : State -> State -> Prop) f k : R (k_state k) (f (k_state k)) -> frame_by R k (on_state f k).
Proof. by split. Qed.

Lemma remove_waker_subset id r : rg_wakers (remove_waker id r) ⊆ rg_wakers r.
Proof. intros x. simpl. rewrite !list_elem_of_In, List.filter_In. naive_solver. Qed.
Lemma remove_waker_gone id r : id ∉ rg_wakers (remove_waker id r).
Proof.
  simpl. rewrite list_elem_of_In, List.filter_In. intros [_ Hn]. by rewrite bool_decide_true in Hn.
Qed.

Lemma frame_push i k : frame k (push_inbound i k).
Proof. by split. Qed.
Lemma frame_deliver u k : frame k (deliver_task_update u k).1.
Proof. unfold deliver_task_update. destruct (k_mirror k); simpl; done || apply frame_push. Qed.
Lemma frame_remove id k : frame k (set_registrar (remove_waker id (k_registrar k)) k).
Proof. split; try done. apply remove_waker_subset. Qed.
Lemma frame_signal k s : frame k (signal k s).
Proof.
  destruct s as [m|u|[|id|id]|id o|v]; simpl.
  - unfold enqueue_user_message. by case_decide.
  - apply frame_deliver.
  - destruct (cs_turn (k_cancel k)) eqn:Ht; [|done]. split; try done; simpl; rewrite Ht; split; by eexists.
  - by destruct (omap_get id _).
  - case_decide; [apply frame_remove|]. etrans; [apply frame_remove|apply frame_push].
  - unfold future_done. case_match; [|done]. etrans; [apply frame_remove|apply frame_deliver].
  - by split.
Qed.
Lemma frame_signals sigs k : frame k (foldl signal k sigs).
Proof. revert k. induction sigs as [|s sigs IH]; intros k; simpl; [done|]. etrans; [apply frame_signal|apply IH]. Qed.

Lemma interfere_frame {E} : steps frame (interfere (E := E)).
Proof.
  apply steps_step. intros k. destruct (signals (k_ext k)) as [x sigs]. simpl.
  etrans; [|apply frame_signals]. by split.
Qed.
Lemma outside_frame {E A} (f : X -> X * A) : steps frame (outside (E := E) f).
Proof. apply steps_step. intros k. destruct (f (k_ext k)). by split. Qed.
Lemma is_cancelled_frame {E} t : steps frame (is_cancelled (E := E) t).
Proof. apply steps_bind; [apply _|apply interfere_frame|intros _; apply steps_gets; apply _]. Qed.
Lemma pop_inbox_frame {E} : steps frame (pop_inbox (E := E)).
Proof. apply steps_step. intros k. by destruct (k_inbox k). Qed.
Lemma try_recv_frame {E} : steps frame (try_recv (E := E)).
Proof. apply steps_bind; [apply _|apply interfere_frame|intros _; apply pop_inbox_frame]. Qed.
Lemma abort_frame {E} id : steps frame (abort (E := E) id).
Proof. apply steps_bind; [apply _|apply interfere_frame|]. intros _. apply steps_modify, frame_remove. Qed.
Lemma abort_all_frame {E} : steps frame (abort_all (E := E)).
Proof.
  apply steps_bind; [apply _|apply interfere_frame|]. intros _. apply steps_modify. intros k. split; try done.
  apply list_subseteq_nil.
Qed.
Lemma log_frame body : steps frame (log body).
Proof.
  intros k. unfold log. destruct (log_append body (k_log k)) as [l r] eqn:Ha. simpl. split; try done. simpl.
  by eapply append_grows.
Qed.
Lemma take_queue_frame {E} : steps frame (take_queue (E := E)).
Proof. apply steps_step. by split. Qed.
Lemma take_compaction_frame {E} : steps frame (take_compaction (E := E)).
Proof. apply steps_step. by split. Qed.
Lemma on_emitter_frame f k : frame k (on_emitter f k).
Proof. by split. Qed.
Lemma modify_emitter_frame {E} f : steps frame (modify (E := E) (on_emitter f)).
Proof. apply steps_modify. intros k. apply on_emitter_frame. Qed.
Lemma redact_frame {A} (c : codec A) v : steps frame (redact c v).
Proof.
  apply steps_bind; [apply _|apply interfere_frame|]. intros _. apply steps_bind; [apply _|apply steps_gets, _|].
  intros r. destruct (redact_value r (enc c v)) as [raw n]. destruct (0 <? n)%N; [apply steps_lift, _|apply steps_ret, _].
Qed.
End frame.

#[export] Hint Resolve interfere_frame outside_frame is_cancelled_frame pop_inbox_frame try_recv_frame abort_frame
  abort_all_frame log_frame take_queue_frame take_compaction_frame modify_emitter_frame redact_frame : steps.
#[export] Hint Resolve steps_frame_by | 5 : steps.

Section frame2.
Context {HP : Platform} {X L : Type} {HO : Outside X} {HL : EventLog L} {HC : Clock} {HLL : EventLogLaws L}.
Lemma warn_frame class msg d : steps (frame (X := X)) (warn class msg d).
Proof. unfold warn. steps_tac. Qed.
Lemma flush_emits_frame : steps (frame (X := X)) flush_emits.
Proof. unfold flush_emits. steps_tac. Qed.
Lemma get_status_frame {E} : steps (frame (X := X) (L := L)) (get_status (E := E)).
Proof. apply steps_gets, _. Qed.
End frame2.

#[export] Hint Resolve warn_frame flush_emits_frame get_status_frame : steps.

(** ** Steps that do not log *)

Section same_log.
Context {HP : Platform} {X L : Type} {HO : Outside X} {HL : EventLog L}.
Notation K := (Kernel X L).
Definition same_log (k k' : K) : Prop := k_log k' = k_log k.
#[export] Instance same_log_preorder : PreOrder same_log.
Proof. split; [by intros k|]. intros k1 k2 k3. unfold same_log. congruence. Qed.
Lemma signal_same_log k s : same_log k (signal k s).
Proof.
  unfold same_log. destruct s as [m|u|[|id|id]|id o|v]; simpl; unfold enqueue_user_message, deliver_task_update, future_done;
    repeat case_match; try done; unfold deliver_task_update; simpl; by repeat case_match.
Qed.
Lemma interfere_same_log {E} : steps same_log (interfere (E := E)).
Proof.
  apply steps_step. intros k. destruct (signals (k_ext k)) as [x sigs]. simpl.
  assert (Hs : forall k0, same_log k0 (foldl signal k0 sigs)).
  { induction sigs as [|s sigs IH]; intros k0; simpl; [done|]. etrans; [apply signal_same_log|apply IH]. }
  apply (Hs (set_ext x k)).
Qed.
Lemma outside_same_log {E A} (f : X -> X * A) : steps same_log (outside (E := E) f).
Proof. apply steps_step. intros k. by destruct (f (k_ext k)). Qed.
End same_log.
#[export] Hint Resolve interfere_same_log outside_same_log : steps.

Section same_log2.
Context {HP : Platform} {X L : Type} {HO : Outside X} {HL : EventLog L}.
Lemma is_cancelled_same_log {E} t : steps (same_log (X := X) (L := L)) (is_cancelled (E := E) t).
Proof. unfold is_cancelled. steps_tac. Qed.
End same_log2.
#[export] Hint Resolve is_cancelled_same_log : steps.

(** ** Steps that take nothing from the inbox *)

Section inbox_grows.
Context {HP : Platform} {X L : Type} {HO : Outside X} {HL : EventLog L}.
Notation K := (Kernel X L).

(** Nobody else sends anything. *)
Definition quiet : Prop := forall x : X, (signals x).2 = [].
(** [k'] has the inbox of [k], followed by what other threads sent meanwhile. *)
Definition inbox_grows (k k' : K) : Prop :=
  exists arrivals, k_inbox k' = k_inbox k ++ arrivals /\ (quiet -> arrivals = []).
#[export] Instance inbox_grows_preorder : PreOrder inbox_grows.
Proof.
  split.
  - intros k. exists []. by rewrite app_nil_r.
  - intros k1 k2 k3 (a & Ha & Hq) (b & Hb & Hr). exists (a ++ b). rewrite Hb, Ha, app_assoc. split; [done|].
    intros Hquiet. by rewrite Hq, Hr.
Qed.
Lemma same_inbox_grows (k k' : K) : k_inbox k' = k_inbox k -> inbox_grows k k'.
Proof. intros Hk. exists []. by rewrite app_nil_r. Qed.
Lemma modify_inbox_grows {E} (f : K -> K) : (forall k, k_inbox (f k) = k_inbox k) -> steps (E := E) inbox_grows (modify f).
Proof. intros Hf. apply steps_modify. intros k. by apply same_inbox_grows. Qed.

Lemma deliver_inbox u (k : K) : exists a, k_inbox (deliver_task_update u k).1 = k_inbox k ++ a.
Proof. unfold deliver_task_update. destruct (k_mirror k); simpl; first [by eexists|exists []; by rewrite app_nil_r]. Qed.
Lemma signal_inbox (k : K) s : exists a, k_inbox (signal k s) = k_inbox k ++ a.
Proof.
  assert (Hsame : forall k' : K, k_inbox k' = k_inbox k -> exists a, k_inbox k' = k_inbox k ++ a)
    by (intros k' ->; exists []; by rewrite app_nil_r).
  destruct s as [m|u|[|id|id]|id o|v]; simpl.
  - unfold enqueue_user_message. case_decide; [by apply Hsame|by eexists].
  - apply deliver_inbox.
  - apply Hsame. by destruct (cs_turn (k_cancel k)).
  - apply Hsame. by destruct (omap_get id _).
  - case_decide; [by apply Hsame|by eexists].
  - unfold future_done. case_match; [|by apply Hsame].
    destruct (deliver_inbox {| tu_id := id; tu_status := if oc_is_error o then TFailed else TSucceeded;
      tu_outcome := Some o; tu_eta := None; tu_check_hint := None; tu_source := in_process_exit JNull |}
      (set_registrar (remove_waker id (k_registrar k)) k)) as [a Ha]. by exists a.
  - by apply Hsame.
Qed.
Lemma signals_inbox sigs (k : K) : exists a, k_inbox (foldl signal k sigs) = k_inbox k ++ a /\ (sigs = [] -> a = []).
Proof.
  revert k. induction sigs as [|s sigs IH]; intros k; simpl; [exists []; by rewrite app_nil_r|].
  destruct (signal_inbox k s) as [a Ha], (IH (signal k s)) as (b & Hb & _). exists (a ++ b).
  by rewrite Hb, Ha, app_assoc.
Qed.
Lemma interfere_inbox_grows {E} : steps inbox_grows (interfere (E := E)).
Proof.
  apply steps_step. intros k. destruct (signals (k_ext k)) as [x sigs] eqn:Hs. simpl.
  destruct (signals_inbox sigs (set_ext x k)) as (a & Ha & Hn). exists a. split; [done|].
  intros Hq. apply Hn. specialize (Hq (k_ext k)). by rewrite Hs in Hq.
Qed.
Lemma outside_inbox_grows {E A} (f : X -> X * A) : steps inbox_grows (outside (E := E) f).
Proof. apply steps_step. intros k. destruct (f (k_ext k)). by apply same_inbox_grows. Qed.
Lemma log_inbox_grows `{Clock} body : steps inbox_grows (log body).
Proof. intros k. unfold log. destruct (log_append body (k_log k)) as [l r]. by apply same_inbox_grows. Qed.
Lemma take_queue_inbox_grows {E} : steps inbox_grows (take_queue (E := E)).
Proof. apply steps_step. intros k. by apply same_inbox_grows. Qed.
Lemma take_compaction_inbox_grows {E} : steps inbox_grows (take_compaction (E := E)).
Proof. apply steps_step. intros k. by apply same_inbox_grows. Qed.
End inbox_grows.
Arguments quiet X {HO}.
#[export] Hint Resolve interfere_inbox_grows outside_inbox_grows log_inbox_grows take_queue_inbox_grows
  take_compaction_inbox_grows : steps.
#[export] Hint Extern 3 (steps inbox_grows (modify _)) => apply modify_inbox_grows; intros; reflexivity : steps.

Section inbox_grows2.
Context {HP : Platform} {X L : Type} {HO : Outside X} {HL : EventLog L} {HC : Clock}.
Notation grows := (inbox_grows (X := X) (L := L)).
Lemma is_cancelled_inbox_grows {E} t : steps grows (is_cancelled (E := E) t).
Proof. unfold is_cancelled. steps_tac. Qed.
Lemma abort_inbox_grows {E} id : steps grows (abort (E := E) id).
Proof. unfold abort. steps_tac. Qed.
Lemma abort_all_inbox_grows {E} : steps grows (abort_all (E := E)).
Proof. unfold abort_all. steps_tac. Qed.
Lemma redact_inbox_grows {A} (c : codec A) v : steps grows (redact c v).
Proof. unfold redact. steps_tac. Qed.
Lemma set_status_inbox_grows {E} s : steps grows (set_status (E := E) s).
Proof. unfold set_status. steps_tac. Qed.
Lemma warn_inbox_grows class msg d : steps grows (warn class msg d).
Proof. unfold warn. steps_tac. Qed.
Lemma flush_emits_inbox_grows : steps grows flush_emits.
Proof. unfold flush_emits. pose proof warn_inbox_grows. steps_tac. Qed.
Lemma checkpoint_inbox_grows reason : steps grows (checkpoint reason).
Proof. unfold checkpoint. steps_tac. Qed.
Lemma terminate_inbox_grows {E} : steps grows (terminate_session_processes (E := E)).
Proof. unfold terminate_session_processes. steps_tac. Qed.
Lemma get_status_inbox_grows {E} : steps grows (get_status (E := E)).
Proof. apply steps_gets, _. Qed.
End inbox_grows2.
#[export] Hint Resolve is_cancelled_inbox_grows abort_inbox_grows abort_all_inbox_grows redact_inbox_grows
  set_status_inbox_grows warn_inbox_grows flush_emits_inbox_grows checkpoint_inbox_grows terminate_inbox_grows
  get_status_inbox_grows : steps.

(** ** The kinds of the events a step logs *)

Definition kinds (lines : list Line) : list string := (fun l => kind (ev_body (ln_event l))) <$> lines.

(** A staged body keeps its kind through the writer's redaction; only a warning may follow it. *)
Lemma stage_kinds `{Clock} sid n rd body s : stage sid n rd body = Ok s ->
  kinds (stg_lines s) = [kind body] \/ kinds (stg_lines s) = [kind body; "warning"].
Proof.
  unfold stage. intros (x & Hx & Hs)%result_bind_Ok. destruct x as [[b raw] late]. injection Hs as <-.
  assert (Hb : kind b = kind body).
  { revert Hx. unfold writer_redact. destruct (redact_value rd (payload_value body)) as [payload m].
    destruct (m =? 0)%N; [by intros [= <- _ _]|]. intros (b' & Hb & Hx)%result_bind_Ok. injection Hx as <- _ _.
    apply ok_or_Ok in Hb. by eapply dec_body_kind. }
  simpl. destruct (0 <? late)%N; [right|left]; unfold kinds; simpl; by rewrite Hb.
Qed.

(** ** The plumbing that cannot fail *)

Section plumbing_total.
Context {HP : Platform} {X L : Type} {HO : Outside X} {HL : EventLog L} {E : Type}.
Lemma interfere_total : total (interfere (X := X) (L := L) (E := E)).
Proof. apply total_step. Qed.
Lemma outside_total {A} (f : X -> X * A) : total (outside (L := L) (E := E) f).
Proof. apply total_step. Qed.
Lemma is_cancelled_total t : total (is_cancelled (X := X) (L := L) (E := E) t).
Proof. apply total_bind; [apply interfere_total|]. intros _. apply total_gets. Qed.
Lemma abort_total id : total (abort (X := X) (L := L) (E := E) id).
Proof. apply total_bind; [apply interfere_total|]. intros _. apply total_modify. Qed.
Lemma abort_all_total : total (abort_all (X := X) (L := L) (E := E)).
Proof. apply total_bind; [apply interfere_total|]. intros _. apply total_modify. Qed.
Lemma try_recv_total : total (try_recv (X := X) (L := L) (E := E)).
Proof. apply total_bind; [apply interfere_total|]. intros _. apply total_step. Qed.
Lemma set_status_total s : total (set_status (X := X) (L := L) (E := E) s).
Proof. apply total_bind; [apply interfere_total|]. intros _. apply total_modify. Qed.
End plumbing_total.
#[export] Hint Resolve interfere_total outside_total is_cancelled_total abort_total abort_all_total try_recv_total
  set_status_total : total.
