(* ===== verification/Scenario.v ===== *)
(** A concrete process around a kernel, for the examples and witnesses of the later files: the
    outside is a script of signal batches, delivered one batch at each point where other threads
    may act; requests ids, times and random numbers are constants. *)

From Stdlib Require Import Floats.SpecFloat.
From S2P Require Import Prelude Ord Str Capability Sandbox Json Strict Codec Data Event State Redact Spill Log Outside Registry Kernel.

Open Scope string_scope.
Open Scope list_scope.

Definition script : Type := list (list Signal).
#[export] Instance script_outside : Outside script := {|
  signals x := match x with [] => ([], []) | s :: x => (x, s) end;
  more_rounds x := (x, 0);
  new_request_id x := (x, "0190");
  random_f64 x := (x, f64_of_Z 0);
  now_rfc3339_ms x := (x, "2026-01-01T00:00:00.000Z");
  elapsed_ms x := (x, 5%N);
  sleep _ x := (x, 0)
|}.
#[export] Instance script_store : ArtifactStore script := {|
  store_name := "noop";
  put x bytes _ := (x, Ok ("h:" +:+ bytes));
  get _ h := Err (ArtNotFound h)
|}.

Definition wit_kernel_at (s : State) (x : script) : Kernel script MemoryEventLog :=
  {| k_state := s; k_checkpoint_hash := ""; k_inbox := []; k_mirror := st_session_status s;
     k_cancel := {| cs_session := false; cs_turn := if decide (st_session_status s = Running) then Some false else None;
                    cs_tools := [] |};
     k_registrar := {| rg_wakers := ["t1-c1"]; rg_watched := ["t1-c1"] |};
     k_emitter := {| em_queue := []; em_compaction := None; em_allow_compaction := false; em_turn := 0 |};
     k_session_procs := []; k_last_error_class := None; k_redactor := plain_redactor; k_log := wit_log; k_ext := x |}.

Definition wit_outcome : TaskOutcome :=
  {| oc_content := Json (JStr "done"); oc_is_error := false; oc_artifact_handles := [] |}.
Definition wit_update : TaskUpdate :=
  {| tu_id := "t1-c1"; tu_status := TSucceeded; tu_outcome := Some wit_outcome; tu_eta := None; tu_check_hint := None;
     tu_source := in_process_exit JNull |}.

(** ** A session with one tool, [echo], and a provider that always answers with [resp] *)

Definition wit_tool : Tool script :=
  {| tool_name := "echo"; tool_description := "returns its input"; tool_schema := JObj []; tool_kind := Stateless;
     tool_capabilities := [Fs "/work/in" Ro]; tool_session_command := None;
     tool_invoke _ input x := (x, {| inv_pending := [[]]; inv_last := []; inv_end := Some (Ok (RValue input)) |}) |}.
Definition wit_provider (r : result ProviderError ModelResponse) : Provider script :=
  {| provider_name := "script";
     complete _ x := (x, {| call_pending := 1; call_end := Some r |});
     complete_stream _ x := (x, {| call_pending := 0; call_end := None |}) |}.
Definition wit_registry : Registry script :=
  match @build_registry toy_platform script [wit_tool] wit_grants wit_limits with
  | Ok r => r
  | Err _ => {| reg_entries := []; reg_by_name := []; reg_definitions := []; reg_envelope_hash := "" |}
  end.
Definition wit_response (content : list ContentBlock) : ModelResponse :=
  {| mr_content := content; mr_stop_reason := StopToolUse;
     mr_usage := {| us_input_tokens := 1; us_output_tokens := 1; us_cache_read_tokens := None; us_reasoning_tokens := None |};
     mr_model_id := "m"; mr_raw_response_hash := "r"; mr_response_id := None |}.
Definition wit_sandbox : SandboxBackend script := {| sandbox_name := "none"; launch_session _ _ x := (x, Err "none") |}.
Definition wit_params : ModelParams :=
  {| mp_temperature := None; mp_top_p := None; mp_max_tokens := None; mp_stop := []; mp_thinking := None; mp_extra := JNull |}.
Definition wit_shared_with (attempts : N) (r : result ProviderError ModelResponse)
    (chain : list (MiddlewareEntry script)) : Shared script :=
  {| sh_session_id := "s1"; sh_memory_name := "noop"; sh_sandbox := wit_sandbox; sh_provider := wit_provider r;
     sh_registry := wit_registry; sh_chain := chain; sh_profiles := wit_profiles; sh_spill := default_spill;
     sh_retry := {| rp_max_attempts := attempts; rp_base_delay := 0; rp_max_delay := 0; rp_multiplier := f64_of_Z 2;
                    rp_jitter := false; rp_request_timeout := secs 60 |};
     sh_limits := wit_limits; sh_model_id := "m"; sh_model_params := wit_params; sh_system_prompt := [];
     sh_grants := wit_grants; sh_delta_sink := false |}.
Definition wit_shared := wit_shared_with 1.
(** A model message with a call of [echo] and one of a tool that does not exist. *)
Definition wit_calls : ModelResponse :=
  wit_response [Text "two calls"; ToolUse "c7" "echo" (JStr "hi"); ToolUse "c8" "absent" JNull].
Definition wit_running : State := with_status Running wit_state.
Definition wit_entry : MiddlewareEntry script :=
  {| mw_name := "quiet"; mw_priority := 0; mw_source := MsKernel; mw_config_hash := None;
     mw_middleware := default_middleware |}.
