(* ===== verification/Tasks.v ===== *)
(** [loop_/tasks.rs]: applying task updates and cancelling tasks; a task that has reached a
    terminal status stays as it is, and reaching one adds exactly one [TaskResult] message. *)

From Stdlib Require Import Floats.SpecFloat.
From S2P Require Import Prelude Ord Str Capability Sandbox Json Strict Codec Data Event State Redact Spill Log Outside Registry Kernel Frame Scenario.

Open Scope string_scope.
Open Scope list_scope.

Inductive Applied : Type := Ignored | Progress | Terminal.
#[export] Instance Applied_eq_dec : EqDecision Applied.
Proof. solve_decision. Defined.

(** * The task records *)

(** The fields an applied update sets before its status is looked at. *)
Definition note_hints (eta : option N) (hint : option json) (t : Task) : Task :=
  {| tk_id := tk_id t; tk_tool_use_id := tk_tool_use_id t; tk_tool_name := tk_tool_name t; tk_status := tk_status t;
     tk_started_turn := tk_started_turn t; tk_completed_turn := tk_completed_turn t;
     tk_eta := match eta with Some _ => eta | None => tk_eta t end;
     tk_check_hint := match hint with Some _ => hint | None => tk_check_hint t end;
     tk_description := tk_description t; tk_outcome := tk_outcome t; tk_in_process_waker := tk_in_process_waker t |}.
Definition mark_running (t : Task) : Task :=
  {| tk_id := tk_id t; tk_tool_use_id := tk_tool_use_id t; tk_tool_name := tk_tool_name t; tk_status := TRunning;
     tk_started_turn := tk_started_turn t; tk_completed_turn := tk_completed_turn t; tk_eta := tk_eta t;
     tk_check_hint := tk_check_hint t; tk_description := tk_description t; tk_outcome := tk_outcome t;
     tk_in_process_waker := tk_in_process_waker t |}.
Definition finish (status : TaskStatus) (turn : N) (outcome : TaskOutcome) (t : Task) : Task :=
  {| tk_id := tk_id t; tk_tool_use_id := tk_tool_use_id t; tk_tool_name := tk_tool_name t; tk_status := status;
     tk_started_turn := tk_started_turn t; tk_completed_turn := Some turn; tk_eta := tk_eta t;
     tk_check_hint := tk_check_hint t; tk_description := tk_description t; tk_outcome := Some outcome;
     tk_in_process_waker := tk_in_process_waker t |}.
(** The synthetic message for a task that ended. *)
Definition task_result (t : Task) (status : TaskStatus) (content : ToolResultContent) (is_error : bool) : Message :=
  {| msg_role := RoleUser;
     msg_content := [TaskResultBlock (tk_id t) (tk_tool_use_id t) status content is_error] |}.

Definition put_task (id : TaskId) (t : Task) (s : State) : State := with_tasks (omap_insert id t (st_pending_tasks s)) s.

(** Why an update is ignored: the warning's class and the logged reason. *)
Definition ignored_reason (from : option TaskStatus) (u : TaskUpdate) : option (string * string) :=
  match from with
  | None => Some ("task_update_unknown", "unknown_task")
  | Some s =>
      if is_terminal s then Some ("task_update_ignored", "terminal")
      else if is_terminal (tu_status u) && match tu_outcome u with None => true | Some _ => false end
      then Some ("task_update_invalid", "missing_outcome")
      else None
  end.

(** What an update that is not ignored does to the state. *)
Definition update_state (turn : N) (u : TaskUpdate) (t : Task) (s : State) : State * result KernelError Applied :=
  let t := note_hints (tu_eta u) (tu_check_hint u) t in
  match tu_status u with
  | TPending => (put_task (tu_id u) t s, Ok Progress)
  | TRunning => (put_task (tu_id u) (mark_running t) s, Ok Progress)
  | status =>
      match tu_outcome u with
      | None => (put_task (tu_id u) t s, Err (KernelInternal "outcome checked above"))
      | Some outcome =>
          let is_error := oc_is_error outcome || negb (bool_decide (status = TSucceeded)) in
          (push_message (task_result t status (oc_content outcome) is_error)
             (put_task (tu_id u) (finish status turn outcome t) s), Ok Terminal)
      end
  end.

(** The state after the [Cancelled] transition, if the task is open. *)
Definition cancel_task (id : TaskId) (content : json) (s : State) : option State :=
  t ← omap_get id (st_pending_tasks s);
  if is_open t then
    let outcome := {| oc_content := Json content; oc_is_error := true; oc_artifact_handles := [] |} in
    Some (push_message (task_result t TCancelled (oc_content outcome) true)
            (put_task id (finish TCancelled (st_turn s) outcome t) s))
  else None.

(** * The kernel's operations *)

Section tasks.
Context {HP : Platform} {X L : Type} {HO : Outside X} {HL : EventLog L}.
Notation K := (Kernel X L).

Definition task_update_event (turn : N) (from : option TaskStatus) (u : TaskUpdate) (at_ : AppliedPoint)
    (reason : option string) : EventBody :=
  EvTaskUpdate {| tupd_turn := turn; tupd_task_id := tu_id u; tupd_from_status := from; tupd_status := tu_status u;
    tupd_outcome := tu_outcome u; tupd_eta_secs := as_secs <$> tu_eta u; tupd_check_hint := tu_check_hint u;
    tupd_waker := tu_source u; tupd_applied := {| aa_turn := turn; aa_at := at_ |}; tupd_ignored_reason := reason |}.

(** [Kernel::apply_task_update]. *)
Definition apply_task_update (u : TaskUpdate) (at_ : AppliedPoint) : M K KernelError Applied :=
  u ← conv KernelInternal (redact TaskUpdate_codec u);
  s ← gets k_state;
  let turn := st_turn s in
  let task := omap_get (tu_id u) (st_pending_tasks s) in
  let from := tk_status <$> task in
  match ignored_reason from u with
  | Some (class, reason) =>
      _ ← conv KernelLog (log (EvWarning (warning_kernel turn class
            ("task update for " +:+ tu_id u +:+ " ignored: " +:+ reason)
            (Some (jobj [("task_id", JStr (tu_id u)); ("status", enc TaskStatus_codec (tu_status u))])))));
      _ ← conv KernelLog (log (task_update_event turn from u AtIgnored (Some reason)));
      mret Ignored
  | None =>
      t ← lift (ok_or (KernelInternal "task vanished") task);
      applied ← (fun k => let '(s, r) := update_state turn u t (k_state k) in (set_state s k, r));
      when (bool_decide (applied = Terminal)) (abort (tu_id u)) ;;
      _ ← conv KernelLog (log (task_update_event turn from u at_ None));
      mret applied
  end.

(** [Kernel::cancel_task_in_state]. *)
Definition cancel_task_in_state (id : TaskId) (content : json) : M K KernelError bool :=
  abort id ;;
  step (fun k => match cancel_task id content (k_state k) with
                 | Some s => (set_state s k, true)
                 | None => (k, false)
                 end).

Definition cancelled_event (turn : N) (scope : CancelScopeKind) (tool_use_id : option string) (task_id : option TaskId)
    (phase : LoopPhase) (skipped : list string) : EventBody :=
  EvCancelled {| canc_turn := turn; canc_scope := scope; canc_tool_use_id := tool_use_id; canc_task_id := task_id;
    canc_phase := phase; canc_signalled := false; canc_skipped_tool_use_ids := skipped |}.
Definition cancelled_json : json := jobj [("cancelled", JBool true)].

(** [Kernel::apply_cancel_task]. *)
Definition apply_cancel_task (id : TaskId) (phase : LoopPhase) : M K KernelError bool :=
  done ← cancel_task_in_state id cancelled_json;
  if negb done then mret false
  else
    turn ← gets (fun k => st_turn (k_state k));
    _ ← conv KernelLog (log (cancelled_event turn SkTask None (Some id) phase []));
    mret true.

(** ** The inbox *)

(** One item, as the loop of [Kernel::drain_inbox_end_of_turn] takes it. *)
Definition apply_at_boundary (i : Inbound) : M K KernelError bool :=
  match i with
  | InUserMessage m => apply_user_message m AtEndOfTurn ;; mret true
  | InTaskUpdate u => _ ← apply_task_update u AtEndOfTurn; mret false
  | InCancelTask id => _ ← apply_cancel_task id PhIdle; mret false
  end.
Fixpoint drain (rounds : nat) (any_user : bool) : M K KernelError bool :=
  match rounds with
  | O => mret any_user
  | S rounds =>
      item ← try_recv;
      match item with
      | None => mret any_user
      | Some i => b ← apply_at_boundary i; drain rounds (any_user || b)
      end
  end.
(** [Kernel::drain_inbox_end_of_turn]: the yield lets the others run; every item that is then in
    the inbox gets its round, and so do those that arrive meanwhile. *)
Definition drain_inbox_end_of_turn : M K KernelError bool :=
  interfere ;;
  n ← gets (fun k => length (k_inbox k));
  more ← outside more_rounds;
  drain (n + more) false.

(** The three flags of [Kernel::apply_inbound_batch]. *)
Record batch : Type := { any_user : bool; changed : bool; terminal_update : bool }.
Definition apply_in_batch (from : SessionStatus) (b : batch) (i : Inbound) : M K KernelError batch :=
  match i with
  | InUserMessage m =>
      apply_user_message m (applied_point from) ;;
      mret {| any_user := true; changed := true; terminal_update := terminal_update b |}
  | InTaskUpdate u =>
      a ← apply_task_update u (applied_point from);
      mret match a with
           | Ignored => b
           | Progress => {| any_user := any_user b; changed := true; terminal_update := terminal_update b |}
           | Terminal => {| any_user := any_user b; changed := true; terminal_update := true |}
           end
  | InCancelTask id =>
      done ← apply_cancel_task id PhIdle;
      mret (if done : bool then {| any_user := any_user b; changed := true; terminal_update := true |} else b)
  end.
Fixpoint apply_batch (from : SessionStatus) (b : batch) (items : list Inbound) : M K KernelError batch :=
  match items with
  | [] => mret b
  | i :: items => b ← apply_in_batch from b i; apply_batch from b items
  end.
(** The items taken by the [try_recv] loop; nothing is applied meanwhile, so one batch of signals
    stands for all that arrive during it. *)
Definition take_inbox {E} : M K E (list Inbound) :=
  interfere ;; step (fun k => (set_inbox [] k, k_inbox k)).

(** [Kernel::apply_inbound_batch]. *)
Definition apply_inbound_batch (first : Inbound) (from : SessionStatus) : M K KernelError unit :=
  rest ← take_inbox;
  b ← apply_batch from {| any_user := false; changed := false; terminal_update := false |} (first :: rest);
  when (any_user b || (terminal_update b && bool_decide (from = Suspended))) (set_status Running) ;;
  when (changed b) (checkpoint (if any_user b then CrUserInput else CrTaskUpdate)).
End tasks.

(** * What the inputs of a session do to its state *)

Section inputs.
Implicit Types (s : State) (id : TaskId).

Definition task_at id s : option Task := omap_get id (st_pending_tasks s).
Definition open_in id s : bool := match task_at id s with Some t => is_open t | None => false end.
(** How many times (0 or 1) the task ends between two states. *)
Definition ended id s s' : nat := if open_in id s && negb (open_in id s') then 1 else 0.
(** The message tells the outcome the task has. *)
Definition reports id (m : Message) s : Prop :=
  exists t o, task_at id s = Some t /\ is_open t = false /\ tk_outcome t = Some o /\
    is_Some (tk_completed_turn t) /\
    m = task_result t (tk_status t) (oc_content o) (oc_is_error o || negb (bool_decide (tk_status t = TSucceeded))).
(** The messages added, each with the task it reports on, if any. *)
Definition reports_on id (a : option TaskId * Message) : bool := bool_decide (a.1 = Some id).

(** The items that are user messages, and the messages that report on no task. *)
Definition user_messages (items : list Inbound) : list Message :=
  omap (fun i => match i with InUserMessage m => Some m | _ => None end) items.
Definition unlabelled (added : list (option TaskId * Message)) : list Message :=
  omap (fun a => match a.1 with None => Some a.2 | Some _ => None end) added.
(** [m'] is [m] as some redactor leaves it. *)
Definition redacted_form {A} (c : codec A) (m m' : A) : Prop :=
  m' = m \/ exists r, dec c (redact_value r (enc c m)).1 = Some m'.
(** The item can end the task: a terminal update for it, or its cancellation. *)
Definition can_end id (i : Inbound) : Prop :=
  match i with
  | InUserMessage _ => False
  | InTaskUpdate u => exists u', redacted_form TaskUpdate_codec u u' /\ tu_id u' = id /\ is_terminal (tu_status u') = true
  | InCancelTask id' => id' = id
  end.

(** What taking [items] from the inbox, in order, does: tasks neither appear nor disappear, those
    that have ended stay as they are, and the messages added are one for each user message
    among the items, in order, and one for each task that ends, each ended by an item. *)
Record inputs_take (items : list Inbound) s s' : Prop := {
  ia_rest : with_messages [] (with_tasks [] s') = with_messages [] (with_tasks [] s);
  ia_keys id : is_Some (task_at id s') <-> is_Some (task_at id s);
  ia_final id t : task_at id s = Some t -> is_open t = false -> task_at id s' = Some t;
  ia_added : exists added : list (option TaskId * Message),
    st_messages s' = st_messages s ++ added.*2 /\
    Forall2 (redacted_form Message_codec) (user_messages items) (unlabelled added) /\
    (forall id, length (List.filter (reports_on id) added) = ended id s s') /\
    (forall id m, (Some id, m) ∈ added -> reports id m s' /\ exists i, i ∈ items /\ can_end id i)
}.
Definition inputs_applied s s' : Prop := exists items, inputs_take items s s'.

Lemma open_in_take items s s' id : inputs_take items s s' -> open_in id s = false -> open_in id s' = false.
Proof.
  intros [_ Hk Hf _]. unfold open_in. destruct (task_at id s) as [t|] eqn:Ht.
  - intros Ho. by rewrite (Hf id t Ht Ho).
  - intros _. destruct (task_at id s') as [t'|] eqn:Ht'; [|done].
    assert (is_Some (task_at id s)) as [? ?] by (apply Hk; eauto). congruence.
Qed.
Lemma open_in_mono s s' id : inputs_applied s s' -> open_in id s = false -> open_in id s' = false.
Proof. intros [items Hi]. by apply (open_in_take items). Qed.

Lemma inputs_take_nil s : inputs_take [] s s.
Proof.
  split; [done..|]. exists []. rewrite app_nil_r. split_and!; [done|constructor| |by intros ? ? ?%elem_of_nil].
  intros id. unfold ended. by destruct (open_in id s).
Qed.
Lemma inputs_take_app items1 items2 s1 s2 s3 :
  inputs_take items1 s1 s2 -> inputs_take items2 s2 s3 -> inputs_take (items1 ++ items2) s1 s3.
Proof.
  intros H12 H23. assert (Hmono1 := fun id => open_in_take _ _ _ id H12).
  assert (Hmono2 := fun id => open_in_take _ _ _ id H23).
  destruct H12 as [Hr1 Hk1 Hf1 (a1 & Hm1 & Hu1 & Hc1 & Hp1)], H23 as [Hr2 Hk2 Hf2 (a2 & Hm2 & Hu2 & Hc2 & Hp2)]. split.
  - congruence.
  - intros id. by rewrite Hk2, Hk1.
  - eauto.
  - exists (a1 ++ a2). rewrite Hm2, Hm1, fmap_app, app_assoc. split_and!; [done| | |].
    + unfold user_messages, unlabelled. rewrite !omap_app. by apply Forall2_app.
    + intros id. rewrite List.filter_app, length_app, Hc1, Hc2. unfold ended.
      specialize (Hmono1 id). specialize (Hmono2 id).
      destruct (open_in id s1), (open_in id s2), (open_in id s3); simpl; try done; naive_solver.
    + intros id m [Hin|Hin]%elem_of_app.
      * destruct (Hp1 _ _ Hin) as [(t & o & Ht & Ho & Hrest) (i & Hi & He)]. split.
        -- exists t, o. split; [by apply Hf2|done].
        -- exists i. by rewrite elem_of_app; auto.
      * destruct (Hp2 _ _ Hin) as [Hrep (i & Hi & He)]. split; [done|]. exists i. by rewrite elem_of_app; auto.
Qed.
#[export] Instance inputs_applied_preorder : PreOrder inputs_applied.
Proof.
  split.
  - intros s. exists []. apply inputs_take_nil.
  - intros s1 s2 s3 [i1 H1] [i2 H2]. exists (i1 ++ i2). by eapply inputs_take_app.
Qed.

Lemma push_applied m m' s : redacted_form Message_codec m m' -> inputs_take [InUserMessage m] s (push_message m' s).
Proof.
  intros Hr. split; [done..|]. exists [(None, m')]. split_and!; [done|apply Forall2_cons; split; [done|apply Forall2_nil; done]| |].
  - intros id. unfold ended. change (open_in id (push_message m' s)) with (open_in id s). by destruct (open_in id s).
  - by intros id m'' [=]%list_elem_of_singleton.
Qed.

Lemma task_at_put id id' t s : task_at id' (put_task id t s) = if decide (id' = id) then Some t else task_at id' s.
Proof. apply omap_get_insert. Qed.
Lemma open_in_put id id' t s : open_in id' (put_task id t s) = if decide (id' = id) then is_open t else open_in id' s.
Proof. unfold open_in. rewrite task_at_put. by case_decide. Qed.

(** An open task is replaced: by an open one, or by an ended one with its message. *)
Lemma put_open_applied id t t' i s :
  task_at id s = Some t -> is_open t = true -> is_open t' = true -> user_messages [i] = [] ->
  inputs_take [i] s (put_task id t' s).
Proof.
  intros Ht Ho Ho' Hi. assert (Hop : open_in id s = true) by (unfold open_in; by rewrite Ht). split; [done| | |].
  - intros id'. rewrite task_at_put. case_decide; subst; [|done]. rewrite Ht. split; eauto.
  - intros id' x Hx Hxo. rewrite task_at_put. case_decide; subst; [|done]. congruence.
  - exists []. rewrite app_nil_r, Hi. split_and!; [done|constructor| |by intros ? ? ?%elem_of_nil].
    intros id'. unfold ended. rewrite open_in_put. case_decide; subst; [by rewrite Hop, Ho'|by destruct (open_in id' s)].
Qed.
Lemma put_ended_applied id t t' o m i s :
  can_end id i -> task_at id s = Some t -> is_open t = true -> is_open t' = false -> tk_outcome t' = Some o ->
  is_Some (tk_completed_turn t') ->
  m = task_result t' (tk_status t') (oc_content o) (oc_is_error o || negb (bool_decide (tk_status t' = TSucceeded))) ->
  inputs_take [i] s (push_message m (put_task id t' s)).
Proof.
  intros Hi Ht Ho Ho' Hout Hcomp Hm. assert (Hop : open_in id s = true) by (unfold open_in; by rewrite Ht).
  split; [done| | |].
  - intros id'. change (task_at id' (push_message m (put_task id t' s))) with (task_at id' (put_task id t' s)).
    rewrite task_at_put. destruct (decide (id' = id)) as [->|]; [|done]. rewrite Ht. split; eauto.
  - intros id' x Hx Hxo. change (task_at id' (push_message m (put_task id t' s))) with (task_at id' (put_task id t' s)).
    rewrite task_at_put. destruct (decide (id' = id)) as [->|]; [|done]. congruence.
  - exists [(Some id, m)]. split_and!; [done|by destruct i| |].
    + intros id'. unfold ended. change (open_in id' (push_message m (put_task id t' s))) with (open_in id' (put_task id t' s)).
      rewrite open_in_put. simpl. unfold reports_on. simpl. destruct (decide (id' = id)) as [->|Hid].
      * by rewrite Hop, Ho', bool_decide_true.
      * rewrite bool_decide_false by congruence. by destruct (open_in id' s).
    + intros id' m' [= -> ->]%list_elem_of_singleton. split.
      * exists t', o. split; [|done].
        change (task_at id (push_message m (put_task id t' s))) with (task_at id (put_task id t' s)).
        by rewrite task_at_put, decide_True.
      * exists i. by rewrite list_elem_of_singleton.
Qed.
End inputs.

(** ** The operations *)

Section input_steps.
Context {HP : Platform} {X L : Type} {HO : Outside X} {HL : EventLog L} {HC : Clock} {HLL : EventLogLaws L}.
Notation K := (Kernel X L).
Notation inputs := (frame_by (X := X) inputs_applied).

(** [m] takes [items]; if it fails, the first of them. *)
Definition takes {E A} (items : list Inbound) (m : M K E A) : Prop :=
  forall k k' r, m k = (k', r) ->
    exists taken, taken `prefix_of` items /\ (is_ok r = true -> taken = items) /\ frame_by (inputs_take taken) k k'.

Lemma frame_by_app i1 i2 (k1 k2 k3 : K) :
  frame_by (inputs_take i1) k1 k2 -> frame_by (inputs_take i2) k2 k3 -> frame_by (inputs_take (i1 ++ i2)) k1 k3.
Proof.
  intros [] []. split; try congruence; try (by etrans); by eapply inputs_take_app.
Qed.
Lemma frame_take_nil (k k' : K) : frame k k' -> frame_by (inputs_take []) k k'.
Proof. intros [Hs]. split; try done. rewrite <- Hs. apply inputs_take_nil. Qed.
Lemma take_frame items (k k' : K) : frame_by (inputs_take items) k k' -> inputs k k'.
Proof. intros []. split; try done. by eexists. Qed.
Lemma steps_takes {E A} items (m : M K E A) : takes items m -> steps inputs m.
Proof.
  intros Hm k. destruct (m k) as [k' r] eqn:Hr. destruct (Hm _ _ _ Hr) as (taken & _ & _ & Hf). by eapply take_frame.
Qed.
Lemma takes_frame {E A} (m : M K E A) : steps frame m -> takes [] m.
Proof. intros Hm k k' r Hr. exists []. split_and!; [done..|]. apply frame_take_nil. by eapply steps_ran in Hr. Qed.
Lemma takes_bind {E A B} i1 i2 (m : M K E A) (f : A -> M K E B) :
  takes i1 m -> (forall a, takes i2 (f a)) -> takes (i1 ++ i2) (m ≫= f).
Proof.
  intros Hm Hf k k' r Hr. apply bind_inv in Hr as [(e & Hr & ->)|(a & k1 & H1 & Hr)].
  - destruct (Hm _ _ _ Hr) as (taken & Ht & _ & Hfr). exists taken. split_and!; [|done|done].
    by apply prefix_app_r.
  - destruct (Hm _ _ _ H1) as (t1 & _ & Ht1 & Hf1), (Hf a _ _ _ Hr) as (t2 & Hp2 & Ht2 & Hf2).
    specialize (Ht1 eq_refl) as ->. exists (i1 ++ t2). split_and!; [by apply prefix_app|by intros ->%Ht2|].
    by eapply frame_by_app.
Qed.
Lemma takes_frame_bind {E A B} items (m : M K E A) (f : A -> M K E B) :
  steps frame m -> (forall a, takes items (f a)) -> takes items (m ≫= f).
Proof. intros Hm. by apply (takes_bind []), takes_frame. Qed.
Lemma takes_bind_frame {E A B} items (m : M K E A) (f : A -> M K E B) :
  takes items m -> (forall a, steps frame (f a)) -> takes items (m ≫= f).
Proof. intros Hm Hf. rewrite <- (app_nil_r items). apply takes_bind; [done|]. intros a. by apply takes_frame. Qed.
(** A step that only edits the state. *)
Lemma takes_edit {E A} i (m : M K E A) :
  (forall k, frame_by (inputs_take [i]) k (m k).1 \/ (is_ok (m k).2 = false /\ frame k (m k).1)) -> takes [i] m.
Proof.
  intros Hm k k' r Hr. specialize (Hm k). rewrite Hr in Hm. simpl in Hm. destruct Hm as [Hm|[He Hf]].
  - by exists [i].
  - exists []. split_and!; [by eexists|by rewrite He|by apply frame_take_nil].
Qed.

(** What [redact] gives back. *)
Lemma redact_form {A} (c : codec A) v (k k' : K) v' : redact c v k = (k', Ok v') -> redacted_form c v v'.
Proof.
  unfold redact. intros ([] & k1 & H1 & Hr)%bind_ok. apply bind_ok in Hr as (r & k2 & [= <- <-] & Hr).
  destruct (redact_value (k_redactor k1) (enc c v)) as [raw n] eqn:Hv. destruct (0 <? n)%N.
  - unfold lift in Hr. injection Hr as _ Hr. apply ok_or_Ok in Hr. right. exists (k_redactor k1). by rewrite Hv.
  - injection Hr as _ ->. by left.
Qed.
Lemma yields_redact {A} (c : codec A) v : yields (redacted_form c v) (conv KernelInternal (redact (X := X) (L := L) c v)).
Proof.
  intros k k' v' Hr. unfold conv in Hr. destruct (redact c v k) as [k1 [x|]] eqn:Hred; [|done].
  injection Hr as _ <-. by apply redact_form in Hred.
Qed.
Lemma takes_redact {A B} (c : codec A) v items (f : A -> M K KernelError B) :
  (forall v', redacted_form c v v' -> takes items (f v')) -> takes items (conv KernelInternal (redact c v) ≫= f).
Proof.
  intros Hf k k' r Hr. apply bind_inv in Hr as [(e & Hr & ->)|(a & k1 & H1 & Hr)].
  - exists []. split_and!; [by apply prefix_nil|done|]. apply frame_take_nil.
    eapply (steps_ran frame) in Hr; [done|steps_tac].
  - destruct (Hf a (yields_redact _ _ _ _ _ H1) _ _ _ Hr) as (taken & Hp & Ho & Hfr). exists taken. split_and!; [done..|].
    eapply (steps_ran frame) in H1; [|steps_tac]. apply (frame_by_app [] taken _ k1); [by apply frame_take_nil|done].
Qed.

Lemma is_open_note eta hint t : is_open (note_hints eta hint t) = is_open t.
Proof. done. Qed.
Lemma update_state_applied turn u u0 t s :
  redacted_form TaskUpdate_codec u0 u ->
  task_at (tu_id u) s = Some t -> ignored_reason (Some (tk_status t)) u = None ->
  inputs_take [InTaskUpdate u0] s (update_state turn u t s).1.
Proof.
  intros Hu Ht Hi. unfold ignored_reason in Hi. destruct (is_terminal (tk_status t)) eqn:Hopen; [done|].
  assert (Ho : is_open t = true) by (unfold is_open; by rewrite Hopen).
  assert (He : is_terminal (tu_status u) = true -> can_end (tu_id u) (InTaskUpdate u0)) by by exists u.
  unfold update_state. destruct (tu_status u) eqn:Hs; simpl in Hi |- *.
  1,2: by eapply put_open_applied.
  all: destruct (tu_outcome u) as [o|]; [|done]; eapply put_ended_applied; eauto; by apply He.
Qed.
Lemma cancel_task_applied id content s s' : cancel_task id content s = Some s' -> inputs_take [InCancelTask id] s s'.
Proof.
  unfold cancel_task. intros (t & Ht & Hc)%bind_Some. destruct (is_open t) eqn:Ho; [|done]. injection Hc as <-.
  by eapply put_ended_applied.
Qed.
(** An item that does nothing has been taken all the same. *)
Lemma inputs_take_idle i s : user_messages [i] = [] -> inputs_take [i] s s.
Proof.
  intros Hi. split; [done..|]. exists []. rewrite app_nil_r, Hi. split_and!; [done|constructor| |by intros ? ? ?%elem_of_nil].
  intros id. unfold ended. by destruct (open_in id s).
Qed.
Lemma takes_idle {E A} i (m : M K E A) : user_messages [i] = [] -> steps frame m -> takes [i] m.
Proof.
  intros Hi Hm. apply takes_edit. intros k. left. destruct (Hm k) as [Hs]. split; try done. rewrite <- Hs.
  by apply inputs_take_idle.
Qed.

Lemma apply_user_message_takes m at_ : takes [InUserMessage m] (apply_user_message m at_).
Proof.
  unfold apply_user_message. apply takes_redact. intros m' Hm. apply takes_frame_bind; [steps_tac|]. intros turn.
  apply takes_frame_bind; [steps_tac|]. intros _. apply takes_edit. intros k. left. by apply on_state_frame, push_applied.
Qed.
Lemma apply_task_update_takes u at_ : takes [InTaskUpdate u] (apply_task_update u at_).
Proof.
  unfold apply_task_update. apply takes_redact. intros u' Hu k k' r.
  rewrite bind_eq. cbn [gets]. cbv zeta.
  change (omap_get (tu_id u') (st_pending_tasks (k_state k))) with (task_at (tu_id u') (k_state k)).
  destruct (ignored_reason (tk_status <$> task_at (tu_id u') (k_state k)) u') as [[class reason]|] eqn:Hi.
  - refine (takes_idle _ _ _ _ k k' r); [done|steps_tac].
  - destruct (task_at (tu_id u') (k_state k)) as [t|] eqn:Ht; [|done]. cbn [fmap option_fmap option_map] in Hi.
    pose proof (update_state_applied (st_turn (k_state k)) u' u t (k_state k) Hu Ht Hi) as Ha.
    cbn [ok_or lift]. rewrite bind_eq. cbn [lift]. rewrite bind_eq.
    destruct (update_state (st_turn (k_state k)) u' t (k_state k)) as [s1 r1]. simpl in Ha.
    assert (Hf : frame_by (inputs_take [InTaskUpdate u]) k (set_state s1 k)) by by split.
    intros Hr. exists [InTaskUpdate u]. split_and!; [done..|]. destruct r1 as [a|e]; [|by injection Hr as <- _].
    apply (frame_by_app [_] [] _ (set_state s1 k)); [done|]. apply frame_take_nil.
    eapply (steps_ran frame) in Hr; [done|steps_tac].
Qed.
Lemma cancel_task_in_state_takes id content : takes [InCancelTask id] (cancel_task_in_state id content).
Proof.
  unfold cancel_task_in_state. apply takes_frame_bind; [steps_tac|]. intros _. apply takes_edit. intros k. left. unfold step.
  destruct (cancel_task id content (k_state k)) as [s|] eqn:Hc.
  - split; try done. by eapply cancel_task_applied.
  - split; try done. by apply inputs_take_idle.
Qed.
Lemma apply_cancel_task_takes id phase : takes [InCancelTask id] (apply_cancel_task id phase).
Proof.
  unfold apply_cancel_task. apply takes_bind_frame; [apply cancel_task_in_state_takes|]. intros done. steps_tac.
Qed.
Lemma apply_at_boundary_takes i : takes [i] (apply_at_boundary i).
Proof.
  destruct i; simpl; (apply takes_bind_frame; [|intros; steps_tac]).
  - apply apply_user_message_takes.
  - apply apply_task_update_takes.
  - apply apply_cancel_task_takes.
Qed.
Lemma apply_in_batch_takes from b i : takes [i] (apply_in_batch from b i).
Proof.
  destruct i; simpl; (apply takes_bind_frame; [|intros; steps_tac]).
  - apply apply_user_message_takes.
  - apply apply_task_update_takes.
  - apply apply_cancel_task_takes.
Qed.
Lemma apply_batch_takes from b items : takes items (apply_batch from b items).
Proof.
  revert b. induction items as [|i items IH]; intros b; simpl; [apply takes_frame; steps_tac|].
  apply (takes_bind [i] items); [apply apply_in_batch_takes|done].
Qed.
End input_steps.

(** ** What the boundary takes from the inbox *)

Section boundary.
Context {HP : Platform} {X L : Type} {HO : Outside X} {HL : EventLog L} {HC : Clock} {HLL : EventLogLaws L}.
Notation K := (Kernel X L).
Notation grows := (inbox_grows (X := X) (L := L)).

(** The items [drain] gets from [try_recv], in order. *)
Fixpoint taken (rounds : nat) (k : K) : list Inbound :=
  match rounds with
  | O => []
  | S rounds =>
      match try_recv (E := KernelError) k with
      | (k1, Ok (Some i)) => i :: match apply_at_boundary i k1 with (k2, Ok _) => taken rounds k2 | _ => [] end
      | _ => []
      end
  end.
(** Those of [drain_inbox_end_of_turn]. *)
Definition boundary_items (k : K) : list Inbound :=
  let k1 := (interfere (E := KernelError) k).1 in
  let '(x, more) := more_rounds (k_ext k1) in
  taken (length (k_inbox k1) + more) (set_ext x k1).

Lemma drain_boundary (k : K) :
  exists k1 rounds, frame k k1 /\ grows k k1 /\ drain_inbox_end_of_turn k = drain rounds false k1 /\
    boundary_items k = taken rounds k1 /\ length (k_inbox k1) <= rounds.
Proof.
  unfold drain_inbox_end_of_turn, boundary_items. rewrite bind_eq.
  pose proof (interfere_frame (E := KernelError) k) as Hf. pose proof (interfere_inbox_grows (E := KernelError) k) as Hg.
  destruct (interfere k) as [k1 r1] eqn:H1. destruct (interfere_total (X := X) (L := L) (E := KernelError) k) as (k1' & [] & H1').
  rewrite H1 in H1'. injection H1' as <- ->. cbn [fst] in *. rewrite bind_eq. cbn [gets]. rewrite bind_eq. unfold outside at 1, step.
  destruct (more_rounds (k_ext k1)) as [x more]. exists (set_ext x k1), (length (k_inbox k1) + more).
  split_and!; [|  |done|done|simpl; lia].
  - etrans; [exact Hf|by split].
  - etrans; [exact Hg|by apply same_inbox_grows].
Qed.

Lemma drain_takes rounds b (k k' : K) r : drain rounds b k = (k', r) ->
  exists done, done `prefix_of` taken rounds k /\ (is_ok r = true -> done = taken rounds k) /\
    frame_by (inputs_take done) k k'.
Proof.
  revert b k. induction rounds as [|rounds IH]; intros b k; cbn [drain taken].
  { intros [= <- <-]. exists []. split_and!; [done..|]. by apply frame_take_nil. }
  rewrite bind_eq. pose proof (try_recv_frame (E := KernelError) k) as Hf.
  destruct (try_recv k) as [k1 [[i|]|e]]; cbn [fst] in Hf.
  2,3: intros [= <- <-]; exists []; (split_and!; [done..|]); by apply frame_take_nil.
  rewrite bind_eq. destruct (apply_at_boundary i k1) as [k2 [b'|e]] eqn:Hi.
  2: { intros [= <- <-]. destruct (apply_at_boundary_takes i _ _ _ Hi) as (d & Hp & _ & Hd). exists d. split_and!; [|done|].
    - etrans; [exact Hp|]. by apply prefix_cons, prefix_nil.
    - apply (frame_by_app [] d _ k1); [by apply frame_take_nil|done]. }
  intros Hr. destruct (apply_at_boundary_takes i _ _ _ Hi) as (d & _ & Hd & Hfd). specialize (Hd eq_refl) as ->.
  destruct (IH _ _ Hr) as (d & Hp & Ho & Hfr). exists (i :: d). split_and!; [by apply prefix_cons|by intros ->%Ho|].
  apply (frame_by_app [i] d _ k2); [|done]. apply (frame_by_app [] [i] _ k1); [by apply frame_take_nil|done].
Qed.
Lemma drain_inbox_takes (k k' : K) r : drain_inbox_end_of_turn k = (k', r) ->
  exists done, done `prefix_of` boundary_items k /\ (is_ok r = true -> done = boundary_items k) /\
    frame_by (inputs_take done) k k'.
Proof.
  destruct (drain_boundary k) as (k1 & rounds & Hf & _ & -> & -> & _). intros (d & Hp & Ho & Hd)%drain_takes.
  exists d. split_and!; [done..|]. apply (frame_by_app [] d _ k1); [by apply frame_take_nil|done].
Qed.

(** The inbox is emptied in order: everything queued before, then what arrives meanwhile. *)
Lemma task_update_inbox_grows u at_ : steps grows (apply_task_update u at_).
Proof.
  unfold apply_task_update. steps_tac. intros k.
  destruct (update_state _ _ _ (k_state k)) as [s r]. by apply same_inbox_grows.
Qed.
Lemma at_boundary_inbox_grows i : steps grows (apply_at_boundary i).
Proof.
  pose proof task_update_inbox_grows.
  destruct i; unfold apply_at_boundary, apply_user_message, apply_cancel_task, cancel_task_in_state; steps_tac.
  apply steps_step. intros k. destruct (cancel_task _ _ (k_state k)); by apply same_inbox_grows.
Qed.
Lemma drain_inbox_order rounds b (k k' : K) b' : drain rounds b k = (k', Ok b') ->
  (exists arrivals, k_inbox k ++ arrivals = taken rounds k ++ k_inbox k' /\ (quiet X -> arrivals = [])) /\
  (forall queued, queued `prefix_of` k_inbox k -> length queued <= rounds -> queued `prefix_of` taken rounds k).
Proof.
  revert b k. induction rounds as [|rounds IH]; intros b k; cbn [drain taken].
  { intros [= <- _]. split; [exists []; by rewrite app_nil_r|]. intros [|i queued]; simpl; [done|lia]. }
  rewrite bind_eq. pose proof (interfere_inbox_grows (E := KernelError) k) as (a & Ha & Hq).
  unfold try_recv. rewrite bind_eq. destruct (interfere_total (X := X) (L := L) (E := KernelError) k) as (k1 & [] & H1).
  rewrite H1 in Ha |- *. cbn [fst] in Ha. unfold pop_inbox, step.
  destruct (k_inbox k1) as [|i rest] eqn:Hin.
  - intros [= <- _]. symmetry in Ha. apply app_nil in Ha as [Ha ->]. rewrite Ha, Hin. split; [by exists []|].
    intros queued Hp%prefix_nil_inv _. by subst.
  - rewrite bind_eq. destruct (apply_at_boundary i (set_inbox rest k1)) as [k2 [b2|e]] eqn:Hi; [|done]. intros Hr.
    pose proof (at_boundary_inbox_grows i) as Hg. apply (steps_ran grows) in Hi as (a2 & Ha2 & Hq2); [|done].
    simpl in Ha2. destruct (IH _ _ Hr) as [(a3 & Ha3 & Hq3) Hpre]. split.
    + exists (a ++ a2 ++ a3). rewrite app_assoc, <- Ha. simpl. rewrite <- Ha3, Ha2, <- app_assoc. split; [done|].
      intros Hx. by rewrite Hq, Hq2, Hq3.
    + intros [|j queued] Hp Hlen; [apply prefix_nil|]. assert (Hp2 : (j :: queued) `prefix_of` i :: rest)
        by (rewrite Ha; by apply prefix_app_r).
      apply prefix_cons_inv_1 in Hp2 as Hij. apply prefix_cons_inv_2 in Hp2. subst j. apply prefix_cons.
      apply Hpre; [rewrite Ha2; by apply prefix_app_r|simpl in Hlen; lia].
Qed.
Lemma boundary_items_queued (k k' : K) b : drain_inbox_end_of_turn k = (k', Ok b) ->
  exists arrivals, boundary_items k = k_inbox k ++ arrivals /\ (quiet X -> arrivals = []).
Proof.
  destruct (drain_boundary k) as (k1 & rounds & _ & (a & Ha & Hq) & -> & -> & Hle). intros Hr.
  apply drain_inbox_order in Hr as [(a2 & Ha2 & Hq2) Hpre].
  destruct (Hpre (k_inbox k1)) as [a3 Ha3]; [done..|]. rewrite Ha3, Ha, <- app_assoc. exists (a ++ a3). split; [done|].
  intros Hx. rewrite (Hq Hx). rewrite Ha3, (Hq2 Hx), <- app_assoc in Ha2. apply app_inv_head in Ha2.
  symmetry in Ha2. by apply app_nil in Ha2 as [-> _].
Qed.
End boundary.

(** ** The same, as steps *)

Section input_steps2.
Context {HP : Platform} {X L : Type} {HO : Outside X} {HL : EventLog L} {HC : Clock} {HLL : EventLogLaws L}.
Notation inputs := (frame_by (X := X) inputs_applied).

Lemma apply_user_message_inputs m at_ : steps inputs (apply_user_message m at_).
Proof. eapply steps_takes, apply_user_message_takes. Qed.
Lemma apply_task_update_inputs u at_ : steps inputs (apply_task_update u at_).
Proof. eapply steps_takes, apply_task_update_takes. Qed.
Lemma cancel_task_in_state_inputs id content : steps inputs (cancel_task_in_state id content).
Proof. eapply steps_takes, cancel_task_in_state_takes. Qed.
Lemma apply_cancel_task_inputs id phase : steps inputs (apply_cancel_task id phase).
Proof. eapply steps_takes, apply_cancel_task_takes. Qed.
Lemma apply_batch_inputs from b items : steps inputs (apply_batch from b items).
Proof. eapply steps_takes, apply_batch_takes. Qed.
Lemma drain_inbox_inputs : steps inputs drain_inbox_end_of_turn.
Proof.
  intros k. destruct (drain_inbox_end_of_turn k) as [k' r] eqn:Hr.
  apply drain_inbox_takes in Hr as (d & _ & _ & Hd). by eapply take_frame.
Qed.
End input_steps2.
#[export] Hint Resolve apply_user_message_inputs apply_task_update_inputs cancel_task_in_state_inputs
  apply_cancel_task_inputs drain_inbox_inputs apply_batch_inputs : steps.

(** * The claims *)

Section task_claims.
Context {HP : Platform} {X L : Type} {HO : Outside X} {HL : EventLog L} {HC : Clock} {HLL : EventLogLaws L}.
Notation K := (Kernel X L).

(** C10: emptying the inbox at a turn boundary takes everything that was queued, in order, then
    what other threads send meanwhile (nothing, if they are quiet); the items it takes, or those
    of a batch, change the state only by appending messages and updating tasks: no task appears or
    disappears, a task that has ended stays as it is, and the messages appended are exactly one
    for each user message among the items, in their order and redacted, and one for each task that
    ends, which tells the status and outcome the task then has; only a terminal update or a
    cancellation among the items ends a task.  If the log fails on the way, this holds of the
    items taken until then. *)
Theorem inbox_ends_each_task_once (k k' : K) :
  (forall r, drain_inbox_end_of_turn k = (k', r) ->
     exists done, done `prefix_of` boundary_items k /\ inputs_take done (k_state k) (k_state k') /\
       (is_ok r = true -> exists arrivals, done = boundary_items k /\ done = k_inbox k ++ arrivals /\
          (quiet X -> arrivals = []))) /\
  (forall from b items r, apply_batch from b items k = (k', r) ->
     exists done, done `prefix_of` items /\ inputs_take done (k_state k) (k_state k') /\
       (is_ok r = true -> done = items)).
Proof.
  split.
  - intros r Hr. destruct (drain_inbox_takes _ _ _ Hr) as (d & Hp & Ho & Hd). exists d.
    split_and!; [done|by apply Hd|]. intros Hok. specialize (Ho Hok) as ->. destruct r as [b|e]; [|done].
    destruct (boundary_items_queued _ _ _ Hr) as (a & Ha & Hq). by exists a.
  - intros from b items r Hr. destruct (apply_batch_takes _ _ _ _ _ _ Hr) as (d & Hp & Ho & Hd). exists d.
    split_and!; [done|by apply Hd|done].
Qed.

(** What an update, once redacted, does to the task it names. *)
Definition update_effect (u : TaskUpdate) (s : State) (k' : K) (a : Applied) : Prop :=
  let s' := k_state k' in
  match a with
  | Ignored =>
      s' = s /\ match task_at (tu_id u) s with
                | None => True
                | Some t => is_open t = false \/ (is_terminal (tu_status u) = true /\ tu_outcome u = None)
                end
  | Progress =>
      exists t, task_at (tu_id u) s = Some t /\ is_open t = true /\
        let t := note_hints (tu_eta u) (tu_check_hint u) t in
        (tu_status u = TPending /\ s' = put_task (tu_id u) t s) \/
        (tu_status u = TRunning /\ s' = put_task (tu_id u) (mark_running t) s)
  | Terminal =>
      exists t o, task_at (tu_id u) s = Some t /\ is_open t = true /\ tu_outcome u = Some o /\
        is_terminal (tu_status u) = true /\
        let t := finish (tu_status u) (st_turn s) o (note_hints (tu_eta u) (tu_check_hint u) t) in
        s' = push_message (task_result t (tu_status u) (oc_content o)
               (oc_is_error o || negb (bool_decide (tu_status u = TSucceeded)))) (put_task (tu_id u) t s) /\
        tu_id u ∉ rg_wakers (k_registrar k')
  end.

Lemma abort_gone {E} id (k k' : K) r : abort (E := E) id k = (k', r) -> r = Ok tt /\ id ∉ rg_wakers (k_registrar k').
Proof.
  unfold abort. rewrite bind_eq. unfold interfere, step. destruct (signals (k_ext k)) as [x sigs].
  intros [= <- <-]. split; [done|]. apply remove_waker_gone.
Qed.
Lemma log_ok_frame body (k k' : K) r : conv KernelLog (log body) k = (k', r) -> frame k k'.
Proof.
  intros Hc. assert (Hs : steps frame (conv KernelLog (log body) : M K KernelError Event)) by steps_tac.
  specialize (Hs k). by rewrite Hc in Hs.
Qed.

(** a successful task update is the redacted update applied by the
    rules: ignored (the state untouched) if the task is unknown, has ended, or would end without
    an outcome; progress on an open task sets its hints and at most moves it to running; and an
    open task ends with the given status, outcome and turn, its result message appended and its
    completion future dropped. *)
Theorem task_update_transitions (u : TaskUpdate) (at_ : AppliedPoint) (k k' : K) (a : Applied) :
  apply_task_update u at_ k = (k', Ok a) ->
  exists u' k1, redact TaskUpdate_codec u k = (k1, Ok u') /\ update_effect u' (k_state k) k' a.
Proof.
  unfold apply_task_update. intros Hr. apply bind_ok in Hr as (u' & k1 & Hred & Hr).
  unfold conv in Hred. destruct (redact TaskUpdate_codec u k) as [k0 [u0|]] eqn:Hredact; [|done].
  injection Hred as -> ->. exists u', k1. split; [done|].
  assert (Hk1 : k_state k = k_state k1).
  { pose proof (redact_frame TaskUpdate_codec u k) as Hf. rewrite Hredact in Hf. apply Hf. }
  rewrite Hk1. clear Hredact Hk1 k u. apply bind_ok in Hr as (s & k2 & [= <- <-] & Hr).
  change (omap_get (tu_id u') (st_pending_tasks (k_state k1))) with (task_at (tu_id u') (k_state k1)) in Hr.
  cbv zeta in Hr.
  destruct (ignored_reason (tk_status <$> task_at (tu_id u') (k_state k1)) u') as [[class reason]|] eqn:Hi.
  - apply bind_ok in Hr as (e1 & k2 & H1%log_ok_frame & Hr). apply bind_ok in Hr as (e2 & k3 & H2%log_ok_frame & Hr).
    injection Hr as <- <-. split; [by rewrite <- (frame_state _ _ _ H2), <- (frame_state _ _ _ H1)|].
    destruct (task_at (tu_id u') (k_state k1)) as [t|]; [|done]. simpl in Hi. unfold is_open.
    destruct (is_terminal (tk_status t)); [by left|right]. destruct (is_terminal (tu_status u')), (tu_outcome u'); done.
  - destruct (task_at (tu_id u') (k_state k1)) as [t|] eqn:Ht; [|done].
    apply bind_ok in Hr as (t' & k2 & [= <- <-] & Hr). apply bind_ok in Hr as (a' & k3 & Hup & Hr).
    apply bind_ok in Hr as ([] & k4 & Hab & Hr). apply bind_ok in Hr as (e & k5 & H5%log_ok_frame & Hr).
    injection Hr as <- <-.
    assert (Ho : is_open t = true).
    { unfold is_open. simpl in Hi. by destruct (is_terminal (tk_status t)). }
    destruct (update_state (st_turn (k_state k1)) u' t (k_state k1)) as [s1 r] eqn:Hus. injection Hup as <- ->.
    assert (Hab' : frame (set_state s1 k1) k4).
    { assert (Hs : steps (E := KernelError) frame (when (bool_decide (a' = Terminal)) (abort (X := X) (L := L) (tu_id u')))) by steps_tac.
      specialize (Hs (set_state s1 k1)). by rewrite Hab in Hs. }
    assert (Hst : k_state k5 = s1) by by rewrite <- (frame_state _ _ _ H5), <- (frame_state _ _ _ Hab').
    unfold update_state in Hus. destruct (tu_status u') eqn:Hus'; simpl in Hus.
    1,2: injection Hus as <- <-; exists t; rewrite Hst; naive_solver.
    all: destruct (tu_outcome u') as [o|] eqn:Ho'; [|done]; injection Hus as <- <-; exists t, o; rewrite Hst, Hus';
      cbv zeta; split_and!; [done..|reflexivity|];
      rewrite bool_decide_true in Hab by done; apply abort_gone in Hab as [_ Hg]; intros Hin; apply Hg;
      by apply (frame_wakers _ _ _ H5).
Qed.
End task_claims.

(** ** Witnesses *)

#[local] Existing Instance toy_platform.
#[local] Existing Instance wit_clock.

Lemma task_update_transitions_witness :
  let k := wit_kernel_at wit_state [] in
  exists u' k1, redact TaskUpdate_codec wit_update k = (k1, Ok u') /\
    update_effect u' wit_state (fst (apply_task_update wit_update AtSuspended k)) Terminal.
Proof.
  intros k. eapply (task_update_transitions wit_update AtSuspended (wit_kernel_at wit_state [])).
  apply pair_of. lazy. reflexivity.
Defined.
(** A user message, a result delivered twice: one message each. *)
Lemma inbox_ends_each_task_once_witness :
  let items := [InUserMessage {| msg_role := RoleUser; msg_content := [Text "hi"] |}; InTaskUpdate wit_update;
                InTaskUpdate wit_update] in
  let k := set_inbox items (wit_kernel_at wit_state []) in
  let k' := (drain_inbox_end_of_turn k).1 in
  (exists done, done = items /\ inputs_take done (k_state k) (k_state k')) /\
  length (st_messages (k_state k')) = length (st_messages (k_state k)) + 2.
Proof.
  intros items k k'. split; [|vm_compute; reflexivity].
  assert (Hr : drain_inbox_end_of_turn k = ((drain_inbox_end_of_turn k).1, Ok true))
    by (apply pair_of; vm_compute; reflexivity).
  destruct (proj1 (inbox_ends_each_task_once k k') (Ok true) Hr) as (d & Hp & Ht & Ho).
  destruct (Ho eq_refl) as (a & Hd & _ & _). exists d. split; [|exact Ht]. rewrite Hd. vm_compute. reflexivity.
Defined.
