(* ===== verification/Retry.v ===== *)
(** [loop_/retry.rs]: the provider call, repeated with a growing delay while its error may be
    transient and attempts remain. *)

From Stdlib Require Import Floats.SpecFloat.
From S2P Require Import Prelude Ord Str Capability Sandbox Json Strict Codec Data Event State Redact Spill Log Outside Registry Kernel Frame Scenario.

Open Scope string_scope.
Open Scope list_scope.

(** * Delays *)

Definition f64_mul : spec_float -> spec_float -> spec_float := SFmul 53 1024.
Definition f64_lt (a b : spec_float) : bool := match SFcompare a b with Some Lt => true | _ => false end.

(** [f64::powi] by repeated squaring. *)
Fixpoint powi_loop (fuel : nat) (r a : spec_float) (n : Z) : spec_float :=
  match fuel with
  | O => r
  | S fuel =>
      let r := if Z.odd n then f64_mul r a else r in
      if (n / 2 =? 0)%Z then r else powi_loop fuel r (f64_mul a a) (n / 2)
  end.
Definition powi (a : spec_float) (n : Z) : spec_float :=
  let r := powi_loop 32 (f64_of_Z 1) a (Z.abs n) in
  if (n <? 0)%Z then SFdiv 53 1024 (f64_of_Z 1) r else r.
(** [x as i32] for a [u32]. *)
Definition as_i32 (n : N) : Z := if (n <? 2 ^ 31)%N then Z.of_N n else (Z.of_N n - 2 ^ 32)%Z.

(** [Duration::as_secs_f64], and [Duration::from_secs_f64] on what is neither negative nor too
    large: the nearest nanosecond, ties to even. *)
Definition as_secs_f64 (d : N) : spec_float :=
  SFadd 53 1024 (f64_of_Z (Z.of_N (d / 1000000000)))
    (SFdiv 53 1024 (f64_of_Z (Z.of_N (d mod 1000000000))) (f64_of_Z 1000000000)).
Definition round_half_even (num den : N) : N :=
  let q := (num / den)%N in let r := (num mod den)%N in
  if (2 * r <? den)%N then q else if (den <? 2 * r)%N then (q + 1)%N else if N.even q then q else (q + 1)%N.
Definition from_secs_f64 (f : spec_float) : N :=
  match f with
  | S754_finite false m (Zneg e) => round_half_even (N.pos m * 1000000000) (2 ^ N.pos e)
  | S754_finite false m e => (N.pos m * 2 ^ Z.to_N e * 1000000000)%N
  | _ => 0%N
  end.

Section retry.
Context {HP : Platform} {X L : Type} {HO : Outside X} {HL : EventLog L}.
Context (sh : Shared X).
Notation K := (Kernel X L).

(** [backoff_delay], with the random number it draws if jitter is on. *)
Definition backoff (p : RetryPolicy) (attempt : N) (err : ProviderError) (random : spec_float) : N :=
  let exp := powi (rp_multiplier p) (as_i32 (N.pred attempt)) in
  let raw := f64_mul (as_secs_f64 (rp_base_delay p)) exp in
  let max := as_secs_f64 (rp_max_delay p) in
  let capped := if is_finite raw then
                  (if f64_lt raw (f64_of_Z 0) then f64_of_Z 0 else if f64_lt max raw then max else raw)
                else max in
  let delay := from_secs_f64 (if rp_jitter p then f64_mul random capped else capped) in
  match err with
  | RateLimited (Some ra) => N.max delay (N.min ra (rp_max_delay p))
  | _ => delay
  end.
Definition backoff_delay {E} (attempt : N) (err : ProviderError) : M K E N :=
  let p := sh_retry sh in
  random ← (if rp_jitter p then outside random_f64 else mret (f64_of_Z 0));
  mret (backoff p attempt err random).

(** ** One attempt *)

Inductive CallFailure : Type :=
  | CallCancelled
  | CallFailed (error : ProviderError) (attempts : N)
  | CallLog (e : LogError).

(** The stream is read up to its [Complete] item or its first error. *)
Fixpoint read_stream (items : list (result ProviderError ModelDelta)) : result ProviderError ModelResponse :=
  match items with
  | [] => Err (InvalidResponse "stream ended without a Complete item")
  | Ok (Complete r) :: _ => Ok r
  | Ok _ :: items => read_stream items
  | Err e :: _ => Err e
  end.
Definition one_attempt (req : ModelRequest) (x : X) : X * Call (result ProviderError ModelResponse) :=
  if sh_delta_sink sh then
    let '(x, c) := complete_stream (sh_provider sh) req x in
    (x, {| call_pending := call_pending c; call_end := (fun r => items ← r; read_stream items) <$> call_end c |})
  else complete (sh_provider sh) req x.

(** A biased [select!] of the token against something that stays pending for [n] polls: whether
    the token fired first. *)
Fixpoint poll_token {E} (t : Token) (n : nat) : M K E bool :=
  c ← is_cancelled t;
  if c : bool then mret true else match n with O => mret false | S n => poll_token t n end.

Definition set_trace (attempt : N) (request_id : string) (req : ModelRequest) : ModelRequest :=
  {| mq_model_id := mq_model_id req; mq_system := mq_system req; mq_messages := mq_messages req;
     mq_tools := mq_tools req; mq_params := mq_params req;
     mq_trace := {| rt_session_id := rt_session_id (mq_trace req); rt_turn := rt_turn (mq_trace req);
       rt_attempt := attempt; rt_checkpoint_hash := rt_checkpoint_hash (mq_trace req);
       rt_request_id := request_id |} |}.

(** The race of one attempt: [None] if the token fired. *)
Definition race_attempt (t : Token) (req : ModelRequest) :
    M K CallFailure (option (result ProviderError ModelResponse)) :=
  c ← is_cancelled t;
  if c : bool then mret None
  else
    call ← outside (one_attempt req);
    fired ← match call_pending call with O => mret false | S n => poll_token t n end;
    if fired : bool then mret None
    else mret (Some (default (Err (ProviderTimeout (rp_request_timeout (sh_retry sh)))) (call_end call))).

Definition retry_event (turn attempt : N) (error : ProviderError) (message : string) (delay : N) : EventBody :=
  EvProviderRetry {| prp_turn := turn; prp_attempt := attempt; prp_error_class := error_class error;
    prp_message := message; prp_delay_ms := N.min (delay / 1000000) U64_MAX |}.
Definition redact_message {E} (s : string) : M K E string :=
  interfere ;; gets (fun k => (redact_str (k_redactor k) s).1).

(** One round of the loop of [call_with_retry]; [again] is the next one. *)
Definition call_round (turn : N) (t : Token) (attempt : N) (req : ModelRequest)
    (again : ModelRequest -> M K CallFailure (ModelResponse * N)) : M K CallFailure (ModelResponse * N) :=
  id ← (if (1 <? attempt)%N then outside new_request_id else mret (rt_request_id (mq_trace req)));
  let req := set_trace attempt id req in
  res ← race_attempt t req;
  match res with
  | None => throw CallCancelled
  | Some (Ok resp) => mret (resp, attempt)
  | Some (Err error) =>
      c ← is_cancelled t;
      if c : bool then throw CallCancelled
      else if retryable error && (attempt <? rp_max_attempts (sh_retry sh))%N then
        delay ← backoff_delay attempt error;
        message ← redact_message (show_provider_error error);
        _ ← conv CallLog (log (retry_event turn attempt error message delay));
        n ← outside (sleep delay);
        fired ← poll_token t n;
        if fired : bool then throw CallCancelled else again req
      else throw (CallFailed error attempt)
  end.
(** [call_with_retry]; [spare] counts the attempts the policy allows after this one, so that the
    loop is never cut short by it. *)
Fixpoint call_loop (turn : N) (t : Token) (spare : nat) (attempt : N) (req : ModelRequest) :
    M K CallFailure (ModelResponse * N) :=
  call_round turn t attempt req (fun req =>
    match spare with
    | S spare => call_loop turn t spare (attempt + 1) req
    | O => throw CallCancelled
    end).
Definition call_with_retry (turn : N) (req : ModelRequest) (t : Token) : M K CallFailure (ModelResponse * N) :=
  call_loop turn t (N.to_nat (rp_max_attempts (sh_retry sh) - 1)) 1 req.
End retry.

(** * Facts *)

Section retry_facts.
Context {HP : Platform} {X L : Type} {HO : Outside X} {HL : EventLog L} {HC : Clock} {HLL : EventLogLaws L}.
Context (sh : Shared X).
Notation K := (Kernel X L).

Lemma poll_token_frame {E} t n : steps (frame (X := X)) (poll_token (E := E) t n).
Proof. induction n as [|n IH]; simpl; steps_tac. Qed.
Lemma poll_token_same_log {E} t n : steps (same_log (X := X) (L := L)) (poll_token (E := E) t n).
Proof. induction n as [|n IH]; simpl; steps_tac. Qed.
Lemma backoff_frame {E} a e : steps (frame (X := X)) (backoff_delay (E := E) sh a e).
Proof. unfold backoff_delay. steps_tac. Qed.
Lemma backoff_same_log {E} a e : steps (same_log (X := X) (L := L)) (backoff_delay (E := E) sh a e).
Proof. unfold backoff_delay. steps_tac. Qed.
Lemma redact_message_frame {E} m : steps (frame (X := X)) (redact_message (E := E) m).
Proof. unfold redact_message. steps_tac. Qed.
Lemma redact_message_same_log {E} m : steps (same_log (X := X) (L := L)) (redact_message (E := E) m).
Proof. unfold redact_message. steps_tac. Qed.
Lemma race_attempt_frame t req : steps (frame (X := X)) (race_attempt sh t req).
Proof. unfold race_attempt. steps_tac; apply poll_token_frame. Qed.
Lemma race_attempt_same_log t req : steps (same_log (X := X) (L := L)) (race_attempt sh t req).
Proof. unfold race_attempt. steps_tac; apply poll_token_same_log. Qed.
Lemma poll_token_total {E} t n : total (poll_token (X := X) (L := L) (E := E) t n).
Proof. induction n as [|n IH]; simpl; total_tac. Qed.
Lemma backoff_total {E} a e : total (backoff_delay (X := X) (L := L) (E := E) sh a e).
Proof. unfold backoff_delay. total_tac. Qed.
Lemma redact_message_total {E} m : total (redact_message (X := X) (L := L) (E := E) m).
Proof. unfold redact_message. total_tac. Qed.
Lemma race_attempt_total t req : total (race_attempt (L := L) sh t req).
Proof. unfold race_attempt. total_tac; apply poll_token_total. Qed.
Lemma poll_token_inbox_grows {E} t n : steps (inbox_grows (X := X) (L := L)) (poll_token (E := E) t n).
Proof. induction n as [|n IH]; simpl; steps_tac. Qed.
Lemma call_loop_inbox_grows turn t spare a req : steps (inbox_grows (X := X) (L := L)) (call_loop sh turn t spare a req).
Proof.
  revert a req. pose proof @poll_token_inbox_grows.
  induction spare as [|spare IH]; intros a req; cbn [call_loop];
    unfold call_round, race_attempt, backoff_delay, redact_message; steps_tac.
Qed.
Lemma redact_message_inbox_grows {E} m : steps (inbox_grows (X := X) (L := L)) (redact_message (E := E) m).
Proof. unfold redact_message. steps_tac. Qed.
Lemma call_with_retry_inbox_grows turn req t : steps (inbox_grows (X := X) (L := L)) (call_with_retry sh turn req t).
Proof. apply call_loop_inbox_grows. Qed.
End retry_facts.
#[export] Hint Resolve call_with_retry_inbox_grows redact_message_inbox_grows : steps.
#[export] Hint Resolve poll_token_frame poll_token_same_log backoff_frame backoff_same_log redact_message_frame
  redact_message_same_log race_attempt_frame race_attempt_same_log : steps.
#[export] Hint Resolve poll_token_total backoff_total redact_message_total race_attempt_total : total.

Section retry_claims.
Context {HP : Platform} {X L : Type} {HO : Outside X} {HL : EventLog L} {HC : Clock} {HLL : EventLogLaws L}.
Context (sh : Shared X).
Notation K := (Kernel X L).
Notation max := (rp_max_attempts (sh_retry sh)).

(** How many [provider_retry] events some lines hold. *)
Definition retries (lines : list Line) : nat :=
  length (List.filter (fun k => bool_decide (k = "provider_retry")) (kinds lines)).

Lemma calm_run {E A} (m : M K E A) k k' r :
  steps frame m -> steps same_log m -> m k = (k', r) -> frame k k' /\ k_log k' = k_log k.
Proof. intros Hf Hl Hm. specialize (Hf k). specialize (Hl k). by rewrite Hm in Hf, Hl. Qed.

Lemma stage_retries sid n rd turn attempt e m d s :
  stage sid n rd (retry_event turn attempt e m d) = Ok s -> retries (stg_lines s) = 1.
Proof. unfold retries. by intros [->| ->]%stage_kinds. Qed.
Lemma log_retry turn attempt e m d (k k' : K) r :
  conv CallLog (log (retry_event turn attempt e m d)) k = (k', r) ->
  frame k k' /\ exists new, log_lines (k_log k') = log_lines (k_log k) ++ new /\
    match r with Ok _ => retries new = 1 | Err x => new = [] /\ exists y, x = CallLog y end.
Proof.
  intros Hr. assert (Hf : frame k k').
  { assert (Hs : steps frame (conv CallLog (log (retry_event turn attempt e m d)) : M K CallFailure Event)) by steps_tac.
    specialize (Hs k). by rewrite Hr in Hs. }
  split; [done|]. unfold conv, log in Hr. destruct (log_append _ (k_log k)) as [l [ev|x]] eqn:Ha; injection Hr as <- <-.
  - destruct (append_ok _ _ _ _ Ha) as (s & Hs & _ & Hl & _). exists (stg_lines s). split; [done|].
    by eapply stage_retries.
  - destruct (append_err _ _ _ _ Ha) as [Hl _]. exists []. rewrite app_nil_r. split; [done|]. eauto.
Qed.

(** What a run of the loop from attempt [a] leaves behind: [n] is the last attempt made. *)
Definition call_result (a : N) (k k' : K) (r : result CallFailure (ModelResponse * N)) : Prop :=
  frame k k' /\ exists n new, (a <= n <= N.max a max)%N /\ log_lines (k_log k') = log_lines (k_log k) ++ new /\
    match r with
    | Ok (_, m) => m = n /\ N.of_nat (retries new) = (n - a)%N
    | Err (CallFailed e m) =>
        m = n /\ N.of_nat (retries new) = (n - a)%N /\ (retryable e = false \/ (max <= n)%N)
    | Err _ => (n - a <= N.of_nat (retries new) <= n - a + 1)%N
    end.

(** Nothing logged yet. *)
Lemma call_result_calm a k k0 k' r :
  frame k k0 /\ k_log k0 = k_log k -> call_result a k0 k' r -> call_result a k k' r.
Proof. intros [Hf Hl] [Hf' Hr]. split; [by etrans|]. by rewrite Hl in Hr. Qed.
Lemma call_result_stop a k r :
  match r with
  | Ok (_, m) => m = a
  | Err (CallFailed e m) => m = a /\ (retryable e = false \/ (max <= a)%N)
  | Err _ => True
  end -> call_result a k k r.
Proof.
  intros Hr. split; [reflexivity|]. exists a, []. rewrite app_nil_r. split; [lia|]. split; [done|].
  unfold retries. simpl. destruct r as [[? ?]|[]]; split_and?; naive_solver lia.
Qed.
Lemma call_result_logged a k k0 k' r new0 :
  frame k k0 -> log_lines (k_log k0) = log_lines (k_log k) ++ new0 -> retries new0 = 1 ->
  (a + 1 <= max)%N -> call_result (a + 1) k0 k' r -> call_result a k k' r.
Proof.
  intros Hf Hl Hn0 Ha [Hf' (n & new & Hn & Hl' & Hr)]. split; [by etrans|]. exists n, (new0 ++ new).
  rewrite Hl', Hl, app_assoc. split; [lia|]. split; [done|].
  assert (Hc : retries (new0 ++ new) = S (retries new)).
  { unfold retries in *. unfold kinds in *. by rewrite fmap_app, List.filter_app, length_app, Hn0. }
  rewrite Hc. destruct r as [[? m]|[|e m|]]; lia || (destruct Hr as (-> & Hr & ?); split_and!; [done|lia|done]).
Qed.

Lemma draw_id_calm a req :
  let m : M K CallFailure string :=
    if (1 <? a)%N then outside new_request_id else mret (rt_request_id (mq_trace req)) in
  steps frame m /\ steps same_log m.
Proof. simpl. destruct (1 <? a)%N; split; steps_tac. Qed.

(** A silent prefix of the loop. *)
Lemma call_result_bind {A} (a : N) (m : M K CallFailure A) (f : A -> M K CallFailure (ModelResponse * N)) k k' r :
  steps frame m -> steps same_log m -> total m ->
  (forall x k1 k2 r, f x k1 = (k2, r) -> call_result a k1 k2 r) ->
  (m ≫= f) k = (k', r) -> call_result a k k' r.
Proof.
  intros Hf Hl Ht Hk Hr. apply bind_inv in Hr as [(e & Hm & ->)|(x & k1 & Hm & Hr)].
  - by apply total_no_err in Hm.
  - eapply call_result_calm; [by eapply calm_run; [| |exact Hm]|]. by eapply Hk.
Qed.

Lemma call_round_spec turn t a req again k k' r :
  (forall req k1 k2 r, (a + 1 <= max)%N -> again req k1 = (k2, r) -> call_result (a + 1) k1 k2 r) ->
  call_round sh turn t a req again k = (k', r) -> call_result a k k' r.
Proof.
  intros Hagain. unfold call_round. destruct (draw_id_calm a req) as [Hid1 Hid2].
  apply call_result_bind; [done|done|total_tac|]. intros id k1 k2 r2. cbv zeta.
  apply call_result_bind; [steps_tac..|total_tac|]. intros [[resp|error]|] k3 k4 r4;
    [by intros [= <- <-]; apply call_result_stop| |by intros [= <- <-]; apply call_result_stop].
  apply call_result_bind; [steps_tac..|total_tac|]. intros [|] k5 k6 r6;
    [by intros [= <- <-]; apply call_result_stop|].
  destruct (retryable error && (a <? max)%N) eqn:Hretry.
  - apply andb_true_iff in Hretry as [_ Hlt%N.ltb_lt].
    apply call_result_bind; [steps_tac..|total_tac|]. intros delay k7 k8 r8.
    apply call_result_bind; [steps_tac..|total_tac|]. intros message k9 k10 r10 Hr.
    apply bind_inv in Hr as [(e & Hlog & ->)|(ev & k11 & Hlog & Hr)];
      apply log_retry in Hlog as (Hf & new & Hl & Hnew).
    + destruct Hnew as (-> & y & ->). split; [done|]. exists a, []. unfold retries. simpl. split_and!; [lia..|done|lia|lia].
    + apply bind_inv in Hr as [(e & Hm & _)|(n & k12 & Hm & Hr)]; [by apply total_no_err in Hm; [|total_tac]|].
      apply calm_run in Hm as [Hf12 Hl12]; [|steps_tac..].
      apply bind_inv in Hr as [(e & Hm & _)|(fired & k13 & Hm & Hr)]; [by apply total_no_err in Hm; [|total_tac]|].
      apply calm_run in Hm as [Hf13 Hl13]; [|steps_tac..].
      assert (Hf' : frame k9 k13) by by do 2 (etrans; [|done]).
      assert (Hl' : log_lines (k_log k13) = log_lines (k_log k9) ++ new) by by rewrite Hl13, Hl12.
      destruct fired.
      * injection Hr as <- <-. split; [done|]. exists a, new. split_and!; [lia..|done|lia|lia].
      * eapply call_result_logged; [done|done|done|lia|]. eapply Hagain; [lia|done].
  - intros [= <- <-]. apply call_result_stop. split; [done|].
    apply andb_false_iff in Hretry as [?|?%N.ltb_ge]; [by left|by right].
Qed.
Lemma call_loop_spec turn t spare a req k k' r :
  (1 <= a)%N -> N.of_nat spare = (max - a)%N -> call_loop sh turn t spare a req k = (k', r) -> call_result a k k' r.
Proof.
  revert a req k k' r. induction spare as [|spare IH]; intros a req k k' r Ha Hs; cbn [call_loop];
    apply call_round_spec; intros req' k1 k2 r2 Hlt; [lia|]. apply IH; lia.
Qed.

Lemma call_with_retry_frame turn req t : steps (frame (X := X)) (call_with_retry (L := L) sh turn req t).
Proof.
  intros k. destruct (call_with_retry sh turn req t k) as [k' r] eqn:Hr. apply call_loop_spec in Hr; [apply Hr|lia..].
Qed.

(** C38: a provider call makes at least one attempt and at most as many as the
    policy allows, reports the number it made, and logs one [provider_retry] for each attempt it
    gives up on but the last; it fails only with an error that is not retryable or with the
    attempts used up, unless cancelled or unable to log, and leaves the session untouched. *)
Theorem retries_are_bounded turn req t (k k' : K) r :
  call_with_retry sh turn req t k = (k', r) ->
  frame k k' /\ exists n new, (1 <= n <= N.max 1 max)%N /\ log_lines (k_log k') = log_lines (k_log k) ++ new /\
    match r with
    | Ok (_, m) => m = n /\ N.of_nat (retries new) = (n - 1)%N
    | Err (CallFailed e m) =>
        m = n /\ N.of_nat (retries new) = (n - 1)%N /\ (retryable e = false \/ (max <= n)%N)
    | Err _ => (n - 1 <= N.of_nat (retries new) <= n - 1 + 1)%N
    end.
Proof. intros Hr. eapply call_loop_spec; [| |exact Hr]; lia. Qed.
End retry_claims.
#[export] Hint Resolve call_with_retry_frame : steps.

(** ** Witness *)

#[local] Existing Instance toy_platform.
#[local] Existing Instance wit_clock.

Definition wit_request : ModelRequest :=
  {| mq_model_id := "m"; mq_system := []; mq_messages := []; mq_tools := []; mq_params := wit_params;
     mq_trace := {| rt_session_id := "s1"; rt_turn := 3; rt_attempt := 1; rt_checkpoint_hash := "h"; rt_request_id := "0190" |} |}.
Definition wit_retrying : Shared script := wit_shared_with 3 (Err (RateLimited None)) [].
Lemma retries_are_bounded_witness :
  exists (k' : Kernel script MemoryEventLog) (new : list Line),
    call_with_retry wit_retrying 3 wit_request SessionToken (wit_kernel_at wit_running []) =
      (k', Err (CallFailed (RateLimited None) 3)) /\
    log_lines (k_log k') = log_lines (k_log (wit_kernel_at wit_running [])) ++ new /\ retries new = 2.
Proof.
  assert (Hr : (call_with_retry wit_retrying 3 wit_request SessionToken (wit_kernel_at wit_running [])).2
    = Err (CallFailed (RateLimited None) 3)) by (lazy; reflexivity).
  apply pair_of in Hr. revert Hr. generalize (call_with_retry wit_retrying 3 wit_request SessionToken (wit_kernel_at wit_running [])).1.
  intros k' Hr. exists k'.
  destruct (retries_are_bounded _ _ _ _ _ _ _ Hr) as (_ & n & new & _ & Hn & <- & Hk & _).
  exists new. split_and!; [exact Hr|exact Hn|]. by rewrite <- (Nat2N.id (retries new)), Hk.
Defined.
