(* ===== verification/Turn.v ===== *)
(** [loop_/turn.rs]: one turn of the loop, step by step, with its cancellation and failure exits. *)

From Stdlib Require Import Floats.SpecFloat.
From S2P Require Import Prelude Ord Str Capability Sandbox Json Strict Codec Data Event State Redact Spill Log Outside Registry Kernel Tasks Retry.

Open Scope string_scope.
Open Scope list_scope.

Definition ASK_USER_TOOL_NAME : string := "ask_user".
Definition ask_user_question_id (turn : N) (tool_use_id : string) : string :=
  "q" +:+ show_u64 turn +:+ "-" +:+ tool_use_id.

(** How a turn body exits other than normally. *)
Inductive Abort : Type :=
  | Fail (class : string) (attempts : N) (message : string) (middleware hook : option string)
  | AbortCancelled (phase : LoopPhase) (in_flight : option string) (unanswered : list ToolCall)
  | Fatal (e : KernelError).

Definition fail (class message : string) : Abort := Fail class 1 message None None.
Definition abort_of_log (e : LogError) : Abort := fail "log" (show_log_error e).
Definition abort_of_hash (e : HashError) : Abort := fail "internal" (show_hash_error e).
Definition abort_of_middleware (e : MiddlewareError) : Abort :=
  Fail "middleware" 1 (show_middleware_error e) (Some (mwe_name e)) (Some (mwe_hook e)).
Definition abort_of_kernel (e : KernelError) : Abort :=
  match e with
  | KernelLog l => abort_of_log l
  | KernelHash h => abort_of_hash h
  | KernelInternal m => fail "internal" m
  | other => Fatal other
  end.
(** [abort_to_kernel]. *)
Definition abort_to_kernel (a : Abort) : KernelError :=
  match a with
  | Fatal e => e
  | Fail _ _ message _ _ => KernelInternal message
  | AbortCancelled _ _ _ => KernelInternal "cancelled"
  end.

(** * Tool outputs *)

Definition json_output (v : json) (is_error : bool) (origin : ToolOutputOrigin) : ToolOutput :=
  {| out_content := Json v; out_is_error := is_error; out_artifact_handles := []; out_spilled := false;
     out_task := None; out_origin := origin; out_in_process_waker := false |}.
Definition error_output (msg : string) (origin : ToolOutputOrigin) : ToolOutput :=
  json_output (jobj [("error", JStr msg)]) true origin.
Definition cancelled_output : ToolOutput := json_output cancelled_json true OCancelled.
Definition unregistered_output : ToolOutput := json_output (jobj [("error", JStr "unknown tool")]) true OUnregistered.
Definition with_waker (b : bool) (o : ToolOutput) : ToolOutput :=
  {| out_content := out_content o; out_is_error := out_is_error o; out_artifact_handles := out_artifact_handles o;
     out_spilled := out_spilled o; out_task := out_task o; out_origin := out_origin o; out_in_process_waker := b |}.

(** [<TaskStatus as Debug>]. *)
Definition show_task_status (s : TaskStatus) : string :=
  match s with
  | TPending => "Pending" | TRunning => "Running" | TSucceeded => "Succeeded" | TFailed => "Failed"
  | TCancelled => "Cancelled"
  end.

Section outputs.
Context {HP : Platform} {HJ : JsonText}.

(** [result_hash], over [HashedResult]. *)
Definition result_hash (o : ToolOutput) : result HashError string :=
  of_canonical_json (jobj [("content", enc ToolResultContent_codec (out_content o));
                           ("is_error", JBool (out_is_error o))]).

Definition image_handles (blocks : list ContentBlock) : list string :=
  omap (fun b => match b with Image h _ => Some h | _ => None end) blocks.

(** E6: the output for what a tool returned. *)
Definition normalize (task_id : TaskId) (origin : ToolOutputOrigin) (r : ToolResult) : ToolOutput :=
  match r with
  | RReplayed o => o
  | RValue v =>
      match of_canonical_json v with
      | Ok _ => json_output v false origin
      | Err e => error_output (show_tool_error (InvalidInput
                   ("result is not canonicalizable: " +:+ show_hash_error e))) origin
      end
  | RBlocks blocks =>
      let content := Blocks blocks in
      if trc_is_valid content && is_ok (of_canonical_json (enc ToolResultContent_codec content)) then
        {| out_content := content; out_is_error := false; out_artifact_handles := image_handles blocks;
           out_spilled := false; out_task := None; out_origin := origin; out_in_process_waker := false |}
      else error_output (show_tool_error (InvalidInput "tool result blocks must be Text or Image")) origin
  | RTask h =>
      if is_terminal (th_status h) then
        error_output (show_tool_error (InvalidTaskHandle
          ("status " +:+ show_task_status (th_status h) +:+ " is terminal"))) origin
      else if negb (bool_decide (th_id h = task_id)) then
        error_output (show_tool_error (InvalidTaskHandle
          ("id " +:+ th_id h +:+ " does not match " +:+ task_id))) origin
      else
        {| out_content := Json (jobj [("task_id", JStr (th_id h)); ("status", enc TaskStatus_codec (th_status h));
             ("eta_secs", match th_eta h with Some d => JNum (PosInt (as_secs d)) | None => JNull end);
             ("description", match th_description h with Some d => JStr d | None => JNull end)]);
           out_is_error := false; out_artifact_handles := []; out_spilled := false; out_task := Some h;
           out_origin := origin; out_in_process_waker := false |}
  end.

(** [replay/mod.rs: recorded_spill_ref]. *)
Definition recorded_spill_ref (o : ToolOutput) : option SpillRef :=
  if negb (out_spilled o) then None
  else
    let stored := match out_content o with
                  | Json v => dec Spilled_codec v
                  | Blocks blocks => head (omap (fun b => match b with
                      | Text text => (ok (from_str_json text) ≫= dec Spilled_codec : option Spilled)
                      | _ => None
                      end) blocks)
                  end in
    (fun sp => {| sref_handle := sp_handle sp; sref_size := sp_size sp; sref_mime := sp_mime sp |}) <$> stored.
End outputs.

(** * The turn *)

Section turn.
Context {HP : Platform} {HJ : JsonText} {X L : Type} {HO : Outside X} {HL : EventLog L} {HA : ArtifactStore X}.
Context (sh : Shared X).
Notation K := (Kernel X L).

Definition alog (body : EventBody) : M K Abort unit := conv abort_of_log (_ ← log body; mret tt).
Definition ahash (r : result HashError string) : M K Abort string := lift (map_err abort_of_hash r).

(** A cancellation point with no tool call outstanding. *)
Definition check_cancel (t : Token) (phase : LoopPhase) : M K Abort unit :=
  c ← is_cancelled t; if c : bool then throw (AbortCancelled phase None []) else mret tt.

(** A hook and the events it emitted. *)
Definition hook {A R} (turn : N) (f : HookContext -> State -> X -> HookRun X (State * A) R) : M K Abort (A * R) :=
  r ← conv abort_of_middleware (run_hook sh turn f);
  conv abort_of_log flush_emits ;;
  mret r.
(** One hook of every entry of the chain, with a cancellation point before each. *)
Fixpoint hooks {A} (t : Token) (phase : LoopPhase) (turn : N)
    (f : Middleware X -> A -> HookContext -> State -> X -> HookRun X (State * A) unit)
    (chain : list (MiddlewareEntry X)) (a : A) : M K Abort A :=
  match chain with
  | [] => mret a
  | e :: chain =>
      check_cancel t phase ;;
      r ← hook turn (f (mw_middleware e) a);
      hooks t phase turn f chain r.1
  end.

(** [Kernel::run_compaction]. *)
Definition on_compact_run (m : Middleware X) (_ : unit) (cx : HookContext) (s : State) (x : X) :
    HookRun X (State * unit) unit :=
  let r := on_compact m cx s x in
  {| hr_outside := hr_outside r; hr_args := (hr_args r, tt); hr_effects := hr_effects r; hr_result := hr_result r |}.
Definition run_compaction (strategy : string) (t : Token) (turn : N) : M K Abort unit :=
  s ← gets k_state;
  before ← ahash (state_hash s);
  _ ← hooks t PhBeforeModel turn on_compact_run (sh_chain sh) tt;
  s' ← gets k_state;
  after ← ahash (state_hash s');
  alog (EvCompaction {| comp_turn := turn; comp_strategy := strategy; comp_before_state_hash := before;
    comp_after_state_hash := after; comp_notebook_hash := None;
    comp_messages_before := N.of_nat (length (st_messages s)) mod 2 ^ 32;
    comp_messages_after := N.of_nat (length (st_messages s')) mod 2 ^ 32;
    comp_tokens_before := None; comp_summary_artifact := None |}) ;;
  conv Fatal (checkpoint CrCompaction).

(** A and B: the request, the [before_model] hooks and the compaction they may have asked for. *)
Definition build_request (s : State) (checkpoint_hash request_id : string) : ModelRequest :=
  {| mq_model_id := sh_model_id sh; mq_system := sh_system_prompt sh; mq_messages := st_messages s;
     mq_tools := reg_definitions (sh_registry sh); mq_params := sh_model_params sh;
     mq_trace := {| rt_session_id := sh_session_id sh; rt_turn := st_turn s; rt_attempt := 1;
       rt_checkpoint_hash := checkpoint_hash; rt_request_id := request_id |} |}.
Definition after_compaction (k : K) (req : ModelRequest) : ModelRequest :=
  let tr := mq_trace req in
  {| mq_model_id := mq_model_id req; mq_system := mq_system req; mq_messages := st_messages (k_state k);
     mq_tools := mq_tools req; mq_params := mq_params req;
     mq_trace := {| rt_session_id := rt_session_id tr; rt_turn := rt_turn tr; rt_attempt := rt_attempt tr;
       rt_checkpoint_hash := k_checkpoint_hash k; rt_request_id := rt_request_id tr |} |}.
Definition prepare_request (t : Token) (turn : N) : M K Abort ModelRequest :=
  id ← outside new_request_id;
  req ← gets (fun k => build_request (k_state k) (k_checkpoint_hash k) id);
  modify (on_emitter (allow_compaction true)) ;;
  req ← hooks t PhBeforeModel turn (fun m req cx s x => before_model m cx s req x) (sh_chain sh) req;
  modify (on_emitter (allow_compaction false)) ;;
  strategy ← take_compaction;
  match strategy with
  | Some strategy => run_compaction strategy t turn ;; gets (fun k => after_compaction k req)
  | None => mret req
  end.

(** The check that the request names registered tools only. *)
Definition check_tools (req : ModelRequest) : M K Abort unit :=
  match List.filter (fun d => match reg_get (sh_registry sh) (td_name d) with None => true | Some _ => false end)
          (mq_tools req) with
  | [] => mret tt
  | d :: _ => throw (Fail "middleware" 1 ("request names unregistered tool `" +:+ td_name d +:+ "`") None
                       (Some "before_model"))
  end.
Definition log_request (turn : N) (req : ModelRequest) : M K Abort string :=
  request_hash ← ahash (model_request_hash req);
  system_hash ← ahash (of_canonical_json (enc (clist PromptBlock_codec) (mq_system req)));
  params_hash ← ahash (of_canonical_json (enc ModelParams_codec (mq_params req)));
  ck ← gets k_checkpoint_hash;
  alog (EvModelRequest {| mreq_turn := turn; mreq_request_hash := request_hash; mreq_checkpoint_hash := ck;
    mreq_model_id := mq_model_id req; mreq_profiles := sh_profiles sh; mreq_system_prompt_hash := system_hash;
    mreq_prompt_blocks := (fun b => {| pbr_kind := pb_kind b; pbr_name := pb_name b; pbr_hash := pb_hash b |}) <$> mq_system req;
    mreq_message_count := N.of_nat (length (mq_messages req)) mod 2 ^ 32;
    mreq_tool_names := td_name <$> mq_tools req; mreq_params_hash := params_hash |}) ;;
  mret request_hash.

(** C: the model call, its content redacted. *)
Definition with_content (c : list ContentBlock) (r : ModelResponse) : ModelResponse :=
  {| mr_content := c; mr_stop_reason := mr_stop_reason r; mr_usage := mr_usage r; mr_model_id := mr_model_id r;
     mr_raw_response_hash := mr_raw_response_hash r; mr_response_id := mr_response_id r |}.
Definition call_model (t : Token) (turn : N) (req : ModelRequest) : M K Abort (ModelResponse * N) :=
  r ← try (call_with_retry sh turn req t);
  match r with
  | Ok (resp, attempts) =>
      content ← conv (fail "internal") (redact (clist ContentBlock_codec) (mr_content resp));
      mret (with_content content resp, attempts)
  | Err CallCancelled => throw (AbortCancelled PhModelCall None [])
  | Err (CallFailed error attempts) =>
      message ← redact_message (show_provider_error error);
      throw (Fail (error_class error) attempts message None None)
  | Err (CallLog e) => throw (abort_of_log e)
  end.

(** D: the [after_model] hooks; the response is logged and becomes the assistant's message. *)
Definition accept_response (t : Token) (turn : N) (request_hash : string) (resp : ModelResponse) (attempts : N) :
    M K Abort (list ToolCall) :=
  check_cancel t PhAfterModel ;;
  resp ← hooks t PhAfterModel turn (fun m resp cx s x => after_model m cx s resp x) (sh_chain sh) resp;
  response_hash ← ahash (response_hash resp);
  alog (EvModelResponse {| mresp_turn := turn; mresp_request_hash := request_hash;
    mresp_response_hash := response_hash; mresp_raw_response_hash := mr_raw_response_hash resp;
    mresp_model_id := mr_model_id resp; mresp_stop_reason := mr_stop_reason resp; mresp_usage := mr_usage resp;
    mresp_content := mr_content resp; mresp_attempts := attempts |}) ;;
  modify (on_state (push_message {| msg_role := RoleAssistant; msg_content := mr_content resp |})) ;;
  mret (tool_calls resp).

(** ** E: tool calls *)

(** [Kernel::append_tool_output]. *)
Definition tool_message (id : string) (o : ToolOutput) : Message :=
  {| msg_role := RoleTool; msg_content := [ToolResultBlock id (out_content o) (out_is_error o)] |}.
Definition started_task (turn : N) (call : ToolCall) (h : TaskHandle) (in_process_waker : bool) : Task :=
  {| tk_id := th_id h; tk_tool_use_id := tc_tool_use_id call; tk_tool_name := tc_name call; tk_status := th_status h;
     tk_started_turn := turn; tk_completed_turn := None; tk_eta := th_eta h; tk_check_hint := th_check_hint h;
     tk_description := th_description h; tk_outcome := None; tk_in_process_waker := in_process_waker |}.
Definition append_tool_output (turn : N) (call : ToolCall) (out : ToolOutput) (duration_ms : N)
    (spill : option SpillRef) : M K Abort unit :=
  h ← ahash (result_hash out);
  alog (EvToolResult {| tres_turn := turn; tres_tool_use_id := tc_tool_use_id call; tres_name := tc_name call;
    tres_result_hash := h; tres_is_error := out_is_error out; tres_content := out_content out;
    tres_artifact_handles := out_artifact_handles out; tres_spilled := out_spilled out; tres_spill := spill;
    tres_duration_ms := duration_ms; tres_origin := out_origin out;
    tres_task := (fun h => {| tref_task_id := th_id h; tref_status := th_status h |}) <$> out_task out |}) ;;
  modify (on_state (push_message (tool_message (tc_tool_use_id call) out))) ;;
  match out_task out with
  | None => mret tt
  | Some h =>
      w ← was_watched (th_id h);
      modify (on_state (put_task (th_id h) (started_task turn call h w))) ;;
      alog (EvTaskStarted {| tstart_turn := turn; tstart_task_id := th_id h;
        tstart_tool_use_id := tc_tool_use_id call; tstart_tool_name := tc_name call; tstart_status := th_status h;
        tstart_eta_secs := as_secs <$> th_eta h; tstart_description := th_description h;
        tstart_check_hint := th_check_hint h; tstart_in_process_waker := w |})
  end.

(** [Kernel::ensure_session_process]: launched when first needed, relaunched if it died. *)
Definition ensure_session_process (tool : Tool X) (policy : SandboxPolicy) : M K ToolError unit :=
  let name := tool_name tool in
  found ← gets (fun k => omap_get name (k_session_procs k));
  alive ← gets (fun k => match found with Some p => is_alive p (k_ext k) | None => false end);
  if alive : bool then mret tt
  else
    modify (fun k => match found with
                     | Some p => set_ext (terminate p (k_ext k)) (set_session_procs (omap_remove name (k_session_procs k)) k)
                     | None => k
                     end) ;;
    cmd ← lift (ok_or (ToolFailed "session tool has no session_command") (tool_session_command tool));
    launched ← outside (launch_session (sh_sandbox sh) policy cmd);
    p ← lift (map_err (fun e => ToolFailed ("session process launch failed: " +:+ e)) launched);
    alive ← gets (fun k => is_alive p (k_ext k));
    if alive : bool then modify (fun k => set_session_procs (omap_insert name p (k_session_procs k)) k)
    else
      modify (fun k => set_ext (terminate p (k_ext k)) k) ;;
      throw (ToolFailed "session process exited immediately after relaunch").

Inductive Invoked : Type :=
  | InvokedDone (r : result ToolError ToolResult)
  | InvokedTimeout (d : N)
  | InvokedCancelled.

Definition watch_all {E} (ids : list TaskId) : M K E unit :=
  modify (fun k => set_registrar (foldl (fun r id => watch id r) (k_registrar k) ids) k).
(** The biased race of the token against the invocation under its timeout. *)
Fixpoint poll_tool (t : Token) (timeout : N) (pending : list (list TaskId)) (last : list TaskId)
    (end_ : option (result ToolError ToolResult)) : M K Abort Invoked :=
  c ← is_cancelled t;
  if c : bool then mret InvokedCancelled
  else match pending with
       | [] => watch_all last ;; mret match end_ with Some r => InvokedDone r | None => InvokedTimeout timeout end
       | ids :: pending => watch_all ids ;; poll_tool t timeout pending last end_
       end.
(** [Kernel::invoke_tool]: the invocation itself starts only if the token has not fired. *)
Definition invoke_tool (e : RegistryEntry X) (t : Token) (turn : N) (call : ToolCall) : M K Abort Invoked :=
  ready ← try (if decide (re_kind e = Session) then ensure_session_process (re_tool e) (re_policy e) else mret tt);
  match ready with
  | Err err => mret (InvokedDone (Err err))
  | Ok _ =>
      session ← gets (fun k => omap_get (tc_name call) (k_session_procs k));
      c ← is_cancelled t;
      if c : bool then mret InvokedCancelled
      else
        inv ← outside (tool_invoke (re_tool e)
          {| tcx_session_id := sh_session_id sh; tcx_turn := turn; tcx_tool_use_id := tc_tool_use_id call;
             tcx_policy := re_policy e; tcx_session := session |} (tc_input call));
        match inv_pending inv with
        | [] => watch_all (inv_last inv) ;;
                mret match inv_end inv with Some r => InvokedDone r | None => InvokedTimeout (timeout (re_policy e)) end
        | ids :: pending => watch_all ids ;; poll_tool t (timeout (re_policy e)) pending (inv_last inv) (inv_end inv)
        end
  end.

(** How a call that the turn's token interrupts aborts the turn; [calls] starts with that call. *)
Definition cancelled_at (phase : LoopPhase) (in_flight : bool) (calls : list ToolCall) : Abort :=
  AbortCancelled phase (if in_flight then tc_tool_use_id <$> head calls else None) calls.
Definition check_call (phase : LoopPhase) (in_flight : bool) (calls : list ToolCall) : M K Abort unit :=
  c ← is_cancelled TurnToken; if c : bool then throw (cancelled_at phase in_flight calls) else mret tt.

(** E2: a name the registry does not know. *)
Definition tool_call_event (turn : N) (call : ToolCall) (args request ck : string) (e : option (RegistryEntry X)) : EventBody :=
  EvToolCall {| tcall_turn := turn; tcall_tool_use_id := tc_tool_use_id call; tcall_name := tc_name call;
    tcall_args_hash := args; tcall_request_hash := request; tcall_checkpoint_hash := ck; tcall_input := tc_input call;
    tcall_registered := match e with Some _ => true | None => false end; tcall_kind := re_kind <$> e;
    tcall_capabilities := match e with Some e => re_capabilities e | None => [] end;
    tcall_policy_hash := re_policy_hash <$> e |}.
Definition log_tool_call (turn : N) (call : ToolCall) (e : option (RegistryEntry X)) : M K Abort unit :=
  args ← ahash (args_hash call);
  request ← ahash (tool_request_hash call);
  ck ← gets k_checkpoint_hash;
  alog (tool_call_event turn call args request ck e).
Definition unregistered_tool (turn : N) (call : ToolCall) : M K Abort unit :=
  log_tool_call turn call None ;;
  alog (EvWarning (warning_kernel turn "unregistered_tool"
    ("model called unregistered tool `" +:+ tc_name call +:+ "`")
    (Some (jobj [("tool_use_id", JStr (tc_tool_use_id call)); ("name", JStr (tc_name call))])))) ;;
  append_tool_output turn call unregistered_output 0 None.

(** E3: the [before_tool] hooks; the first replacement ends them. *)
Fixpoint before_tool_hooks (turn : N) (calls : list ToolCall) (chain : list (MiddlewareEntry X)) (call : ToolCall) :
    M K Abort (ToolCall * ToolFlow) :=
  match chain with
  | [] => mret (call, FlowContinue)
  | e :: chain =>
      check_call PhBeforeTool false calls ;;
      r ← hook turn (fun cx s x => before_tool (mw_middleware e) cx s call x);
      match r.2 with
      | Replace _ => mret r
      | FlowContinue => before_tool_hooks turn calls chain r.1
      end
  end.

(** E4: the question behind a call of the reserved tool, and its answer. *)
Definition str_field (k : string) (v : json) : option string := o ← jget k v; as_str o.
Definition bool_field (k : string) (v : json) : option bool := o ← jget k v; as_bool o.
Definition strings_field (k : string) (v : json) : option (list string) :=
  o ← jget k v; a ← as_array o; Some (List.flat_map (fun x => match as_str x with Some s => [s] | None => [] end) a).
Definition ask_user_event (turn : N) (call : ToolCall) : EventBody :=
  let q := tc_input call in
  EvAskUser {| aup_turn := turn; aup_tool_use_id := tc_tool_use_id call;
    aup_question_id := ask_user_question_id turn (tc_tool_use_id call);
    aup_question := default "" (str_field "question" q);
    aup_options := default [] (strings_field "options" q);
    aup_allow_free_text := default false (bool_field "allow_free_text" q) |}.
Definition user_answer_event (turn : N) (call : ToolCall) (o : ToolOutput) : EventBody :=
  let '(answer, declined) :=
    match out_content o with
    | Json v => if negb (out_is_error o) then (str_field "answer" v, default false (bool_field "declined" v))
                else (None, true)
    | Blocks _ => (None, true)
    end in
  EvUserAnswer {| uap_turn := turn; uap_tool_use_id := tc_tool_use_id call;
    uap_question_id := ask_user_question_id turn (tc_tool_use_id call);
    uap_answer := answer; uap_declined := declined || match answer with None => true | Some _ => false end |}.

(** E5: the invocation under a token of its own; [None] stands for a cancelled tool whose turn
    goes on. *)
Definition set_tools (f : list (string * bool) -> list (string * bool)) (k : K) : K :=
  let c := k_cancel k in
  set_cancel {| cs_session := cs_session c; cs_turn := cs_turn c; cs_tools := f (cs_tools c) |} k.
Definition call_tool (e : RegistryEntry X) (turn : N) (call : ToolCall) (task_id : TaskId) (calls : list ToolCall) :
    M K Abort (result ToolError ToolResult * ToolOutputOrigin) :=
  let id := tc_tool_use_id call in
  modify (set_tools (omap_insert id false)) ;;
  invoked ← invoke_tool e (ToolToken id) turn call;
  modify (set_tools (omap_remove id)) ;;
  match invoked with
  | InvokedDone r => mret (r, OInvoke)
  | InvokedTimeout d => mret (Err (ToolTimeout d), OTimeout)
  | InvokedCancelled =>
      abort task_id ;;
      check_call PhTool true calls ;;
      mret (Err ToolCancelled, OCancelled)
  end.

(** E6: the output, and whether it is a recorded one. *)
Definition output_of (task_id : TaskId) (calls : list ToolCall) (origin : ToolOutputOrigin)
    (r : result ToolError ToolResult) : M K Abort ToolOutput :=
  match r with
  | Ok v => mret (normalize task_id origin v)
  | Err ToolCancelled =>
      abort task_id ;;
      check_call PhTool true calls ;;
      mret cancelled_output
  | Err (ToolReplayMiss tool h) =>
      throw (fail "replay_miss" ("replay miss for " +:+ tool +:+ " (" +:+ h +:+ ")"))
  | Err e => mret (error_output (show_tool_error e) origin)
  end.
Definition is_replayed (r : result ToolError ToolResult) : bool :=
  match r with Ok (RReplayed _) => true | _ => false end.

(** The spill of a live output; a recorded one is past it. *)
Definition spill_output (turn : N) (replayed : bool) (out : ToolOutput) :
    M K Abort (ToolOutput * option SpillRef) :=
  if replayed then mret (out, recorded_spill_ref out)
  else
    st ← step (fun k => let st := Spill.apply out (sh_spill sh) (k_ext k) turn in (set_ext (ss_store st) k, st));
    forM (ss_warnings st) (fun w => alog (EvWarning w)) ;;
    mret (ss_out st, ss_ref st).

(** E7: the [after_tool] hooks. *)
Fixpoint after_tool_hooks (turn : N) (calls : list ToolCall) (call : ToolCall) (chain : list (MiddlewareEntry X))
    (out : ToolOutput) : M K Abort ToolOutput :=
  match chain with
  | [] => mret out
  | e :: chain =>
      check_call PhAfterTool true calls ;;
      r ← hook turn (fun cx s x => after_tool (mw_middleware e) cx s call out x);
      after_tool_hooks turn calls call chain r.1
  end.

(** The tail of the loop's body, from the result on. *)
Definition finish_call (turn : N) (calls : list ToolCall) (call : ToolCall) (duration_ms : N)
    (r : result ToolError ToolResult) (origin : ToolOutputOrigin) : M K Abort unit :=
  let task_id := task_id_of turn (tc_tool_use_id call) in
  let is_ask_user := bool_decide (tc_name call = ASK_USER_TOOL_NAME) in
  out ← output_of task_id calls origin r;
  when (bool_decide (out_origin out = OCancelled))
    (alog (cancelled_event turn SkTool (Some (tc_tool_use_id call)) None PhTool [])) ;;
  when (match out_task out with None => true | Some _ => false end) (abort task_id) ;;
  w ← match out_task out with Some h => was_watched (th_id h) | None => mret false end;
  out ← conv (fail "internal") (redact ToolOutput_codec (with_waker w out));
  when is_ask_user (alog (user_answer_event turn call out)) ;;
  os ← spill_output turn (is_replayed r) out;
  out ← after_tool_hooks turn calls call (sh_chain sh) os.1;
  append_tool_output turn call out duration_ms os.2.

(** One round of the loop of [Kernel::run_tool_calls]; [calls] are the calls from this one on. *)
Definition run_tool_call (turn : N) (call : ToolCall) (calls : list ToolCall) : M K Abort unit :=
  check_call PhBeforeTool false calls ;;
  match reg_get (sh_registry sh) (tc_name call) with
  | None => unregistered_tool turn call
  | Some e =>
      cf ← before_tool_hooks turn calls (sh_chain sh) call;
      let '(call, flow) := cf in
      log_tool_call turn call (Some e) ;;
      when (bool_decide (tc_name call = ASK_USER_TOOL_NAME)) (alog (ask_user_event turn call)) ;;
      ro ← match flow with
           | Replace r => mret (r, OMiddleware)
           | FlowContinue => call_tool e turn call (task_id_of turn (tc_tool_use_id call)) calls
           end;
      ms ← outside elapsed_ms;
      finish_call turn calls call (N.min ms U64_MAX) ro.1 ro.2
  end.
Fixpoint run_tool_calls (turn : N) (calls : list ToolCall) : M K Abort unit :=
  match calls with
  | [] => mret tt
  | call :: rest => run_tool_call turn call calls ;; run_tool_calls turn rest
  end.

(** ** F: the turn boundary *)

Definition suspended_event (turn : N) (reason : SuspendReason) (s : Suspension) : EventBody :=
  EvSuspended {| susp_turn := turn; susp_reason := reason; susp_pending_task_ids := su_pending_task_ids s;
    susp_in_process_wakers := su_in_process_wakers s mod 2 ^ 32; susp_checkpoint_hash := su_checkpoint_hash s |}.
Definition next_status (drained_user : bool) (calls : list ToolCall) (s : State) : SessionStatus :=
  if drained_user || negb (bool_decide (length calls = 0)) then Running
  else match open_tasks s with [] => Idle | _ => Suspended end.
Definition turn_boundary (turn : N) (calls : list ToolCall) : M K Abort TurnOutcome :=
  drained ← conv abort_of_kernel drain_inbox_end_of_turn;
  next ← gets (fun k => next_status drained calls (k_state k));
  set_status next ;;
  conv Fatal (checkpoint CrTurnEnd) ;;
  match next with
  | Suspended =>
      terminate_session_processes ;;
      s ← gets suspension;
      alog (suspended_event turn SrPendingTasks s) ;;
      mret (TurnSuspended s)
  | Idle => mret TurnIdle
  | _ => mret Continue
  end.

(** [Kernel::turn_body]. *)
Definition turn_body : M K Abort TurnOutcome :=
  turn ← gets (fun k => st_turn (k_state k));
  check_cancel TurnToken PhBeforeModel ;;
  req ← prepare_request TurnToken turn;
  check_tools req ;;
  request_hash ← log_request turn req;
  ra ← call_model TurnToken turn req;
  calls ← accept_response TurnToken turn request_hash ra.1 ra.2;
  run_tool_calls turn calls ;;
  turn_boundary turn calls.

(** ** The exits *)

(** [Kernel::cancel_turn]. *)
Fixpoint answer_cancelled (turn : N) (calls : list ToolCall) : M K KernelError unit :=
  match calls with
  | [] => mret tt
  | call :: calls =>
      abort (task_id_of turn (tc_tool_use_id call)) ;;
      conv abort_to_kernel (append_tool_output turn call cancelled_output 0 None) ;;
      answer_cancelled turn calls
  end.
Definition klog (body : EventBody) : M K KernelError Event := conv KernelLog (log body).
Definition cancel_turn (phase : LoopPhase) (in_flight : option string) (unanswered : list ToolCall) :
    M K KernelError TurnOutcome :=
  turn ← gets (fun k => st_turn (k_state k));
  let skipped := List.filter (fun id => negb (bool_decide (Some id = in_flight))) (tc_tool_use_id <$> unanswered) in
  _ ← klog (cancelled_event turn SkTurn in_flight None phase skipped);
  answer_cancelled turn unanswered ;;
  _ ← drain_inbox_end_of_turn;
  set_status Idle ;;
  checkpoint CrCancel ;;
  mret TurnCancelled.

(** [Kernel::fail_turn]. *)
Fixpoint abort_tasks {E} (ids : list TaskId) : M K E unit :=
  match ids with [] => mret tt | id :: ids => abort id ;; abort_tasks ids end.
Definition started_here (snapshot s : State) : list TaskId :=
  List.filter (fun id => match omap_get id (st_pending_tasks snapshot) with None => true | Some _ => false end)
    (st_pending_tasks s).*1.
Definition fail_turn (snapshot : State) (class : string) (attempts : N) (message : string)
    (middleware hook : option string) : M K KernelError TurnOutcome :=
  s ← gets k_state;
  let turn := st_turn s in
  abort_tasks (started_here snapshot s) ;;
  modify (set_state snapshot) ;;
  terminate_session_processes ;;
  message ← redact_message message;
  tf ← klog (EvTurnFailed {| tfail_turn := turn; tfail_error_class := class; tfail_attempts := attempts;
    tfail_message := message; tfail_middleware := middleware; tfail_hook := hook |});
  _ ← drain_inbox_end_of_turn;
  set_status Failed ;;
  checkpoint CrFailure ;;
  ck ← gets k_checkpoint_hash;
  _ ← klog (EvSessionFailed {| sfail_turn := turn; sfail_cause_seq := ev_seq tf; sfail_error_class := class;
    sfail_checkpoint_hash := ck; sfail_resumable := true |});
  modify (set_last_error_class (Some class)) ;;
  mret (TurnFailed class).

(** [Kernel::run_turn]. *)
Definition start_turn : M K KernelError unit :=
  modify (on_state (fun s => with_turn (next_turn (st_turn s)) s)) ;;
  modify (fun k => on_emitter (set_turn (st_turn (k_state k))) k) ;;
  modify (fun k => let c := k_cancel k in
    set_cancel {| cs_session := cs_session c; cs_turn := Some (default (cs_session c) (cs_turn c));
                  cs_tools := cs_tools c |} k).
Definition end_turn : M K KernelError unit :=
  interfere ;;
  modify (fun k => let c := k_cancel k in
    set_cancel {| cs_session := cs_session c;
                  cs_turn := if decide (st_session_status (k_state k) = Running) then Some (cs_session c) else None;
                  cs_tools := [] |} k) ;;
  modify (on_emitter (allow_compaction false)).
Definition run_turn : M K KernelError TurnOutcome :=
  status ← get_status;
  match status with
  | Done => throw KernelDone
  | Running =>
      start_turn ;;
      snapshot ← gets k_state;
      r ← try turn_body;
      end_turn ;;
      match r with
      | Ok outcome => mret outcome
      | Err (Fatal e) => throw e
      | Err (Fail class attempts message middleware hook) =>
          fail_turn snapshot class attempts message middleware hook
      | Err (AbortCancelled phase in_flight unanswered) => cancel_turn phase in_flight unanswered
      end
  | s => throw (NotRunning s)
  end.
End turn.
