(* ===== verification/Answers.v ===== *)
(** Every tool call the model makes is answered exactly once, in order: the messages a turn appends,
    through its normal boundary and through its cancellation exit. *)

From S2P Require Import Prelude Ord Str Capability Sandbox Json Strict Codec Data Event State Redact Spill Log Outside Registry Kernel Frame Scenario Tasks Retry Turn.

Open Scope string_scope.
Open Scope list_scope.

(** * How the steps of a turn may fail *)

Definition not_cancelled (a : Abort) : Prop := match a with AbortCancelled _ _ _ => False | _ => True end.
(** If cancelled, then with [calls] unanswered. *)
Definition cancels (calls : list ToolCall) (a : Abort) : Prop :=
  match a with AbortCancelled _ _ u => u = calls | _ => True end.
Lemma not_cancelled_cancels calls a : not_cancelled a -> cancels calls a.
Proof. by destruct a. Qed.

Lemma errs_cancels {S A} calls (m : M S Abort A) : errs not_cancelled m -> errs (cancels calls) m.
Proof. apply errs_mono, not_cancelled_cancels. Qed.
#[export] Hint Resolve errs_cancels | 5 : errs.

Section errors.
Context {HP : Platform} {HJ : JsonText} {X L : Type} {HO : Outside X} {HL : EventLog L} {HA : ArtifactStore X}.
Context (sh : Shared X).
Notation K := (Kernel X L).

Lemma alog_errs body : errs not_cancelled (alog (X := X) (L := L) body).
Proof. unfold alog. errs_tac. Qed.
Lemma ahash_errs r : errs not_cancelled (ahash (X := X) (L := L) r).
Proof. apply errs_lift. by destruct r. Qed.
Lemma hook_errs {A R} turn (f : HookContext -> State -> X -> HookRun X (State * A) R) :
  errs not_cancelled (hook (L := L) sh turn f).
Proof. unfold hook. errs_tac. Qed.
Lemma redact_errs {A} (c : codec A) v : errs not_cancelled (conv (fail "internal") (redact (X := X) (L := L) c v)).
Proof. apply errs_conv. by apply errs_any. Qed.
Lemma kernel_errs {A} (m : M K KernelError A) : errs not_cancelled (conv abort_of_kernel m).
Proof. apply errs_conv, errs_any. by intros []. Qed.
Lemma fatal_errs {A} (m : M K KernelError A) : errs not_cancelled (conv Fatal m).
Proof. by apply errs_conv, errs_any. Qed.
End errors.
#[export] Hint Resolve alog_errs ahash_errs hook_errs redact_errs kernel_errs fatal_errs : errs.

Section errors2.
Context {HP : Platform} {HJ : JsonText} {X L : Type} {HO : Outside X} {HL : EventLog L} {HA : ArtifactStore X}.
Context (sh : Shared X).
Notation K := (Kernel X L).

Lemma was_watched_total {E} id : total (was_watched (X := X) (L := L) (E := E) id).
Proof. apply total_gets. Qed.
Lemma append_errs turn call out d sp : errs not_cancelled (append_tool_output (X := X) (L := L) turn call out d sp).
Proof. unfold append_tool_output. errs_tac. Qed.
Lemma log_tool_call_errs turn call e : errs not_cancelled (log_tool_call (X := X) (L := L) turn call e).
Proof. unfold log_tool_call. errs_tac. Qed.
Lemma spill_output_errs turn b out : errs not_cancelled (spill_output (L := L) sh turn b out).
Proof. unfold spill_output. errs_tac. Qed.
Lemma check_call_errs phase b calls : errs (cancels calls) (check_call (X := X) (L := L) phase b calls).
Proof. unfold check_call. errs_tac. Qed.
Lemma invoke_tool_total e t turn call : total (invoke_tool (L := L) sh e t turn call).
Proof.
  assert (Hw : forall ids, total (watch_all (X := X) (L := L) (E := Abort) ids)) by (intros; apply total_modify).
  assert (Hp : forall t d pending last end_, total (poll_tool (X := X) (L := L) t d pending last end_)).
  { intros t' d pending last end_. induction pending as [|ids pending IH]; simpl; total_tac. }
  unfold invoke_tool. total_tac.
Qed.
Lemma call_tool_errs e turn call id calls : errs (cancels calls) (call_tool (L := L) sh e turn call id calls).
Proof.
  unfold call_tool. pose proof (check_call_errs). pose proof (invoke_tool_total). errs_tac.
Qed.
Lemma output_of_errs id calls o r : errs (cancels calls) (output_of (X := X) (L := L) id calls o r).
Proof. unfold output_of. pose proof (check_call_errs). errs_tac. Qed.
Lemma before_hooks_errs turn calls chain call : errs (cancels calls) (before_tool_hooks (L := L) sh turn calls chain call).
Proof.
  revert call. induction chain as [|e chain IH]; intros call; simpl; errs_tac. apply check_call_errs.
Qed.
Lemma after_hooks_errs turn calls call chain out : errs (cancels calls) (after_tool_hooks (L := L) sh turn calls call chain out).
Proof.
  revert out. induction chain as [|e chain IH]; intros out; simpl; errs_tac. apply check_call_errs.
Qed.
End errors2.
#[export] Hint Resolve append_errs log_tool_call_errs spill_output_errs check_call_errs call_tool_errs output_of_errs
  before_hooks_errs after_hooks_errs : errs.

(** * What the steps of a turn do to the messages *)

Section messages.
Context {HP : Platform} {HJ : JsonText} {X L : Type} {HO : Outside X} {HL : EventLog L} {HA : ArtifactStore X}
  {HC : Clock} {HLL : EventLogLaws L}.
Context (sh : Shared X).
Notation K := (Kernel X L).

(** The same messages, and nothing taken from the inbox. *)
Definition same_messages (k k' : K) : Prop :=
  st_messages (k_state k') = st_messages (k_state k) /\ inbox_grows k k'.
#[export] Instance same_messages_preorder : PreOrder same_messages.
Proof. split; [by intros k|]. intros k1 k2 k3 [H1 ?] [H2 ?]. split; [congruence|by etrans]. Qed.
Lemma steps_same_messages {E A} (m : M K E A) : steps frame m -> steps inbox_grows m -> steps same_messages m.
Proof. intros Hf Hi k. split; [|apply Hi]. by rewrite <- (frame_state _ _ _ (Hf k)). Qed.
(** [ms] were appended, and nothing was taken from the inbox. *)
Definition appends (ms : list Message) (k k' : K) : Prop :=
  st_messages (k_state k') = st_messages (k_state k) ++ ms /\ inbox_grows k k'.
Lemma appends_nil k k' : same_messages k k' -> appends [] k k'.
Proof. intros [Hm Hg]. split; [|done]. by rewrite Hm, app_nil_r. Qed.
Lemma appends_app ms1 ms2 k1 k2 k3 : appends ms1 k1 k2 -> appends ms2 k2 k3 -> appends (ms1 ++ ms2) k1 k3.
Proof. intros [H1 ?] [H2 ?]. split; [by rewrite H2, H1, app_assoc|by etrans]. Qed.
Lemma same_appends ms k1 k2 k3 : same_messages k1 k2 -> appends ms k2 k3 -> appends ms k1 k3.
Proof. intros H1%appends_nil. by apply (appends_app []). Qed.
Lemma appends_same ms k1 k2 k3 : appends ms k1 k2 -> same_messages k2 k3 -> appends ms k1 k3.
Proof. intros H1 H2%appends_nil. rewrite <- (app_nil_r ms). by eapply appends_app. Qed.
(** A step that edits neither. *)
Lemma edit_messages k k' :
  st_messages (k_state k') = st_messages (k_state k) -> k_inbox k' = k_inbox k -> same_messages k k'.
Proof. intros Hm Hi. split; [done|by apply same_inbox_grows]. Qed.

Lemma alog_frame body : steps (frame (X := X)) (alog body).
Proof. unfold alog. steps_tac. Qed.
Lemma ahash_frame r : steps (frame (X := X) (L := L)) (ahash r).
Proof. apply steps_lift, _. Qed.
Lemma was_watched_frame {E} id : steps (frame (X := X) (L := L)) (was_watched (E := E) id).
Proof. apply steps_gets, _. Qed.
Lemma check_call_frame phase b calls : steps (frame (X := X) (L := L)) (check_call phase b calls).
Proof. unfold check_call. steps_tac. Qed.
Notation grows := (inbox_grows (X := X) (L := L)).
Lemma alog_inbox_grows body : steps grows (alog body).
Proof. unfold alog. steps_tac. Qed.
Lemma ahash_inbox_grows r : steps grows (ahash r).
Proof. apply steps_lift, _. Qed.
Lemma was_watched_inbox_grows {E} id : steps grows (was_watched (E := E) id).
Proof. apply steps_gets, _. Qed.
Lemma check_call_inbox_grows phase b calls : steps grows (check_call phase b calls).
Proof. unfold check_call. steps_tac. Qed.
End messages.
#[export] Hint Resolve alog_frame ahash_frame was_watched_frame check_call_frame : steps.
#[export] Hint Resolve alog_inbox_grows ahash_inbox_grows was_watched_inbox_grows check_call_inbox_grows : steps.
#[export] Hint Resolve steps_same_messages | 5 : steps.

Section messages2.
Context {HP : Platform} {HJ : JsonText} {X L : Type} {HO : Outside X} {HL : EventLog L} {HA : ArtifactStore X}
  {HC : Clock} {HLL : EventLogLaws L}.
Context (sh : Shared X).
Notation K := (Kernel X L).

(** The hooks around tools leave the messages and the call's id alone. *)
Definition tool_hooks_keep_messages : Prop :=
  Forall (fun e =>
    (forall cx s c x, let r := before_tool (mw_middleware e) cx s c x in
       st_messages (hr_args r).1 = st_messages s /\ tc_tool_use_id (hr_args r).2 = tc_tool_use_id c) /\
    (forall cx s c o x, st_messages (hr_args (after_tool (mw_middleware e) cx s c o x)).1 = st_messages s)) (sh_chain sh).
(** So do the hooks around the model call. *)
Definition model_hooks_keep_messages : Prop :=
  Forall (fun e =>
    (forall cx s q x, st_messages (hr_args (before_model (mw_middleware e) cx s q x)).1 = st_messages s) /\
    (forall cx s r x, st_messages (hr_args (after_model (mw_middleware e) cx s r x)).1 = st_messages s) /\
    (forall cx s x, st_messages (hr_args (on_compact (mw_middleware e) cx s x)) = st_messages s)) (sh_chain sh).

Lemma hook_messages {A R} turn (f : HookContext -> State -> X -> HookRun X (State * A) R) :
  (forall cx s x, st_messages (hr_args (f cx s x)).1 = st_messages s) ->
  steps (same_messages (X := X) (L := L)) (hook sh turn f).
Proof.
  intros Hf. unfold hook. steps_tac. intros k. apply edit_messages; [|done]. unfold run_hook. simpl. apply Hf.
Qed.
Lemma log_tool_call_messages turn call e : steps (same_messages (X := X) (L := L)) (log_tool_call turn call e).
Proof. unfold log_tool_call. steps_tac. Qed.
Lemma spill_output_messages turn b out : steps (same_messages (X := X) (L := L)) (spill_output sh turn b out).
Proof. unfold spill_output. steps_tac. apply steps_step. intros k. by apply edit_messages. Qed.
Lemma output_of_messages id calls o r : steps (same_messages (X := X) (L := L)) (output_of id calls o r).
Proof. unfold output_of. steps_tac. Qed.
Lemma watch_all_messages {E} ids : steps (same_messages (X := X) (L := L)) (watch_all (E := E) ids).
Proof. apply steps_modify. intros k. by apply edit_messages. Qed.
Lemma invoke_tool_messages e t turn call : steps (same_messages (X := X) (L := L)) (invoke_tool sh e t turn call).
Proof.
  assert (Hw := @watch_all_messages Abort).
  assert (Hp : forall t d pending last end_, steps (same_messages (X := X) (L := L)) (poll_tool t d pending last end_)).
  { intros t' d pending last end_. induction pending as [|ids pending IH]; simpl; steps_tac. }
  unfold invoke_tool, ensure_session_process. steps_tac; apply steps_modify; intros k; apply edit_messages; by repeat case_match.
Qed.
Lemma call_tool_messages e turn call id calls :
  steps (same_messages (X := X) (L := L)) (call_tool sh e turn call id calls).
Proof.
  unfold call_tool. pose proof invoke_tool_messages. steps_tac; apply steps_modify; intros k; by apply edit_messages.
Qed.
Lemma before_hooks_messages turn calls call :
  tool_hooks_keep_messages ->
  steps (same_messages (X := X) (L := L)) (before_tool_hooks sh turn calls (sh_chain sh) call) /\
  yields (fun cf => tc_tool_use_id cf.1 = tc_tool_use_id call) (before_tool_hooks (L := L) sh turn calls (sh_chain sh) call).
Proof.
  intros Hk. unfold tool_hooks_keep_messages in Hk. revert call. induction Hk as [|e chain [Hb _] Hk IH]; intros call; simpl.
  - split; [steps_tac|by apply yields_ret].
  - assert (Hh : yields (fun r => tc_tool_use_id r.1 = tc_tool_use_id call)
      (hook (L := L) sh turn (fun cx s x => before_tool (mw_middleware e) cx s call x))).
    { unfold hook. apply (yields_bind (fun r => tc_tool_use_id r.1 = tc_tool_use_id call)).
      - intros k k' a Hr. unfold conv, run_hook in Hr. destruct (hr_result _) as [r|]; [|done]. injection Hr as _ <-.
        apply Hb.
      - intros a Ha. apply (yields_bind (fun _ => True)); [done|]. intros _ _. by apply yields_ret. }
    split.
    + steps_tac; [|apply IH]. apply hook_messages. intros cx s x. apply Hb.
    + eapply (yields_bind (fun _ => True)); [done|]. intros _ _. eapply yields_bind; [exact Hh|]. intros r Hr.
      destruct (r.2); [|by apply yields_ret]. rewrite <- Hr. apply IH.
Qed.
Lemma after_hooks_messages turn calls call out :
  tool_hooks_keep_messages ->
  steps (same_messages (X := X) (L := L)) (after_tool_hooks sh turn calls call (sh_chain sh) out).
Proof.
  intros Hk. unfold tool_hooks_keep_messages in Hk. revert out. induction Hk as [|e chain [_ Ha] Hk IH]; intros out; simpl.
  - steps_tac.
  - steps_tac. apply hook_messages. intros cx s x. apply Ha.
Qed.
End messages2.
#[export] Hint Resolve log_tool_call_messages spill_output_messages output_of_messages call_tool_messages : steps.

(** * One answer for each call *)

Section answers.
Context {HP : Platform} {HJ : JsonText} {X L : Type} {HO : Outside X} {HL : EventLog L} {HA : ArtifactStore X}
  {HC : Clock} {HLL : EventLogLaws L}.
Context (sh : Shared X).
Notation K := (Kernel X L).

(** [m] appends the answer to the call [id]; if cancelled, it has appended nothing and leaves
    [calls] unanswered. *)
Definition answers (id : string) (calls : list ToolCall) (m : M K Abort unit) : Prop :=
  forall k k' r, m k = (k', r) ->
    match r with
    | Ok _ => exists out, appends [tool_message id out] k k'
    | Err (AbortCancelled _ _ u) => u = calls /\ same_messages k k'
    | Err _ => True
    end.
Lemma answers_after {A} id calls (V : A -> Prop) (m : M K Abort A) f :
  steps same_messages m -> errs (cancels calls) m -> yields V m -> (forall a, V a -> answers id calls (f a)) ->
  answers id calls (m ≫= f).
Proof.
  intros Hs He Hv Hf k k' r Hr. apply bind_inv in Hr as [(e & Hm & ->)|(a & k1 & Hm & Hr)].
  - pose proof (He _ _ _ Hm) as Hc. specialize (Hs k). rewrite Hm in Hs. by destruct e.
  - pose proof (Hf a (Hv _ _ _ Hm) _ _ _ Hr) as Ha. specialize (Hs k). rewrite Hm in Hs. simpl in Hs.
    destruct r as [[]|[| |]]; try done.
    + destruct Ha as [out Ha]. exists out. by eapply same_appends.
    + destruct Ha as [-> Ha]. split; [done|by etrans].
Qed.
Lemma append_answers turn call calls out d sp :
  answers (tc_tool_use_id call) calls (append_tool_output turn call out d sp).
Proof.
  intros k k' r Hr. destruct r as [u|e]; [|apply append_errs in Hr; by destruct e].
  exists out. unfold append_tool_output in Hr. apply bind_ok in Hr as (h & k1 & H1 & Hr).
  apply bind_ok in Hr as ([] & k2 & H2 & Hr). apply bind_ok in Hr as ([] & k3 & [= <-] & Hr).
  assert (Hlast : same_messages (on_state (push_message (tool_message (tc_tool_use_id call) out)) k2) k').
  { eapply steps_ran in Hr; [exact Hr|]. steps_tac; apply steps_modify; intros k0; by apply edit_messages. }
  eapply (steps_ran same_messages) in H1; [|steps_tac]. eapply (steps_ran same_messages) in H2; [|steps_tac].
  eapply same_appends; [exact H1|]. eapply same_appends; [exact H2|]. eapply appends_same; [|exact Hlast].
  split; [done|by apply same_inbox_grows].
Qed.

Lemma finish_answers turn calls call d r o :
  tool_hooks_keep_messages sh -> answers (tc_tool_use_id call) calls (finish_call sh turn calls call d r o).
Proof.
  intros Hk. unfold finish_call. cbv zeta.
  assert (Hw : forall h, total (was_watched (X := X) (L := L) (E := Abort) h)) by (intros; apply total_gets).
  repeat lazymatch goal with
    |- answers _ _ (_ ≫= _) => eapply (answers_after _ _ (fun _ => True)); [| |done|intros ? _] end.
  all: try apply append_answers.
  all: try (by apply after_hooks_messages).
  all: try solve [steps_tac].
  all: errs_tac.
Qed.
Lemma run_tool_call_answers turn call calls :
  tool_hooks_keep_messages sh -> answers (tc_tool_use_id call) calls (run_tool_call sh turn call calls).
Proof.
  intros Hk. unfold run_tool_call, unregistered_tool.
  eapply (answers_after _ _ (fun _ => True)); [steps_tac|errs_tac|done|intros _ _].
  destruct (reg_get (sh_registry sh) (tc_name call)) as [e|].
  - destruct (before_hooks_messages sh turn calls call Hk) as [Hs Hv].
    eapply answers_after; [exact Hs|errs_tac|exact Hv|]. intros [call' flow] Hid. simpl in Hid. rewrite <- Hid.
    repeat lazymatch goal with
    |- answers _ _ (_ ≫= _) => eapply (answers_after _ _ (fun _ => True)); [| |done|intros ? _] end.
    all: try by apply finish_answers.
    all: try solve [steps_tac].
    all: errs_tac.
  - repeat lazymatch goal with
    |- answers _ _ (_ ≫= _) => eapply (answers_after _ _ (fun _ => True)); [| |done|intros ? _] end.
    all: try apply append_answers.
    all: try solve [steps_tac].
    all: errs_tac.
Qed.
End answers.

(** * A whole turn *)

Section turn_messages.
Context {HP : Platform} {HJ : JsonText} {X L : Type} {HO : Outside X} {HL : EventLog L} {HA : ArtifactStore X}
  {HC : Clock} {HLL : EventLogLaws L}.
Context (sh : Shared X).
Notation K := (Kernel X L).
Notation messages k := (st_messages (k_state k)).

Definition answered (call : ToolCall) (m : Message) : Prop := exists out, m = tool_message (tc_tool_use_id call) out.

Lemma run_tool_calls_answers turn calls (k k' : K) r :
  tool_hooks_keep_messages sh -> run_tool_calls sh turn calls k = (k', r) ->
  match r with
  | Ok _ => exists ms, appends ms k k' /\ Forall2 answered calls ms
  | Err (AbortCancelled _ _ u) =>
      exists done ms, calls = done ++ u /\ appends ms k k' /\ Forall2 answered done ms
  | Err _ => True
  end.
Proof.
  intros Hk. revert k. induction calls as [|call calls IH]; intros k Hr; cbn [run_tool_calls] in Hr.
  - injection Hr as <- <-. exists []. split; [by apply appends_nil|done].
  - apply bind_inv in Hr as [(e & Hc & ->)|([] & k1 & Hc & Hr)].
    + pose proof (run_tool_call_answers sh turn call (call :: calls) Hk _ _ _ Hc) as Ha. destruct e; [done| |done].
      destruct Ha as [-> Hs]. exists [], []. split_and!; [done|by apply appends_nil|done].
    + destruct (run_tool_call_answers sh turn call (call :: calls) Hk _ _ _ Hc) as (out & Hm).
      specialize (IH _ Hr). assert (Ha : answered call (tool_message (tc_tool_use_id call) out)) by by exists out.
      destruct r as [u|[]]; [|done| |done].
      * destruct IH as (ms & Hms & Hf). exists (tool_message (tc_tool_use_id call) out :: ms).
        split; [by apply (appends_app [_] ms _ k1)|by constructor].
      * destruct IH as (done & ms & -> & Hms & Hf). exists (call :: done), (tool_message (tc_tool_use_id call) out :: ms).
        split_and!; [done|by apply (appends_app [_] ms _ k1)|by constructor].
Qed.

Definition cancelled_answer (call : ToolCall) : Message := tool_message (tc_tool_use_id call) cancelled_output.
Lemma answer_cancelled_messages turn calls (k k' : K) u :
  answer_cancelled turn calls k = (k', Ok u) -> appends (cancelled_answer <$> calls) k k'.
Proof.
  revert k. induction calls as [|call calls IH]; intros k Hr; cbn [answer_cancelled] in Hr.
  - injection Hr as <- _. by apply appends_nil.
  - apply bind_ok in Hr as ([] & k1 & H1 & Hr). apply bind_ok in Hr as ([] & k2 & H2 & Hr).
    eapply (steps_ran same_messages) in H1; [|steps_tac]. unfold conv in H2.
    destruct (append_tool_output turn call cancelled_output 0 None k1) as [k3 [[]|e]] eqn:Ha; [|done]. injection H2 as ->.
    eapply same_appends; [exact H1|]. apply (appends_app [_] _ _ k2); [|by apply IH]. revert Ha. unfold append_tool_output.
    intros (h & k4 & H4 & Ha)%bind_ok. apply bind_ok in Ha as ([] & k5 & H5 & Ha).
    eapply (steps_ran same_messages) in H4; [|steps_tac]. eapply (steps_ran same_messages) in H5; [|steps_tac].
    injection Ha as <-. eapply same_appends; [exact H4|]. eapply same_appends; [exact H5|].
    split; [done|by apply same_inbox_grows].
Qed.

(** ** What came in from the inbox *)

(** The same state but for the status. *)
Definition same_but_status (s s' : State) : Prop := with_status Created s' = with_status Created s.
#[export] Instance same_but_status_preorder : PreOrder same_but_status.
Proof. split; [by intros s|]. intros s1 s2 s3. unfold same_but_status. congruence. Qed.
Definition settled (k k' : K) : Prop := same_but_status (k_state k) (k_state k').
#[export] Instance settled_preorder : PreOrder settled.
Proof. split; [by intros k|]. intros k1 k2 k3. unfold settled. apply transitivity. Qed.
Lemma steps_settled {E A} (m : M K E A) : steps frame m -> steps settled m.
Proof. apply steps_mono. intros k k2 Hf. unfold settled. by rewrite (frame_state _ _ _ Hf). Qed.

(** Between [k] and [k'] the inbox was emptied once: [said] and then what its items add was appended;
    the items are those that were in it, and then those that came meanwhile. *)
Definition drained (said : list Message) (k k' : K) : Prop :=
  exists arrivals s s', st_messages s = messages k ++ said /\ inputs_take (k_inbox k ++ arrivals) s s' /\
    same_but_status s' (k_state k') /\ (quiet X -> arrivals = []).
Lemma drain_drained (k k' : K) b : drain_inbox_end_of_turn k = (k', Ok b) -> drained [] k k'.
Proof.
  intros Hr. destruct (drain_inbox_takes _ _ _ Hr) as (d & _ & Ho & Hd).
  destruct (boundary_items_queued _ _ _ Hr) as (a & Ha & Hq). specialize (Ho eq_refl) as ->.
  exists a, (k_state k), (k_state k'). rewrite app_nil_r, <- Ha. split_and!; [done|by apply Hd|done|done].
Qed.
Lemma appends_drained ms said (k k1 k' : K) : appends ms k k1 -> drained said k1 k' -> drained (ms ++ said) k k'.
Proof.
  intros [Hm (a1 & Ha1 & Hq1)] (a & s & s' & Hs & Hi & Hst & Hq). exists (a1 ++ a), s, s'.
  rewrite Hs, Hm, <- app_assoc. split_and!; [done| |done|].
  - by rewrite Ha1, <- app_assoc in Hi.
  - intros Hx. by rewrite Hq1, Hq.
Qed.
Lemma drained_settled said (k k1 k' : K) : drained said k k1 -> settled k1 k' -> drained said k k'.
Proof. intros (a & s & s' & Hs & Hi & Hst & Hq) H. exists a, s, s'. split_and!; [done..| |done]. by etrans. Qed.
Lemma same_drained said (k k1 k' : K) : same_messages k k1 -> drained said k1 k' -> drained said k k'.
Proof. intros H%appends_nil. by apply (appends_drained []). Qed.
Lemma set_status_messages {E} s : steps (same_messages (X := X) (L := L)) (set_status (E := E) s).
Proof. unfold set_status. steps_tac. apply steps_modify. intros k. by apply edit_messages. Qed.
Lemma checkpoint_messages reason : steps (same_messages (X := X) (L := L)) (checkpoint reason).
Proof. unfold checkpoint. steps_tac. apply steps_modify. intros k. by apply edit_messages. Qed.
Lemma terminate_messages {E} : steps (same_messages (X := X) (L := L)) (terminate_session_processes (E := E)).
Proof. apply steps_modify. intros k. by apply edit_messages. Qed.
Lemma set_status_settled {E} s : steps settled (set_status (E := E) s).
Proof. pose proof @steps_settled. unfold set_status. steps_tac. by apply steps_modify. Qed.
Lemma checkpoint_settled reason : steps settled (checkpoint reason).
Proof. pose proof @steps_settled. unfold checkpoint. steps_tac. by apply steps_modify. Qed.
Lemma terminate_settled {E} : steps settled (terminate_session_processes (E := E)).
Proof. by apply steps_modify. Qed.
End turn_messages.
#[export] Hint Resolve set_status_messages checkpoint_messages terminate_messages
  set_status_settled checkpoint_settled terminate_settled : steps.
#[export] Hint Resolve steps_settled | 5 : steps.

Section model_call.
Context {HP : Platform} {HJ : JsonText} {X L : Type} {HO : Outside X} {HL : EventLog L} {HA : ArtifactStore X}
  {HC : Clock} {HLL : EventLogLaws L}.
Context (sh : Shared X).
Notation K := (Kernel X L).

Lemma check_cancel_errs t phase : errs (cancels []) (check_cancel (X := X) (L := L) t phase).
Proof. unfold check_cancel. errs_tac. Qed.
Lemma check_cancel_frame t phase : steps (frame (X := X)) (check_cancel t phase).
Proof. unfold check_cancel. steps_tac. Qed.
Notation grows := (inbox_grows (X := X) (L := L)).
Lemma check_cancel_inbox_grows t phase : steps grows (check_cancel t phase).
Proof. unfold check_cancel. steps_tac. Qed.
Lemma hooks_errs {A} t phase turn f chain (a : A) : errs (cancels []) (hooks (L := L) sh t phase turn f chain a).
Proof.
  revert a. induction chain as [|e chain IH]; intros a; simpl; errs_tac. apply check_cancel_errs.
Qed.
Lemma hooks_messages {A} t phase turn f chain (a : A) :
  Forall (fun e => forall a cx s x, st_messages (hr_args (f (mw_middleware e) a cx s x)).1 = st_messages s) chain ->
  steps (same_messages (X := X) (L := L)) (hooks sh t phase turn f chain a).
Proof.
  intros Hf. revert a. induction Hf as [|e chain He Hf IH]; intros a; cbn [hooks]; [steps_tac|].
  pose proof check_cancel_frame. pose proof check_cancel_inbox_grows. steps_tac. by apply hook_messages.
Qed.
Lemma call_model_frame t turn req : steps (frame (X := X)) (call_model (L := L) sh t turn req).
Proof. unfold call_model. steps_tac. Qed.
Lemma call_model_errs t turn req : errs (cancels []) (call_model (L := L) sh t turn req).
Proof.
  unfold call_model. apply errs_bind; [apply errs_total, total_try|]. intros [[resp n]|[]]; errs_tac.
Qed.
Lemma prepare_errs t turn : errs (cancels []) (prepare_request (L := L) sh t turn).
Proof. unfold prepare_request, run_compaction. pose proof (@hooks_errs). errs_tac; by apply hooks_errs. Qed.
Lemma prepare_messages t turn : model_hooks_keep_messages sh ->
  steps (same_messages (X := X) (L := L)) (prepare_request sh t turn).
Proof.
  intros Hk. unfold prepare_request, run_compaction. steps_tac; apply hooks_messages;
    (eapply Forall_impl; [exact Hk|]); intros e (Hb & _ & Hc) ? ? ? ?; [apply Hb|apply Hc].
Qed.
Lemma check_tools_frame req : steps (frame (X := X) (L := L)) (check_tools sh req).
Proof. unfold check_tools. steps_tac. Qed.
Lemma check_tools_errs req : errs (cancels []) (check_tools (L := L) sh req).
Proof. unfold check_tools. errs_tac. Qed.
Lemma log_request_frame turn req : steps (frame (X := X)) (log_request (L := L) sh turn req).
Proof. unfold log_request. steps_tac. Qed.
Lemma log_request_errs turn req : errs (cancels []) (log_request (L := L) sh turn req).
Proof. unfold log_request. errs_tac. Qed.
Lemma call_model_inbox_grows t turn req : steps grows (call_model sh t turn req).
Proof. unfold call_model. steps_tac. Qed.
Lemma check_tools_inbox_grows req : steps grows (check_tools sh req).
Proof. unfold check_tools. steps_tac. Qed.
Lemma log_request_inbox_grows turn req : steps grows (log_request sh turn req).
Proof. unfold log_request. steps_tac. Qed.
End model_call.
#[export] Hint Resolve check_cancel_inbox_grows call_model_inbox_grows check_tools_inbox_grows log_request_inbox_grows : steps.
#[export] Hint Resolve check_cancel_frame call_model_frame check_tools_frame log_request_frame : steps.
#[export] Hint Resolve check_cancel_errs hooks_errs call_model_errs prepare_errs check_tools_errs log_request_errs : errs.

Section whole_turn.
Context {HP : Platform} {HJ : JsonText} {X L : Type} {HO : Outside X} {HL : EventLog L} {HA : ArtifactStore X}
  {HC : Clock} {HLL : EventLogLaws L}.
Context (sh : Shared X).
Notation K := (Kernel X L).
Notation messages k := (st_messages (k_state k)).

Definition assistant_message (resp : ModelResponse) : Message :=
  {| msg_role := RoleAssistant; msg_content := mr_content resp |}.

(** The messages of a turn that called the tools in [run] and answered those in [late] as cancelled. *)
Definition exchange (resp : ModelResponse) (run late : list ToolCall) (said : list Message) : Prop :=
  exists ms, tool_calls resp = run ++ late /\ Forall2 answered run ms /\
    said = assistant_message resp :: ms ++ (cancelled_answer <$> late).

(** What the body of a turn has done when it ends; if cancelled, [u] are the calls without an
    answer. *)
Definition body_appends (k k' : K) (r : result Abort TurnOutcome) : Prop :=
  match r with
  | Ok o => o <> TurnCancelled /\ exists resp said, exchange resp (tool_calls resp) [] said /\ drained said k k'
  | Err (AbortCancelled _ _ u) =>
      (u = [] /\ same_messages k k') \/
      exists resp answered_calls ms, tool_calls resp = answered_calls ++ u /\
        appends (assistant_message resp :: ms) k k' /\ Forall2 answered answered_calls ms
  | Err _ => True
  end.
Lemma body_appends_after {A} (m : M K Abort A) f (k k' : K) r :
  steps same_messages m -> errs (cancels []) m -> (forall a k1 k2 r, f a k1 = (k2, r) -> body_appends k1 k2 r) ->
  (m ≫= f) k = (k', r) -> body_appends k k' r.
Proof.
  intros Hs He Hf Hr. apply bind_inv in Hr as [(e & Hm & ->)|(a & k1 & Hm & Hr)].
  - pose proof (He _ _ _ Hm) as Hc. apply (steps_ran same_messages) in Hm; [|done]. destruct e; [done| |done]. by left.
  - apply Hf in Hr. apply (steps_ran same_messages) in Hm; [|done]. unfold body_appends in *.
    destruct r as [o|[]]; [|done| |done].
    + destruct Hr as (Ho & resp & said & He' & Hd). split; [done|]. exists resp, said. split; [done|by eapply same_drained].
    + destruct Hr as [[-> Hr]|(resp & ac & ms & Hc & Hr & Hfa)]; [left; split; [done|by etrans]|right].
      exists resp, ac, ms. split_and!; [done|by eapply same_appends|done].
Qed.

(** What [accept_response] has done: the assistant message. *)
Definition accepted (k k' : K) (r : result Abort (list ToolCall)) : Prop :=
  match r with
  | Ok calls => exists resp, calls = tool_calls resp /\ appends [assistant_message resp] k k'
  | Err (AbortCancelled _ _ u) => u = [] /\ same_messages k k'
  | Err _ => True
  end.
Lemma accepted_after {A} (m : M K Abort A) f (k k' : K) r :
  steps same_messages m -> errs (cancels []) m -> (forall a k1 k2 r, f a k1 = (k2, r) -> accepted k1 k2 r) ->
  (m ≫= f) k = (k', r) -> accepted k k' r.
Proof.
  intros Hs He Hf Hr. apply bind_inv in Hr as [(e & Hm & ->)|(a & k1 & Hm & Hr)].
  - pose proof (He _ _ _ Hm). apply (steps_ran same_messages) in Hm; [|done]. by destruct e.
  - apply Hf in Hr. apply (steps_ran same_messages) in Hm; [|done]. unfold accepted in *. destruct r as [calls|[]]; [|done| |done].
    + destruct Hr as (resp & -> & Hr). exists resp. split; [done|by eapply same_appends].
    + destruct Hr as [-> Hr]. split; [done|by etrans].
Qed.
Lemma accept_response_appends t turn rh resp n (k k' : K) r :
  model_hooks_keep_messages sh -> accept_response sh t turn rh resp n k = (k', r) -> accepted k k' r.
Proof.
  intros Hk. unfold accept_response.
  assert (Hh : forall resp, steps (same_messages (X := X) (L := L))
    (hooks sh t PhAfterModel turn (fun m resp cx s x => after_model m cx s resp x) (sh_chain sh) resp)).
  { intros resp'. apply hooks_messages. eapply Forall_impl; [exact Hk|]. intros e (_ & Ha & _) b cx s x. apply Ha. }
  apply accepted_after; [steps_tac|errs_tac|]. intros _ k1 k1' r1.
  apply accepted_after; [apply Hh|errs_tac|]. intros resp' k2 k2' r2.
  apply accepted_after; [steps_tac|errs_tac|]. intros h k3 k3' r3.
  apply accepted_after; [steps_tac|errs_tac|]. intros _ k4 k4' r4 [= <- <-]. exists resp'. split; [done|].
  split; [done|by apply same_inbox_grows].
Qed.

Lemma turn_boundary_drained turn calls (k k' : K) r :
  turn_boundary turn calls k = (k', r) ->
  match r with Ok o => o <> TurnCancelled /\ drained [] k k' | Err e => not_cancelled e end.
Proof.
  intros Hr. destruct r as [o|e].
  - unfold turn_boundary in Hr. apply bind_ok in Hr as (b & k1 & Hd & Hr). unfold conv in Hd.
    destruct (drain_inbox_end_of_turn k) as [k2 [b2|]] eqn:Hdr; [|done]. injection Hd as -> ->.
    apply drain_drained in Hdr. apply bind_ok in Hr as (next & k2 & [= <- <-] & Hr).
    apply bind_ok in Hr as ([] & k3 & H3 & Hr). apply bind_ok in Hr as ([] & k4 & H4 & Hr).
    eapply (steps_ran settled) in H3; [|steps_tac]. eapply (steps_ran settled) in H4; [|steps_tac].
    assert (H5 : settled k4 k') by (eapply steps_ran in Hr; [exact Hr|steps_tac]).
    split; [|eapply drained_settled; [exact Hdr|]; etrans; [exact H3|]; by etrans].
    destruct (next_status _ _ _); try (by injection Hr as _ <-).
    repeat (apply bind_ok in Hr as (? & ? & _ & Hr)). by injection Hr as _ <-.
  - revert Hr. assert (He : errs not_cancelled (turn_boundary (X := X) (L := L) turn calls))
      by (unfold turn_boundary; errs_tac). apply He.
Qed.

Lemma turn_body_appends (k k' : K) r :
  model_hooks_keep_messages sh -> tool_hooks_keep_messages sh -> turn_body sh k = (k', r) -> body_appends k k' r.
Proof.
  intros Hm Ht. unfold turn_body.
  apply body_appends_after; [steps_tac|errs_tac|]. intros turn k1 k1' r1.
  apply body_appends_after; [steps_tac|errs_tac|]. intros _ k2 k2' r2.
  apply body_appends_after; [by apply prepare_messages|errs_tac|]. intros req k3 k3' r3.
  apply body_appends_after; [steps_tac|errs_tac|]. intros _ k4 k4' r4.
  apply body_appends_after; [steps_tac|errs_tac|]. intros rh k5 k5' r5.
  apply body_appends_after; [steps_tac|errs_tac|]. intros ra k6 k6' r6 Hr.
  apply bind_inv in Hr as [(e & Ha & ->)|(calls & k7 & Ha & Hr)]; apply accept_response_appends in Ha; try done.
  { destruct e; [done| |done]. by left. }
  destruct Ha as (resp & -> & Ha).
  apply bind_inv in Hr as [(e & Hc & ->)|(u & k8 & Hc & Hr)]; apply run_tool_calls_answers in Hc; try done.
  { destruct e; [done| |done]. destruct Hc as (ac & ms & Hac & Hc & Hf). right. exists resp, ac, ms.
    split_and!; [done| |done]. by apply (appends_app [_] ms _ k7). }
  destruct Hc as (ms & Hc & Hf). apply turn_boundary_drained in Hr. destruct r6 as [o|e]; [|by destruct e].
  destruct Hr as [Ho Hr]. split; [done|]. exists resp, (assistant_message resp :: ms ++ []). split.
  - exists ms. by rewrite app_nil_r.
  - apply (appends_drained [_] _ _ k7); [done|]. by apply (appends_drained ms [] _ k8).
Qed.
End whole_turn.

Section exit_messages.
Context {HP : Platform} {HJ : JsonText} {X L : Type} {HO : Outside X} {HL : EventLog L} {HA : ArtifactStore X}
  {HC : Clock} {HLL : EventLogLaws L}.
Context (sh : Shared X).
Notation K := (Kernel X L).
Notation messages k := (st_messages (k_state k)).

Lemma start_turn_messages : steps (same_messages (X := X) (L := L)) start_turn.
Proof. unfold start_turn. steps_tac; apply steps_modify; intros k; by apply edit_messages. Qed.
Lemma end_turn_messages : steps (same_messages (X := X) (L := L)) end_turn.
Proof. unfold end_turn. steps_tac; apply steps_modify; intros k; by apply edit_messages. Qed.
Lemma end_turn_settled : steps (settled (X := X) (L := L)) end_turn.
Proof. unfold end_turn. steps_tac; by apply steps_modify. Qed.
Lemma klog_inbox_grows body : steps (inbox_grows (X := X) (L := L)) (klog body).
Proof. unfold klog. steps_tac. Qed.
Lemma klog_frame body : steps (frame (X := X) (L := L)) (klog body).
Proof. unfold klog. steps_tac. Qed.

Lemma cancel_turn_messages phase fl u (k k' : K) o :
  cancel_turn phase fl u k = (k', Ok o) -> o = TurnCancelled /\ drained (cancelled_answer <$> u) k k'.
Proof.
  unfold cancel_turn. intros (turn & k1 & [= <- <-] & Hr)%bind_ok. cbv zeta in Hr.
  apply bind_ok in Hr as (ev & k2 & H2 & Hr). apply bind_ok in Hr as ([] & k3 & H3 & Hr).
  apply bind_ok in Hr as (b & k4 & H4 & Hr). apply bind_ok in Hr as ([] & k5 & H5 & Hr).
  apply bind_ok in Hr as ([] & k6 & H6 & Hr). injection Hr as <- <-. split; [done|].
  eapply (steps_ran same_messages) in H2; [|pose proof klog_frame; pose proof klog_inbox_grows; steps_tac].
  apply answer_cancelled_messages in H3. apply drain_drained in H4.
  eapply (steps_ran settled) in H5; [|steps_tac]. eapply (steps_ran settled) in H6; [|steps_tac].
  eapply same_drained; [exact H2|]. apply (drained_settled _ _ k4); [|by etrans]. rewrite <- (app_nil_r (_ <$> u)).
  by eapply appends_drained.
Qed.

Lemma fail_turn_outcome snapshot class att msg mw hk (k k' : K) o :
  fail_turn snapshot class att msg mw hk k = (k', Ok o) -> o = TurnFailed class.
Proof.
  unfold fail_turn. intros Hr. do 12 (apply bind_ok in Hr as (? & ? & _ & Hr); cbv zeta in Hr). by injection Hr as _ <-.
Qed.
End exit_messages.
#[export] Hint Resolve start_turn_messages end_turn_messages end_turn_settled klog_frame klog_inbox_grows : steps.

Section turn_claim.
Context {HP : Platform} {HJ : JsonText} {X L : Type} {HO : Outside X} {HL : EventLog L} {HA : ArtifactStore X}
  {HC : Clock} {HLL : EventLogLaws L}.
Context (sh : Shared X).
Notation K := (Kernel X L).
Notation messages k := (st_messages (k_state k)).

(** C1: if the hooks leave the messages alone, a turn that succeeds appends one assistant message,
    then exactly one tool message for each call in it, in the order of the calls and under their
    ids, and then takes in the inbox: what was queued and what came meanwhile (nothing, if the
    other threads are quiet), one message for each user message and for each task that ends; a
    turn that is cancelled either appends no assistant message and no answer, or the
    assistant message and all the answers, those of the calls it did not get to saying that they
    were cancelled, and takes in the inbox likewise; nothing else is appended. *)
Theorem turn_answers_every_call (k k' : K) (o : TurnOutcome) :
  model_hooks_keep_messages sh -> tool_hooks_keep_messages sh -> run_turn sh k = (k', Ok o) ->
  (exists class, o = TurnFailed class) \/
  exists said, drained said k k' /\
    ((o = TurnCancelled /\ said = []) \/
     exists resp run late, exchange resp run late said /\ (o <> TurnCancelled -> late = [])).
Proof.
  intros Hm Ht. unfold run_turn. intros (status & k1 & [= <- <-] & Hr)%bind_ok.
  destruct (st_session_status (k_state k)); try done.
  apply bind_ok in Hr as ([] & k2 & H2 & Hr). apply bind_ok in Hr as (snap & k3 & [= <- <-] & Hr).
  apply bind_ok in Hr as (res & k4 & H4 & Hr). apply bind_ok in Hr as ([] & k5 & H5 & Hr).
  eapply (steps_ran same_messages) in H2; [|steps_tac].
  unfold try in H4. destruct (turn_body sh k2) as [k4' r4] eqn:Hb. injection H4 as <- <-.
  apply turn_body_appends in Hb; [|done..]. unfold body_appends in Hb.
  destruct r4 as [o'|[class att msg mw hk|phase fl u|e]].
  - injection Hr as <- <-. right. destruct Hb as (Ho & resp & said & He & Hd). exists said. split.
    + eapply same_drained; [exact H2|]. eapply drained_settled; [exact Hd|]. eapply steps_ran; [|exact H5]. steps_tac.
    + right. by exists resp, (tool_calls resp), [].
  - left. exists class. by eapply fail_turn_outcome.
  - apply cancel_turn_messages in Hr as [-> Hr]. right.
    eapply (steps_ran same_messages) in H5; [|steps_tac]. pose proof (same_drained _ _ _ _ H5 Hr) as Hd.
    destruct Hb as [[-> Hb]|(resp & run & ms & Hc & Hb & Hf)].
    + exists []. split; [|by left]. eapply same_drained; [exact H2|]. by eapply same_drained.
    + exists ((assistant_message resp :: ms) ++ (cancelled_answer <$> u)). split.
      * eapply same_drained; [exact H2|]. by eapply appends_drained.
      * right. exists resp, run, u. split; [by exists ms|done].
  - done.
Qed.
End turn_claim.

(** ** Witness *)

#[local] Existing Instance toy_platform.
#[local] Existing Instance wit_clock.
#[local] Existing Instance toy_json.

Lemma turn_answers_every_call_witness :
  let k := wit_kernel_at wit_running [] in
  let sh := wit_shared (Ok wit_calls) [wit_entry] in
  exists said, drained said k (run_turn sh k).1 /\
    exists resp run late, exchange resp run late said /\ late = [].
Proof.
  intros k sh.
  assert (Hr : run_turn sh k = ((run_turn sh k).1, Ok Continue)) by (apply pair_of; lazy; reflexivity).
  destruct (turn_answers_every_call sh k (run_turn sh k).1 Continue) as [[c Hc]|(said & Hd & [[Hc _]|(resp & run & late & He & Hl)])].
  - by repeat constructor.
  - by repeat constructor.
  - exact Hr.
  - discriminate Hc.
  - discriminate Hc.
  - exists said. split; [exact Hd|]. exists resp, run, late. split; [exact He|by apply Hl].
Defined.
