(* ===== verification/Lifecycle.v ===== *)
(** [loop_/mod.rs]: creating a session's kernel, opening one from its log, driving it, and the
    operations a launcher may call between turns. *)

From Stdlib Require Import Floats.SpecFloat.
From S2P Require Import Prelude Ord Str Capability Sandbox Json Strict Codec Data Event State Redact Spill Log FileLog Outside Registry Kernel Tasks Retry Turn.

Open Scope string_scope.
Open Scope list_scope.

(** * Configuration *)

Record KernelConfig (X L : Type) : Type := {
  cfg_tools : list (Tool X);
  cfg_middleware : list (MiddlewareEntry X);
  cfg_provider : Provider X;
  cfg_memory_name : string;
  cfg_sandbox : SandboxBackend X;
  cfg_event_log : L;
  cfg_redactor : Redactor;
  cfg_spill : SpillConfig;
  cfg_retry : RetryPolicy;
  cfg_sandbox_limits : SandboxLimits;
  cfg_migrations : MigrationRegistry;
  cfg_model_id : string;
  cfg_model_params : ModelParams;
  cfg_system_prompt : list PromptBlock;
  cfg_grants : list Capability;
  cfg_delta_sink : bool
}.
Arguments cfg_tools {X L} _.
Arguments cfg_middleware {X L} _.
Arguments cfg_provider {X L} _.
Arguments cfg_memory_name {X L} _.
Arguments cfg_sandbox {X L} _.
Arguments cfg_event_log {X L} _.
Arguments cfg_redactor {X L} _.
Arguments cfg_spill {X L} _.
Arguments cfg_retry {X L} _.
Arguments cfg_sandbox_limits {X L} _.
Arguments cfg_migrations {X L} _.
Arguments cfg_model_id {X L} _.
Arguments cfg_model_params {X L} _.
Arguments cfg_system_prompt {X L} _.
Arguments cfg_grants {X L} _.
Arguments cfg_delta_sink {X L} _.

Record SessionInit : Type := {
  init_session_id : SessionId;
  init_profiles : ActiveProfiles;
  init_profile_loads : list ProfileLoadPayload;
  init_runtime_overrides : option json;
  init_notebook_path : option string;
  init_memory : option string
}.

(** * Building *)

Section lifecycle.
Context {HP : Platform} {HJ : JsonText} {X L : Type} {HO : Outside X} {HL : EventLog L} {HA : ArtifactStore X}.
Notation K := (Kernel X L).

(** [build]: the fixed part, and the payload and flag for the start-up events. *)
Definition build (config : KernelConfig X L) (session_id : SessionId) (profiles : ActiveProfiles) :
    result KernelError (Shared X * MiddlewareChainResolvedPayload * bool) :=
  registry ← build_registry (cfg_tools config) (cfg_grants config) (cfg_sandbox_limits config);
  cp ← resolve (cfg_middleware config);
  let '(chain, chain_payload) := cp in
  let '(spill, spill_clamped) := clamped (cfg_spill config) in
  mret ({| sh_session_id := session_id; sh_memory_name := cfg_memory_name config; sh_sandbox := cfg_sandbox config;
           sh_provider := cfg_provider config; sh_registry := registry; sh_chain := chain; sh_profiles := profiles;
           sh_spill := spill; sh_retry := cfg_retry config; sh_limits := cfg_sandbox_limits config;
           sh_model_id := cfg_model_id config; sh_model_params := cfg_model_params config;
           sh_system_prompt := cfg_system_prompt config; sh_grants := cfg_grants config;
           sh_delta_sink := cfg_delta_sink config |}, chain_payload, spill_clamped).

(** A kernel around a state: nothing queued, no token but the session's, no future registered. *)
Definition new_kernel (config : KernelConfig X L) (s : State) (checkpoint_hash : string)
    (last_error_class : option string) (x : X) : K :=
  {| k_state := s; k_checkpoint_hash := checkpoint_hash; k_inbox := []; k_mirror := st_session_status s;
     k_cancel := {| cs_session := false; cs_turn := None; cs_tools := [] |};
     k_registrar := {| rg_wakers := []; rg_watched := [] |};
     k_emitter := {| em_queue := []; em_compaction := None; em_allow_compaction := false; em_turn := 0 |};
     k_session_procs := []; k_last_error_class := last_error_class; k_redactor := cfg_redactor config;
     k_log := cfg_event_log config; k_ext := x |}.

Definition startup_warnings (sh : Shared X) (spill_clamped : bool) : M K LogError unit :=
  let cap := sc_cap_bytes (sh_spill sh) in
  when spill_clamped
    (warn "spill_cap_clamped"
       ("spill cap clamped to " +:+ show_u64 cap +:+ " bytes (allowed range " +:+ show_u64 MIN_CAP_BYTES +:+ "..="
        +:+ show_u64 MAX_CAP_BYTES +:+ ")") (Some (jobj [("cap_bytes", JNum (PosInt cap))]))) ;;
  when (bool_decide (sandbox_name (sh_sandbox sh) = "none"))
    (warn "sandbox_backend_none"
       "sandbox backend `none` is in use; tools run WITHOUT isolation (development build)" None) ;;
  when (bool_decide (store_name (St := X) = "noop"))
    (warn "artifact_store_noop" "artifact store is `noop`; spilled results are not retrievable" None) ;;
  when (bool_decide (sh_memory_name sh = "noop")) (warn "memory_noop" "memory module is `noop`" None).

(** ** [Kernel::create] *)

Definition initial_state (sh : Shared X) (init : SessionInit) (created_at : string) : State :=
  {| st_schema_version := STATE_SCHEMA_VERSION; st_session_id := init_session_id init; st_created_at := created_at;
     st_turn := 0; st_session_status := Created; st_messages := []; st_pending_tasks := [];
     st_profiles := init_profiles init; st_memory := init_memory init; st_notebook_path := init_notebook_path init;
     st_sandbox_policy_hash := reg_envelope_hash (sh_registry sh);
     st_sandbox_backend := sandbox_name (sh_sandbox sh) |}.
Definition session_created (sh : Shared X) (init : SessionInit) (created_at : string) : EventBody :=
  EvSessionCreated {| screat_session_id := init_session_id init; screat_created_at := created_at;
    screat_kernel_version := KERNEL_VERSION; screat_profiles := init_profiles init;
    screat_model_id := sh_model_id sh; screat_tools := names_sorted (sh_registry sh);
    screat_grants := sort_grants (sh_grants sh); screat_sandbox_backend := sandbox_name (sh_sandbox sh);
    screat_sandbox_policy_hash := reg_envelope_hash (sh_registry sh); screat_artifact_store := store_name (St := X);
    screat_memory := sh_memory_name sh; screat_provider := provider_name (sh_provider sh);
    screat_spill := sh_spill sh; screat_retry := sh_retry sh; screat_notebook_path := init_notebook_path init;
    screat_sandbox_limits := sh_limits sh; screat_overrides := init_runtime_overrides init; screat_parent := None |}.
Definition create_events (sh : Shared X) (init : SessionInit) (chain_payload : MiddlewareChainResolvedPayload)
    (spill_clamped : bool) : M K LogError unit :=
  fresh ← gets (fun k => match last_seq (k_log k) with None => true | Some _ => false end);
  when fresh (_ ← log (log_opened ModeLive); mret tt) ;;
  created_at ← gets (fun k => st_created_at (k_state k));
  _ ← log (session_created sh init created_at);
  forM (init_profile_loads init) (fun p => _ ← log (EvProfileLoad p); mret tt) ;;
  _ ← log (EvMiddlewareChainResolved chain_payload);
  startup_warnings sh spill_clamped.
(** The outside and the log come back whatever happens. *)
Definition create (config : KernelConfig X L) (init : SessionInit) (x : X) :
    X * L * result KernelError (Shared X * K) :=
  let log := cfg_event_log config in
  if decide (log_session log = init_session_id init) then
    match build config (init_session_id init) (init_profiles init) with
    | Err e => (x, log, Err e)
    | Ok (sh, chain_payload, spill_clamped) =>
        let '(x, created_at) := now_rfc3339_ms x in
        let s := initial_state sh init created_at in
        match state_hash s with
        | Err e => (x, log, Err (KernelHash e))
        | Ok h =>
            let '(k, r) := create_events sh init chain_payload spill_clamped (new_kernel config s h None x) in
            (k_ext k, k_log k, match r with Ok _ => Ok (sh, k) | Err e => Err (KernelLog e) end)
        end
    end
  else (x, log, Err (KernelLog (WrongSession (log_session log) (init_session_id init)))).

(** ** [Kernel::open] *)

Definition last_failure (effective : list Event) : option string :=
  head (omap (fun e => match ev_body e with EvSessionFailed p => Some (sfail_error_class p) | _ => None end)
          (rev effective)).
Definition cause_kind (cause : ResumeCause) : ResumeCauseKind * option WakerSource :=
  match cause with
  | CauseTaskUpdate u => (RkTaskUpdate, Some (tu_source u))
  | CauseUserMessage _ => (RkUserMessage, None)
  | CauseOperator | CauseRecovery => (RkOperator, None)
  end.
Definition resumed_event (hash : string) (seq : N) (from : SessionStatus) (cause : ResumeCause) (new_process : bool) :
    EventBody :=
  EvResumed {| resm_from_checkpoint_hash := hash; resm_from_checkpoint_seq := seq; resm_from_status := from;
    resm_cause := (cause_kind cause).1; resm_waker := (cause_kind cause).2; resm_new_process := new_process;
    resm_kernel_version := KERNEL_VERSION; resm_event_schema_version := EVENT_SCHEMA_VERSION |}.

(** What [open] reads off the log before it builds anything. *)
Record restored : Type := {
  rs_state : State; rs_migrated : option (N * N); rs_hash : string; rs_seq : N; rs_last_seq : N; rs_clean : bool;
  rs_error_class : option string
}.
Definition read_log (migrations : MigrationRegistry) (log : L) (cause : ResumeCause) : result KernelError restored :=
  let rdr := reader log in
  let effective := sn_effective rdr in
  m ← map_err KernelRestore (restore_latest rdr migrations);
  migrated ← ok_or NoCheckpoint m;
  ck ← ok_or NoCheckpoint (latest_checkpoint effective);
  let s := migrated_state migrated in
  if decide (st_session_status s = Done) then Err KernelDone
  else if negb (bool_decide (log_session log = st_session_id s))
  then Err (KernelLog (WrongSession (log_session log) (st_session_id s)))
  else mret {| rs_state := s; rs_migrated := State.migrated migrated; rs_hash := ckpt_state_hash ck.2;
               rs_seq := ev_seq ck.1; rs_last_seq := default (ev_seq ck.1) (last_seq log);
               rs_clean := ends_cleanly effective && match cause with CauseRecovery => false | _ => true end;
               rs_error_class := last_failure effective |}.

(** The [resumed] event after a clean end, or the recovery of §7.3; whether the state changed. *)
Definition lost_tasks (s : State) : list TaskId := tk_id <$> List.filter tk_in_process_waker (open_tasks s).
Definition lost_json : json := jobj [("error", JStr "in-process waker lost in crash")].
Fixpoint cancel_all (content : json) (ids : list TaskId) : M K KernelError unit :=
  match ids with [] => mret tt | id :: ids => _ ← cancel_task_in_state id content; cancel_all content ids end.
Definition log_reopened (r : restored) (cause : ResumeCause) : M K KernelError bool :=
  let from := st_session_status (rs_state r) in
  if rs_clean r then
    _ ← klog (resumed_event (rs_hash r) (rs_seq r) from cause true); mret false
  else
    lost ← gets (fun k => lost_tasks (k_state k));
    cancel_all lost_json lost ;;
    _ ← klog (EvRecovered {| recov_checkpoint_hash := rs_hash r; recov_checkpoint_seq := rs_seq r;
      recov_discarded_seq := if (rs_seq r <? rs_last_seq r)%N
        then Some {| srange_from := rs_seq r + 1; srange_to := rs_last_seq r |} else None;
      recov_restored_status := from; recov_tasks_cancelled := lost; recov_kernel_version := KERNEL_VERSION;
      recov_event_schema_version := EVENT_SCHEMA_VERSION |});
    mret (negb (bool_decide (length lost = 0))).

(** The [on_resume] hooks. *)
Definition on_resume_run (cause : ResumeCause) (m : Middleware X) (cx : HookContext) (s : State) (x : X) :
    HookRun X (State * unit) unit :=
  let r := on_resume m cx s cause x in
  {| hr_outside := hr_outside r; hr_args := (hr_args r, tt); hr_effects := hr_effects r; hr_result := hr_result r |}.
Fixpoint resume_hooks (sh : Shared X) (cause : ResumeCause) (turn : N) (chain : list (MiddlewareEntry X)) :
    M K KernelError unit :=
  match chain with
  | [] => mret tt
  | e :: chain =>
      _ ← conv (fun e => KernelInternal ("on_resume: " +:+ show_middleware_error e))
            (run_hook sh turn (on_resume_run cause (mw_middleware e)));
      conv KernelLog flush_emits ;;
      resume_hooks sh cause turn chain
  end.

Definition hash_state : M K KernelError string := s ← gets k_state; lift (map_err KernelHash (state_hash s)).
Definition was_stopped (s : SessionStatus) : bool := bool_decide (s = Suspended) || bool_decide (s = Failed).

(** The cause is applied; whether the state changed. *)
Definition apply_cause (from : SessionStatus) (cause : ResumeCause) : M K KernelError bool :=
  match cause with
  | CauseTaskUpdate u =>
      a ← apply_task_update u (applied_point from);
      let applied := negb (bool_decide (a = Ignored)) in
      when (was_stopped from && applied) (set_status Running) ;;
      mret applied
  | CauseUserMessage m => apply_user_message m (applied_point from) ;; set_status Running ;; mret true
  | CauseOperator => when (was_stopped from) (set_status Running) ;; mret false
  | CauseRecovery => mret false
  end.

Definition open_events (sh : Shared X) (r : restored) (chain_payload : MiddlewareChainResolvedPayload)
    (spill_clamped : bool) (cause : ResumeCause) : M K KernelError unit :=
  let from := st_session_status (rs_state r) in
  changed1 ← log_reopened r cause;
  match rs_migrated r with
  | Some (a, b) =>
      conv KernelLog (warn "state_migrated"
        ("checkpoint state migrated from schema_version " +:+ show_u64 a +:+ " to " +:+ show_u64 b)
        (Some (jobj [("from", JNum (PosInt a)); ("to", JNum (PosInt b))])))
  | None => mret tt
  end ;;
  _ ← klog (EvMiddlewareChainResolved chain_payload);
  conv KernelLog (startup_warnings sh spill_clamped) ;;
  turn ← gets (fun k => st_turn (k_state k));
  before ← hash_state;
  resume_hooks sh cause turn (sh_chain sh) ;;
  after ← hash_state;
  changed2 ← apply_cause from cause;
  status ← get_status;
  let changed := match rs_migrated r with Some _ => true | None => false end
                 || changed1 || negb (bool_decide (after = before)) || changed2 || negb (bool_decide (status = from)) in
  when changed (checkpoint (if rs_clean r then CrResume else CrRecovery)).

Definition open (config : KernelConfig X L) (cause : ResumeCause) (x : X) : X * L * result KernelError (Shared X * K) :=
  let log := cfg_event_log config in
  match read_log (cfg_migrations config) log cause with
  | Err e => (x, log, Err e)
  | Ok r =>
      let s := rs_state r in
      match build config (st_session_id s) (st_profiles s) with
      | Err e => (x, log, Err e)
      | Ok (sh, chain_payload, spill_clamped) =>
          let s := with_sandbox (reg_envelope_hash (sh_registry sh)) (sandbox_name (sh_sandbox sh)) s in
          let '(k, res) := open_events sh r chain_payload spill_clamped cause
                             (new_kernel config s (rs_hash r) (rs_error_class r) x) in
          (k_ext k, k_log k, match res with Ok _ => Ok (sh, k) | Err e => Err e end)
      end
  end.

(** ** Between turns *)

(** [Kernel::run].  [fuel] bounds the turns and the waits for input together; running out of it
    ([None]) is the call still going on.  The inbox is never closed: the kernel holds a sender. *)
Fixpoint run (sh : Shared X) (fuel : nat) : M K KernelError (option RunStop) :=
  match fuel with
  | O => mret None
  | S fuel =>
      status ← get_status;
      match status with
      | Done => throw KernelDone
      | Running =>
          o ← run_turn sh;
          match o with
          | Continue => run sh fuel
          | TurnIdle | TurnCancelled => mret (Some StopIdle)
          | TurnSuspended s => mret (Some (StopSuspended s))
          | TurnFailed c => mret (Some (StopFailed c))
          end
      | from =>
          item ← try_recv;
          match item with
          | None => run sh fuel
          | Some first =>
              apply_inbound_batch first from ;;
              status ← get_status;
              match status with
              | Running | Created => run sh fuel
              | Idle => mret (Some StopIdle)
              | Suspended => s ← gets suspension; mret (Some (StopSuspended s))
              | Failed => c ← gets error_class_of; mret (Some (StopFailed c))
              | Done => throw KernelDone
              end
          end
      end
  end.

(** [Kernel::apply_queued_input]. *)
Definition apply_queued_input : M K KernelError bool :=
  status ← get_status;
  match status with
  | Done => throw KernelDone
  | Running => mret false
  | from =>
      item ← try_recv;
      match item with
      | None => mret false
      | Some first => apply_inbound_batch first from ;; mret true
      end
  end.

(** [Kernel::suspend]. *)
Definition suspend : M K KernelError Suspension :=
  status ← get_status;
  match status with
  | Done => throw KernelDone
  | Running | Idle =>
      open ← gets (fun k => open_tasks (k_state k));
      match open with
      | [] => throw NothingToWaitFor
      | _ =>
          terminate_session_processes ;;
          set_status Suspended ;;
          checkpoint CrSuspend ;;
          s ← gets suspension;
          turn ← gets (fun k => st_turn (k_state k));
          _ ← klog (suspended_event turn SrExplicit s);
          mret s
      end
  | s => throw (NotRunning s)
  end.

(** [Kernel::resume]. *)
Definition resume (cause : ResumeCause) : M K KernelError unit :=
  from ← get_status;
  match from with
  | Done => throw KernelDone
  | Suspended | Failed =>
      match cause with
      | CauseRecovery => throw (KernelInternal "ResumeCause::Recovery is only valid for Kernel::open")
      | _ =>
          seq ← gets (fun k => default 0%N (last_seq (k_log k)));
          ck ← gets k_checkpoint_hash;
          _ ← klog (resumed_event ck seq from cause false);
          match cause with
          | CauseTaskUpdate u => _ ← apply_task_update u (applied_point from); mret tt
          | CauseUserMessage m => apply_user_message m (applied_point from)
          | CauseOperator | CauseRecovery => mret tt
          end ;;
          set_status Running ;;
          checkpoint CrResume
      end
  | s => throw (NotRunning s)
  end.

(** [Kernel::end]. *)
Fixpoint end_tasks (ids : list TaskId) : M K KernelError unit :=
  match ids with
  | [] => mret tt
  | id :: ids =>
      _ ← cancel_task_in_state id cancelled_json;
      turn ← gets (fun k => st_turn (k_state k));
      _ ← klog (cancelled_event turn SkTask None (Some id) PhIdle []);
      end_tasks ids
  end.
Definition cancel_session (k : K) : K :=
  let c := k_cancel k in set_cancel {| cs_session := true; cs_turn := cs_turn c; cs_tools := cs_tools c |} k.
Definition end_session : M K KernelError unit :=
  status ← get_status;
  if decide (status = Done) then throw KernelDone
  else
    modify cancel_session ;;
    terminate_session_processes ;;
    abort_all ;;
    open ← gets (fun k => tk_id <$> open_tasks (k_state k));
    end_tasks open ;;
    set_status Done ;;
    checkpoint CrEnd ;;
    turn ← gets (fun k => st_turn (k_state k));
    ck ← gets k_checkpoint_hash;
    _ ← klog (EvSessionEnded {| send_turn := turn; send_by := ByUser; send_checkpoint_hash := ck;
      send_cancelled_task_ids := open |});
    mret tt.

(** [Kernel::compact]. *)
Definition compact (sh : Shared X) (strategy : string) : M K KernelError unit :=
  status ← get_status;
  if decide (status = Done) then throw KernelDone
  else
    turn ← gets (fun k => st_turn (k_state k));
    conv (fun a => match a with
                   | Fatal e => e
                   | Fail _ _ message _ _ => KernelTurnFailed message
                   | AbortCancelled _ _ _ => KernelInternal "compaction cancelled"
                   end) (run_compaction sh strategy SessionToken turn).

(** Everything a launcher may do with a kernel. *)
Inductive operation : Type :=
  | OpRun (fuel : nat)
  | OpRunTurn
  | OpApplyQueuedInput
  | OpSuspend
  | OpResume (cause : ResumeCause)
  | OpEnd
  | OpCompact (strategy : string).
Definition perform (sh : Shared X) (o : operation) : M K KernelError unit :=
  match o with
  | OpRun fuel => _ ← run sh fuel; mret tt
  | OpRunTurn => _ ← run_turn sh; mret tt
  | OpApplyQueuedInput => _ ← apply_queued_input; mret tt
  | OpSuspend => _ ← suspend; mret tt
  | OpResume cause => resume cause
  | OpEnd => end_session
  | OpCompact strategy => compact sh strategy
  end.
End lifecycle.
