(* ===== verification/Cassette.v ===== *)
(** [replay/mod.rs], the cassette: what a log records of the model's and the tools' answers and of
    the inputs, the [Recorder] middleware that gathers the same from hooks, and the provider and
    tools that serve it back. *)

From Stdlib Require Import Floats.SpecFloat.
From S2P Require Import Prelude Ord Str Capability Sandbox Json Strict Codec Data Event State Redact Spill Log FileLog Outside Turn.

Open Scope string_scope.
Open Scope list_scope.

Definition RECORDER_NAME : string := "recorder".
Definition REPLAY_WAKER_KIND : string := "replay".
Definition RECORDER_PRIORITY : Z := 990.

(** * Keys *)

Record CassetteKey : Type := { ck_checkpoint_hash : string; ck_request_hash : string }.
#[export] Instance CassetteKey_eq_dec : EqDecision CassetteKey.
Proof. solve_decision. Defined.
(** The derived order: by checkpoint, then by request. *)
#[export] Instance cmp_key : Cmp CassetteKey := fun a b =>
  match cmp (ck_checkpoint_hash a) (ck_checkpoint_hash b) with
  | Eq => cmp (ck_request_hash a) (ck_request_hash b)
  | c => c
  end.
#[export] Instance cmp_key_laws : CmpLaws CassetteKey.
Proof.
  assert (Hl : forall a b : CassetteKey, cmp a b =
    list_cmp [ck_checkpoint_hash a; ck_request_hash a] [ck_checkpoint_hash b; ck_request_hash b]).
  { intros a b. unfold cmp at 1, cmp_key. simpl. by repeat case_match. }
  split.
  - intros x. rewrite Hl. apply list_cmp_refl.
  - intros x y. rewrite Hl. intros H%list_cmp_eq. destruct x, y. simpl in *. congruence.
  - intros x y. rewrite !Hl. apply list_cmp_anti.
  - intros x y z. rewrite !Hl. apply list_cmp_trans.
Qed.

(** * Inputs *)

Inductive ReplayInput : Type :=
  | RiUserMessage (applied : AppliedAt) (message : Message)
  | RiTaskUpdate (applied : AppliedAt) (update : TaskUpdate)
  | RiUserAnswer (question_id : string) (answer : UserAnswer).
(** [ReplayInput::applied]. *)
Definition input_applied (i : ReplayInput) : option AppliedAt :=
  match i with
  | RiUserMessage a _ | RiTaskUpdate a _ => Some a
  | RiUserAnswer _ _ => None
  end.

Definition replay_waker : WakerSource :=
  {| ws_kind := REPLAY_WAKER_KIND; ws_trust_tier := None; ws_detail := JNull |}.
Definition from_secs (n : N) : N := n * 1000000000.
Definition input_of_event (b : EventBody) : option ReplayInput :=
  match b with
  | EvUserMessage p =>
      Some (RiUserMessage (umsg_applied p) {| msg_role := RoleUser; msg_content := umsg_content p |})
  | EvTaskUpdate p =>
      if decide (aa_at (tupd_applied p) = AtIgnored) then None
      else Some (RiTaskUpdate (tupd_applied p)
             {| tu_id := tupd_task_id p; tu_status := tupd_status p; tu_outcome := tupd_outcome p;
                tu_eta := from_secs <$> tupd_eta_secs p; tu_check_hint := tupd_check_hint p; tu_source := replay_waker |})
  | EvUserAnswer p => Some (RiUserAnswer (uap_question_id p) {| ua_question_id := uap_question_id p; ua_answer := uap_answer p |})
  | _ => None
  end.

Record Cassette : Type := {
  ca_session_id : SessionId;
  ca_model : list (CassetteKey * ModelResponse);
  ca_tools : list (CassetteKey * ToolOutput);
  ca_inputs : list ReplayInput
}.
Definition empty_cassette (sid : SessionId) : Cassette :=
  {| ca_session_id := sid; ca_model := []; ca_tools := []; ca_inputs := [] |}.

(** * From a log *)

(** The variables of the loop of [Cassette::from_log]. *)
Record Scan : Type := {
  sc_cassette : Cassette;
  sc_model : option CassetteKey;
  sc_tools : list (string * CassetteKey);
  sc_task : option (CassetteKey * TaskId)
}.

Definition response_of (p : ModelResponsePayload) : ModelResponse :=
  {| mr_content := mresp_content p; mr_stop_reason := mresp_stop_reason p; mr_usage := mresp_usage p;
     mr_model_id := mresp_model_id p; mr_raw_response_hash := mresp_raw_response_hash p; mr_response_id := None |}.
Definition handle_of (t : TaskRef) : TaskHandle :=
  {| th_id := tref_task_id t; th_status := tref_status t; th_eta := None; th_check_hint := None; th_description := None |}.
Definition output_of (p : ToolResultPayload) : ToolOutput :=
  {| out_content := tres_content p; out_is_error := tres_is_error p; out_artifact_handles := tres_artifact_handles p;
     out_spilled := tres_spilled p; out_task := handle_of <$> tres_task p; out_origin := tres_origin p;
     out_in_process_waker := false |}.
(** A recorded output, completed from the [task_started] that follows it. *)
Definition complete_handle (p : TaskStartedPayload) (o : ToolOutput) : ToolOutput :=
  {| out_content := out_content o; out_is_error := out_is_error o; out_artifact_handles := out_artifact_handles o;
     out_spilled := out_spilled o;
     out_task := (fun h => {| th_id := th_id h; th_status := th_status h; th_eta := from_secs <$> tstart_eta_secs p;
                              th_check_hint := tstart_check_hint p; th_description := tstart_description p |}) <$> out_task o;
     out_origin := out_origin o; out_in_process_waker := tstart_in_process_waker p |}.

Definition put_model (k : CassetteKey) (r : ModelResponse) (c : Cassette) : Cassette :=
  {| ca_session_id := ca_session_id c; ca_model := omap_insert k r (ca_model c); ca_tools := ca_tools c; ca_inputs := ca_inputs c |}.
Definition put_tool (k : CassetteKey) (o : ToolOutput) (c : Cassette) : Cassette :=
  {| ca_session_id := ca_session_id c; ca_model := ca_model c; ca_tools := omap_insert k o (ca_tools c); ca_inputs := ca_inputs c |}.
Definition add_inputs (l : list ReplayInput) (c : Cassette) : Cassette :=
  {| ca_session_id := ca_session_id c; ca_model := ca_model c; ca_tools := ca_tools c; ca_inputs := ca_inputs c ++ l |}.

Definition scan_event (s : Scan) (e : Event) : Scan :=
  match ev_body e with
  | EvModelRequest p =>
      {| sc_cassette := sc_cassette s;
         sc_model := Some {| ck_checkpoint_hash := mreq_checkpoint_hash p; ck_request_hash := mreq_request_hash p |};
         sc_tools := []; sc_task := sc_task s |}
  | EvModelResponse p =>
      match sc_model s with
      | Some key =>
          if decide (ck_request_hash key = mresp_request_hash p) then
            {| sc_cassette := put_model key (response_of p) (sc_cassette s); sc_model := None; sc_tools := sc_tools s;
               sc_task := sc_task s |}
          else s
      | None => s
      end
  | EvToolCall p =>
      if tcall_registered p then
        {| sc_cassette := sc_cassette s; sc_model := sc_model s;
           sc_tools := omap_insert (tcall_tool_use_id p)
             {| ck_checkpoint_hash := tcall_checkpoint_hash p; ck_request_hash := tcall_request_hash p |} (sc_tools s);
           sc_task := sc_task s |}
      else s
  | EvToolResult p =>
      match omap_get (tres_tool_use_id p) (sc_tools s) with
      | Some key =>
          {| sc_cassette := put_tool key (output_of p) (sc_cassette s); sc_model := sc_model s;
             sc_tools := omap_remove (tres_tool_use_id p) (sc_tools s);
             sc_task := (fun t => (key, tref_task_id t)) <$> tres_task p |}
      | None => s
      end
  | EvTaskStarted p =>
      match sc_task s with
      | Some (key, id) =>
          if decide (id = tstart_task_id p) then
            {| sc_cassette := match omap_get key (ca_tools (sc_cassette s)) with
                              | Some out => put_tool key (complete_handle p out) (sc_cassette s)
                              | None => sc_cassette s
                              end;
               sc_model := sc_model s; sc_tools := sc_tools s; sc_task := None |}
          else s
      | None => s
      end
  | EvCancelled p =>
      if decide (canc_scope p = SkTurn) then
        {| sc_cassette := sc_cassette s; sc_model := sc_model s; sc_tools := []; sc_task := sc_task s |}
      else s
  | EvTurnFailed _ => {| sc_cassette := sc_cassette s; sc_model := None; sc_tools := []; sc_task := sc_task s |}
  | other =>
      match input_of_event other with
      | Some i => {| sc_cassette := add_inputs [i] (sc_cassette s); sc_model := sc_model s; sc_tools := sc_tools s; sc_task := sc_task s |}
      | None => s
      end
  end.
Definition scan (evs : list Event) (sid : SessionId) : Scan :=
  foldl scan_event {| sc_cassette := empty_cassette sid; sc_model := None; sc_tools := []; sc_task := None |} evs.

Inductive CassetteError : Type := Incomplete (m : string).
(** [Cassette::from_log]. *)
Definition from_log (r : SnapshotReader) : result CassetteError Cassette :=
  match sn_effective r with
  | [] => Err (Incomplete "log has no events")
  | (e :: _) as evs => Ok (sc_cassette (scan evs (ev_session_id e)))
  end.

(** * The recorder *)

(** What [try_recv] yields: an event, or how many were lost. *)
Inductive Received : Type :=
  | RcvEvent (b : EventBody)
  | RcvLagged (n : N).
Record Recorder : Type := {
  rc_session_id : option SessionId;
  rc_model : list (CassetteKey * ModelResponse);
  rc_tools : list (CassetteKey * ToolOutput);
  rc_inputs : list ReplayInput;
  rc_pending : option (string * ModelRequest);
  rc_events : option (list Received);
  rc_lagged : N
}.
Definition recorder_new : Recorder :=
  {| rc_session_id := None; rc_model := []; rc_tools := []; rc_inputs := []; rc_pending := None; rc_events := None; rc_lagged := 0 |}.

Definition received_input (r : Received) : option ReplayInput :=
  match r with RcvEvent b => input_of_event b | RcvLagged _ => None end.
Definition received_lag (r : Received) : N := match r with RcvEvent _ => 0 | RcvLagged n => n end.
Definition drain_events (g : Recorder) : Recorder :=
  match rc_events g with
  | None => g
  | Some rx =>
      {| rc_session_id := rc_session_id g; rc_model := rc_model g; rc_tools := rc_tools g;
         rc_inputs := rc_inputs g ++ omap received_input rx; rc_pending := rc_pending g; rc_events := Some [];
         rc_lagged := rc_lagged g + foldr (fun r n => received_lag r + n)%N 0%N rx |}
  end.
(** [Recorder::cassette], with the recorder it leaves. *)
Definition recorder_cassette (g : Recorder) : Recorder * Cassette :=
  let g := drain_events g in
  (g, {| ca_session_id := default "" (rc_session_id g); ca_model := rc_model g; ca_tools := rc_tools g; ca_inputs := rc_inputs g |}).

Definition truncate_eta (o : ToolOutput) : ToolOutput :=
  {| out_content := out_content o; out_is_error := out_is_error o; out_artifact_handles := out_artifact_handles o;
     out_spilled := out_spilled o;
     out_task := (fun h => {| th_id := th_id h; th_status := th_status h; th_eta := (fun d => from_secs (as_secs d)) <$> th_eta h;
                              th_check_hint := th_check_hint h; th_description := th_description h |}) <$> out_task o;
     out_origin := out_origin o; out_in_process_waker := out_in_process_waker o |}.
Definition mw_err (hook : string) (e : HashError) : MiddlewareError :=
  {| mwe_name := RECORDER_NAME; mwe_hook := hook; mwe_source := show_hash_error e |}.

Section recorder.
Context {HP : Platform}.

Definition rec_before_model (cx : HookContext) (req : ModelRequest) (g : Recorder) : Recorder :=
  let g := drain_events g in
  {| rc_session_id := Some (default (hcx_session_id cx) (rc_session_id g)); rc_model := rc_model g; rc_tools := rc_tools g;
     rc_inputs := rc_inputs g; rc_pending := Some (hcx_checkpoint_hash cx, req); rc_events := rc_events g;
     rc_lagged := rc_lagged g |}.
Definition with_messages (ms : list Message) (r : ModelRequest) : ModelRequest :=
  {| mq_model_id := mq_model_id r; mq_system := mq_system r; mq_messages := ms; mq_tools := mq_tools r;
     mq_params := mq_params r; mq_trace := mq_trace r |}.
Definition without_response_id (r : ModelResponse) : ModelResponse :=
  {| mr_content := mr_content r; mr_stop_reason := mr_stop_reason r; mr_usage := mr_usage r; mr_model_id := mr_model_id r;
     mr_raw_response_hash := mr_raw_response_hash r; mr_response_id := None |}.
Definition rec_after_model (cx : HookContext) (s : State) (resp : ModelResponse) (g : Recorder)
    : Recorder * result MiddlewareError unit :=
  let g := drain_events g in
  match rc_pending g with
  | None => (g, Ok tt)
  | Some (checkpoint, req) =>
      let taken := {| rc_session_id := rc_session_id g; rc_model := rc_model g; rc_tools := rc_tools g; rc_inputs := rc_inputs g;
                      rc_pending := None; rc_events := rc_events g; rc_lagged := rc_lagged g |} in
      let req := if decide (checkpoint = hcx_checkpoint_hash cx) then req else with_messages (st_messages s) req in
      match model_request_hash req with
      | Err e => (taken, Err (mw_err "after_model" e))
      | Ok h =>
          let key := {| ck_checkpoint_hash := hcx_checkpoint_hash cx; ck_request_hash := h |} in
          ({| rc_session_id := rc_session_id g; rc_model := omap_insert key (without_response_id resp) (rc_model g);
              rc_tools := rc_tools g; rc_inputs := rc_inputs g; rc_pending := None; rc_events := rc_events g;
              rc_lagged := rc_lagged g |}, Ok tt)
      end
  end.
Definition rec_after_tool (cx : HookContext) (call : ToolCall) (out : ToolOutput) (g : Recorder)
    : Recorder * result MiddlewareError unit :=
  let g := drain_events g in
  match tool_request_hash call with
  | Err e => (g, Err (mw_err "after_tool" e))
  | Ok h =>
      let key := {| ck_checkpoint_hash := hcx_checkpoint_hash cx; ck_request_hash := h |} in
      ({| rc_session_id := rc_session_id g; rc_model := rc_model g;
          rc_tools := omap_insert key (truncate_eta out) (rc_tools g); rc_inputs := rc_inputs g; rc_pending := rc_pending g;
          rc_events := rc_events g; rc_lagged := rc_lagged g |}, Ok tt)
  end.

(** The recorder lives in the outside state. *)
Class HasRecorder (X : Type) : Type := { recorder : X -> Recorder; set_recorder : Recorder -> X -> X }.
Context {X : Type} {HR : HasRecorder X}.
Definition hook_run {A} (args : A) (p : Recorder * result MiddlewareError unit) (x : X) : HookRun X A unit :=
  {| hr_outside := set_recorder p.1 x; hr_args := args; hr_effects := []; hr_result := p.2 |}.
Definition recorder_middleware : Middleware X := {|
  before_model cx s req x := hook_run (s, req) (rec_before_model cx req (recorder x), Ok tt) x;
  after_model cx s resp x := hook_run (s, resp) (rec_after_model cx s resp (recorder x)) x;
  before_tool cx s call x := before_tool default_middleware cx s call x;
  after_tool cx s call out x := hook_run (s, out) (rec_after_tool cx call out (recorder x)) x;
  on_compact cx s x := on_compact default_middleware cx s x;
  on_resume cx s cause x := on_resume default_middleware cx s cause x
|}.
(** [Recorder::entry]. *)
Definition recorder_entry : MiddlewareEntry X :=
  {| mw_name := RECORDER_NAME; mw_priority := RECORDER_PRIORITY; mw_source := MsKernel; mw_config_hash := None;
     mw_middleware := recorder_middleware |}.
End recorder.

(** * Serving the recording *)

Section serving.
Context {HP : Platform} {X : Type}.

(** [ReplayProvider]: a lookup, and never a call. *)
Definition replay_complete (c : Cassette) (req : ModelRequest) : result ProviderError ModelResponse :=
  match model_request_hash req with
  | Err e => Err (InvalidResponse ("request is not hashable: " +:+ show_hash_error e))
  | Ok h =>
      let ck := rt_checkpoint_hash (mq_trace req) in
      match omap_get {| ck_checkpoint_hash := ck; ck_request_hash := h |} (ca_model c) with
      | Some resp => Ok resp
      | None => Err (ReplayMiss ck h)
      end
  end.
Definition replay_provider (c : Cassette) : Provider X :=
  {| provider_name := "replay";
     complete req x := (x, {| call_pending := 0; call_end := Some (replay_complete c req) |});
     complete_stream req x :=
       (x, {| call_pending := 0; call_end := Some (r ← replay_complete c req; Ok [Ok (Complete r)]) |}) |}.

(** [==] on recorded outputs.  Numbers compare as numbers. *)
Definition num_same (a b : number) : bool :=
  match a, b with
  | PosInt m, PosInt n => (m =? n)%N
  | NegInt y, NegInt z => (y =? z)%Z
  | Float f, Float g => match SFcompare f g with Some Eq => true | _ => false end
  | _, _ => false
  end.
Fixpoint list_same {A} (f : A -> A -> bool) (l l' : list A) : bool :=
  match l, l' with
  | [], [] => true
  | x :: l, y :: l' => f x y && list_same f l l'
  | _, _ => false
  end.
Fixpoint json_same (a b : json) {struct a} : bool :=
  match a, b with
  | JNull, JNull => true
  | JBool x, JBool y => Bool.eqb x y
  | JNum m, JNum n => num_same m n
  | JStr s, JStr t => bool_decide (s = t)
  | JArr l, JArr l' =>
      (fix go l l' := match l, l' with
                      | [], [] => true
                      | x :: l, y :: l' => json_same x y && go l l'
                      | _, _ => false
                      end) l l'
  | JObj m, JObj m' =>
      (fix go (m m' : list (string * json)) :=
         match m, m' with
         | [], [] => true
         | (k, x) :: m, (k', y) :: m' => bool_decide (k = k') && json_same x y && go m m'
         | _, _ => false
         end) m m'
  | _, _ => false
  end.
Definition opt_same {A} (f : A -> A -> bool) (a b : option A) : bool :=
  match a, b with Some x, Some y => f x y | None, None => true | _, _ => false end.
Fixpoint block_same (a b : ContentBlock) {struct a} : bool :=
  match a, b with
  | Text s, Text t => bool_decide (s = t)
  | Thinking s sig, Thinking t sig' => bool_decide (s = t) && bool_decide (sig = sig')
  | ToolUse i n v, ToolUse i' n' v' => bool_decide (i = i') && bool_decide (n = n') && json_same v v'
  | ToolResultBlock i c e, ToolResultBlock i' c' e' => bool_decide (i = i') && content_same c c' && Bool.eqb e e'
  | Image h m, Image h' m' => bool_decide (h = h') && bool_decide (m = m')
  | TaskResultBlock i u s c e, TaskResultBlock i' u' s' c' e' =>
      bool_decide (i = i') && bool_decide (u = u') && bool_decide (s = s') && content_same c c' && Bool.eqb e e'
  | _, _ => false
  end
with content_same (a b : ToolResultContent) {struct a} : bool :=
  match a, b with
  | Blocks l, Blocks l' =>
      (fix go l l' := match l, l' with
                      | [], [] => true
                      | x :: l, y :: l' => block_same x y && go l l'
                      | _, _ => false
                      end) l l'
  | Json v, Json v' => json_same v v'
  | _, _ => false
  end.
Definition handle_same (a b : TaskHandle) : bool :=
  bool_decide (th_id a = th_id b) && bool_decide (th_status a = th_status b) && bool_decide (th_eta a = th_eta b) &&
  opt_same json_same (th_check_hint a) (th_check_hint b) && bool_decide (th_description a = th_description b).
Definition output_same (a b : ToolOutput) : bool :=
  content_same (out_content a) (out_content b) && Bool.eqb (out_is_error a) (out_is_error b) &&
  bool_decide (out_artifact_handles a = out_artifact_handles b) && Bool.eqb (out_spilled a) (out_spilled b) &&
  opt_same handle_same (out_task a) (out_task b) && bool_decide (out_origin a = out_origin b) &&
  Bool.eqb (out_in_process_waker a) (out_in_process_waker b).

(** The loop of [ReplayTool::lookup] over the entries of the request, whatever their checkpoint. *)
Fixpoint agreed (h : string) (found : option ToolOutput) (tools : list (CassetteKey * ToolOutput)) : option ToolOutput :=
  match tools with
  | [] => found
  | (k, out) :: tools =>
      if decide (ck_request_hash k = h) then
        match found with
        | None => agreed h (Some out) tools
        | Some prev => if output_same prev out then agreed h found tools else None
        end
      else agreed h found tools
  end.
(** [ReplayTool::lookup], with the checkpoint hash the tracker holds. *)
Definition replay_lookup (c : Cassette) (tracked : option string) (h : string) : option ToolOutput :=
  match tracked ≫= fun ck => omap_get {| ck_checkpoint_hash := ck; ck_request_hash := h |} (ca_tools c) with
  | Some out => Some out
  | None => agreed h None (ca_tools c)
  end.

(** [CheckpointTracker], in the outside state; [None]: the tool has no tracker. *)
Class HasTracker (X : Type) : Type := { tracked : X -> option string; track : string -> X -> X }.
Definition replay_result (c : Cassette) (ck : option string) (call : ToolCall) : result ToolError ToolResult :=
  match tool_request_hash call with
  | Err e => Err (Internal (show_hash_error e))
  | Ok h =>
      match replay_lookup c ck h with
      | Some out => Ok (RReplayed out)
      | None => Err (ToolReplayMiss (tc_name call) h)
      end
  end.
(** The stand-in future of a served task that had an in-process waker never resolves. *)
Definition stand_in (r : result ToolError ToolResult) : list TaskId :=
  match r with
  | Ok (RReplayed out) =>
      match out_task out with Some h => if out_in_process_waker out then [th_id h] else [] | None => [] end
  | _ => []
  end.
Definition replay_session_command (k : ToolKind) : option Command :=
  if decide (k = Session) then
    Some {| cmd_program := "replay-session-stub"; cmd_args := []; cmd_cwd := None; cmd_env := []; cmd_stdin := None |}
  else None.
Definition replay_tool (def : ToolDefinition) (k : ToolKind) (caps : list Capability) (c : Cassette)
    (tracker : X -> option string) : Tool X :=
  {| tool_name := td_name def; tool_description := td_description def; tool_schema := td_input_schema def; tool_kind := k;
     tool_capabilities := caps; tool_session_command := replay_session_command k;
     tool_invoke cx input x :=
       let r := replay_result c (tracker x) {| tc_tool_use_id := tcx_tool_use_id _ cx; tc_name := td_name def; tc_input := input |} in
       (x, {| inv_pending := []; inv_last := stand_in r; inv_end := Some r |}) |}.
End serving.

(** * What a cassette holds *)

Definition request_key (p : ModelRequestPayload) : CassetteKey :=
  {| ck_checkpoint_hash := mreq_checkpoint_hash p; ck_request_hash := mreq_request_hash p |}.
(** A request with that key is in the log, and a response to it after it. *)
Definition asked (key : CassetteKey) (evs : list Event) : Prop :=
  exists e p, e ∈ evs /\ ev_body e = EvModelRequest p /\ request_key p = key.
Definition answered_by (key : CassetteKey) (r : ModelResponse) (evs : list Event) : Prop :=
  exists pre e q post, evs = pre ++ e :: post /\ asked key pre /\ ev_body e = EvModelResponse q /\
    mresp_request_hash q = ck_request_hash key /\ r = response_of q.
(** Events that leave a pending request pending. *)
Definition keeps_pending (hash : string) (e : Event) : Prop :=
  match ev_body e with
  | EvModelRequest _ | EvTurnFailed _ => False
  | EvModelResponse q => mresp_request_hash q <> hash
  | _ => True
  end.

Lemma scan_app evs evs' s : foldl scan_event s (evs ++ evs') = foldl scan_event (foldl scan_event s evs) evs'.
Proof. apply foldl_app. Qed.

Lemma scan_event_inputs s e : ca_inputs (sc_cassette (scan_event s e)) =
  ca_inputs (sc_cassette s) ++ option_list (input_of_event (ev_body e)).
Proof.
  unfold scan_event. destruct (ev_body e) eqn:Hb; unfold input_of_event; simpl; rewrite ?app_nil_r; try done;
    repeat case_match; simplify_eq; simpl; rewrite ?app_nil_r; try done.
Qed.
Lemma scan_inputs evs s : ca_inputs (sc_cassette (foldl scan_event s evs)) =
  ca_inputs (sc_cassette s) ++ omap (fun e => input_of_event (ev_body e)) evs.
Proof.
  induction evs as [|e evs IH] using rev_ind; [by rewrite app_nil_r|].
  rewrite foldl_snoc, scan_event_inputs, IH, omap_app, app_assoc. by f_equal.
Qed.

(** How an event may change the model half of a scan. *)
Lemma scan_event_model s e :
  (sc_model (scan_event s e) = sc_model s \/ sc_model (scan_event s e) = None \/
   exists p, ev_body e = EvModelRequest p /\ sc_model (scan_event s e) = Some (request_key p)) /\
  (ca_model (sc_cassette (scan_event s e)) = ca_model (sc_cassette s) \/
   exists key q, ev_body e = EvModelResponse q /\ sc_model s = Some key /\ ck_request_hash key = mresp_request_hash q /\
     ca_model (sc_cassette (scan_event s e)) = omap_insert key (response_of q) (ca_model (sc_cassette s))).
Proof.
  unfold scan_event. destruct (ev_body e) eqn:Hb; repeat case_match; simplify_eq; simpl; split;
    first [by auto | by left | right; right; by eexists | by right; repeat eexists | idtac].
Qed.

Lemma asked_mono key evs evs' : asked key evs -> asked key (evs ++ evs').
Proof. intros (e & p & Hin & H). exists e, p. split; [|done]. apply elem_of_app. by left. Qed.
Lemma answered_mono key r evs evs' : answered_by key r evs -> answered_by key r (evs ++ evs').
Proof. intros (pre & e & q & post & -> & H). exists pre, e, q, (post ++ evs'). by rewrite <- app_assoc. Qed.

Lemma scan_sound evs sid :
  (forall key, sc_model (scan evs sid) = Some key -> asked key evs) /\
  (forall key r, omap_get key (ca_model (sc_cassette (scan evs sid))) = Some r -> answered_by key r evs).
Proof.
  unfold scan. induction evs as [|e evs [IH1 IH2]] using rev_ind; [by split|]. rewrite foldl_snoc.
  set (s := foldl scan_event _ evs) in *. destruct (scan_event_model s e) as [H1 H2]. split.
  - intros key. destruct H1 as [-> | [-> |(p & Hb & ->)]]; [by intros ?%IH1; apply asked_mono|done|].
    intros [= <-]. exists e, p. split; [apply elem_of_app; right; by left|done].
  - intros key r. destruct H2 as [-> |(key' & q & Hb & Hm & Hh & ->)]; [by intros ?%IH2; apply answered_mono|].
    rewrite omap_get_insert. case_decide; [|by intros ?%IH2; apply answered_mono]. subst. intros [= <-].
    exists evs, e, q, []. split_and!; auto.
Qed.

(** The other direction: a request, and the next response to it. *)
Lemma keeps_pending_steady key s e : sc_model s = Some key -> keeps_pending (ck_request_hash key) e ->
  sc_model (scan_event s e) = Some key.
Proof.
  intros Hm. unfold keeps_pending, scan_event. rewrite Hm.
  destruct (ev_body e) eqn:Hb; intros Hk; try done; repeat case_match; simplify_eq; simpl; try done; congruence.
Qed.
Lemma mid_keeps_pending key mid s : sc_model s = Some key -> Forall (keeps_pending (ck_request_hash key)) mid ->
  sc_model (foldl scan_event s mid) = Some key.
Proof.
  revert s. induction mid as [|e mid IH]; intros s Hm H; [done|].
  apply Forall_cons in H as [He H]. by apply IH; [apply keeps_pending_steady|].
Qed.
(** Without a further request for a key its recorded answer stays. *)
Definition not_asked (key : CassetteKey) (e : Event) : Prop :=
  match ev_body e with EvModelRequest p => request_key p <> key | _ => True end.
Lemma not_asked_steady key s e : not_asked key e -> sc_model s <> Some key ->
  sc_model (scan_event s e) <> Some key /\
  omap_get key (ca_model (sc_cassette (scan_event s e))) = omap_get key (ca_model (sc_cassette s)).
Proof.
  intros Hn Hm. destruct (scan_event_model s e) as [H1 H2]. split.
  - destruct H1 as [-> | [-> |(p & Hb & ->)]]; [done|done|]. unfold not_asked in Hn. rewrite Hb in Hn. congruence.
  - destruct H2 as [-> |(key' & q & Hb & Hk & Hh & ->)]; [done|]. rewrite omap_get_insert. case_decide; [congruence|done].
Qed.
Lemma post_steady key post s : Forall (not_asked key) post -> sc_model s <> Some key ->
  omap_get key (ca_model (sc_cassette (foldl scan_event s post))) = omap_get key (ca_model (sc_cassette s)).
Proof.
  revert s. induction post as [|e post IH]; intros s H Hm; [done|].
  apply Forall_cons in H as [He H]. destruct (not_asked_steady key s e He Hm) as [Hm' Hg]. simpl. by rewrite IH.
Qed.
Lemma scan_complete sid pre e p mid e' q post key :
  ev_body e = EvModelRequest p -> request_key p = key -> Forall (keeps_pending (ck_request_hash key)) mid ->
  ev_body e' = EvModelResponse q -> mresp_request_hash q = ck_request_hash key -> Forall (not_asked key) post ->
  omap_get key (ca_model (sc_cassette (scan (pre ++ e :: mid ++ e' :: post) sid))) = Some (response_of q).
Proof.
  intros Hb Hk Hmid Hb' Hh Hpost. unfold scan. rewrite foldl_app. simpl. rewrite foldl_app. simpl.
  set (s1 := scan_event _ e). assert (H1 : sc_model s1 = Some key).
  { unfold s1, scan_event. rewrite Hb. simpl. by rewrite <- Hk. }
  assert (H2 : sc_model (foldl scan_event s1 mid) = Some key) by by apply mid_keeps_pending.
  set (s2 := foldl scan_event s1 mid) in *.
  assert (Hs : scan_event s2 e' = {| sc_cassette := put_model key (response_of q) (sc_cassette s2); sc_model := None;
     sc_tools := sc_tools s2; sc_task := sc_task s2 |}).
  { unfold scan_event. rewrite Hb', H2. by rewrite decide_True by done. }
  rewrite Hs. rewrite post_steady; [|done|done]. simpl. rewrite omap_get_insert. by rewrite decide_True.
Qed.

Section replaying.
Context {HP : Platform}.

(** a cassette read from a log serves the recording and nothing else.  Its inputs are the
    log's user messages, applied task updates and answers, in order.  Where the log has a model
    request and, before any other request or failed turn, the first response with that request's
    hash, and no later request with the same key, a replay provider answers a request of that
    hash and checkpoint with that response.  Conversely every answer it gives is a response the log has,
    after a request with the same checkpoint and hash; any other request is a [ReplayMiss] that
    names the two hashes. *)
Theorem replay_serves_the_recording (r : SnapshotReader) (c : Cassette) :
  from_log r = Ok c ->
  ca_inputs c = omap (fun e => input_of_event (ev_body e)) (sn_effective r) /\
  (forall pre e p mid e' q post req,
     sn_effective r = pre ++ e :: mid ++ e' :: post ->
     ev_body e = EvModelRequest p -> Forall (keeps_pending (mreq_request_hash p)) mid ->
     ev_body e' = EvModelResponse q -> mresp_request_hash q = mreq_request_hash p ->
     Forall (not_asked (request_key p)) post ->
     model_request_hash req = Ok (mreq_request_hash p) -> rt_checkpoint_hash (mq_trace req) = mreq_checkpoint_hash p ->
     replay_complete c req = Ok (response_of q)) /\
  (forall req h, model_request_hash req = Ok h ->
     match replay_complete c req with
     | Ok resp => answered_by {| ck_checkpoint_hash := rt_checkpoint_hash (mq_trace req); ck_request_hash := h |} resp
                    (sn_effective r)
     | Err e => e = ReplayMiss (rt_checkpoint_hash (mq_trace req)) h
     end).
Proof.
  unfold from_log. destruct (sn_effective r) as [|e0 evs] eqn:He; [done|]. intros [= <-]. split_and!.
  - unfold scan. by rewrite scan_inputs.
  - intros pre e p mid e' q post req -> Hb Hmid Hb' Hh Hpost Hreq Hck. unfold replay_complete. rewrite Hreq, Hck.
    by rewrite (scan_complete _ pre e p mid e' q post (request_key p) Hb eq_refl Hmid Hb' Hh Hpost).
  - intros req h Hreq. unfold replay_complete. rewrite Hreq. destruct (omap_get _ _) eqn:Hg; [|done].
    by apply (scan_sound (e0 :: evs) (ev_session_id e0)) in Hg.
Qed.
End replaying.

(** A log with one answered request. *)
Definition wit_request : ModelRequest :=
  {| mq_model_id := "m"; mq_system := []; mq_messages := []; mq_tools := [];
     mq_params := {| mp_temperature := None; mp_top_p := None; mp_max_tokens := None; mp_stop := []; mp_thinking := None;
                     mp_extra := JNull |};
     mq_trace := {| rt_session_id := "s1"; rt_turn := 1; rt_attempt := 1; rt_checkpoint_hash := "ck"; rt_request_id := "0190" |} |}.
Definition wit_request_hash : string := match @model_request_hash toy_platform wit_request with Ok h => h | Err _ => "" end.
Definition wit_asked : ModelRequestPayload :=
  {| mreq_turn := 1; mreq_request_hash := wit_request_hash; mreq_checkpoint_hash := "ck"; mreq_model_id := "m";
     mreq_profiles := wit_profiles;
     mreq_system_prompt_hash := ""; mreq_prompt_blocks := []; mreq_message_count := 0; mreq_tool_names := [];
     mreq_params_hash := "" |}.
Definition wit_answer : ModelResponsePayload :=
  {| mresp_turn := 1; mresp_request_hash := wit_request_hash; mresp_response_hash := "a"; mresp_raw_response_hash := "r";
     mresp_model_id := "m"; mresp_stop_reason := EndTurn;
     mresp_usage := {| us_input_tokens := 1; us_output_tokens := 1; us_cache_read_tokens := None; us_reasoning_tokens := None |};
     mresp_content := [Text "hello"]; mresp_attempts := 1 |}.
Definition wit_events : list Event :=
  (fun b => @mk_event wit_clock "s1" 0 b) <$> [log_opened ModeLive; EvModelRequest wit_asked; EvModelResponse wit_answer].
Definition wit_recording : SnapshotReader := {| sn_lines := []; sn_effective := wit_events |}.

Lemma replay_serves_the_recording_witness : exists c, from_log wit_recording = Ok c /\
  @replay_complete toy_platform c wit_request = Ok (response_of wit_answer).
Proof.
  eexists. split; [reflexivity|].
  eapply (proj1 (proj2 (@replay_serves_the_recording toy_platform wit_recording _ eq_refl)))
    with (pre := [_]) (mid := []) (post := []) (p := wit_asked).
  - reflexivity.
  - reflexivity.
  - constructor.
  - reflexivity.
  - reflexivity.
  - constructor.
  - lazy. reflexivity.
  - reflexivity.
Defined.
