(* ===== verification/Replay.v ===== *)
(** [replay/mod.rs], the comparison of a recorded log with a replayed one ([diff_logs]) and the
    driver that feeds a kernel the recorded inputs ([ReplayDriver]). *)

From Stdlib Require Import Floats.SpecFloat.
From S2P Require Import Prelude Ord Str Utf8 Capability Sandbox Json Strict Codec Data Event State Redact Spill Log FileLog Outside Registry Kernel Tasks Retry Turn Lifecycle Frame Scenario Cassette.

Open Scope string_scope.
Open Scope list_scope.

(** * Volatile fields *)

Definition VOLATILE_KINDS : list string := ["provider_retry"; "warning"; "recovered"].
Definition VOLATILE_FIELDS : list (string * list string) :=
  [("log_opened", ["kernel_version"; "mode"]);
   ("session_created", ["session_id"; "created_at"; "kernel_version"; "sandbox_backend"; "sandbox_policy_hash";
                        "artifact_store"; "memory"; "provider"]);
   ("profile_load", ["path"]);
   ("model_response", ["attempts"]);
   ("tool_call", ["policy_hash"]);
   ("tool_result", ["duration_ms"]);
   ("task_update", ["waker"]);
   ("checkpoint", ["state.session_id"; "state.created_at"; "state.sandbox_policy_hash"; "state.sandbox_backend"]);
   ("resumed", ["waker"; "new_process"; "kernel_version"]);
   ("turn_failed", ["attempts"; "message"]);
   ("session_failed", ["cause_seq"]);
   ("spawn", ["child_session_id"; "child_log_path"]);
   ("child_completed", ["child_session_id"])].

(** The walk along the parts of one dotted name. *)
Fixpoint remove_path (parts : list string) (v : json) : json :=
  match parts with
  | [] => v
  | [part] => match v with JObj m => JObj (omap_remove part m) | _ => v end
  | part :: parts =>
      match v with
      | JObj m =>
          match omap_get part m with
          | Some next => JObj (omap_insert part (remove_path parts next) m)
          | None => v
          end
      | _ => v
      end
  end.
Definition strip_field (v : json) (field : string) : json := remove_path (split_char "." field) v.
Definition strip_volatile (kind : string) (payload : json) : json :=
  match List.find (fun e => bool_decide (e.1 = kind)) VOLATILE_FIELDS with
  | None => payload
  | Some (_, fields) => foldl strip_field payload fields
  end.

(** * Comparing logs *)

Inductive ReplayError : Type :=
  | ReplayIncomplete (m : string)
  | EarlyStop (s : RunStop)
  | ReplayKernel (e : KernelError)
  | ReplayLog (e : LogError)
  | ReplayHash (e : HashError)
  | ReplayIo (m : string).
Record DiffReport : Type := {
  df_identical : bool;
  df_first_diff : option (nat * string);
  df_compared : nat
}.

Definition show_nat (n : nat) : string := show_u64 (N.of_nat n).
(** The first position at which two byte strings differ, within both. *)
Fixpoint first_mismatch (a b : string) : option nat :=
  match a, b with
  | String x a, String y b => if decide (x = y) then S <$> first_mismatch a b else Some 0%nat
  | _, _ => None
  end.
Definition window (at_ : nat) (s : string) : string :=
  let start := (at_ - 40)%nat in
  let stop := Nat.min (at_ + 40) (String.length s) in
  from_utf8_lossy (str_take (stop - start) (str_drop start s)).
Definition describe_payload_diff (kind a b : string) : string :=
  let at_ := default (Nat.min (String.length a) (String.length b)) (first_mismatch a b) in
  "`" +:+ kind +:+ "` payload differs at byte " +:+ show_nat at_ +:+ ": recorded …" +:+ window at_ a +:+
  "… vs replayed …" +:+ window at_ b +:+ "…".

Section diff.
Context {HP : Platform}.

Definition comparable_event (e : Event) : option (string * json) :=
  let kind := kind (ev_body e) in
  if bool_decide (kind ∈ VOLATILE_KINDS) then None
  else Some (kind, strip_volatile kind (payload_value (ev_body e))).
Definition comparable (r : SnapshotReader) : result ReplayError (list (string * string)) :=
  mapR (fun kv => match canonical_json_value kv.2 with Ok s => Ok (kv.1, s) | Err e => Err (ReplayHash e) end)
    (omap comparable_event (sn_effective r)).

(** The loop of [diff_logs], from index [i]. *)
Fixpoint first_difference (i : nat) (a b : list (string * string)) : option (nat * string) :=
  match a, b with
  | x :: a, y :: b =>
      if decide (x.1 <> y.1) then Some (i, "kind `" +:+ x.1 +:+ "` recorded, `" +:+ y.1 +:+ "` replayed")
      else if decide (x.2 <> y.2) then Some (i, describe_payload_diff x.1 x.2 y.2)
      else first_difference (S i) a b
  | _, _ => None
  end.
Definition diff_logs (recorded replayed : SnapshotReader) : result ReplayError DiffReport :=
  a ← comparable recorded;
  b ← comparable replayed;
  match first_difference 0 a b with
  | Some (i, m) => Ok {| df_identical := false; df_first_diff := Some (i, m); df_compared := i |}
  | None =>
      let compared := Nat.min (length a) (length b) in
      if decide (length a <> length b) then
        Ok {| df_identical := false;
              df_first_diff := Some (compared, "recorded has " +:+ show_nat (length a) +:+ " events, replayed has "
                +:+ show_nat (length b) +:+ " (after stripping)");
              df_compared := compared |}
      else Ok {| df_identical := true; df_first_diff := None; df_compared := compared |}
  end.

(** ** What the report says *)

Lemma first_difference_Some i a b j m : first_difference i a b = Some (j, m) ->
  exists n, j = (i + n)%nat /\ take n a = take n b /\ is_Some (a !! n) /\ is_Some (b !! n) /\ a !! n <> b !! n.
Proof.
  revert i b. induction a as [|x a IH]; intros i b; [done|]. destruct b as [|y b]; [done|]. simpl.
  case_decide as H1; [|case_decide as H2].
  - intros [= <- _]. exists 0%nat. simpl. rewrite Nat.add_0_r. split_and!; try done. intros [= ->]. done.
  - intros [= <- _]. exists 0%nat. simpl. rewrite Nat.add_0_r. split_and!; try done. intros [= ->]. done.
  - destruct x, y. simpl in *. subst.
    intros (n & -> & Ht & Ha & Hb & Hn)%IH. exists (S n). simpl. rewrite Ht. by split_and!; [lia|..].
Qed.
Lemma first_difference_None i a b : first_difference i a b = None ->
  take (Nat.min (length a) (length b)) a = take (Nat.min (length a) (length b)) b.
Proof.
  revert i b. induction a as [|x a IH]; intros i b; [done|]. destruct b as [|y b]; [done|]. simpl.
  case_decide as H1; [done|]. case_decide as H2; [done|]. destruct x, y. simpl in *. subst.
  intros ->%IH. done.
Qed.

(** ** Stripping keeps values exact *)

Lemma exact_update m k v : exact (JObj m) -> exact v -> exact (JObj (omap_insert k v m)).
Proof.
  intros Hm Hv. inversion Hm as [| | | | |? Hs Hf]; subst. constructor; [by apply omap_insert_sorted|].
  apply Forall_forall. intros x [-> |Hx]%omap_insert_elem; [done|]. rewrite Forall_forall in Hf. by apply Hf.
Qed.
Lemma exact_get m k v : exact (JObj m) -> omap_get k m = Some v -> exact v.
Proof.
  intros Hm Hg%omap_get_elem. inversion Hm as [| | | | |? Hs Hf]; subst. rewrite Forall_forall in Hf. by apply (Hf (k, v)).
Qed.
Lemma remove_path_exact parts v : exact v -> exact (remove_path parts v).
Proof.
  revert v. induction parts as [|part parts IH]; intros v Hv; [done|].
  destruct parts as [|p parts], v as [| | | | |m]; try done; [by apply (exact_remove part (JObj m))|].
  cbn [remove_path]. destruct (omap_get part m) as [x|] eqn:Hg; [|done].
  apply exact_update; [done|]. by eapply IH, exact_get.
Qed.
Lemma strip_exact k v : exact v -> exact (strip_volatile k v).
Proof.
  unfold strip_volatile. destruct (List.find _ _) as [[? fields]|]; [|done]. revert v.
  induction fields as [|f fields IH]; intros v Hv; [done|]. by apply IH, remove_path_exact.
Qed.

(** ** The comparable form *)

Definition events_exact (r : SnapshotReader) : Prop := Forall (fun e => exact (payload_value (ev_body e))) (sn_effective r).
(** Kinds and stripped payloads, in order: what a comparison is about. *)
Definition stripped (r : SnapshotReader) : list (string * json) := omap comparable_event (sn_effective r).
Definition bytes_of (kv : string * json) : string * string :=
  (kv.1, match canonical_json_value kv.2 with Ok s => s | Err _ => "" end).

Lemma stripped_exact r : events_exact r -> Forall (fun kv => exact kv.2) (stripped r).
Proof.
  unfold events_exact, stripped. rewrite !Forall_forall. intros H [k v] (e & He & Hc)%list_elem_of_omap.
  unfold comparable_event in Hc. case_match; [done|]. injection Hc as <- <-. by apply strip_exact, H.
Qed.
Lemma comparable_bytes r : events_exact r -> comparable r = Ok (bytes_of <$> stripped r).
Proof.
  intros H%stripped_exact. unfold comparable. fold (stripped r). apply mapR_Ok, Forall2_fmap_r, Forall_Forall2_diag.
  eapply Forall_impl; [exact H|]. intros [k v] Hv. unfold bytes_of. simpl.
  destruct (write_canonical_total v Hv) as [s Hs]. unfold canonical_json_value. by rewrite Hs.
Qed.
Lemma bytes_of_inj kv kv' : exact kv.2 -> exact kv'.2 -> bytes_of kv = bytes_of kv' -> kv = kv'.
Proof.
  destruct kv as [k v], kv' as [k' v']. unfold bytes_of, canonical_json_value. simpl. intros Hv Hv'.
  destruct (write_canonical_total v Hv) as [s Hs], (write_canonical_total v' Hv') as [s' Hs']. rewrite Hs, Hs'.
  intros [= <- <-]. destruct (cancels_all v v' s s "" "" Hv Hv' Hs Hs') as [-> _]; done.
Qed.
Lemma bytes_of_list_inj xs ys : Forall (fun kv => exact kv.2) xs -> Forall (fun kv => exact kv.2) ys ->
  bytes_of <$> xs = bytes_of <$> ys -> xs = ys.
Proof.
  intros Hx. revert ys. induction Hx as [|x xs Hx _ IH]; intros [|y ys] Hy; try done.
  apply Forall_cons in Hy as [Hy Hys]. intros [= Hb Hl]. f_equal; [apply bytes_of_inj; [done..|]|by apply IH].
  unfold bytes_of. by f_equal.
Qed.

(** comparing two logs whose payloads hold only exact numbers never fails, and answers
    [identical] exactly when the logs have the same sequence of kinds and payloads once the volatile kinds
    and fields are gone.  Otherwise the report points at the first place where
    the two sequences differ: everything before it agrees, and it counts what agrees. *)
Theorem diff_logs_finds_the_first_difference (recorded replayed : SnapshotReader) :
  events_exact recorded -> events_exact replayed ->
  exists report, diff_logs recorded replayed = Ok report /\
    (df_identical report = true <-> stripped recorded = stripped replayed) /\
    match df_first_diff report with
    | None => df_identical report = true /\ df_compared report = length (stripped recorded)
    | Some (i, _) =>
        df_compared report = i /\ take i (stripped recorded) = take i (stripped replayed) /\
        stripped recorded !! i <> stripped replayed !! i
    end.
Proof.
  intros Ha Hb. unfold diff_logs. rewrite !comparable_bytes by done. apply stripped_exact in Ha, Hb.
  set (xs := stripped recorded) in *. set (ys := stripped replayed) in *. cbn [mbind result_bind].
  assert (Htake : forall n, take n (bytes_of <$> xs) = take n (bytes_of <$> ys) -> take n xs = take n ys).
  { intros n. rewrite <- !fmap_take. apply bytes_of_list_inj; by apply Forall_take. }
  destruct (first_difference 0 _ _) as [[i m]|] eqn:Hd; [|rewrite !length_fmap; case_decide as Hl].
  - eexists. split; [done|]. simpl. apply first_difference_Some in Hd as (n & -> & Ht & _ & _ & Hn). simpl in *.
    rewrite !list_lookup_fmap in Hn. split_and!; [|done|by apply Htake|congruence].
    split; [done|]. intros Heq. by rewrite Heq in Hn.
  - eexists. split; [done|]. simpl. apply first_difference_None in Hd. rewrite !length_fmap in Hd. split_and!; [|done| |].
    + split; [done|]. intros Heq. by rewrite Heq in Hl.
    + by apply Htake.
    + intros Heq. destruct (decide (length xs < length ys)%nat) as [Hlt|Hlt].
      * rewrite Nat.min_l, (lookup_ge_None_2 xs) in Heq by lia. symmetry in Heq. apply lookup_ge_None in Heq. lia.
      * rewrite Nat.min_r, (lookup_ge_None_2 ys) in Heq by lia. apply lookup_ge_None in Heq. lia.
  - eexists. split; [done|]. simpl. apply first_difference_None in Hd. rewrite !length_fmap in Hd.
    apply Htake in Hd. rewrite <- Hl, Nat.min_id in *. rewrite (take_ge xs), (take_ge ys) in Hd by lia. done.
Qed.
End diff.

(** * The driver *)

Section driver.
Context {HP : Platform} {HJ : JsonText} {X L : Type} {HO : Outside X} {HL : EventLog L} {HA : ArtifactStore X}
  {HT : HasTracker X}.
Notation K := (Kernel X L).

Definition point_of (s : SessionStatus) : AppliedPoint :=
  match s with
  | Created => AtCreated
  | Idle => AtIdle
  | Suspended => AtSuspended
  | Failed => AtFailed
  | Running | Done => AtEndOfTurn
  end.

Definition matches (at_ : AppliedPoint) (turn : N) (i : ReplayInput) : bool :=
  match input_applied i with Some a => bool_decide (aa_at a = at_) && (aa_turn a =? turn)%N | None => false end.
Definition deliver (i : ReplayInput) : M K KernelError unit :=
  match i with
  | RiUserMessage _ message => fun k => enqueue_user_message message k
  | RiTaskUpdate _ update => fun k => deliver_task_update update k
  | RiUserAnswer _ _ => mret tt
  end.
(** [deliver_matching]: how many were delivered, and the rest of the queue.  What other threads push at the same
    time is seen at the next receive. *)
Fixpoint deliver_matching (at_ : AppliedPoint) (turn : N) (queue : list ReplayInput) :
    M K KernelError (nat * list ReplayInput) :=
  match queue with
  | next :: rest =>
      if matches at_ turn next then
        deliver next ;;
        nq ← deliver_matching at_ turn rest;
        mret (S nq.1, nq.2)
      else mret (0%nat, queue)
  | [] => mret (0%nat, [])
  end.

Definition stop_of (status : SessionStatus) (last_suspension : option Suspension) (last_error_class : option string)
    (k : K) : result ReplayError RunStop :=
  match status with
  | Idle => Ok StopIdle
  | Suspended =>
      let s := default {| su_pending_task_ids := []; su_in_process_wakers := 0; su_checkpoint_hash := k_checkpoint_hash k |}
                 last_suspension in
      Ok (StopSuspended {| su_pending_task_ids := sort_ids (tk_id <$> open_tasks (k_state k));
                           su_in_process_wakers := su_in_process_wakers s;
                           su_checkpoint_hash := k_checkpoint_hash k |})
  | Failed => Ok (StopFailed (default "unknown" last_error_class))
  | _ => Err (ReplayIncomplete "cassette has no input that starts the session")
  end.

(** [ReplayDriver::drive]'s loop; [None]: still going when the fuel is gone. *)
Fixpoint drive_loop (sh : Shared X) (fuel : nat) (queue : list ReplayInput) (last_suspension : option Suspension)
    (last_error_class : option string) : M K ReplayError (option RunStop) :=
  match fuel with
  | O => mret None
  | S fuel =>
      modify (fun k => set_ext (track (k_checkpoint_hash k) (k_ext k)) k) ;;
      status ← get_status;
      match status with
      | Done => throw (ReplayKernel KernelDone)
      | Running =>
          turn ← gets (fun k => next_turn (st_turn (k_state k)));
          nq ← conv ReplayKernel (deliver_matching AtEndOfTurn turn queue);
          o ← conv ReplayKernel (run_turn sh);
          match o with
          | TurnSuspended s => drive_loop sh fuel nq.2 (Some s) last_error_class
          | TurnFailed c => drive_loop sh fuel nq.2 last_suspension (Some c)
          | _ => drive_loop sh fuel nq.2 last_suspension last_error_class
          end
      | _ =>
          turn ← gets (fun k => st_turn (k_state k));
          nq ← conv ReplayKernel (deliver_matching (point_of status) turn queue);
          if (0 <? nq.1)%nat then
            _ ← conv ReplayKernel apply_queued_input;
            drive_loop sh fuel nq.2 last_suspension last_error_class
          else
            k ← gets (fun k => k);
            stop ← lift (stop_of status last_suspension last_error_class k);
            match nq.2 with
            | [] => mret (Some stop)
            | _ => throw (EarlyStop stop)
            end
      end
  end.
Definition is_applied (i : ReplayInput) : bool := match input_applied i with Some _ => true | None => false end.
Definition drive (c : Cassette) (sh : Shared X) (fuel : nat) : M K ReplayError (option RunStop) :=
  drive_loop sh fuel (List.filter is_applied (ca_inputs c)) None None.

(** ** The driver as a step relation *)

Definition inbound_of (i : ReplayInput) : option Inbound :=
  match i with
  | RiUserMessage _ m => Some (InUserMessage m)
  | RiTaskUpdate _ u => Some (InTaskUpdate u)
  | RiUserAnswer _ _ => None
  end.
(** The input was recorded where the session now is: the kernel that recorded it stamps an input with
    the status it is applied from ([Kernel.applied_point]) and its turn; an input of a running
    session is applied at the end of the turn that comes. *)
Definition due (k : K) (i : ReplayInput) : Prop :=
  let s := st_session_status (k_state k) in
  input_applied i = Some {| aa_turn := if decide (s = Running) then next_turn (st_turn (k_state k)) else st_turn (k_state k);
                            aa_at := applied_point s |}.
Definition tracking (k : K) : K := set_ext (track (k_checkpoint_hash k) (k_ext k)) k.
(** [d] is the longest prefix of [queue] that is due at [k], [rest] what follows it, and the kernel
    differs by the inbox only, which has [d] at its end. *)
Definition delivered (queue d rest : list ReplayInput) (k k' : K) : Prop :=
  queue = d ++ rest /\ Forall (due k) d /\ match rest with i :: _ => ~ due k i | [] => True end /\
  k' = set_inbox (k_inbox k ++ omap inbound_of d) (tracking k).

Lemma set_inbox_same (k : K) : set_inbox (k_inbox k) k = k.
Proof. by destruct k. Qed.
Lemma matches_iff at_ turn i : matches at_ turn i = true <-> input_applied i = Some {| aa_turn := turn; aa_at := at_ |}.
Proof.
  unfold matches. destruct (input_applied i) as [[t p]|]; [|done]. simpl. rewrite andb_true_iff, bool_decide_eq_true, N.eqb_eq.
  split; [by intros [-> ->]|by intros [= -> ->]].
Qed.
Lemma deliver_ok i (k k' : K) u : deliver i k = (k', Ok u) -> k' = set_inbox (k_inbox k ++ option_list (inbound_of i)) k.
Proof.
  destruct i as [a m|a t|q a]; simpl; [unfold enqueue_user_message|unfold deliver_task_update|].
  - by case_decide; intros [= <-].
  - by destruct (k_mirror k); intros [= <-].
  - intros [= <- _]. by rewrite app_nil_r, set_inbox_same.
Qed.
Lemma deliver_matching_spec at_ turn queue (k k' : K) n rest :
  deliver_matching at_ turn queue k = (k', Ok (n, rest)) ->
  exists d, n = length d /\ queue = d ++ rest /\ Forall (fun i => matches at_ turn i = true) d /\
    match rest with i :: _ => matches at_ turn i = false | [] => True end /\
    k' = set_inbox (k_inbox k ++ omap inbound_of d) k.
Proof.
  revert k n rest. induction queue as [|i queue IH]; intros k n rest; simpl.
  - intros [= <- <- <-]. exists []. simpl. by rewrite app_nil_r, set_inbox_same.
  - destruct (matches at_ turn i) eqn:Hm.
    + intros ([] & k1 & H1 & Hr)%bind_ok. apply bind_ok in Hr as ([n' rest'] & k2 & H2 & [= <- <- <-]).
      apply deliver_ok in H1 as ->. apply IH in H2 as (d & -> & -> & Hd & Hr & ->). exists (i :: d). split; [done|].
      split_and!; [done|by constructor|done|]. simpl.
      by destruct (inbound_of i); simpl; rewrite ?app_nil_r, <- ?app_assoc.
    + intros [= <- <- <-]. exists []. simpl. by rewrite app_nil_r, set_inbox_same.
Qed.
(** Where [drive_loop] delivers. *)
Lemma deliver_due at_ turn queue (k k' : K) n rest :
  (forall i, matches at_ turn i = true <-> due k i) ->
  deliver_matching at_ turn queue (tracking k) = (k', Ok (n, rest)) -> exists d, n = length d /\ delivered queue d rest k k'.
Proof.
  intros Hm (d & -> & -> & Hd & Hr & ->)%deliver_matching_spec. exists d. split; [done|]. split_and!; [done| | |done].
  - eapply Forall_impl; [exact Hd|]. intros i. by rewrite Hm.
  - destruct rest as [|i rest]; [done|]. by rewrite <- Hm, Hr.
Qed.
Lemma due_running (k : K) i : st_session_status (k_state k) = Running ->
  matches AtEndOfTurn (next_turn (st_turn (k_state k))) i = true <-> due k i.
Proof. intros Hs. unfold due. by rewrite matches_iff, Hs, decide_True. Qed.
Lemma due_resting (k : K) i : st_session_status (k_state k) <> Running ->
  matches (point_of (st_session_status (k_state k))) (st_turn (k_state k)) i = true <-> due k i.
Proof. intros Hs. unfold due. rewrite matches_iff, decide_False by done. by destruct (st_session_status (k_state k)). Qed.

(** [driven sh n queue rest k k']: [n] rounds of the drive. *)
Inductive driven (sh : Shared X) : nat -> list ReplayInput -> list ReplayInput -> K -> K -> Prop :=
  | driven_refl queue k : driven sh 0 queue queue k k
  | driven_turn n queue d rest rest' k k1 k2 k3 o :
      st_session_status (k_state k) = Running -> delivered queue d rest k k1 ->
      run_turn sh k1 = (k2, Ok o) -> driven sh n rest rest' k2 k3 -> driven sh (S n) queue rest' k k3
  | driven_input n queue d rest rest' k k1 k2 k3 b :
      d <> [] -> delivered queue d rest k k1 ->
      apply_queued_input k1 = (k2, Ok b) -> driven sh n rest rest' k2 k3 -> driven sh (S n) queue rest' k k3.

(** The kernel is at rest, and [stop] says how. *)
Definition rests (stop : RunStop) (k : K) : Prop :=
  match stop with
  | StopIdle => st_session_status (k_state k) = Idle
  | StopSuspended s =>
      st_session_status (k_state k) = Suspended /\ su_checkpoint_hash s = k_checkpoint_hash k /\
      su_pending_task_ids s = sort_ids (tk_id <$> open_tasks (k_state k))
  | StopFailed _ => st_session_status (k_state k) = Failed
  | StopDone => False
  end.
Lemma stop_of_rests ls le (k : K) stop : stop_of (st_session_status (k_state k)) ls le k = Ok stop -> rests stop k.
Proof. destruct (st_session_status (k_state k)) eqn:Hs; intros [= <-]; done. Qed.
Lemma stop_of_err ls le (k : K) e : stop_of (st_session_status (k_state k)) ls le k = Err e ->
  st_session_status (k_state k) <> Done -> st_session_status (k_state k) <> Running ->
  st_session_status (k_state k) = Created /\ exists m, e = ReplayIncomplete m.
Proof. destruct (st_session_status (k_state k)) eqn:Hs; intros [= <-] ??; try done. split; [done|by eexists]. Qed.

(** The next round from [k] fails with the kernel's error [e]: the session is over, an input due is
    refused, or the turn or the batch that the delivered inputs call for fails. *)
Definition round_fails (sh : Shared X) (queue : list ReplayInput) (k k' : K) (e : KernelError) : Prop :=
  (st_session_status (k_state k) = Done /\ e = KernelDone /\ k' = tracking k) \/
  (exists before i rest k1, queue = before ++ i :: rest /\ Forall (due k) (before ++ [i]) /\
     deliver i k1 = (k', Err e)) \/
  (exists d rest k1, delivered queue d rest k k1 /\
     (if decide (st_session_status (k_state k) = Running) then run_turn sh k1 = (k', Err e)
      else d <> [] /\ apply_queued_input k1 = (k', Err e))).

(** How a drive from [queue] may end: at rest with nothing left; early, at rest with an input left that
    is not due there; without a start, the session still [Created] and the next input not due; with
    an error of the kernel; or still going after [fuel] rounds. *)
Definition drive_result (sh : Shared X) (fuel : nat) (queue : list ReplayInput) (k k' : K)
    (r : result ReplayError (option RunStop)) : Prop :=
  match r with
  | Ok (Some stop) => exists n k1, driven sh n queue [] k k1 /\ (n < fuel)%nat /\ k' = tracking k1 /\ rests stop k'
  | Ok None => exists rest, driven sh fuel queue rest k k'
  | Err (EarlyStop stop) =>
      exists n k1 i rest, driven sh n queue (i :: rest) k k1 /\ (n < fuel)%nat /\ k' = tracking k1 /\ rests stop k' /\
        ~ due k' i
  | Err (ReplayIncomplete _) =>
      exists n k1 rest, driven sh n queue rest k k1 /\ (n < fuel)%nat /\ k' = tracking k1 /\
        st_session_status (k_state k') = Created /\ match rest with i :: _ => ~ due k' i | [] => True end
  | Err (ReplayKernel e) => exists n k1 rest, driven sh n queue rest k k1 /\ (n < fuel)%nat /\ round_fails sh rest k1 k' e
  | Err _ => False
  end.
Lemma drive_result_step sh fuel queue rest k k1 k' r :
  (forall n rest' k3, driven sh n rest rest' k1 k3 -> driven sh (S n) queue rest' k k3) ->
  drive_result sh fuel rest k1 k' r -> drive_result sh (S fuel) queue k k' r.
Proof.
  intros H. destruct r as [[stop|]|[]]; simpl; try done.
  - intros (n & k2 & Hd & Hn & ?). exists (S n), k2. split; [by apply H|]. split; [lia|done].
  - intros (l & Hd). exists l. by apply H.
  - intros (n & k2 & l & Hd & Hn & ?). exists (S n), k2, l. split; [by apply H|]. split; [lia|done].
  - intros (n & k2 & i & l & Hd & Hn & ?). exists (S n), k2, i, l. split; [by apply H|]. split; [lia|done].
  - intros (n & k2 & l & Hd & Hn & ?). exists (S n), k2, l. split; [by apply H|]. split; [lia|done].
Qed.
Lemma drive_fails sh fuel queue k k' e : round_fails sh queue k k' e -> drive_result sh (S fuel) queue k k' (Err (ReplayKernel e)).
Proof. intros H. exists 0%nat, k, queue. split_and!; [constructor|lia|done]. Qed.
Lemma deliver_matching_fails at_ turn queue (k k' : K) e : deliver_matching at_ turn queue k = (k', Err e) ->
  exists before i rest k1, queue = before ++ i :: rest /\ Forall (fun i => matches at_ turn i = true) (before ++ [i]) /\
    deliver i k1 = (k', Err e).
Proof.
  revert k. induction queue as [|i queue IH]; intros k; simpl; [done|]. destruct (matches at_ turn i) eqn:Hm; [|done].
  intros [(e0 & H1 & [= <-])|([] & k1 & H1 & Hr)]%bind_inv; [by exists [], i, queue, k; split_and!; [|constructor|]|].
  apply bind_inv in Hr as [(e0 & H2 & [= <-])|([n l] & k2 & H2 & Hr)]; [|done].
  apply IH in H2 as (before & j & rest & k2 & -> & Hf & Hj). exists (i :: before), j, rest, k2.
  split_and!; [done|by constructor|done].
Qed.
Lemma deliver_fails sh at_ turn queue (k k' : K) e : (forall i, matches at_ turn i = true <-> due k i) ->
  deliver_matching at_ turn queue (tracking k) = (k', Err e) -> round_fails sh queue k k' e.
Proof.
  intros Hm (before & i & rest & k1 & Hq & Hf & Hd)%deliver_matching_fails. right; left. exists before, i, rest, k1.
  split_and!; [done| |done]. eapply Forall_impl; [exact Hf|]. intros j. by rewrite Hm.
Qed.
Lemma driver_call {A B} (m : M K KernelError A) (f : A -> M K ReplayError B) (k k' : K) r :
  (conv ReplayKernel m ≫= f) k = (k', r) ->
  (exists e, m k = (k', Err e) /\ r = Err (ReplayKernel e)) \/ (exists a k1, m k = (k1, Ok a) /\ f a k1 = (k', r)).
Proof.
  intros [(e & Hm & ->)|(a & k1 & Hm & Hf)]%bind_inv; unfold conv in Hm; destruct (m k) as [k2 [a'|e']]; simpl in Hm;
    simplify_eq; [by left; eexists|by right; eexists _, _].
Qed.
(** At rest with nothing delivered: the drive ends. *)
Lemma drive_end sh fuel (queue : list ReplayInput) ls le (k k' : K) r :
  st_session_status (k_state k) <> Done -> st_session_status (k_state k) <> Running ->
  match queue with i :: _ => ~ due k i | [] => True end ->
  (stop ← lift (stop_of (st_session_status (k_state k)) ls le (tracking k));
   match queue with [] => mret (Some stop) | _ => throw (EarlyStop stop) end) (tracking k) = (k', r) ->
  drive_result sh (S fuel) queue k k' r.
Proof.
  intros Hd Hr Hq [(e & [= <- Hl] & ->)|(stop & k1 & [= <- Hl] & Hr')]%bind_inv.
  - apply (stop_of_err _ _ (tracking k)) in Hl as [Hs [m ->]]; [|done..]. exists 0%nat, k, queue. split_and!; try done; [constructor|lia].
  - apply (stop_of_rests _ _ (tracking k)) in Hl.
    destruct queue as [|i rest]; injection Hr' as <- <-; [exists 0%nat, k|exists 0%nat, k, i, rest]; split_and!; try done;
      solve [constructor | lia].
Qed.

Lemma drive_loop_result sh fuel queue ls le (k k' : K) r :
  drive_loop sh fuel queue ls le k = (k', r) -> drive_result sh fuel queue k k' r.
Proof.
  revert queue ls le k k' r. induction fuel as [|fuel IH]; intros queue ls le k k' r; [intros [= <- <-]; eexists; constructor|].
  cbn [drive_loop]. rewrite bind_eq. unfold modify at 1. fold (tracking k). rewrite bind_eq. unfold get_status, gets at 1.
  change (st_session_status (k_state (tracking k))) with (st_session_status (k_state k)).
  destruct (decide (st_session_status (k_state k) = Done)) as [Hdone|Hdone].
  { rewrite Hdone. intros [= <- <-]. apply drive_fails. by left. }
  destruct (decide (st_session_status (k_state k) = Running)) as [Hrun|Hrun].
  { rewrite Hrun, bind_eq. unfold gets at 1. pose proof (fun i => due_running k i Hrun) as Hm.
    intros [(e & H1 & ->)|([n rest] & k1 & H1 & Hr)]%driver_call; [by eapply drive_fails, deliver_fails|].
    apply deliver_due in H1 as (d & -> & Hd); [|done].
    apply driver_call in Hr as [(e & H2 & ->)|(o & k2 & H2 & Hr)].
    - apply drive_fails. right; right. exists d, rest, k1. by rewrite decide_True.
    - apply (drive_result_step sh fuel queue rest k k2); [|by destruct o; eapply IH].
      intros n rest' k3 H3. by eapply driven_turn. }
  pose proof (fun i => due_resting k i Hrun) as Hm.
  assert (Hgo : (turn ← gets (fun k => st_turn (k_state k));
    nq ← conv ReplayKernel (deliver_matching (point_of (st_session_status (k_state k))) turn queue);
    if (0 <? nq.1)%nat then _ ← conv ReplayKernel apply_queued_input; drive_loop sh fuel nq.2 ls le
    else k0 ← gets (fun k => k); stop ← lift (stop_of (st_session_status (k_state k)) ls le k0);
         match nq.2 with [] => mret (Some stop) | _ => throw (EarlyStop stop) end) (tracking k) = (k', r) ->
    drive_result sh (S fuel) queue k k' r).
  { rewrite bind_eq. unfold gets at 1. intros [(e & H1 & ->)|([n rest] & k1 & H1 & Hr)]%driver_call; [by eapply drive_fails, deliver_fails|].
    apply deliver_due in H1 as (d & -> & Hd); [|done]. destruct d as [|i d]; cbn [fst snd length Nat.ltb Nat.leb] in Hr.
    - destruct Hd as (-> & _ & Hq & ->). cbn [omap list_omap] in Hr. rewrite app_nil_r in Hr.
      rewrite (set_inbox_same (tracking k) : set_inbox (k_inbox k) (tracking k) = tracking k), bind_eq in Hr. unfold gets at 1 in Hr.
      by apply (drive_end sh fuel rest ls le).
    - apply driver_call in Hr as [(e & H2 & ->)|(o & k2 & H2 & Hr)].
      + apply drive_fails. right; right. exists (i :: d), rest, k1. by rewrite decide_False.
      + apply (drive_result_step sh fuel queue rest k k2); [|by eapply IH].
        intros n rest' k3 H3. by eapply (driven_input _ _ _ (i :: d)). }
  revert Hgo. by destruct (st_session_status (k_state k)).
Qed.

(** C34: replaying delivers the recorded inputs in their recorded order, each when the session is in
    the status and at the turn that the recording kernel stamped it with, with one turn or one
    batch of inputs between deliveries.  A drive that answers with a stop has delivered every
    input and leaves the session in the status the stop names, with the open tasks and the
    checkpoint it reports.  Otherwise the next input left was not recorded where the session came
    to rest (an early stop, naming that rest), or the session was never started, or the kernel
    refused an input, a turn or a batch, or the session was over.  Fuel bounds the rounds only:
    the drive is unfinished exactly when it has made that many. *)
Theorem drive_delivers_the_recording (sh : Shared X) (c : Cassette) (fuel : nat) (k k' : K) r :
  drive c sh fuel k = (k', r) -> drive_result sh fuel (List.filter is_applied (ca_inputs c)) k k' r.
Proof. apply drive_loop_result. Qed.
End driver.

(** * A session recorded and replayed *)

#[local] Existing Instance toy_platform.
#[local] Existing Instance wit_clock.
#[local] Existing Instance toy_json.
#[export] Instance script_tracker : HasTracker script := {| tracked _ := None; track _ x := x |}.

Definition wit_hello : Message := {| msg_role := RoleUser; msg_content := [Text "hello"] |}.
Definition wit_rest : Kernel script MemoryEventLog := wit_kernel_at (with_status Idle wit_state) [].
Definition wit_live : Shared script := wit_shared (Ok (wit_response [Text "hi there"])) [].
Definition wit_recorded : Kernel script MemoryEventLog :=
  (run wit_live 5 (push_inbound (InUserMessage wit_hello) wit_rest)).1.
Definition wit_cassette : Cassette :=
  match from_log (reader (k_log wit_recorded)) with Ok c => c | Err _ => empty_cassette "" end.
Definition wit_replaying : Shared script :=
  {| sh_session_id := sh_session_id wit_live; sh_memory_name := sh_memory_name wit_live; sh_sandbox := sh_sandbox wit_live;
     sh_provider := replay_provider wit_cassette; sh_registry := sh_registry wit_live; sh_chain := sh_chain wit_live;
     sh_profiles := sh_profiles wit_live; sh_spill := sh_spill wit_live; sh_retry := sh_retry wit_live;
     sh_limits := sh_limits wit_live; sh_model_id := sh_model_id wit_live; sh_model_params := sh_model_params wit_live;
     sh_system_prompt := sh_system_prompt wit_live; sh_grants := sh_grants wit_live; sh_delta_sink := sh_delta_sink wit_live |}.
Definition wit_drive := drive wit_cassette wit_replaying 5 wit_rest.

(** The recording replays to its end, and to the same log. *)
Definition ends_at_rest : bool := match wit_drive.2 with Ok (Some _) => true | _ => false end.
Lemma drive_delivers_the_recording_witness :
  ends_at_rest = true /\
  drive_result wit_replaying 5 (List.filter is_applied (ca_inputs wit_cassette)) wit_rest wit_drive.1 wit_drive.2.
Proof.
  split; [lazy; reflexivity|].
  apply (drive_delivers_the_recording wit_replaying wit_cassette 5 wit_rest wit_drive.1 wit_drive.2).
  unfold wit_drive. apply surjective_pairing.
Defined.

(** Deciding [exact]. *)
Definition exact_numberb (n : number) : bool :=
  match n with
  | PosInt u => (u <=? SAFE)%N
  | NegInt i => (i <? 0)%Z && (Z.abs i <=? Z.of_N SAFE)%Z
  | Float _ => false
  end.
Fixpoint sortedb (m : list (string * json)) : bool :=
  match m with
  | kv :: ((kv' :: _) as rest) => match cmp kv.1 kv'.1 with Lt => sortedb rest | _ => false end
  | _ => true
  end.
Fixpoint exactb (v : json) : bool :=
  match v with
  | JNum n => exact_numberb n
  | JArr l => forallb exactb l
  | JObj m => sortedb m && forallb (fun kv => exactb kv.2) m
  | _ => true
  end.
Lemma sortedb_ok m : sortedb m = true -> omap_sorted m.
Proof.
  intros H. apply Sorted_StronglySorted.
  { intros x y z. apply cmp_trans. }
  induction m as [|kv [|kv' m] IH]; [constructor|by repeat constructor|]. cbn [sortedb] in H.
  destruct (cmp kv.1 kv'.1) eqn:Hc; try done. constructor; [by apply IH|by constructor].
Qed.
Lemma exactb_ok v : exactb v = true -> exact v.
Proof.
  induction v as [| |n| |l IH|m IH] using json_ind_strong; simpl; try (by constructor).
  - intros H. constructor. destruct n as [u|i|f]; simpl in *; [by apply N.leb_le| |done].
    apply andb_true_iff in H as [Hn Ha]. apply Z.ltb_lt in Hn. apply Z.leb_le in Ha. done.
  - intros H. constructor. rewrite forallb_forall in H. rewrite Forall_forall in IH |- *.
    intros x Hx. apply IH; [done|]. by apply H, list_elem_of_In.
  - intros [Hs H]%andb_true_iff. constructor; [by apply sortedb_ok|]. rewrite forallb_forall in H. rewrite Forall_forall in IH |- *.
    intros x Hx. apply IH; [done|]. by apply H, list_elem_of_In.
Qed.
Definition events_exactb (r : SnapshotReader) : bool := forallb (fun e => exactb (payload_value (ev_body e))) (sn_effective r).
Lemma events_exactb_ok r : events_exactb r = true -> events_exact r.
Proof.
  unfold events_exactb, events_exact. rewrite forallb_forall, Forall_forall. intros H e He.
  by apply exactb_ok, H, list_elem_of_In.
Qed.

Definition wit_log_recorded : SnapshotReader := reader (k_log wit_recorded).
Definition wit_log_replayed : SnapshotReader := reader (k_log wit_drive.1).
Definition reported_identical : bool :=
  match diff_logs wit_log_recorded wit_log_replayed with Ok r => df_identical r | Err _ => false end.
Lemma diff_logs_finds_the_first_difference_witness :
  reported_identical = true /\
  exists report, diff_logs wit_log_recorded wit_log_replayed = Ok report /\
    (df_identical report = true <-> stripped wit_log_recorded = stripped wit_log_replayed).
Proof.
  split; [lazy; reflexivity|].
  assert (Hx : events_exact wit_log_recorded) by (apply events_exactb_ok; lazy; reflexivity).
  assert (Hx' : events_exact wit_log_replayed) by (apply events_exactb_ok; lazy; reflexivity).
  destruct (diff_logs_finds_the_first_difference _ _ Hx Hx') as (report & Hd & Hi & _).
  exists report. split; [exact Hd|exact Hi].
Defined.
