(* ===== verification/CassetteFile.v ===== *)
(** The file form of a cassette ([replay/mod.rs]): its derived serialization, with the keyed maps as
    arrays of entries and the inputs tagged by kind, and [write_to] and [read_from]. *)

From Stdlib Require Import Floats.SpecFloat.
From S2P Require Import Prelude Ord Str Capability Json Strict Codec Data Event Log FileLog Outside Registry Kernel Cassette Replay.

Open Scope string_scope.
Open Scope list_scope.

(** * Serialization *)

(** [keyed_map]: a map with structured keys is a sequence of entries. *)
Section keyed_map.
Context {V : Type} (c : codec V).
Definition Entry_fields : fcodec (CassetteKey * V) := fiso
  (fun '(checkpoint, (request, v)) => ({| ck_checkpoint_hash := checkpoint; ck_request_hash := request |}, v))
  (fun e => (ck_checkpoint_hash e.1, (ck_request_hash e.1, e.2)))
  (freq "checkpoint_hash" cstr
   ⊗ freq "request_hash" cstr
   ⊗ freq "value" c).
Definition Entry_codec : codec (CassetteKey * V) := struct Entry_fields.
Definition keyed_map : codec (list (CassetteKey * V)) := {|
  enc m := enc (clist Entry_codec) m;
  dec j := omap_of_list <$> dec (clist Entry_codec) j;
  valid m := omap_sorted m /\ valid (clist Entry_codec) m
|}.
#[export] Instance Entry_codec_ok : CodecOk c -> CodecOk Entry_codec.
Proof.
  intros Hc. apply struct_ok; [|apply (bool_decide_unpack _); lazy; exact I].
  apply fiso_ok; [by intros [[] v]|apply _].
Qed.
#[export] Instance keyed_map_ok : CodecOk c -> CodecOk keyed_map.
Proof. intros Hc m [Hs Hv]. cbn [enc dec keyed_map]. rewrite (dec_enc _ Hv). cbn. by rewrite omap_of_sorted. Qed.
End keyed_map.

(** An internally tagged variant with fields. *)
Definition enc_variant {A} (tag : string) (f : fcodec A) (a : A) : json := jobj (fenc (freq "input" cstr ⊗ f) (tag, a)).
Definition tag_of (j : json) : option string := jget "input" j ≫= as_str.
Definition dec_variant {A} (f : fcodec A) (j : json) : option A := match j with JObj m => fdec f m | _ => None end.
Lemma variant_read_back {A} tag (f : fcodec A) (a : A) :
  FOk f -> NoDup ("input" :: fnames f) -> fvalid f a ->
  tag_of (enc_variant tag f a) = Some tag /\ dec_variant f (enc_variant tag f a) = Some a.
Proof.
  intros Hf Hn Ha. assert (Hok : CodecOk (struct (freq "input" cstr ⊗ f))) by (apply struct_ok; [apply _|done]).
  specialize (Hok (tag, a) (conj I Ha)). unfold tag_of, dec_variant, enc_variant. cbn [struct enc dec] in Hok.
  destruct (jobj _) as [| | | | |m]; try done. cbn [fdec freq fpair jget as_object mbind option_bind] in Hok |- *.
  destruct (omap_get "input" m) as [t|]; [|done]. cbn [mbind option_bind] in Hok |- *.
  destruct (dec cstr t) as [t'|] eqn:Ht; [|done]. cbn [mbind option_bind] in Hok. change (as_str t = Some t') in Ht.
  destruct (fdec f m) as [a'|]; [|done]. cbn in Hok. injection Hok as -> ->. by rewrite Ht.
Qed.

Definition UserMessage_fields : fcodec (AppliedAt * Message) := freq "applied" AppliedAt_codec ⊗ freq "message" Message_codec.
Definition TaskUpdateInput_fields : fcodec (AppliedAt * TaskUpdate) :=
  freq "applied" AppliedAt_codec ⊗ freq "update" TaskUpdate_codec.
Definition UserAnswerInput_fields : fcodec (string * UserAnswer) := freq "question_id" cstr ⊗ freq "answer" UserAnswer_codec.
Definition ReplayInput_codec : codec ReplayInput := {|
  enc i := match i with
           | RiUserMessage a m => enc_variant "user_message" UserMessage_fields (a, m)
           | RiTaskUpdate a u => enc_variant "task_update" TaskUpdateInput_fields (a, u)
           | RiUserAnswer q a => enc_variant "user_answer" UserAnswerInput_fields (q, a)
           end;
  dec j :=
    tag ← tag_of j;
    if decide (tag = "user_message") then (fun x => RiUserMessage x.1 x.2) <$> dec_variant UserMessage_fields j
    else if decide (tag = "task_update") then (fun x => RiTaskUpdate x.1 x.2) <$> dec_variant TaskUpdateInput_fields j
    else if decide (tag = "user_answer") then (fun x => RiUserAnswer x.1 x.2) <$> dec_variant UserAnswerInput_fields j
    else None;
  valid i := match i with
             | RiUserMessage a m => fvalid UserMessage_fields (a, m)
             | RiTaskUpdate a u => fvalid TaskUpdateInput_fields (a, u)
             | RiUserAnswer q a => fvalid UserAnswerInput_fields (q, a)
             end
|}.
#[export] Instance ReplayInput_codec_ok : CodecOk ReplayInput_codec.
Proof.
  intros [a m|a u|q a] Hv; cbn [valid ReplayInput_codec] in Hv; cbn [enc dec ReplayInput_codec].
  - destruct (variant_read_back "user_message" UserMessage_fields (a, m)) as [Ht Hd];
      [unfold UserMessage_fields; apply _|apply (bool_decide_unpack _); lazy; exact I|done|]. rewrite Ht. cbn [mbind option_bind].
    rewrite decide_True by done. by rewrite Hd.
  - destruct (variant_read_back "task_update" TaskUpdateInput_fields (a, u)) as [Ht Hd];
      [unfold TaskUpdateInput_fields; apply _|apply (bool_decide_unpack _); lazy; exact I|done|]. rewrite Ht. cbn [mbind option_bind].
    rewrite decide_False, decide_True by done. by rewrite Hd.
  - destruct (variant_read_back "user_answer" UserAnswerInput_fields (q, a)) as [Ht Hd];
      [unfold UserAnswerInput_fields; apply _|apply (bool_decide_unpack _); lazy; exact I|done|]. rewrite Ht. cbn [mbind option_bind].
    rewrite !decide_False, decide_True by done. by rewrite Hd.
Qed.

Definition Cassette_fields : fcodec Cassette := fiso
  (fun '(x1, (x2, (x3, x4))) => Build_Cassette x1 x2 x3 x4)
  (fun r => (r.(ca_session_id), (r.(ca_model), (r.(ca_tools), r.(ca_inputs)))))
  (freq "session_id" cstr
   ⊗ freq "model" (keyed_map ModelResponse_codec)
   ⊗ freq "tools" (keyed_map ToolOutput_codec)
   ⊗ freq "inputs" (clist ReplayInput_codec)).
Definition Cassette_codec : codec Cassette := struct Cassette_fields.
#[export] Instance Cassette_codec_ok : CodecOk Cassette_codec.
Proof. unfold Cassette_codec, Cassette_fields. apply _. Qed.

(** * Files *)

(** [std::fs] on whole files, and [serde_json::to_vec_pretty]. *)
Class PlainFiles (X : Type) : Type := {
  fs_write : string -> string -> X -> X * result string unit;
  fs_read : string -> X -> result string string
}.
Class PlainFilesLaws (X : Type) `{PlainFiles X} : Prop := {
  fs_read_written path bytes x x' : fs_write path bytes x = (x', Ok tt) -> fs_read path x' = Ok bytes
}.
Class PrettyText : Type := to_pretty : json -> string.
Class PrettyTextLaws `{PrettyText, JsonText} : Prop := {
  pretty_read v : holdable v -> from_str_json (to_pretty v) = Ok v
}.

Section files.
Context {HJ : JsonText} {HT : PrettyText} {X : Type} {HF : PlainFiles X}.
(** [Cassette::write_to]; a cassette serializes, so [to_vec_pretty] does not fail. *)
Definition write_to (path : string) (c : Cassette) (x : X) : X * result ReplayError unit :=
  let '(x, r) := fs_write path (to_pretty (enc Cassette_codec c)) x in (x, map_err ReplayIo r).
(** [Cassette::read_from]; the error of a value of another shape is the parser's. *)
Definition read_from (wrong_shape : json -> string) (path : string) (x : X) : result ReplayError Cassette :=
  bytes ← map_err ReplayIo (fs_read path x);
  j ← map_err ReplayIo (from_str_json bytes);
  ok_or (ReplayIo (wrong_shape j)) (dec Cassette_codec j).

(** a cassette that was written to a file is read back as it was: every answer of the model
    and of the tools under its key, and every input in order.  Its values must be ones the codecs
    hold exactly (whole seconds, integers of their width). *)
Theorem cassette_read_back `{!PlainFilesLaws X, !PrettyTextLaws} wrong_shape path c (x x' : X) :
  valid Cassette_codec c -> holdable (enc Cassette_codec c) ->
  write_to path c x = (x', Ok tt) -> read_from wrong_shape path x' = Ok c.
Proof.
  intros Hv Hh. unfold write_to, read_from. destruct (fs_write _ _ x) as [x1 [[]|e]] eqn:Hw; [|done]. intros [= <-].
  rewrite (fs_read_written _ _ _ _ Hw). cbn [map_err mbind result_bind]. rewrite (pretty_read _ Hh). cbn [map_err mbind result_bind].
  by rewrite (dec_enc _ Hv).
Qed.
End files.

(** ** A witness *)

(** A system of one file, and a text that is read back: the number that stands for a value. *)
Definition num_text_json : JsonText := {| to_string := num_text; from_str_json s := ok_or "not a value" (num_read s) |}.
Definition num_pretty : PrettyText := num_text.
Definition one_file : PlainFiles string := {| fs_write path bytes x := (bytes, Ok tt); fs_read path x := Ok x |}.
Lemma one_file_laws : @PlainFilesLaws string one_file.
Proof. split. by intros path bytes x x' [= <-]. Qed.
Lemma num_pretty_laws : @PrettyTextLaws num_pretty num_text_json.
Proof. split. intros v _. cbn. unfold to_pretty, num_pretty. by rewrite num_read_text. Qed.

Lemma one_file_writes path c x :
  @write_to num_pretty string one_file path c x = ((@write_to num_pretty string one_file path c x).1, Ok tt).
Proof. done. Qed.

(** The cassette of the session that Replay.v records. *)
Definition recorded_cassette : Cassette := Eval vm_compute in wit_cassette.
Lemma recorded_cassette_valid : valid Cassette_codec recorded_cassette.
Proof.
  split; [exact I|]. unfold recorded_cassette. cbn [ca_session_id ca_model ca_tools ca_inputs Cassette_fields fiso fpair freq fst snd].
  split; [|split].
  - split; [repeat constructor|]. constructor; [|constructor]. cbn -[N.pow N.lt]. split_and!; first [done|repeat constructor].
  - split; constructor.
  - constructor; [|constructor]. cbn -[N.pow N.lt]. split_and!; first [done|repeat constructor].
Qed.
Lemma recorded_cassette_holdable : holdable (enc Cassette_codec recorded_cassette).
Proof. vm_compute. repeat constructor. Qed.
Lemma cassette_read_back_witness : length (ca_model recorded_cassette) = 1%nat /\ length (ca_inputs recorded_cassette) = 1%nat /\
  @read_from num_text_json string one_file (fun _ => "another shape") "/c.json"
    (@write_to num_pretty string one_file "/c.json" recorded_cassette "").1 = Ok recorded_cassette.
Proof.
  split; [reflexivity|]. split; [reflexivity|].
  exact (@cassette_read_back num_text_json num_pretty string one_file one_file_laws num_pretty_laws
    (fun _ => "another shape") "/c.json" recorded_cassette "" _ recorded_cassette_valid recorded_cassette_holdable
    (one_file_writes _ _ _)).
Defined.
