(* ===== verification/DiffLogs.v ===== *)
(** The [diff-logs] command ([kernel/src/bin/diff-logs.rs]): it reads two log files, compares their
    effective events, and tells by its exit status whether they agree. *)

From S2P Require Import Prelude Ord Str Utf8 Capability Json Strict Codec Data State Event Redact Log FileLog Outside Replay.

Open Scope string_scope.
Open Scope list_scope.

Definition USAGE : string := "usage: diff-logs <recorded.jsonl> <replayed.jsonl>".

Section main.
Context {HP : Platform} {HJ : JsonText}.
Context (show_replay_error : ReplayError -> string).
(** The files; a failure to read one is the log's [Io]. *)
Context (read : string -> result string string).

(** [FileEventLog::snapshot]. *)
Definition snapshot_of (path : string) : result LogError SnapshotReader := map_err LogIo (read path) ≫= file_snapshot.
(** [main]: what is printed, and the failure that sets the exit status. *)
Definition main (args : list string) : option string * result string unit :=
  match args with
  | [_; recorded; replayed] =>
      match (a ← map_err show_log_error (snapshot_of recorded);
             b ← map_err show_log_error (snapshot_of replayed);
             map_err show_replay_error (diff_logs a b)) with
      | Err e => (None, Err e)
      | Ok report =>
          match df_first_diff report with
          | None => (Some ("identical: " +:+ show_nat (df_compared report) +:+ " events compared"), Ok tt)
          | Some (index, description) =>
              (Some ("divergence at index " +:+ show_nat index +:+ ": " +:+ description), Err "logs differ")
          end
      end
  | _ => (None, Err USAGE)
  end.

(** The command succeeds exactly on two files that can be read and whose logs, the volatile kinds
    and fields aside, hold the same sequence of kinds and payloads. *)
Lemma main_succeeds_on_equal_logs program p q a b :
  snapshot_of p = Ok a -> snapshot_of q = Ok b -> events_exact a -> events_exact b ->
  (main [program; p; q]).2 = Ok tt <-> stripped a = stripped b.
Proof.
  intros Ha Hb Hea Heb. unfold main. rewrite Ha, Hb. cbn [map_err mbind result_bind].
  destruct (diff_logs_finds_the_first_difference a b Hea Heb) as (report & Hr & Hid & H).
  rewrite Hr. cbn [map_err]. destruct (df_first_diff report) as [[i d]|]; cbn.
  - split; [done|]. intros Heq. destruct H as (_ & _ & Hn). by rewrite Heq in Hn.
  - destruct H as [H _]. split; [intros _; by apply Hid|done].
Qed.
End main.
