(* ===== verification/Sessions.v ===== *)
(** What every operation of a session guarantees, whatever tools, hooks, the provider and other
    threads do: the log only grows, and an operation that succeeds leaves the state that the last
    checkpoint in the log describes. *)

From S2P Require Import Prelude Ord Str Capability Sandbox Json Strict Codec Data Event State Redact Spill Log Outside Registry Kernel Frame Scenario Tasks Retry Turn Answers Lifecycle.

Open Scope string_scope.
Open Scope list_scope.

(** * The log *)

Section growth.
Context {HP : Platform} {HJ : JsonText} {X L : Type} {HO : Outside X} {HL : EventLog L} {HA : ArtifactStore X}
  {HC : Clock} {HLL : EventLogLaws L}.
Notation K := (Kernel X L).

Definition grows (k k' : K) : Prop := log_grows (k_log k) (k_log k').
#[export] Instance grows_preorder : PreOrder grows.
Proof. split; [by intros k; unfold grows|]. intros k1 k2 k3. unfold grows. by etrans. Qed.
Lemma frame_by_grows R k k' : frame_by R k k' -> grows k k'.
Proof. apply frame_log. Qed.
Lemma steps_grows {E A} R (m : M K E A) : steps (frame_by R) m -> steps grows m.
Proof. apply steps_mono, frame_by_grows. Qed.
Lemma same_log_grows (k k' : K) : k_log k' = k_log k -> grows k k'.
Proof. unfold grows. by intros ->. Qed.
Lemma modify_grows {E} (f : K -> K) : (forall k, k_log (f k) = k_log k) -> steps grows (modify (E := E) f).
Proof. intros Hf. apply steps_modify. intros k. apply same_log_grows, Hf. Qed.
End growth.

Ltac grows_tac :=
  steps_tac; first
    [ apply modify_grows; intros ?; unfold on_state; by repeat case_match
    | apply steps_step; intros ?; apply same_log_grows; by repeat case_match
    | eapply steps_grows; solve [eauto 6 with steps typeclass_instances]
    | idtac ].

Section growth_steps.
Context {HP : Platform} {HJ : JsonText} {X L : Type} {HO : Outside X} {HL : EventLog L} {HA : ArtifactStore X}
  {HC : Clock} {HLL : EventLogLaws L}.
Context (sh : Shared X).
Notation K := (Kernel X L).
Notation logs := (steps (grows (X := X) (L := L))).

Lemma hook_grows {A R} turn (f : HookContext -> State -> X -> HookRun X (State * A) R) : logs (hook sh turn f).
Proof. unfold hook. grows_tac. intros k. by apply same_log_grows. Qed.
Lemma hooks_grows {A} t phase turn f chain (a : A) : logs (hooks sh t phase turn f chain a).
Proof. revert a. pose proof (@hook_grows). induction chain as [|e chain IH]; intros a; cbn [hooks]; grows_tac. Qed.
Lemma set_status_grows {E} s : logs (set_status (E := E) s).
Proof. unfold set_status. grows_tac. Qed.
Lemma checkpoint_grows reason : logs (checkpoint reason).
Proof. unfold checkpoint. grows_tac. Qed.
Lemma terminate_grows {E} : logs (terminate_session_processes (E := E)).
Proof. unfold terminate_session_processes. grows_tac. Qed.
Lemma append_tool_output_grows turn call out d sp : logs (append_tool_output turn call out d sp).
Proof. unfold append_tool_output. grows_tac. Qed.
Lemma invoke_tool_grows e t turn call : logs (invoke_tool sh e t turn call).
Proof.
  assert (Hw : forall ids, logs (watch_all (E := Abort) ids)) by (intros ids; unfold watch_all; grows_tac).
  assert (Hp : forall t d pending last end_, logs (poll_tool t d pending last end_)).
  { intros t' d pending last end_. induction pending as [|ids pending IH]; cbn [poll_tool]; grows_tac. }
  unfold invoke_tool, ensure_session_process. grows_tac.
Qed.
End growth_steps.
#[export] Hint Resolve hook_grows hooks_grows set_status_grows checkpoint_grows terminate_grows append_tool_output_grows
  invoke_tool_grows : steps.

Section growth_turn.
Context {HP : Platform} {HJ : JsonText} {X L : Type} {HO : Outside X} {HL : EventLog L} {HA : ArtifactStore X}
  {HC : Clock} {HLL : EventLogLaws L}.
Context (sh : Shared X).
Notation K := (Kernel X L).
Notation logs := (steps (grows (X := X) (L := L))).

Lemma call_tool_grows e turn call id calls : logs (call_tool sh e turn call id calls).
Proof. unfold call_tool. grows_tac. Qed.
Lemma before_hooks_grows turn calls chain call : logs (before_tool_hooks sh turn calls chain call).
Proof. revert call. induction chain as [|e chain IH]; intros call; cbn [before_tool_hooks]; grows_tac. Qed.
Lemma after_hooks_grows turn calls call chain out : logs (after_tool_hooks sh turn calls call chain out).
Proof. revert out. induction chain as [|e chain IH]; intros out; cbn [after_tool_hooks]; grows_tac. Qed.
Lemma run_tool_call_grows turn call calls : logs (run_tool_call sh turn call calls).
Proof.
  pose proof call_tool_grows. pose proof before_hooks_grows. pose proof after_hooks_grows.
  unfold run_tool_call, unregistered_tool, finish_call, spill_output, output_of, log_tool_call. grows_tac.
Qed.
Lemma run_tool_calls_grows turn calls : logs (run_tool_calls sh turn calls).
Proof.
  pose proof run_tool_call_grows. induction calls as [|call calls IH]; cbn [run_tool_calls]; grows_tac.
Qed.
Lemma run_compaction_grows strategy t turn : logs (run_compaction sh strategy t turn).
Proof. unfold run_compaction. grows_tac. Qed.
Lemma turn_body_grows : logs (turn_body sh).
Proof.
  pose proof run_tool_calls_grows. pose proof run_compaction_grows.
  unfold turn_body, prepare_request, accept_response, turn_boundary. grows_tac.
Qed.
Lemma cancel_turn_grows phase fl u : logs (cancel_turn phase fl u).
Proof.
  assert (Ha : forall turn, logs (answer_cancelled turn u)).
  { intros turn. induction u as [|c u IH]; cbn [answer_cancelled]; grows_tac. }
  unfold cancel_turn. cbv zeta. grows_tac.
Qed.
Lemma fail_turn_grows snapshot class att msg mw hk : logs (fail_turn snapshot class att msg mw hk).
Proof.
  assert (Ha : forall ids, logs (abort_tasks (E := KernelError) ids)).
  { induction ids as [|c ids IH]; cbn [abort_tasks]; grows_tac. }
  unfold fail_turn. cbv zeta. grows_tac.
Qed.
Lemma run_turn_grows : logs (run_turn sh).
Proof.
  pose proof turn_body_grows. pose proof cancel_turn_grows. pose proof fail_turn_grows.
  unfold run_turn, start_turn, end_turn. grows_tac.
Qed.
Lemma apply_inbound_batch_grows i from : logs (apply_inbound_batch i from).
Proof. unfold apply_inbound_batch, take_inbox. grows_tac. Qed.
End growth_turn.
#[export] Hint Resolve run_compaction_grows run_turn_grows apply_inbound_batch_grows : steps.

Section growth_operations.
Context {HP : Platform} {HJ : JsonText} {X L : Type} {HO : Outside X} {HL : EventLog L} {HA : ArtifactStore X}
  {HC : Clock} {HLL : EventLogLaws L}.
Context (sh : Shared X).
Notation K := (Kernel X L).
Notation logs := (steps (grows (X := X) (L := L))).

Lemma run_grows fuel : logs (run sh fuel).
Proof. induction fuel as [|fuel IH]; cbn [run]; grows_tac. Qed.
Lemma end_tasks_grows ids : logs (end_tasks ids).
Proof. induction ids as [|id ids IH]; cbn [end_tasks]; grows_tac. Qed.
Lemma perform_grows o : logs (perform sh o).
Proof.
  pose proof run_grows. pose proof end_tasks_grows.
  destruct o; cbn [perform]; unfold apply_queued_input, suspend, resume, end_session, compact; grows_tac.
Qed.
Lemma cancel_all_grows content ids : logs (cancel_all content ids).
Proof. induction ids as [|id ids IH]; cbn [cancel_all]; grows_tac. Qed.
Lemma resume_hooks_grows cause turn chain : logs (resume_hooks sh cause turn chain).
Proof.
  induction chain as [|e chain IH]; cbn [resume_hooks]; grows_tac. intros k. by apply same_log_grows.
Qed.
Lemma open_events_grows r cp sc cause : logs (open_events sh r cp sc cause).
Proof.
  pose proof cancel_all_grows. pose proof resume_hooks_grows.
  unfold open_events, log_reopened, hash_state, apply_cause, startup_warnings. grows_tac.
Qed.
Lemma create_events_grows init cp sc : logs (create_events sh init cp sc).
Proof. unfold create_events, startup_warnings. grows_tac. Qed.
End growth_operations.

(** * The checkpoint describes the state *)

Section coherence.
Context {HP : Platform} {HJ : JsonText} {X L : Type} {HO : Outside X} {HL : EventLog L} {HA : ArtifactStore X}
  {HC : Clock} {HLL : EventLogLaws L}.
Notation K := (Kernel X L).

(** The kernel's [checkpoint_hash] is the hash of its state. *)
Definition coherent (k : K) : Prop := state_hash (k_state k) = Ok (k_checkpoint_hash k).
(** Neither the state nor the hash changes. *)
Definition same_point (k k' : K) : Prop := k_state k' = k_state k /\ k_checkpoint_hash k' = k_checkpoint_hash k.
#[export] Instance same_point_preorder : PreOrder same_point.
Proof. split; [by intros k|]. intros k1 k2 k3 [] []. split; congruence. Qed.
Lemma frame_same_point k k' : frame k k' -> same_point k k'.
Proof. intros Hf. split; [by rewrite (frame_state _ _ _ Hf)|apply Hf]. Qed.
Lemma steps_same_point {E A} (m : M K E A) : steps frame m -> steps same_point m.
Proof. apply steps_mono, frame_same_point. Qed.
Lemma same_point_coherent k k' : same_point k k' -> coherent k -> coherent k'.
Proof. unfold coherent. by intros [-> ->]. Qed.

(** A success of [m] leaves a coherent kernel: whatever it began with, or if it began with one. *)
Definition settles {E A} (m : M K E A) : Prop := forall k k' a, m k = (k', Ok a) -> coherent k'.
Definition keeps {E A} (m : M K E A) : Prop := forall k k' a, coherent k -> m k = (k', Ok a) -> coherent k'.
Lemma settles_keeps {E A} (m : M K E A) : settles m -> keeps m.
Proof. intros Hm k k' a _. apply Hm. Qed.
Lemma steps_keeps {E A} (m : M K E A) : steps same_point m -> keeps m.
Proof. intros Hm k k' a Hk Hr. eapply same_point_coherent; [|done]. by eapply steps_ran. Qed.
Lemma settles_bind {E A B} (m : M K E A) (f : A -> M K E B) : (forall a, settles (f a)) -> settles (m ≫= f).
Proof. intros Hf k k' b (a & k1 & _ & Hr)%bind_ok. by eapply Hf. Qed.
Lemma settles_then {E A B} (m : M K E A) (f : A -> M K E B) :
  settles m -> (forall a, keeps (f a)) -> settles (m ≫= f).
Proof. intros Hm Hf k k' b (a & k1 & H1 & H2)%bind_ok. eapply Hf; [|exact H2]. by eapply Hm. Qed.
Lemma keeps_bind {E A B} (m : M K E A) (f : A -> M K E B) : keeps m -> (forall a, keeps (f a)) -> keeps (m ≫= f).
Proof. intros Hm Hf k k' b Hk (a & k1 & H1 & H2)%bind_ok. eapply Hf; [|exact H2]. by eapply Hm. Qed.
Lemma settles_conv {E F A} (g : F -> E) (m : M K F A) : settles m -> settles (conv g m).
Proof.
  intros Hm k k' a. unfold conv. destruct (m k) as [k1 [b|e]] eqn:Hr; [|done]. intros [= <- <-]. by eapply Hm.
Qed.
Lemma keeps_conv {E F A} (g : F -> E) (m : M K F A) : keeps m -> keeps (conv g m).
Proof.
  intros Hm k k' a Hk. unfold conv. destruct (m k) as [k1 [b|e]] eqn:Hr; [|done]. intros [= <- <-]. by eapply Hm.
Qed.
Lemma keeps_throw {E A} (e : E) : keeps (A := A) (throw e).
Proof. by intros k k' a _ [=]. Qed.

Lemma checkpoint_settles reason : settles (checkpoint (X := X) (L := L) reason).
Proof.
  intros k k' u. unfold checkpoint. intros (s & k1 & [= <- <-] & Hr)%bind_ok.
  apply bind_ok in Hr as (h & k2 & H2 & Hr). unfold lift in H2. destruct (state_hash (k_state k)) as [h'|] eqn:Hh; [|done].
  injection H2 as <- ->. apply bind_ok in Hr as (ev & k3 & H3 & [= <- _]).
  assert (Hf : frame k k3) by (eapply steps_ran; [|exact H3]; steps_tac).
  unfold coherent. simpl. by rewrite <- (frame_state _ _ _ Hf).
Qed.
Lemma terminate_same_point {E} : steps same_point (terminate_session_processes (X := X) (L := L) (E := E)).
Proof. apply steps_modify. by intros k. Qed.
End coherence.
#[export] Hint Resolve steps_same_point | 5 : steps.
#[export] Hint Resolve terminate_same_point : steps.

Section coherence_turn.
Context {HP : Platform} {HJ : JsonText} {X L : Type} {HO : Outside X} {HL : EventLog L} {HA : ArtifactStore X}
  {HC : Clock} {HLL : EventLogLaws L}.
Context (sh : Shared X).
Notation K := (Kernel X L).
Notation still m := (steps (same_point (X := X) (L := L)) m).

Lemma turn_boundary_settles turn calls : settles (turn_boundary (X := X) (L := L) turn calls).
Proof.
  unfold turn_boundary. apply settles_bind. intros drained. apply settles_bind. intros next. apply settles_bind. intros _.
  apply settles_then; [apply settles_conv, checkpoint_settles|]. intros _. apply steps_keeps. steps_tac.
Qed.
Lemma turn_body_settles : settles (turn_body (L := L) sh).
Proof. unfold turn_body. do 8 (apply settles_bind; intros ?). apply turn_boundary_settles. Qed.
Lemma end_turn_still : still end_turn.
Proof. unfold end_turn. steps_tac; apply steps_modify; by intros k. Qed.
Lemma cancel_turn_settles phase fl u : settles (cancel_turn (X := X) (L := L) phase fl u).
Proof.
  unfold cancel_turn. cbv zeta. do 5 (apply settles_bind; intros ?).
  apply settles_then; [apply checkpoint_settles|]. intros _. apply steps_keeps. steps_tac.
Qed.
Lemma fail_turn_settles snapshot class att msg mw hk :
  settles (fail_turn (X := X) (L := L) snapshot class att msg mw hk).
Proof.
  unfold fail_turn. apply settles_bind. intros s. cbv zeta. do 7 (apply settles_bind; intros ?).
  apply settles_then; [apply checkpoint_settles|]. intros _. apply steps_keeps. steps_tac. apply steps_modify. by intros k.
Qed.
Lemma run_turn_settles : settles (run_turn (L := L) sh).
Proof.
  unfold run_turn. apply settles_bind. intros []; try (by intros k k' a [=]).
  do 2 (apply settles_bind; intros ?). intros k k' o (r & k1 & Hb & Hr)%bind_ok. unfold try in Hb.
  destruct (turn_body sh k) as [k2 r2] eqn:Hbody. injection Hb as <- <-. apply bind_ok in Hr as ([] & k3 & He & Hr).
  apply (steps_ran same_point) in He; [|apply end_turn_still]. destruct r2 as [o'|[]].
  - injection Hr as <- <-. eapply same_point_coherent; [exact He|]. by eapply turn_body_settles.
  - by apply fail_turn_settles in Hr.
  - by apply cancel_turn_settles in Hr.
  - done.
Qed.

(** A batch that changed nothing really changed nothing. *)
Lemma update_not_ignored turn u t s s' : update_state turn u t s <> (s', Ok Ignored).
Proof. unfold update_state. destruct (tu_status u); simpl; try congruence; destruct (tu_outcome u); congruence. Qed.
Lemma apply_task_update_ignored u at_ (k k' : K) : apply_task_update u at_ k = (k', Ok Ignored) -> frame k k'.
Proof.
  unfold apply_task_update. intros (u' & k1 & H1 & Hr)%bind_ok. assert (Hf : frame k k1) by (eapply steps_ran; [|exact H1]; steps_tac).
  etrans; [exact Hf|]. clear k Hf H1. apply bind_ok in Hr as (s & k2 & [= <- <-] & Hr). cbv zeta in Hr.
  destruct (ignored_reason _ _) as [[class reason]|].
  - eapply steps_ran; [|exact Hr]. steps_tac.
  - apply bind_ok in Hr as (t & k2 & Ht & Hr). apply bind_ok in Hr as (a & k3 & Hu & Hr).
    destruct (update_state _ _ _ _) as [s' r'] eqn:Hus. injection Hu as _ ->.
    apply bind_ok in Hr as ([] & k4 & _ & Hr). apply bind_ok in Hr as (e & k5 & _ & Hr). injection Hr as _ ->.
    by apply update_not_ignored in Hus.
Qed.
Lemma apply_cancel_task_false id phase (k k' : K) : apply_cancel_task id phase k = (k', Ok false) -> frame k k'.
Proof.
  unfold apply_cancel_task. intros (done & k1 & H1 & Hr)%bind_ok. destruct done; simpl in Hr.
  - by apply bind_ok in Hr as (? & ? & _ & (? & ? & _ & Hr)%bind_ok).
  - injection Hr as <-. unfold cancel_task_in_state in H1. apply bind_ok in H1 as ([] & k2 & H1 & H2).
    eapply (steps_ran frame) in H1; [|steps_tac]. unfold step in H2. destruct (cancel_task _ _ _); [done|].
    by injection H2 as <-.
Qed.
Definition flags_ok (b : batch) : Prop := (any_user b || terminal_update b) = true -> changed b = true.
Lemma apply_in_batch_flags from b i (k k' : K) b' :
  apply_in_batch from b i k = (k', Ok b') -> flags_ok b ->
  flags_ok b' /\ (changed b' = false -> frame k k' /\ changed b = false).
Proof.
  destruct i as [m|u|id]; cbn [apply_in_batch]; intros Hr Hb; apply bind_ok in Hr as (a & k1 & H1 & Hr).
  - by injection Hr as <- <-.
  - injection Hr as <- <-. destruct a; simpl; try done. apply apply_task_update_ignored in H1. done.
  - injection Hr as <- <-. destruct a; [done|]. apply apply_cancel_task_false in H1. done.
Qed.
Lemma apply_batch_flags from b items (k k' : K) b' :
  apply_batch from b items k = (k', Ok b') -> flags_ok b ->
  flags_ok b' /\ (changed b' = false -> frame k k' /\ changed b = false).
Proof.
  revert b k. induction items as [|i items IH]; intros b k; cbn [apply_batch].
  - intros [= <- <-]. done.
  - intros Hr Hb. apply bind_ok in Hr as (b1 & k1 & H1 & H2). destruct (apply_in_batch_flags _ _ _ _ _ _ H1 Hb) as [Hb1 Hs1].
    destruct (IH _ _ H2 Hb1) as [Hb2 Hs2]. split; [done|]. intros Hc. destruct (Hs2 Hc) as [Hf2 Hc1].
    destruct (Hs1 Hc1) as [Hf1 Hc0]. split; [by etrans|done].
Qed.
Lemma take_inbox_still {E} : still (take_inbox (E := E)).
Proof. unfold take_inbox. steps_tac. apply steps_step. by intros k. Qed.
Lemma apply_inbound_batch_keeps i from : keeps (apply_inbound_batch (X := X) (L := L) i from).
Proof.
  intros k k' u Hk. unfold apply_inbound_batch. intros (rest & k1 & H1 & Hr)%bind_ok.
  eapply (steps_ran same_point) in H1; [|apply take_inbox_still]. apply (same_point_coherent _ _ H1) in Hk.
  apply bind_ok in Hr as (b & k2 & H2 & Hr). apply apply_batch_flags in H2 as [Hb Hs]; [|by intros [=]].
  apply bind_ok in Hr as ([] & k3 & H3 & Hr). destruct (changed b) eqn:Hc; simpl in Hr.
  - by apply checkpoint_settles in Hr.
  - injection Hr as <- _. destruct Hs as [Hf _]; [done|].
    assert (any_user b || (terminal_update b && bool_decide (from = Suspended)) = false) as Hn.
    { unfold flags_ok in Hb. rewrite Hc in Hb. destruct (any_user b), (terminal_update b); try done; by specialize (Hb eq_refl). }
    rewrite Hn in H3. injection H3 as <-. by eapply same_point_coherent; [apply frame_same_point|].
Qed.
End coherence_turn.

Section coherence_operations.
Context {HP : Platform} {HJ : JsonText} {X L : Type} {HO : Outside X} {HL : EventLog L} {HA : ArtifactStore X}
  {HC : Clock} {HLL : EventLogLaws L}.
Context (sh : Shared X).
Notation K := (Kernel X L).
Notation still m := (steps (same_point (X := X) (L := L)) m).

Ltac keeps_tac :=
  repeat first
    [ apply keeps_throw
    | apply steps_keeps; solve [steps_tac]
    | apply apply_inbound_batch_keeps
    | apply keeps_bind; [|intros ?]
    | case_match ].

Lemma run_keeps fuel : keeps (run (L := L) sh fuel).
Proof.
  induction fuel as [|fuel IH]; cbn [run]; [keeps_tac|]. apply keeps_bind; [keeps_tac|]. intros status.
  assert (Hwait : forall from, keeps (item ← try_recv;
    match item with
    | None => run (L := L) sh fuel
    | Some first =>
        apply_inbound_batch first from ;;
        status ← get_status;
        match status with
        | Running | Created => run sh fuel
        | Idle => mret (Some StopIdle)
        | Suspended => s ← gets suspension; mret (Some (StopSuspended s))
        | Failed => c ← gets error_class_of; mret (Some (StopFailed c))
        | Done => throw KernelDone
        end
    end)).
  { intros from. keeps_tac; exact IH. }
  destruct status; try apply Hwait; [|apply keeps_throw]. apply keeps_bind; [apply settles_keeps, run_turn_settles|].
  intros o. destruct o; first [exact IH | keeps_tac].
Qed.
Lemma suspend_keeps : keeps (suspend (X := X) (L := L)).
Proof.
  unfold suspend. apply keeps_bind; [keeps_tac|]. intros status.
  assert (Hs : keeps (open ← gets (fun k => open_tasks (k_state k));
    match open with
    | [] => throw NothingToWaitFor
    | _ =>
        terminate_session_processes ;;
        set_status Suspended ;;
        checkpoint CrSuspend ;;
        s ← gets suspension;
        turn ← gets (fun k => st_turn (k_state k));
        _ ← klog (X := X) (L := L) (suspended_event turn SrExplicit s);
        mret s
    end)).
  { apply keeps_bind; [keeps_tac|]. intros [|t ts]; [apply keeps_throw|]. apply settles_keeps.
    do 2 (apply settles_bind; intros ?). apply settles_then; [apply checkpoint_settles|]. intros _. keeps_tac. }
  destruct status; first [exact Hs | apply keeps_throw].
Qed.
Lemma resume_keeps cause : keeps (resume (X := X) (L := L) cause).
Proof.
  unfold resume. apply keeps_bind; [keeps_tac|]. intros from.
  destruct from; try apply keeps_throw; destruct cause; try apply keeps_throw; apply settles_keeps;
    repeat first [apply checkpoint_settles | apply settles_bind; intros ?].
Qed.
Lemma end_session_keeps : keeps (end_session (X := X) (L := L)).
Proof.
  unfold end_session. apply keeps_bind; [keeps_tac|]. intros status. case_decide; [apply keeps_throw|]. apply settles_keeps.
  do 6 (apply settles_bind; intros ?). apply settles_then; [apply checkpoint_settles|]. intros _. keeps_tac.
Qed.
Lemma compact_keeps strategy : keeps (compact (L := L) sh strategy).
Proof.
  unfold compact. apply keeps_bind; [keeps_tac|]. intros status. case_decide; [apply keeps_throw|]. apply settles_keeps.
  apply settles_bind. intros turn. apply settles_conv. unfold run_compaction. do 6 (apply settles_bind; intros ?).
  apply settles_conv, checkpoint_settles.
Qed.
Lemma apply_queued_input_keeps : keeps (apply_queued_input (X := X) (L := L)).
Proof. unfold apply_queued_input. keeps_tac. Qed.
Lemma perform_keeps o : keeps (perform (L := L) sh o).
Proof.
  destruct o; cbn [perform];
    lazymatch goal with
    | |- keeps (_ ≫= _) => apply keeps_bind; [|intros ?; apply steps_keeps; steps_tac]
    | |- _ => idtac
    end.
  - apply run_keeps.
  - apply settles_keeps, run_turn_settles.
  - apply apply_queued_input_keeps.
  - apply suspend_keeps.
  - apply resume_keeps.
  - apply end_session_keeps.
  - apply compact_keeps.
Qed.
Lemma create_events_still init cp sc : still (create_events sh init cp sc).
Proof. unfold create_events, startup_warnings. steps_tac. Qed.
End coherence_operations.

(** * The claims *)

Section session_claims.
Context {HP : Platform} {HJ : JsonText} {X L : Type} {HO : Outside X} {HL : EventLog L} {HA : ArtifactStore X}
  {HC : Clock} {HLL : EventLogLaws L}.
Notation K := (Kernel X L).

(** C4: a session is created with its hash recorded, and every operation
    that succeeds on a kernel whose recorded checkpoint hash is the hash of its state leaves one
    again: no success leaves a state that differs from the last checkpoint in what is hashed. *)
Theorem checkpoint_matches_state :
  (forall config init (x x' : X) (l : L) sh k, create config init x = (x', l, Ok (sh, k)) -> coherent k) /\
  (forall sh o (k k' : K) u, coherent k -> perform sh o k = (k', Ok u) -> coherent k').
Proof.
  split; [|intros sh o k k' u; apply perform_keeps].
  intros config init x x' l sh k. unfold create. case_decide; [|done].
  destruct (build _ _ _) as [[[sh' cp] sc]|e]; [|done]. destruct (now_rfc3339_ms x) as [x1 created]. cbv zeta.
  destruct (state_hash _) as [h|e] eqn:Hh; [|done].
  destruct (create_events _ _ _ _ _) as [k' [u|e]] eqn:Hr; [|done]. intros [= _ _ <- <-].
  apply (steps_ran same_point) in Hr; [|apply create_events_still]. eapply same_point_coherent; [exact Hr|]. exact Hh.
Qed.
End session_claims.

(** ** Witness *)

#[local] Existing Instance toy_platform.
#[local] Existing Instance wit_clock.
#[local] Existing Instance toy_json.

Definition wit_coherent : Kernel script MemoryEventLog :=
  (run_turn (wit_shared (Ok wit_calls) [wit_entry]) (wit_kernel_at wit_running [])).1.
Lemma wit_coherent_ok : coherent wit_coherent.
Proof.
  assert (Hr : (run_turn (wit_shared (Ok wit_calls) [wit_entry]) (wit_kernel_at wit_running [])).2 = Ok Continue)
    by (lazy; reflexivity).
  apply pair_of in Hr. unfold wit_coherent. exact (run_turn_settles _ _ _ _ Hr).
Qed.
Lemma checkpoint_matches_state_witness :
  coherent (perform (wit_shared (Ok wit_calls) [wit_entry]) OpRunTurn wit_coherent).1.
Proof.
  assert (Hr : (perform (wit_shared (Ok wit_calls) [wit_entry]) OpRunTurn wit_coherent).2 = Ok tt) by (lazy; reflexivity).
  apply pair_of in Hr. exact (proj2 checkpoint_matches_state _ _ _ _ _ wit_coherent_ok Hr).
Defined.
