(* ===== verification/Exits.v ===== *)
(** How a turn and a session end: the status each outcome of a turn leaves, what a failed turn
    undoes, and that an ended session stays ended. *)

From S2P Require Import Prelude Ord Str Capability Sandbox Json Strict Codec Data Event State Redact Spill Log Outside Registry Kernel Frame Scenario Tasks Retry Turn Answers Lifecycle Sessions.

Open Scope string_scope.
Open Scope list_scope.

Section stable.
Context {HP : Platform} {HJ : JsonText} {X L : Type} {HO : Outside X} {HL : EventLog L} {HA : ArtifactStore X}
  {HC : Clock} {HLL : EventLogLaws L}.
Notation K := (Kernel X L).

(** What a checkpoint and the steps of [frame] leave alone. *)
Record stable (k k' : K) : Prop := {
  stable_state : k_state k' = k_state k;
  stable_mirror : k_mirror k' = k_mirror k;
  stable_procs : k_session_procs k' = k_session_procs k;
  stable_session_token : cs_session (k_cancel k') = cs_session (k_cancel k);
  stable_turn_token : is_Some (cs_turn (k_cancel k')) <-> is_Some (cs_turn (k_cancel k));
  stable_wakers : rg_wakers (k_registrar k') ⊆ rg_wakers (k_registrar k)
}.
#[export] Instance stable_preorder : PreOrder stable.
Proof. split; [by intros k|]. intros k1 k2 k3 [] []. split; try congruence; by etrans. Qed.
Lemma frame_stable k k' : frame k k' -> stable k k'.
Proof. intros [Hs]. by split. Qed.
Lemma steps_stable {E A} (m : M K E A) : steps frame m -> steps stable m.
Proof. apply steps_mono, frame_stable. Qed.
Lemma checkpoint_stable reason : steps stable (checkpoint (X := X) (L := L) reason).
Proof.
  unfold checkpoint. steps_tac; first [apply steps_stable; solve [steps_tac] | apply steps_modify; by intros k].
Qed.

(** After [set_status s]. *)
Record in_status (s : SessionStatus) (k : K) : Prop := {
  status_state : st_session_status (k_state k) = s;
  status_mirror : k_mirror k = s;
  status_token : is_Some (cs_turn (k_cancel k)) <-> s = Running
}.
Lemma stable_status s k k' : stable k k' -> in_status s k -> in_status s k'.
Proof. intros [H1 H2 _ _ H3] [H4 H5 H6]. split; [by rewrite H1|by rewrite H2|by rewrite H3]. Qed.
Lemma set_status_spec {E} s (k k' : K) u : set_status (E := E) s k = (k', Ok u) ->
  in_status s k' /\ k_state k' = with_status s (k_state k) /\ k_session_procs k' = k_session_procs k /\
  cs_session (k_cancel k') = cs_session (k_cancel k) /\ rg_wakers (k_registrar k') ⊆ rg_wakers (k_registrar k).
Proof.
  unfold set_status. intros ([] & k1 & H1 & [= <- _])%bind_ok.
  assert (Hf : frame k k1) by (eapply steps_ran; [|exact H1]; steps_tac).
  destruct Hf as [Hs _ _ Hp _ Hc _ Hw _ _]. simpl. split_and!; [|by rewrite Hs|done|done|done].
  split; [done..|]. simpl. case_decide as Hd; [done|]. split; [by intros [? [=]]|done].
Qed.
Lemma terminate_spec {E} (k k' : K) u : terminate_session_processes (E := E) k = (k', Ok u) ->
  frame k (set_session_procs (k_session_procs k) k') /\ k_session_procs k' = [].
Proof. intros [= <-]. by split. Qed.
End stable.
#[export] Hint Resolve steps_stable | 5 : steps.
#[export] Hint Resolve checkpoint_stable : steps.

Section outcomes.
Context {HP : Platform} {HJ : JsonText} {X L : Type} {HO : Outside X} {HL : EventLog L} {HA : ArtifactStore X}
  {HC : Clock} {HLL : EventLogLaws L}.
Context (sh : Shared X).
Notation K := (Kernel X L).

(** What holds of the kernel after a turn that ended with [o]. *)
Definition outcome_holds (o : TurnOutcome) (k : K) : Prop :=
  match o with
  | Continue => in_status Running k
  | TurnIdle => in_status Idle k /\ open_tasks (k_state k) = []
  | TurnSuspended s =>
      in_status Suspended k /\ open_tasks (k_state k) <> [] /\ s = suspension k /\ k_session_procs k = []
  | TurnCancelled => in_status Idle k
  | TurnFailed c => in_status Failed k /\ k_last_error_class k = Some c /\ k_session_procs k = []
  end.

Lemma suspension_same_point (k k' : K) : same_point k k' -> suspension k' = suspension k.
Proof. unfold suspension. by intros [-> ->]. Qed.
Lemma turn_boundary_outcome turn calls (k k' : K) o :
  turn_boundary turn calls k = (k', Ok o) ->
  outcome_holds o k' /\ match o with TurnFailed _ | TurnCancelled => False | _ => True end.
Proof.
  unfold turn_boundary. intros (drained & k1 & _ & Hr)%bind_ok. apply bind_ok in Hr as (next & k2 & [= <- Hn] & Hr).
  apply bind_ok in Hr as ([] & k3 & H3 & Hr). apply set_status_spec in H3 as (Hs & Hst & _).
  apply bind_ok in Hr as ([] & k4 & H4 & Hr). eapply (steps_ran stable) in H4; [|steps_tac].
  pose proof (stable_status _ _ _ H4 Hs) as Hs4.
  assert (Hopen : open_tasks (k_state k4) = open_tasks (k_state k1)) by (rewrite (stable_state _ _ H4), Hst; done).
  unfold next_status in Hn. destruct next; try (by destruct (_ || _), (open_tasks _)).
  - by injection Hr as <- <-.
  - injection Hr as <- <-. split; [|done]. split; [done|]. rewrite Hopen. by destruct (_ || _), (open_tasks _).
  - apply bind_ok in Hr as ([] & k5 & H5 & Hr). apply bind_ok in Hr as (s & k6 & [= <- <-] & Hr).
    apply bind_ok in Hr as ([] & k7 & H7 & Hr). injection Hr as <- <-. split; [|done].
    eapply (steps_ran frame) in H7; [|steps_tac]. injection H5 as <-.
    split; [eapply stable_status; [by apply frame_stable|]; by destruct Hs4|]. split_and!.
    + rewrite <- (frame_state _ _ _ H7). simpl. rewrite Hopen. by destruct (_ || _), (open_tasks _).
    + symmetry. apply suspension_same_point. by apply frame_same_point.
    + by rewrite (frame_procs _ _ _ H7).
Qed.
Lemma turn_body_outcome (k k' : K) o : turn_body sh k = (k', Ok o) ->
  outcome_holds o k' /\ match o with TurnFailed _ | TurnCancelled => False | _ => True end.
Proof.
  unfold turn_body. intros Hr. do 8 (apply bind_ok in Hr as (? & ? & _ & Hr)). by eapply turn_boundary_outcome.
Qed.
End outcomes.

Section exits.
Context {HP : Platform} {HJ : JsonText} {X L : Type} {HO : Outside X} {HL : EventLog L} {HA : ArtifactStore X}
  {HC : Clock} {HLL : EventLogLaws L}.
Context (sh : Shared X).
Notation K := (Kernel X L).

Lemma end_turn_spec (k k' : K) u : end_turn k = (k', Ok u) ->
  k_state k' = k_state k /\ k_mirror k' = k_mirror k /\ k_session_procs k' = k_session_procs k /\
  k_checkpoint_hash k' = k_checkpoint_hash k /\
  (is_Some (cs_turn (k_cancel k')) <-> st_session_status (k_state k') = Running) /\ cs_tools (k_cancel k') = [].
Proof.
  unfold end_turn. intros ([] & k1 & H1 & Hr)%bind_ok. apply bind_ok in Hr as ([] & k2 & [= <-] & [= <- _]).
  eapply (steps_ran frame) in H1; [|steps_tac]. destruct H1 as [Hs Hc Hm Hp _ _ _ _ _ _]. simpl.
  split_and!; try done. case_decide as Hd; [done|]. split; [by intros [? [=]]|done].
Qed.
Lemma end_turn_outcome o (k k' : K) u :
  match o with TurnFailed _ | TurnCancelled => False | _ => True end ->
  outcome_holds o k -> end_turn k = (k', Ok u) -> outcome_holds o k'.
Proof.
  intros Ho Hk (Hs & Hm & Hp & Hc & Ht & _)%end_turn_spec.
  assert (Hin : forall s, in_status s k -> in_status s k').
  { intros s [H1 H2 _]. rewrite Hs in Ht. split; [by rewrite Hs|by rewrite Hm|by rewrite <- H1]. }
  destruct o; try done; simpl in *.
  - by apply Hin.
  - destruct Hk as [Hk ?]. rewrite Hs. by split; [apply Hin|].
  - destruct Hk as (Hk & Hopen & -> & Hprocs). rewrite Hs, Hp. split_and!; [by apply Hin|done| |done].
    symmetry. by apply suspension_same_point.
Qed.

Lemma cancel_turn_outcome phase fl u (k k' : K) o :
  cancel_turn phase fl u k = (k', Ok o) -> o = TurnCancelled /\ in_status Idle k'.
Proof.
  unfold cancel_turn. cbv zeta. intros Hr. do 4 (apply bind_ok in Hr as (? & ? & _ & Hr)).
  apply bind_ok in Hr as ([] & k1 & H1 & Hr). apply bind_ok in Hr as ([] & k2 & H2 & Hr). injection Hr as <- <-.
  apply set_status_spec in H1 as [H1 _]. eapply (steps_ran stable) in H2; [|steps_tac]. split; [done|].
  by eapply stable_status.
Qed.

Lemma abort_tasks_frame {E} ids : steps (frame (X := X) (L := L)) (abort_tasks (E := E) ids).
Proof. induction ids as [|id ids IH]; cbn [abort_tasks]; steps_tac. Qed.
(** What a failed turn leaves of the state: what it started from and the inputs it took in. *)
Lemma fail_turn_spec snapshot class att msg mw hk (k k' : K) o :
  fail_turn snapshot class att msg mw hk k = (k', Ok o) ->
  o = TurnFailed class /\ outcome_holds (TurnFailed class) k' /\ 
  exists s, inputs_applied snapshot s /\ k_state k' = with_status Failed s.
Proof.
  unfold fail_turn. intros (s0 & k1 & [= <- <-] & Hr)%bind_ok. cbv zeta in Hr.
  apply bind_ok in Hr as ([] & k1 & H1 & Hr). apply bind_ok in Hr as ([] & k2 & [= <-] & Hr).
  apply bind_ok in Hr as ([] & k3 & H3 & Hr). apply terminate_spec in H3 as [H3 Hp3].
  apply frame_state in H3. simpl in H3.
  apply bind_ok in Hr as (msg' & k4 & H4 & Hr). apply bind_ok in Hr as (tf & k5 & H5 & Hr).
  apply bind_ok in Hr as (b & k6 & H6 & Hr). apply bind_ok in Hr as ([] & k7 & H7 & Hr).
  apply bind_ok in Hr as ([] & k8 & H8 & Hr). apply bind_ok in Hr as (ck & k9 & [= <- <-] & Hr).
  apply bind_ok in Hr as (ev & k10 & H10 & Hr). apply bind_ok in Hr as ([] & k11 & [= <-] & Hr). injection Hr as <- <-.
  eapply (steps_ran frame) in H4; [|steps_tac]. eapply (steps_ran frame) in H5; [|steps_tac].
  eapply (steps_ran (frame_by inputs_applied)) in H6; [|steps_tac].
  apply set_status_spec in H7 as (Hin & Hst & Hpr & _). eapply (steps_ran stable) in H8; [|steps_tac].
  eapply (steps_ran stable) in H10; [|steps_tac].
  pose proof (stable_status _ _ _ H10 (stable_status _ _ _ H8 Hin)) as Hin'. split; [done|]. split.
  - split; [by destruct Hin'|]. split; [done|]. simpl.
    by rewrite (stable_procs _ _ H10), (stable_procs _ _ H8), Hpr, (frame_procs _ _ _ H6), (frame_procs _ _ _ H5),
      (frame_procs _ _ _ H4).
  - exists (k_state k6). simpl. rewrite (stable_state _ _ H10), (stable_state _ _ H8), Hst. split; [|done].
    pose proof (frame_state _ _ _ H6) as Hi. rewrite <- (frame_state _ _ _ H5), <- (frame_state _ _ _ H4), <- H3 in Hi.
    exact Hi.
Qed.
Lemma start_turn_spec (k k' : K) u : start_turn k = (k', Ok u) ->
  k_state k' = with_turn (next_turn (st_turn (k_state k))) (k_state k).
Proof. unfold start_turn. intros Hr. repeat (apply bind_ok in Hr as ([] & ? & [= <-] & Hr)). by injection Hr as <- _. Qed.

(** The three ways out of a turn that was run. *)
Lemma run_turn_inv (k k' : K) o : run_turn sh k = (k', Ok o) ->
  st_session_status (k_state k) = Running /\ outcome_holds o k' /\
  (forall c, o = TurnFailed c -> exists s,
     inputs_applied (with_turn (next_turn (st_turn (k_state k))) (k_state k)) s /\ k_state k' = with_status Failed s).
Proof.
  unfold run_turn. intros (status & k1 & [= <- <-] & Hr)%bind_ok.
  destruct (st_session_status (k_state k)); try done. split; [done|].
  apply bind_ok in Hr as ([] & k2 & H2 & Hr). apply bind_ok in Hr as (snap & k3 & [= <- <-] & Hr).
  apply bind_ok in Hr as (res & k4 & H4 & Hr). apply bind_ok in Hr as ([] & k5 & H5 & Hr).
  unfold try in H4. destruct (turn_body sh k2) as [k4' r4] eqn:Hb. injection H4 as <- <-.
  apply start_turn_spec in H2. destruct r4 as [o'|[class att msg mw hk|phase fl u|e]].
  - injection Hr as <- <-. apply turn_body_outcome in Hb as [Hb Ho].
    split; [by eapply end_turn_outcome|]. by intros c ->.
  - apply fail_turn_spec in Hr as (-> & Hh & Hs). split; [done|]. intros c _. by rewrite <- H2.
  - apply cancel_turn_outcome in Hr as [-> Hr]. split; [done|]. by intros c [=].
  - done.
Qed.
End exits.

(** * Ending a session *)

Section ending.
Context {HP : Platform} {HJ : JsonText} {X L : Type} {HO : Outside X} {HL : EventLog L} {HA : ArtifactStore X}
  {HC : Clock} {HLL : EventLogLaws L}.
Notation K := (Kernel X L).

(** The tasks are a map, each under its own id. *)
Definition tasks_keyed (s : State) : Prop :=
  omap_sorted (st_pending_tasks s) /\ Forall (fun p => tk_id p.2 = p.1) (st_pending_tasks s).
Lemma put_task_keyed id t s : tk_id t = id -> tasks_keyed s -> tasks_keyed (put_task id t s).
Proof.
  intros Ht [Hs Hf]. split; [by apply omap_insert_sorted|]. apply Forall_forall. intros p [->|Hp]%omap_insert_elem; [done|].
  rewrite Forall_forall in Hf. by apply Hf.
Qed.
Lemma cancel_task_spec id content s :
  match cancel_task id content s with
  | Some s' => inputs_applied s s' /\ open_in id s' = false /\ (tasks_keyed s -> tasks_keyed s')
  | None => open_in id s = false
  end.
Proof.
  destruct (cancel_task id content s) as [s'|] eqn:Hc.
  - split; [eexists; by eapply cancel_task_applied|]. unfold cancel_task in Hc. apply bind_Some in Hc as (t & Ht & Hc).
    destruct (is_open t); [|done]. injection Hc as <-. split.
    + change (open_in id (put_task id (finish TCancelled (st_turn s)
        {| oc_content := Json content; oc_is_error := true; oc_artifact_handles := [] |} t) s) = false).
      by rewrite open_in_put, decide_True.
    + intros Hk. refine (put_task_keyed id _ s _ Hk). simpl. destruct Hk as [_ Hf]. rewrite Forall_forall in Hf.
      apply (Hf (id, t)). by apply omap_get_elem.
  - unfold cancel_task in Hc. unfold open_in, task_at. destruct (omap_get id (st_pending_tasks s)) as [t|]; [|done].
    simpl in Hc. by destruct (is_open t).
Qed.
Lemma end_tasks_spec ids (k k' : K) u : end_tasks ids k = (k', Ok u) ->
  frame_by inputs_applied k k' /\ (tasks_keyed (k_state k) -> tasks_keyed (k_state k')) /\
  Forall (fun id => open_in id (k_state k') = false) ids.
Proof.
  revert k. induction ids as [|id ids IH]; intros k; cbn [end_tasks].
  - intros [= <-]. done.
  - intros (b & k1 & H1 & Hr)%bind_ok. apply bind_ok in Hr as (turn & k2 & [= <- <-] & Hr).
    apply bind_ok in Hr as (ev & k3 & H3 & Hr). apply IH in Hr as (Hi & Hk & Hf).
    unfold cancel_task_in_state in H1. apply bind_ok in H1 as ([] & k0 & H0 & H1).
    eapply (steps_ran frame) in H0; [|steps_tac]. eapply (steps_ran frame) in H3; [|steps_tac].
    assert (Hc : frame_by inputs_applied k0 k1 /\ open_in id (k_state k1) = false /\
                 (tasks_keyed (k_state k0) -> tasks_keyed (k_state k1))).
    { unfold step in H1. pose proof (cancel_task_spec id cancelled_json (k_state k0)) as Hc.
      destruct (cancel_task id cancelled_json (k_state k0)) as [s|]; injection H1 as <- <-; [|done].
      destruct Hc as (? & ? & ?). by split_and!. }
    destruct Hc as (Hc & Ho & Hkc). assert (Hs0 := frame_state _ _ _ H0). assert (Hs3 := frame_state _ _ _ H3).
    split; [|split].
    + etrans; [by apply (frame_weaken inputs_applied)|]. etrans; [exact Hc|].
      etrans; [by apply (frame_weaken inputs_applied)|exact Hi].
    + intros Hkk. apply Hk. rewrite <- Hs3. apply Hkc. by rewrite <- Hs0.
    + constructor; [|done]. eapply open_in_mono; [apply (frame_state _ _ _ Hi)|]. by rewrite <- Hs3.
Qed.
Lemma no_open_tasks (s s' : State) :
  tasks_keyed s -> tasks_keyed s' -> inputs_applied s s' ->
  Forall (fun id => open_in id s' = false) (tk_id <$> open_tasks s) -> open_tasks s' = [].
Proof.
  intros [_ Hk] [Hs' _] Hi Hf. destruct (open_tasks s') as [|t ts] eqn:Ho; [done|]. exfalso.
  assert (Hin : In t (open_tasks s')) by (rewrite Ho; by left).
  apply List.filter_In in Hin as [Hin Hopen]. apply list_elem_of_In, list_elem_of_fmap in Hin as ([id t'] & -> & Hin).
  simpl in Hopen. assert (Hg : task_at id s' = Some t') by by apply omap_elem_get.
  assert (Hin' : open_in id s' = true) by (unfold open_in; by rewrite Hg).
  destruct (open_in id s) eqn:Hs; [|by rewrite (open_in_mono _ _ _ Hi Hs) in Hin'].
  unfold open_in in Hs. destruct (task_at id s) as [t0|] eqn:Ht0; [|done]. apply omap_get_elem in Ht0.
  rewrite Forall_forall in Hk. rewrite Forall_forall in Hf. pose proof (Hk _ Ht0) as Hid. simpl in Hid.
  rewrite (Hf id) in Hin'; [done|]. apply list_elem_of_fmap. exists t0. split; [done|].
  apply list_elem_of_In, List.filter_In. split; [|done]. apply list_elem_of_In, list_elem_of_fmap. by exists (id, t0).
Qed.
End ending.

(** * The claims *)

Section exit_claims.
Context {HP : Platform} {HJ : JsonText} {X L : Type} {HO : Outside X} {HL : EventLog L} {HA : ArtifactStore X}
  {HC : Clock} {HLL : EventLogLaws L}.
Context (sh : Shared X).
Notation K := (Kernel X L).

(** C6: a turn runs only in [Running]; the status it leaves, in the
    state, in the mirror other threads read and in whether a turn can be cancelled, is the one its
    outcome says: [Running] after [Continue], [Idle] with no task open, [Suspended] with the open
    tasks reported and no session process left, [Idle] after a cancellation, [Failed] with the
    error's class recorded; and the state is the one last checkpointed. *)
Theorem turn_outcome_matches_status (k k' : K) :
  (forall o, run_turn sh k = (k', Ok o) ->
     st_session_status (k_state k) = Running /\ outcome_holds o k' /\ coherent k') /\
  (st_session_status (k_state k) <> Running ->
     run_turn sh k = (k, Err (if decide (st_session_status (k_state k) = Done) then KernelDone
                              else NotRunning (st_session_status (k_state k))))).
Proof.
  split.
  - intros o Hr. destruct (run_turn_inv _ _ _ _ Hr) as (H1 & H2 & _). split_and!; [done..|].
    by eapply run_turn_settles.
  - intros Hs. unfold run_turn. rewrite bind_eq. cbn [get_status gets]. by destruct (st_session_status (k_state k)).
Qed.

(** C5: a failed turn undoes everything tools and hooks did to the state: what
    it leaves is the state it started from with the turn counted, the inputs that arrived applied
    and the status [Failed]; no session process survives it. *)
Theorem failed_turn_restores (k k' : K) (class : string) :
  run_turn sh k = (k', Ok (TurnFailed class)) ->
  exists s, inputs_applied (with_turn (next_turn (st_turn (k_state k))) (k_state k)) s /\
  k_state k' = with_status Failed s /\ k_last_error_class k' = Some class /\ k_session_procs k' = [] /\
  coherent k'.
Proof.
  intros Hr. destruct (run_turn_inv _ _ _ _ Hr) as (_ & (_ & Hc & Hp) & Hs). destruct (Hs _ eq_refl) as (s & Hi & Hst).
  exists s. split_and!; [done..|]. by eapply run_turn_settles.
Qed.

(** C8: once a session is done, every operation on it is refused and changes nothing,
    and no message or task update can be queued for it. *)
Theorem done_is_final (k : K) :
  st_session_status (k_state k) = Done ->
  (forall o, o <> OpRun 0 -> perform sh o k = (k, Err KernelDone)) /\
  (k_mirror k = Done -> (forall m, enqueue_user_message m k = (k, Err KernelDone)) /\
  (forall u, deliver_task_update u k = (k, Err KernelDone))).
Proof.
  intros Hd. split.
  - intros o Ho. assert (Hg : forall E, get_status (X := X) (L := L) (E := E) k = (k, Ok Done)).
    { intros E. unfold get_status, gets. by rewrite Hd. }
    destruct o as [[|fuel]| | | |cause| |strategy]; cbn [perform run]; try done;
      unfold run_turn, apply_queued_input, suspend, resume, end_session, compact; by rewrite !bind_eq, Hg.
  - intros Hm. unfold enqueue_user_message, deliver_task_update. by rewrite Hm.
Qed.

(** C7: ending a session leaves it done, its tasks all ended (each open one
    cancelled, with one message that says so), no completion future and no session process
    live, every token cancelled, and the state checkpointed. *)
Theorem ending_closes_everything (k k' : K) :
  tasks_keyed (k_state k) -> end_session k = (k', Ok tt) ->
  in_status Done k' /\ open_tasks (k_state k') = [] /\
  (exists s, inputs_applied (k_state k) s /\ k_state k' = with_status Done s) /\
  rg_wakers (k_registrar k') = [] /\ k_session_procs k' = [] /\
  (forall t, token_cancelled t (k_cancel k') = true) /\ coherent k'.
Proof.
  intros Hk Hr. assert (Hcoh : coherent k').
  { revert Hr. unfold end_session. intros (status & k1 & [= <- <-] & Hr)%bind_ok. case_decide; [done|]. revert Hr.
    eapply (settles_bind (A := unit)). intros ?. do 5 (apply settles_bind; intros ?).
    apply settles_then; [apply checkpoint_settles|]. intros _. apply steps_keeps. steps_tac. }
  revert Hr. unfold end_session. intros (status & k0 & [= <- <-] & Hr)%bind_ok. case_decide; [done|].
  apply bind_ok in Hr as ([] & k1 & [= <-] & Hr). apply bind_ok in Hr as ([] & k2 & H2 & Hr).
  apply bind_ok in Hr as ([] & k3 & H3 & Hr). apply bind_ok in Hr as (ids & k4 & [= <- <-] & Hr).
  apply bind_ok in Hr as ([] & k5 & H5 & Hr). apply bind_ok in Hr as ([] & k6 & H6 & Hr).
  apply bind_ok in Hr as ([] & k7 & H7 & Hr).
  apply terminate_spec in H2 as [H2 Hp2].
  assert (Hw3 : rg_wakers (k_registrar k3) = []).
  { unfold abort_all in H3. by apply bind_ok in H3 as ([] & ? & _ & [= <-]). }
  eapply (steps_ran frame) in H3; [|steps_tac]. apply end_tasks_spec in H5 as (Hi & Hkeyed & Hf).
  apply set_status_spec in H6 as (Hin & Hst & Hpr & Hct & Hwk). eapply (steps_ran stable) in H7; [|steps_tac].
  eapply (steps_ran stable) in Hr; [|steps_tac]. assert (Hs := transitivity H7 Hr). clear H7 Hr k7.
  assert (Hs3 : k_state k3 = k_state k) by (rewrite <- (frame_state _ _ _ H3); exact (eq_sym (frame_state _ _ _ H2))).
  assert (Hc3 : cs_session (k_cancel k3) = true).
  { rewrite (frame_session_token _ _ _ H3). exact (frame_session_token _ _ _ H2). }
  split_and!.
  - by eapply stable_status.
  - rewrite (stable_state _ _ Hs), Hst. change (open_tasks (k_state k5) = []). rewrite Hs3 in *.
    apply (no_open_tasks (k_state k)); [done|by apply Hkeyed| |done]. rewrite <- Hs3. apply Hi.
  - exists (k_state k5). rewrite (stable_state _ _ Hs), Hst. split; [|done]. rewrite <- Hs3. apply Hi.
  - apply list_nil_subseteq. etrans; [apply (stable_wakers _ _ Hs)|]. etrans; [exact Hwk|].
    rewrite <- Hw3. apply (frame_wakers _ _ _ Hi).
  - by rewrite (stable_procs _ _ Hs), Hpr, (frame_procs _ _ _ Hi), (frame_procs _ _ _ H3).
  - intros t. assert (Hc : cs_session (k_cancel k') = true).
    { by rewrite (stable_session_token _ _ Hs), Hct, (frame_session_token _ _ _ Hi). }
    destruct t; simpl; by rewrite Hc.
  - done.
Qed.
End exit_claims.

(** ** Witnesses *)

#[local] Existing Instance toy_platform.
#[local] Existing Instance wit_clock.
#[local] Existing Instance toy_json.

(** The model answers with the given response; a message arrives while the inbox is emptied. *)
Definition wit_run (resp : ModelResponse) (s : State) : Kernel script MemoryEventLog * result KernelError TurnOutcome :=
  run_turn (wit_shared (Ok resp) [wit_entry]) (wit_kernel_at s [[SigUserMessage (user_text "next")]]).
Definition wit_failed : Kernel script MemoryEventLog * result KernelError TurnOutcome :=
  run_turn (wit_shared (Err (Auth "key")) [wit_entry]) (wit_kernel_at wit_running [[SigUserMessage (user_text "next")]]).

Lemma turn_outcome_matches_status_witness :
  outcome_holds Continue (wit_run wit_calls wit_running).1 /\ coherent (wit_run wit_calls wit_running).1.
Proof.
  assert (Hr : (wit_run wit_calls wit_running).2 = Ok Continue) by (lazy; reflexivity).
  apply pair_of in Hr. revert Hr. unfold wit_run at 1. apply turn_outcome_matches_status.
Defined.

Lemma failed_turn_restores_witness :
  exists s, inputs_applied (with_turn 3 wit_running) s /\ k_state wit_failed.1 = with_status Failed s /\
    k_last_error_class wit_failed.1 = Some "provider_auth".
Proof.
  assert (Hr : wit_failed.2 = Ok (TurnFailed "provider_auth")) by (lazy; reflexivity).
  apply pair_of in Hr. revert Hr. unfold wit_failed at 1. intros Hr.
  destruct (failed_turn_restores _ _ _ _ Hr) as (s & H1 & H2 & H3 & _).
  exists s. split; [exact H1|]. split; [exact H2|exact H3].
Defined.

Definition wit_done : State := with_status Done wit_state.
Lemma done_is_final_witness :
  perform (wit_shared (Ok wit_calls) []) OpEnd (wit_kernel_at wit_done []) = (wit_kernel_at wit_done [], Err KernelDone).
Proof.
  apply (proj1 (done_is_final (wit_shared (Ok wit_calls) []) (wit_kernel_at wit_done []) eq_refl)). discriminate.
Defined.

Lemma ending_closes_everything_witness :
  let k := wit_kernel_at wit_running [] in
  tasks_keyed (k_state k) /\ length (open_tasks (k_state k)) = 1 /\ open_tasks (k_state (end_session k).1) = [].
Proof.
  intros k. assert (Hk : tasks_keyed (k_state k)) by (split; repeat constructor).
  split; [exact Hk|]. split; [reflexivity|].
  assert (Hr : (end_session k).2 = Ok tt) by (lazy; reflexivity).
  apply pair_of in Hr. exact (proj1 (proj2 (ending_closes_everything _ _ Hk Hr))).
Defined.
