(* ===== verification/Toml.v ===== *)
(** [toml::Value] and its accessors, dotted lookups, and the conversions to and from JSON
    ([profiles/src/merge.rs], [profiles/src/schema.rs]); the file system and the TOML reader as the
    profiles crate meets them.  A table is an association list kept sorted
    by its keys' bytes, as [toml::Table] is without the [preserve_order] feature. *)

From Stdlib Require Import Floats.SpecFloat.
From S2P Require Import Prelude Ord Str Utf8 Capability Paths Json.

Open Scope string_scope.
Open Scope list_scope.

(** * Values *)

(** A datetime is known by its text. *)
Inductive toml : Type :=
  | TString (s : string)
  | TInteger (i : Z)
  | TFloat (f : spec_float)
  | TBoolean (b : bool)
  | TDatetime (text : string)
  | TArray (l : list toml)
  | TTable (t : list (string * toml)).
Definition Table : Type := list (string * toml).

Definition toml_str (v : toml) : option string := match v with TString s => Some s | _ => None end.
Definition toml_integer (v : toml) : option Z := match v with TInteger i => Some i | _ => None end.
Definition toml_bool (v : toml) : option bool := match v with TBoolean b => Some b | _ => None end.
Definition toml_array (v : toml) : option (list toml) := match v with TArray l => Some l | _ => None end.
Definition toml_table (v : toml) : option Table := match v with TTable t => Some t | _ => None end.

Section toml_ind_strong.
Variable P : toml -> Prop.
Hypothesis HString : forall s, P (TString s).
Hypothesis HInteger : forall i, P (TInteger i).
Hypothesis HFloat : forall f, P (TFloat f).
Hypothesis HBoolean : forall b, P (TBoolean b).
Hypothesis HDatetime : forall s, P (TDatetime s).
Hypothesis HArray : forall l, Forall P l -> P (TArray l).
Hypothesis HTable : forall t, Forall (fun kv => P kv.2) t -> P (TTable t).
Fixpoint toml_ind_strong (v : toml) : P v :=
  match v with
  | TString s => HString s | TInteger i => HInteger i | TFloat f => HFloat f | TBoolean b => HBoolean b
  | TDatetime s => HDatetime s
  | TArray l => HArray l ((fix go l : Forall P l :=
      match l with [] => Forall_nil_2 _ | x :: l' => Forall_cons_2 _ _ _ (toml_ind_strong x) (go l') end) l)
  | TTable t => HTable t ((fix go t : Forall (fun kv => P kv.2) t :=
      match t with [] => Forall_nil_2 _ | x :: t' => Forall_cons_2 _ _ _ (toml_ind_strong x.2) (go t') end) t)
  end.
End toml_ind_strong.

(** ** Dotted lookups *)

(** Along the segments of a dotted name. *)
Fixpoint get_segs (segs : list string) (t : Table) : option toml :=
  match segs with
  | [] => None
  | [seg] => omap_get seg t
  | seg :: segs =>
      v ← omap_get seg t;
      match v with TTable t' => get_segs segs t' | _ => None end
  end.
Definition get (t : Table) (dotted : string) : option toml := get_segs (split_char "." dotted) t.

(** [get_mut] and an assignment through it: nothing happens when the path is not there. *)
Fixpoint update_segs (segs : list string) (f : toml -> toml) (t : Table) : Table :=
  match segs with
  | [] => t
  | [seg] => match omap_get seg t with Some v => omap_insert seg (f v) t | None => t end
  | seg :: segs =>
      match omap_get seg t with
      | Some (TTable t') => omap_insert seg (TTable (update_segs segs f t')) t
      | _ => t
      end
  end.
Definition update (t : Table) (dotted : string) (f : toml -> toml) : Table := update_segs (split_char "." dotted) f t.

Definition int (t : Table) (dotted : string) : option Z := get t dotted ≫= toml_integer.
Definition num (t : Table) (dotted : string) : option spec_float :=
  match get t dotted with
  | Some (TFloat f) => Some f
  | Some (TInteger i) => Some (f64_of_Z i)
  | _ => None
  end.
Definition str_at (t : Table) (dotted : string) : option string := get t dotted ≫= toml_str.
Definition boolean (t : Table) (dotted : string) : option bool := get t dotted ≫= toml_bool.
Fixpoint indexed {A} (i : nat) (l : list A) : list (nat * A) :=
  match l with [] => [] | x :: l => (i, x) :: indexed (S i) l end.
(** The strings of a list with their indices; other items are skipped. *)
Definition str_list (t : Table) (dotted : string) : list (nat * string) :=
  omap (fun iv => pair iv.1 <$> toml_str iv.2) (indexed 0 (default [] (get t dotted ≫= toml_array))).

(** ** JSON *)

Definition json_int (i : Z) : json := JNum (if (0 <=? i)%Z then PosInt (Z.to_N i) else NegInt i).
Definition is_finite (f : spec_float) : bool :=
  match f with S754_zero _ | S754_finite _ _ _ => true | _ => false end.
Fixpoint toml_to_json (v : toml) : json :=
  match v with
  | TString s => JStr s
  | TInteger i => json_int i
  | TFloat f => if is_finite f then JNum (Float f) else JNull
  | TBoolean b => JBool b
  | TDatetime d => JStr d
  | TArray l => JArr (toml_to_json <$> l)
  | TTable t => JObj (omap_of_list ((fun kv => (kv.1, toml_to_json kv.2)) <$> t))
  end.

(** * Diagnostics (diagnostic.rs) *)

Definition in_quotes (s : string) : string := String "034" (s +:+ String "034" "").

Definition show_index (n : nat) : string := show_u64 (N.of_nat n).
Definition idx (path : string) (i : nat) : string := path +:+ "[" +:+ show_index i +:+ "]".
Definition key_join (prefix key : string) : string := if decide (prefix = "") then key else prefix +:+ "." +:+ key.

Record Diagnostic : Type := {
  dg_code : string;
  dg_file : option string;
  dg_toml_path : string;
  dg_message : string
}.
Definition diag (code : string) (file : option string) (toml_path message : string) : Diagnostic :=
  {| dg_code := code; dg_file := file; dg_toml_path := toml_path; dg_message := message |}.
Definition is_error (d : Diagnostic) : bool := starts_with "E_" (dg_code d).
Definition is_warning (d : Diagnostic) : bool := starts_with "W_" (dg_code d).

(** [Diagnostic::location] and its text. *)
Definition location (d : Diagnostic) : string :=
  match dg_file d ≫= path_file_name, bool_decide (dg_toml_path d = "") with
  | Some f, false => dg_code d +:+ " at " +:+ from_utf8_lossy f +:+ ":" +:+ dg_toml_path d
  | Some f, true => dg_code d +:+ " at " +:+ from_utf8_lossy f
  | None, false => dg_code d +:+ " at " +:+ dg_toml_path d
  | None, true => dg_code d
  end.
Definition show_diagnostic (d : Diagnostic) : string :=
  if decide (dg_message d = "") then location d else location d +:+ ": " +:+ dg_message d.

(** * The outside *)

(** The files as they are during one resolution, the TOML reader, and the decimal text of a double. *)
Class FileSystem : Type := {
  fs_read : string -> result string string;
  fs_is_file : string -> bool;
  fs_is_dir : string -> bool;
  parse_table : string -> result string Table;
  show_f64 : spec_float -> string
}.

(** [std::str::Utf8Error]'s text: after the valid bytes, an invalid sequence or one cut short. *)
Fixpoint utf8_error_at (fuel at_ : nat) (s : string) : string :=
  match fuel, s with
  | S fuel, String _ _ =>
      let '(ok, n) := head_char s in
      if ok then utf8_error_at fuel (at_ + n) (str_drop n s)
      else if Nat.eqb n (String.length s) && n_in 194 244 (byte_at 0 s) then
        "incomplete utf-8 byte sequence from index " +:+ show_index at_
      else "invalid utf-8 sequence of " +:+ show_index n +:+ " bytes from index " +:+ show_index at_
  | _, _ => ""
  end.
Definition utf8_error (s : string) : string := utf8_error_at (String.length s) 0 s.
