(* ===== verification/Atom.v ===== *)
(** [profiles/src/atom.rs]: the symbolic form of capability atoms in profile files, with
    placeholders, its grammar, its expansion into the kernel's atoms, and the way back for
    messages. *)

From S2P Require Import Prelude Ord Str Utf8 Capability Paths Toml.

Open Scope string_scope.
Open Scope list_scope.

Definition ATOM_PREFIXES : list string := ["fs.ro"; "fs.rw"; "net"; "proc"; "tool"; "spawn"; "secret"].
Definition RESERVED_BUNDLE_NAMES : list string := ["fs"; "net"; "proc"; "tool"; "spawn"; "secret"].

(** * Names *)

(** A first byte of one class, then bytes of another. *)
Definition name_of (first rest : ascii -> bool) (s : string) : bool :=
  match s with EmptyString => false | String a s => first a && all_bytes rest s end.
Definition is_byte (b a : ascii) : bool := bool_decide (a = b).
Definition is_ident : string -> bool :=
  name_of is_ascii_lowercase (fun c => is_ascii_lowercase c || is_ascii_digit c || is_byte "_" c || is_byte "-" c).
Definition is_snake_ident : string -> bool :=
  name_of is_ascii_lowercase (fun c => is_ascii_lowercase c || is_ascii_digit c || is_byte "_" c).
Definition is_endpoint_name : string -> bool :=
  name_of is_ascii_lowercase (fun c => is_ascii_lowercase c || is_ascii_digit c || is_byte "-" c).
Definition is_secret_name_upper : string -> bool :=
  name_of is_ascii_uppercase (fun c => is_ascii_uppercase c || is_ascii_digit c || is_byte "_" c).
Definition is_tool_name (s : string) : bool :=
  negb (bool_decide (s = "")) && forallb is_ident (split_char "." s).
Definition is_pchar_string (s : string) : bool :=
  negb (bool_decide (s = "")) && all_bytes (in_range "!" "~") s.

(** * Placeholders *)

Inductive Placeholder : Type :=
  | Workdir
  | Home
  | Install (tool : string).
Definition show_placeholder (p : Placeholder) : string :=
  match p with
  | Workdir => "${workdir}"
  | Home => "${home}"
  | Install t => "${install:" +:+ t +:+ "}"
  end.

Inductive AtomError : Type :=
  | Malformed (s : string)
  | UnknownPlaceholder (s : string)
  | NotAbsolute (s : string)
  | DotDot (s : string).
Definition atom_code (e : AtomError) : string :=
  match e with
  | Malformed _ => "E_MALFORMED_ATOM"
  | UnknownPlaceholder _ => "E_UNKNOWN_PLACEHOLDER"
  | NotAbsolute _ => "E_PATH_NOT_ABSOLUTE"
  | DotDot _ => "E_PATH_DOTDOT"
  end.
Definition atom_message (e : AtomError) : string :=
  match e with
  | Malformed s | UnknownPlaceholder s | NotAbsolute s => "'" +:+ s +:+ "'"
  | DotDot s => "'" +:+ s +:+ "' contains '..'"
  end.

Definition placeholder_of (inner text : string) : result AtomError Placeholder :=
  match split_once ":" inner with
  | None =>
      if decide (inner = "workdir") then Ok Workdir
      else if decide (inner = "home") then Ok Home
      else Err (UnknownPlaceholder text)
  | Some (key, arg) =>
      if bool_decide (key = "install") && is_ident arg then Ok (Install arg) else Err (UnknownPlaceholder text)
  end.
Definition leading_placeholder (s : string) : result AtomError (option (Placeholder * string)) :=
  if starts_with "${" s then
    match split_once "}" s with
    | None => Err (UnknownPlaceholder s)
    | Some (head, rest) => ph ← placeholder_of (str_drop 2 head) (head +:+ "}"); mret (Some (ph, rest))
    end
  else Ok None.
(** What follows the leading placeholder, if there is one. *)
Definition after_placeholder (s : string) : result AtomError string :=
  o ← leading_placeholder s; mret (match o with Some (_, rest) => rest | None => s end).

Definition check_path_grammar (s : string) : result AtomError unit :=
  if decide (s = "") then Err (NotAbsolute s)
  else
    rest ← after_placeholder s;
    if contains "${" rest then Err (NotAbsolute (s +:+ " (placeholders are only allowed at the start)")) else Ok tt.

(** * Atoms *)

Inductive GrantItem : Type :=
  | GrantAtom (prefix operand : string)
  | GrantBundle (name : string).
Definition classify (s : string) : result AtomError GrantItem :=
  match split_once ":" s with
  | Some (prefix, operand) =>
      if bool_decide (prefix ∈ ATOM_PREFIXES) then Ok (GrantAtom prefix operand) else Err (Malformed s)
  | None =>
      if negb (is_ident s) || bool_decide (s ∈ RESERVED_BUNDLE_NAMES) then Err (Malformed s) else Ok (GrantBundle s)
  end.

Definition is_label (l : string) : bool :=
  negb (bool_decide (l = "")) && all_bytes (fun b => is_ascii_lowercase b || is_ascii_digit b || is_byte "-" b) l.
Definition is_host (h : string) : bool :=
  let '(name, port) :=
    match rsplit_once ":" h with
    | Some (n, p) => if negb (bool_decide (p = "")) && all_bytes is_ascii_digit p then (n, Some p) else (h, None)
    | None => (h, None)
    end in
  match port with Some p => (String.length p <=? 5)%nat | None => true end &&
  negb (bool_decide (name = "")) && forallb is_label (split_char "." name).

Definition is_alnum (b : ascii) : bool := is_ascii_lowercase b || is_ascii_uppercase b || is_ascii_digit b.
Definition ok_if (b : bool) (e : AtomError) : result AtomError unit := if b then Ok tt else Err e.
Definition check_atom_grammar (s : string) : result AtomError unit :=
  match split_once ":" s with
  | None => Err (Malformed s)
  | Some (prefix, operand) =>
      if negb (bool_decide (prefix ∈ ATOM_PREFIXES)) || bool_decide (operand = "") then Err (Malformed s)
      else if bool_decide (prefix = "fs.ro") || bool_decide (prefix = "fs.rw") then
        if is_pchar_string operand then
          rest ← after_placeholder operand;
          ok_if (negb (contains "${" rest)) (Malformed s)
        else Err (Malformed s)
      else if decide (prefix = "net") then
        ok_if (bool_decide (operand = "*") || forallb is_host (split_char "," operand)) (Malformed s)
      else if decide (prefix = "proc") then
        ok_if (is_ident operand || (starts_with "/" operand && is_pchar_string operand)) (Malformed s)
      else if decide (prefix = "tool") then ok_if (is_tool_name operand) (Malformed s)
      else if decide (prefix = "spawn") then ok_if (is_ident operand) (Malformed s)
      else if decide (prefix = "secret") then
        ok_if (all_bytes (fun b => is_alnum b || is_byte "_" b) operand) (Malformed s)
      else Err (Malformed s)
  end.

(** * Expansion *)

Record Expander : Type := {
  ex_workdir : string;
  ex_home : string;
  ex_install : list (string * string)
}.

Definition substitute (ex : Expander) (ph : Placeholder) : result AtomError string :=
  match ph with
  | Workdir => Ok (from_utf8_lossy (ex_workdir ex))
  | Home => Ok (from_utf8_lossy (ex_home ex))
  | Install tool => ok_or (UnknownPlaceholder (show_placeholder ph)) (omap_get tool (ex_install ex))
  end.
Definition expand_raw (ex : Expander) (s : string) : result AtomError string :=
  o ← leading_placeholder s;
  match o with
  | Some (ph, rest) => t ← substitute ex ph; mret (t +:+ rest)
  | None => Ok s
  end.
Definition normalize_abs_path (raw : string) : result AtomError string :=
  if negb (is_absolute raw) then Err (NotAbsolute raw)
  else if bool_decide (ParentDir ∈ path_components raw) then Err (DotDot raw)
  else map_err (fun _ => NotAbsolute raw) (normalize_path raw).
Definition expand_path (ex : Expander) (s : string) : result AtomError string :=
  raw ← expand_raw ex s; normalize_abs_path raw.
Definition expand_atom (ex : Expander) (s : string) : result AtomError Capability :=
  _ ← check_atom_grammar s;
  match split_once ":" s with
  | None => Err (Malformed s)
  | Some (prefix, operand) =>
      if bool_decide (prefix = "fs.ro") || bool_decide (prefix = "fs.rw") then
        path ← expand_path ex operand;
        mret (Fs path (if decide (prefix = "fs.ro") then Ro else Rw))
      else if bool_decide (prefix = "proc") && starts_with "/" operand then
        path ← normalize_abs_path operand;
        mret (Proc (from_utf8_lossy path))
      else map_err (fun _ => Malformed s) (from_str s)
  end.

(** * Messages *)

Definition join_symbolic (prefix rest : string) : string :=
  if decide (rest = "") then prefix else prefix +:+ "/" +:+ from_utf8_lossy rest.
Definition sym_path (workdir home p : string) : string :=
  match path_strip_prefix p workdir with
  | Some rest => join_symbolic "${workdir}" rest
  | None =>
      match path_strip_prefix p home with
      | Some rest => join_symbolic "${home}" rest
      | None => from_utf8_lossy p
      end
  end.
Definition symbolize (cap : Capability) (workdir home : string) : string :=
  match cap with
  | Fs path mode => "fs." +:+ mode_str mode +:+ ":" +:+ sym_path workdir home path
  | Proc program => if starts_with "/" program then "proc:" +:+ sym_path workdir home program else display cap
  | other => display other
  end.

(** The examples of the source's tests. *)
Definition ex_tests : Expander :=
  {| ex_workdir := "/work/repo"; ex_home := "/home/u"; ex_install := [("solver", "/opt/inhouse/solver")] |}.
Example expand_ex : expand_atom ex_tests "fs.rw:${workdir}//src/./x" = Ok (Fs "/work/repo/src/x" Rw).
Proof. reflexivity. Qed.
Example symbolize_ex : symbolize (Fs "/work/repo/src/x" Rw) "/work/repo" "/home/u" = "fs.rw:${workdir}/src/x".
Proof. reflexivity. Qed.
Example expand_install_ex : expand_atom ex_tests "fs.ro:${install:solver}" = Ok (Fs "/opt/inhouse/solver" Ro).
Proof. reflexivity. Qed.
Example expand_missing_ex : expand_atom ex_tests "fs.ro:${install:thermal}" = Err (UnknownPlaceholder "${install:thermal}").
Proof. reflexivity. Qed.
Example expand_dotdot_ex : expand_atom ex_tests "fs.rw:${workdir}/../shared" = Err (DotDot "/work/repo/../shared").
Proof. reflexivity. Qed.
Example grammar_ex : is_ok (check_atom_grammar "net:a.example,b.example:443") && is_ok (check_atom_grammar "tool:mcp.docs.search")
  && is_ok (check_atom_grammar "secret:LITELLM_CI_API_KEY") && is_ok (check_atom_grammar "fs.ro:data/meshes") = true.
Proof. reflexivity. Qed.
Example grammar_bad_ex : existsb (fun s => is_ok (check_atom_grammar s))
  ["fs.rwx:${workdir}"; "net:"; "Fs.ro:/x"; "net:*,a.example"; "proc:Sbatch"; "tool:Read"; "fs.ro:/x/${workdir}"; "meshing"; "fs.rw:${repo}"] = false.
Proof. reflexivity. Qed.

(** * What expansion makes is in normal form *)

(** ** Hosts *)

Definition host_byte (b : ascii) : bool :=
  is_ascii_lowercase b || is_ascii_digit b || is_byte "-" b || is_byte "." b || is_byte ":" b.
(** Claims about every byte are checked on each. *)
Ltac each_byte := intros [[][][][][][][][]]; lazy; try done; try (intros _; split; done).
Lemma host_byte_lower b : host_byte b = true -> ascii_lower b = b.
Proof. revert b. each_byte. Qed.
Lemma host_byte_ascii b : host_byte b = true -> (33 <=? byte_val b)%N && (byte_val b <? 128)%N = true.
Proof. revert b. each_byte. Qed.
Lemma lower_host s : all_bytes host_byte s = true -> to_ascii_lowercase s = s.
Proof.
  induction s as [|b s IH]; [done|]. cbn [all_bytes to_ascii_lowercase map_bytes]. intros [Hb Hs]%andb_true_iff.
  by rewrite host_byte_lower, IH.
Qed.
Definition plain_byte (b : ascii) : bool := (33 <=? byte_val b)%N && (byte_val b <? 128)%N.
Lemma strip_ws_plain b s : plain_byte b = true -> strip_ws (String b s) = None.
Proof.
  destruct s as [|c [|d s]]; revert b.
  - each_byte.
  - intros [[][][][][][][][]]; lazy -[byte_val]; try done.
  - intros [[][][][][][][][]]; lazy -[byte_val]; try done.
Qed.
Lemma strip_all_plain n s : all_bytes plain_byte s = true -> strip_all strip_ws n s = s.
Proof.
  destruct n, s as [|a s]; [done..|]. cbn [all_bytes strip_all]. intros [Ha _]%andb_true_iff. by rewrite strip_ws_plain.
Qed.
Lemma strip_all_rev_plain n s : all_bytes plain_byte s = true -> strip_all strip_ws_rev n s = s.
Proof.
  destruct n, s as [|a s]; [done..|]. cbn [all_bytes strip_all]. intros [Ha Hs]%andb_true_iff.
  unfold strip_ws_rev. rewrite strip_ws_plain by done. destruct s as [|b s]; [done|].
  cbn [all_bytes] in Hs. apply andb_true_iff in Hs as [Hb Hs]. rewrite strip_ws_plain by done.
  destruct s as [|c s]; [done|]. cbn [all_bytes] in Hs. apply andb_true_iff in Hs as [Hc _]. by rewrite strip_ws_plain.
Qed.
Lemma trim_plain s : all_bytes plain_byte s = true -> trim s = s.
Proof.
  intros Hs. unfold trim. rewrite strip_all_plain by done. rewrite strip_all_rev_plain; [apply rev_twice|].
  unfold String.rev. by rewrite all_bytes_rev_app, Hs.
Qed.
Lemma is_label_no_dot l : is_label l = true -> l <> "" /\ all_bytes (fun b => is_ascii_lowercase b || is_ascii_digit b || is_byte "-" b) l = true.
Proof. unfold is_label. intros [H%negb_true_iff%bool_decide_eq_false ?]%andb_true_iff. done. Qed.
Lemma labels_bytes ls : forallb is_label ls = true -> all_bytes host_byte (join "." ls) = true.
Proof.
  assert (Hl : forall l, is_label l = true -> all_bytes host_byte l = true).
  { intros l [_ H]%is_label_no_dot. eapply all_bytes_impl; [|done]. intros a Ha. unfold host_byte. by rewrite Ha. }
  induction ls as [|l ls IH]; [done|]. cbn [forallb]. intros [H1 H2]%andb_true_iff. destruct ls as [|l' ls]; [by apply Hl|].
  change (join "." (l :: l' :: ls)) with (l +:+ "." +:+ join "." (l' :: ls)).
  rewrite !all_bytes_app, (Hl _ H1), IH by done. done.
Qed.
Lemma labels_end ls : forallb is_label ls = true -> ls <> [] -> ends_with_char "." (join "." ls) = false.
Proof.
  induction ls as [|l ls IH]; [done|]. cbn [forallb]. intros [H1 H2]%andb_true_iff _.
  destruct (is_label_no_dot _ H1) as [Hne Hb]. destruct ls as [|l' ls].
  - cbn [join]. destruct (ends_with_char "." l) eqn:E; [|done]. apply ends_with_has_char in E.
    by rewrite (has_char_false _ _ _ Hb) in E.
  - change (join "." (l :: l' :: ls)) with (l +:+ "." +:+ join "." (l' :: ls)).
    rewrite ends_with_char_app by (by destruct (join "." (l' :: ls))).
    assert (join "." (l' :: ls) <> "") as Hj.
    { cbn [forallb] in H2. apply andb_true_iff in H2 as [[? _]%is_label_no_dot _]. destruct l'; [done|]. by destruct ls. }
    rewrite ends_with_char_app by done. by apply IH.
Qed.

Lemma forallb_is_label_colon ls : forallb is_label ls = true -> has_char ":" (join "." ls) = false.
Proof.
  assert (Hl : forall l, is_label l = true -> has_char ":" l = false).
  { intros l [_ H]%is_label_no_dot. by apply (has_char_false _ _ _ H). }
  induction ls as [|l ls IH]; [done|]. cbn [forallb]. intros [H1 H2]%andb_true_iff. destruct ls as [|l' ls]; [by apply Hl|].
  change (join "." (l :: l' :: ls)) with (l +:+ "." +:+ join "." (l' :: ls)).
  rewrite !has_char_app, (Hl _ H1), IH by done. done.
Qed.
Lemma is_port_bytes p : is_port p = true -> all_bytes host_byte p = true /\ has_char ":" p = false.
Proof.
  unfold is_port. intros [_ Hp]%andb_true_iff. split; [|by apply (has_char_false _ _ _ Hp)].
  eapply all_bytes_impl; [|exact Hp]. each_byte.
Qed.
Lemma normalize_host_bytes h : all_bytes host_byte h = true ->
  normalize_host h = match rsplit_once ":" h with
                     | Some (name, port) => if is_port port then trim_end_matches "." name +:+ ":" +:+ port else trim_end_matches "." h
                     | None => trim_end_matches "." h
                     end.
Proof.
  intros Hh. unfold normalize_host. rewrite trim_plain, lower_host; [done..|].
  eapply all_bytes_impl; [|exact Hh]. apply host_byte_ascii.
Qed.
Lemma host_ok_labels name h :
  forallb is_label (split_char "." name) = true -> name <> "" ->
  h = name \/ (exists p, h = name +:+ ":" +:+ p /\ is_port p = true) -> host_ok h.
Proof.
  intros Hls Hne Hh. pose proof (labels_bytes _ Hls) as Hb. pose proof (forallb_is_label_colon _ Hls) as Hcol.
  pose proof (join_split "." name : join "." _ = _) as Hj.
  assert (Hend : ends_with_char "." name = false).
  { rewrite <- Hj. apply labels_end; [done|]. intros E. by rewrite E in Hj. }
  rewrite Hj in Hb, Hcol.
  assert (Hall : all_bytes host_byte h = true).
  { destruct Hh as [->|(p & -> & [Hp _]%is_port_bytes)]; [done|]. by rewrite !all_bytes_app, Hb, Hp. }
  split_and!; [| | |by apply (has_char_false _ _ _ Hall)].
  - rewrite normalize_host_bytes by done. destruct Hh as [->|(p & -> & Hp)].
    + rewrite rsplit_once_None by done. by apply trim_end_matches_id.
    + change (name +:+ ":" +:+ p) with (name +:+ String ":" p). rewrite rsplit_once_app by by apply is_port_bytes.
      by rewrite Hp, trim_end_matches_id.
  - intros ->. destruct Hh as [<-|(p & Hp & _)]; [done|]. by destruct name.
  - intros ->. done.
Qed.
(** A host of the profile grammar is one the kernel's parser leaves alone. *)
Lemma is_host_ok h : is_host h = true -> host_ok h.
Proof.
  unfold is_host. destruct (rsplit_once ":" h) as [[n p]|] eqn:Hr.
  - destruct (negb _ && _) eqn:Hp; intros [[_ Hne%negb_true_iff%bool_decide_eq_false]%andb_true_iff Hls]%andb_true_iff;
      apply (host_ok_labels _ _ Hls Hne); [right|by left].
    apply rsplit_once_Some in Hr as [-> _]. by exists p.
  - intros [[_ Hne%negb_true_iff%bool_decide_eq_false]%andb_true_iff Hls]%andb_true_iff.
    apply (host_ok_labels _ _ Hls Hne). by left.
Qed.

(** ** Texts that are ASCII *)

Lemma from_utf8_lossy_ascii s : all_bytes (byte_in 0 127) s = true -> from_utf8_lossy s = s.
Proof.
  induction s as [|a s IH]; [done|]. cbn [all_bytes]. intros [Ha Hs]%andb_true_iff.
  assert (Hh : head_char (String a s) = (true, 1%nat)).
  { unfold head_char. cbn [byte_at]. unfold byte_in in Ha. apply andb_true_iff in Ha as [_ Ha%N.leb_le].
    by rewrite (proj2 (N.ltb_lt _ _)) by lia. }
  rewrite lossy_unfold, Hh by done. cbn [fst snd str_take str_drop].
  rewrite str_app_cons. by rewrite IH by done.
Qed.
Lemma split_char_bytes f c s w : all_bytes f s = true -> w ∈ split_char c s -> all_bytes f w = true.
Proof.
  revert w. induction s as [|a s IH]; intros w; cbn [split_char all_bytes]; [by intros _ ->%list_elem_of_singleton|].
  intros [Ha Hs]%andb_true_iff. case_decide; [intros [->|?]%elem_of_cons; auto|].
  destruct (split_char c s) as [|x xs]; [intros ->%list_elem_of_singleton; cbn; by rewrite Ha|].
  intros [->|?]%elem_of_cons; [cbn [all_bytes]; rewrite Ha, IH; [done..|left]|apply IH; [done|by right]].
Qed.
Lemma body_component_seg w seg : Normal seg ∈ body_component w -> seg = w.
Proof. unfold body_component. repeat case_decide; rewrite ?list_elem_of_singleton; try (by intros ?%elem_of_nil); by intros [=]. Qed.
Lemma path_components_bytes f p seg : all_bytes f p = true -> Normal seg ∈ path_components p -> all_bytes f seg = true.
Proof.
  intros Hp Hin. apply (split_char_bytes f "/" p); [done|]. unfold path_components in Hin.
  destruct (split_char "/" p) as [|w ws]; [by apply elem_of_nil in Hin|].
  destruct (is_absolute p).
  - apply elem_of_cons in Hin as [?|(x & Hx%body_component_seg & Hin)%list_elem_of_bind]; [done|by subst].
  - apply elem_of_app in Hin as [Hin|(x & Hx%body_component_seg & Hin)%list_elem_of_bind]; [|subst; by right].
    case_decide; [by apply list_elem_of_singleton in Hin|]. apply body_component_seg in Hin as ->. left.
Qed.
Lemma normalize_components_bytes f p out cs q :
  f "/"%char = true -> all_bytes f out = true -> (forall seg, Normal seg ∈ cs -> all_bytes f seg = true) ->
  normalize_components p out cs = Ok q -> all_bytes f q = true.
Proof.
  intros Hf. revert out. induction cs as [|c cs IH]; intros out Ho Hcs; [by intros [= <-]|].
  assert (forall seg, Normal seg ∈ cs -> all_bytes f seg = true) by (intros; apply Hcs; by right).
  destruct c as [| | |seg]; cbn [normalize_components]; [by apply IH..|done|].
  case_decide; [done|]. apply IH; [|done]. specialize (Hcs seg ltac:(left)). unfold path_push.
  destruct (ends_with_char "/" out); rewrite !all_bytes_app, Ho, Hcs; cbn [all_bytes]; by rewrite ?Hf.
Qed.
Lemma normalize_path_bytes f p q : f "/"%char = true -> all_bytes f p = true -> normalize_path p = Ok q -> all_bytes f q = true.
Proof.
  intros Hf Hp. unfold normalize_path. destruct (is_absolute p); [|done]. apply normalize_components_bytes; [done| |].
  - cbn [all_bytes]. by rewrite Hf.
  - intros seg. by apply path_components_bytes.
Qed.

(** ** Atoms *)

Lemma normalize_hosts_elem h hs : h ∈ normalize_hosts hs -> h ∈ hs.
Proof. unfold normalize_hosts. rewrite !list_elem_of_In. by intros [? _]%filter_In. Qed.
Lemma normalize_hosts_bare h hs : h ∈ hs -> (host_parts h).2 = None -> h ∈ normalize_hosts hs.
Proof.
  intros Hin Hb. unfold normalize_hosts. apply list_elem_of_In, filter_In. rewrite <- list_elem_of_In. split; [done|].
  destruct (host_parts h) as [name port]. cbn in Hb. by subst.
Qed.
Definition bare_hosts (hs : list string) : list string :=
  List.filter (fun h => bool_decide ((host_parts h).2 = None)) hs.
Lemma normalize_hosts_idemp hs : normalize_hosts (normalize_hosts hs) = normalize_hosts hs.
Proof.
  assert (Hb : forall h, h ∈ bare_hosts (normalize_hosts hs) <-> h ∈ bare_hosts hs).
  { intros h. unfold bare_hosts. rewrite !list_elem_of_In, !filter_In, <- !list_elem_of_In, bool_decide_eq_true. split.
    - intros [?%normalize_hosts_elem ?]. done.
    - intros [? ?]. split; [by apply normalize_hosts_bare|done]. }
  unfold normalize_hosts at 1. fold (bare_hosts (normalize_hosts hs)).
  apply forallb_filter_id, forallb_forall. intros h Hh. unfold normalize_hosts in Hh.
  apply filter_In in Hh as [_ Hh]. fold (bare_hosts hs) in Hh. destruct (host_parts h) as [name [port|]]; [|done].
  rewrite negb_true_iff, bool_decide_eq_false in Hh |- *. by rewrite Hb.
Qed.
Lemma normalize_hosts_nonempty hs : hs <> [] -> normalize_hosts hs <> [].
Proof.
  intros Hne Hnil. destruct hs as [|h hs]; [done|]. assert (h ∉ normalize_hosts (h :: hs)) as Hh by (rewrite Hnil; apply not_elem_of_nil).
  apply Hh. unfold normalize_hosts. apply list_elem_of_In, filter_In. split; [by left|].
  destruct (host_parts h) as [name [port|]]; [|done]. apply negb_true_iff, bool_decide_eq_false. intros Hb.
  assert (name ∈ normalize_hosts (h :: hs)) as Hin; [|rewrite Hnil in Hin; by apply elem_of_nil in Hin].
  apply list_elem_of_In, filter_In in Hb as [Hb Hbare%bool_decide_eq_true]. apply normalize_hosts_bare; [by apply list_elem_of_In|done].
Qed.
Lemma filter_sorted {A} (R : A -> A -> Prop) (f : A -> bool) l : StronglySorted R l -> StronglySorted R (List.filter f l).
Proof.
  induction 1 as [|x l Hl IH Hx]; [constructor|]. cbn [List.filter]. destruct (f x); [|done]. constructor; [done|].
  rewrite Forall_forall in Hx |- *. intros y Hy%list_elem_of_In. apply filter_In in Hy as [Hy _]. by apply Hx, list_elem_of_In.
Qed.
Lemma parse_net_normal s operand c :
  operand = "*" \/ forallb is_host (split_char "," operand) = true -> parse_net s operand = Ok c -> normal_cap c.
Proof.
  intros Hop. unfold parse_net. case_decide; [done|]. case_decide as Hs; [by intros [= <-]|]. destruct Hop as [?|Hop]; [done|].
  assert (Hh : Forall host_ok (split_char "," operand)).
  { apply Forall_forall. intros h Hh%list_elem_of_In. rewrite forallb_forall in Hop. by apply is_host_ok, Hop. }
  rewrite parse_hosts_ok by done. intros [= <-]. set (hs := oset_of_list (split_char "," operand)).
  pose proof (oset_of_list_spec (split_char "," operand)) as [Hsort Hel]. split_and!.
  - apply normalize_hosts_nonempty. intros Hnil. destruct (split_char "," operand) as [|w ws] eqn:E.
    + by destruct operand as [|a operand]; cbn in E; repeat case_match.
    + specialize (Hel w). fold hs in Hel. rewrite Hnil in Hel. apply (not_elem_of_nil w), Hel. left.
  - unfold normalize_hosts. by apply filter_sorted.
  - apply normalize_hosts_idemp.
  - apply Forall_forall. intros h Hin%normalize_hosts_elem. apply Hel in Hin. rewrite Forall_forall in Hh. by apply Hh.
Qed.
Lemma normalize_abs_path_normal raw p : normalize_abs_path raw = Ok p -> normalize_path p = Ok p.
Proof.
  unfold normalize_abs_path. destruct (negb _); [done|]. case_bool_decide; [done|]. intros Hp%map_err_Ok.
  by apply normalize_path_spec in Hp as (segs & -> & ?); apply normalize_path_render.
Qed.
Lemma pchar_ascii s : is_pchar_string s = true -> all_bytes (byte_in 0 127) s = true.
Proof.
  unfold is_pchar_string. intros [_ H]%andb_true_iff. eapply all_bytes_impl; [|exact H]. each_byte.
Qed.
Lemma is_ident_no_slash s : starts_with "/" s = true -> is_ident s = false.
Proof. intros (r & ->)%starts_with_spec. done. Qed.

(** Expansion makes atoms in the kernel's normal form. *)
Lemma expand_atom_normal ex s c : expand_atom ex s = Ok c -> normal_cap c.
Proof.
  unfold expand_atom. intros (u & Hg & H)%result_bind_Ok. unfold check_atom_grammar in Hg.
  destruct (split_once ":" s) as [[prefix operand]|] eqn:Hs; [|done].
  destruct (negb _ || _) eqn:Hp; [done|]. apply orb_false_iff in Hp as [_ Hne%bool_decide_eq_false].
  destruct (bool_decide (prefix = "fs.ro") || bool_decide (prefix = "fs.rw")) eqn:Hfs.
  { apply result_bind_Ok in H as (path & Hpath & H). injection H as <-. unfold expand_path in Hpath.
    apply result_bind_Ok in Hpath as (raw & _ & Hpath). by apply normalize_abs_path_normal in Hpath. }
  apply orb_false_iff in Hfs as [Hro%bool_decide_eq_false Hrw%bool_decide_eq_false].
  cbn iota in Hg, H.
  destruct (bool_decide (prefix = "proc") && starts_with "/" operand) eqn:Hproc.
  { apply andb_true_iff in Hproc as [->%bool_decide_eq_true Hsl]. apply result_bind_Ok in H as (path & Hpath & H). injection H as <-.
    destruct (decide ("proc" = "net")) as [?|_]; [done|]. destruct (decide ("proc" = "proc")) as [_|?]; [|done].
    rewrite is_ident_no_slash, Hsl in Hg by done.
    destruct (is_pchar_string operand) eqn:Hpc; [|done].
    unfold normalize_abs_path in Hpath. destruct (negb _); [done|]. case_bool_decide; [done|]. apply map_err_Ok in Hpath.
    pose proof (normalize_path_bytes (byte_in 0 127) _ _ eq_refl (pchar_ascii _ Hpc) Hpath) as Hascii.
    rewrite from_utf8_lossy_ascii by done. apply normalize_path_spec in Hpath as (segs & -> & Hsegs).
    split; [done|]. intros _. by apply normalize_path_render. }
  apply map_err_Ok in H. unfold from_str in H. rewrite Hs in H. rewrite !decide_False in H by done.
  case_decide as Hnet; [subst|].
  { eapply parse_net_normal; [|exact H].
    unfold ok_if in Hg. destruct (_ || _) eqn:E; [|done]. apply orb_true_iff in E as [?%bool_decide_eq_true|?]; [by left|by right]. }
  case_decide as Hpr; [subst|].
  { rewrite bool_decide_true in Hproc by done. cbn [andb] in Hproc. unfold nonempty in H. rewrite decide_False in H by done.
    cbn [mbind result_bind] in H. rewrite Hproc in H. injection H as <-. split; [done|]. by rewrite Hproc. }
  unfold nonempty in H. repeat case_decide; try done; by injection H as <-.
Qed.
