(* ===== verification/Schema.v ===== *)
(** [profiles/src/schema.rs]: validation of one profile file.  A static description of each file's shape
    drives a generic walk for unknown keys, kernel-only keys and types; the passes after it check the
    values and rewrite the table (text sources become text, relative paths absolute). *)

From Stdlib Require Import Floats.SpecFloat.
From S2P Require Import Prelude Ord Str Utf8 Capability Paths Sandbox Json Event Registry Toml Atom.

Open Scope string_scope.
Open Scope list_scope.

Definition SCHEMA_VERSION : Z := 1.

Inductive FileKind : Type := FkModel | FkAgent | FkProject | FkBundles | FkCatalog.
#[export] Instance FileKind_eq_dec : EqDecision FileKind.
Proof. solve_decision. Defined.
Definition priority_range (k : FileKind) : option (Z * Z) :=
  match k with
  | FkModel => Some (100, 199)%Z
  | FkAgent | FkProject => Some (200, 899)%Z
  | FkBundles | FkCatalog => None
  end.
Definition middleware_source (k : FileKind) : MiddlewareSource :=
  match k with
  | FkModel => MsModel
  | FkAgent => MsAgent
  | FkProject => MsProject
  | FkBundles | FkCatalog => MsKernel
  end.

Definition RESERVED_MIDDLEWARE_NAMES : list string := ["recorder"; "replay"].
Definition KERNEL_ONLY_TOP : list string :=
  ["loop"; "checkpoint"; "spill"; "event_log"; "hashing"; "state"; "record"; "replay"; "kernel"; "protocol";
   "orchestrator"; "provenance"; "outer_sandbox"].
Definition KERNEL_ONLY_SANDBOX : list string := ["outer"; "seccomp"; "uidmap"].
Definition PROJECT_FORBIDDEN : list string :=
  ["agent.name"; "agent.eval_set"; "sandbox.backend"; "model.id"; "model.endpoint"; "model.context_length";
   "model.tool_format"; "model.quirks"; "prompt"; "fine_tune"].
Definition RUNTIME_OVERRIDE_KEYS : list string :=
  ["model.temperature"; "model.max_output_tokens"; "model.thinking.enabled"; "model.thinking.budget_tokens";
   "agent.context_budget_tokens"; "notebook.path"].

(** * Shapes *)

Inductive Ty : Type :=
  | TyStr | TyInt | TyBool | TyNum | TyStrList | TyText | TyAny
  | TyTable (spec : TableSpec)
  | TyTables (spec : TableSpec)
with TableSpec : Type :=
  | Spec (keys : list (string * Ty)) (kernel_only : list string) (open_ : option Ty).
Definition closed (keys : list (string * Ty)) : TableSpec := Spec keys [] None.

Definition QUIRKS : TableSpec := closed
  [("reasoning_field", TyStr); ("supports_structured_output", TyBool); ("supports_stream_usage", TyBool);
   ("strict_tool_schema", TyBool); ("auth", TyStr)].
Definition THINKING : TableSpec := closed [("enabled", TyBool); ("budget_tokens", TyInt)].
Definition MODEL : TableSpec := closed
  [("id", TyStr); ("endpoint", TyStr); ("context_length", TyInt); ("tool_format", TyStr); ("temperature", TyNum);
   ("max_output_tokens", TyInt); ("thinking", TyTable THINKING); ("quirks", TyTable QUIRKS)].
Definition COMPACTION : TableSpec := closed [("trigger_at", TyNum); ("target", TyNum)].
Definition FINE_TUNE : TableSpec := closed [("trained_against_profile_hash", TyStr); ("warn_on_drift", TyBool)].
Definition MIDDLEWARE_ENTRY : TableSpec := closed [("name", TyStr); ("priority", TyInt); ("config", TyAny)].
Definition TOOL_DESCRIPTIONS : TableSpec := Spec [] [] (Some TyText).
Definition EVAL_SET : TableSpec := closed [("dev", TyStr); ("hidden", TyStr)].
Definition AGENT : TableSpec := closed
  [("name", TyStr); ("description", TyStr); ("role_prompt", TyText); ("agents_md", TyStr);
   ("context_budget_tokens", TyInt); ("spill_cap_bytes", TyInt); ("eval_set", TyTable EVAL_SET)].
Definition CAPABILITIES : TableSpec := closed [("grants", TyStrList)].
Definition TOOLS : TableSpec := closed [("allow", TyStrList)].
Definition STR_MAP : TableSpec := Spec [] [] (Some TyStr).
Definition MCP_SERVER : TableSpec := closed
  [("name", TyStr); ("transport", TyStr); ("command", TyStrList); ("url", TyStr); ("capabilities", TyStrList);
   ("description", TyStr); ("tools", TyStrList); ("index", TyStr); ("env", TyTable STR_MAP)].
Definition SKILLS : TableSpec := closed [("paths", TyStrList)].
Definition EXTENSIONS : TableSpec := closed [("paths", TyStrList)].
Definition SUBAGENT : TableSpec := closed
  [("name", TyStr); ("catalog", TyStr); ("capabilities", TyStrList); ("definition", TyStr); ("description", TyStr)].
Definition MEMORY : TableSpec := closed [("module", TyStr); ("config", TyAny)].
Definition SANDBOX : TableSpec := Spec
  [("backend", TyStr); ("timeout_s", TyInt); ("scratch_tmpfs_mb", TyInt); ("env_allow", TyStrList); ("network", TyBool)]
  KERNEL_ONLY_SANDBOX None.
Definition NOTEBOOK : TableSpec := closed [("path", TyStr); ("inject_on_resume", TyBool); ("max_tokens", TyInt)].

Definition MODEL_FILE : TableSpec := Spec
  [("schema_version", TyInt); ("model", TyTable MODEL); ("prompt", TyText);
   ("tool_descriptions", TyTable TOOL_DESCRIPTIONS); ("compaction", TyTable COMPACTION);
   ("fine_tune", TyTable FINE_TUNE); ("middleware", TyTables MIDDLEWARE_ENTRY)] KERNEL_ONLY_TOP None.
Definition agent_keys : list (string * Ty) :=
  [("agent", TyTable AGENT); ("capabilities", TyTable CAPABILITIES); ("tools", TyTable TOOLS);
   ("mcp_servers", TyTables MCP_SERVER); ("skills", TyTable SKILLS); ("extensions", TyTable EXTENSIONS);
   ("subagents", TyTables SUBAGENT); ("middleware", TyTables MIDDLEWARE_ENTRY); ("memory", TyTable MEMORY);
   ("sandbox", TyTable SANDBOX); ("notebook", TyTable NOTEBOOK)].
Definition AGENT_FILE : TableSpec := Spec (("schema_version", TyInt) :: agent_keys) KERNEL_ONLY_TOP None.
Definition PROJECT_FILE : TableSpec := Spec
  ([("schema_version", TyInt); ("model", TyTable MODEL); ("prompt", TyText);
    ("tool_descriptions", TyTable TOOL_DESCRIPTIONS); ("compaction", TyTable COMPACTION);
    ("fine_tune", TyTable FINE_TUNE)] ++ agent_keys) KERNEL_ONLY_TOP None.
Definition BUNDLE : TableSpec := closed [("description", TyStr); ("atoms", TyStrList)].
Definition BUNDLES_MAP : TableSpec := Spec [] [] (Some (TyTable BUNDLE)).
Definition BUNDLES_FILE : TableSpec := Spec
  [("schema_version", TyInt); ("install", TyTable STR_MAP); ("bundles", TyTable BUNDLES_MAP)] KERNEL_ONLY_TOP None.
Definition CATALOG_ENTRY : TableSpec := closed
  [("name", TyStr); ("description", TyStr); ("model_profile", TyStr); ("agent_profile", TyStr)].
Definition CATALOG_FILE : TableSpec := Spec
  [("schema_version", TyInt); ("agents", TyTables CATALOG_ENTRY)] KERNEL_ONLY_TOP None.
Definition spec_for (k : FileKind) : TableSpec :=
  match k with
  | FkModel => MODEL_FILE
  | FkAgent => AGENT_FILE
  | FkProject => PROJECT_FILE
  | FkBundles => BUNDLES_FILE
  | FkCatalog => CATALOG_FILE
  end.

(** * Output *)

Record MwEntry : Type := {
  men_name : string;
  men_priority : Z;
  men_config : Table;
  men_source : MiddlewareSource;
  men_file : option string;
  men_index : nat
}.
Record ValidatedFile : Type := {
  vf_kind : FileKind;
  vf_path : string;
  vf_hash : string;
  vf_table : Table;
  vf_middleware : list MwEntry
}.
(** The file being checked and its directory. *)
Record Cx : Type := { cx_file : string; cx_dir : string }.
Definition for_merged (file : string) : Cx := {| cx_file := file; cx_dir := "/" |}.

Definition err (cx : Cx) (code path msg : string) : list Diagnostic := [diag code (Some (cx_file cx)) path msg].
Definition atom_err (cx : Cx) (path : string) (e : AtomError) : list Diagnostic := err cx (atom_code e) path (atom_message e).
Definition complain (b : bool) (ds : list Diagnostic) : list Diagnostic := if b then ds else [].

(** * The walk *)

Section walk.
Context (cx : Cx).

Definition check_schema_version (t : Table) : list Diagnostic :=
  match omap_get "schema_version" t with
  | None => err cx "E_SCHEMA_VERSION" "schema_version" "missing"
  | Some (TInteger v) =>
      if (SCHEMA_VERSION <? v)%Z then
        err cx "E_SCHEMA_VERSION" "schema_version" (show_Z v +:+ " unsupported (max " +:+ show_Z SCHEMA_VERSION +:+ ")")
      else if (v <? 1)%Z then
        err cx "E_SCHEMA_VERSION" "schema_version" (show_Z v +:+ " unsupported (no migration registered)")
      else []
  | Some _ => err cx "E_SCHEMA_VERSION" "schema_version" "must be an integer"
  end.

(** One entry of a table, given the walk of a value. *)
Definition walk_entry (walk : toml -> Ty -> string -> list Diagnostic) (spec : TableSpec) (path : string)
    (kv : string * toml) : list Diagnostic :=
  let '(Spec keys kernel_only open_) := spec in
  let kp := key_join path kv.1 in
  if bool_decide (path = "") && bool_decide (kv.1 = "schema_version") then []
  else
    match List.find (fun e => bool_decide (e.1 = kv.1)) keys with
    | Some (_, ty) => walk kv.2 ty kp
    | None =>
        if bool_decide (kv.1 ∈ kernel_only) then
          err cx "E_KERNEL_ONLY_KEY" kp "this names a kernel behaviour; profiles cannot override it"
        else match open_ with
             | Some ty => walk kv.2 ty kp
             | None => err cx "E_UNKNOWN_KEY" kp "unknown key"
             end
    end.

Definition text_source_ok (v : toml) : bool :=
  match v with
  | TString _ => true
  | TTable [(k, TString _)] => bool_decide (k = "text") || bool_decide (k = "file")
  | _ => false
  end.
Definition is_str (v : toml) : bool := match v with TString _ => true | _ => false end.
Definition is_num (v : toml) : bool := match v with TFloat _ | TInteger _ => true | _ => false end.
Definition check_items (path : string) (items : list toml) : list Diagnostic :=
  flat_map (fun iv => complain (negb (is_str iv.2)) (err cx "E_VALUE_RANGE" (idx path iv.1) "must be a string")) (indexed 0 items).

(** [walk_value] and, for a table, [walk_table]. *)
Fixpoint walk_value (v : toml) (ty : Ty) (path : string) {struct v} : list Diagnostic :=
  match ty with
  | TyStr => complain (negb (is_str v)) (err cx "E_VALUE_RANGE" path "must be a string")
  | TyInt => match v with TInteger _ => [] | _ => err cx "E_VALUE_RANGE" path "must be an integer" end
  | TyBool => match v with TBoolean _ => [] | _ => err cx "E_VALUE_RANGE" path "must be a boolean" end
  | TyNum => complain (negb (is_num v)) (err cx "E_VALUE_RANGE" path "must be a number")
  | TyStrList =>
      match v with
      | TArray items => check_items path items
      | _ => err cx "E_VALUE_RANGE" path "must be a list of strings"
      end
  | TyText => complain (negb (text_source_ok v)) (err cx "E_TEXT_SOURCE" path "exactly one of 'text' or 'file'")
  | TyAny => match v with TTable _ => [] | _ => err cx "E_VALUE_RANGE" path "must be a table" end
  | TyTable spec =>
      match v with
      | TTable t => flat_map (walk_entry walk_value spec path) t
      | _ => err cx "E_VALUE_RANGE" path "must be a table"
      end
  | TyTables spec =>
      match v with
      | TArray items =>
          (fix go (i : nat) (items : list toml) : list Diagnostic :=
             match items with
             | [] => []
             | item :: items =>
                 match item with
                 | TTable t => flat_map (walk_entry walk_value spec (idx path i)) t
                 | _ => err cx "E_VALUE_RANGE" (idx path i) "must be a table"
                 end ++ go (S i) items
             end) 0%nat items
      | _ => err cx "E_VALUE_RANGE" path "must be an array of tables"
      end
  end.
Definition walk_table (t : Table) (spec : TableSpec) (path : string) : list Diagnostic :=
  flat_map (walk_entry walk_value spec path) t.
End walk.

(** * Passes *)

(** A pass reads and may rewrite the table, and reports what it finds. *)
Definition pass : Type := Table -> Table * list Diagnostic.
Definition look (f : Table -> list Diagnostic) : pass := fun t => (t, f t).
Definition rewrite_at (dotted : string) (f : toml -> toml * list Diagnostic) : pass := fun t =>
  match get t dotted with
  | Some v => (update t dotted (fun _ => (f v).1), (f v).2)
  | None => (t, [])
  end.
Fixpoint passes (ps : list pass) : pass := fun t =>
  match ps with
  | [] => (t, [])
  | p :: ps => let '(t1, d1) := p t in let '(t2, d2) := passes ps t1 in (t2, d1 ++ d2)
  end.

Section passes.
Context {HP : Platform} {HF : FileSystem}.
Context (cx : Cx).

(** [std::fs::read_to_string]. *)
Definition read_to_string (p : string) : result string string :=
  text ← fs_read p; if utf8_valid text then Ok text else Err "stream did not contain valid UTF-8".

Definition require_positive (dotted : string) : pass := look (fun t =>
  match int t dotted with Some v => complain (v <=? 0)%Z (err cx "E_VALUE_RANGE" dotted "must be > 0") | None => [] end).
(** A check of the string at a name, if there is one. *)
Definition check_str (dotted : string) (ok : string -> bool) (msg : string) : pass := look (fun t =>
  match str_at t dotted with Some s => complain (negb (ok s)) (err cx "E_VALUE_RANGE" dotted msg) | None => [] end).

Definition resolve_text_source (dotted : string) : pass := rewrite_at dotted (fun v =>
  match v with
  | TTable src =>
      match omap_get "text" src, omap_get "file" src with
      | Some (TString s), _ => (TString s, [])
      | _, Some (TString f) =>
          match read_to_string (path_join (cx_dir cx) f) with
          | Ok s => (TString s, [])
          | Err _ => (v, err cx "E_FILE_NOT_FOUND" (dotted +:+ ".file") ("'" +:+ f +:+ "'"))
          end
      | _, _ => (v, [])
      end
  | _ => (v, [])
  end).

Definition is_url (s : string) : bool := contains "://" s.
Definition resolve_path_field (dotted : string) (allow_url : bool) (v : toml) : toml * list Diagnostic :=
  match v with
  | TString s =>
      if allow_url && is_url s then (v, [])
      else
        match check_path_grammar s with
        | Err e => (v, atom_err cx dotted e)
        | Ok _ =>
            if negb (starts_with "${" s) && negb (starts_with "/" s)
            then (TString (from_utf8_lossy (path_join (cx_dir cx) s)), []) else (v, [])
        end
  | _ => (v, [])
  end.
Definition resolve_path_at (dotted : string) (allow_url : bool) : pass :=
  rewrite_at dotted (resolve_path_field dotted allow_url).

Definition derived_atom (prefix p : string) : list Diagnostic :=
  if decide (prefix = "tool") then err cx "E_DERIVED_ATOM_IN_GRANTS" p "use [tools].allow"
  else if decide (prefix = "spawn") then err cx "E_DERIVED_ATOM_IN_GRANTS" p "use [[subagents]]"
  else [].
Definition check_grant (dotted : string) (allow_bundles : bool) (item : nat * string) : list Diagnostic :=
  let '(i, s) := item in
  let p := idx dotted i in
  match classify s with
  | Err e => atom_err cx p e
  | Ok (GrantBundle _) => complain (negb allow_bundles) (err cx "E_MALFORMED_ATOM" p ("'" +:+ s +:+ "' (bundles may not nest)"))
  | Ok (GrantAtom prefix _) =>
      match check_atom_grammar s with
      | Err e => atom_err cx p e
      | Ok _ => complain (bool_decide (dotted = "capabilities.grants") || negb allow_bundles) (derived_atom prefix p)
      end
  end.
Definition check_grant_list (t : Table) (dotted : string) (allow_bundles : bool) : list Diagnostic :=
  flat_map (check_grant dotted allow_bundles) (str_list t dotted).
(** The same with every path under [p]. *)
Definition under (p : string) (ds : list Diagnostic) : list Diagnostic :=
  (fun d => diag (dg_code d) (dg_file d) (p +:+ "." +:+ dg_toml_path d) (dg_message d)) <$> ds.
Definition check_env_names (names : list (string * string)) : list Diagnostic :=
  flat_map (fun pn => complain (env_name_is_secret_like pn.2)
                        (err cx "E_ENV_ALLOW_SECRET_PATTERN" pn.1 ("'" +:+ pn.2 +:+ "'"))) names.

(** ** Model files *)

Definition f64_in (lo hi f : spec_float) : bool := SFleb lo f && SFleb f hi.
Definition tool_format_is_valid (tf : string) : bool :=
  bool_decide (tf = "native") || match strip_prefix "parsed:" tf with Some s => is_ident s | None => false end.
Definition auth_is_valid (auth : string) : bool :=
  bool_decide (auth = "none") || match strip_prefix "bearer:" auth with Some s => is_secret_name_upper s | None => false end.

Definition check_trigger (t : Table) : list Diagnostic :=
  match num t "compaction.trigger_at" with
  | Some tr => complain (negb (SFltb (f64_of_Z 0) tr && SFleb tr (f64_of_Z 1)))
      (err cx "E_VALUE_RANGE" "compaction.trigger_at" "must satisfy 0 < trigger_at <= 1.0")
  | None => []
  end.
Definition check_target (t : Table) : list Diagnostic :=
  match num t "compaction.target" with
  | Some ta =>
      if negb (SFltb (f64_of_Z 0) ta && SFltb ta (f64_of_Z 1)) then
        err cx "E_VALUE_RANGE" "compaction.target" "must satisfy 0 < target < trigger_at"
      else
        match num t "compaction.trigger_at" with
        | Some tr => complain (SFleb tr ta)
            (err cx "E_VALUE_RANGE" "compaction.target"
               ("must satisfy 0 < target < trigger_at (" +:+ show_f64 ta +:+ " >= " +:+ show_f64 tr +:+ ")"))
        | None => []
        end
  | None => []
  end.
Definition check_compaction (t : Table) : list Diagnostic := check_trigger t ++ check_target t.

Definition check_thinking (t : Table) : list Diagnostic :=
  match int t "model.thinking.budget_tokens" with
  | Some b =>
      if (b <? 0)%Z then err cx "E_VALUE_RANGE" "model.thinking.budget_tokens" "must be >= 0"
      else complain ((0 <? b)%Z && bool_decide (boolean t "model.thinking.enabled" = Some false))
             (err cx "E_VALUE_RANGE" "model.thinking.budget_tokens" "must be 0 when enabled = false")
  | None => []
  end.
Definition check_temperature (t : Table) : list Diagnostic :=
  match num t "model.temperature" with
  | Some temp => complain (negb (f64_in (f64_of_Z 0) (f64_of_Z 2) temp))
      (err cx "E_VALUE_RANGE" "model.temperature" "must be in [0, 2]")
  | None => []
  end.
(** One tool description.  The name becomes part of a dotted path. *)
Definition check_description (k : string) : list pass :=
  [look (fun _ => complain (negb (is_tool_name k)) (err cx "E_VALUE_RANGE" ("tool_descriptions." +:+ k) "not a tool name"));
   resolve_text_source ("tool_descriptions." +:+ k)].
Definition check_descriptions : pass := fun t =>
  passes (flat_map check_description (default [] (get t "tool_descriptions" ≫= toml_table)).*1) t.
Definition check_trained_against : pass := look (fun t =>
  match str_at t "fine_tune.trained_against_profile_hash" with
  | Some h => complain (negb (is_ok (parse_hash h)))
      (err cx "E_VALUE_RANGE" "fine_tune.trained_against_profile_hash" "must be a b3:<64 hex> hash string")
  | None => []
  end).

Definition check_model_semantics : pass := passes
  [check_str "model.id" (fun id => negb (bool_decide (id = ""))) "must not be empty";
   check_str "model.endpoint" is_endpoint_name "must match [a-z][a-z0-9-]*";
   require_positive "model.context_length";
   check_str "model.tool_format" tool_format_is_valid ("must be " +:+ in_quotes "native" +:+ " or " +:+ in_quotes "parsed:<syntax>");
   look check_temperature;
   require_positive "model.max_output_tokens";
   look check_thinking;
   check_str "model.quirks.reasoning_field" (fun rf => bool_decide (rf = "none") || is_snake_ident rf)
     ("must be " +:+ in_quotes "none" +:+ " or match [a-z][a-z0-9_]*");
   check_str "model.quirks.auth" auth_is_valid
     ("must be " +:+ in_quotes "none" +:+ " or " +:+ in_quotes "bearer:<SECRET_NAME>");
   resolve_text_source "prompt";
   check_descriptions;
   look check_compaction;
   check_trained_against].

(** ** Agent files *)

Definition check_spill_cap (t : Table) : list Diagnostic :=
  match int t "agent.spill_cap_bytes" with
  | Some v => complain (negb ((1024 <=? v)%Z && (v <=? 1048576)%Z))
      (err cx "E_VALUE_RANGE" "agent.spill_cap_bytes" "must be in [1024, 1048576]")
  | None => []
  end.
Definition check_eval_key (k : string) : pass := fun t =>
  let p := "agent.eval_set." +:+ k in
  match get t p with
  | None => (t, err cx "E_MISSING_KEY" p "required when [agent.eval_set] is present")
  | Some _ => resolve_path_at p true t
  end.
Definition check_eval_set : pass := fun t =>
  match get t "agent.eval_set" with
  | Some _ => passes [check_eval_key "dev"; check_eval_key "hidden"] t
  | None => (t, [])
  end.
Definition check_tools (t : Table) : list Diagnostic :=
  flat_map (fun iv => complain (negb (is_tool_name iv.2)) (err cx "E_VALUE_RANGE" (idx "tools.allow" iv.1) "not a tool name"))
    (str_list t "tools.allow").

(** A name that must be given, be an identifier if [ident] says so, and be new. *)
Definition check_name (ident : bool) (p : string) (name : option string) (seen : list string) : list string * list Diagnostic :=
  match name with
  | None => (seen, err cx "E_MISSING_KEY" (p +:+ ".name") "required")
  | Some n =>
      if ident && negb (is_ident n) then (seen, err cx "E_VALUE_RANGE" (p +:+ ".name") "must match [a-z][a-z0-9_-]*")
      else if bool_decide (n ∈ seen) then (seen, err cx "E_DUP_NAME" (p +:+ ".name") ("'" +:+ n +:+ "'"))
      else (seen ++ [n], [])
  end.
Definition str_of (t : Table) (k : string) : option string := omap_get k t ≫= toml_str.
Definition arr_of (t : Table) (k : string) : option (list toml) := omap_get k t ≫= toml_array.

Definition check_transport (p : string) (s : Table) : list Diagnostic :=
  match str_of s "transport" with
  | None => err cx "E_MISSING_KEY" (p +:+ ".transport") "required"
  | Some tr =>
      if decide (tr = "stdio") then
        match arr_of s "command" with
        | None | Some [] => err cx "E_MISSING_KEY" (p +:+ ".command") ("required for transport = " +:+ in_quotes "stdio")
        | Some _ => []
        end
      else if decide (tr = "http") then
        match str_of s "url" with
        | None => err cx "E_MISSING_KEY" (p +:+ ".url") ("required for transport = " +:+ in_quotes "http")
        | Some _ => []
        end
      else err cx "E_VALUE_RANGE" (p +:+ ".transport") ("must be " +:+ in_quotes "stdio" +:+ " or " +:+ in_quotes "http")
  end.
(** [chars().count()]. *)
Fixpoint char_count (s : string) : nat :=
  match s with EmptyString => 0 | String a s => (if is_cont a then 0 else 1) + char_count s end.
Definition check_one_line (p : string) (s : Table) : list Diagnostic :=
  match str_of s "description" with
  | Some d => complain (has_char newline d || (200 <? char_count d)%nat)
      (err cx "E_VALUE_RANGE" (p +:+ ".description") "must be one line of at most 200 characters")
  | None => []
  end.
Definition check_index (p : string) (s : Table) : list Diagnostic :=
  match str_of s "index" with
  | Some i => complain (negb (bool_decide (i ∈ ["names"; "server"; "full"])))
      (err cx "E_VALUE_RANGE" (p +:+ ".index")
         ("must be " +:+ in_quotes "names" +:+ ", " +:+ in_quotes "server" +:+ " or " +:+ in_quotes "full"))
  | None => []
  end.
Definition check_command (p : string) (s : Table) : list Diagnostic :=
  flat_map (fun jv => match jv.2 with
                      | TString a => if contains "${" a then
                                       match check_path_grammar a with
                                       | Err e => atom_err cx (idx (p +:+ ".command") jv.1) e
                                       | Ok _ => []
                                       end
                                     else []
                      | _ => []
                      end) (indexed 0 (default [] (arr_of s "command"))).
Definition check_capabilities (p : string) (s : Table) : list Diagnostic :=
  let caps_path := p +:+ ".capabilities" in
  match arr_of s "capabilities" with
  | None => err cx "E_MISSING_KEY" caps_path "required"
  | Some caps =>
      under p (check_grant_list s "capabilities" true) ++
      match str_of s "transport", (arr_of s "command" ≫= head) ≫= toml_str with
      | Some tr, Some prog =>
          let want := "proc:" +:+ prog in
          complain (bool_decide (tr = "stdio") && negb (existsb (fun c => bool_decide (toml_str c = Some want)) caps))
            (err cx "E_VALUE_RANGE" caps_path ("must include '" +:+ want +:+ "' for a stdio server"))
      | _, _ => []
      end
  end.
Definition check_server_env (p : string) (s : Table) : list Diagnostic :=
  match omap_get "env" s with
  | Some (TTable env) => check_env_names ((fun k => (p +:+ ".env." +:+ k, k)) <$> env.*1)
  | _ => []
  end.
Definition check_mcp_server (p : string) (s : Table) : list Diagnostic :=
  check_transport p s ++ check_one_line p s ++ check_index p s ++ check_command p s ++ check_capabilities p s ++
  check_server_env p s.
Fixpoint check_mcp_list (i : nat) (seen : list string) (servers : list toml) : list Diagnostic :=
  match servers with
  | [] => []
  | TTable s :: servers =>
      let p := idx "mcp_servers" i in
      let '(seen, d) := check_name true p (str_of s "name") seen in
      d ++ check_mcp_server p s ++ check_mcp_list (S i) seen servers
  | _ :: servers => check_mcp_list (S i) seen servers
  end.
Definition check_mcp_servers (t : Table) : list Diagnostic :=
  match omap_get "mcp_servers" t with Some (TArray servers) => check_mcp_list 0 [] servers | _ => [] end.

(** The first [n] items of a list of paths. *)
Definition resolve_items (key : string) (n : nat) (v : toml) : toml * list Diagnostic :=
  match v with
  | TArray a =>
      let r := (fun iv => if (iv.1 <? n)%nat then resolve_path_field (idx key iv.1) false iv.2 else (iv.2, [])) <$> indexed 0 a in
      (TArray r.*1, concat r.*2)
  | _ => (v, [])
  end.
Definition resolve_path_list (key : string) : pass := fun t =>
  rewrite_at key (resolve_items key (length (str_list t key))) t.

Definition check_catalog_name (p : string) (s : Table) : list Diagnostic :=
  match str_of s "catalog" with
  | None => err cx "E_MISSING_KEY" (p +:+ ".catalog") "required"
  | Some c => complain (negb (is_ident c)) (err cx "E_VALUE_RANGE" (p +:+ ".catalog") "must match [a-z][a-z0-9_-]*")
  end.
Definition check_sub_capabilities (p : string) (s : Table) : list Diagnostic :=
  match omap_get "capabilities" s with
  | None => err cx "E_MISSING_KEY" (p +:+ ".capabilities") "required"
  | Some _ => under p (check_grant_list s "capabilities" true)
  end.
Definition resolve_definition (p : string) (s : Table) : Table * list Diagnostic :=
  match omap_get "definition" s with
  | Some v => let '(v, d) := resolve_path_field (p +:+ ".definition") false v in (omap_insert "definition" v s, d)
  | None => (s, [])
  end.
Fixpoint check_sub_list (i : nat) (seen : list string) (subs : list toml) : list toml * list Diagnostic :=
  match subs with
  | [] => ([], [])
  | TTable s :: subs =>
      let p := idx "subagents" i in
      let '(seen, d1) := check_name false p (str_of s "name") seen in
      let '(s, d2) := resolve_definition p s in
      let '(rest, d3) := check_sub_list (S i) seen subs in
      (TTable s :: rest, d1 ++ check_catalog_name p s ++ check_sub_capabilities p s ++ d2 ++ d3)
  | v :: subs => let '(rest, d) := check_sub_list (S i) seen subs in (v :: rest, d)
  end.
Definition check_subagents : pass := fun t =>
  match omap_get "subagents" t with
  | Some (TArray subs) => let '(subs, d) := check_sub_list 0 [] subs in (omap_insert "subagents" (TArray subs) t, d)
  | _ => (t, [])
  end.

Definition check_agent_semantics : pass := passes
  [check_str "agent.name" is_ident "must match [a-z][a-z0-9_-]*";
   resolve_text_source "agent.role_prompt";
   resolve_path_at "agent.agents_md" false;
   require_positive "agent.context_budget_tokens";
   look check_spill_cap;
   check_eval_set;
   look (fun t => check_grant_list t "capabilities.grants" true);
   look check_tools;
   look check_mcp_servers;
   resolve_path_list "skills.paths";
   resolve_path_list "extensions.paths";
   check_subagents;
   check_str "memory.module" is_ident "must match [a-z][a-z0-9_-]*";
   check_str "sandbox.backend" is_ident "must match [a-z][a-z0-9_-]*";
   require_positive "sandbox.timeout_s";
   require_positive "sandbox.scratch_tmpfs_mb";
   look (fun t => check_env_names ((fun iv => (idx "sandbox.env_allow" iv.1, iv.2)) <$> str_list t "sandbox.env_allow"));
   resolve_path_at "notebook.path" false;
   require_positive "notebook.max_tokens"].

(** ** Middleware *)

Definition check_parser_slot (kind : FileKind) (t e : Table) (p : string) (priority : Z) : list Diagnostic :=
  match kind with
  | FkModel =>
      match strip_prefix "parsed:" (default "native" (str_at t "model.tool_format")) with
      | None => err cx "E_PARSER_SLOT" (p +:+ ".name") "no parser without parsed tool_format"
      | Some syntax =>
          complain (negb (priority =? TOOL_CALL_PARSER_PRIORITY)%Z)
            (err cx "E_PARSER_SLOT" (p +:+ ".priority")
               (TOOL_CALL_PARSER_NAME +:+ " must be " +:+ show_Z TOOL_CALL_PARSER_PRIORITY)) ++
          match ((omap_get "config" e ≫= toml_table) ≫= omap_get "syntax") ≫= toml_str with
          | Some declared => complain (negb (bool_decide (declared = syntax)))
              (err cx "E_PARSER_SLOT" (p +:+ ".config.syntax")
                 ("'" +:+ declared +:+ "' != tool_format syntax '" +:+ syntax +:+ "'"))
          | None => []
          end
      end
  | _ => err cx "E_PARSER_SLOT" (p +:+ ".name") "only the model profile may declare tool_call_parser"
  end.
Definition check_slot (kind : FileKind) (t e : Table) (p name : string) (priority : Z) : list Diagnostic :=
  if decide (name = TOOL_CALL_PARSER_NAME) then check_parser_slot kind t e p priority
  else
    let '(lo, hi) := default (0, 0)%Z (priority_range kind) in
    complain (negb ((lo <=? priority)%Z && (priority <=? hi)%Z))
      (err cx "E_PRIORITY_RANGE" (p +:+ ".priority") (show_Z priority +:+ " not in " +:+ show_Z lo +:+ "..=" +:+ show_Z hi)).
(** One entry, after the entries [out] of the same file. *)
Definition check_mw_entry (kind : FileKind) (t : Table) (i : nat) (out : list MwEntry) (v : toml) :
    list MwEntry * list Diagnostic :=
  match v with
  | TTable e =>
      let p := idx "middleware" i in
      match str_of e "name", omap_get "priority" e ≫= toml_integer with
      | None, _ => (out, err cx "E_MISSING_KEY" (p +:+ ".name") "required")
      | Some _, None => (out, err cx "E_MISSING_KEY" (p +:+ ".priority") "required")
      | Some name, Some priority =>
          (out ++ [{| men_name := name; men_priority := priority;
                      men_config := default [] (omap_get "config" e ≫= toml_table); men_source := middleware_source kind;
                      men_file := Some (cx_file cx); men_index := i |}],
           complain (negb (is_snake_ident name)) (err cx "E_VALUE_RANGE" (p +:+ ".name") "must match [a-z][a-z0-9_]*") ++
           complain (bool_decide (name ∈ RESERVED_MIDDLEWARE_NAMES))
             (err cx "E_RESERVED_MIDDLEWARE_NAME" (p +:+ ".name") ("'" +:+ name +:+ "'")) ++
           complain (bool_decide (name ∈ men_name <$> out)) (err cx "E_DUP_MIDDLEWARE" (p +:+ ".name") ("'" +:+ name +:+ "'")) ++
           check_slot kind t e p name priority)
      end
  | _ => (out, [])
  end.
Fixpoint check_mw_list (kind : FileKind) (t : Table) (i : nat) (out : list MwEntry) (entries : list toml) :
    list MwEntry * list Diagnostic :=
  match entries with
  | [] => (out, [])
  | v :: entries =>
      let '(out, d1) := check_mw_entry kind t i out v in
      let '(out, d2) := check_mw_list kind t (S i) out entries in
      (out, d1 ++ d2)
  end.
Definition check_middleware (kind : FileKind) (t : Table) : list MwEntry * list Diagnostic :=
  match omap_get "middleware" t with Some (TArray entries) => check_mw_list kind t 0 [] entries | _ => ([], []) end.

(** ** Project overrides *)

Definition check_project_forbidden (t : Table) : list Diagnostic :=
  flat_map (fun key => complain (bool_decide (is_Some (get t key)))
    (err cx "E_OVERRIDE_FORBIDDEN_KEY" key "not overridable from the working directory (profile-schema.md §4.2)"))
    PROJECT_FORBIDDEN.

(** ** Bundles and the catalog *)

Definition install_of (t : Table) : list (string * string) :=
  omap (fun kv => pair kv.1 <$> toml_str kv.2) (default [] (get t "install" ≫= toml_table)).
Definition check_install (kv : string * string) : list Diagnostic :=
  let p := "install." +:+ kv.1 in
  complain (negb (is_ident kv.1)) (err cx "E_VALUE_RANGE" p "install keys must match [a-z][a-z0-9_-]*") ++
  match normalize_abs_path kv.2 with Err e => atom_err cx p e | Ok _ => [] end.
(** An [install] placeholder of a bundle atom must be known. *)
Definition check_bundle_atom (install : list (string * string)) (p : string) (ia : nat * string) : list Diagnostic :=
  match split_once ":" ia.2 with
  | Some (_, operand) =>
      match leading_placeholder operand with
      | Ok (Some (Install tool, _)) =>
          complain (negb (bool_decide (tool ∈ install.*1)))
            (err cx "E_UNKNOWN_PLACEHOLDER" (idx (p +:+ ".atoms") ia.1) ("'${install:" +:+ tool +:+ "}'"))
      | _ => []
      end
  | None => []
  end.
Definition check_bundle (install : list (string * string)) (nb : string * toml) : list Diagnostic :=
  let p := "bundles." +:+ nb.1 in
  complain (negb (is_ident nb.1) || bool_decide (nb.1 ∈ RESERVED_BUNDLE_NAMES))
    (err cx "E_VALUE_RANGE" p "bundle names must match [a-z][a-z0-9_-]* and not be a reserved prefix") ++
  match nb.2 with
  | TTable b =>
      match omap_get "atoms" b with
      | None => err cx "E_MISSING_KEY" (p +:+ ".atoms") "required"
      | Some _ => under p (check_grant_list b "atoms" false) ++ flat_map (check_bundle_atom install p) (str_list b "atoms")
      end
  | _ => []
  end.
Definition check_bundles_semantics (t : Table) : list Diagnostic :=
  flat_map check_install (install_of t) ++
  flat_map (check_bundle (install_of t)) (default [] (get t "bundles" ≫= toml_table)).

Definition check_profile_ref (p : string) (a : Table) (k : string) : list Diagnostic :=
  let kp := p +:+ "." +:+ k in
  match str_of a k with
  | None => err cx "E_MISSING_KEY" kp "required"
  | Some rel => complain (negb (fs_is_file (path_join (cx_dir cx) rel))) (err cx "E_FILE_NOT_FOUND" kp ("'" +:+ rel +:+ "'"))
  end.
Fixpoint check_agents (i : nat) (seen : list string) (agents : list toml) : list string * list Diagnostic :=
  match agents with
  | [] => (seen, [])
  | TTable a :: agents =>
      let p := idx "agents" i in
      let '(seen, d1) := check_name true p (str_of a "name") seen in
      let '(seen, d2) := check_agents (S i) seen agents in
      (seen, d1 ++ check_profile_ref p a "model_profile" ++ check_profile_ref p a "agent_profile" ++ d2)
  | _ :: agents => check_agents (S i) seen agents
  end.
Definition check_catalog_semantics (t : Table) : list Diagnostic :=
  match omap_get "agents" t with
  | Some (TArray agents) =>
      let '(seen, d) := check_agents 0 [] agents in
      d ++ complain (negb (bool_decide ("default" ∈ seen))) (err cx "E_CATALOG_REF" "agents" "no entry named 'default'")
  | _ => err cx "E_MISSING_KEY" "agents" "required"
  end.

(** ** A file *)

Definition check_semantics (kind : FileKind) : pass :=
  match kind with
  | FkModel => check_model_semantics
  | FkAgent => check_agent_semantics
  | FkProject => passes [look check_project_forbidden; check_model_semantics; check_agent_semantics]
  | FkBundles => look check_bundles_semantics
  | FkCatalog => look check_catalog_semantics
  end.
Definition declared_middleware (kind : FileKind) (t : Table) : list MwEntry * list Diagnostic :=
  match kind with
  | FkModel | FkAgent | FkProject => check_middleware kind t
  | FkBundles | FkCatalog => ([], [])
  end.
(** What the checks of a parsed file find, and what they make of it. *)
Definition check_file (kind : FileKind) (t : Table) : Table * list MwEntry * list Diagnostic :=
  let '(t', d) := check_semantics kind t in
  let '(mw, d') := declared_middleware kind t' in
  (omap_remove "middleware" t', mw, check_schema_version cx t ++ walk_table cx t (spec_for kind) "" ++ d ++ d').
End passes.

Definition validate_file {HP : Platform} {HF : FileSystem} (kind : FileKind) (path bytes : string) :
    result (list Diagnostic) ValidatedFile :=
  if negb (utf8_valid bytes) then Err [diag "E_TOML_PARSE" (Some path) "" ("not UTF-8: " +:+ utf8_error bytes)]
  else
    match parse_table bytes with
    | Err m => Err [diag "E_TOML_PARSE" (Some path) "" m]
    | Ok t =>
        let cx := {| cx_file := path; cx_dir := default "/" (path_parent path) |} in
        let '(t, mw, ds) := check_file cx kind t in
        if existsb is_error ds then Err ds
        else Ok {| vf_kind := kind; vf_path := path; vf_hash := of_bytes bytes; vf_table := t; vf_middleware := mw |}
    end.

(** * What a file that passes is *)

Definition no_errors (ds : list Diagnostic) : Prop := existsb is_error ds = false.
Lemma no_errors_app a b : no_errors (a ++ b) <-> no_errors a /\ no_errors b.
Proof. unfold no_errors. rewrite existsb_app, orb_false_iff. done. Qed.
Lemma no_errors_flat_map {A} (f : A -> list Diagnostic) l : no_errors (flat_map f l) <-> forall x, x ∈ l -> no_errors (f x).
Proof.
  induction l as [|x l IH]; simpl; [split; [by intros _ y ?%elem_of_nil|done]|].
  rewrite no_errors_app, IH. split.
  - intros [? ?] y [->|?]%elem_of_cons; auto.
  - intros H. split; [apply H; left|intros y ?; apply H; by right].
Qed.
Lemma no_errors_concat dss ds : no_errors (concat dss) -> ds ∈ dss -> no_errors ds.
Proof.
  intros Hno Hin. induction Hin as [ds dss|ds ds' dss Hin IH]; cbn [concat] in Hno; apply no_errors_app in Hno as []; auto.
Qed.
(** A complaint that is an error was not made. *)
Lemma no_errors_complain b d : is_error d = true -> no_errors (complain b [d]) -> b = false.
Proof. unfold no_errors. destruct b; [|done]. simpl. by intros ->. Qed.
Lemma no_errors_err cx code path msg : starts_with "E_" code = true -> no_errors (err cx code path msg) -> False.
Proof. unfold no_errors, err, is_error. simpl. by intros ->. Qed.

(** The priorities a layer may use. *)
Definition slot_ok (e : MwEntry) : Prop :=
  match men_source e with
  | MsModel => (100 <= men_priority e <= 199)%Z
  | MsAgent | MsProject => (200 <= men_priority e <= 899)%Z
  | MsKernel => False
  end.
Definition mw_ok (e : MwEntry) : Prop := slot_ok e /\ men_name e ∉ RESERVED_MIDDLEWARE_NAMES.

Section middleware.
Context {HP : Platform} {HF : FileSystem} (cx : Cx).

Lemma check_slot_ok kind t e p name priority m :
  kind <> FkBundles -> kind <> FkCatalog -> men_source m = middleware_source kind -> men_priority m = priority ->
  no_errors (check_slot cx kind t e p name priority) -> slot_ok m.
Proof.
  intros Hb Hc Hs Hpr. unfold check_slot, slot_ok. case_decide.
  - destruct kind; cbn [check_parser_slot middleware_source] in *; rewrite ?Hs; try done.
    destruct (strip_prefix _ _); [|by intros ?%no_errors_err].
    intros [Hr%no_errors_complain _]%no_errors_app; [|done]. apply negb_false_iff, Z.eqb_eq in Hr.
    rewrite Hpr, Hr. unfold TOOL_CALL_PARSER_PRIORITY. lia.
  - destruct kind; cbn [priority_range default middleware_source] in *; rewrite ?Hs; try done;
      intros Hr%no_errors_complain; try done; apply negb_false_iff, andb_true_iff in Hr as [?%Z.leb_le ?%Z.leb_le]; lia.
Qed.
Lemma check_mw_list_ok kind t i out entries out' ds :
  kind <> FkBundles -> kind <> FkCatalog -> Forall mw_ok out -> NoDup (men_name <$> out) ->
  check_mw_list cx kind t i out entries = (out', ds) -> no_errors ds -> Forall mw_ok out' /\ NoDup (men_name <$> out').
Proof.
  intros Hb Hc. revert i out out' ds. induction entries as [|v entries IH]; intros i out out' ds Ho Hn; cbn [check_mw_list].
  { by intros [= <- <-]. }
  destruct (check_mw_entry cx kind t i out v) as [out1 d1] eqn:He, (check_mw_list cx kind t (S i) out1 entries) as [out2 d2] eqn:Hl.
  intros [= <- <-] [Hd1 Hd2]%no_errors_app. assert (Forall mw_ok out1 /\ NoDup (men_name <$> out1)) as [? ?]; [|by eapply IH].
  unfold check_mw_entry in He. destruct v; try (injection He as <- <-; done).
  destruct (str_of _ _) as [name|]; [|injection He as <- <-; by apply no_errors_err in Hd1].
  destruct (_ ≫= toml_integer) as [priority|]; [|injection He as <- <-; by apply no_errors_err in Hd1].
  injection He as <- <-. rewrite !no_errors_app in Hd1. destruct Hd1 as (_ & Hr & Hdup & Hslot).
  apply no_errors_complain in Hr, Hdup; [|done..]. apply bool_decide_eq_false in Hr, Hdup. split.
  - apply Forall_app. split; [done|]. apply Forall_singleton. split; [by eapply check_slot_ok|done].
  - rewrite fmap_app. apply NoDup_app. split_and!; [done| |apply NoDup_singleton].
    intros x Hx ->%list_elem_of_singleton. done.
Qed.
End middleware.

Lemma validate_file_middleware {HP : Platform} {HF : FileSystem} kind path bytes vf :
  validate_file kind path bytes = Ok vf ->
  vf_kind vf = kind /\ Forall mw_ok (vf_middleware vf) /\ NoDup (men_name <$> vf_middleware vf).
Proof.
  unfold validate_file. destruct (negb _); [done|]. destruct (parse_table bytes) as [t|]; [|done].
  set (cx := {| cx_file := path; cx_dir := _ |}). unfold check_file. destruct (check_semantics cx kind t) as [t' d].
  destruct (declared_middleware cx kind t') as [mw d'] eqn:Hm. destruct (existsb is_error _) eqn:Hno; [done|].
  intros [= <-]. cbn [vf_kind vf_middleware]. split; [done|]. change (no_errors (check_schema_version cx t ++ walk_table cx t (spec_for kind) "" ++ d ++ d')) in Hno.
  rewrite !no_errors_app in Hno. destruct Hno as (_ & _ & _ & Hno).
  assert (Hl : mw = [] \/ exists entries, check_mw_list cx kind t' 0 [] entries = (mw, d') /\ kind <> FkBundles /\ kind <> FkCatalog).
  { unfold declared_middleware, check_middleware in Hm. destruct kind; try (injection Hm as <- <-; by left);
      (destruct (omap_get "middleware" t') as [[]|]; try (injection Hm as <- <-; by left); right; eauto). }
  destruct Hl as [->|(entries & Hl & Hb & Hc)]; [split; constructor|].
  eapply check_mw_list_ok; [exact Hb|exact Hc|constructor|constructor|exact Hl|exact Hno].
Qed.
