(* ===== verification/Merge.v ===== *)
(** [profiles/src/merge.rs]: the merge of the profile layers.  Scalars and lists override, tables
    merge, a type mismatch lets the later layer win, middleware entries are keyed by name; every leaf
    remembers the file that set it. *)

From Stdlib Require Import Floats.SpecFloat.
From S2P Require Import Prelude Ord Str Capability Json Event Toml Schema.

Open Scope string_scope.
Open Scope list_scope.

Definition origins_map : Type := list (string * option string).
Record Layered : Type := {
  ly_table : Table;
  ly_origins : origins_map;
  ly_middleware : list MwEntry
}.

(** * Tables *)

Fixpoint record_origins (v : toml) (path : string) (file : option string) (origins : origins_map) : origins_map :=
  match v with
  | TTable t =>
      (fix go (t : Table) (origins : origins_map) : origins_map :=
         match t with
         | [] => origins
         | (k, v) :: t => go t (record_origins v (key_join path k) file origins)
         end) t (omap_insert path file origins)
  | _ => omap_insert path file origins
  end.
Definition forget_below (kp : string) (origins : origins_map) : origins_map :=
  List.filter (fun pf => negb (starts_with (kp +:+ ".") pf.1 || starts_with (kp +:+ "[") pf.1)) origins.
(** One entry of the source table, given the merge of a value that is a table. *)
Definition merge_entry (merge : toml -> string -> Table * origins_map -> Table * origins_map) (path : string)
    (file : option string) (st : Table * origins_map) (kv : string * toml) : Table * origins_map :=
  let '(k, v) := kv in
  if bool_decide (path = "") && bool_decide (k = "middleware") then st
  else
    let kp := key_join path k in
    match omap_get k st.1, v with
    | Some (TTable d), TTable _ =>
        let '(d, origins) := merge v kp (d, st.2) in (omap_insert k (TTable d) st.1, origins)
    | _, _ => (omap_insert k v st.1, record_origins v kp file (forget_below kp st.2))
    end.
(** [merge_tables], the source given as a value that is a table. *)
Fixpoint merge_value (file : option string) (src : toml) (path : string) (st : Table * origins_map) {struct src} :
    Table * origins_map :=
  match src with
  | TTable s => fold_left (merge_entry (merge_value file) path file) s st
  | _ => st
  end.
Definition merge_tables (dst src : Table) (path : string) (origins : origins_map) (file : option string) :
    Table * origins_map :=
  fold_left (merge_entry (merge_value file) path file) src (dst, origins).

Definition apply_table (src : Table) (file : option string) (l : Layered) : Layered :=
  let '(t, o) := merge_tables (ly_table l) src "" (ly_origins l) file in
  {| ly_table := t; ly_origins := o; ly_middleware := ly_middleware l |}.
Definition from_defaults (defaults : Table) : Layered :=
  apply_table defaults None {| ly_table := []; ly_origins := []; ly_middleware := [] |}.

(** * Middleware *)

(** [iter_mut().find]: the first entry of that name. *)
Fixpoint find_split (name : string) (l : list MwEntry) : option (list MwEntry * MwEntry * list MwEntry) :=
  match l with
  | [] => None
  | m :: l =>
      if decide (men_name m = name) then Some ([], m, l)
      else match find_split name l with Some (a, e, b) => Some (m :: a, e, b) | None => None end
  end.
Definition protected (s : MiddlewareSource) : bool := match s with MsModel | MsKernel => true | _ => false end.
Definition source_label (s : MiddlewareSource) : string :=
  match s with MsModel => "model-profile slot (100..=199)" | _ => "kernel slot" end.
Definition merge_middleware (entry : MwEntry) (kind : FileKind) (l : list MwEntry) : list MwEntry * list Diagnostic :=
  match find_split (men_name entry) l with
  | Some (before, existing, after) =>
      if bool_decide (kind = FkProject) && protected (men_source existing) then
        (l, [diag "E_PRIORITY_RANGE" (men_file entry) (idx "middleware" (men_index entry) +:+ ".name")
               ("'" +:+ men_name entry +:+ "' is a " +:+ source_label (men_source existing)
                +:+ " entry and cannot be overridden from a project file")])
      else
        (before ++ {| men_name := men_name existing; men_priority := men_priority entry; men_config := men_config entry;
                      men_source := men_source entry; men_file := men_file entry; men_index := men_index entry |} :: after, [])
  | None => (l ++ [entry], [])
  end.
Fixpoint merge_all (entries : list MwEntry) (kind : FileKind) (l : list MwEntry) : list MwEntry * list Diagnostic :=
  match entries with
  | [] => (l, [])
  | e :: entries =>
      let '(l, d1) := merge_middleware e kind l in
      let '(l, d2) := merge_all entries kind l in
      (l, d1 ++ d2)
  end.

(** [Layered::apply]. *)
Definition apply (file : ValidatedFile) (l : Layered) : Layered * list Diagnostic :=
  let l := apply_table (vf_table file) (Some (vf_path file)) l in
  let '(mw, ds) := merge_all (vf_middleware file) (vf_kind file) (ly_middleware l) in
  ({| ly_table := ly_table l; ly_origins := ly_origins l; ly_middleware := mw |}, ds).

(** * Origins *)

(** The text before the last dot or bracket. *)
Fixpoint cut_last (s : string) : option string :=
  match s with
  | EmptyString => None
  | String a s =>
      match cut_last s with
      | Some t => Some (String a t)
      | None => if bool_decide (a = "."%char) || bool_decide (a = "["%char) then Some "" else None
      end
  end.
(** Each round shortens the path. *)
Fixpoint origin_loop (fuel : nat) (origins : origins_map) (p : string) : option string :=
  match fuel with
  | O => None
  | S fuel =>
      match omap_get p origins with
      | Some o => o
      | None => match cut_last p with
                | Some q => if decide (q = "") then None else origin_loop fuel origins q
                | None => None
                end
      end
  end.
Definition origin_of (l : Layered) (path : string) : option string :=
  origin_loop (S (String.length path)) (ly_origins l) path.

(** * JSON to TOML *)

Fixpoint json_to_toml (v : json) : option toml :=
  match v with
  | JNull => None
  | JBool b => Some (TBoolean b)
  | JNum (PosInt n) => Some (if (n <? 2 ^ 63)%N then TInteger (Z.of_N n) else TFloat (f64_of_Z (Z.of_N n)))
  | JNum (NegInt z) => Some (TInteger z)
  | JNum (Float f) => Some (TFloat f)
  | JStr s => Some (TString s)
  | JArr l => TArray <$> mapO json_to_toml l
  | JObj m =>
      (fun t => TTable (omap_of_list t)) <$> mapO (fun kv => pair kv.1 <$> json_to_toml kv.2) m
  end.

(** * The middleware of the layers *)

Definition mw_list_ok (l : list MwEntry) : Prop := Forall mw_ok l /\ NoDup (men_name <$> l).
Lemma find_split_Some name l a e b : find_split name l = Some (a, e, b) -> l = a ++ e :: b /\ men_name e = name.
Proof.
  revert a. induction l as [|m l IH]; intros a; [done|]. cbn [find_split]. case_decide; [by intros [= <- <- <-]|].
  destruct (find_split name l) as [[[a' e'] b']|]; [|done]. intros [= <- <- <-].
  destruct (IH a' eq_refl) as [-> ?]. done.
Qed.
Lemma find_split_None name l : find_split name l = None -> name ∉ men_name <$> l.
Proof.
  induction l as [|m l IH]; [by intros _ ?%elem_of_nil|]. cbn [find_split]. case_decide; [done|].
  destruct (find_split name l) as [[[]]|]; [done|]. intros _. rewrite fmap_cons, not_elem_of_cons. auto.
Qed.
Lemma merge_middleware_ok e kind l : mw_list_ok l -> mw_ok e -> mw_list_ok (merge_middleware e kind l).1.
Proof.
  intros [Hl Hn] He. unfold merge_middleware. destruct (find_split _ l) as [[[a x] b]|] eqn:Hf.
  - apply find_split_Some in Hf as [-> Hx]. destruct (_ && _); [by split|]. cbn [fst]. split.
    + apply Forall_app in Hl as [Ha [_ Hb]%Forall_cons]. apply Forall_app. split; [done|]. constructor; [|done].
      destruct He as [Hs Hr]. split; [exact Hs|]. cbn [men_name]. by rewrite Hx.
    + rewrite fmap_app, fmap_cons in Hn |- *. exact Hn.
  - apply find_split_None in Hf. cbn [fst]. split; [apply Forall_app; split; [done|by apply Forall_singleton]|].
    rewrite fmap_app. apply NoDup_app. split_and!; [done| |apply NoDup_singleton]. by intros x Hx ->%list_elem_of_singleton.
Qed.
Lemma merge_all_ok es kind l : mw_list_ok l -> Forall mw_ok es -> mw_list_ok (merge_all es kind l).1.
Proof.
  intros Hl Hes. revert l Hl. induction Hes as [|e es He _ IH]; intros l Hl; [done|]. cbn [merge_all].
  destruct (merge_middleware e kind l) as [l1 d1] eqn:E1. destruct (merge_all es kind l1) as [l2 d2] eqn:E2. cbn [fst].
  specialize (IH l1). rewrite E2 in IH. apply IH. change l1 with (l1, d1).1. rewrite <- E1. by apply merge_middleware_ok.
Qed.
Lemma apply_table_middleware t file l : ly_middleware (apply_table t file l) = ly_middleware l.
Proof. unfold apply_table. by destruct (merge_tables _ _ _ _ _). Qed.
Lemma apply_middleware_ok vf l :
  mw_list_ok (ly_middleware l) -> Forall mw_ok (vf_middleware vf) -> mw_list_ok (ly_middleware (apply vf l).1).
Proof.
  intros Hl Hf. unfold apply. destruct (merge_all _ _ _) as [mw ds] eqn:E. cbn [fst ly_middleware].
  rewrite apply_table_middleware in E. change mw with (mw, ds).1. rewrite <- E. by apply merge_all_ok.
Qed.

(** * What is found in merged tables *)

Lemma merge_value_tables v : forall file file' path d o o',
  (merge_value file v path (d, o)).1 = (merge_value file' v path (d, o')).1.
Proof.
  induction v as [| | | | | |t IH] using toml_ind_strong; intros file file' path d o o'; try done. cbn [merge_value].
  revert d o o'. induction IH as [|[k v] t Hv _ IHt]; intros d o o'; [done|]. cbn [fold_left].
  assert (He : (merge_entry (merge_value file) path file (d, o) (k, v)).1
             = (merge_entry (merge_value file') path file' (d, o') (k, v)).1).
  { unfold merge_entry. destruct (_ && _); [done|]. cbn [fst snd]. destruct (omap_get k d) as [w|]; [|done].
    destruct w as [| | | | | |d0]; try done. destruct v as [| | | | | |ts]; try done.
    specialize (Hv file file' (key_join path k) d0 o o'). cbn [snd] in Hv.
    destruct (merge_value file (TTable ts) _ _) as [d1 o1], (merge_value file' (TTable ts) _ _) as [d2 o2]. cbn in Hv. by subst. }
  destruct (merge_entry (merge_value file) path file (d, o) (k, v)) as [d1 o1],
    (merge_entry (merge_value file') path file' (d, o') (k, v)) as [d2 o2]. cbn [fst] in He. subst. apply IHt.
Qed.

(** The tables a merge makes, the origins aside. *)
Definition merged (path : string) (d s : Table) : Table := (merge_tables d s path [] None).1.
Lemma merge_tables_merged d s path o file : (merge_tables d s path o file).1 = merged path d s.
Proof. apply (merge_value_tables (TTable s)). Qed.
(** One slot of the merge. *)
Definition merged_slot (path k : string) (d : option toml) (s : toml) : toml :=
  match d, s with
  | Some (TTable td), TTable ts => TTable (merged (key_join path k) td ts)
  | _, _ => s
  end.
Lemma merge_entry_get file path st k v k' :
  ~ (path = "" /\ k = "middleware") ->
  omap_get k' (merge_entry (merge_value file) path file st (k, v)).1 =
    if decide (k' = k) then Some (merged_slot path k (omap_get k st.1) v) else omap_get k' st.1.
Proof.
  intros Hm. unfold merge_entry. destruct (bool_decide (path = "") && bool_decide (k = "middleware")) eqn:Hb.
  { exfalso. apply Hm. by apply andb_true_iff in Hb as [?%bool_decide_eq_true ?%bool_decide_eq_true]. }
  unfold merged_slot. destruct (omap_get k st.1) as [[| | | | | |td]|]; cbn [fst]; try apply omap_get_insert.
  destruct v as [| | | | | |ts]; cbn [fst]; try apply omap_get_insert.
  pose proof (merge_tables_merged td ts (key_join path k) st.2 file) as Hd. unfold merge_tables in Hd.
  change (fold_left (merge_entry (merge_value file) (key_join path k) file) ts (td, st.2))
    with (merge_value file (TTable ts) (key_join path k) (td, st.2)) in Hd.
  destruct (merge_value file (TTable ts) _ _) as [d' o']. cbn [fst] in Hd |- *. subst. apply omap_get_insert.
Qed.
Lemma merge_entry_skip file st v k' :
  omap_get k' (merge_entry (merge_value file) "" file st ("middleware", v)).1 = omap_get k' st.1.
Proof. done. Qed.
Lemma merged_get path d s k :
  omap_sorted s -> ~ (path = "" /\ k = "middleware") ->
  omap_get k (merged path d s) = match omap_get k s with
                                 | Some v => Some (merged_slot path k (omap_get k d) v)
                                 | None => omap_get k d
                                 end.
Proof.
  intros Hs Hk. unfold merged, merge_tables. generalize (@nil (string * option string)) as o. intros o.
  pose proof (omap_sorted_NoDup _ Hs) as Hn. clear Hs.
  assert (Hstep : forall st, omap_get k (fold_left (merge_entry (merge_value None) path None) s st).1
            = match omap_get k s with
              | Some v => Some (merged_slot path k (omap_get k st.1) v)
              | None => omap_get k st.1
              end); [|apply (Hstep (d, o))].
  induction s as [|[k0 v0] s IH]; intros st; [done|]. rewrite fmap_cons in Hn. apply NoDup_cons in Hn as [Hk0 Hn].
  cbn [fold_left omap_get]. rewrite IH by done. destruct (decide (k = k0)) as [->|Hne].
  - assert (omap_get k0 s = None) as ->.
    { destruct (omap_get k0 s) as [w|] eqn:E; [|done]. apply omap_get_elem in E. exfalso. apply Hk0.
      apply list_elem_of_fmap. by exists (k0, w). }
    rewrite merge_entry_get, !decide_True by done. done.
  - assert (omap_get k (merge_entry (merge_value None) path None st (k0, v0)).1 = omap_get k st.1) as ->; [|done].
    destruct (decide (path = "" /\ k0 = "middleware")) as [[-> ->]|Hm]; [apply merge_entry_skip|].
    rewrite merge_entry_get by done. by rewrite decide_False.
Qed.

(** Tables all the way down have each key once. *)
Fixpoint toml_sorted (v : toml) : Prop :=
  match v with
  | TTable t =>
      omap_sorted t /\ (fix go (t : Table) : Prop := match t with [] => True | (_, v) :: t => toml_sorted v /\ go t end) t
  | _ => True
  end.
Lemma toml_sorted_get t k v : toml_sorted (TTable t) -> omap_get k t = Some v -> toml_sorted v.
Proof.
  intros [_ Ht] Hg. apply omap_get_elem in Hg. induction t as [|[k0 v0] t IH]; [by apply elem_of_nil in Hg|].
  destruct Ht as [Hv Ht]. apply elem_of_cons in Hg as [[= -> ->]|Hg]; [done|by apply IH].
Qed.
(** Something on the way to a name that is not a table. *)
Fixpoint blocked (segs : list string) (t : Table) : bool :=
  match segs with
  | [] | [_] => false
  | seg :: segs => match omap_get seg t with Some (TTable t') => blocked segs t' | Some _ => true | None => false end
  end.

(** What a merge finds at a name, from what its two sides have there. *)
Definition later_wins (segs : list string) (d s : Table) (found : option toml) : Prop :=
  match get_segs segs s with
  | Some (TTable _) => exists t, found = Some (TTable t)
  | Some v => found = Some v
  | None => found = if blocked segs s then None else get_segs segs d
  end.
Lemma merged_segs segs path d s :
  toml_sorted (TTable s) -> "" ∉ segs -> (path = "" -> head segs <> Some "middleware") ->
  later_wins segs d s (get_segs segs (merged path d s)).
Proof.
  revert path d s. induction segs as [|seg segs IH]; intros path d s Hs Hne Hm; [done|].
  apply not_elem_of_cons in Hne as [Hseg Hne].
  assert (Hget := merged_get path d s seg (proj1 Hs)).
  specialize (Hget ltac:(intros [-> ->]; by apply Hm)). destruct segs as [|seg' segs].
  - unfold later_wins. cbn [get_segs blocked]. rewrite Hget. destruct (omap_get seg s) as [v|]; [|done].
    unfold merged_slot. destruct v as [| | | | | |ts]; try (by destruct (omap_get seg d) as [[]|]).
    destruct (omap_get seg d) as [[]|]; by eexists.
  - unfold later_wins in *.
    change (get_segs (seg :: seg' :: segs)) with
      (fun t => v ← omap_get seg t; match v with TTable t' => get_segs (seg' :: segs) t' | _ => None end).
    change (blocked (seg :: seg' :: segs) s) with
      (match omap_get seg s with Some (TTable t') => blocked (seg' :: segs) t' | Some _ => true | None => false end).
    cbn beta. rewrite Hget. destruct (omap_get seg s) as [v|] eqn:Ev; [|done]. cbn [mbind option_bind].
    destruct v as [| | | | | |ts]; try (by destruct (omap_get seg d) as [[]|]).
    pose proof (toml_sorted_get _ _ _ Hs Ev) as Hts.
    assert (Hk : key_join path seg <> "").
    { unfold key_join. case_decide; [done|]. by destruct path. }
    destruct (omap_get seg d) as [w|] eqn:Ed; [destruct w as [| | | | | |td]|]; unfold merged_slot; cbn [mbind option_bind].
    all: try (destruct (get_segs (seg' :: segs) ts) as [[]|]; try done; [by eexists|by destruct (blocked _ _)]).
    by apply IH.
Qed.

(** C35: Merging is layer over layer, leaf by leaf: at any dotted name (the middleware list aside, which
    merges by entry) a value of the later table is what is found, tables merge, and where the later table says nothing
    the earlier one's value stands, unless the later one put something other than a table on the way. *)
Theorem later_layer_wins (file : ValidatedFile) (l : Layered) (segs : list string) :
  toml_sorted (TTable (vf_table file)) -> "" ∉ segs -> head segs <> Some "middleware" ->
  later_wins segs (ly_table l) (vf_table file) (get_segs segs (ly_table (apply file l).1)).
Proof.
  intros Hs Hne Hm. assert (ly_table (apply file l).1 = merged "" (ly_table l) (vf_table file)) as ->.
  { unfold apply. destruct (merge_all _ _ _) as [mw ds]. cbn [fst ly_table]. unfold apply_table.
    rewrite <- (merge_tables_merged _ _ _ (ly_origins l) (Some (vf_path file))). by destruct (merge_tables _ _ _ _ _). }
  by apply merged_segs.
Qed.

(** A file that sets one key of a table of the defaults. *)
Definition wit_later : ValidatedFile :=
  {| vf_kind := FkModel; vf_path := "/p/m.toml"; vf_hash := ""; vf_middleware := [];
     vf_table := [("model", TTable [("id", TString "m")])] |}.
Definition wit_earlier : Layered := from_defaults [("model", TTable [("id", TString "x"); ("tool_format", TString "native")])].
Lemma later_layer_wins_witness :
  toml_sorted (TTable (vf_table wit_later)) /\
  get (ly_table (apply wit_later wit_earlier).1) "model.id" = Some (TString "m") /\
  get (ly_table (apply wit_later wit_earlier).1) "model.tool_format" = Some (TString "native").
Proof.
  assert (Hs : toml_sorted (TTable (vf_table wit_later))) by (lazy; repeat constructor).
  split; [exact Hs|]. split.
  - apply (later_layer_wins wit_later wit_earlier ["model"; "id"] Hs); [by intros ?%(bool_decide_pack _)|done].
  - apply (later_layer_wins wit_later wit_earlier ["model"; "tool_format"] Hs); [by intros ?%(bool_decide_pack _)|done].
Defined.
