(* ===== verification/Profile.v ===== *)
(** [profiles/src/resolved.rs] and [profiles/src/prompt.rs]: the resolved profile, whose canonical JSON is what a session's
    [resolved_profile_hash] is taken of, and the assembly of the system prompt. *)

From Stdlib Require Import Floats.SpecFloat.
From S2P Require Import Prelude Ord Str Utf8 Capability Sandbox Json Strict Codec Data Event.

Open Scope string_scope.
Open Scope list_scope.

Record Thinking : Type := {
  pth_enabled : bool;
  pth_budget_tokens : N
}.
Definition Thinking_fields : fcodec Thinking := fiso
  (fun '(x1, x2) => Build_Thinking x1 x2)
  (fun r => (r.(pth_enabled), r.(pth_budget_tokens)))
  (freq "enabled" cbool
   ⊗ freq "budget_tokens" cu64).
Definition Thinking_codec : codec Thinking := struct Thinking_fields.
#[export] Instance Thinking_codec_ok : CodecOk Thinking_codec.
Proof. unfold Thinking_codec, Thinking_fields. apply _. Qed.

Record ProfileQuirks : Type := {
  pq_reasoning_field : string;
  pq_supports_structured_output : bool;
  pq_supports_stream_usage : bool;
  pq_strict_tool_schema : bool;
  pq_auth : string
}.
Definition ProfileQuirks_fields : fcodec ProfileQuirks := fiso
  (fun '(x1, (x2, (x3, (x4, x5)))) => Build_ProfileQuirks x1 x2 x3 x4 x5)
  (fun r => (r.(pq_reasoning_field), (r.(pq_supports_structured_output), (r.(pq_supports_stream_usage), (r.(pq_strict_tool_schema), r.(pq_auth))))))
  (freq "reasoning_field" cstr
   ⊗ freq "supports_structured_output" cbool
   ⊗ freq "supports_stream_usage" cbool
   ⊗ freq "strict_tool_schema" cbool
   ⊗ freq "auth" cstr).
Definition ProfileQuirks_codec : codec ProfileQuirks := struct ProfileQuirks_fields.
#[export] Instance ProfileQuirks_codec_ok : CodecOk ProfileQuirks_codec.
Proof. unfold ProfileQuirks_codec, ProfileQuirks_fields. apply _. Qed.

Record ModelSection : Type := {
  pm_id : string;
  pm_endpoint : string;
  pm_context_length : N;
  pm_tool_format : string;
  pm_temperature : option spec_float;
  pm_max_output_tokens : N;
  pm_thinking : Thinking;
  pm_quirks : ProfileQuirks
}.
Definition ModelSection_fields : fcodec ModelSection := fiso
  (fun '(x1, (x2, (x3, (x4, (x5, (x6, (x7, x8))))))) => Build_ModelSection x1 x2 x3 x4 x5 x6 x7 x8)
  (fun r => (r.(pm_id), (r.(pm_endpoint), (r.(pm_context_length), (r.(pm_tool_format), (r.(pm_temperature), (r.(pm_max_output_tokens), (r.(pm_thinking), r.(pm_quirks)))))))))
  (freq "id" cstr
   ⊗ freq "endpoint" cstr
   ⊗ freq "context_length" cu64
   ⊗ freq "tool_format" cstr
   ⊗ fopt "temperature" cf64
   ⊗ freq "max_output_tokens" cu64
   ⊗ freq "thinking" Thinking_codec
   ⊗ freq "quirks" ProfileQuirks_codec).
Definition ModelSection_codec : codec ModelSection := struct ModelSection_fields.
#[export] Instance ModelSection_codec_ok : CodecOk ModelSection_codec.
Proof. unfold ModelSection_codec, ModelSection_fields. apply _. Qed.

Record Compaction : Type := {
  pco_trigger_at : spec_float;
  pco_target : spec_float
}.
Definition Compaction_fields : fcodec Compaction := fiso
  (fun '(x1, x2) => Build_Compaction x1 x2)
  (fun r => (r.(pco_trigger_at), r.(pco_target)))
  (freq "trigger_at" cf64
   ⊗ freq "target" cf64).
Definition Compaction_codec : codec Compaction := struct Compaction_fields.
#[export] Instance Compaction_codec_ok : CodecOk Compaction_codec.
Proof. unfold Compaction_codec, Compaction_fields. apply _. Qed.

Record EvalSet : Type := {
  pes_dev : string;
  pes_hidden : string
}.
Definition EvalSet_fields : fcodec EvalSet := fiso
  (fun '(x1, x2) => Build_EvalSet x1 x2)
  (fun r => (r.(pes_dev), r.(pes_hidden)))
  (freq "dev" cstr
   ⊗ freq "hidden" cstr).
Definition EvalSet_codec : codec EvalSet := struct EvalSet_fields.
#[export] Instance EvalSet_codec_ok : CodecOk EvalSet_codec.
Proof. unfold EvalSet_codec, EvalSet_fields. apply _. Qed.

Record AgentSection : Type := {
  pa_name : string;
  pa_description : option string;
  pa_role_prompt : option string;
  pa_agents_md : string;
  pa_context_budget_tokens : N;
  pa_spill_cap_bytes : N;
  pa_eval_set : option EvalSet
}.
Definition AgentSection_fields : fcodec AgentSection := fiso
  (fun '(x1, (x2, (x3, (x4, (x5, (x6, x7)))))) => Build_AgentSection x1 x2 x3 x4 x5 x6 x7)
  (fun r => (r.(pa_name), (r.(pa_description), (r.(pa_role_prompt), (r.(pa_agents_md), (r.(pa_context_budget_tokens), (r.(pa_spill_cap_bytes), r.(pa_eval_set))))))))
  (freq "name" cstr
   ⊗ fopt "description" cstr
   ⊗ fopt "role_prompt" cstr
   ⊗ freq "agents_md" cstr
   ⊗ freq "context_budget_tokens" cu64
   ⊗ freq "spill_cap_bytes" cu64
   ⊗ fopt "eval_set" EvalSet_codec).
Definition AgentSection_codec : codec AgentSection := struct AgentSection_fields.
#[export] Instance AgentSection_codec_ok : CodecOk AgentSection_codec.
Proof. unfold AgentSection_codec, AgentSection_fields. apply _. Qed.

Record McpServer : Type := {
  mcp_name : string;
  mcp_transport : string;
  mcp_command : list string;
  mcp_url : option string;
  mcp_capabilities : list string;
  mcp_description : option string;
  mcp_tools : option (list string);
  mcp_index : string;
  mcp_env : list (string * string)
}.
Definition McpServer_fields : fcodec McpServer := fiso
  (fun '(x1, (x2, (x3, (x4, (x5, (x6, (x7, (x8, x9)))))))) => Build_McpServer x1 x2 x3 x4 x5 x6 x7 x8 x9)
  (fun r => (r.(mcp_name), (r.(mcp_transport), (r.(mcp_command), (r.(mcp_url), (r.(mcp_capabilities), (r.(mcp_description), (r.(mcp_tools), (r.(mcp_index), r.(mcp_env))))))))))
  (freq "name" cstr
   ⊗ freq "transport" cstr
   ⊗ freq "command" (clist cstr)
   ⊗ fopt "url" cstr
   ⊗ freq "capabilities" (clist cstr)
   ⊗ fopt "description" cstr
   ⊗ fopt "tools" (clist cstr)
   ⊗ freq "index" cstr
   ⊗ freq "env" (cmap cstr)).
Definition McpServer_codec : codec McpServer := struct McpServer_fields.
#[export] Instance McpServer_codec_ok : CodecOk McpServer_codec.
Proof. unfold McpServer_codec, McpServer_fields. apply _. Qed.

Record Subagent : Type := {
  sub_name : string;
  sub_catalog : string;
  sub_capabilities : list string;
  sub_definition : option string;
  sub_description : option string
}.
Definition Subagent_fields : fcodec Subagent := fiso
  (fun '(x1, (x2, (x3, (x4, x5)))) => Build_Subagent x1 x2 x3 x4 x5)
  (fun r => (r.(sub_name), (r.(sub_catalog), (r.(sub_capabilities), (r.(sub_definition), r.(sub_description))))))
  (freq "name" cstr
   ⊗ freq "catalog" cstr
   ⊗ freq "capabilities" (clist cstr)
   ⊗ fopt "definition" cstr
   ⊗ fopt "description" cstr).
Definition Subagent_codec : codec Subagent := struct Subagent_fields.
#[export] Instance Subagent_codec_ok : CodecOk Subagent_codec.
Proof. unfold Subagent_codec, Subagent_fields. apply _. Qed.

Record ProfileMiddleware : Type := {
  pmw_name : string;
  pmw_priority : Z;
  pmw_source : MiddlewareSource;
  pmw_config : json
}.
Definition ProfileMiddleware_fields : fcodec ProfileMiddleware := fiso
  (fun '(x1, (x2, (x3, x4))) => Build_ProfileMiddleware x1 x2 x3 x4)
  (fun r => (r.(pmw_name), (r.(pmw_priority), (r.(pmw_source), r.(pmw_config)))))
  (freq "name" cstr
   ⊗ freq "priority" ci32
   ⊗ freq "source" MiddlewareSource_codec
   ⊗ freq "config" cvalue).
Definition ProfileMiddleware_codec : codec ProfileMiddleware := struct ProfileMiddleware_fields.
#[export] Instance ProfileMiddleware_codec_ok : CodecOk ProfileMiddleware_codec.
Proof. unfold ProfileMiddleware_codec, ProfileMiddleware_fields. apply _. Qed.

Record ProfileMemory : Type := {
  pme_module : string;
  pme_config : json
}.
Definition ProfileMemory_fields : fcodec ProfileMemory := fiso
  (fun '(x1, x2) => Build_ProfileMemory x1 x2)
  (fun r => (r.(pme_module), r.(pme_config)))
  (freq "module" cstr
   ⊗ freq "config" cvalue).
Definition ProfileMemory_codec : codec ProfileMemory := struct ProfileMemory_fields.
#[export] Instance ProfileMemory_codec_ok : CodecOk ProfileMemory_codec.
Proof. unfold ProfileMemory_codec, ProfileMemory_fields. apply _. Qed.

Record SandboxSection : Type := {
  ps_backend : string;
  ps_timeout_s : N;
  ps_scratch_tmpfs_mb : N;
  ps_env_allow : list string;
  ps_network : bool
}.
Definition SandboxSection_fields : fcodec SandboxSection := fiso
  (fun '(x1, (x2, (x3, (x4, x5)))) => Build_SandboxSection x1 x2 x3 x4 x5)
  (fun r => (r.(ps_backend), (r.(ps_timeout_s), (r.(ps_scratch_tmpfs_mb), (r.(ps_env_allow), r.(ps_network))))))
  (freq "backend" cstr
   ⊗ freq "timeout_s" cu64
   ⊗ freq "scratch_tmpfs_mb" cu64
   ⊗ freq "env_allow" (clist cstr)
   ⊗ freq "network" cbool).
Definition SandboxSection_codec : codec SandboxSection := struct SandboxSection_fields.
#[export] Instance SandboxSection_codec_ok : CodecOk SandboxSection_codec.
Proof. unfold SandboxSection_codec, SandboxSection_fields. apply _. Qed.

Record Notebook : Type := {
  pn_path : string;
  pn_inject_on_resume : bool;
  pn_max_tokens : N
}.
Definition Notebook_fields : fcodec Notebook := fiso
  (fun '(x1, (x2, x3)) => Build_Notebook x1 x2 x3)
  (fun r => (r.(pn_path), (r.(pn_inject_on_resume), r.(pn_max_tokens))))
  (freq "path" cstr
   ⊗ freq "inject_on_resume" cbool
   ⊗ freq "max_tokens" cu64).
Definition Notebook_codec : codec Notebook := struct Notebook_fields.
#[export] Instance Notebook_codec_ok : CodecOk Notebook_codec.
Proof. unfold Notebook_codec, Notebook_fields. apply _. Qed.

(** [i as i32] of an [i64]. *)
Definition as_i32 (n : Z) : Z := ((n + 2 ^ 31) mod 2 ^ 32 - 2 ^ 31)%Z.

Record ResolvedProfile : Type := {
  rp_schema_version : N;
  rp_catalog_entry : string;
  rp_model : ModelSection;
  rp_prompt : option string;
  rp_tool_descriptions : list (string * string);
  rp_compaction : Compaction;
  rp_agent : AgentSection;
  rp_grants : list string;
  rp_tools : list string;
  rp_mcp_servers : list McpServer;
  rp_skills_paths : list string;
  rp_extensions_paths : list string;
  rp_subagents : list Subagent;
  rp_middleware : list ProfileMiddleware;
  rp_memory : ProfileMemory;
  rp_sandbox : SandboxSection;
  rp_notebook : Notebook;
  rp_runtime_overrides : list (string * json)
}.
(** Its derived [Serialize]; [extensions_paths] is left out when empty. *)
Definition resolved_json (p : ResolvedProfile) : json := jobj (
  [("schema_version", enc cu32 (rp_schema_version p));
   ("catalog_entry", enc cstr (rp_catalog_entry p));
   ("model", enc ModelSection_codec (rp_model p));
   ("prompt", enc_opt cstr (rp_prompt p));
   ("tool_descriptions", enc (cmap cstr) (rp_tool_descriptions p));
   ("compaction", enc Compaction_codec (rp_compaction p));
   ("agent", enc AgentSection_codec (rp_agent p));
   ("grants", enc (clist cstr) (rp_grants p));
   ("tools", enc (clist cstr) (rp_tools p));
   ("mcp_servers", enc (clist McpServer_codec) (rp_mcp_servers p));
   ("skills_paths", enc (clist cstr) (rp_skills_paths p))] ++
  match rp_extensions_paths p with [] => [] | l => [("extensions_paths", enc (clist cstr) l)] end ++
  [("subagents", enc (clist Subagent_codec) (rp_subagents p));
   ("middleware", enc (clist ProfileMiddleware_codec) (rp_middleware p));
   ("memory", enc ProfileMemory_codec (rp_memory p));
   ("sandbox", enc SandboxSection_codec (rp_sandbox p));
   ("notebook", enc Notebook_codec (rp_notebook p));
   ("runtime_overrides", enc (cmap cvalue) (rp_runtime_overrides p))]).
Definition resolved_hash `{Platform} (p : ResolvedProfile) : result HashError string := of_canonical_json (resolved_json p).

(** * The system prompt (prompt.rs) *)

Definition AGENTS_MD_HEADER : string := "# Project instructions (AGENTS.md)".
Definition SKILLS_HEADER : string := "# Active skills".
Definition NOTEBOOK_HEADER : string := "# Notebook".
Definition BLOCK_SEPARATOR : string := String newline (String newline "").

(** A text with the name of its source. *)
Record PromptSources : Type := {
  psrc_model : option (string * string);
  psrc_role : option (string * string);
  psrc_agents_md : option (string * string);
  psrc_notebook : option (string * string)
}.
Definition trim_block (text : string) : string := trim_end_by is_eol (trim_start_by is_eol text).
Definition block `{Platform} (kind : PromptBlockKind) (name : string) (header : option string) (text : string) :
    option PromptBlock :=
  let body := trim_block text in
  if decide (body = "") then None
  else Some (prompt_block_new kind name
               (match header with Some h => h +:+ BLOCK_SEPARATOR +:+ body | None => body end)).
Definition source_block `{Platform} (kind : PromptBlockKind) (header : option string) (s : option (string * string)) :
    list PromptBlock :=
  match s with Some (text, name) => option_list (block kind name header text) | None => [] end.
Definition assemble `{Platform} (s : PromptSources) : list PromptBlock :=
  source_block PbModel None (psrc_model s) ++ source_block PbRole None (psrc_role s) ++
  source_block PbAgentsMd (Some AGENTS_MD_HEADER) (psrc_agents_md s) ++
  source_block PbNotebook (Some NOTEBOOK_HEADER) (psrc_notebook s).
Definition join_blocks (blocks : list PromptBlock) : option string :=
  match blocks with [] => None | _ => Some (join BLOCK_SEPARATOR (pb_text <$> blocks)) end.
