(* ===== verification/Catalog.v ===== *)
(** [profiles/src/bundles.rs] and [profiles/src/catalog.rs]: the capability bundles and the catalog of
    agents, loaded from the profiles directory. *)

From S2P Require Import Prelude Ord Str Utf8 Capability Paths Json Toml Atom Schema.

Open Scope string_scope.
Open Scope list_scope.

(** * Sorting ([Vec::sort] and [Vec::dedup] on strings) *)

Definition sorted_strings (l : list string) : list string := oset_of_list l.

(** * Bundles *)

Record BundleDef : Type := { bd_description : option string; bd_atoms : list string }.
Record Bundles : Type := {
  bn_path : string;
  bn_hash : string;
  bn_install : list (string * string);
  bn_bundles : list (string * BundleDef)
}.
Definition strings_of (o : option toml) : list string := omap toml_str (default [] (o ≫= toml_array)).
(** The string entries of a table. *)
Definition str_entries (o : option toml) : list (string * string) :=
  omap_of_list (omap (fun kv => pair kv.1 <$> toml_str kv.2) (default [] (o ≫= toml_table))).
Definition bundle_def (b : Table) : BundleDef :=
  {| bd_description := str_of b "description"; bd_atoms := strings_of (omap_get "atoms" b) |}.

Section load.
Context {HP : Platform} {HF : FileSystem}.

Definition load_bundles (path : string) : result (list Diagnostic) Bundles :=
  match fs_read path with
  | Err e => Err [diag "E_FILE_NOT_FOUND" (Some path) "" ("cannot read bundles file: " +:+ e)]
  | Ok bytes =>
      vf ← validate_file FkBundles path bytes;
      mret {| bn_path := vf_path vf; bn_hash := vf_hash vf;
              bn_install := str_entries (omap_get "install" (vf_table vf));
              bn_bundles := omap_of_list (omap (fun kv => (fun b => (kv.1, bundle_def b)) <$> toml_table kv.2)
                              (default [] (omap_get "bundles" (vf_table vf) ≫= toml_table))) |}
  end.

(** [Bundles::expand_indexed]: the atoms with the index of the item they come from, or every unknown
    item. *)
Definition expand_item (b : Bundles) (item : nat * string) : result (nat * string) (list (nat * string)) :=
  let '(i, s) := item in
  match classify s with
  | Ok (GrantAtom _ _) => Ok [(i, s)]
  | Ok (GrantBundle name) =>
      match omap_get name (bn_bundles b) with
      | Some d => Ok ((fun a => (i, a)) <$> bd_atoms d)
      | None => Err (i, s)
      end
  | Err _ => Err (i, s)
  end.
Fixpoint partition_results {E A} (l : list (result E (list A))) : list A * list E :=
  match l with
  | [] => ([], [])
  | r :: l =>
      let '(out, errs) := partition_results l in
      match r with Ok xs => (xs ++ out, errs) | Err e => (out, e :: errs) end
  end.
Definition expand_indexed (b : Bundles) (l : list string) : result (list (nat * string)) (list (nat * string)) :=
  match partition_results (expand_item b <$> indexed 0 l) with
  | (out, []) => Ok out
  | (_, errs) => Err errs
  end.
Definition expand_bundles (b : Bundles) (l : list string) : result (list Diagnostic) (list string) :=
  match expand_indexed b l with
  | Ok items => Ok (sorted_strings items.*2)
  | Err errs =>
      Err ((fun e => diag "E_UNKNOWN_BUNDLE" (Some (bn_path b)) (idx "" e.1) ("'" +:+ e.2 +:+ "'")) <$> errs)
  end.

(** * The catalog *)

Record CatalogEntry : Type := {
  ce_name : string;
  ce_description : option string;
  ce_model_profile : string;
  ce_agent_profile : string
}.
Record Catalog : Type := {
  cat_path : string;
  cat_hash : string;
  cat_entries : list CatalogEntry
}.
(** The name an agent file gives itself, read lightly. *)
Definition agent_file_name (path : string) : option string :=
  match read_to_string path with
  | Err _ => None
  | Ok text =>
      match parse_table text with
      | Err _ => None
      | Ok t => ((omap_get "agent" t ≫= toml_table) ≫= omap_get "name") ≫= toml_str
      end
  end.
Definition catalog_entry (dir : string) (a : Table) : CatalogEntry :=
  {| ce_name := default "" (str_of a "name"); ce_description := str_of a "description";
     ce_model_profile := path_join dir (default "" (str_of a "model_profile"));
     ce_agent_profile := path_join dir (default "" (str_of a "agent_profile")) |}.
Definition check_entry_name (e : CatalogEntry) : list Diagnostic :=
  match agent_file_name (ce_agent_profile e) with
  | Some n => complain (negb (bool_decide (n = ce_name e)))
      [diag "E_CATALOG_REF" (Some (ce_agent_profile e)) "agent.name" ("'" +:+ n +:+ "' != catalog entry '" +:+ ce_name e +:+ "'")]
  | None => []
  end.
Definition load_catalog (path : string) : result (list Diagnostic) Catalog :=
  match fs_read path with
  | Err e => Err [diag "E_FILE_NOT_FOUND" (Some path) "" ("cannot read catalog: " +:+ e)]
  | Ok bytes =>
      vf ← validate_file FkCatalog path bytes;
      let dir := default "/" (path_parent path) in
      let entries := catalog_entry dir <$> omap toml_table (default [] (omap_get "agents" (vf_table vf) ≫= toml_array)) in
      match flat_map check_entry_name entries with
      | [] => Ok {| cat_path := vf_path vf; cat_hash := vf_hash vf; cat_entries := entries |}
      | diags => Err diags
      end
  end.
Definition catalog_get (c : Catalog) (name : string) : option CatalogEntry :=
  List.find (fun e => bool_decide (ce_name e = name)) (cat_entries c).
Definition is_valid_name (name : string) : bool := is_ident name.

(** Each parent is shorter. *)
Fixpoint discover_loop (fuel : nat) (dir : string) : option string :=
  match fuel with
  | O => None
  | S fuel =>
      let candidate := path_join dir "profiles" in
      if fs_is_file (path_join candidate "catalog.toml") then Some candidate
      else match path_parent dir with Some up => discover_loop fuel up | None => None end
  end.
Definition discover_profiles_dir (start : string) : option string := discover_loop (S (String.length start)) start.
End load.
