(* ===== verification/Resolve.v ===== *)
(** [profiles/src/resolve.rs]: the resolution of a catalog entry into what a kernel is built with.  The layers are merged,
    bundles and placeholders expanded, and the result checked: nothing a session's parts need or
    are given goes beyond the session's grants, and a project file narrows only. *)

From Stdlib Require Import Floats.SpecFloat.
From S2P Require Import Prelude Ord Str Utf8 Capability Paths Sandbox Json Strict Codec Data Event Outside Registry Cassette Wire Toml Atom Schema Merge Profile Catalog.

Open Scope string_scope.
Open Scope list_scope.

(** Layer 0 ([lib.rs: KERNEL_DEFAULTS_TOML], parsed). *)
Definition table_of (l : list (string * toml)) : toml := TTable (omap_of_list l).
Definition tstrings (l : list string) : toml := TArray (TString <$> l).
Definition f085 : spec_float := S754_finite false 7656119366529843 (-53).
Definition f050 : spec_float := S754_finite false 4503599627370496 (-53).
Definition kernel_defaults : Table := omap_of_list
  [("schema_version", TInteger 1);
   ("model", table_of
      [("tool_format", TString "native"); ("max_output_tokens", TInteger 4096);
       ("thinking", table_of [("enabled", TBoolean false); ("budget_tokens", TInteger 0)]);
       ("quirks", table_of
          [("reasoning_field", TString "none"); ("supports_structured_output", TBoolean false);
           ("supports_stream_usage", TBoolean false); ("strict_tool_schema", TBoolean false); ("auth", TString "none")])]);
   ("compaction", table_of
      [("trigger_at", TFloat f085); ("target", TFloat f050)]);
   ("agent", table_of
      [("context_budget_tokens", TInteger 40000); ("spill_cap_bytes", TInteger 16384);
       ("agents_md", TString "${workdir}/AGENTS.md")]);
   ("capabilities", table_of [("grants", TArray [])]);
   ("tools", table_of [("allow", TArray [])]);
   ("skills", table_of [("paths", TArray [])]);
   ("memory", table_of [("module", TString "none")]);
   ("sandbox", table_of
      [("backend", TString "bwrap"); ("timeout_s", TInteger 600); ("scratch_tmpfs_mb", TInteger 256);
       ("env_allow", tstrings ["PATH"; "HOME"; "LANG"; "LC_ALL"; "TERM"; "TZ"]); ("network", TBoolean false)]);
   ("notebook", table_of
      [("path", TString "${workdir}/.grist/notebook.md"); ("inject_on_resume", TBoolean true); ("max_tokens", TInteger 4000)])].

(** * Inputs and outputs *)

Record ToolDecl : Type := { decl_kind : ToolKind; decl_capabilities : list Capability }.
Record BuildRegistry : Type := {
  br_tools : list (string * ToolDecl);
  br_middleware : list string;
  br_parsers : list string;
  br_memory_modules : list string;
  br_sandbox_backends : list string;
  br_dev_build : bool
}.
Record ResolveInputs : Type := {
  in_profiles_dir : string;
  in_workdir : string;
  in_home : string;
  in_agent : string;
  in_runtime_overrides : Table;
  in_registry : BuildRegistry;
  in_resume : bool
}.
Record ResolvedMiddleware : Type := {
  rmw_name : string;
  rmw_priority : Z;
  rmw_source : MiddlewareSource;
  rmw_config : json;
  rmw_config_hash : option string
}.
Record ResolvedMcpServer : Type := {
  rmcp_server : McpServer;
  rmcp_command : list string;
  rmcp_capabilities : list Capability
}.
Record ResolvedSubagent : Type := {
  rsub_subagent : Subagent;
  rsub_ceiling : list Capability;
  rsub_definition : option string
}.
Record ResolvedEvalSet : Type := { res_dev : string; res_hidden : string }.
Record KernelInputs : Type := {
  ki_model_id : string;
  ki_endpoint : string;
  ki_tool_format : string;
  ki_context_length : N;
  ki_quirks : ProfileQuirks;
  ki_model_params : ModelParams;
  ki_system_prompt : list PromptBlock;
  ki_middleware : list ResolvedMiddleware;
  ki_grants : list Capability;
  ki_tools : list string;
  ki_tool_descriptions : list (string * string);
  ki_sandbox_backend : string;
  ki_sandbox_limits : SandboxLimits;
  ki_spill : SpillConfig;
  ki_context_budget_tokens : N;
  ki_compaction : Compaction;
  ki_notebook_path : option string;
  ki_notebook : Notebook;
  ki_envelope_policy : SandboxPolicy;
  ki_sandbox_policy_hash : string;
  ki_agents_md_path : string;
  ki_skills_paths : list string;
  ki_extension_paths : list string;
  ki_mcp_servers : list ResolvedMcpServer;
  ki_subagents : list ResolvedSubagent;
  ki_memory : ProfileMemory;
  ki_eval_set : option ResolvedEvalSet;
  ki_catalog_entry : string
}.
Record ProfileDrift : Type := { dr_expected : string; dr_actual : string; dr_warn : bool }.
Record Resolved : Type := {
  rd_resolved_profile : ResolvedProfile;
  rd_resolved_profile_hash : string;
  rd_active_profiles : ActiveProfiles;
  rd_catalog_hash : string;
  rd_profile_loads : list ProfileLoadPayload;
  rd_warnings : list Diagnostic;
  rd_drift : option ProfileDrift;
  rd_kernel_inputs : KernelInputs
}.

(** * Working state *)

Inductive Layers : Type := Base | Full.
#[export] Instance Layers_eq_dec : EqDecision Layers.
Proof. solve_decision. Defined.
(** A grant with the item that produced it; its atom is known from step 7 on. *)
Record Grant : Type := { gr_path : string; gr_sym : string; gr_cap : option Capability }.
Definition grant (path sym : string) : Grant := {| gr_path := path; gr_sym := sym; gr_cap := None |}.
Definition SymList : Type := list (string * list Grant).

Record Stage : Type := {
  sg_model_file : ValidatedFile;
  sg_agent_file : ValidatedFile;
  sg_project_file : option ValidatedFile;
  sg_layered : Layered;
  sg_profile : ResolvedProfile;
  sg_hash : string;
  sg_grants : list Grant;
  sg_concrete_grants : list Capability;
  sg_chain : list MwEntry;
  sg_limits : SandboxLimits;
  sg_agents_md : string;
  sg_skills : list string;
  sg_extensions : list string;
  sg_notebook : string;
  sg_mcp : list ResolvedMcpServer;
  sg_subagents : list ResolvedSubagent;
  sg_eval_set : option ResolvedEvalSet;
  sg_fine_tune : option (string * bool);
  sg_warnings : list Diagnostic;
  sg_narrowing_errors : list Diagnostic
}.

Definition diags : Type := list Diagnostic.
Definition errs_of (ds : diags) : result diags unit := if existsb is_error ds then Err ds else Ok tt.
Definition quote_str (s : string) : string := "'" +:+ s +:+ "'".

(** * Step 3: merging *)

Definition s_at (t : Table) (dotted : string) : option string := str_at t dotted.
Definition u_at (t : Table) (dotted : string) (dflt : N) : N :=
  match int t dotted with Some i => if (0 <=? i)%Z then Z.to_N i else dflt | None => dflt end.
Definition b_at (t : Table) (dotted : string) (dflt : bool) : bool := default dflt (boolean t dotted).
Definition list_at (t : Table) (dotted : string) : list string := strings_of (get t dotted).
Definition tables_at (t : Table) (key : string) : list Table :=
  omap toml_table (default [] (omap_get key t ≫= toml_array)).

Definition override_ok (k : string) (v : toml) : bool :=
  if decide (k = "model.temperature") then
    match v with
    | TFloat f => f64_in (f64_of_Z 0) (f64_of_Z 2) f
    | TInteger i => (0 <=? i)%Z && (i <=? 2)%Z
    | _ => false
    end
  else if bool_decide (k = "model.max_output_tokens") || bool_decide (k = "agent.context_budget_tokens") then
    match v with TInteger i => (0 <? i)%Z | _ => false end
  else if decide (k = "model.thinking.enabled") then match v with TBoolean _ => true | _ => false end
  else if decide (k = "model.thinking.budget_tokens") then match v with TInteger i => (0 <=? i)%Z | _ => false end
  else if decide (k = "notebook.path") then match v with TString s => is_ok (check_path_grammar s) | _ => false end
  else false.
(** Tables are made along the way; a segment that holds something else does not occur. *)
Fixpoint insert_segs (segs : list string) (v : toml) (t : Table) : Table :=
  match segs with
  | [] => t
  | [seg] => omap_insert seg v t
  | seg :: segs =>
      omap_insert seg (TTable (insert_segs segs v (match omap_get seg t with Some (TTable t') => t' | _ => [] end))) t
  end.
Definition check_override (kv : string * toml) : diags :=
  if negb (bool_decide (kv.1 ∈ RUNTIME_OVERRIDE_KEYS)) then
    [diag "E_OVERRIDE_FORBIDDEN_KEY" None kv.1 "not in the runtime override whitelist (profile-schema.md §4.4)"]
  else complain (negb (override_ok kv.1 kv.2))
         [diag "E_VALUE_RANGE" None kv.1 "runtime override has the wrong type or is out of range"].
Definition apply_runtime_overrides (overrides : Table) (l : Layered) : result diags (Layered * list (string * json)) :=
  let accepted := List.filter (fun kv => match check_override kv with [] => true | _ => false end) overrides in
  let nested := foldl (fun t kv => insert_segs (split_char "." kv.1) kv.2 t) [] accepted in
  _ ← errs_of (flat_map check_override overrides);
  mret (apply_table nested None l, omap_of_list ((fun kv => (kv.1, toml_to_json kv.2)) <$> accepted)).

Section resolve.
Context {HP : Platform} {HF : FileSystem}.

Definition required_keys (t : Table) (model_file : ValidatedFile) : diags :=
  flat_map (fun key => complain (bool_decide (get t key = None))
    [diag "E_MISSING_KEY" (Some (vf_path model_file)) key "required"]) ["model.id"; "model.endpoint"; "model.context_length"].
Definition check_agent_name (t : Table) (agent_file : ValidatedFile) (entry : CatalogEntry) : diags :=
  match s_at t "agent.name" with
  | None => [diag "E_MISSING_KEY" (Some (vf_path agent_file)) "agent.name" "required"]
  | Some n => complain (negb (bool_decide (n = ce_name entry)))
      [diag "E_CATALOG_REF" (Some (vf_path agent_file)) "agent.name" (quote_str n +:+ " != catalog entry " +:+ quote_str (ce_name entry))]
  end.
Definition check_budget (l : Layered) : diags :=
  let t := ly_table l in
  let path := "model.thinking.budget_tokens" in
  match int t path with
  | None => []
  | Some b =>
      complain (b_at t "model.thinking.enabled" false && (b <? 0)%Z)
        [diag "E_VALUE_RANGE" (origin_of l path) path "must be >= 0"] ++
      complain (negb (b_at t "model.thinking.enabled" false) && (0 <? b)%Z)
        [diag "E_VALUE_RANGE" (origin_of l path) path "must be 0 when enabled = false"]
  end.
Definition check_merged (l : Layered) (model_file agent_file : ValidatedFile) (entry : CatalogEntry) : result diags unit :=
  let t := ly_table l in
  let cx := for_merged (default (vf_path model_file) (origin_of l "compaction.target")) in
  errs_of (required_keys t model_file ++ check_agent_name t agent_file entry ++ check_compaction cx t ++ check_budget l).

(** * Step 4: bundles and derived atoms *)

Definition expand_list (b : Bundles) (l : Layered) (dotted : string) (items : list string) : list Grant * diags :=
  match expand_indexed b items with
  | Ok list => ((fun ia => grant (idx dotted ia.1) ia.2) <$> list, [])
  | Err errs =>
      ([], (fun ie => diag "E_UNKNOWN_BUNDLE" (origin_of l dotted) (idx dotted ie.1) (quote_str ie.2)) <$> errs)
  end.
Definition expand_mcp (b : Bundles) (l : Layered) (it : nat * Table) : (string * list Grant) * diags :=
  let '(list, ds) := expand_list b l (idx "mcp_servers" it.1 +:+ ".capabilities") (list_at it.2 "capabilities") in
  ((default "" (s_at it.2 "name"), list), ds).
(** One sub-agent: the grant to spawn it, its ceiling, and what is wrong. *)
Definition expand_sub (c : Catalog) (b : Bundles) (l : Layered) (it : nat * Table) : (Grant * (string * list Grant)) * diags :=
  let p := idx "subagents" it.1 in
  let catalog_name := default "" (s_at it.2 "catalog") in
  let '(list, ds) := expand_list b l (p +:+ ".capabilities") (list_at it.2 "capabilities") in
  ((grant (p +:+ ".catalog") ("spawn:" +:+ catalog_name), (catalog_name, list)),
   complain (bool_decide (catalog_get c catalog_name = None))
     [diag "E_CATALOG_REF" (origin_of l "subagents") (p +:+ ".catalog") (quote_str catalog_name)] ++ ds).
Definition expand_grants (c : Catalog) (b : Bundles) (l : Layered) : result diags (list Grant * SymList * SymList) :=
  let t := ly_table l in
  let '(granted, d1) := expand_list b l "capabilities.grants" (list_at t "capabilities.grants") in
  let tools := (fun it => grant (idx "tools.allow" it.1) ("tool:" +:+ it.2)) <$> indexed 0 (list_at t "tools.allow") in
  let mcp := expand_mcp b l <$> indexed 0 (tables_at t "mcp_servers") in
  let subs := expand_sub c b l <$> indexed 0 (tables_at t "subagents") in
  _ ← errs_of (d1 ++ concat mcp.*2 ++ concat subs.*2);
  mret (granted ++ tools ++ subs.*1.*1, mcp.*1, subs.*1.*2).

(** * Step 5: the middleware chain and the registry *)

Fixpoint insert_mw (m : MwEntry) (l : list MwEntry) : list MwEntry :=
  match l with
  | [] => [m]
  | x :: l' => if (men_priority m <=? men_priority x)%Z then m :: l else x :: insert_mw m l'
  end.
(** [sort_by_key] is stable. *)
Definition sort_chain (l : list MwEntry) : list MwEntry := foldr insert_mw [] l.
Definition parser_entry (syntax : string) (model_file : ValidatedFile) (index : nat) : MwEntry :=
  {| men_name := TOOL_CALL_PARSER_NAME; men_priority := TOOL_CALL_PARSER_PRIORITY;
     men_config := [("syntax", TString syntax)]; men_source := MsModel; men_file := Some (vf_path model_file);
     men_index := index |}.
Definition recorder_slot : MwEntry :=
  {| men_name := "recorder"; men_priority := RECORDER_PRIORITY; men_config := []; men_source := MsKernel; men_file := None;
     men_index := 0 |}.
Definition with_parser (reg : BuildRegistry) (l : Layered) (model_file : ValidatedFile) : list MwEntry * diags :=
  match strip_prefix "parsed:" (default "native" (s_at (ly_table l) "model.tool_format")) with
  | None => (ly_middleware l, [])
  | Some syntax =>
      (if bool_decide (TOOL_CALL_PARSER_NAME ∈ men_name <$> ly_middleware l) then ly_middleware l
       else ly_middleware l ++ [parser_entry syntax model_file (length (ly_middleware l))],
       complain (negb (bool_decide (syntax ∈ br_parsers reg)))
         [diag "E_PARSER_UNAVAILABLE" (Some (vf_path model_file)) "model.tool_format" ("no parser for " +:+ quote_str syntax)])
  end.
Definition check_known (reg : BuildRegistry) (agent_file : ValidatedFile) (m : MwEntry) : diags :=
  complain (negb (bool_decide (men_name m = TOOL_CALL_PARSER_NAME)) && negb (bool_decide (men_name m ∈ br_middleware reg)))
    [diag "E_MIDDLEWARE_UNKNOWN" (Some (default (vf_path agent_file) (men_file m)))
       (idx "middleware" (men_index m) +:+ ".name") (quote_str (men_name m))].
Definition finish_chain (reg : BuildRegistry) (l : Layered) (model_file agent_file : ValidatedFile) : result diags (list MwEntry) :=
  let '(mw, d) := with_parser reg l model_file in
  _ ← errs_of (d ++ flat_map (check_known reg agent_file) mw);
  mret (sort_chain (mw ++ [recorder_slot])).

Definition check_registry (reg : BuildRegistry) (l : Layered) : result diags unit :=
  let t := ly_table l in
  let module := default "none" (s_at t "memory.module") in
  let backend := default "bwrap" (s_at t "sandbox.backend") in
  let unknown_tool (path name : string) (at_ : string) : diags :=
    complain (bool_decide (omap_get name (br_tools reg) = None)) [diag "E_TOOL_UNKNOWN" (origin_of l path) at_ (quote_str name)] in
  errs_of (
    complain (negb (bool_decide (module ∈ br_memory_modules reg)))
      [diag "E_MEMORY_UNKNOWN" (origin_of l "memory.module") "memory.module" (quote_str module)] ++
    (if bool_decide (backend = "none") && negb (br_dev_build reg) then
       [diag "E_SANDBOX_NONE_FORBIDDEN" (origin_of l "sandbox.backend") "sandbox.backend"
          (in_quotes "none" +:+ " is only accepted in a dev build (D14)")]
     else complain (negb (bool_decide (backend ∈ br_sandbox_backends reg)))
            [diag "E_SANDBOX_BACKEND_UNKNOWN" (origin_of l "sandbox.backend") "sandbox.backend" (quote_str backend)]) ++
    flat_map (fun it => unknown_tool "tools.allow" it.2 (idx "tools.allow" it.1)) (indexed 0 (list_at t "tools.allow")) ++
    match omap_get "tool_descriptions" t with
    | Some (TTable d) => flat_map (fun k => let p := "tool_descriptions." +:+ k in unknown_tool p k p) d.*1
    | _ => []
    end).

(** * Step 6: the resolved profile *)

Definition sorted_syms (l : list Grant) : list string := sorted_strings (gr_sym <$> l).
Definition model_section (t : Table) : ModelSection :=
  {| pm_id := default "" (s_at t "model.id"); pm_endpoint := default "" (s_at t "model.endpoint");
     pm_context_length := u_at t "model.context_length" 0;
     pm_tool_format := default "native" (s_at t "model.tool_format");
     pm_temperature := num t "model.temperature";
     pm_max_output_tokens := u_at t "model.max_output_tokens" 4096;
     pm_thinking := {| pth_enabled := b_at t "model.thinking.enabled" false;
                       pth_budget_tokens := u_at t "model.thinking.budget_tokens" 0 |};
     pm_quirks := {| pq_reasoning_field := default "none" (s_at t "model.quirks.reasoning_field");
                     pq_supports_structured_output := b_at t "model.quirks.supports_structured_output" false;
                     pq_supports_stream_usage := b_at t "model.quirks.supports_stream_usage" false;
                     pq_strict_tool_schema := b_at t "model.quirks.strict_tool_schema" false;
                     pq_auth := default "none" (s_at t "model.quirks.auth") |} |}.
Definition agent_section (t : Table) : AgentSection :=
  {| pa_name := default "" (s_at t "agent.name"); pa_description := s_at t "agent.description";
     pa_role_prompt := s_at t "agent.role_prompt";
     pa_agents_md := default "${workdir}/AGENTS.md" (s_at t "agent.agents_md");
     pa_context_budget_tokens := u_at t "agent.context_budget_tokens" 40000;
     pa_spill_cap_bytes := u_at t "agent.spill_cap_bytes" 16384;
     pa_eval_set := (fun _ => {| pes_dev := default "" (s_at t "agent.eval_set.dev");
                                 pes_hidden := default "" (s_at t "agent.eval_set.hidden") |}) <$> get t "agent.eval_set" |}.
Definition mcp_server (s : Table) (caps : list Grant) : McpServer :=
  {| mcp_name := default "" (s_at s "name"); mcp_transport := default "" (s_at s "transport");
     mcp_command := list_at s "command"; mcp_url := s_at s "url"; mcp_capabilities := sorted_syms caps;
     mcp_description := s_at s "description";
     mcp_tools := (fun _ => list_at s "tools") <$> omap_get "tools" s;
     mcp_index := default "names" (s_at s "index"); mcp_env := str_entries (omap_get "env" s) |}.
Definition subagent (s : Table) (caps : list Grant) : Subagent :=
  {| sub_name := default "" (s_at s "name"); sub_catalog := default "" (s_at s "catalog");
     sub_capabilities := sorted_syms caps; sub_definition := s_at s "definition"; sub_description := s_at s "description" |}.
Definition sandbox_section (t : Table) : SandboxSection :=
  {| ps_backend := default "bwrap" (s_at t "sandbox.backend"); ps_timeout_s := u_at t "sandbox.timeout_s" 600;
     ps_scratch_tmpfs_mb := u_at t "sandbox.scratch_tmpfs_mb" 256;
     ps_env_allow := sorted_strings (list_at t "sandbox.env_allow"); ps_network := b_at t "sandbox.network" false |}.
Definition zip_entries {A} (f : Table -> list Grant -> A) (ts : list Table) (l : SymList) : list A :=
  zip_with (fun s nc => f s nc.2) ts l.
Definition build_profile (l : Layered) (entry : CatalogEntry) (grants : list Grant) (mcp subs : SymList)
    (chain : list MwEntry) (runtime_overrides : list (string * json)) : ResolvedProfile :=
  let t := ly_table l in
  {| rp_schema_version := Z.to_N SCHEMA_VERSION; rp_catalog_entry := ce_name entry; rp_model := model_section t;
     rp_prompt := s_at t "prompt"; rp_tool_descriptions := str_entries (omap_get "tool_descriptions" t);
     rp_compaction := {| pco_trigger_at := default f085 (num t "compaction.trigger_at");
                         pco_target := default f050 (num t "compaction.target") |};
     rp_agent := agent_section t; rp_grants := sorted_syms grants; rp_tools := sorted_strings (list_at t "tools.allow");
     rp_mcp_servers := zip_entries mcp_server (tables_at t "mcp_servers") mcp;
     rp_skills_paths := list_at t "skills.paths"; rp_extensions_paths := list_at t "extensions.paths";
     rp_subagents := zip_entries subagent (tables_at t "subagents") subs;
     rp_middleware := (fun m => {| pmw_name := men_name m; pmw_priority := as_i32 (men_priority m);
                                   pmw_source := men_source m; pmw_config := toml_to_json (TTable (men_config m)) |}) <$> chain;
     rp_memory := {| pme_module := default "none" (s_at t "memory.module");
                     pme_config := match get t "memory.config" with Some v => toml_to_json v | None => JObj [] end |};
     rp_sandbox := sandbox_section t;
     rp_notebook := {| pn_path := default "${workdir}/.grist/notebook.md" (s_at t "notebook.path");
                       pn_inject_on_resume := b_at t "notebook.inject_on_resume" true;
                       pn_max_tokens := u_at t "notebook.max_tokens" 4000 |};
     rp_runtime_overrides := runtime_overrides |}.

(** * Step 7: placeholders *)

Definition atom_diag (l : Layered) (path : string) (e : AtomError) : diags :=
  [diag (atom_code e) (origin_of l path) path (atom_message e)].
Definition expand_one (l : Layered) (ex : Expander) (g : Grant) : Grant * diags :=
  match expand_atom ex (gr_sym g) with
  | Ok c => ({| gr_path := gr_path g; gr_sym := gr_sym g; gr_cap := Some c |}, [])
  | Err e => (g, atom_diag l (gr_path g) e)
  end.
Fixpoint dedup (l : list Capability) : list Capability :=
  match l with
  | x :: ((y :: _) as rest) => if decide (x = y) then dedup rest else x :: dedup rest
  | _ => l
  end.
(** [expand_atoms]: the list with its atoms filled in, the sorted atoms, and what failed. *)
Definition expand_atoms (l : Layered) (ex : Expander) (gs : list Grant) : list Grant * list Capability * diags :=
  let r := expand_one l ex <$> gs in
  (r.*1, dedup (sort_grants (omap gr_cap r.*1)), concat r.*2).
Definition path_of (l : Layered) (ex : Expander) (sym path : string) : option string * diags :=
  match expand_path ex sym with
  | Ok p => (Some p, [])
  | Err e => (None, atom_diag l path e)
  end.
Definition paths_of (l : Layered) (ex : Expander) (key : string) (syms : list string) : list string * diags :=
  let r := (fun iv => path_of l ex iv.2 (idx key iv.1)) <$> indexed 0 syms in (omap id r.*1, concat r.*2).
Definition eval_path (l : Layered) (ex : Expander) (v key : string) : string * diags :=
  if contains "://" v then (v, [])
  else let '(p, d) := path_of l ex v key in (default "" (from_utf8_lossy <$> p), d).
Definition expand_args (l : Layered) (ex : Expander) (p : string) (args : list string) : list string * diags :=
  let r := (fun jv => match expand_raw ex jv.2 with
                      | Ok a => (Some a, [])
                      | Err e => (None, atom_diag l (idx (p +:+ ".command") jv.1) e)
                      end) <$> indexed 0 args in
  (omap id r.*1, concat r.*2).
Definition expand_server (l : Layered) (ex : Expander) (i : nat) (server : McpServer) (caps : list Grant) :
    ResolvedMcpServer * diags :=
  let '(_, concrete, d1) := expand_atoms l ex caps in
  let '(command, d2) := expand_args l ex (idx "mcp_servers" i) (mcp_command server) in
  ({| rmcp_server := server; rmcp_command := command; rmcp_capabilities := concrete |}, d1 ++ d2).
Definition expand_subagent (l : Layered) (ex : Expander) (i : nat) (sub : Subagent) (caps : list Grant) :
    ResolvedSubagent * diags :=
  let '(_, ceiling, d1) := expand_atoms l ex caps in
  let '(definition, d2) := match sub_definition sub with
                           | Some d => path_of l ex d (idx "subagents" i +:+ ".definition")
                           | None => (None, [])
                           end in
  ({| rsub_subagent := sub; rsub_ceiling := ceiling; rsub_definition := definition |}, d1 ++ d2).
Definition net_masked (l : Layered) (p : ResolvedProfile) (concrete : list Capability) : diags :=
  complain (negb (ps_network (rp_sandbox p)) && existsb (fun c => match c with Net _ => true | _ => false end) concrete)
    [diag "W_NET_MASKED" (origin_of l "sandbox.network") "sandbox.network"
       "net: atoms are granted but sandbox.network = false masks them"].
Definition no_description (l : Layered) (is_ : nat * McpServer) : diags :=
  complain (bool_decide (mcp_index is_.2 = "server") && bool_decide (mcp_description is_.2 = None))
    [diag "W_MCP_NO_DESCRIPTION" (origin_of l "mcp_servers") (idx "mcp_servers" is_.1 +:+ ".description")
       ("index = " +:+ in_quotes "server" +:+ " shows the model only this line; set a description")].
Definition limits_of (s : SandboxSection) : SandboxLimits :=
  {| lim_timeout := secs (ps_timeout_s s); lim_scratch_tmpfs_mb := ps_scratch_tmpfs_mb s;
     lim_env_allowlist := oset_of_list (ps_env_allow s); lim_network := ps_network s |}.
Definition fine_tune_of (t : Table) : option (string * bool) :=
  h ← s_at t "fine_tune.trained_against_profile_hash";
  h ← ok (parse_hash h);
  Some (h, b_at t "fine_tune.warn_on_drift" true).

(** What the earlier steps hand to step 7. *)
Record Merged : Type := {
  mg_model_file : ValidatedFile;
  mg_agent_file : ValidatedFile;
  mg_project_file : option ValidatedFile;
  mg_layered : Layered;
  mg_profile : ResolvedProfile;
  mg_hash : string;
  mg_grants : list Grant;
  mg_mcp : SymList;
  mg_subs : SymList;
  mg_chain : list MwEntry
}.
(** [expand_stage]. *)
Definition expand_stage (m : Merged) (ex : Expander) : result diags Stage :=
  let l := mg_layered m in
  let p := mg_profile m in
  let '(grants, concrete, d1) := expand_atoms l ex (mg_grants m) in
  let '(agents_md, d2) := path_of l ex (pa_agents_md (rp_agent p)) "agent.agents_md" in
  let '(notebook, d3) := path_of l ex (pn_path (rp_notebook p)) "notebook.path" in
  let '(skills, d4) := paths_of l ex "skills.paths" (rp_skills_paths p) in
  let '(extensions, d5) := paths_of l ex "extensions.paths" (rp_extensions_paths p) in
  let '(eval_set, d6) :=
    match pa_eval_set (rp_agent p) with
    | Some es =>
        let '(dev, d) := eval_path l ex (pes_dev es) "agent.eval_set.dev" in
        let '(hidden, d') := eval_path l ex (pes_hidden es) "agent.eval_set.hidden" in
        (Some {| res_dev := dev; res_hidden := hidden |}, d ++ d')
    | None => (None, [])
    end in
  let mcp := (fun isc => expand_server l ex isc.1 isc.2.1 isc.2.2.2) <$> indexed 0 (zip (rp_mcp_servers p) (mg_mcp m)) in
  let subs := (fun isc => expand_subagent l ex isc.1 isc.2.1 isc.2.2.2) <$> indexed 0 (zip (rp_subagents p) (mg_subs m)) in
  _ ← errs_of (d1 ++ d2 ++ d3 ++ d4 ++ d5 ++ d6 ++ concat mcp.*2 ++ concat subs.*2);
  mret {| sg_model_file := mg_model_file m; sg_agent_file := mg_agent_file m; sg_project_file := mg_project_file m;
          sg_layered := l; sg_profile := p; sg_hash := mg_hash m; sg_grants := grants; sg_concrete_grants := concrete;
          sg_chain := mg_chain m; sg_limits := limits_of (rp_sandbox p); sg_agents_md := default "" agents_md;
          sg_skills := skills; sg_extensions := extensions; sg_notebook := default "" notebook; sg_mcp := mcp.*1;
          sg_subagents := subs.*1; sg_eval_set := eval_set; sg_fine_tune := fine_tune_of (ly_table l);
          sg_warnings := net_masked l p concrete ++ flat_map (no_description l) (indexed 0 (rp_mcp_servers p));
          sg_narrowing_errors := [] |}.

(** * Steps 1 to 7 for one entry *)

(** [Ctx] of the source, without its memo. *)
Record Ctx : Type := { cx_inputs : ResolveInputs; cx_catalog : Catalog; cx_bundles : Bundles }.
Definition expander (ctx : Ctx) : Expander :=
  {| ex_workdir := in_workdir (cx_inputs ctx); ex_home := in_home (cx_inputs ctx); ex_install := bn_install (cx_bundles ctx) |}.
Definition read_profile (ctx : Ctx) (p what : string) : result diags string :=
  map_err (fun e => [diag "E_FILE_NOT_FOUND" (Some (cat_path (cx_catalog ctx))) what (quote_str (from_utf8_lossy p) +:+ ": " +:+ e)])
    (fs_read p).
Fixpoint position {A} (f : A -> bool) (l : list A) : option nat :=
  match l with [] => None | x :: l => if f x then Some 0%nat else S <$> position f l end.
Definition project_path (ctx : Ctx) : string := path_join (path_join (in_workdir (cx_inputs ctx)) ".grist") "agent.toml".
Definition read_project (ctx : Ctx) (layers : Layers) : result diags (option string) :=
  if bool_decide (layers = Full) && fs_is_file (project_path ctx) then
    bytes ← read_profile ctx (project_path ctx) ""; mret (Some bytes)
  else Ok None.
Definition errors_in {A} (r : result diags A) : diags := match r with Ok _ => [] | Err d => d end.

(** Steps 1 and 2: the files of the layers. *)
Definition load_layers (ctx : Ctx) (entry : CatalogEntry) (layers : Layers) :
    result diags (ValidatedFile * ValidatedFile * option ValidatedFile) :=
  let p := idx "agents" (default 0%nat (position (fun e => bool_decide (ce_name e = ce_name entry)) (cat_entries (cx_catalog ctx)))) in
  model_bytes ← read_profile ctx (ce_model_profile entry) (p +:+ ".model_profile");
  agent_bytes ← read_profile ctx (ce_agent_profile entry) (p +:+ ".agent_profile");
  project_bytes ← read_project ctx layers;
  let model := validate_file FkModel (ce_model_profile entry) model_bytes in
  let agent := validate_file FkAgent (ce_agent_profile entry) agent_bytes in
  let project := validate_file FkProject (project_path ctx) <$> project_bytes in
  let ds := errors_in model ++ errors_in agent ++ match project with Some r => errors_in r | None => [] end in
  _ ← errs_of ds;
  match model, agent, project with
  | Ok m, Ok a, None => Ok (m, a, None)
  | Ok m, Ok a, Some (Ok p) => Ok (m, a, Some p)
  | _, _, _ => Err ds (* unreachable: every failed validation reports an error *)
  end.
(** Step 3. *)
Definition merge_layers (ctx : Ctx) (entry : CatalogEntry) (layers : Layers) (model_file agent_file : ValidatedFile)
    (project_file : option ValidatedFile) : result diags (Layered * list (string * json)) :=
  let '(l, d1) := apply model_file (from_defaults kernel_defaults) in
  let '(l, d2) := apply agent_file l in
  let '(l, d3) := match project_file with Some p => apply p l | None => (l, []) end in
  let overridden := if decide (layers = Full) then apply_runtime_overrides (in_runtime_overrides (cx_inputs ctx)) l else Ok (l, []) in
  _ ← errs_of (d1 ++ d2 ++ d3 ++ errors_in overridden);
  let '(l, runtime_overrides) := match overridden with Ok lo => lo | Err _ => (l, []) end in
  _ ← check_merged l model_file agent_file entry;
  mret (l, runtime_overrides).
Definition resolve_stage (ctx : Ctx) (entry : CatalogEntry) (layers : Layers) : result diags Stage :=
  files ← load_layers ctx entry layers;
  let '(model_file, agent_file, project_file) := files in
  merged ← merge_layers ctx entry layers model_file agent_file project_file;
  let '(l, runtime_overrides) := merged in
  expanded ← expand_grants (cx_catalog ctx) (cx_bundles ctx) l;
  let '(grants, mcp, subs) := expanded in
  chain ← finish_chain (in_registry (cx_inputs ctx)) l model_file agent_file;
  _ ← check_registry (in_registry (cx_inputs ctx)) l;
  let profile := build_profile l entry grants mcp subs chain runtime_overrides in
  hash ← map_err (fun e => [diag "E_HASH" (Some (vf_path agent_file)) ""
                              ("resolved profile is not canonicalizable: " +:+ show_hash_error e)]) (resolved_hash profile);
  expand_stage {| mg_model_file := model_file; mg_agent_file := agent_file; mg_project_file := project_file;
                  mg_layered := l; mg_profile := profile; mg_hash := hash; mg_grants := grants; mg_mcp := mcp;
                  mg_subs := subs; mg_chain := chain |} (expander ctx).
End resolve.
