(* ===== verification/Narrowing.v ===== *)
(** [profiles/src/resolve.rs], steps 8 to 12: the narrowing checks, the ceilings of sub-agents against
    what the child's own profile asks for, the rules for a project file, the envelope, the system
    prompt, and [resolve] itself. *)

From S2P Require Import Prelude Ord Str Utf8 Capability Paths Sandbox Json Codec Data Event Outside Toml Atom Schema Merge Profile Catalog Resolve.

Open Scope string_scope.
Open Scope list_scope.

Definition show_policy_error (e : PolicyError) : string :=
  match e with
  | Exceeds cap => "capability `" +:+ cap +:+ "` is not covered by any grant"
  | PathDenied path mode => "path `" +:+ path +:+ "` is not permitted for " +:+ match mode with Ro => "Ro" | Rw => "Rw" end
  | ProgramDenied p => "program `" +:+ p +:+ "` is not permitted"
  | NetDenied host => "network is not permitted for host `" +:+ host +:+ "`"
  | EnvNameForbidden name => "environment variable `" +:+ name +:+ "` looks like a secret and cannot be allowlisted"
  | SecretInSandbox => "a `secret:` atom cannot be requested by a sandboxed tool"
  end.

(** [ChildMemo] and the memo of [Ctx]. *)
Inductive ChildMemo : Type :=
  | InProgress
  | Done (r : result diags (list Capability)).
Definition Memo : Type := list (string * ChildMemo).

(** The text before the first byte of a class. *)
Definition cut_at (f : ascii -> bool) : string -> string :=
  fix go (s : string) : string :=
    match s with
    | EmptyString => ""
    | String a s => if f a then "" else String a (go s)
    end.
(** What follows the first occurrence. *)
Fixpoint after_first (pat s : string) : option string :=
  if starts_with pat s then Some (str_drop (String.length pat) s)
  else match s with EmptyString => None | String _ s => after_first pat s end.
(** Host, with its port, of a URL; empty when unparsable. *)
Definition url_host (url : string) : string :=
  let rest := default url (after_first "://" url) in
  let authority := cut_at (fun a => bool_decide (a ∈ ["/"; "?"; "#"]%char)) rest in
  to_ascii_lowercase (match rsplit_once "@" authority with Some (_, h) => h | None => authority end).

Section narrowing.
Context {HP : Platform} {HF : FileSystem}.

(** * Step 8 *)

Definition ctx_sym (ctx : Ctx) (c : Capability) : string :=
  symbolize c (in_workdir (cx_inputs ctx)) (in_home (cx_inputs ctx)).
Definition exceeds (origin : option string) (path message : string) : Diagnostic :=
  diag "E_CAP_EXCEEDS_GRANTS" origin path message.

(** (a) What the allowed tools declare. *)
Definition check_tool (ctx : Ctx) (st : Stage) (it : nat * string) : diags :=
  let '(i, tool) := it in
  let l := sg_layered st in
  let file_index := default i (position (fun t => bool_decide (t = tool)) (list_at (ly_table l) "tools.allow")) in
  match omap_get tool (br_tools (in_registry (cx_inputs ctx))) with
  | Some decl =>
      flat_map (fun cap => complain (negb (covered_by cap (sg_concrete_grants st)))
        [exceeds (origin_of l "tools.allow") (idx "tools.allow" file_index)
           ("tool '" +:+ tool +:+ "' requires '" +:+ ctx_sym ctx cap +:+ "'")]) (decl_capabilities decl)
  | None => []
  end.
Definition check_tools (ctx : Ctx) (st : Stage) : diags :=
  flat_map (check_tool ctx st) (indexed 0 (rp_tools (sg_profile st))).

(** The capabilities of the [i]th table of an array as the file lists them, checked one by one. *)
Definition file_caps (st : Stage) (key : string) (i : nat) : list string :=
  match tables_at (ly_table (sg_layered st)) key !! i with Some s => list_at s "capabilities" | None => [] end.
Definition check_listed (ctx : Ctx) (st : Stage) (key : string) (i : nat) : diags :=
  match expand_indexed (cx_bundles ctx) (file_caps st key i) with
  | Ok items =>
      flat_map (fun ks =>
        match expand_atom (expander ctx) ks.2 with
        | Ok cap => complain (negb (covered_by cap (sg_concrete_grants st)))
            [exceeds (origin_of (sg_layered st) key) (idx (idx key i +:+ ".capabilities") ks.1) (quote_str ks.2)]
        | Err _ => []
        end) items
  | Err _ => []
  end.

(** (b) MCP servers. *)
Definition check_server (ctx : Ctx) (st : Stage) (is_ : nat * ResolvedMcpServer) : diags :=
  let '(i, server) := is_ in
  check_listed ctx st "mcp_servers" i ++
  match mcp_url (rmcp_server server) with
  | Some url =>
      let host := url_host url in
      complain (bool_decide (mcp_transport (rmcp_server server) = "http")
                && (bool_decide (host = "") || negb (covered_by (Net (Hosts [host])) (rmcp_capabilities server))))
        [diag "E_MCP_URL_HOST" (origin_of (sg_layered st) "mcp_servers") (idx "mcp_servers" i +:+ ".url")
           (quote_str host +:+ " not covered")]
  | None => []
  end.
Definition check_servers (ctx : Ctx) (st : Stage) : diags := flat_map (check_server ctx st) (indexed 0 (sg_mcp st)).

(** (c) Sub-agents; [child] gives the grants of a catalog entry's own profile. *)
Section subagents.
Variable child : string -> M Memo unit (result diags (list Capability)).

Definition outside_ceiling (ctx : Ctx) (st : Stage) (i : nat) (sub : ResolvedSubagent) (caps : list Capability) : diags :=
  flat_map (fun cap => complain (negb (covered_by cap (rsub_ceiling sub)))
    [exceeds (origin_of (sg_layered st) "subagents") (idx "subagents" i +:+ ".capabilities")
       ("sub-agent '" +:+ sub_catalog (rsub_subagent sub) +:+ "' holds '" +:+ ctx_sym ctx cap +:+ "' outside its ceiling")]) caps.
Definition check_definition (st : Stage) (i : nat) (sub : ResolvedSubagent) : diags :=
  match rsub_definition sub with
  | Some def => complain (negb (fs_is_file def))
      [diag "E_FILE_NOT_FOUND" (origin_of (sg_layered st) "subagents") (idx "subagents" i +:+ ".definition")
         (quote_str (from_utf8_lossy def))]
  | None => []
  end.
Definition check_sub (ctx : Ctx) (st : Stage) (i : nat) (sub : ResolvedSubagent) : M Memo unit diags :=
  let listed := check_listed ctx st "subagents" i in
  let ds := listed ++ check_definition st i sub in
  if bool_decide (listed = []) then
    r ← child (sub_catalog (rsub_subagent sub));
    mret (ds ++ match r with Ok caps => outside_ceiling ctx st i sub caps | Err child_diags => child_diags end)
  else mret ds.
Fixpoint check_subs (ctx : Ctx) (st : Stage) (l : list (nat * ResolvedSubagent)) : M Memo unit diags :=
  match l with
  | [] => mret []
  | (i, sub) :: l => d1 ← check_sub ctx st i sub; d2 ← check_subs ctx st l; mret (d1 ++ d2)
  end.
End subagents.

(** (d) The notebook. *)
Definition check_notebook (st : Stage) : diags :=
  complain (negb (bool_decide (sg_notebook st = "")) && negb (covered_by (Fs (sg_notebook st) Rw) (sg_concrete_grants st)))
    [exceeds (origin_of (sg_layered st) "notebook.path") "notebook.path"
       ("requires 'fs.rw:" +:+ pn_path (rp_notebook (sg_profile st)) +:+ "'")].
(** (e) The hidden evaluation set. *)
Definition reachable (ctx : Ctx) (st : Stage) (path : string) : bool :=
  path_starts_with path (in_workdir (cx_inputs ctx)) || covered_by (Fs path Ro) (sg_concrete_grants st).
Definition check_hidden (ctx : Ctx) (st : Stage) : diags :=
  match sg_eval_set st with
  | Some es =>
      complain (negb (contains "://" (res_hidden es)) && reachable ctx st (res_hidden es))
        [diag "E_HIDDEN_EVAL_REACHABLE" (origin_of (sg_layered st) "agent.eval_set.hidden") "agent.eval_set.hidden"
           (quote_str (res_hidden es) +:+ " is under the workdir or covered by an fs grant")]
  | None => []
  end.
Definition skill_warnings (st : Stage) : diags :=
  flat_map (fun id_ => complain (negb (fs_is_dir id_.2))
    [diag "W_SKILL_PATH_MISSING" (origin_of (sg_layered st) "skills.paths") (idx "skills.paths" id_.1)
       (quote_str (from_utf8_lossy id_.2) +:+ " does not exist")]) (indexed 0 (sg_skills st)).

(** The stage with what the checks found. *)
Definition with_checks (st : Stage) (errors warnings : diags) : Stage :=
  {| sg_model_file := sg_model_file st; sg_agent_file := sg_agent_file st; sg_project_file := sg_project_file st;
     sg_layered := sg_layered st; sg_profile := sg_profile st; sg_hash := sg_hash st; sg_grants := sg_grants st;
     sg_concrete_grants := sg_concrete_grants st; sg_chain := sg_chain st; sg_limits := sg_limits st;
     sg_agents_md := sg_agents_md st; sg_skills := sg_skills st; sg_extensions := sg_extensions st;
     sg_notebook := sg_notebook st; sg_mcp := sg_mcp st; sg_subagents := sg_subagents st; sg_eval_set := sg_eval_set st;
     sg_fine_tune := sg_fine_tune st; sg_warnings := sg_warnings st ++ warnings; sg_narrowing_errors := errors |}.
Definition narrowing_checks (child : string -> M Memo unit (result diags (list Capability))) (ctx : Ctx) (st : Stage) :
    M Memo unit Stage :=
  subs ← check_subs child ctx st (indexed 0 (sg_subagents st));
  mret (with_checks st (check_tools ctx st ++ check_servers ctx st ++ subs ++ check_notebook st ++ check_hidden ctx st)
          (skill_warnings st)).
Definition resolve_entry (child : string -> M Memo unit (result diags (list Capability))) (ctx : Ctx) (entry : CatalogEntry)
    (layers : Layers) : M Memo unit (result diags Stage) :=
  match resolve_stage ctx entry layers with
  | Err ds => mret (Err ds)
  | Ok st => st ← narrowing_checks child ctx st; mret (Ok st)
  end.
(** The grants a stage ends with, unless its own checks fail. *)
Definition stage_grants (r : result diags Stage) : result diags (list Capability) :=
  st ← r; _ ← errs_of (sg_narrowing_errors st); mret (sg_concrete_grants st).
Definition remember (name : string) (m : ChildMemo) : M Memo unit unit := modify (omap_insert name m).
(** Every level of the recursion marks one more entry of the catalog. *)
Fixpoint child_grants (fuel : nat) (ctx : Ctx) (catalog_name : string) {struct fuel} :
    M Memo unit (result diags (list Capability)) :=
  match fuel with
  | O => throw tt
  | S fuel =>
      memo ← gets (omap_get catalog_name);
      match memo with
      | Some InProgress => mret (Ok [])
      | Some (Done r) => mret r
      | None =>
          remember catalog_name InProgress ;;
          r ← match catalog_get (cx_catalog ctx) catalog_name with
              | None => mret (Ok [])
              | Some entry => stage_grants <$> resolve_entry (child_grants fuel ctx) ctx entry Base
              end;
          remember catalog_name (Done r) ;;
          mret r
      end
  end.

(** (f) A project file narrows only. *)
Definition check_limit (project : option string) (key : string) (f b : N) : diags :=
  complain (b <? f)%N [diag "E_OVERRIDE_WIDENS_SANDBOX" project key (show_u64 f +:+ " > " +:+ show_u64 b)].
Definition check_project_narrowing (full base : Stage) : diags :=
  let project := vf_path <$> sg_project_file full in
  let f := rp_sandbox (sg_profile full) in
  let b := rp_sandbox (sg_profile base) in
  flat_map (fun g => match gr_cap g with
                     | Some cap => complain (negb (covered_by cap (sg_concrete_grants base)))
                         [diag "E_OVERRIDE_WIDENS_GRANTS" project (gr_path g) (quote_str (gr_sym g))]
                     | None => []
                     end) (sg_grants full) ++
  check_limit project "sandbox.timeout_s" (ps_timeout_s f) (ps_timeout_s b) ++
  check_limit project "sandbox.scratch_tmpfs_mb" (ps_scratch_tmpfs_mb f) (ps_scratch_tmpfs_mb b) ++
  flat_map (fun iname => complain (negb (bool_decide (iname.2 ∈ ps_env_allow b)))
    [diag "E_OVERRIDE_WIDENS_SANDBOX" project (idx "sandbox.env_allow" iname.1) (quote_str iname.2)])
    (indexed 0 (list_at (ly_table (sg_layered full)) "sandbox.env_allow")) ++
  complain (ps_network f && negb (ps_network b)) [diag "E_OVERRIDE_WIDENS_SANDBOX" project "sandbox.network" "true > false"].

(** * Step 10: the system prompt *)

Definition assemble_prompt (st : Stage) (resume : bool) : result diags (list PromptBlock * diags) :=
  let p := sg_profile st in
  let agents_md := sg_agents_md st in
  let origin := origin_of (sg_layered st) "agent.agents_md" in
  md ← (if fs_is_file agents_md then
          text ← map_err (fun e => [diag "E_FILE_NOT_FOUND" origin "agent.agents_md"
                                      (quote_str (from_utf8_lossy agents_md) +:+ ": " +:+ e)]) (read_to_string agents_md);
          mret (Some (text, from_utf8_lossy agents_md), [])
        else Ok (None, [diag "W_AGENTS_MD_MISSING" origin "agent.agents_md"
                          (quote_str (from_utf8_lossy agents_md) +:+ " not found; block omitted")]));
  let notebook :=
    if resume && pn_inject_on_resume (rp_notebook p) && fs_is_file (sg_notebook st)
    then Some (default "" (ok (read_to_string (sg_notebook st))), from_utf8_lossy (sg_notebook st))
    else None in
  mret (assemble {| psrc_model := (fun t => (t, pm_id (rp_model p))) <$> rp_prompt p;
                    psrc_role := (fun t => (t, pa_name (rp_agent p))) <$> pa_role_prompt (rp_agent p);
                    psrc_agents_md := md.1; psrc_notebook := notebook |}, md.2).

(** * Steps 9, 11 and 12 *)

(** The envelope and its hash: the session's grants but its secrets. *)
Definition derive_envelope (st : Stage) : result diags (SandboxPolicy * string) :=
  let policy_diag (text : string) := [diag "E_SANDBOX_POLICY" (Some (vf_path (sg_agent_file st))) "sandbox" text] in
  envelope ← map_err (fun e => policy_diag (show_policy_error e))
    (derive_policy_with (List.filter non_secret (sg_concrete_grants st)) (sg_concrete_grants st) (sg_limits st));
  hash ← map_err (fun e => policy_diag (show_hash_error e)) (policy_hash envelope);
  mret (envelope, hash).
Definition drift_of (st : Stage) : option ProfileDrift :=
  match sg_fine_tune st with
  | Some (expected, warn) =>
      if decide (expected = sg_hash st) then None
      else Some {| dr_expected := expected; dr_actual := sg_hash st; dr_warn := warn |}
  | None => None
  end.
Definition drift_warnings (st : Stage) : diags :=
  match drift_of st with
  | Some d => complain (dr_warn d)
      [diag "W_PROFILE_DRIFT" (Some (vf_path (sg_model_file st))) "fine_tune.trained_against_profile_hash"
         ("expected " +:+ dr_expected d +:+ " != actual " +:+ dr_actual d)]
  | None => []
  end.
Definition load_payload (kind : ProfileKind) (name path hash : string) : ProfileLoadPayload :=
  {| plp_kind := kind; plp_name := name; plp_path := Some path; plp_hash := hash; plp_rejected := false; plp_turn := 0 |}.
Definition profile_loads (ctx : Ctx) (st : Stage) : list ProfileLoadPayload :=
  let file (kind : ProfileKind) (name : string) (f : ValidatedFile) := load_payload kind name (vf_path f) (vf_hash f) in
  let p := sg_profile st in
  [load_payload PKBundles "bundles" (bn_path (cx_bundles ctx)) (bn_hash (cx_bundles ctx));
   file PKModel (pm_id (rp_model p)) (sg_model_file st);
   file PKAgent (pa_name (rp_agent p)) (sg_agent_file st)] ++
  match sg_project_file st with Some f => [file PKProject (pa_name (rp_agent p)) f] | None => [] end.
Definition active_profiles (ctx : Ctx) (st : Stage) : ActiveProfiles :=
  {| ap_model_profile_hash := vf_hash (sg_model_file st); ap_agent_profile_hash := vf_hash (sg_agent_file st);
     ap_resolved_profile_hash := sg_hash st; ap_project_profile_hash := vf_hash <$> sg_project_file st;
     ap_bundles_hash := Some (bn_hash (cx_bundles ctx)) |}.
Definition resolved_middleware (m : MwEntry) : ResolvedMiddleware :=
  let config := toml_to_json (TTable (men_config m)) in
  {| rmw_name := men_name m; rmw_priority := as_i32 (men_priority m); rmw_source := men_source m; rmw_config := config;
     rmw_config_hash := match men_config m with [] => None | _ => ok (of_canonical_json config) end |}.
(** [n.min(u32::MAX) as u32]. *)
Definition to_u32 (n : N) : N := N.min n (2 ^ 32 - 1).
Definition model_params (p : ResolvedProfile) : ModelParams :=
  let thinking := pm_thinking (rp_model p) in
  {| mp_temperature := pm_temperature (rp_model p); mp_top_p := None;
     mp_max_tokens := Some (to_u32 (pm_max_output_tokens (rp_model p))); mp_stop := [];
     mp_thinking := Some {| tkc_enabled := pth_enabled thinking;
                            tkc_budget_tokens := if (0 <? pth_budget_tokens thinking)%N
                                                 then Some (to_u32 (pth_budget_tokens thinking)) else None |};
     mp_extra := JNull |}.
Definition kernel_inputs (entry : CatalogEntry) (st : Stage) (prompt : list PromptBlock) (envelope : SandboxPolicy)
    (hash : string) : KernelInputs :=
  let p := sg_profile st in
  {| ki_model_id := pm_id (rp_model p); ki_endpoint := pm_endpoint (rp_model p);
     ki_tool_format := pm_tool_format (rp_model p); ki_context_length := pm_context_length (rp_model p);
     ki_quirks := pm_quirks (rp_model p); ki_model_params := model_params p; ki_system_prompt := prompt;
     ki_middleware := resolved_middleware <$> sg_chain st; ki_grants := sg_concrete_grants st; ki_tools := rp_tools p;
     ki_tool_descriptions := rp_tool_descriptions p; ki_sandbox_backend := ps_backend (rp_sandbox p);
     ki_sandbox_limits := sg_limits st;
     ki_spill := {| sc_cap_bytes := pa_spill_cap_bytes (rp_agent p); sc_head_bytes := sc_head_bytes default_spill;
                    sc_tail_bytes := sc_tail_bytes default_spill |};
     ki_context_budget_tokens := pa_context_budget_tokens (rp_agent p); ki_compaction := rp_compaction p;
     ki_notebook_path := Some (sg_notebook st); ki_notebook := rp_notebook p; ki_envelope_policy := envelope;
     ki_sandbox_policy_hash := hash; ki_agents_md_path := sg_agents_md st; ki_skills_paths := sg_skills st;
     ki_extension_paths := sg_extensions st; ki_mcp_servers := sg_mcp st; ki_subagents := sg_subagents st;
     ki_memory := rp_memory p; ki_eval_set := sg_eval_set st; ki_catalog_entry := ce_name entry |}.

(** Steps 9 to 12, from a stage that passed step 8. *)
Definition finish (ctx : Ctx) (entry : CatalogEntry) (full : Stage) : result diags Resolved :=
  env ← derive_envelope full;
  prompt ← assemble_prompt full (in_resume (cx_inputs ctx));
  mret {| rd_resolved_profile := sg_profile full; rd_resolved_profile_hash := sg_hash full;
          rd_active_profiles := active_profiles ctx full; rd_catalog_hash := cat_hash (cx_catalog ctx);
          rd_profile_loads := profile_loads ctx full; rd_warnings := sg_warnings full ++ prompt.2 ++ drift_warnings full;
          rd_drift := drift_of full; rd_kernel_inputs := kernel_inputs entry full prompt.1 env.1 env.2 |}.
(** Step 8, with (f). *)
Definition project_errors (fuel : nat) (ctx : Ctx) (entry : CatalogEntry) (full : Stage) : M Memo unit (result diags diags) :=
  match sg_project_file full with
  | None => mret (Ok [])
  | Some _ =>
      base ← resolve_entry (child_grants fuel ctx) ctx entry Base;
      mret (check_project_narrowing full <$> base)
  end.
Definition resolve_in (fuel : nat) (ctx : Ctx) (entry : CatalogEntry) : M Memo unit (result diags Resolved) :=
  r ← resolve_entry (child_grants fuel ctx) ctx entry Full;
  match r with
  | Err ds => mret (Err ds)
  | Ok full =>
      project ← project_errors fuel ctx entry full;
      mret (ds ← project; _ ← errs_of (sg_narrowing_errors full ++ ds); finish ctx entry full)
  end.
(** Enough for every entry of the catalog to be under way. *)
Definition catalog_fuel (c : Catalog) : nat := S (length (cat_entries c)).
Definition load_ctx (inputs : ResolveInputs) : result diags (Ctx * CatalogEntry) :=
  catalog ← load_catalog (path_join (in_profiles_dir inputs) "catalog.toml");
  bundles ← load_bundles (path_join (in_profiles_dir inputs) "bundles.toml");
  entry ← ok_or [diag "E_CATALOG_REF" (Some (cat_path catalog)) "agents" ("no entry named " +:+ quote_str (in_agent inputs))]
            (catalog_get catalog (in_agent inputs));
  mret ({| cx_inputs := inputs; cx_catalog := catalog; cx_bundles := bundles |}, entry).
(** [resolve]; the outer error is for want of fuel only. *)
Definition resolve (inputs : ResolveInputs) : result unit (result diags Resolved) :=
  match load_ctx inputs with
  | Err ds => Ok (Err ds)
  | Ok (ctx, entry) => snd (resolve_in (catalog_fuel (cx_catalog ctx)) ctx entry [])
  end.
End narrowing.
