(* ===== verification/Resolution.v ===== *)
(** What [profiles::resolve] guarantees: it ends, and a resolution that succeeds keeps a session and
    its sub-agents within their grants, lets a project file narrow only, and leaves every middleware in
    its layer's slots; one that fails names its error. *)

From S2P Require Import Prelude Ord Str Utf8 Capability Paths Sandbox Json Data Event Outside Registry Cassette Toml Atom Schema Merge Profile Catalog Resolve Narrowing.

Open Scope string_scope.
Open Scope list_scope.

(** * The checks find nothing *)

Lemma errs_of_Ok ds u : errs_of ds = Ok u <-> no_errors ds.
Proof. unfold errs_of, no_errors. destruct (existsb is_error ds), u; naive_solver. Qed.
Lemma elem_of_indexed {A} (n : nat) (l : list A) i x : (i, x) ∈ indexed n l <-> exists j, i = (n + j)%nat /\ l !! j = Some x.
Proof.
  revert n i. induction l as [|y l IH]; intros n i; simpl.
  - split; [by intros ?%elem_of_nil|by intros (j & _ & ?)].
  - rewrite elem_of_cons, IH. split.
    + intros [[= -> ->]|(j & -> & Hj)]; [exists 0%nat; split; [lia|done]|exists (S j); split; [lia|done]].
    + intros ([|j] & -> & Hj); [left; simpl in Hj; simplify_eq; f_equal; lia|right; exists j; split; [lia|done]].
Qed.
Lemma lookup_indexed {A} (n : nat) (l : list A) i : indexed n l !! i = pair (n + i)%nat <$> l !! i.
Proof.
  revert n i. induction l as [|y l IH]; intros n [|i]; simpl; try done; [by rewrite Nat.add_0_r|].
  rewrite IH. destruct (l !! i); [|done]. simpl. do 2 f_equal. lia.
Qed.
Lemma indexed_fmap_snd {A} (n : nat) (l : list A) : (indexed n l).*2 = l.
Proof. revert n. induction l as [|y l IH]; intros n; [done|]. simpl. by rewrite IH. Qed.

Lemma elem_of_insert_capability c x l : x ∈ insert_capability c l <-> x = c \/ x ∈ l.
Proof.
  induction l as [|y l IH]; simpl; [set_solver|].
  destruct (cmp_capability _ _); rewrite ?elem_of_cons, ?IH; naive_solver.
Qed.
Lemma elem_of_sort_grants x l : x ∈ sort_grants l <-> x ∈ l.
Proof.
  unfold sort_grants. induction l as [|y l IH]; simpl; [done|].
  by rewrite elem_of_insert_capability, IH, elem_of_cons.
Qed.
Lemma elem_of_dedup x l : x ∈ dedup l <-> x ∈ l.
Proof.
  induction l as [|y l IH]; [done|]. destruct l as [|z l]; [done|].
  cbn [dedup]. destruct (decide (y = z)) as [->|].
  - rewrite IH, !elem_of_cons. naive_solver.
  - rewrite !(elem_of_cons _ x y), IH. done.
Qed.

Section within.
Context {HP : Platform} {HF : FileSystem}.

(** The atoms of a list as step 7 makes them: each from an item of the list. *)
Lemma expand_atoms_caps l ex gs c :
  c ∈ (expand_atoms l ex gs).1.2 <-> exists g, g ∈ gs /\ (expand_one l ex g).1.(gr_cap) = Some c.
Proof.
  unfold expand_atoms. cbn [fst snd]. rewrite elem_of_dedup, elem_of_sort_grants, list_elem_of_omap. split.
  - intros (g & ([g' d] & -> & (g0 & Hg & Hin)%list_elem_of_fmap)%list_elem_of_fmap & Hc). exists g0. by rewrite <- Hg.
  - intros (g & Hin & Hc). eexists. split; [|exact Hc]. by apply list_elem_of_fmap_2, list_elem_of_fmap_2.
Qed.
(** From a list without atoms yet, as [expand_list] makes it. *)
Lemma expand_atoms_of b l ex dotted items c :
  c ∈ (expand_atoms l ex (expand_list b l dotted items).1).1.2 ->
  exists l' i s, expand_indexed b items = Ok l' /\ (i, s) ∈ l' /\ expand_atom ex s = Ok c.
Proof.
  intros (g & Hg & Hc)%expand_atoms_caps. unfold expand_list in Hg.
  destruct (expand_indexed b items) as [l'|] eqn:He; [|by apply elem_of_nil in Hg].
  apply list_elem_of_fmap in Hg as ([i s] & -> & Hin). exists l', i, s. split_and!; [done..|].
  unfold expand_one, grant in Hc. cbn [gr_sym gr_cap] in Hc. simpl in Hc.
  destruct (expand_atom ex s); cbn in Hc; naive_solver.
Qed.

(** What the [i]th listed item passed. *)
Lemma check_listed_covers ctx st key i l' j s c :
  no_errors (check_listed ctx st key i) -> expand_indexed (cx_bundles ctx) (file_caps st key i) = Ok l' ->
  (j, s) ∈ l' -> expand_atom (expander ctx) s = Ok c -> covered_by c (sg_concrete_grants st) = true.
Proof.
  unfold check_listed. intros Hno He Hin Hc. rewrite He in Hno.
  rewrite no_errors_flat_map in Hno. specialize (Hno _ Hin). cbn [fst snd] in Hno. rewrite Hc in Hno.
  apply no_errors_complain in Hno; [|done]. by apply negb_false_iff in Hno.
Qed.

(** * What the steps before leave in a stage *)

Record staged (ctx : Ctx) (st : Stage) : Prop := {
  staged_mcp : forall i sv, sg_mcp st !! i = Some sv ->
    exists caps, caps = (expand_list (cx_bundles ctx) (sg_layered st) (idx "mcp_servers" i +:+ ".capabilities")
                           (file_caps st "mcp_servers" i)).1 /\
      rmcp_capabilities sv = (expand_atoms (sg_layered st) (expander ctx) caps).1.2;
  staged_subs : forall i sub, sg_subagents st !! i = Some sub ->
    exists caps, caps = (expand_list (cx_bundles ctx) (sg_layered st) (idx "subagents" i +:+ ".capabilities")
                           (file_caps st "subagents" i)).1 /\
      rsub_ceiling sub = (expand_atoms (sg_layered st) (expander ctx) caps).1.2;
  staged_grants : forall c, c ∈ sg_concrete_grants st <-> exists g, g ∈ sg_grants st /\ gr_cap g = Some c;
  staged_normal : Forall (fun g => forall c, gr_cap g = Some c -> expand_atom (expander ctx) (gr_sym g) = Ok c) (sg_grants st);
  staged_limits : sg_limits st = limits_of (rp_sandbox (sg_profile st));
  staged_env : forall name, name ∈ ps_env_allow (rp_sandbox (sg_profile st)) <->
    name ∈ list_at (ly_table (sg_layered st)) "sandbox.env_allow";
  staged_catalog : forall sub, sub ∈ sg_subagents st ->
    is_Some (catalog_get (cx_catalog ctx) (sub_catalog (rsub_subagent sub)))
}.

Lemma expand_one_sym l ex g : gr_sym (expand_one l ex g).1 = gr_sym g.
Proof. unfold expand_one. by destruct (expand_atom _ _). Qed.
Lemma expand_one_cap l ex g c :
  gr_cap g = None -> gr_cap (expand_one l ex g).1 = Some c -> expand_atom ex (gr_sym g) = Ok c.
Proof. unfold expand_one. destruct (expand_atom _ _); cbn; [by intros _ [= ->]|congruence]. Qed.

(** Grants start without atoms. *)
Lemma expand_list_unset b l dotted items : Forall (fun g => gr_cap g = None) (expand_list b l dotted items).1.
Proof.
  unfold expand_list. destruct (expand_indexed _ _); [|done]. apply Forall_fmap, Forall_true. by intros [].
Qed.
Lemma expand_sub_unset c b l it : gr_cap (expand_sub c b l it).1.1 = None.
Proof. unfold expand_sub. by destruct (expand_list _ _ _ _). Qed.
Lemma expand_sub_ok c b l it :
  no_errors (expand_sub c b l it).2 -> is_Some (catalog_get c (default "" (s_at it.2 "catalog"))).
Proof.
  unfold expand_sub. destruct (expand_list _ _ _ _) as [gs ds]. cbn [snd]. intros [H%no_errors_complain _]%no_errors_app; [|done].
  apply bool_decide_eq_false in H. by apply not_eq_None_Some.
Qed.
Lemma expand_grants_inv c b l grants mcp subs :
  expand_grants c b l = Ok (grants, mcp, subs) ->
  Forall (fun g => gr_cap g = None) grants /\
  mcp = (fun it => (expand_mcp b l it).1) <$> indexed 0 (tables_at (ly_table l) "mcp_servers") /\
  subs = (fun it => (expand_sub c b l it).1.2) <$> indexed 0 (tables_at (ly_table l) "subagents") /\
  Forall (fun t => is_Some (catalog_get c (default "" (s_at t "catalog")))) (tables_at (ly_table l) "subagents").
Proof.
  unfold expand_grants. destruct (expand_list b l "capabilities.grants" _) as [granted d1] eqn:He.
  intros (u & Hno & H)%result_bind_Ok. injection H as <- <- <-. rewrite <- !list_fmap_compose.
  apply errs_of_Ok in Hno. split_and!; [|done|done|]; cycle 1.
  { apply Forall_forall. intros t Ht. apply list_elem_of_lookup in Ht as (i & Hi).
    eapply expand_sub_ok with (it := (i, t)). rewrite !no_errors_app in Hno. destruct Hno as (_ & _ & Hno).
    eapply no_errors_concat; [exact Hno|]. apply list_elem_of_fmap. eexists. split; [done|].
    apply list_elem_of_fmap_2, elem_of_indexed. by exists i. }
  pose proof (expand_list_unset b l "capabilities.grants" (list_at (ly_table l) "capabilities.grants")) as Hg.
  rewrite He in Hg. rewrite !Forall_app. split_and!; [done|by apply Forall_fmap, Forall_true|].
  apply Forall_fmap, Forall_true. apply expand_sub_unset.
Qed.

Lemma expand_server_caps l ex i sv caps :
  rmcp_capabilities (expand_server l ex i sv caps).1 = (expand_atoms l ex caps).1.2.
Proof. unfold expand_server. destruct (expand_atoms _ _ _) as [[? ?] ?], (expand_args _ _ _ _). done. Qed.
Lemma expand_subagent_caps l ex i sub caps :
  rsub_ceiling (expand_subagent l ex i sub caps).1 = (expand_atoms l ex caps).1.2.
Proof.
  unfold expand_subagent. destruct (expand_atoms _ _ _) as [[? ?] ?]. destruct (sub_definition sub); [by destruct (path_of _ _ _ _)|done].
Qed.

Lemma expand_subagent_sub l ex i sub caps : rsub_subagent (expand_subagent l ex i sub caps).1 = sub.
Proof.
  unfold expand_subagent. destruct (expand_atoms _ _ _) as [[? ?] ?]. destruct (sub_definition sub); [by destruct (path_of _ _ _ _)|done].
Qed.

Definition expanded (m : Merged) (ex : Expander) (st : Stage) : Prop :=
  let l := mg_layered m in
  sg_layered st = l /\ sg_profile st = mg_profile m /\ sg_project_file st = mg_project_file m /\
  sg_grants st = (expand_atoms l ex (mg_grants m)).1.1 /\
  sg_concrete_grants st = (expand_atoms l ex (mg_grants m)).1.2 /\
  sg_limits st = limits_of (rp_sandbox (mg_profile m)) /\
  sg_mcp st = (fun isc => (expand_server l ex isc.1 isc.2.1 isc.2.2.2).1) <$> indexed 0 (zip (rp_mcp_servers (mg_profile m)) (mg_mcp m)) /\
  sg_subagents st = (fun isc => (expand_subagent l ex isc.1 isc.2.1 isc.2.2.2).1) <$> indexed 0 (zip (rp_subagents (mg_profile m)) (mg_subs m)).
Lemma expand_stage_inv m ex st : expand_stage m ex = Ok st -> expanded m ex st.
Proof.
  unfold expand_stage, expanded. destruct (expand_atoms _ _ _) as [[grants concrete] d1].
  destruct (path_of _ _ _ _) as [agents_md d2], (path_of _ _ _ _) as [notebook d3].
  destruct (paths_of _ _ _ _) as [skills d4], (paths_of _ _ _ _) as [extensions d5].
  intros H. destruct (pa_eval_set _); [destruct (eval_path _ _ _ _), (eval_path _ _ _ _)|];
    apply result_bind_Ok in H as (u & _ & H); injection H as <-; cbn; rewrite <- !list_fmap_compose; done.
Qed.

Lemma expand_stage_chain m ex st : expand_stage m ex = Ok st -> sg_chain st = mg_chain m.
Proof.
  unfold expand_stage. destruct (expand_atoms _ _ _) as [[grants concrete] d1].
  destruct (path_of _ _ _ _), (path_of _ _ _ _), (paths_of _ _ _ _), (paths_of _ _ _ _).
  intros H. destruct (pa_eval_set _); [destruct (eval_path _ _ _ _), (eval_path _ _ _ _)|];
    apply result_bind_Ok in H as (u & _ & H); by injection H as <-.
Qed.

Lemma elem_of_sorted_strings x l : x ∈ sorted_strings l <-> x ∈ l.
Proof. unfold sorted_strings. apply oset_of_list_spec. Qed.

(** The merged profile of a stage and its lists are of one table. *)
Record merged_ok (ctx : Ctx) (m : Merged) : Prop := {
  mo_grants : Forall (fun g => gr_cap g = None) (mg_grants m);
  mo_mcp : mg_mcp m = (fun it => (expand_mcp (cx_bundles ctx) (mg_layered m) it).1) <$> indexed 0 (tables_at (ly_table (mg_layered m)) "mcp_servers");
  mo_subs : mg_subs m = (fun it => (expand_sub (cx_catalog ctx) (cx_bundles ctx) (mg_layered m) it).1.2)
              <$> indexed 0 (tables_at (ly_table (mg_layered m)) "subagents");
  mo_catalog : Forall (fun t => is_Some (catalog_get (cx_catalog ctx) (default "" (s_at t "catalog"))))
                 (tables_at (ly_table (mg_layered m)) "subagents");
  mo_subagents : rp_subagents (mg_profile m) = zip_entries subagent (tables_at (ly_table (mg_layered m)) "subagents") (mg_subs m);
  mo_env : ps_env_allow (rp_sandbox (mg_profile m)) = sorted_strings (list_at (ly_table (mg_layered m)) "sandbox.env_allow")
}.
Lemma resolve_stage_inv ctx entry layers st :
  resolve_stage ctx entry layers = Ok st -> exists m, merged_ok ctx m /\ expanded m (expander ctx) st.
Proof.
  unfold resolve_stage. intros ([[mf af] pf] & _ & H)%result_bind_Ok.
  apply result_bind_Ok in H as ([l ro] & _ & H). apply result_bind_Ok in H as ([[grants mcp] subs] & Hg & H).
  apply result_bind_Ok in H as (chain & _ & H). apply result_bind_Ok in H as (u & _ & H).
  apply result_bind_Ok in H as (hash & _ & H). apply expand_stage_inv in H.
  apply expand_grants_inv in Hg as (? & ? & ? & ?). eexists. split; [|exact H]. by split.
Qed.

Lemma expand_atoms_grants l ex gs g :
  g ∈ (expand_atoms l ex gs).1.1 <-> exists g0, g0 ∈ gs /\ g = (expand_one l ex g0).1.
Proof.
  unfold expand_atoms. cbn [fst]. rewrite list_elem_of_fmap. split.
  - intros (gd & -> & (g0 & -> & ?)%list_elem_of_fmap). eauto.
  - intros (g0 & ? & ->). eexists. split; [done|]. by apply list_elem_of_fmap_2.
Qed.
Lemma expand_mcp_list b l it : (expand_mcp b l it).1.2
  = (expand_list b l (idx "mcp_servers" it.1 +:+ ".capabilities") (list_at it.2 "capabilities")).1.
Proof. unfold expand_mcp. by destruct (expand_list _ _ _ _). Qed.
Lemma expand_sub_list c b l it : (expand_sub c b l it).1.2.2
  = (expand_list b l (idx "subagents" it.1 +:+ ".capabilities") (list_at it.2 "capabilities")).1.
Proof. unfold expand_sub. by destruct (expand_list _ _ _ _). Qed.

Lemma resolve_stage_staged ctx entry layers st : resolve_stage ctx entry layers = Ok st -> staged ctx st.
Proof.
  intros (m & [Hgr Hmcp Hsub Hcat Hsubs Henv] & (Hl & Hp & _ & Hg & Hc & Hlim & Hm & Hs))%resolve_stage_inv. split.
  - intros i sv Hi. rewrite Hm, list_lookup_fmap, lookup_indexed in Hi.
    destruct (zip _ _ !! i) as [[x nc]|] eqn:Hz; [|done]. apply Some_inj in Hi as <-.
    cbn [fst snd]. rewrite expand_server_caps. apply lookup_zip_Some in Hz as [_ Hz].
    rewrite Hmcp, list_lookup_fmap, lookup_indexed in Hz. destruct (tables_at _ _ !! i) as [t|] eqn:Ht; [|done].
    apply Some_inj in Hz as <-. cbn [fst snd]. eexists. split; [done|]. rewrite expand_mcp_list.
    unfold file_caps. by rewrite Hl, Ht.
  - intros i sub Hi. rewrite Hs, list_lookup_fmap, lookup_indexed in Hi.
    destruct (zip _ _ !! i) as [[x nc]|] eqn:Hz; [|done]. apply Some_inj in Hi as <-.
    cbn [fst snd]. rewrite expand_subagent_caps. apply lookup_zip_Some in Hz as [_ Hz].
    rewrite Hsub, list_lookup_fmap, lookup_indexed in Hz. destruct (tables_at _ _ !! i) as [t|] eqn:Ht; [|done].
    apply Some_inj in Hz as <-. cbn [fst snd]. eexists. split; [done|]. rewrite expand_sub_list.
    unfold file_caps. by rewrite Hl, Ht.
  - intros c. rewrite Hc, Hg, expand_atoms_caps. setoid_rewrite expand_atoms_grants. split.
    + intros (g & ? & ?). eexists. split; [by exists g|done].
    + intros (? & (g & ? & ->) & ?). by exists g.
  - rewrite Hg. apply Forall_forall. intros g (g0 & Hin & ->)%expand_atoms_grants c Hcap.
    rewrite expand_one_sym. rewrite Forall_forall in Hgr. eapply expand_one_cap; [by apply Hgr|done].
  - by rewrite Hlim, Hp.
  - intros name. rewrite Hp, Hl, Henv. apply elem_of_sorted_strings.
  - intros sub. rewrite Hs. intros ([i [x nc]] & -> & (j & _ & Hz)%elem_of_indexed)%list_elem_of_fmap. cbn [fst snd].
    rewrite expand_subagent_sub. apply lookup_zip_Some in Hz as [Hz _]. rewrite Hsubs in Hz.
    unfold zip_entries in Hz. rewrite lookup_zip_with in Hz. apply bind_Some in Hz as (t & Ht & Hz).
    apply bind_Some in Hz as (nc' & _ & Hz). apply Some_inj in Hz as <-. cbn [sub_catalog subagent].
    rewrite Forall_forall in Hcat. by eapply Hcat, list_elem_of_lookup_2.
Qed.
End within.

(** * The recursion over sub-agents ends *)

Section recursion.
Context {HP : Platform} {HF : FileSystem}.

(** From a state satisfying [P] the method returns, in such a state. *)
Definition returns {A} (P : Memo -> Prop) (m : M Memo unit A) : Prop :=
  forall s, P s -> exists s' a, m s = (s', Ok a) /\ P s'.
Lemma returns_ret {A} P (a : A) : returns P (mret a).
Proof. intros s Hs. by exists s, a. Qed.
Lemma returns_bind {A B} P (m : M Memo unit A) (f : A -> M Memo unit B) :
  returns P m -> (forall a, returns P (f a)) -> returns P (m ≫= f).
Proof.
  intros Hm Hf s Hs. destruct (Hm s Hs) as (s1 & a & Hr & Hs1). rewrite bind_eq, Hr. by apply Hf.
Qed.

(** What is in the memo stays in it. *)
Definition grows (memo memo' : Memo) : Prop :=
  forall n, omap_get n memo <> None -> omap_get n memo' <> None.
#[local] Instance grows_refl : Reflexive grows.
Proof. by intros ? ?. Qed.
#[local] Instance grows_trans : Transitive grows.
Proof. intros x y z Hxy Hyz n Hn. by apply Hyz, Hxy. Qed.
Lemma grows_insert n m memo : grows memo (omap_insert n m memo).
Proof. intros k Hk. rewrite omap_get_insert. by case_decide. Qed.

(** The entries the memo does not know yet. *)
Definition unvisited (c : Catalog) (memo : Memo) : nat :=
  length (List.filter (fun e => bool_decide (omap_get (ce_name e) memo = None)) (cat_entries c)).
Lemma filter_length_le {A} (f g : A -> bool) l :
  (forall x, f x = true -> g x = true) -> (length (List.filter f l) <= length (List.filter g l))%nat.
Proof.
  intros Hfg. induction l as [|x l IH]; simpl; [done|].
  destruct (f x) eqn:Hf; [rewrite (Hfg _ Hf); simpl; lia|destruct (g x); simpl; lia].
Qed.
Lemma filter_length_lt {A} (f g : A -> bool) l x :
  (forall x, f x = true -> g x = true) -> x ∈ l -> f x = false -> g x = true ->
  (length (List.filter f l) < length (List.filter g l))%nat.
Proof.
  intros Hfg Hin Hf Hg. induction Hin as [x l|x y l Hin IH]; simpl.
  - rewrite Hf, Hg. simpl. pose proof (filter_length_le f g l Hfg). lia.
  - destruct (f y) eqn:Hfy; [rewrite (Hfg _ Hfy); simpl; specialize (IH Hf Hg); lia|].
    destruct (g y); simpl; [|by apply IH]. specialize (IH Hf Hg). lia.
Qed.
Lemma unvisited_grows c memo memo' : grows memo memo' -> (unvisited c memo' <= unvisited c memo)%nat.
Proof.
  intros Hg. apply filter_length_le. intros e. rewrite !bool_decide_eq_true. intros Hn.
  destruct (omap_get (ce_name e) memo) eqn:E; [|done]. exfalso. apply (Hg (ce_name e)); by rewrite ?E.
Qed.
Lemma catalog_get_Some c name e : catalog_get c name = Some e -> e ∈ cat_entries c /\ ce_name e = name.
Proof. intros [Hin Hn%bool_decide_eq_true]%List.find_some. by rewrite list_elem_of_In. Qed.
Lemma unvisited_insert c memo name e m :
  omap_get name memo = None -> catalog_get c name = Some e ->
  (unvisited c (omap_insert name m memo) < unvisited c memo)%nat.
Proof.
  intros Hn [Hin <-]%catalog_get_Some. apply filter_length_lt with e; [|done| |].
  - intros x. rewrite !bool_decide_eq_true, omap_get_insert. by case_decide.
  - rewrite bool_decide_eq_false, omap_get_insert. by case_decide.
  - by rewrite bool_decide_eq_true.
Qed.

Lemma check_subs_returns P child ctx st l : (forall name, returns P (child name)) -> returns P (check_subs child ctx st l).
Proof.
  intros Hc. induction l as [|[i sub] l IH]; cbn [check_subs]; [apply returns_ret|].
  apply returns_bind.
  - unfold check_sub. case_bool_decide; [|apply returns_ret].
    apply returns_bind; [apply Hc|]. intros r. apply returns_ret.
  - intros d1. apply returns_bind; [apply IH|]. intros d2. apply returns_ret.
Qed.
Lemma resolve_entry_returns P child ctx entry layers :
  (forall name, returns P (child name)) -> returns P (resolve_entry child ctx entry layers).
Proof.
  intros Hc. unfold resolve_entry, narrowing_checks. destruct (resolve_stage _ _ _); [|apply returns_ret].
  apply returns_bind; [|intros r; apply returns_ret].
  apply returns_bind; [by apply check_subs_returns|]. intros r. apply returns_ret.
Qed.
Lemma returns_fmap {A B} P (m : M Memo unit A) (f : A -> B) : returns P m -> returns P (f <$> m).
Proof.
  intros Hm s Hs. destruct (Hm s Hs) as (s1 & a & Hr & Hs1). exists s1, (f a). split; [|done].
  unfold fmap, M_fmap. by rewrite Hr.
Qed.
Lemma child_grants_returns fuel ctx name memo0 :
  (unvisited (cx_catalog ctx) memo0 < fuel)%nat -> returns (grows memo0) (child_grants fuel ctx name).
Proof.
  revert name memo0. induction fuel as [|fuel IH]; intros name memo0 Hf s Hs; [lia|].
  cbn [child_grants]. rewrite bind_eq. unfold gets. destruct (omap_get name s) as [[|r]|] eqn:Hget.
  - by exists s, (Ok []).
  - by exists s, r.
  - rewrite bind_eq. unfold remember at 1, modify. set (s1 := omap_insert name InProgress s).
    assert (Hs1 : grows memo0 s1) by (etrans; [done|apply grows_insert]).
    pose proof (unvisited_grows (cx_catalog ctx) _ _ Hs) as Hle.
    assert (Hbody : returns (grows s1) (match catalog_get (cx_catalog ctx) name with
              | None => mret (Ok [])
              | Some entry => stage_grants <$> resolve_entry (child_grants fuel ctx) ctx entry Base
              end)).
    { destruct (catalog_get _ name) as [e|] eqn:He; [|apply returns_ret].
      apply returns_fmap, resolve_entry_returns. intros n. apply IH.
      pose proof (unvisited_insert _ _ _ _ InProgress Hget He). subst s1. lia. }
    destruct (Hbody s1) as (s2 & r & Hr & Hs2); [reflexivity|]. rewrite bind_eq, Hr.
    rewrite bind_eq. unfold remember, modify. exists (omap_insert name (Done r) s2), r. split; [done|].
    etrans; [done|]. etrans; [done|]. apply grows_insert.
Qed.
Lemma unvisited_nil c : (unvisited c [] < catalog_fuel c)%nat.
Proof.
  unfold unvisited, catalog_fuel. apply Nat.lt_succ_r, List.filter_length_le.
Qed.

Lemma project_errors_returns P ctx entry full fuel :
  (forall name, returns P (child_grants fuel ctx name)) -> returns P (project_errors fuel ctx entry full).
Proof.
  intros Hc. unfold project_errors. destruct (sg_project_file full); [|apply returns_ret].
  apply returns_bind; [by apply resolve_entry_returns|]. intros r. apply returns_ret.
Qed.
Lemma resolve_in_returns ctx entry :
  returns (grows []) (resolve_in (catalog_fuel (cx_catalog ctx)) ctx entry).
Proof.
  assert (Hc : forall name, returns (grows []) (child_grants (catalog_fuel (cx_catalog ctx)) ctx name)).
  { intros name. apply child_grants_returns, unvisited_nil. }
  unfold resolve_in. apply returns_bind; [by apply resolve_entry_returns|]. intros [full|ds]; [|apply returns_ret].
  apply returns_bind; [by apply project_errors_returns|]. intros project. apply returns_ret.
Qed.

(** C20: Resolution always comes to an end with a resolved profile or diagnostics: sub-agents whose
    profiles name each other, or themselves, do not send it round in circles, and a level of
    recursion per entry of the catalog is enough. *)
Theorem resolve_terminates (inputs : ResolveInputs) : exists r, resolve inputs = Ok r.
Proof.
  unfold resolve. destruct (load_ctx inputs) as [[ctx entry]|ds]; [|by exists (Err ds)].
  destruct (resolve_in_returns ctx entry [] ltac:(reflexivity)) as (s & r & Hr & _). exists r. by rewrite Hr.
Qed.
End recursion.

(** * A failure names its error *)

Definition failing {A} (r : result diags A) : Prop := forall ds, r = Err ds -> existsb is_error ds = true.
Create HintDb failing discriminated.
Lemma failing_Ok {A} (a : A) : failing (Ok a).
Proof. by intros ds. Qed.
Lemma failing_ret {A} (a : A) : failing (mret a).
Proof. by intros ds. Qed.
Lemma failing_bind {A B} (r : result diags A) (f : A -> result diags B) :
  failing r -> (forall a, failing (f a)) -> failing (r ≫= f).
Proof. intros Hr Hf ds. destruct r as [a|e]; [apply Hf|]. intros [= <-]. by apply Hr. Qed.
Lemma failing_errs_of ds : failing (errs_of ds).
Proof. intros ds'. unfold errs_of. destruct (existsb is_error ds) eqn:E; [by intros [= <-]|done]. Qed.
Lemma failing_map_err {E A} (f : E -> diags) (r : result E A) :
  (forall e, existsb is_error (f e) = true) -> failing (map_err f r).
Proof. intros Hf ds. destruct r; [done|]. intros [= <-]. apply Hf. Qed.
Lemma failing_ok_or {A} ds (o : option A) : existsb is_error ds = true -> failing (ok_or ds o).
Proof. intros Hf ds'. destruct o; [done|]. by intros [= <-]. Qed.
#[export] Hint Resolve failing_Ok failing_ret failing_errs_of : failing.
Ltac failing_tac := repeat first
  [ solve [auto with failing]
  | progress intros
  | apply failing_bind
  | apply failing_map_err; [done]
  | apply failing_ok_or; [done]
  | match goal with
    | |- failing (if ?b then _ else _) => destruct b
    | |- failing (match ?x with _ => _ end) => destruct x
    | |- failing (let '(_, _) := ?x in _) => destruct x
    end ].

Section failures.
Context {HP : Platform} {HF : FileSystem}.

Lemma validate_file_failing kind path bytes : failing (validate_file kind path bytes).
Proof.
  intros ds. unfold validate_file. destruct (negb _); [by intros [= <-]|]. destruct (parse_table _); [|by intros [= <-]].
  destruct (check_file _ _ _) as [[t mw] ds']. destruct (existsb is_error ds') eqn:E; [by intros [= <-]|done].
Qed.
Lemma read_profile_failing ctx p what : failing (read_profile ctx p what).
Proof. by apply failing_map_err. Qed.
Lemma errors_in_failing {A} (r : result diags A) : failing r -> no_errors (errors_in r) -> exists a, r = Ok a.
Proof. intros Hr. destruct r as [a|e]; [eauto|]. intros Hno. specialize (Hr e eq_refl). unfold no_errors, errors_in in Hno. congruence. Qed.
#[local] Hint Resolve read_profile_failing validate_file_failing : failing.

Lemma read_project_failing ctx layers : failing (read_project ctx layers).
Proof. unfold read_project. failing_tac. Qed.
#[local] Hint Resolve read_project_failing : failing.
(** The branch the source calls unreachable is. *)
Lemma load_layers_failing ctx entry layers : failing (load_layers ctx entry layers).
Proof.
  unfold load_layers. apply failing_bind; [auto with failing|]. intros mb.
  apply failing_bind; [auto with failing|]. intros ab. apply failing_bind; [auto with failing|]. intros pb.
  set (model := validate_file _ _ mb). set (agent := validate_file _ _ ab). set (ds := _ ++ _ ++ _).
  destruct (errs_of ds) as [u|e] eqn:He; cycle 1.
  { intros ds' [= <-]. by apply (failing_errs_of ds). }
  apply errs_of_Ok in He. unfold ds in He. rewrite !no_errors_app in He. destruct He as (Hm & Ha & Hp).
  apply errors_in_failing in Hm as [m ->]; [|apply validate_file_failing].
  apply errors_in_failing in Ha as [a ->]; [|apply validate_file_failing].
  destruct pb as [pb|]; [|apply failing_Ok]. cbn [fmap option_fmap option_map] in *.
  apply errors_in_failing in Hp as [p ->]; [|apply validate_file_failing]. apply failing_Ok.
Qed.
Lemma merge_layers_failing ctx entry layers mf af pf : failing (merge_layers ctx entry layers mf af pf).
Proof.
  unfold merge_layers. destruct (apply mf _) as [l d1], (apply af _) as [l' d2].
  destruct (match pf with Some p => _ | None => _ end) as [l'' d3]. unfold check_merged. failing_tac.
Qed.
#[local] Hint Resolve load_layers_failing merge_layers_failing : failing.
Lemma expand_grants_failing c b l : failing (expand_grants c b l).
Proof. unfold expand_grants. destruct (expand_list _ _ _ _). failing_tac. Qed.
Lemma finish_chain_failing reg l mf af : failing (finish_chain reg l mf af).
Proof. unfold finish_chain. destruct (with_parser _ _ _). failing_tac. Qed.
Lemma expand_stage_failing m ex : failing (expand_stage m ex).
Proof.
  unfold expand_stage. destruct (expand_atoms _ _ _) as [[grants concrete] d1].
  destruct (path_of _ _ _ _), (path_of _ _ _ _), (paths_of _ _ _ _), (paths_of _ _ _ _).
  destruct (pa_eval_set _); [destruct (eval_path _ _ _ _), (eval_path _ _ _ _)|]; failing_tac.
Qed.
#[local] Hint Resolve expand_grants_failing finish_chain_failing expand_stage_failing : failing.
Lemma resolve_stage_failing ctx entry layers : failing (resolve_stage ctx entry layers).
Proof. unfold resolve_stage, check_registry. failing_tac. Qed.
Lemma stage_grants_failing r : failing r -> failing (stage_grants r).
Proof. intros Hr. unfold stage_grants. failing_tac. Qed.
Lemma load_bundles_failing path : failing (load_bundles path).
Proof. unfold load_bundles. destruct (fs_read path); [failing_tac|by intros ds [= <-]]. Qed.
Lemma load_catalog_failing path : failing (load_catalog path).
Proof.
  unfold load_catalog. destruct (fs_read path); [|by intros ds [= <-]].
  apply failing_bind; [apply validate_file_failing|]. intros vf.
  set (entries := catalog_entry _ <$> _). clearbody entries. induction entries as [|e entries IH]; [apply failing_Ok|].
  intros ds. cbn [flat_map]. unfold check_entry_name at 1. destruct (agent_file_name _) as [n|]; [|].
  - destruct (negb _); cbn [complain app]; [by intros [= <-]|]. destruct (flat_map check_entry_name entries); [done|]. apply IH.
  - cbn [app]. destruct (flat_map check_entry_name entries); [done|]. apply IH.
Qed.
End failures.

(** * What a resolution that succeeds has checked *)

Section checked.
Context {HP : Platform} {HF : FileSystem} (ctx : Ctx).

(** The grants a catalog entry's own profile asks for, its project file and overrides aside. *)
Definition own_grants (name : string) (caps : list Capability) : Prop :=
  match catalog_get (cx_catalog ctx) name with
  | Some e => exists st, resolve_stage ctx e Base = Ok st /\ caps = sg_concrete_grants st
  | None => caps = []
  end.
Definition answers (name : string) (r : result diags (list Capability)) : Prop :=
  failing r /\ forall caps, r = Ok caps -> own_grants name caps.
Definition memo_ok (memo : Memo) : Prop := forall name r, omap_get name memo = Some (Done r) -> answers name r.
Definition under_way (memo : Memo) (name : string) : Prop := omap_get name memo = Some InProgress.
(** A call leaves a sound memo, and under way only what was. *)
Definition keeps (s s' : Memo) : Prop := memo_ok s' /\ forall n, under_way s' n <-> under_way s n.
Lemma keeps_refl s : memo_ok s -> keeps s s.
Proof. by split. Qed.
Lemma keeps_trans s1 s2 s3 : keeps s1 s2 -> keeps s2 s3 -> keeps s1 s3.
Proof. intros [_ H12] [H3 H23]. split; [done|]. intros n. by rewrite H23. Qed.

Definition child_ok (child : string -> M Memo unit (result diags (list Capability))) : Prop :=
  forall name s s' r, memo_ok s -> child name s = (s', Ok r) ->
    keeps s s' /\ (r = Ok [] /\ under_way s name \/ answers name r).

Lemma check_listed_errors st key i : no_errors (check_listed ctx st key i) -> check_listed ctx st key i = [].
Proof.
  unfold check_listed. destruct (expand_indexed _ _) as [items|]; [|done].
  rewrite no_errors_flat_map. intros Hno. induction items as [|ks items IH]; [done|]. cbn [flat_map].
  rewrite IH by (intros x Hx; apply Hno; by right). rewrite app_nil_r.
  specialize (Hno ks ltac:(left)). destruct (expand_atom _ _); [|done]. by apply no_errors_complain in Hno as ->.
Qed.

(** A sub-agent whose profile is being resolved, or one whose own grants are within its ceiling. *)
Definition own_within (sub : ResolvedSubagent) : Prop :=
  exists caps, own_grants (sub_catalog (rsub_subagent sub)) caps /\
    Forall (fun c => covered_by c (rsub_ceiling sub) = true) caps.
Definition child_within (s : Memo) (sub : ResolvedSubagent) : Prop :=
  under_way s (sub_catalog (rsub_subagent sub)) \/ own_within sub.
Lemma check_sub_ok child st i sub s s' ds :
  child_ok child -> memo_ok s -> check_sub child ctx st i sub s = (s', Ok ds) ->
  keeps s s' /\ (no_errors ds -> no_errors (check_listed ctx st "subagents" i) /\ child_within s sub).
Proof.
  intros Hc Hs. unfold check_sub. case_bool_decide as Hl; cycle 1.
  { intros [= <- <-]. split; [by apply keeps_refl|]. intros [Hno _]%no_errors_app. by apply check_listed_errors in Hno. }
  intros (r & s1 & Hr & H)%bind_ok. injection H as <- <-. destruct (Hc _ _ _ _ Hs Hr) as [Hk Hcaps]. split; [done|].
  rewrite !no_errors_app. intros [[? _] Hno]. split; [done|].
  destruct Hcaps as [[_ ?]|[Hfail Hown]]; [by left|right]. destruct r as [caps|e].
  - exists caps. split; [by apply Hown|]. apply Forall_forall.
    intros c Hin. unfold outside_ceiling in Hno. rewrite no_errors_flat_map in Hno. specialize (Hno c Hin).
    apply no_errors_complain in Hno; [|done]. by apply negb_false_iff in Hno.
  - specialize (Hfail e eq_refl). unfold no_errors in Hno. congruence.
Qed.
Lemma check_subs_ok child st l s s' ds :
  child_ok child -> memo_ok s -> check_subs child ctx st l s = (s', Ok ds) ->
  keeps s s' /\ (no_errors ds -> forall i sub, (i, sub) ∈ l ->
    no_errors (check_listed ctx st "subagents" i) /\ child_within s sub).
Proof.
  intros Hc. revert s ds. induction l as [|[i sub] l IH]; intros s ds Hs; cbn [check_subs].
  { intros [= <- <-]. split; [by apply keeps_refl|]. by intros _ i sub ?%elem_of_nil. }
  intros (d1 & s1 & H1 & H)%bind_ok. apply bind_ok in H as (d2 & s2 & H2 & H). injection H as <- <-.
  apply check_sub_ok in H1 as [Hk1 Hd1]; [|done..]. apply IH in H2 as [Hk2 Hd2]; [|by apply Hk1].
  split; [by eapply keeps_trans|]. intros [Hn1 Hn2]%no_errors_app j sub' [[= -> ->]|Hin]%elem_of_cons; [by apply Hd1|].
  destruct (Hd2 Hn2 _ _ Hin) as [? [Hu|?]]; split; [done| |done|by right]. left. by apply Hk1.
Qed.

Lemma resolve_entry_inv child entry layers s s' r :
  resolve_entry child ctx entry layers s = (s', Ok r) ->
  (exists ds, resolve_stage ctx entry layers = Err ds /\ s' = s /\ r = Err ds) \/
  (exists st subs, resolve_stage ctx entry layers = Ok st /\
     check_subs child ctx st (indexed 0 (sg_subagents st)) s = (s', Ok subs) /\
     r = Ok (with_checks st (check_tools ctx st ++ check_servers ctx st ++ subs ++ check_notebook st ++ check_hidden ctx st)
               (skill_warnings st))).
Proof.
  unfold resolve_entry. destruct (resolve_stage ctx entry layers) as [st|ds]; cycle 1.
  { intros [= <- <-]. left. eauto. }
  intros (st' & s1 & Hn & H)%bind_ok. injection H as <- <-. right.
  unfold narrowing_checks in Hn. apply bind_ok in Hn as (subs & s2 & Hs & H). injection H as <- <-. by exists st, subs.
Qed.
Lemma resolve_entry_keeps child entry layers s s' r :
  child_ok child -> memo_ok s -> resolve_entry child ctx entry layers s = (s', Ok r) ->
  keeps s s' /\ failing r /\ forall st, r = Ok st -> exists st0, resolve_stage ctx entry layers = Ok st0 /\
    sg_concrete_grants st = sg_concrete_grants st0.
Proof.
  intros Hc Hs [(ds & Hst & -> & ->)|(st & subs & Hst & Hsub & ->)]%resolve_entry_inv.
  - split_and!; [by apply keeps_refl| |done]. intros ds' [= <-]. by apply (resolve_stage_failing _ _ _ _ Hst).
  - apply check_subs_ok in Hsub as [Hk _]; [|done..]. split_and!; [done|by apply failing_Ok|].
    intros st' [= <-]. by exists st.
Qed.

Lemma memo_ok_insert name m s :
  memo_ok s -> (forall r, m = Done r -> answers name r) -> memo_ok (omap_insert name m s).
Proof. intros Hs Hm n r. rewrite omap_get_insert. case_decide; [subst; intros [= ->]; auto|apply Hs]. Qed.
Lemma child_grants_ok fuel : child_ok (child_grants fuel ctx).
Proof.
  induction fuel as [|fuel IH]; intros name s s' r Hs H; [done|]. cbn [child_grants] in H.
  apply bind_ok in H as (m & s0 & Hg & H). injection Hg as <- <-. destruct (omap_get name s) as [[|r0]|] eqn:Hget.
  - injection H as <- <-. split; [by apply keeps_refl|]. by left.
  - injection H as <- <-. split; [by apply keeps_refl|]. right. by apply Hs.
  - apply bind_ok in H as (u & s1 & Hi & H). injection Hi as <- _. apply bind_ok in H as (r1 & s2 & Hbody & H).
    apply bind_ok in H as (u' & s3 & Hd & H). injection Hd as <- _. injection H as <- <-.
    set (sp := omap_insert name InProgress s) in *.
    assert (Hs1 : memo_ok sp) by (by apply memo_ok_insert).
    assert (keeps sp s2 /\ answers name r1) as [Hk Ha].
    { destruct (catalog_get _ name) as [e|] eqn:He; cycle 1.
      { injection Hbody as <- <-. split; [by apply keeps_refl|]. split; [apply failing_Ok|].
        intros caps [= <-]. unfold own_grants. by rewrite He. }
      unfold fmap, M_fmap in Hbody. destruct (resolve_entry _ _ _ _ _) as [s4 [r4|]] eqn:Hre; [|done].
      injection Hbody as <- <-. apply resolve_entry_keeps in Hre as (Hk & Hf & Hst); [|done..].
      split; [done|]. split; [by apply stage_grants_failing|]. intros caps Hcaps.
      unfold stage_grants in Hcaps. apply result_bind_Ok in Hcaps as (st & -> & Hcaps).
      apply result_bind_Ok in Hcaps as (? & _ & Hcaps). injection Hcaps as <-.
      destruct (Hst st eq_refl) as (st0 & Hst0 & ->). unfold own_grants. rewrite He. eauto. }
    split; [|by right]. split.
    + apply memo_ok_insert; [apply Hk|]. by intros r [= <-].
    + intros n. unfold under_way. rewrite omap_get_insert. case_decide as Hn; [subst; split; congruence|].
      destruct Hk as [_ Hk]. specialize (Hk n). unfold under_way in Hk. rewrite Hk. unfold sp.
      rewrite omap_get_insert. by case_decide.
Qed.
End checked.

Section resolved.
Context {HP : Platform} {HF : FileSystem}.

Lemma memo_ok_nil ctx : memo_ok ctx [].
Proof. by intros name r. Qed.

(** What a successful [resolve] went through. *)
Record passed (ctx : Ctx) (entry : CatalogEntry) (st : Stage) (rd : Resolved) : Prop := {
  pd_stage : resolve_stage ctx entry Full = Ok st;
  pd_tools : no_errors (check_tools ctx st);
  pd_servers : no_errors (check_servers ctx st);
  pd_subs : forall i sub, (i, sub) ∈ indexed 0 (sg_subagents st) ->
    no_errors (check_listed ctx st "subagents" i) /\ own_within ctx sub;
  pd_notebook : no_errors (check_notebook st);
  pd_hidden : no_errors (check_hidden ctx st);
  pd_project : sg_project_file st <> None ->
    exists base, resolve_stage ctx entry Base = Ok base /\ no_errors (check_project_narrowing st base);
  pd_inputs : exists prompt envelope hash, derive_envelope st = Ok (envelope, hash) /\
    rd_kernel_inputs rd = kernel_inputs entry st prompt envelope hash;
  pd_loads : rd_profile_loads rd = profile_loads ctx st;
  pd_profile : rd_resolved_profile rd = sg_profile st /\ rd_resolved_profile_hash rd = sg_hash st
}.
Lemma finish_inv ctx entry st errors warnings rd :
  finish ctx entry (with_checks st errors warnings) = Ok rd ->
  (exists prompt envelope hash, derive_envelope st = Ok (envelope, hash) /\
    rd_kernel_inputs rd = kernel_inputs entry st prompt envelope hash) /\
  rd_profile_loads rd = profile_loads ctx st /\
  rd_resolved_profile rd = sg_profile st /\ rd_resolved_profile_hash rd = sg_hash st.
Proof.
  unfold finish. intros ([envelope hash] & He & H)%result_bind_Ok. apply result_bind_Ok in H as ([prompt ws] & _ & H).
  injection H as <-. split_and!; [|done..]. by exists prompt, envelope, hash.
Qed.
Lemma check_project_narrowing_checks st base e w e' w' :
  check_project_narrowing (with_checks st e w) (with_checks base e' w') = check_project_narrowing st base.
Proof. reflexivity. Qed.
Lemma resolve_in_inv fuel ctx entry rd s :
  resolve_in fuel ctx entry [] = (s, Ok (Ok rd)) -> exists st, passed ctx entry st rd.
Proof.
  unfold resolve_in. intros (r & s1 & Hr & H)%bind_ok.
  apply resolve_entry_inv in Hr as [(ds & _ & _ & ->)|(st & subs & Hst & Hsub & ->)]; [done|].
  apply bind_ok in H as (project & s2 & Hp & H). injection H as _ H.
  apply result_bind_Ok in H as (ds & -> & H). apply result_bind_Ok in H as (u & Hno & H).
  apply errs_of_Ok in Hno. cbn [with_checks sg_narrowing_errors] in Hno. rewrite !no_errors_app in Hno.
  destruct Hno as [(Ht & Hm & Hs & Hn & Hh) Hd]. apply finish_inv in H as (? & ? & ?).
  apply check_subs_ok in Hsub as [_ Hsubs]; [|apply child_grants_ok|apply memo_ok_nil].
  exists st. split; try done.
  - intros i sub Hin. destruct (Hsubs Hs i sub Hin) as [? [?|?]]; [done|done].
  - intros Hpf. unfold project_errors in Hp. cbn [with_checks sg_project_file] in Hp.
    destruct (sg_project_file st) as [pf|] eqn:Epf; [|done]. apply bind_ok in Hp as (rb & s3 & Hrb & Hp).
    injection Hp as _ Hp. apply resolve_entry_inv in Hrb as [(? & _ & _ & ->)|(base & ? & Hb & _ & ->)]; [done|].
    injection Hp as <-. exists base. split; [done|]. by rewrite check_project_narrowing_checks in Hd.
Qed.
Lemma resolve_inv inputs rd :
  resolve inputs = Ok (Ok rd) -> exists ctx entry st, load_ctx inputs = Ok (ctx, entry) /\ passed ctx entry st rd.
Proof.
  unfold resolve. destruct (load_ctx inputs) as [[ctx entry]|ds]; [|done]. intros H.
  destruct (resolve_in _ _ _ _) as [s r] eqn:Hr. cbn [snd] in H. subst r.
  apply resolve_in_inv in Hr as (st & Hst). by exists ctx, entry, st.
Qed.

(** The kernel inputs' capabilities are the stage's. *)
Lemma listed_covered ctx st key i c l :
  no_errors (check_listed ctx st key i) ->
  c ∈ (expand_atoms l (expander ctx) (expand_list (cx_bundles ctx) l (idx key i +:+ ".capabilities") (file_caps st key i)).1).1.2 ->
  covered_by c (sg_concrete_grants st) = true.
Proof. intros Hno (l' & j & s & He & Hin & Hc)%expand_atoms_of. by eapply check_listed_covers. Qed.

Lemma covered_by_trans c a b :
  covered_by c a = true -> (forall x, x ∈ a -> covered_by x b = true) -> covered_by c b = true.
Proof.
  intros Hca Hab. apply existsb_exists in Hca as (g & Hg%list_elem_of_In & Hcg).
  eapply covered_by_narrower; [exact Hcg|by apply Hab].
Qed.
Lemma elem_of_tools_inv ctx st tool decl c :
  no_errors (check_tools ctx st) -> tool ∈ rp_tools (sg_profile st) ->
  omap_get tool (br_tools (in_registry (cx_inputs ctx))) = Some decl -> c ∈ decl_capabilities decl ->
  covered_by c (sg_concrete_grants st) = true.
Proof.
  intros Hno (i & Hi)%list_elem_of_lookup Hd Hc. unfold check_tools in Hno. rewrite no_errors_flat_map in Hno.
  specialize (Hno (i, tool) ltac:(apply elem_of_indexed; by exists i)). unfold check_tool in Hno. rewrite Hd in Hno.
  rewrite no_errors_flat_map in Hno. specialize (Hno c Hc).
  apply no_errors_complain in Hno; [|done]. by apply negb_false_iff in Hno.
Qed.
Lemma servers_inv ctx st i server :
  no_errors (check_servers ctx st) -> sg_mcp st !! i = Some server ->
  no_errors (check_listed ctx st "mcp_servers" i) /\
  (forall url, mcp_transport (rmcp_server server) = "http" -> mcp_url (rmcp_server server) = Some url ->
     covered_by (Net (Hosts [url_host url])) (rmcp_capabilities server) = true).
Proof.
  intros Hno Hi. unfold check_servers in Hno. rewrite no_errors_flat_map in Hno.
  specialize (Hno (i, server) ltac:(apply elem_of_indexed; by exists i)). unfold check_server in Hno.
  apply no_errors_app in Hno as [Hl Hu]. split; [done|]. intros url Ht Hurl. rewrite Hurl in Hu.
  apply no_errors_complain in Hu; [|done]. rewrite bool_decide_true in Hu by done. cbn [andb] in Hu.
  by apply orb_false_iff in Hu as [_ Hu%negb_false_iff].
Qed.
Lemma load_ctx_inputs inputs ctx entry : load_ctx inputs = Ok (ctx, entry) -> cx_inputs ctx = inputs.
Proof.
  unfold load_ctx. intros (c & _ & H)%result_bind_Ok. apply result_bind_Ok in H as (b & _ & H).
  apply result_bind_Ok in H as (e & _ & H). by injection H as <- _.
Qed.

(** What the rules for a project file leave. *)
Lemma narrowing_grant full base g c :
  no_errors (check_project_narrowing full base) -> g ∈ sg_grants full -> gr_cap g = Some c ->
  covered_by c (sg_concrete_grants base) = true.
Proof.
  unfold check_project_narrowing. intros [Hno _]%no_errors_app Hg Hc. rewrite no_errors_flat_map in Hno.
  specialize (Hno g Hg). rewrite Hc in Hno. apply no_errors_complain in Hno; [|done]. by apply negb_false_iff in Hno.
Qed.
Lemma narrowing_limits full base :
  no_errors (check_project_narrowing full base) ->
  let f := rp_sandbox (sg_profile full) in let b := rp_sandbox (sg_profile base) in
  (ps_timeout_s f <= ps_timeout_s b)%N /\ (ps_scratch_tmpfs_mb f <= ps_scratch_tmpfs_mb b)%N /\
  (ps_network f = true -> ps_network b = true).
Proof.
  unfold check_project_narrowing, check_limit. rewrite !no_errors_app. intros (_ & Ht & Hm & _ & Hn).
  apply no_errors_complain in Ht, Hm, Hn; [|done..]. apply N.ltb_ge in Ht, Hm. split_and!; [done..|].
  intros Hf. rewrite Hf in Hn. by apply negb_false_iff in Hn.
Qed.
Lemma narrowing_env full base name :
  no_errors (check_project_narrowing full base) -> name ∈ list_at (ly_table (sg_layered full)) "sandbox.env_allow" ->
  name ∈ ps_env_allow (rp_sandbox (sg_profile base)).
Proof.
  unfold check_project_narrowing. rewrite !no_errors_app. intros (_ & _ & _ & Hno & _) (i & Hi)%list_elem_of_lookup.
  rewrite no_errors_flat_map in Hno. specialize (Hno (i, name) ltac:(apply elem_of_indexed; by exists i)).
  apply no_errors_complain in Hno; [|done]. by apply negb_false_iff, bool_decide_eq_true in Hno.
Qed.
Lemma elem_of_oset_of_list (x : string) l : x ∈ oset_of_list l <-> x ∈ l.
Proof. apply oset_of_list_spec. Qed.
(** The project file of the working directory is a layer of the full resolution. *)
Lemma load_layers_project ctx entry mf af pf :
  load_layers ctx entry Full = Ok (mf, af, pf) -> fs_is_file (project_path ctx) = true -> pf <> None.
Proof.
  unfold load_layers. intros H Hfile. apply result_bind_Ok in H as (mb & _ & H). apply result_bind_Ok in H as (ab & _ & H).
  apply result_bind_Ok in H as (pb & Hp & H). unfold read_project in Hp. rewrite bool_decide_true, Hfile in Hp by done.
  cbn [andb] in Hp. apply result_bind_Ok in Hp as (bytes & _ & Hp). injection Hp as <-.
  apply result_bind_Ok in H as (u & _ & H).
  cbn [fmap option_fmap option_map] in H.
  destruct (validate_file FkModel _ _), (validate_file FkAgent _ _), (validate_file FkProject _ _); try done.
  by injection H as _ _ <-.
Qed.
Lemma resolve_stage_project ctx entry st :
  resolve_stage ctx entry Full = Ok st -> fs_is_file (project_path ctx) = true -> sg_project_file st <> None.
Proof.
  unfold resolve_stage. intros H Hfile. apply result_bind_Ok in H as ([[mf af] pf] & Hl & H).
  apply load_layers_project in Hl; [|done].
  apply result_bind_Ok in H as ([l ro] & _ & H). apply result_bind_Ok in H as ([[grants mcp] subs] & _ & H).
  apply result_bind_Ok in H as (chain & _ & H). apply result_bind_Ok in H as (u & _ & H).
  apply result_bind_Ok in H as (hash & _ & H). apply expand_stage_inv in H as (_ & _ & -> & _). done.
Qed.

(** C17: A session that resolves never needs more than it is granted.  Every capability an allowed
    tool declares, every capability given to an MCP server or set as a sub-agent's ceiling, the host
    of an HTTP server's URL and writing the notebook are covered by the session's grants; and a
    hidden evaluation set on disk is neither under the working directory nor readable by a grant. *)
Theorem resolved_within_grants (inputs : ResolveInputs) (rd : Resolved) :
  resolve inputs = Ok (Ok rd) ->
  let ki := rd_kernel_inputs rd in
  let covered c := covered_by c (ki_grants ki) = true in
  (forall tool decl c, tool ∈ ki_tools ki -> omap_get tool (br_tools (in_registry inputs)) = Some decl ->
     c ∈ decl_capabilities decl -> covered c) /\
  (forall server c, server ∈ ki_mcp_servers ki -> c ∈ rmcp_capabilities server -> covered c) /\
  (forall server url, server ∈ ki_mcp_servers ki -> mcp_transport (rmcp_server server) = "http" ->
     mcp_url (rmcp_server server) = Some url -> covered (Net (Hosts [url_host url]))) /\
  (forall sub c, sub ∈ ki_subagents ki -> c ∈ rsub_ceiling sub -> covered c) /\
  (forall path, ki_notebook_path ki = Some path -> path <> "" -> covered (Fs path Rw)) /\
  (forall es, ki_eval_set ki = Some es -> contains "://" (res_hidden es) = false ->
     path_starts_with (res_hidden es) (in_workdir inputs) = false /\
     covered_by (Fs (res_hidden es) Ro) (ki_grants ki) = false).
Proof.
  intros (ctx & entry & st & <-%load_ctx_inputs & Hp)%resolve_inv.
  destruct (pd_inputs _ _ _ _ Hp) as (prompt & envelope & hash & _ & ->). cbn -[covered_by contains].
  pose proof (resolve_stage_staged _ _ _ _ (pd_stage _ _ _ _ Hp)) as Hs.
  assert (Hcaps : forall server c, server ∈ sg_mcp st -> c ∈ rmcp_capabilities server ->
            covered_by c (sg_concrete_grants st) = true).
  { intros server c (i & Hi)%list_elem_of_lookup Hc. apply servers_inv with (ctx := ctx) in Hi as Hv; [|apply Hp].
    destruct (staged_mcp _ _ Hs i server Hi) as (caps & -> & Heq). rewrite Heq in Hc. eapply listed_covered; [apply Hv|done]. }
  split_and!.
  - intros tool decl c. apply elem_of_tools_inv, Hp.
  - done.
  - intros server url Hin Ht Hu. eapply covered_by_trans; [|intros x; by apply Hcaps].
    apply list_elem_of_lookup in Hin as (i & Hi). apply servers_inv with (ctx := ctx) in Hi as [_ Hi]; [|apply Hp]. by apply Hi.
  - intros sub c (i & Hi)%list_elem_of_lookup Hc.
    destruct (staged_subs _ _ Hs i sub Hi) as (caps & -> & Heq). rewrite Heq in Hc.
    eapply listed_covered; [|done]. apply (pd_subs _ _ _ _ Hp i sub). apply elem_of_indexed. by exists i.
  - intros path [= <-] Hne. pose proof (pd_notebook _ _ _ _ Hp) as Hn. unfold check_notebook in Hn.
    apply no_errors_complain in Hn; [|done]. rewrite bool_decide_false in Hn by done. by apply negb_false_iff in Hn.
  - intros es Hes Hurl. pose proof (pd_hidden _ _ _ _ Hp) as Hh. unfold check_hidden in Hh. rewrite Hes in Hh.
    apply no_errors_complain in Hh; [|done]. rewrite Hurl in Hh. by apply orb_false_iff in Hh.
Qed.

(** C18: No sub-agent holds more than its parent lets it: the grants its own profile resolves to are
    within the ceiling the parent sets, and so within the parent's grants, also when the two
    name each other. *)
Theorem children_stay_within (inputs : ResolveInputs) (rd : Resolved) (sub : ResolvedSubagent) :
  resolve inputs = Ok (Ok rd) -> sub ∈ ki_subagents (rd_kernel_inputs rd) ->
  exists ctx entry child st, load_ctx inputs = Ok (ctx, entry) /\
    catalog_get (cx_catalog ctx) (sub_catalog (rsub_subagent sub)) = Some child /\
    resolve_stage ctx child Base = Ok st /\
    forall c, c ∈ sg_concrete_grants st ->
      covered_by c (rsub_ceiling sub) = true /\ covered_by c (ki_grants (rd_kernel_inputs rd)) = true.
Proof.
  intros (ctx & entry & st & Hl & Hp)%resolve_inv.
  destruct (pd_inputs _ _ _ _ Hp) as (prompt & envelope & hash & _ & ->). cbn -[covered_by].
  pose proof (resolve_stage_staged _ _ _ _ (pd_stage _ _ _ _ Hp)) as Hs. intros Hin.
  destruct (staged_catalog _ _ Hs sub Hin) as [child Hc]. apply list_elem_of_lookup in Hin as (i & Hi).
  destruct (pd_subs _ _ _ _ Hp i sub) as [Hno (caps & Hown & Hall)]; [apply elem_of_indexed; by exists i|].
  unfold own_grants in Hown. rewrite Hc in Hown. destruct Hown as (st' & Hst & ->).
  exists ctx, entry, child, st'. split_and!; [done..|]. intros c Hcin. rewrite Forall_forall in Hall.
  specialize (Hall c Hcin). split; [done|]. eapply covered_by_trans; [done|]. intros x Hx.
  destruct (staged_subs _ _ Hs i sub Hi) as (gs & -> & Heq). rewrite Heq in Hx. by eapply listed_covered.
Qed.

(** C19: A project file only narrows.  When the working directory has one, every grant of the session
    is covered by what the layers below it grant, the time and scratch limits are no higher, every
    environment variable is one they allow, and the network is open only if they open it. *)
Theorem project_file_narrows (inputs : ResolveInputs) (rd : Resolved) :
  resolve inputs = Ok (Ok rd) ->
  fs_is_file (path_join (path_join (in_workdir inputs) ".grist") "agent.toml") = true ->
  let ki := rd_kernel_inputs rd in
  let limits := ki_sandbox_limits ki in
  exists ctx entry base, load_ctx inputs = Ok (ctx, entry) /\ resolve_stage ctx entry Base = Ok base /\
    (forall c, c ∈ ki_grants ki -> covered_by c (sg_concrete_grants base) = true) /\
    (lim_timeout limits <= lim_timeout (sg_limits base))%N /\
    (lim_scratch_tmpfs_mb limits <= lim_scratch_tmpfs_mb (sg_limits base))%N /\
    (forall name, name ∈ lim_env_allowlist limits -> name ∈ lim_env_allowlist (sg_limits base)) /\
    (lim_network limits = true -> lim_network (sg_limits base) = true).
Proof.
  intros (ctx & entry & st & Hl & Hp)%resolve_inv Hpf. pose proof (load_ctx_inputs _ _ _ Hl) as Hin.
  destruct (pd_inputs _ _ _ _ Hp) as (prompt & envelope & hash & _ & ->).
  destruct (pd_project _ _ _ _ Hp) as (base & Hb & Hno).
  { apply (resolve_stage_project _ _ _ (pd_stage _ _ _ _ Hp)). by rewrite <- Hin in Hpf. }
  pose proof (resolve_stage_staged _ _ _ _ (pd_stage _ _ _ _ Hp)) as Hs.
  pose proof (resolve_stage_staged _ _ _ _ Hb) as Hsb. cbn zeta. cbn [ki_grants ki_sandbox_limits kernel_inputs].
  exists ctx, entry, base. split_and!; [done|done|..].
  - intros c Hc. apply (staged_grants _ _ Hs) in Hc as (g & Hg & Hcap). by eapply narrowing_grant.
  - rewrite (staged_limits _ _ Hs), (staged_limits _ _ Hsb). cbn [lim_timeout limits_of].
    apply narrowing_limits in Hno as (Ht & _ & _). unfold secs. lia.
  - rewrite (staged_limits _ _ Hs), (staged_limits _ _ Hsb). apply (narrowing_limits _ _ Hno).
  - intros name. rewrite (staged_limits _ _ Hs), (staged_limits _ _ Hsb). cbn [lim_env_allowlist limits_of].
    rewrite !elem_of_oset_of_list, (staged_env _ _ Hs). by apply narrowing_env.
  - rewrite (staged_limits _ _ Hs), (staged_limits _ _ Hsb). apply (narrowing_limits _ _ Hno).
Qed.
End resolved.

(** * Middleware *)

Section chain.
Context {HP : Platform} {HF : FileSystem}.

Lemma insert_mw_snoc m l r : (men_priority m <= men_priority r)%Z -> insert_mw m (l ++ [r]) = insert_mw m l ++ [r].
Proof.
  intros Hr. induction l as [|x l IH]; cbn [insert_mw app].
  - by rewrite (proj2 (Z.leb_le _ _)).
  - destruct (_ <=? _)%Z; [done|]. by rewrite IH.
Qed.
Lemma sort_chain_snoc l r : Forall (fun m => (men_priority m <= men_priority r)%Z) l -> sort_chain (l ++ [r]) = sort_chain l ++ [r].
Proof.
  unfold sort_chain. induction 1 as [|m l Hm _ IH]; [done|]. cbn [app foldr]. rewrite IH. by apply insert_mw_snoc.
Qed.
Lemma insert_mw_perm m l : insert_mw m l ≡ₚ m :: l.
Proof. induction l as [|x l IH]; cbn [insert_mw]; [done|]. destruct (_ <=? _)%Z; [done|]. rewrite IH. by constructor. Qed.
Lemma sort_chain_perm l : sort_chain l ≡ₚ l.
Proof. unfold sort_chain. induction l as [|m l IH]; [done|]. cbn [foldr]. by rewrite insert_mw_perm, IH. Qed.
Definition by_priority (a b : MwEntry) : Prop := (men_priority a <= men_priority b)%Z.
Lemma insert_mw_sorted m l : StronglySorted by_priority l -> StronglySorted by_priority (insert_mw m l).
Proof.
  induction 1 as [|x l Hl IH Hx]; cbn [insert_mw]; [repeat constructor|]. destruct (_ <=? _)%Z eqn:E.
  - apply Z.leb_le in E. constructor; [by constructor|]. constructor; [done|].
    eapply Forall_impl; [exact Hx|]. unfold by_priority. intros y Hy. lia.
  - apply Z.leb_gt in E. constructor; [done|]. rewrite insert_mw_perm. constructor; [unfold by_priority; lia|done].
Qed.
Lemma sort_chain_sorted l : StronglySorted by_priority (sort_chain l).
Proof. unfold sort_chain. induction l as [|m l IH]; cbn [foldr]; [constructor|by apply insert_mw_sorted]. Qed.

(** From validated files to the merged list. *)
Lemma load_layers_middleware ctx entry layers mf af pf :
  load_layers ctx entry layers = Ok (mf, af, pf) ->
  Forall mw_ok (vf_middleware mf) /\ Forall mw_ok (vf_middleware af) /\
  match pf with Some p => Forall mw_ok (vf_middleware p) | None => True end.
Proof.
  unfold load_layers. intros H. apply result_bind_Ok in H as (mb & _ & H). apply result_bind_Ok in H as (ab & _ & H).
  apply result_bind_Ok in H as (pb & _ & H). apply result_bind_Ok in H as (u & _ & H).
  destruct (validate_file FkModel _ _) as [m|] eqn:Hm, (validate_file FkAgent _ _) as [a|] eqn:Ha; try done.
  apply validate_file_middleware in Hm as (_ & ? & _), Ha as (_ & ? & _).
  destruct pb as [b|]; cbn [fmap option_fmap option_map] in H; [|by injection H as <- <- <-].
  destruct (validate_file FkProject _ _) as [p|] eqn:Hp; [|done]. injection H as <- <- <-.
  by apply validate_file_middleware in Hp as (_ & ? & _).
Qed.
Lemma merge_layers_middleware ctx entry layers mf af pf l ro :
  Forall mw_ok (vf_middleware mf) -> Forall mw_ok (vf_middleware af) ->
  match pf with Some p => Forall mw_ok (vf_middleware p) | None => True end ->
  merge_layers ctx entry layers mf af pf = Ok (l, ro) -> mw_list_ok (ly_middleware l).
Proof.
  intros Hm Ha Hp. unfold merge_layers.
  assert (H0 : mw_list_ok (ly_middleware (from_defaults kernel_defaults))).
  { unfold from_defaults. rewrite apply_table_middleware. split; constructor. }
  pose proof (apply_middleware_ok mf _ H0 Hm) as H1. destruct (apply mf _) as [l1 d1]. cbn [fst] in H1.
  pose proof (apply_middleware_ok af _ H1 Ha) as H2. destruct (apply af _) as [l2 d2]. cbn [fst] in H2.
  assert (H3 : mw_list_ok (ly_middleware (match pf with Some p => apply p l2 | None => (l2, []) end).1)).
  { destruct pf as [p|]; [by apply apply_middleware_ok|done]. }
  destruct (match pf with Some p => apply p l2 | None => (l2, []) end) as [l3 d3]. cbn [fst] in H3.
  intros (u & _ & H)%result_bind_Ok. destruct (decide (layers = Full)) as [_|_].
  - destruct (apply_runtime_overrides _ _) as [[l4 r4]|] eqn:Ho.
    + apply result_bind_Ok in H as (u' & _ & H). injection H as <- <-.
      unfold apply_runtime_overrides in Ho. apply result_bind_Ok in Ho as (u2 & _ & Ho). injection Ho as <- <-.
      by rewrite apply_table_middleware.
    + apply result_bind_Ok in H as (u' & _ & H). by injection H as <- <-.
  - apply result_bind_Ok in H as (u' & _ & H). by injection H as <- <-.
Qed.
Lemma with_parser_ok reg l mf : mw_list_ok (ly_middleware l) -> mw_list_ok (with_parser reg l mf).1.
Proof.
  intros [Hl Hn]. unfold with_parser. destruct (strip_prefix _ _) as [syntax|]; [|done]. cbn [fst]. case_bool_decide as Hin; [done|].
  split; [apply Forall_app; split; [done|]; apply Forall_singleton; split; [unfold slot_ok; cbn; unfold TOOL_CALL_PARSER_PRIORITY; lia|by intros ?%(bool_decide_pack _)]|].
  rewrite fmap_app. apply NoDup_app. split_and!; [done| |apply NoDup_singleton]. by intros x Hx ->%list_elem_of_singleton.
Qed.
Lemma finish_chain_ok reg l mf af chain :
  mw_list_ok (ly_middleware l) -> finish_chain reg l mf af = Ok chain ->
  exists mw, chain = mw ++ [recorder_slot] /\ mw_list_ok mw /\ StronglySorted by_priority mw.
Proof.
  intros Hl. unfold finish_chain. pose proof (with_parser_ok reg l mf Hl) as Hw. destruct (with_parser reg l mf) as [mw d].
  cbn [fst] in Hw. intros (u & _ & H)%result_bind_Ok. injection H as <-. exists (sort_chain mw). destruct Hw as [Hok Hn].
  split_and!; [| |apply sort_chain_sorted].
  - apply sort_chain_snoc. eapply Forall_impl; [exact Hok|]. intros m [Hs _]. unfold slot_ok in Hs.
    change (men_priority recorder_slot) with 990%Z. destruct (men_source m); lia.
  - split; [by rewrite sort_chain_perm|]. by rewrite sort_chain_perm.
Qed.
Lemma resolve_stage_chain ctx entry layers st :
  resolve_stage ctx entry layers = Ok st ->
  exists mw, sg_chain st = mw ++ [recorder_slot] /\ mw_list_ok mw /\ StronglySorted by_priority mw.
Proof.
  unfold resolve_stage. intros H. apply result_bind_Ok in H as ([[mf af] pf] & Hl & H).
  apply load_layers_middleware in Hl as (Hm & Ha & Hp).
  apply result_bind_Ok in H as ([l ro] & Hml & H). apply result_bind_Ok in H as ([[grants mcp] subs] & _ & H).
  apply result_bind_Ok in H as (chain & Hc & H). apply result_bind_Ok in H as (u & _ & H).
  apply result_bind_Ok in H as (hash & _ & H). apply expand_stage_chain in H as ->. cbn [mg_chain].
  eapply finish_chain_ok; [|exact Hc].
  eapply merge_layers_middleware; [exact Hm|exact Ha|exact Hp|exact Hml].
Qed.
Lemma as_i32_id n : (- 2 ^ 31 <= n < 2 ^ 31)%Z -> as_i32 n = n.
Proof. intros Hn. unfold as_i32. rewrite Z.mod_small by lia. lia. Qed.
Lemma slot_i32 m : slot_ok m -> as_i32 (men_priority m) = men_priority m.
Proof. unfold slot_ok. intros Hs. apply as_i32_id. destruct (men_source m); lia. Qed.

(** The middleware chain of a resolved session.  The recorder comes last whatever the profiles
    say; before it the entries are in the order of their priorities, no name twice, none reserved, each
    within the range of the layer that declared it, so that a project file can put nothing in the
    model's slots or the kernel's. *)
Theorem middleware_in_its_slots (inputs : ResolveInputs) (rd : Resolved) :
  resolve inputs = Ok (Ok rd) ->
  exists mw recorder, ki_middleware (rd_kernel_inputs rd) = mw ++ [recorder] /\
    rmw_name recorder = RECORDER_NAME /\ rmw_priority recorder = RECORDER_PRIORITY /\ rmw_source recorder = MsKernel /\
    StronglySorted (fun a b => (rmw_priority a <= rmw_priority b)%Z) mw /\ NoDup (rmw_name <$> mw) /\
    Forall (fun m => rmw_name m ∉ RESERVED_MIDDLEWARE_NAMES /\
      match rmw_source m with
      | MsModel => (100 <= rmw_priority m <= 199)%Z
      | MsAgent | MsProject => (200 <= rmw_priority m <= 899)%Z
      | MsKernel => False
      end) mw.
Proof.
  intros (ctx & entry & st & _ & Hp)%resolve_inv. destruct (pd_inputs _ _ _ _ Hp) as (prompt & envelope & hash & _ & ->).
  destruct (resolve_stage_chain _ _ _ _ (pd_stage _ _ _ _ Hp)) as (mw & Hc & [Hok Hn] & Hs).
  exists (resolved_middleware <$> mw), (resolved_middleware recorder_slot). cbn [ki_middleware kernel_inputs].
  rewrite Hc, fmap_app. split_and!; [done..| | |].
  - clear Hn Hc. induction Hs as [|m mw Hs IH Hm]; [constructor|]. apply Forall_cons in Hok as [[Hsl _] Hok].
    rewrite fmap_cons. constructor; [by apply IH|]. apply Forall_fmap.
    eapply Forall_impl; [apply Forall_and; split; [exact Hm|exact Hok]|].
    intros x [Hle [Hx _]]. cbn [compose resolved_middleware rmw_priority]. rewrite !slot_i32 by done. exact Hle.
  - rewrite <- list_fmap_compose. exact Hn.
  - apply Forall_fmap. eapply Forall_impl; [exact Hok|]. intros m [Hsl Hr]. cbn [compose].
    split; [exact Hr|]. cbn [resolved_middleware rmw_source rmw_priority]. rewrite slot_i32 by done. exact Hsl.
Qed.

(** Every capability that reaches the kernel from a profile, as a grant, for an MCP server or as a
    ceiling, is in the kernel's normal form (absolute paths without dots, hosts lower-case and without
    shadowed entries, no empty name), so the text the log records it as reads back as the same
    capability. *)
Theorem resolved_atoms_normal (inputs : ResolveInputs) (rd : Resolved) (c : Capability) :
  resolve inputs = Ok (Ok rd) ->
  let ki := rd_kernel_inputs rd in
  (c ∈ ki_grants ki \/ (exists server, server ∈ ki_mcp_servers ki /\ c ∈ rmcp_capabilities server) \/
   (exists sub, sub ∈ ki_subagents ki /\ c ∈ rsub_ceiling sub)) ->
  normal_cap c /\ from_str (display c) = Ok c.
Proof.
  intros (ctx & entry & st & _ & Hp)%resolve_inv. destruct (pd_inputs _ _ _ _ Hp) as (prompt & envelope & hash & _ & ->).
  cbn -[normal_cap from_str display]. pose proof (resolve_stage_staged _ _ _ _ (pd_stage _ _ _ _ Hp)) as Hs. intros Hc.
  assert (exists s, expand_atom (expander ctx) s = Ok c) as [s He].
  { destruct Hc as [Hc|[(sv & (i & Hi)%list_elem_of_lookup & Hc)|(sub & (i & Hi)%list_elem_of_lookup & Hc)]].
    - apply (staged_grants _ _ Hs) in Hc as (g & Hg & Hcap). pose proof (staged_normal _ _ Hs) as Hn.
      rewrite Forall_forall in Hn. exists (gr_sym g). by apply Hn.
    - destruct (staged_mcp _ _ Hs i sv Hi) as (caps & -> & Heq). rewrite Heq in Hc.
      apply expand_atoms_of in Hc as (? & ? & s & _ & _ & He). by exists s.
    - destruct (staged_subs _ _ Hs i sub Hi) as (caps & -> & Heq). rewrite Heq in Hc.
      apply expand_atoms_of in Hc as (? & ? & s & _ & _ & He). by exists s. }
  apply expand_atom_normal in He. split; [done|]. by apply from_str_display.
Qed.
End chain.

(** * Failures *)

Section failed.
Context {HP : Platform} {HF : FileSystem}.

Lemma load_ctx_failing inputs : failing (load_ctx inputs).
Proof.
  unfold load_ctx. apply failing_bind; [apply load_catalog_failing|]. intros c.
  apply failing_bind; [apply load_bundles_failing|]. intros b. failing_tac.
Qed.
Lemma finish_failing ctx entry st : failing (finish ctx entry st).
Proof. unfold finish, derive_envelope, assemble_prompt. failing_tac. Qed.
Lemma failing_fmap {A B} (f : A -> B) (r : result diags A) : failing r -> failing (f <$> r).
Proof. intros Hr ds. destruct r; [done|]. intros [= <-]. by apply Hr. Qed.
Lemma resolve_entry_failing child ctx entry layers s s' r :
  resolve_entry child ctx entry layers s = (s', Ok r) -> failing r.
Proof.
  intros [(ds & Hst & _ & ->)|(st & subs & _ & _ & ->)]%resolve_entry_inv; [|apply failing_Ok].
  intros ds' [= <-]. by apply (resolve_stage_failing _ _ _ _ Hst).
Qed.

(** A resolution that fails says why: among what it reports there is always an error, and not
    warnings alone. *)
Theorem failed_resolution_names_error (inputs : ResolveInputs) (ds : diags) :
  resolve inputs = Ok (Err ds) -> exists d, d ∈ ds /\ is_error d = true.
Proof.
  intros H. assert (existsb is_error ds = true) as (d & Hd%list_elem_of_In & He)%existsb_exists; [|by exists d].
  unfold resolve in H. destruct (load_ctx inputs) as [[ctx entry]|ds'] eqn:Hl; cycle 1.
  { injection H as <-. by apply (load_ctx_failing _ _ Hl). }
  destruct (resolve_in _ _ _ _) as [s r] eqn:Hr. cbn [snd] in H. subst r.
  unfold resolve_in in Hr. apply bind_ok in Hr as (r & s1 & Hf & H).
  apply resolve_entry_failing in Hf as Hfail. destruct r as [full|ds']; cycle 1.
  { injection H as _ <-. by apply Hfail. }
  apply bind_ok in H as (project & s2 & Hp & H). injection H as _ H. revert H.
  apply failing_bind; [|intros ds2; apply failing_bind; [apply failing_errs_of|intros u; apply finish_failing]].
  unfold project_errors in Hp. destruct (sg_project_file full); [|injection Hp as _ <-; apply failing_Ok].
  apply bind_ok in Hp as (base & s3 & Hb & Hp). injection Hp as _ <-.
  by apply failing_fmap, (resolve_entry_failing _ _ _ _ _ _ _ Hb).
Qed.
End failed.

(** * A small tree of profiles *)

#[local] Instance wit_platform : Platform := toy_platform.
Definition wit_file (p : string) : option string :=
  if decide (p = "/p/catalog.toml") then Some "catalog"
  else if decide (p = "/p/bundles.toml") then Some "bundles"
  else if decide (p = "/p/model.toml") then Some "model"
  else if decide (p = "/p/agent.toml") then Some "agent"
  else if decide (p = "/p/child.toml") then Some "child"
  else if decide (p = "/w/.grist/agent.toml") then Some "project"
  else None.
Definition wit_entry (name file : string) : toml :=
  table_of [("name", TString name); ("model_profile", TString "model.toml"); ("agent_profile", TString file)].
Definition wit_sub (name : string) (caps : list string) : toml :=
  TArray [table_of [("name", TString "helper"); ("catalog", TString name); ("capabilities", tstrings caps)]].
Definition wit_agent (name child : string) (grants ceiling : list string) : Table := omap_of_list
  [("schema_version", TInteger 1); ("agent", table_of [("name", TString name)]);
   ("capabilities", table_of [("grants", tstrings grants)]); ("tools", table_of [("allow", tstrings ["read"])]);
   ("subagents", wit_sub child ceiling)].
Definition wit_ceiling : list string := ["work"; "fs.rw:${workdir}/.grist"; "tool:read"; "spawn:child"].
Definition wit_tables (text : string) : Table :=
  if decide (text = "catalog") then omap_of_list
    [("schema_version", TInteger 1); ("agents", TArray [wit_entry "default" "agent.toml"; wit_entry "child" "child.toml"])]
  else if decide (text = "bundles") then omap_of_list
    [("schema_version", TInteger 1); ("bundles", table_of [("work", table_of [("atoms", tstrings ["fs.ro:${workdir}"])])])]
  else if decide (text = "model") then omap_of_list
    [("schema_version", TInteger 1);
     ("model", table_of [("id", TString "m"); ("endpoint", TString "local"); ("context_length", TInteger 8192)])]
  else if decide (text = "agent") then
    wit_agent "default" "child" ["fs.rw:${workdir}"; "net:*"] wit_ceiling
  else if decide (text = "child") then wit_agent "child" "child" ["work"; "fs.rw:${workdir}/.grist"] wit_ceiling
  else omap_of_list
    [("schema_version", TInteger 1); ("sandbox", table_of [("timeout_s", TInteger 60)]);
     ("middleware", TArray [table_of [("name", TString "trim"); ("priority", TInteger 300)]])].
Definition wit_fs : FileSystem := {|
  fs_read p := ok_or "No such file or directory (os error 2)" (wit_file p);
  fs_is_file p := bool_decide (is_Some (wit_file p));
  fs_is_dir _ := true;
  parse_table text := Ok (wit_tables text);
  show_f64 _ := "0.5" |}.
Definition wit_inputs_with (read_needs : list Capability) : ResolveInputs :=
  {| in_profiles_dir := "/p"; in_workdir := "/w"; in_home := "/home/u"; in_agent := "default"; in_runtime_overrides := [];
     in_registry := {| br_tools := [("read", {| decl_kind := Data.Stateless; decl_capabilities := read_needs |})];
                       br_middleware := ["trim"]; br_parsers := []; br_memory_modules := ["none"];
                       br_sandbox_backends := ["bwrap"]; br_dev_build := false |};
     in_resume := false |}.
Definition wit_inputs : ResolveInputs := wit_inputs_with [Fs "/w" Ro].
Lemma wit_run_ok : exists rd sub, resolve (HF := wit_fs) wit_inputs = Ok (Ok rd) /\ sub ∈ ki_subagents (rd_kernel_inputs rd).
Proof.
  assert (H : match resolve (HF := wit_fs) wit_inputs with
              | Ok (Ok rd) => match ki_subagents (rd_kernel_inputs rd) with _ :: _ => true | [] => false end
              | _ => false
              end = true) by (lazy; reflexivity).
  destruct (resolve _) as [[rd|]|]; [|discriminate H..]. destruct (ki_subagents _) as [|sub l] eqn:E; [discriminate H|].
  exists rd, sub. split; [reflexivity|]. rewrite E. left.
Qed.

(** An agent that may read, with a sub-agent whose own sub-agent is itself, under a project file. *)
Lemma resolved_within_grants_witness : exists rd, resolve (HF := wit_fs) wit_inputs = Ok (Ok rd) /\
  forall sub c, sub ∈ ki_subagents (rd_kernel_inputs rd) -> c ∈ rsub_ceiling sub ->
    covered_by c (ki_grants (rd_kernel_inputs rd)) = true.
Proof.
  destruct wit_run_ok as (rd & sub & Hrd & _). exists rd. split; [exact Hrd|].
  destruct (resolved_within_grants (HF := wit_fs) wit_inputs rd Hrd) as (_ & _ & _ & H & _). exact H.
Defined.
Lemma children_stay_within_witness : exists rd sub, resolve (HF := wit_fs) wit_inputs = Ok (Ok rd) /\
  sub ∈ ki_subagents (rd_kernel_inputs rd) /\
  exists ctx entry, load_ctx (HF := wit_fs) wit_inputs = Ok (ctx, entry) /\
    is_Some (catalog_get (cx_catalog ctx) (sub_catalog (rsub_subagent sub))).
Proof.
  destruct wit_run_ok as (rd & sub & Hrd & Hsub). exists rd, sub. split; [exact Hrd|]. split; [exact Hsub|].
  destruct (children_stay_within (HF := wit_fs) wit_inputs rd sub Hrd Hsub) as (ctx & entry & child & st & Hl & Hc & _).
  exists ctx, entry. split; [exact Hl|]. rewrite Hc. by eexists.
Defined.
Lemma project_file_narrows_witness : exists rd, resolve (HF := wit_fs) wit_inputs = Ok (Ok rd) /\
  exists ctx entry base, load_ctx (HF := wit_fs) wit_inputs = Ok (ctx, entry) /\
    resolve_stage (HF := wit_fs) ctx entry Base = Ok base /\
    (lim_timeout (ki_sandbox_limits (rd_kernel_inputs rd)) <= lim_timeout (sg_limits base))%N.
Proof.
  destruct wit_run_ok as (rd & sub & Hrd & _). exists rd. split; [exact Hrd|].
  destruct (project_file_narrows (HF := wit_fs) wit_inputs rd Hrd eq_refl) as (ctx & entry & base & Hl & Hb & _ & Ht & _).
  exists ctx, entry, base. split; [exact Hl|]. split; [exact Hb|exact Ht].
Defined.

(** The same, where reading needs more than the session is granted. *)
Definition wit_bad_inputs : ResolveInputs := wit_inputs_with [Fs "/" Ro].
Lemma wit_bad_run : exists ds, resolve (HF := wit_fs) wit_bad_inputs = Ok (Err ds).
Proof.
  assert (H : match resolve (HF := wit_fs) wit_bad_inputs with Ok (Err _) => true | _ => false end = true) by (lazy; reflexivity).
  destruct (resolve _) as [[|ds]|]; [discriminate H| |discriminate H]. exists ds. reflexivity.
Qed.
Lemma failed_resolution_names_error_witness : exists ds d, resolve (HF := wit_fs) wit_bad_inputs = Ok (Err ds) /\
  d ∈ ds /\ is_error d = true.
Proof.
  destruct wit_bad_run as [ds Hds]. exists ds.
  destruct (failed_resolution_names_error (HF := wit_fs) wit_bad_inputs ds Hds) as (d & Hin & He).
  exists d. split; [exact Hds|]. split; [exact Hin|exact He].
Defined.
Lemma middleware_in_its_slots_witness : exists rd, resolve (HF := wit_fs) wit_inputs = Ok (Ok rd) /\
  exists mw recorder, ki_middleware (rd_kernel_inputs rd) = mw ++ [recorder] /\ rmw_name recorder = RECORDER_NAME.
Proof.
  destruct wit_run_ok as (rd & sub & Hrd & _). exists rd. split; [exact Hrd|].
  destruct (middleware_in_its_slots (HF := wit_fs) wit_inputs rd Hrd) as (mw & recorder & Hmw & Hn & _).
  exists mw, recorder. split; [exact Hmw|exact Hn].
Defined.
Lemma resolved_atoms_normal_witness : exists rd sub, resolve (HF := wit_fs) wit_inputs = Ok (Ok rd) /\
  sub ∈ ki_subagents (rd_kernel_inputs rd) /\ forall c, c ∈ rsub_ceiling sub -> from_str (display c) = Ok c.
Proof.
  destruct wit_run_ok as (rd & sub & Hrd & Hsub). exists rd, sub. split; [exact Hrd|]. split; [exact Hsub|]. intros c Hc.
  destruct (resolved_atoms_normal (HF := wit_fs) wit_inputs rd c Hrd) as [_ H]; [|exact H].
  right. right. exists sub. split; [exact Hsub|exact Hc].
Defined.

(** * Two places where the code falls short *)

(** A model file may put a middleware other than the parser at the parser's priority, where the kernel
    then refuses it. *)
Definition slot_100_table : Table := omap_of_list
  [("schema_version", TInteger 1);
   ("middleware", TArray [table_of [("name", TString "trim"); ("priority", TInteger 100)]])].
Example slot_100_accepted_then_refused :
  let cx := {| cx_file := "/p/model.toml"; cx_dir := "/p" |} in
  (check_file (HF := wit_fs) cx FkModel slot_100_table).2 = [] /\
  men_priority <$> (check_file (HF := wit_fs) cx FkModel slot_100_table).1.2 = [100%Z] /\
  forall (X : Type) (e : MiddlewareEntry X), mw_name e = "trim" -> mw_priority e = 100%Z ->
    check_entry [] e = Err (ReservedPriority "trim").
Proof.
  split; [lazy; reflexivity|]. split; [lazy; reflexivity|]. intros X e Hn Hp. unfold check_entry. rewrite Hn, Hp. reflexivity.
Qed.
(** A description read from a file under a tool name with a dot in it is lost: the name is
    taken for a path, so the entry is never replaced by the file's text, and is then dropped. *)
Definition dotted_table : Table := omap_of_list
  [("schema_version", TInteger 1);
   ("tool_descriptions", table_of [("mcp.docs", table_of [("file", TString "catalog.toml")])])].
Example dotted_description_lost :
  let cx := {| cx_file := "/p/model.toml"; cx_dir := "/p" |} in
  let '(t, _, ds) := check_file (HF := wit_fs) cx FkModel dotted_table in
  ds = [] /\ str_entries (omap_get "tool_descriptions" t) = [].
Proof. lazy. split; reflexivity. Qed.
