(* ===== verification/Host.v ===== *)
(** The host and the sandbox backend as tools and launchers meet them: the [Host] trait
    ([crates/kernel/src/host.rs]), [SandboxError] and the stateless half of [SandboxBackend]
    ([crates/kernel/src/sandbox.rs]).  As in [Outside], every call acts on a state [X] of the rest
    of the process, and an asynchronous call is the number of polls that leave it pending. *)

From S2P Require Import Prelude Ord Str Capability Sandbox Json Data Outside Wire OpenAi.

Open Scope string_scope.
Open Scope list_scope.

(** * Data *)

Record ProcPolicy : Type := { pp_programs : list string; pp_env_allowlist : list string; pp_timeout : N }.
(** [SandboxPolicy::proc_]. *)
Definition proc_ (p : SandboxPolicy) : ProcPolicy :=
  {| pp_programs := programs p; pp_env_allowlist := env_allowlist p; pp_timeout := timeout p |}.
(** [SandboxPolicy::fs]: an [FsPolicy] is its list of mounts. *)
Definition fs (p : SandboxPolicy) : list Mount := mounts p.

(** A command with no arguments, no directory, an empty environment and no standard input. *)
Definition command_new (program : string) : Command :=
  {| cmd_program := program; cmd_args := []; cmd_cwd := None; cmd_env := []; cmd_stdin := None |}.

Record ProcessOutput : Type := {
  out_exit_code : option Z; out_signal : option Z; out_stdout : string; out_stderr : string;
  out_timed_out : bool; out_duration : N
}.
Record DirEntry : Type := { de_name : string; de_is_dir : bool; de_size : N }.
Record Metadata : Type := { md_is_dir : bool; md_size : N; md_modified : option string }.
Record AskUserRequest : Type := {
  aq_question_id : string; aq_question : string; aq_options : list string; aq_allow_free_text : bool
}.
(** [SecretHandle]: a name and a locator, never a value. *)
Record SecretHandle : Type := { sh_name : string; sh_locator : option string }.

Inductive SandboxError : Type :=
  | Launch (m : string)
  | Rpc (m : string)
  | Exited
  | SandboxTimeout (d : N)
  | SandboxCancelled.
Definition show_sandbox_error (e : SandboxError) : string :=
  match e with
  | Launch m => "launch failed: " +:+ m
  | Rpc m => "rpc failed: " +:+ m
  | Exited => "session process exited"
  | SandboxTimeout d => "timed out after " +:+ show_duration d
  | SandboxCancelled => "cancelled"
  end.

(** * Processes *)

(** What the supervisor of a child finds at one poll: whether the cancellation token has fired,
    whether the timer has elapsed, and what [wait] has to say. *)
Record ChildPoll : Type := {
  poll_cancelled : bool; poll_elapsed : bool; poll_exit : option (result HostError ProcessOutput)
}.
Record ChildProcess (X : Type) : Type := {
  child_polls : X -> X * list ChildPoll;
  child_terminate : N -> X -> X * result HostError unit
}.
Arguments child_polls {X} _ _.
Arguments child_terminate {X} _ _ _.

(** * The host *)

Record Host (X : Type) : Type := {
  host_name : string;
  read_file : list Mount -> string -> X -> X * result HostError string;
  write_file : list Mount -> string -> string -> X -> X * result HostError unit;
  list_dir : list Mount -> string -> X -> X * result HostError (list DirEntry);
  stat : list Mount -> string -> X -> X * result HostError Metadata;
  remove : list Mount -> string -> X -> X * result HostError unit;
  spawn : ProcPolicy -> Command -> X -> X * result HostError (ChildProcess X);
  network : NetPolicy -> X -> X * result HostError (NetHandle X);
  secret : string -> X -> X * result HostError SecretHandle;
  ask_user : AskUserRequest -> X -> X * Call (result HostError UserAnswer)
}.
Arguments host_name {X} _.
Arguments read_file {X} _ _ _ _.
Arguments write_file {X} _ _ _ _ _.
Arguments list_dir {X} _ _ _ _.
Arguments stat {X} _ _ _ _.
Arguments remove {X} _ _ _ _.
Arguments spawn {X} _ _ _ _.
Arguments network {X} _ _ _.
Arguments secret {X} _ _ _.
Arguments ask_user {X} _ _ _.

(** * JSON-RPC calls into session processes *)

Record RpcRequest : Type := { rpc_method : string; rpc_params : json }.
Inductive RpcResponse : Type :=
  | RpcResult (v : json)
  | RpcErr (code : Z) (message : string) (data : option json).
