(* ===== verification/Launch.v ===== *)
(** Launching sandboxed processes ([crates/sandbox/src/env.rs], [bwrap.rs], [none.rs],
    [launch.rs]): the scrubbed environment, the check of the program, the [bwrap] command line of
    a policy, and the supervision of the child. *)

From S2P Require Import Prelude Ord Str Capability Paths Sandbox Json Data Outside Wire OpenAi Host.

Open Scope string_scope.
Open Scope list_scope.

(** * The environment and the program check *)

Definition SANDBOX_HOME : string := "/tmp".

(** [<str as Debug>] and the [Debug] of a set of strings.  Quotes, backslashes and the ASCII
    control characters are escaped; other characters are printed as they are. *)
Definition hex_digit (n : N) : ascii := ascii_of_N (if (n <? 10)%N then 48 + n else 87 + n).
Definition debug_char (a : ascii) : string :=
  let n := byte_val a in
  if (n =? 34)%N then "\" +:+ dquote
  else if (n =? 92)%N then "\\"
  else if (n =? 0)%N then "\0"
  else if (n =? 9)%N then "\t"
  else if (n =? 10)%N then "\n"
  else if (n =? 13)%N then "\r"
  else if (n <? 16)%N then "\u{" +:+ String (hex_digit n) "}"
  else if ((n <? 32) || (n =? 127))%N then
    "\u{" +:+ String (hex_digit (n / 16)) (String (hex_digit (n mod 16)) "}")
  else String a "".
Fixpoint debug_bytes (s : string) : string :=
  match s with EmptyString => "" | String a s' => debug_char a +:+ debug_bytes s' end.
Definition debug_str (s : string) : string := dquote +:+ debug_bytes s +:+ dquote.
Definition debug_set (l : list string) : string := "{" +:+ join ", " (debug_str <$> l) +:+ "}".

(** [scrubbed_env_with]: the allowlist, then the command's own entries, then [HOME]. *)
Fixpoint allowlisted (lookup : string -> option string) (names : list string) (env : list (string * string))
    : result SandboxError (list (string * string)) :=
  match names with
  | [] => Ok env
  | name :: names =>
      if env_name_is_secret_like name
      then Err (Launch ("environment variable `" +:+ name +:+ "` looks like a secret and cannot be allowlisted"))
      else allowlisted lookup names
             (match lookup name with Some v => omap_insert name v env | None => env end)
  end.
Definition scrubbed_env_with (policy : SandboxPolicy) (cmd : Command) (lookup : string -> option string)
    : result SandboxError (list (string * string)) :=
  env ← allowlisted lookup (env_allowlist policy) [];
  let env := foldl (fun env kv => omap_insert kv.1 kv.2 env) env (cmd_env cmd) in
  Ok (omap_insert "HOME" SANDBOX_HOME env).

(** [env.rs: check_program]; the file name of the program, or nothing. *)
Definition launch_check_program (policy : SandboxPolicy) (cmd : Command) : result SandboxError unit :=
  if bool_decide (programs policy = []) || bool_decide (cmd_program cmd ∈ programs policy) then Ok tt
  else
    let basename := default "" (path_file_name (cmd_program cmd)) in
    if bool_decide (basename <> "") && bool_decide (basename ∈ programs policy) then Ok tt
    else Err (Launch ("program not permitted: `" +:+ cmd_program cmd +:+ "` is not in " +:+
                      debug_set (programs policy))).

(** * The [bwrap] command line *)

Definition SANDBOX_UID : string := "1000".
Definition SANDBOX_GID : string := "1000".
Definition DEFAULT_GRACE : N := secs 5.
Definition u64_max : N := 2 ^ 64 - 1.
Definition scratch_bytes (mb : N) : N := N.min u64_max (N.max mb 1 * 1048576).

(** [sort_by_key(|m| (m.path.components().count(), m.path.clone()))], which is stable. *)
Definition cmp_mounts (a b : Mount) : comparison :=
  let ca := path_components (mount_path a) in
  let cb := path_components (mount_path b) in
  cmp_then (Nat.compare (length ca) (length cb)) (cmp ca cb).
Fixpoint insert_mount (m : Mount) (l : list Mount) : list Mount :=
  match l with
  | [] => [m]
  | n :: l' => match cmp_mounts m n with Gt => n :: insert_mount m l' | _ => m :: l end
  end.
Definition shallowest_first (l : list Mount) : list Mount := foldr insert_mount [] l.

Definition bind_flag (m : FsMode) : string := match m with Rw => "--bind" | Ro => "--ro-bind" end.
Definition bind_args (m : Mount) : list string := [bind_flag (mount_mode m); mount_path m; mount_path m].
Definition setenv_args (kv : string * string) : list string := ["--setenv"; kv.1; kv.2].

Definition build_args (policy : SandboxPolicy) (cmd : Command) (env : list (string * string)) : list string :=
  ["--unshare-user"; "--unshare-pid"; "--unshare-ipc"; "--unshare-uts"] ++
  [if net_enabled (net policy) then "--share-net" else "--unshare-net"] ++
  ["--uid"; SANDBOX_UID; "--gid"; SANDBOX_GID] ++
  ["--ro-bind"; "/"; "/"] ++
  ["--size"; show_u64 (scratch_bytes (scratch_tmpfs_mb policy)); "--tmpfs"; SANDBOX_HOME] ++
  (shallowest_first (mounts policy) ≫= bind_args) ++
  ["--proc"; "/proc"; "--dev"; "/dev"] ++
  ["--clearenv"] ++ (env ≫= setenv_args) ++
  ["--chdir"; default SANDBOX_HOME (cmd_cwd cmd)] ++
  ["--die-with-parent"; "--new-session"; "--"] ++
  [cmd_program cmd] ++ cmd_args cmd.

Definition policy_to_args_with_env (policy : SandboxPolicy) (cmd : Command) (lookup : string -> option string)
    : result SandboxError (list string) :=
  env ← scrubbed_env_with policy cmd lookup; Ok (build_args policy cmd env).

(** * Supervision *)

(** [host_error]. *)
Definition host_error (context : string) (e : HostError) : SandboxError :=
  match e with
  | HostCancelled => SandboxCancelled
  | other => Launch (context +:+ ": " +:+ show_host_error other)
  end.

Inductive Ready : Type :=
  | ReadyCancel
  | ReadyTimeout
  | ReadyExit (out : result HostError ProcessOutput).
(** The biased [select!]: at each poll the token is looked at first, then the timer, then the
    child.  The number of polls that leave it pending comes first. *)
Fixpoint select_child (polls : list ChildPoll) : nat * option Ready :=
  match polls with
  | [] => (0, None)
  | p :: polls =>
      if poll_cancelled p then (0, Some ReadyCancel)
      else if poll_elapsed p then (0, Some ReadyTimeout)
      else match poll_exit p with
           | Some out => (0, Some (ReadyExit out))
           | None => let '(n, r) := select_child polls in (S n, r)
           end
  end.

Section launch.
Context {X : Type}.

(** [supervise].  A future dropped while it is pending leaves [TerminateOnDrop] armed. *)
Definition supervise (child : ChildProcess X) (timeout grace : N) (x : X)
    : X * Call (result SandboxError ProcessOutput) :=
  let '(x, polls) := child_polls child x in
  let '(n, ready) := select_child polls in
  let ended x r := (x, {| call_pending := n; call_end := Some r |}) in
  match ready with
  | Some ReadyCancel => let '(x, _) := child_terminate child grace x in ended x (Err SandboxCancelled)
  | Some ReadyTimeout => let '(x, _) := child_terminate child grace x in ended x (Err (SandboxTimeout timeout))
  | Some (ReadyExit out) => ended x (map_err (host_error "wait") out)
  | None => let '(x, _) := child_terminate child grace x in (x, {| call_pending := n; call_end := None |})
  end.

Definition at_once {A} (r : A) : Call A := {| call_pending := 0; call_end := Some r |}.

(** What both backends do once the command is ready. *)
Definition spawn_and_supervise (host : Host X) (context : string) (grace : N) (pp : ProcPolicy) (timeout : N)
    (cmd : Command) (x : X) : X * Call (result SandboxError ProcessOutput) :=
  match spawn host pp cmd x with
  | (x, Ok child) => supervise child timeout grace x
  | (x, Err e) => (x, at_once (Err (host_error context e)))
  end.

(** * The [bwrap] backend *)

Record BwrapBackend : Type := { bb_host : Host X; bb_bwrap : string; bb_grace : N }.
Definition bwrap_new (host : Host X) : BwrapBackend :=
  {| bb_host := host; bb_bwrap := "bwrap"; bb_grace := DEFAULT_GRACE |}.

(** [BwrapBackend::prepare]; [env_var] is the environment of the kernel process. *)
Definition bwrap_prepare (env_var : string -> option string) (policy : SandboxPolicy) (cmd : Command)
    : result SandboxError (list string * list (string * string)) :=
  _ ← launch_check_program policy cmd;
  env ← scrubbed_env_with policy cmd env_var;
  Ok (build_args policy cmd env, env).

Definition bwrap_launch_stateless (b : BwrapBackend) (env_var : string -> option string) (policy : SandboxPolicy)
    (cmd : Command) (x : X) : X * Call (result SandboxError ProcessOutput) :=
  match bwrap_prepare env_var policy cmd with
  | Err e => (x, at_once (Err e))
  | Ok (args, env) =>
      let proc_policy :=
        {| pp_programs := [bb_bwrap b]; pp_env_allowlist := env_allowlist policy; pp_timeout := timeout policy |} in
      let wrapper :=
        {| cmd_program := bb_bwrap b; cmd_args := args; cmd_cwd := None; cmd_env := env; cmd_stdin := cmd_stdin cmd |} in
      spawn_and_supervise (bb_host b) "spawn bwrap" (bb_grace b) proc_policy (timeout policy) wrapper x
  end.

(** [SessionSpec], and what [launch_session] hands to [JsonRpcSession::spawn]. *)
Record SessionSpec : Type := {
  ss_program : string; ss_args : list string; ss_cwd : option string; ss_env : list (string * string);
  ss_timeout : N; ss_grace : N
}.
Definition bwrap_session_spec (b : BwrapBackend) (env_var : string -> option string) (policy : SandboxPolicy)
    (cmd : Command) : result SandboxError SessionSpec :=
  '(args, env) ← bwrap_prepare env_var policy cmd;
  Ok {| ss_program := bb_bwrap b; ss_args := args; ss_cwd := None; ss_env := env;
        ss_timeout := timeout policy; ss_grace := bb_grace b |}.

(** * The backend without isolation *)

Record NoneBackend : Type := { nb_host : Host X; nb_grace : N }.

Definition none_prepare (env_var : string -> option string) (policy : SandboxPolicy) (cmd : Command)
    : result SandboxError Command :=
  _ ← launch_check_program policy cmd;
  env ← scrubbed_env_with policy cmd env_var;
  Ok {| cmd_program := cmd_program cmd; cmd_args := cmd_args cmd;
        cmd_cwd := Some (default SANDBOX_HOME (cmd_cwd cmd)); cmd_env := env; cmd_stdin := cmd_stdin cmd |}.
Definition none_launch_stateless (b : NoneBackend) (env_var : string -> option string) (policy : SandboxPolicy)
    (cmd : Command) (x : X) : X * Call (result SandboxError ProcessOutput) :=
  match none_prepare env_var policy cmd with
  | Err e => (x, at_once (Err e))
  | Ok cmd => spawn_and_supervise (nb_host b) "spawn" (nb_grace b) (proc_ policy) (timeout policy) cmd x
  end.
Definition none_session_spec (b : NoneBackend) (env_var : string -> option string) (policy : SandboxPolicy)
    (cmd : Command) : result SandboxError SessionSpec :=
  cmd ← none_prepare env_var policy cmd;
  Ok {| ss_program := cmd_program cmd; ss_args := cmd_args cmd; ss_cwd := cmd_cwd cmd; ss_env := cmd_env cmd;
        ss_timeout := timeout policy; ss_grace := nb_grace b |}.

(** * [program_available] *)

(** [PATH] is the list of its directories; the filesystem says what is a file. *)
Definition program_available (is_file : string -> bool) (path_var : option (list string)) (program : string) : bool :=
  if is_absolute program then is_file program
  else match path_var with
       | Some dirs => existsb (fun dir => is_file (if bool_decide (dir = "") then program else path_push dir program)) dirs
       | None => false
       end.
End launch.
Arguments BwrapBackend : clear implicits.
Arguments NoneBackend : clear implicits.

(** * The environment of a sandboxed process *)

Lemma allowlisted_get lookup names env env' k :
  omap_sorted env -> allowlisted lookup names env = Ok env' ->
  omap_sorted env' /\ Forall (fun n => env_name_is_secret_like n = false) names /\
  omap_get k env' = if decide (k ∈ names) then match lookup k with Some v => Some v | None => omap_get k env end
                    else omap_get k env.
Proof.
  revert env. induction names as [|n names IH]; cbn [allowlisted]; intros env Hs H.
  { injection H as <-. by rewrite decide_False by apply not_elem_of_nil. }
  destruct (env_name_is_secret_like n) eqn:Hn; [done|].
  assert (Hs' : omap_sorted (match lookup n with Some v => omap_insert n v env | None => env end))
    by (destruct (lookup n); [by apply omap_insert_sorted|done]).
  destruct (IH _ Hs' H) as (Hsd & Hf & Hg). split; [done|]. split; [by constructor|]. rewrite Hg.
  assert (Hget : omap_get k (match lookup n with Some v => omap_insert n v env | None => env end) =
                 if decide (k = n) then match lookup k with Some v => Some v | None => omap_get k env end else omap_get k env).
  { destruct (lookup n) as [v|] eqn:Hl; [rewrite omap_get_insert|]; repeat case_decide; subst; by rewrite ?Hl. }
  rewrite Hget. destruct (decide (k = n)) as [->|Hk].
  - rewrite (decide_True (P := n ∈ n :: names)) by (apply elem_of_cons; by left).
    case_decide; by destruct (lookup n).
  - destruct (decide (k ∈ names)) as [Hin|Hin].
    + by rewrite decide_True by (apply elem_of_cons; by right).
    + rewrite decide_False; [done|]. by apply not_elem_of_cons.
Qed.

Lemma allowlisted_err lookup names env e :
  allowlisted lookup names env = Err e ->
  exists n, n ∈ names /\ env_name_is_secret_like n = true /\
    e = Launch ("environment variable `" +:+ n +:+ "` looks like a secret and cannot be allowlisted").
Proof.
  revert env. induction names as [|n names IH]; simpl; intros env H; [done|].
  destruct (env_name_is_secret_like n) eqn:Hn.
  - injection H as <-. exists n. split; [apply elem_of_cons; by left|done].
  - destruct (IH _ H) as (m & Hm & ? & ?). exists m. split; [apply elem_of_cons; by right|done].
Qed.

Lemma fold_inserts_get (l env : list (string * string)) k :
  omap_sorted env -> omap_sorted l ->
  omap_sorted (foldl (fun env kv => omap_insert kv.1 kv.2 env) env l) /\
  omap_get k (foldl (fun env kv => omap_insert kv.1 kv.2 env) env l) =
  match omap_get k l with Some v => Some v | None => omap_get k env end.
Proof.
  revert env. induction l as [|[a b] l IH]; simpl; intros env He Hl; [done|].
  pose proof Hl as [Hl' Ha]%StronglySorted_inv.
  destruct (IH (omap_insert a b env)) as [Hs Hg]; [by apply omap_insert_sorted|done|].
  split; [done|]. rewrite Hg, omap_get_insert. case_decide as Hk; [subst k|done].
  destruct (omap_get a l) as [v|] eqn:Hv; [|done].
  apply omap_get_elem in Hv. rewrite Forall_forall in Ha. specialize (Ha _ Hv). simpl in Ha.
  by rewrite cmp_refl in Ha.
Qed.

(** The environment of a sandboxed process is exactly this: [HOME] is [/tmp];
    any other variable has the value the command itself gives it, else, if the policy allowlists
    its name, the one it has in the kernel's environment, else it is not there at all.  No
    environment is made when the allowlist has a name that looks like a secret. *)
Lemma scrubbed_env_exact policy cmd lookup :
  omap_sorted (cmd_env cmd) ->
  match scrubbed_env_with policy cmd lookup with
  | Ok env =>
      omap_sorted env /\ Forall (fun n => env_name_is_secret_like n = false) (env_allowlist policy) /\
      forall k, omap_get k env =
        if decide (k = "HOME") then Some "/tmp"
        else match omap_get k (cmd_env cmd) with
             | Some v => Some v
             | None => if decide (k ∈ env_allowlist policy) then lookup k else None
             end
  | Err e => exists n, n ∈ env_allowlist policy /\ env_name_is_secret_like n = true
  end.
Proof.
  intros Hc. unfold scrubbed_env_with.
  destruct (allowlisted lookup (env_allowlist policy) []) as [env|e] eqn:Ha; simpl.
  - assert (Hnil : omap_sorted ([] : list (string * string))) by constructor.
    pose proof (allowlisted_get lookup _ _ _ "" Hnil Ha) as (Hs & Hf & _).
    pose proof (fold_inserts_get (cmd_env cmd) env "" Hs Hc) as [Hs' _].
    split; [by apply omap_insert_sorted|]. split; [done|]. intros k.
    rewrite omap_get_insert. case_decide; [done|].
    rewrite (proj2 (fold_inserts_get _ _ k Hs Hc)). destruct (omap_get k (cmd_env cmd)); [done|].
    rewrite (proj2 (proj2 (allowlisted_get lookup _ _ _ k Hnil Ha))). simpl. by destruct (decide _), (lookup k).
  - destruct (allowlisted_err _ _ _ _ Ha) as (n & ? & ? & _). by exists n.
Qed.

(** * The command line, read back *)

(** The options of [bwrap] the launcher uses, with the number of operands each takes. *)
Definition option_arity (o : string) : option nat :=
  if bool_decide (o ∈ ["--unshare-user"; "--unshare-pid"; "--unshare-ipc"; "--unshare-uts"; "--share-net";
                       "--unshare-net"; "--clearenv"; "--die-with-parent"; "--new-session"]) then Some 0
  else if bool_decide (o ∈ ["--uid"; "--gid"; "--size"; "--tmpfs"; "--proc"; "--dev"; "--chdir"]) then Some 1
  else if bool_decide (o ∈ ["--bind"; "--ro-bind"; "--setenv"]) then Some 2
  else None.
(** The reading of a command line: options with their operands up to [--], then the command. *)
Definition operation : Type := string * list string.
Fixpoint read_options (args : list string) : option (list operation * list string) :=
  let emit op rest := '(ops, cmd) ← rest; Some (op :: ops, cmd) in
  match args with
  | [] => None
  | o :: rest =>
      if decide (o = "--") then Some ([], rest)
      else match option_arity o, rest with
           | Some 0, rest => emit (o, []) (read_options rest)
           | Some 1, a :: rest => emit (o, [a]) (read_options rest)
           | Some 2, a :: b :: rest => emit (o, [a; b]) (read_options rest)
           | _, _ => None
           end
  end.

Definition bind_op (m : Mount) : operation := (bind_flag (mount_mode m), [mount_path m; mount_path m]).
Definition setenv_op (kv : string * string) : operation := ("--setenv", [kv.1; kv.2]).
(** What a policy asks of [bwrap], operation by operation. *)
Definition policy_operations (policy : SandboxPolicy) (cmd : Command) (env : list (string * string)) : list operation :=
  [("--unshare-user", []); ("--unshare-pid", []); ("--unshare-ipc", []); ("--unshare-uts", []);
   (if net_enabled (net policy) then "--share-net" else "--unshare-net", []);
   ("--uid", ["1000"]); ("--gid", ["1000"]); ("--ro-bind", ["/"; "/"]);
   ("--size", [show_u64 (scratch_bytes (scratch_tmpfs_mb policy))]); ("--tmpfs", ["/tmp"])] ++
  (bind_op <$> shallowest_first (mounts policy)) ++
  [("--proc", ["/proc"]); ("--dev", ["/dev"]); ("--clearenv", [])] ++
  (setenv_op <$> env) ++
  [("--chdir", [default "/tmp" (cmd_cwd cmd)]); ("--die-with-parent", []); ("--new-session", [])].

Lemma read_option o operands rest ops cmd :
  option_arity o = Some (length operands) -> read_options rest = Some (ops, cmd) ->
  read_options (o :: operands ++ rest) = Some ((o, operands) :: ops, cmd).
Proof.
  intros Ho H. cbn [read_options]. rewrite decide_False by (intros ->; by vm_compute in Ho). rewrite Ho.
  destruct operands as [|a [|b [|c operands]]]; cbn [app length]; try by rewrite H.
  exfalso. unfold option_arity in Ho. by repeat case_match.
Qed.
(** Reading operation by operation. *)
Lemma read_operations pre rest ops cmd :
  Forall (fun op : operation => option_arity op.1 = Some (length op.2)) pre ->
  read_options rest = Some (ops, cmd) ->
  read_options ((pre ≫= fun op => op.1 :: op.2) ++ rest) = Some (pre ++ ops, cmd).
Proof.
  intros Hf H. induction Hf as [|[o operands] pre Ho Hf IH]; [done|].
  rewrite bind_cons, <- app_assoc. cbn [fst snd app]. by apply read_option.
Qed.
Lemma policy_operations_arity policy cmd env :
  Forall (fun op : operation => option_arity op.1 = Some (length op.2)) (policy_operations policy cmd env).
Proof.
  unfold policy_operations. repeat (apply Forall_app; split); try (by repeat constructor).
  - repeat constructor. by destruct (net_enabled (net policy)).
  - apply Forall_fmap, Forall_true. by intros [p []].
  - by apply Forall_fmap, Forall_true.
Qed.
Lemma build_args_operations policy cmd env :
  build_args policy cmd env =
  (policy_operations policy cmd env ≫= fun op => op.1 :: op.2) ++ "--" :: cmd_program cmd :: cmd_args cmd.
Proof.
  assert (Hb : forall ms, (bind_op <$> ms) ≫= (fun op => op.1 :: op.2) = ms ≫= bind_args)
    by (intros ms; induction ms as [|m ms IH]; [done|]; rewrite fmap_cons, !bind_cons; by rewrite IH).
  assert (He : (setenv_op <$> env) ≫= (fun op => op.1 :: op.2) = env ≫= setenv_args)
    by (induction env as [|kv env IH]; [done|]; rewrite fmap_cons, !bind_cons; by rewrite IH).
  unfold build_args, policy_operations. rewrite !bind_app, Hb, He, <- !app_assoc.
  by destruct (net_enabled (net policy)).
Qed.

Lemma read_build_args policy cmd env :
  read_options (build_args policy cmd env) =
  Some (policy_operations policy cmd env, cmd_program cmd :: cmd_args cmd).
Proof.
  rewrite build_args_operations, (read_operations _ _ [] (cmd_program cmd :: cmd_args cmd)), app_nil_r; [done| |done].
  apply policy_operations_arity.
Qed.

(** C13: whatever the paths, the environment and the arguments hold, the command
    line reads back as the operations of the policy followed by the command and its arguments:
    nothing of a command, a path or a value is ever taken for an option of the sandbox. *)
Theorem bwrap_args_read_back policy cmd env :
  read_options (build_args policy cmd env) =
  Some (policy_operations policy cmd env, cmd_program cmd :: cmd_args cmd).
Proof. exact (read_build_args policy cmd env). Qed.

(** * The mounts, and the checks made in process *)

(** Where an operation mounts something, and whether the result can be written to. *)
Definition mounted_at (op : operation) : option (string * bool) :=
  match op.2 with
  | [_; d] => if decide (op.1 = "--bind") then Some (d, true)
              else if decide (op.1 = "--ro-bind") then Some (d, false) else None
  | [d] => if decide (op.1 ∈ ["--tmpfs"; "--proc"; "--dev"]) then Some (d, true) else None
  | _ => None
  end.
(** The operations apply in order, so the last one that covers a path decides. *)
Definition writable (ops : list operation) (p : string) : bool :=
  match last (List.filter (fun m => path_starts_with p m.1) (omap mounted_at ops)) with
  | Some (_, w) => w
  | None => false
  end.

Lemma insert_mount_perm m l : insert_mount m l ≡ₚ m :: l.
Proof.
  induction l as [|n l IH]; simpl; [done|]. case_match; try done. rewrite IH. apply Permutation_swap.
Qed.
Lemma shallowest_first_perm l : shallowest_first l ≡ₚ l.
Proof. induction l as [|m l IH]; simpl; [done|]. by rewrite insert_mount_perm, IH. Qed.

Definition depth (m : Mount) : nat := length (path_components (mount_path m)).
Definition shallower (a b : Mount) : Prop := (depth a <= depth b)%nat.
Lemma cmp_mounts_depth a b :
  match cmp_mounts a b with Gt => shallower b a | _ => shallower a b end.
Proof.
  unfold cmp_mounts, shallower, depth, cmp_then.
  destruct (Nat.compare_spec (length (path_components (mount_path a))) (length (path_components (mount_path b))));
    try lia. case_match; lia.
Qed.
Lemma insert_mount_sorted m l : StronglySorted shallower l -> StronglySorted shallower (insert_mount m l).
Proof.
  induction 1 as [|n l Hs IH Hn]; simpl; [by repeat constructor|].
  pose proof (cmp_mounts_depth m n) as Hc.
  assert (Hle : shallower m n -> StronglySorted shallower (m :: n :: l)).
  { intros Hmn. constructor; [by constructor|]. constructor; [done|].
    eapply Forall_impl; [done|]. unfold shallower in *. intros; lia. }
  case_match; auto. constructor; [done|]. rewrite insert_mount_perm. by constructor.
Qed.
Lemma shallowest_first_sorted l : StronglySorted shallower (shallowest_first l).
Proof. induction l; simpl; [constructor|by apply insert_mount_sorted]. Qed.

Lemma sorted_filter {A} (R : A -> A -> Prop) f l : StronglySorted R l -> StronglySorted R (List.filter f l).
Proof.
  induction 1 as [|x l Hs IH Hx]; simpl; [constructor|]. destruct (f x); [|done]. constructor; [done|].
  rewrite Forall_forall in *. intros y [Hy _]%list_elem_of_In%filter_In. by apply Hx, list_elem_of_In.
Qed.
Lemma sorted_last {A} (R : A -> A -> Prop) (Hr : forall x, R x x) l x y :
  StronglySorted R l -> last l = Some x -> y ∈ l -> R y x.
Proof.
  intros Hs. revert x. induction Hs as [|z l Hs IH Hz]; intros x Hl Hy; [done|].
  destruct l as [|z' l]; [injection Hl as <-; by apply list_elem_of_singleton in Hy as ->|].
  apply elem_of_cons in Hy as [->|Hy]; [|by apply IH].
  rewrite Forall_forall in Hz. apply Hz. by apply last_Some_elem_of.
Qed.

Definition place (m : Mount) : string * bool := (mount_path m, bool_decide (mount_mode m = Rw)).
Lemma mounted_places policy cmd env :
  omap mounted_at (policy_operations policy cmd env) =
  [("/", false); ("/tmp", true)] ++ (place <$> shallowest_first (mounts policy)) ++ [("/proc", true); ("/dev", true)].
Proof.
  assert (Hb : forall ms : list Mount, omap mounted_at (bind_op <$> ms) = place <$> ms).
  { intros ms. induction ms as [|[p []] ms IH]; [done| |]; rewrite !fmap_cons, <- IH; done. }
  assert (He : omap mounted_at (setenv_op <$> env) = []) by (by induction env).
  unfold policy_operations. rewrite !omap_app, Hb, He. by destruct (net_enabled (net policy)).
Qed.

Lemma is_prefix_of_inj {A} `{EqDecision A} (p q l : list A) :
  is_prefix_of p l = true -> is_prefix_of q l = true -> length p = length q -> p = q.
Proof.
  rewrite !is_prefix_of_spec. intros [k ->] [k' H] Hlen. by apply app_inj_1 in H as [-> _].
Qed.
Lemma elem_of_distinct {A B} (f : A -> B) l x y : NoDup (f <$> l) -> x ∈ l -> y ∈ l -> f x = f y -> x = y.
Proof.
  intros Hn [i Hi]%list_elem_of_lookup [j Hj]%list_elem_of_lookup He.
  assert (i = j) as ->; [|congruence]. eapply NoDup_lookup; [done|..]; rewrite list_lookup_fmap.
  - by rewrite Hi.
  - rewrite Hj. cbn. by rewrite He.
Qed.

Lemma filter_perm {A} (f : A -> bool) l l' : l ≡ₚ l' -> List.filter f l ≡ₚ List.filter f l'.
Proof. induction 1; simpl; repeat case_match; try done; try by constructor. etrans; eassumption. Qed.

(** Of the mounts that cover a path, the one applied last is the one the in-process check uses. *)
Lemma last_mount_decides ms p :
  NoDup ((fun m => path_components (mount_path m)) <$> ms) ->
  last (List.filter (fun m => path_starts_with p (mount_path m)) (shallowest_first ms)) =
  max_by_key depth (List.filter (fun m => path_starts_with p (mount_path m)) ms).
Proof.
  intros Hn. set (covers := fun m => path_starts_with p (mount_path m)).
  assert (Hperm : List.filter covers (shallowest_first ms) ≡ₚ List.filter covers ms).
  { apply filter_perm, shallowest_first_perm. }
  destruct (last (List.filter covers (shallowest_first ms))) as [m|] eqn:Hl.
  - pose proof (last_Some_elem_of _ _ Hl) as Hm.
    assert (Hin : m ∈ List.filter covers ms) by (rewrite <- Hperm; done).
    destruct (max_by_key_max depth _ _ Hin) as (b & Hb & Hle). rewrite Hb. f_equal.
    pose proof (max_by_key_elem _ _ _ Hb) as Hbin.
    assert (Hge : shallower b m).
    { eapply (sorted_last shallower); [unfold shallower; lia| |exact Hl|by rewrite Hperm].
      apply sorted_filter, shallowest_first_sorted. }
    apply list_elem_of_In, filter_In in Hin as [Hin Hcm], Hbin as [Hbin Hcb].
    eapply elem_of_distinct; [exact Hn|by apply list_elem_of_In..|].
    eapply is_prefix_of_inj; [exact Hcm|exact Hcb|]. unfold shallower, depth in *. lia.
  - apply last_None in Hl. rewrite Hl in Hperm. by apply Permutation_nil in Hperm as ->.
Qed.

Lemma writable_fs_check policy cmd env p :
  NoDup ((fun m => path_components (mount_path m)) <$> mounts policy) ->
  path_starts_with p "/proc" = false -> path_starts_with p "/dev" = false ->
  writable (policy_operations policy cmd env) p =
  if existsb (fun m => path_starts_with p (mount_path m)) (mounts policy)
  then is_ok (fs_check (mounts policy) p Rw)
  else path_starts_with p "/tmp".
Proof.
  intros Hn Hproc Hdev. unfold writable. rewrite mounted_places, !List.filter_app.
  assert (Hend : List.filter (fun m => path_starts_with p m.1) [("/proc", true); ("/dev", true)] = [])
    by (cbn [List.filter fst]; by rewrite Hproc, Hdev).
  assert (Hmap : forall ms : list Mount, List.filter (fun m => path_starts_with p m.1) (place <$> ms) =
                 place <$> List.filter (fun m => path_starts_with p (mount_path m)) ms).
  { induction ms as [|m ms IH]; [done|]. rewrite fmap_cons. cbn [List.filter place fst].
    destruct (path_starts_with p (mount_path m)); [|done]. by rewrite fmap_cons, IH. }
  rewrite Hend, app_nil_r, Hmap, last_app, fmap_last, (last_mount_decides _ _ Hn).
  unfold fs_check. fold depth.
  destruct (existsb _ _) eqn:Hex.
  - apply existsb_exists in Hex as (m & Hm & Hc).
    destruct (max_by_key_max depth (List.filter (fun m => path_starts_with p (mount_path m)) (mounts policy)) m)
      as (b & Hb & _); [apply list_elem_of_In, filter_In; done|].
    change (fun m0 : Mount => length (path_components (mount_path m0))) with depth. rewrite Hb. cbn.
    by destruct (mount_mode b).
  - assert (Hnil : List.filter (fun m => path_starts_with p (mount_path m)) (mounts policy) = []).
    { revert Hex. generalize (mounts policy) as ms. induction ms as [|m ms IH]; [done|]. cbn [existsb List.filter].
      intros [-> ?]%orb_false_iff. by apply IH. }
    rewrite Hnil. cbn [max_by_key foldl fmap option_fmap option_map]. cbn [List.filter fst].
    destruct (path_starts_with p "/"), (path_starts_with p "/tmp"); done.
Qed.

(** inside the sandbox a path can be written to exactly when the in-process
    tools may write to it: for every path that a mount of the policy covers, the mounts [bwrap]
    applies in order and the most-specific-mount rule of [FsPolicy::check] say the same.  A path no
    mount covers is read-only, apart from the scratch space. *)
Theorem bwrap_mounts_agree policy cmd env p :
  NoDup ((fun m => path_components (mount_path m)) <$> mounts policy) ->
  path_starts_with p "/proc" = false -> path_starts_with p "/dev" = false ->
  writable (policy_operations policy cmd env) p =
  if existsb (fun m => path_starts_with p (mount_path m)) (mounts policy)
  then is_ok (fs_check (mounts policy) p Rw)
  else path_starts_with p "/tmp".
Proof. exact (writable_fs_check policy cmd env p). Qed.

Lemma bwrap_mounts_agree_witness :
  let policy := {| mounts := [{| mount_path := "/work/in/"; mount_mode := Ro |}; {| mount_path := "/work"; mount_mode := Rw |}];
                   scratch_tmpfs_mb := 1; net := {| net_enabled := false; net_allow := Hosts [] |};
                   timeout := secs 1; env_allowlist := []; programs := [] |} in
  writable (policy_operations policy (command_new "ls") []) "/work/out" = true /\
  writable (policy_operations policy (command_new "ls") []) "/work/in/mesh" = false.
Proof.
  intros policy.
  assert (Hn : NoDup ((fun m => path_components (mount_path m)) <$> mounts policy))
    by (apply (bool_decide_unpack _); lazy; exact I).
  split.
  - exact (bwrap_mounts_agree policy (command_new "ls") [] "/work/out" Hn eq_refl eq_refl).
  - exact (bwrap_mounts_agree policy (command_new "ls") [] "/work/in/mesh" Hn eq_refl eq_refl).
Defined.

Lemma derived_mounts_distinct caps grants limits pol :
  derive_policy_with caps grants limits = Ok pol ->
  NoDup ((fun m => path_components (mount_path m)) <$> mounts pol).
Proof.
  intros (acc & [Hm _ _ _ _ Hs] & _ & _ & -> & _)%derive_inv.
  assert (Heq : (fun m => path_components (mount_path m)) <$> (a_mounts acc).*2 = (a_mounts acc).*1).
  { rewrite <- list_fmap_compose. apply list_fmap_ext. intros i [k m] Hi. cbn.
    apply list_elem_of_lookup_2, Hm in Hi as (p & _ & _ & ->). done. }
  rewrite Heq. by apply omap_sorted_NoDup.
Qed.
Lemma derived_net caps grants limits pol :
  derive_policy_with caps grants limits = Ok pol -> net_enabled (net pol) = true ->
  lim_network limits = true /\ exists a, granted caps grants (Net a).
Proof.
  intros (acc & [_ _ _ Hp _ _] & _ & Hok & _ & _ & -> & _)%derive_inv.
  destruct (lim_network limits), (a_net_present acc) eqn:E; try done. intros _. split; [done|]. destruct (Hp eq_refl) as (a & Ha).
  exists a. apply (granted_intro _ _ _ (Net a)); try done. apply narrower_than_refl.
Qed.

Lemma policy_operations_setenv policy cmd env k v :
  ("--setenv", [k; v]) ∈ policy_operations policy cmd env <-> (k, v) ∈ env.
Proof.
  unfold policy_operations. rewrite !elem_of_app. split.
  - intros [H|[H|[H|[H|H]]]].
    + repeat (apply elem_of_cons in H as [H|H]; [try done; by destruct (net_enabled _)|]). by apply elem_of_nil in H.
    + apply list_elem_of_fmap in H as ([q []] & [=] & _).
    + repeat (apply elem_of_cons in H as [H|H]; [done|]). by apply elem_of_nil in H.
    + by apply list_elem_of_fmap in H as ([k' v'] & [= -> ->] & H).
    + repeat (apply elem_of_cons in H as [H|H]; [done|]). by apply elem_of_nil in H.
  - intros H. do 3 right. left. apply list_elem_of_fmap. by exists (k, v).
Qed.
Lemma policy_operations_share_net policy cmd env :
  ("--share-net", []) ∈ policy_operations policy cmd env -> net_enabled (net policy) = true.
Proof.
  unfold policy_operations. rewrite !elem_of_app. intros [H|[H|[H|[H|H]]]].
  - repeat (apply elem_of_cons in H as [H|H]; [try done; by destruct (net_enabled _)|]). by apply elem_of_nil in H.
  - apply list_elem_of_fmap in H as ([q []] & [=] & _).
  - repeat (apply elem_of_cons in H as [H|H]; [done|]). by apply elem_of_nil in H.
  - by apply list_elem_of_fmap in H as ([k' v'] & [=] & H).
  - repeat (apply elem_of_cons in H as [H|H]; [done|]). by apply elem_of_nil in H.
Qed.

Lemma bwrap_prepare_inv env_var policy cmd args env :
  bwrap_prepare env_var policy cmd = Ok (args, env) ->
  launch_check_program policy cmd = Ok tt /\ scrubbed_env_with policy cmd env_var = Ok env /\
  args = build_args policy cmd env.
Proof.
  unfold bwrap_prepare. intros ([] & Hc & (e & He & [= <- <-])%result_bind_Ok)%result_bind_Ok. done.
Qed.
Lemma launch_check_program_ok policy cmd :
  launch_check_program policy cmd = Ok tt ->
  programs policy = [] \/ cmd_program cmd ∈ programs policy \/
  exists b, path_file_name (cmd_program cmd) = Some b /\ b ∈ programs policy.
Proof.
  unfold launch_check_program. destruct (bool_decide_reflect (programs policy = [])); [by left|].
  destruct (bool_decide_reflect (cmd_program cmd ∈ programs policy)); [by right; left|]. cbn [orb].
  destruct (path_file_name (cmd_program cmd)) as [b|]; cbn [default from_option id]; [|done].
  destruct (bool_decide_reflect (b <> "")), (bool_decide_reflect (b ∈ programs policy)); try done.
  intros _. right. right. by exists b.
Qed.

(** C11: what the [bwrap] command line of a command lets it do, under a policy derived from the
    grants of its tool.  A path is writable only if a requested and granted atom lets the tool write
    there or, without any atom, if it lies in the scratch space under [/tmp] or in [/dev] or [/proc],
    which are the sandbox's own.  The network is shared only if a granted atom asked for it and the limits
    allow it.  No atom stands for variables: the only ones set are [HOME], which is [/tmp], those the command itself
    brings, and names of the limits' allowlist that do not look like secrets, with their values.  The
    program is one whose path or file name was requested and granted, or any if the tool requested
    none. *)
Theorem sandboxed_command_confined env_var caps grants limits pol cmd args env :
  omap_sorted (cmd_env cmd) ->
  derive_policy_with caps grants limits = Ok pol ->
  bwrap_prepare env_var pol cmd = Ok (args, env) ->
  exists ops, read_options args = Some (ops, cmd_program cmd :: cmd_args cmd) /\
    (forall p, path_starts_with p "/proc" = false -> path_starts_with p "/dev" = false ->
       writable ops p = true -> path_starts_with p "/tmp" = true \/ granted caps grants (Fs p Rw)) /\
    (("--share-net", []) ∈ ops -> lim_network limits = true /\ exists a, granted caps grants (Net a)) /\
    (forall k v, ("--setenv", [k; v]) ∈ ops ->
       k = "HOME" /\ v = "/tmp" \/ (k, v) ∈ cmd_env cmd \/
       k ∈ lim_env_allowlist limits /\ env_name_is_secret_like k = false /\ env_var k = Some v) /\
    ((forall p, Proc p ∉ caps) \/
     exists p, (p = cmd_program cmd \/ path_file_name (cmd_program cmd) = Some p) /\ granted caps grants (Proc p)).
Proof.
  intros Hs Hd (Hprog & Henv & ->)%bwrap_prepare_inv. exists (policy_operations pol cmd env).
  split; [apply read_build_args|]. split_and!.
  - intros p Hp1 Hp2. rewrite writable_fs_check by (done || by eapply derived_mounts_distinct).
    destruct (existsb _ _); [|by left]. intros Hok. right. eapply derived_fs_granted; [done|].
    by destruct (fs_check (mounts pol) p Rw) as [[]|].
  - intros Hn%policy_operations_share_net. by eapply derived_net.
  - intros k v Hin%policy_operations_setenv.
    pose proof (scrubbed_env_exact pol cmd env_var Hs) as Hspec. rewrite Henv in Hspec.
    destruct Hspec as (Hsd & Hf & Hg). apply omap_elem_get in Hin; [|done]. rewrite Hg in Hin.
    destruct (decide (k = "HOME")) as [->|]; [left; by injection Hin as <-|].
    destruct (omap_get k (cmd_env cmd)) as [w|] eqn:Hk.
    { right. left. apply omap_get_elem in Hk. by injection Hin as <-. }
    destruct (decide (k ∈ env_allowlist pol)) as [Ha|]; [|done]. right. right.
    rewrite Forall_forall in Hf. split_and!; [|by apply Hf|done].
    apply derive_inv in Hd as (acc & _ & _ & _ & _ & _ & _ & _ & _ & _ & Hl). by apply Hl.
  - destruct (launch_check_program_ok _ _ Hprog) as [He|[Hp|(b & Hb & Hp)]].
    + left. intros p. by eapply derived_no_programs.
    + right. eexists. split; [by left|by eapply derived_program_granted].
    + right. exists b. split; [by right|by eapply derived_program_granted].
Qed.

Lemma sandboxed_command_confined_witness :
  let cmd := {| cmd_program := "/usr/bin/sbatch"; cmd_args := ["--"; "--bind"; "job.sh"]; cmd_cwd := None;
                cmd_env := [("JOB", "1")]; cmd_stdin := None |} in
  let env_var name := if bool_decide (name = "PATH") then Some "/bin" else Some "s3cret" in
  exists args env ops, bwrap_prepare env_var wit_policy cmd = Ok (args, env) /\
    read_options args = Some (ops, ["/usr/bin/sbatch"; "--"; "--bind"; "job.sh"]) /\
    writable ops "/tmp/out" = true /\ writable ops "/work/in/mesh" = false /\
    env = [("HOME", "/tmp"); ("JOB", "1"); ("PATH", "/bin")].
Proof.
  intros cmd env_var.
  assert (Hd : derive_policy_with wit_caps wit_grants wit_limits = Ok wit_policy) by (lazy; reflexivity).
  assert (Hs : omap_sorted (cmd_env cmd)) by (repeat constructor).
  destruct (bwrap_prepare env_var wit_policy cmd) as [[args env]|e] eqn:Hp; [|exfalso; lazy in Hp; discriminate Hp].
  destruct (sandboxed_command_confined env_var wit_caps wit_grants wit_limits wit_policy cmd args env Hs Hd Hp)
    as (ops & Hops & _).
  exists args, env, ops. split; [reflexivity|]. split; [exact Hops|].
  lazy in Hp. injection Hp as <- <-. lazy in Hops. injection Hops as <-. lazy. repeat split.
Defined.

(** * The supervisor *)

Definition idle (p : ChildPoll) : bool :=
  negb (poll_cancelled p) && negb (poll_elapsed p) && match poll_exit p with None => true | Some _ => false end.

Lemma select_child_none polls n : select_child polls = (n, None) -> n = length polls /\ Forall idle polls.
Proof.
  revert n. induction polls as [|p polls IH]; cbn [select_child]; intros n H; [by injection H as <-|].
  destruct (poll_cancelled p) eqn:Hc, (poll_elapsed p) eqn:He, (poll_exit p) as [out|] eqn:Hx; try done.
  destruct (select_child polls) as [m r] eqn:Hs. injection H as <- ->.
  destruct (IH m eq_refl) as [-> ?]. split; [done|]. constructor; [|done].
  unfold idle. by rewrite Hc, He, Hx.
Qed.
Lemma select_child_some polls n r :
  select_child polls = (n, Some r) ->
  exists p, polls !! n = Some p /\ Forall idle (take n polls) /\
    match r with
    | ReadyCancel => poll_cancelled p = true
    | ReadyTimeout => poll_cancelled p = false /\ poll_elapsed p = true
    | ReadyExit out => poll_cancelled p = false /\ poll_elapsed p = false /\ poll_exit p = Some out
    end.
Proof.
  revert n. induction polls as [|p polls IH]; cbn [select_child]; intros n H; [done|].
  destruct (poll_cancelled p) eqn:Hc; [injection H as <- <-; by exists p|].
  destruct (poll_elapsed p) eqn:He; [injection H as <- <-; by exists p|].
  destruct (poll_exit p) as [out|] eqn:Hx; [injection H as <- <-; by exists p|].
  destruct (select_child polls) as [m r'] eqn:Hs. injection H as <- ->.
  destruct (IH m eq_refl) as (q & Hq & Hf & Hr). exists q. split; [done|]. split; [|done].
  cbn [take firstn]. constructor; [|done]. unfold idle. by rewrite Hc, He, Hx.
Qed.

(** C12: a supervised child never outlives its time limit unattended.  If the
    timer has elapsed at some poll, the supervision ends at that poll or earlier, and it ends in
    one of two ways: the child had exited by itself, before any cancellation and within the limit,
    and its own output is returned and nothing is sent to it; or it is terminated and the caller
    sees a cancellation or the timeout. *)
Theorem supervised_child_ends {X} (child : ChildProcess X) timeout grace x x1 polls i p :
  child_polls child x = (x1, polls) -> polls !! i = Some p -> poll_elapsed p = true ->
  let '(x', c) := supervise child timeout grace x in
  (call_pending c <= i)%nat /\
  ((exists q out, polls !! call_pending c = Some q /\ poll_cancelled q = false /\ poll_elapsed q = false /\
      poll_exit q = Some out /\ call_end c = Some (map_err (host_error "wait") out) /\ x' = x1) \/
   (x' = (child_terminate child grace x1).1 /\
    (call_end c = Some (Err SandboxCancelled) \/ call_end c = Some (Err (SandboxTimeout timeout))))).
Proof.
  intros Hpolls Hi He. unfold supervise. rewrite Hpolls.
  assert (Hle : forall n, Forall idle (take n polls) -> (n <= i)%nat).
  { intros n Hf. destruct (Nat.le_gt_cases n i) as [|Hlt]; [done|]. exfalso.
    rewrite Forall_forall in Hf. specialize (Hf p). unfold idle in Hf. rewrite He, andb_false_r in Hf. apply Hf.
    apply list_elem_of_lookup. exists i. rewrite lookup_take_lt by done. done. }
  destruct (select_child polls) as [n [r|]] eqn:Hs.
  - destruct (select_child_some _ _ _ Hs) as (q & Hq & Hf & Hr).
    destruct r as [| |out]; try destruct (child_terminate child grace x1) as [x2 z]; cbn; (split; [by apply Hle|]).
    + right. by split; [|left].
    + right. by split; [|right].
    + left. exists q, out. naive_solver.
  - destruct (select_child_none _ _ Hs) as [-> Hf]. exfalso. apply lookup_lt_Some in Hi as Hlt.
    specialize (Hle (length polls)). rewrite take_ge in Hle by lia. specialize (Hle Hf). lia.
Qed.

Lemma supervised_child_ends_witness :
  let still := {| poll_cancelled := false; poll_elapsed := false; poll_exit := None |} in
  let over := {| poll_cancelled := false; poll_elapsed := true; poll_exit := None |} in
  let child := {| child_polls := fun x => (x, [still; still; over]);
                  child_terminate := fun g x => (g :: x, Ok tt) |} in
  supervise child (secs 60) (secs 5) [] =
    ([secs 5], {| call_pending := 2; call_end := Some (Err (SandboxTimeout (secs 60))) |}) /\
  (call_pending (supervise child (secs 60) (secs 5) []).2 <= 2)%nat.
Proof.
  intros still over child. split; [reflexivity|].
  exact (proj1 (supervised_child_ends child (secs 60) (secs 5) [] [] [still; still; over] 2 over
    eq_refl eq_refl eq_refl)).
Defined.
