(* ===== verification/RpcSession.v ===== *)
(** Session processes ([crates/sandbox/src/session.rs]): newline-delimited JSON-RPC over the pipes
    of a child, with the timeout, the cancellation and the end of the process.  The mutex that
    admits one call at a time is not modelled: a call is one step. *)

From S2P Require Import Prelude Ord Str Utf8 Capability Sandbox Json Data Outside Wire OpenAi Host Launch.

Open Scope string_scope.
Open Scope list_scope.

Definition STDERR_TAIL_BYTES : nat := 64 * 1024.
Definition MAX_LINE_BYTES : N := 64 * 1024 * 1024.
Definition KILL_WAIT : N := secs 10.

(** [str::trim_end]. *)
Definition trim_end (s : string) : string := String.rev (strip_all strip_ws_rev (String.length s) (String.rev s)).

(** The reader of the child's stderr: the tail after one more read. *)
Definition push_stderr (tail chunk : string) : string :=
  let tail := tail +:+ chunk in
  if (STDERR_TAIL_BYTES <? String.length tail)%nat
  then str_drop (String.length tail - STDERR_TAIL_BYTES) tail else tail.

(** * Answers *)

Definition as_i64 (v : json) : option Z :=
  match v with
  | JNum (PosInt n) => if (n <? 2 ^ 63)%N then Some (Z.of_N n) else None
  | JNum (NegInt z) => Some z
  | _ => None
  end.

Section session.
Context {HJ : JsonText}.

Definition parse_error_answer (err : json) : RpcResponse :=
  RpcErr (default (-32603)%Z (jget "code" err ≫= as_i64))
         (default "" (jget "message" err ≫= as_str))
         (match jget "data" err with Some JNull => None | d => d end).
Definition parse_response (line : string) (expected_id : N) : result SandboxError RpcResponse :=
  match from_str_json line with
  | Err e => Err (Rpc ("malformed response line: " +:+ e))
  | Ok value =>
      match as_object value with
      | None => Err (Rpc "response is not a JSON object")
      | Some obj =>
          let answer :=
            match omap_get "error" obj with
            | Some err => Ok (parse_error_answer err)
            | None => Ok (RpcResult (default JNull (omap_get "result" obj)))
            end in
          let mismatch other :=
            Err (Rpc ("response id mismatch: expected " +:+ show_u64 expected_id +:+ ", got " +:+
                      to_string (default JNull other))) in
          let has_error := bool_decide (is_Some (omap_get "error" obj)) in
          match omap_get "id" obj with
          | Some (JNum n) =>
              if bool_decide (as_u64 (JNum n) = Some expected_id) then answer else mismatch (Some (JNum n))
          | Some JNull => if has_error then answer else mismatch (Some JNull)
          | None => if has_error then answer else mismatch None
          | other => mismatch other
          end
      end
  end.

(** The request line. *)
Definition request_line (id : N) (req : RpcRequest) : string :=
  to_string (jobj [("jsonrpc", JStr "2.0"); ("id", JNum (PosInt id)); ("method", JStr (rpc_method req));
                   ("params", rpc_params req)]) +:+ String newline "".

(** * Reading one line *)

(** The loop over [read_until]: each read is a chunk that ends with a newline or at the end of the
    stream (no bytes: the stream is at its end). The bytes so far come back while it is pending. *)
Fixpoint read_line (reads : list (result string string)) (buf : string) : string + result string string :=
  match reads with
  | [] => inl buf
  | Err e :: _ => inr (Err e)
  | Ok chunk :: reads =>
      if bool_decide (chunk = "") then inr (Ok buf)
      else
        let buf := buf +:+ chunk in
        if ends_with_char newline buf then inr (Ok buf)
        else if (MAX_LINE_BYTES <? N.of_nat (String.length buf))%N then inr (Err "response line too long")
        else read_line reads buf
  end.

(** What one poll of the biased [select!] finds: the token, the timer, the reads that complete. *)
Record RpcPoll : Type := {
  rpoll_cancelled : bool; rpoll_elapsed : bool; rpoll_reads : list (result string string)
}.
Inductive RpcReady : Type :=
  | RpcCancel
  | RpcTimeout
  | RpcRead (r : result string string).
Fixpoint select_answer (polls : list RpcPoll) (buf : string) : nat * option RpcReady :=
  match polls with
  | [] => (0, None)
  | p :: polls =>
      if rpoll_cancelled p then (0, Some RpcCancel)
      else if rpoll_elapsed p then (0, Some RpcTimeout)
      else match read_line (rpoll_reads p) buf with
           | inr r => (0, Some (RpcRead r))
           | inl buf => let '(n, r) := select_answer polls buf in (S n, r)
           end
  end.

(** * The session *)

Inductive Signal : Type := SIGTERM | SIGKILL.
(** The process and its pipes.  [pr_ticks limit] is how many times a loop that polls every 20 ms
    runs before [limit] has passed. *)
Class Pipes (X : Type) : Type := {
  pr_send : string -> X -> X * bool;
  pr_polls : X -> X * list RpcPoll;
  pr_stderr : X -> string;
  pr_reaped : X -> X * bool;
  pr_kill : Signal -> X -> X;
  pr_ticks : N -> X -> X * nat
}.
Context {X : Type} {HP : Pipes X}.

Record JsonRpcSession : Type := {
  js_next_id : N; js_dead : bool; js_timeout : N; js_grace : N; js_program : string
}.
Definition session_of (spec : SessionSpec) : JsonRpcSession :=
  {| js_next_id := 0; js_dead := false; js_timeout := ss_timeout spec; js_grace := ss_grace spec;
     js_program := ss_program spec |}.
Definition mark_dead (s : JsonRpcSession) : JsonRpcSession :=
  {| js_next_id := js_next_id s; js_dead := true; js_timeout := js_timeout s; js_grace := js_grace s;
     js_program := js_program s |}.

(** [while Instant::now() < deadline]: whether the process was reaped meanwhile. *)
Fixpoint poll_reaped (ticks : nat) (x : X) : X * bool :=
  match ticks with
  | O => (x, false)
  | S n => match pr_reaped x with (x, true) => (x, true) | (x, false) => poll_reaped n x end
  end.
Definition kill_process (s : JsonRpcSession) (x : X) : X * JsonRpcSession :=
  let s' := mark_dead s in
  match pr_reaped x with
  | (x, true) => (x, s')
  | (x, false) =>
      let x := pr_kill SIGTERM x in
      let '(x, ticks) := pr_ticks (js_grace s) x in
      match poll_reaped ticks x with
      | (x, true) => (x, s')
      | (x, false) =>
          let x := pr_kill SIGKILL x in
          let '(x, ticks) := pr_ticks KILL_WAIT x in
          (fst (poll_reaped ticks x), s')
      end
  end.

Definition session_alive (s : JsonRpcSession) (x : X) : X * bool :=
  if js_dead s then (x, false) else let '(x, r) := pr_reaped x in (x, negb r).

(** [exited]. *)
Definition exited (what : string) (s : JsonRpcSession) (x : X) : JsonRpcSession * SandboxError :=
  let tail := from_utf8_lossy (pr_stderr x) in
  (mark_dead s,
   if bool_decide (trim tail = "") then Exited
   else Rpc (what +:+ ": `" +:+ js_program s +:+ "` exited; stderr tail: " +:+ trim_end tail)).

(** [call]; a call nobody waits for any longer has no result. *)
Definition call (s : JsonRpcSession) (req : RpcRequest) (x : X)
    : X * JsonRpcSession * Call (result SandboxError RpcResponse) :=
  let gone what s x := let '(s, e) := exited what s x in (x, s, at_once (Err e)) in
  match session_alive s x with
  | (x, false) => gone "call" s x
  | (x, true) =>
      let id := ((js_next_id s + 1) mod 2 ^ 64)%N in
      let s := {| js_next_id := id; js_dead := js_dead s; js_timeout := js_timeout s; js_grace := js_grace s;
                  js_program := js_program s |} in
      match pr_send (request_line id req) x with
      | (x, false) => gone "write request" s x
      | (x, true) =>
          let '(x, polls) := pr_polls x in
          let '(n, ready) := select_answer polls "" in
          let ended x s r := (x, s, {| call_pending := n; call_end := Some r |}) in
          match ready with
          | None => (x, s, {| call_pending := n; call_end := None |})
          | Some RpcCancel => let '(x, s) := kill_process s x in ended x s (Err SandboxCancelled)
          | Some RpcTimeout => let '(x, s) := kill_process s x in ended x s (Err (SandboxTimeout (js_timeout s)))
          | Some (RpcRead (Err e)) =>
              let '(x, s) := kill_process s x in ended x s (Err (Rpc ("read response: " +:+ e)))
          | Some (RpcRead (Ok "")) => let '(s, e) := exited "read response" s x in ended x s (Err e)
          | Some (RpcRead (Ok buf)) => ended x s (parse_response (trim_end (from_utf8_lossy buf)) id)
          end
      end
  end.
End session.

(** * What a call returns *)

Section facts.
Context {HJ : JsonText} {X : Type} {HP : Pipes X}.
Implicit Types (s : JsonRpcSession) (x : X).

(** The bytes a read loop returns are the reads it was given, in order. *)
Lemma read_line_bytes reads buf r :
  read_line reads buf = inr (Ok r) ->
  exists n, Forall is_ok (take n reads) /\
    r = buf +:+ foldr (fun c acc => default "" (ok c) +:+ acc) "" (take n reads).
Proof.
  revert buf. induction reads as [|[chunk|e] reads IH]; cbn [read_line]; intros buf H; try done.
  destruct (bool_decide_reflect (chunk = "")) as [->|Hne].
  { injection H as <-. exists 0%nat. split; [constructor|]. by rewrite str_app_nil_r. }
  destruct (ends_with_char newline (buf +:+ chunk)).
  { injection H as <-. exists 1%nat. split; [by repeat constructor|]. cbn. by rewrite str_app_nil_r. }
  destruct (MAX_LINE_BYTES <? _)%N; [done|].
  destruct (IH _ H) as (n & Hf & ->). exists (S n). split; [by constructor|]. cbn. by rewrite str_app_assoc.
Qed.

Lemma parse_response_result line id v :
  parse_response line id = Ok (RpcResult v) ->
  exists m, from_str_json line = Ok (JObj m) /\ omap_get "id" m = Some (JNum (PosInt id)) /\
    omap_get "error" m = None /\ v = default JNull (omap_get "result" m).
Proof.
  unfold parse_response. destruct (from_str_json line) as [[]|]; try done. cbn [as_object].
  destruct (omap_get "id" members) as [[| |n| | |]|] eqn:Hid; destruct (omap_get "error" members) eqn:He; try done;
    rewrite ?bool_decide_false by (by intros [? ?]); try done.
  - by destruct (bool_decide_reflect (as_u64 (JNum n) = Some id)).
  - destruct (bool_decide_reflect (as_u64 (JNum n) = Some id)) as [Hn|]; [|done]. intros [= <-].
    exists members. destruct n as [n| |]; try done. by injection Hn as ->.
Qed.
(** An error answer carries the id of the request, or none at all. *)
Lemma parse_response_error line id code message data :
  parse_response line id = Ok (RpcErr code message data) ->
  exists m err, from_str_json line = Ok (JObj m) /\ omap_get "error" m = Some err /\
    (omap_get "id" m = Some (JNum (PosInt id)) \/ omap_get "id" m = Some JNull \/ omap_get "id" m = None).
Proof.
  unfold parse_response. destruct (from_str_json line) as [[]|]; try done. cbn [as_object].
  destruct (omap_get "id" members) as [[| |n| | |]|] eqn:Hid; destruct (omap_get "error" members) as [err|] eqn:He; try done;
    try (intros _; exists members, err; by naive_solver).
  - destruct (bool_decide_reflect (as_u64 (JNum n) = Some id)) as [Hn|]; [|done]. intros _.
    exists members, err. destruct n as [n| |]; try done. injection Hn as ->. naive_solver.
  - by destruct (bool_decide_reflect (as_u64 (JNum n) = Some id)).
Qed.

(** A line that answers one id answers no other. *)
Lemma parse_response_one_id line id id' v v' :
  parse_response line id = Ok (RpcResult v) -> parse_response line id' = Ok (RpcResult v') -> id = id'.
Proof.
  intros (m & Hj & Hid & _)%parse_response_result (m' & Hj' & Hid' & _)%parse_response_result.
  rewrite Hj in Hj'. injection Hj' as <-. rewrite Hid in Hid'. by injection Hid'.
Qed.
Lemma call_next_id s req x :
  (js_next_id s + 1 < 2 ^ 64)%N -> let s' := (call s req x).1.2 in js_next_id s' = js_next_id s \/ js_next_id s' = (js_next_id s + 1)%N.
Proof.
  intros Hn. unfold call, exited, kill_process.
  repeat case_match; simplify_eq; cbn; rewrite ?N.mod_small by done; auto.
Qed.
Lemma call_result s req x x' s' c v :
  call s req x = (x', s', c) -> call_end c = Some (Ok (RpcResult v)) ->
  js_next_id s' = ((js_next_id s + 1) mod 2 ^ 64)%N /\ js_dead s' = false /\
  exists x1 x2 polls buf,
    session_alive s x = (x1, true) /\ pr_send (request_line (js_next_id s') req) x1 = (x2, true) /\
    pr_polls x2 = (x', polls) /\ select_answer polls "" = (call_pending c, Some (RpcRead (Ok buf))) /\
    parse_response (trim_end (from_utf8_lossy buf)) (js_next_id s') = Ok (RpcResult v).
Proof.
  unfold call, exited. destruct (session_alive s x) as [x1 []] eqn:Ha; [|by intros [= <- <- <-]; cbn; case_match].
  destruct (pr_send _ x1) as [x2 []] eqn:Hsend; [|by intros [= <- <- <-]; cbn; case_match].
  destruct (pr_polls x2) as [x3 polls] eqn:Hp. destruct (select_answer polls "") as [n ready] eqn:Hsel.
  destruct ready as [[| |[buf|e]]|]; repeat case_match; intros Hc He;
    try (injection Hc as <- <- <-; by cbn in He).
  injection Hc as <- <- <-. cbn [call_end call_pending at_once] in He. apply Some_inj in He.
  assert (Hd : js_dead s = false) by (unfold session_alive in Ha; by destruct (js_dead s)).
  cbn [js_next_id js_dead]. split; [done|]. split; [done|]. exists x1, x2, polls. naive_solver.
Qed.
(** Calls one after another, whatever happens between them; the ids of those that returned a result. *)
Fixpoint calls s (env : list (X * RpcRequest)) : list (JsonRpcSession * Call (result SandboxError RpcResponse)) :=
  match env with
  | [] => []
  | (x, req) :: env => let '(_, s', c) := call s req x in (s', c) :: calls s' env
  end.
Definition answered_id (sc : JsonRpcSession * Call (result SandboxError RpcResponse)) : option N :=
  match call_end sc.2 with Some (Ok (RpcResult _)) => Some (js_next_id sc.1) | _ => None end.
Lemma answered_ids_grow s env :
  (js_next_id s + N.of_nat (length env) < 2 ^ 64)%N ->
  NoDup (omap answered_id (calls s env)) /\ Forall (fun id => js_next_id s < id)%N (omap answered_id (calls s env)).
Proof.
  revert s. induction env as [|[x req] env IH]; intros s Hn; [split; constructor|]. cbn [length] in Hn. cbn [calls].
  pose proof (call_next_id s req x) as Hid. destruct (call s req x) as [[x' s'] c] eqn:Hc. cbn [fst snd] in Hid.
  assert (Hle : js_next_id s' = js_next_id s \/ js_next_id s' = (js_next_id s + 1)%N) by (apply Hid; lia).
  destruct (IH s') as [Hd Hf]; [lia|]. cbn [omap list_omap].
  assert (Hf' : Forall (fun id => js_next_id s < id)%N (omap answered_id (calls s' env))) by (eapply Forall_impl; [exact Hf|]; cbn; lia).
  destruct (answered_id (s', c)) as [id|] eqn:Ha; [|done].
  assert (id = js_next_id s' /\ js_next_id s' = (js_next_id s + 1)%N) as [-> Hs'].
  { unfold answered_id in Ha. cbn [fst snd] in Ha. destruct (call_end c) as [[[v|]|]|] eqn:He; try done. injection Ha as <-. split; [done|].
    destruct (call_result _ _ _ _ _ _ _ Hc He) as (-> & _). apply N.mod_small. lia. }
  split.
  - apply NoDup_cons. split; [|done]. intros Hin. rewrite Forall_forall in Hf. apply Hf in Hin. lia.
  - apply Forall_cons. split; [lia|done].
Qed.

(** C16: a call that returns a result sent one request line with a fresh id, one more than the
    last, and then read a line that is an object with exactly this id and no error, of which the
    result is the [result] member; the session is still usable.  No other id accepts this line, and
    the calls of a session that return results, whatever happens between them, have ids of their own,
    so that no line can be the answer to two of them.  (That the line was written after
    the request, and not beforehand by a process that guessed the id, is not checked.) *)
Theorem rpc_answer_is_for_its_request :
  (forall s req x x' s' c v,
    call s req x = (x', s', c) -> call_end c = Some (Ok (RpcResult v)) ->
    js_next_id s' = ((js_next_id s + 1) mod 2 ^ 64)%N /\ js_dead s' = false /\
    exists x1 x2 polls buf m,
      session_alive s x = (x1, true) /\ pr_send (request_line (js_next_id s') req) x1 = (x2, true) /\
      pr_polls x2 = (x', polls) /\ select_answer polls "" = (call_pending c, Some (RpcRead (Ok buf))) /\
      from_str_json (trim_end (from_utf8_lossy buf)) = Ok (JObj m) /\
      omap_get "id" m = Some (JNum (PosInt (js_next_id s'))) /\ omap_get "error" m = None /\
      v = default JNull (omap_get "result" m) /\
      forall id v', id <> js_next_id s' -> parse_response (trim_end (from_utf8_lossy buf)) id <> Ok (RpcResult v')) /\
  forall s env, (js_next_id s + N.of_nat (length env) < 2 ^ 64)%N -> NoDup (omap answered_id (calls s env)).
Proof.
  split; [|intros s env Hn; by apply answered_ids_grow].
  intros s req x x' s' c v Hc He. destruct (call_result _ _ _ _ _ _ _ Hc He) as (H1 & H2 & x1 & x2 & polls & buf & H3 & H4 & H5 & H6 & Hp).
  destruct (parse_response_result _ _ _ Hp) as (m & Hj & Hid & Herr & Hv). split; [done|]. split; [done|].
  exists x1, x2, polls, buf, m. split_and!; try done. intros id v' Hne Hp'. by apply Hne, (parse_response_one_id _ _ _ _ _ Hp' Hp).
Qed.

Lemma kill_process_dead s x : (kill_process s x).2 = mark_dead s.
Proof. unfold kill_process. repeat case_match; simplify_eq; done. Qed.

(** What ends a session: the caller is told that it was cancelled, timed out or gone. *)
Definition interruption (e : SandboxError) : bool :=
  match e with SandboxCancelled | SandboxTimeout _ | Exited => true | _ => false end.
Lemma interrupted_call_dead s req x x' s' c e :
  call s req x = (x', s', c) -> call_end c = Some (Err e) -> interruption e = true -> js_dead s' = true.
Proof.
  unfold call, exited. destruct (session_alive s x) as [x1 []]; [|by intros [= <- <- <-]].
  destruct (pr_send _ x1) as [x2 []]; [|by intros [= <- <- <-]].
  destruct (pr_polls x2) as [x3 polls]. destruct (select_answer polls "") as [n ready].
  assert (Hk : forall s, js_dead (kill_process s x3).2 = true) by (intros; by rewrite kill_process_dead).
  destruct ready as [[| |[buf|err]]|]; cbn -[kill_process parse_response].
  1-2,4: match goal with |- context [kill_process ?s0 ?y] => specialize (Hk s0); destruct (kill_process s0 y) end;
    intros [= <- <- <-]; by intros.
  - destruct buf as [|a buf]; [by intros [= <- <- <-]|]. intros [= <- <- <-] [= He].
    unfold parse_response in He. repeat case_match; try done; injection He as <-; done.
  - by intros [= <- <- <-].
Qed.

(** once a call was cancelled, timed out or found the process gone,
    the session is never used again: whatever is asked of it later, nothing is written to the
    process and nothing is read from it, so that an answer to the interrupted request can never be
    taken for the answer to another. *)
Theorem interrupted_session_is_done s req x x' s' c e :
  call s req x = (x', s', c) -> call_end c = Some (Err e) -> interruption e = true ->
  forall req' y, exists e', call s' req' y = (y, s', at_once (Err e')).
Proof.
  intros Hc He Hi req' y. pose proof (interrupted_call_dead _ _ _ _ _ _ _ Hc He Hi) as Hd.
  unfold call, session_alive. rewrite Hd. unfold exited. eexists. f_equal. f_equal. by destruct s'; cbn in *; subst.
Qed.

(** ** Ending the process *)

(** The process is killed only after it was asked to end and given its grace. *)
Lemma kill_process_signals s x :
  let '(x1, reaped) := pr_reaped x in
  if reaped then (kill_process s x).1 = x1
  else
    let '(x2, ticks) := pr_ticks (js_grace s) (pr_kill SIGTERM x1) in
    let '(x3, reaped) := poll_reaped ticks x2 in
    if reaped then (kill_process s x).1 = x3
    else let '(x4, ticks) := pr_ticks KILL_WAIT (pr_kill SIGKILL x3) in
         (kill_process s x).1 = (poll_reaped ticks x4).1.
Proof. unfold kill_process. repeat case_match; simplify_eq; done. Qed.
End facts.

(** The tail of the child's stderr that is kept is bounded, whatever the child writes. *)
Lemma stderr_tail_bounded tail chunk : (String.length (push_stderr tail chunk) <= STDERR_TAIL_BYTES)%nat.
Proof.
  unfold push_stderr. destruct (Nat.ltb_spec STDERR_TAIL_BYTES (String.length (tail +:+ chunk))); [|lia].
  rewrite str_drop_length. lia.
Qed.

(** * Witnesses *)

(** A process that answers one line, or lets the call be cancelled; its state is what was sent. *)
Definition wit_text : JsonText := {|
  to_string _ := "?";
  from_str_json line := if bool_decide (line = "A1")
                        then Ok (JObj [("id", JNum (PosInt 1)); ("result", JStr "7")]) else Err "not json"
|}.
Definition wit_pipes (cancelled : bool) : Pipes (list string) := {|
  pr_send line x := (line :: x, true);
  pr_polls x := (x, [{| rpoll_cancelled := false; rpoll_elapsed := false; rpoll_reads := [Ok "A"] |};
                     {| rpoll_cancelled := cancelled; rpoll_elapsed := false;
                        rpoll_reads := [Ok (String "1" (String newline ""))] |}]);
  pr_stderr _ := "";
  pr_reaped x := (x, false);
  pr_kill _ x := x;
  pr_ticks _ x := (x, 0%nat)
|}.
Definition wit_session : JsonRpcSession :=
  {| js_next_id := 0; js_dead := false; js_timeout := secs 60; js_grace := secs 5; js_program := "bwrap" |}.
Definition wit_request : RpcRequest := {| rpc_method := "eval"; rpc_params := JNull |}.

Lemma rpc_answer_is_for_its_request_witness :
  let '(x, s, c) := @call wit_text _ (wit_pipes false) wit_session wit_request [] in
  call_end c = Some (Ok (RpcResult (JStr "7"))) /\ js_next_id s = 1%N.
Proof.
  destruct (@call wit_text _ (wit_pipes false) wit_session wit_request []) as [[x s] c] eqn:Hc.
  assert (He : call_end c = Some (Ok (RpcResult (JStr "7")))) by (lazy in Hc; injection Hc as <- <- <-; reflexivity).
  split; [exact He|].
  destruct (proj1 (@rpc_answer_is_for_its_request wit_text _ (wit_pipes false)) _ _ _ _ _ _ _ Hc He) as (Hid & _).
  rewrite Hid. reflexivity.
Defined.

Lemma interrupted_session_is_done_witness :
  let '(x, s, c) := @call wit_text _ (wit_pipes true) wit_session wit_request [] in
  call_end c = Some (Err SandboxCancelled) /\
  exists e, @call wit_text _ (wit_pipes true) s wit_request x = (x, s, at_once (Err e)).
Proof.
  destruct (@call wit_text _ (wit_pipes true) wit_session wit_request []) as [[x s] c] eqn:Hc.
  assert (He : call_end c = Some (Err SandboxCancelled)) by (lazy in Hc; injection Hc as <- <- <-; reflexivity).
  split; [exact He|].
  exact (@interrupted_session_is_done wit_text _ (wit_pipes true) _ _ _ _ _ _ _ Hc He eq_refl wit_request x).
Defined.
