(* ===== verification/NativeFs.v ===== *)
(** The filesystem calls of the native host ([crates/host/src/native/fs.rs], and the filesystem
    methods of [native/mod.rs]): a path is checked against the policy as it is written and again
    after its symbolic links are resolved.  The operating system is an interface; what it says of
    the filesystem during one check is read from one state, so that races between a check and the
    operation after it are not modelled. *)

From S2P Require Import Prelude Ord Str Utf8 Capability Paths Sandbox Json Data Outside Time Wire OpenAi Host.

Open Scope string_scope.
Open Scope list_scope.

(** * The operating system *)

(** [io::Error]: its kind, as far as it matters, and its text. *)
Inductive IoError : Type :=
  | IoNotFound (m : string)
  | IoOther (m : string).
Record OsMetadata : Type := { om_is_dir : bool; om_len : N; om_modified_ms : option N }.
Class OsFs (X : Type) : Type := {
  os_canonicalize : string -> X -> result IoError string;
  os_is_symlink : string -> X -> bool;
  os_read_link : string -> X -> result IoError string;
  os_metadata : string -> X -> result IoError OsMetadata;
  os_symlink_is_dir : string -> X -> result IoError bool;
  os_read_dir : string -> X -> result IoError (list (result IoError string));
  os_read : string -> X -> result IoError string;
  os_write : string -> string -> X -> X * result IoError unit;
  os_remove_dir : string -> X -> X * result IoError unit;
  os_remove_file : string -> X -> X * result IoError unit
}.

(** * Paths *)

Definition MAX_SYMLINK_HOPS : nat := 40.

Definition io_text (e : IoError) : string := match e with IoNotFound m | IoOther m => m end.
Definition map_io (path : string) (e : IoError) : HostError :=
  match e with IoNotFound _ => HostNotFound path | IoOther m => HostIo (path +:+ ": " +:+ m) end.

(** [normalize]. *)
Fixpoint push_components (out : string) (cs : list component) : option string :=
  match cs with
  | [] => Some out
  | RootDir :: cs => push_components "/" cs
  | CurDir :: cs => push_components out cs
  | ParentDir :: _ => None
  | Normal n :: cs => push_components (path_join out n) cs
  end.
Definition normalize (path : string) : option string := push_components "" (path_components path).

(** The parents of a path, nearest first; a parent is shorter, so the length of the path is enough. *)
Fixpoint parents (fuel : nat) (p : string) : list string :=
  match fuel, path_parent p with
  | S fuel, Some q => q :: parents fuel q
  | _, _ => []
  end.
Definition all_parents (p : string) : list string := parents (String.length p) p.

Section fs.
Context {X : Type} {HO : OsFs X}.

(** The inner loop of [resolve_symlinks]: the deepest ancestor that exists, a dangling link, or an
    error; with the names that were climbed over, outermost first. *)
Inductive Probe : Type :=
  | Exists (canon : string) (rest : list string)
  | Dangling (probe : string) (rest : list string)
  | Fails (e : IoError).
Fixpoint probe_loop (x : X) (probe : string) (above rest : list string) : Probe :=
  match os_canonicalize probe x with
  | Ok canon => Exists canon rest
  | Err (IoNotFound m) =>
      if os_is_symlink probe x then Dangling probe rest
      else match path_file_name probe, above with
           | Some name, parent :: above => probe_loop x parent above (name :: rest)
           | _, _ => Fails (IoNotFound m)
           end
  | Err e => Fails e
  end.

(** The outer loop; [hops] are left. *)
Fixpoint follow (hops : nat) (path cur : string) (x : X) : result HostError string :=
  match probe_loop x cur (all_parents cur) [] with
  | Exists canon rest =>
      ok_or (HostIo (path +:+ ": unresolvable `..` in a symlink target")) (normalize (foldl path_join canon rest))
  | Dangling probe rest =>
      match hops with
      | O => Err (HostIo (path +:+ ": too many levels of symbolic links"))
      | S hops =>
          match os_read_link probe x with
          | Err e => Err (map_io probe e)
          | Ok target =>
              let next := if is_absolute target then target else path_join (default "/" (path_parent probe)) target in
              follow hops path (foldl path_join next rest) x
          end
      end
  | Fails e => Err (map_io path e)
  end.
Definition resolve_symlinks (path : string) (x : X) : result HostError string :=
  follow MAX_SYMLINK_HOPS path path x.

Record Resolved : Type := { lexical : string; resolved : string }.
Definition resolve_mount (x : X) (m : Mount) : result HostError Mount :=
  p ← resolve_symlinks (mount_path m) x; Ok {| mount_path := p; mount_mode := mount_mode m |}.
Definition resolve (policy : list Mount) (path : string) (mode : FsMode) (x : X) : result HostError Resolved :=
  let denied := HostDenied (PathDenied path mode) in
  if negb (is_absolute path) then Err denied
  else
    lex ← ok_or denied (normalize path);
    _ ← map_err (fun _ => denied) (fs_check policy lex mode);
    real ← resolve_symlinks lex x;
    real_mounts ← mapR (resolve_mount x) policy;
    _ ← map_err (fun _ => denied) (fs_check real_mounts real mode);
    Ok {| lexical := lex; resolved := real |}.

(** * The calls *)

Definition native_read_file (policy : list Mount) (path : string) (x : X) : X * result HostError string :=
  (x, r ← resolve policy path Ro x; map_err (map_io path) (os_read (resolved r) x)).

Definition native_write_file (policy : list Mount) (path bytes : string) (x : X) : X * result HostError unit :=
  match resolve policy path Rw x with
  | Err e => (x, Err e)
  | Ok r => let '(x, w) := os_write (resolved r) bytes x in (x, map_err (map_io path) w)
  end.

Definition modified_rfc3339 (m : OsMetadata) : option string := format_rfc3339_ms <$> om_modified_ms m.
Definition native_stat (policy : list Mount) (path : string) (x : X) : X * result HostError Metadata :=
  (x, r ← resolve policy path Ro x;
      m ← map_err (map_io path) (os_metadata (resolved r) x);
      Ok {| md_is_dir := om_is_dir m; md_size := om_len m; md_modified := modified_rfc3339 m |}).

(** One entry; a link that leads nowhere counts as an empty file. *)
Definition dir_entry (dir name : string) (x : X) : DirEntry :=
  let '(is_dir, size) := match os_metadata (path_join dir name) x with
                         | Ok m => (om_is_dir m, om_len m)
                         | Err _ => (false, 0%N)
                         end in
  {| de_name := from_utf8_lossy name; de_is_dir := is_dir; de_size := size |}.
Fixpoint insert_entry (e : DirEntry) (l : list DirEntry) : list DirEntry :=
  match l with
  | [] => [e]
  | d :: l' => match cmp (de_name e) (de_name d) with Gt => d :: insert_entry e l' | _ => e :: l end
  end.
Definition sort_entries (l : list DirEntry) : list DirEntry := foldr insert_entry [] l.
Definition native_list_dir (policy : list Mount) (path : string) (x : X) : X * result HostError (list DirEntry) :=
  (x, r ← resolve policy path Ro x;
      names ← map_err (map_io path) (os_read_dir (resolved r) x);
      names ← mapR (map_err (map_io path)) names;
      Ok (sort_entries ((fun n => dir_entry (resolved r) n x) <$> names))).

(** The link itself is removed, not what it leads to. *)
Definition native_remove (policy : list Mount) (path : string) (x : X) : X * result HostError unit :=
  match resolve policy path Rw x with
  | Err e => (x, Err e)
  | Ok r =>
      match os_symlink_is_dir (lexical r) x with
      | Err e => (x, Err (map_io path e))
      | Ok is_dir =>
          let '(x, w) := if is_dir then os_remove_dir (lexical r) x else os_remove_file (lexical r) x in
          (x, map_err (map_io path) w)
      end
  end.
End fs.

(** * The parents of a path *)

Lemma parents_enough n m p :
  (String.length p <= n)%nat -> (String.length p <= m)%nat -> parents n p = parents m p.
Proof.
  revert m p. induction n as [|n IH]; intros m p Hn Hm.
  - destruct m; [done|]. simpl. destruct (path_parent p) eqn:Hp; [|done]. apply path_parent_shorter in Hp. lia.
  - destruct m; simpl; destruct (path_parent p) eqn:Hp; try done; apply path_parent_shorter in Hp; [lia|].
    f_equal. apply IH; lia.
Qed.
(** The climb ends only at a path without a parent. *)
Lemma all_parents_unfold p :
  all_parents p = match path_parent p with Some q => q :: all_parents q | None => [] end.
Proof.
  unfold all_parents. destruct (path_parent p) as [q|] eqn:Hp.
  - pose proof (path_parent_shorter _ _ Hp). destruct (String.length p) as [|n] eqn:Hl; [lia|].
    simpl. rewrite Hp. f_equal. apply parents_enough; lia.
  - destruct (String.length p); simpl; by rewrite ?Hp.
Qed.

(** * The two normalisations agree *)

Lemma seg_not_absolute seg : seg_ok seg -> is_absolute seg = false.
Proof.
  intros (Hc & Hne & _). destruct seg as [|a seg]; [done|]. unfold is_absolute, starts_with. cbn [strip_prefix].
  case_decide as Ha; [|by apply bool_decide_false; intros [? ?]]. by subst a.
Qed.
Lemma path_join_render segs seg :
  Forall seg_ok segs -> seg_ok seg -> path_join (render segs) seg = render (segs ++ [seg]).
Proof.
  intros Hs Hseg. unfold path_join. rewrite (seg_not_absolute _ Hseg), decide_False by done.
  by apply path_push_render.
Qed.
Lemma push_components_spec p segs cs :
  Forall seg_ok segs -> (forall seg, Normal seg ∈ cs -> seg_ok seg) -> RootDir ∉ cs ->
  push_components (render segs) cs = ok (normalize_components p (render segs) cs).
Proof.
  revert segs. induction cs as [|c cs IH]; intros segs Hs Hcs Hr; [done|].
  assert (Hcs' : forall seg, Normal seg ∈ cs -> seg_ok seg) by (intros; apply Hcs; by right).
  assert (Hr' : RootDir ∉ cs) by set_solver.
  destruct c as [| | |seg]; cbn [push_components normalize_components]; [set_solver|by apply IH|done|].
  assert (Hseg : seg_ok seg) by (apply Hcs; by left). pose proof Hseg as (_ & Hne & _).
  rewrite decide_False, path_join_render, path_push_render by done.
  apply IH; [|done..]. apply Forall_app. split; [done|]. by constructor.
Qed.
Lemma root_only_first p cs : path_components p = RootDir :: cs -> RootDir ∉ cs.
Proof.
  assert (Hb : forall w, RootDir ∉ body_component w)
    by (intros w; unfold body_component; repeat case_decide; set_solver).
  assert (Hl : forall l, RootDir ∉ (l ≫= body_component)) by (intros l (w & Hw & _)%list_elem_of_bind; by eapply Hb).
  unfold path_components. destruct (split_char "/" p) as [|w ws]; [done|].
  destruct (is_absolute p); [intros [= <-]; apply (Hl (w :: ws))|].
  intros Heq. exfalso. assert (Hin : RootDir ∈ RootDir :: cs) by left. rewrite <- Heq in Hin.
  apply elem_of_app in Hin as [Hin|Hin]; [case_decide; [set_solver|by eapply Hb]|by eapply Hl].
Qed.

(** On absolute paths the host's normalisation is that of the capability atoms. *)
Lemma normalize_agrees p : is_absolute p = true -> normalize p = ok (normalize_path p).
Proof.
  intros Ha. unfold normalize, normalize_path. rewrite Ha. cbn [negb].
  destruct (path_components p) as [|c cs] eqn:Hc.
  { unfold path_components in Hc. rewrite Ha in Hc. destruct (split_char "/" p) eqn:E; [|done].
    pose proof (join_split "/" p) as Hj. rewrite E in Hj. by rewrite <- Hj in Ha. }
  assert (c = RootDir) as ->.
  { unfold path_components in Hc. rewrite Ha in Hc. by destruct (split_char "/" p); simplify_eq. }
  cbn [push_components normalize_components].
  apply (push_components_spec p []); [done| |by eapply root_only_first].
  intros seg Hin. apply (path_components_segs p). rewrite Hc. by right.
Qed.

(** * What a checked path is *)

Section facts.
Context {X : Type} {HO : OsFs X}.
Implicit Types (x : X).

Lemma fs_resolve_inv ms path mode x r :
  resolve ms path mode x = Ok r ->
  normalize_path path = Ok (lexical r) /\ fs_check ms (lexical r) mode = Ok tt /\
  resolve_symlinks (lexical r) x = Ok (resolved r) /\
  exists real_ms, mapR (resolve_mount x) ms = Ok real_ms /\ fs_check real_ms (resolved r) mode = Ok tt.
Proof.
  unfold resolve. destruct (is_absolute path) eqn:Ha; [|done]. cbn [negb].
  intros (lex & Hlex & (u & Hc & (real & Hr & (rms & Hms & (v & Hc' & [= <-])%result_bind_Ok)%result_bind_Ok)%result_bind_Ok)%result_bind_Ok)%result_bind_Ok.
  cbn [lexical resolved]. rewrite normalize_agrees in Hlex by done.
  destruct (normalize_path path); [|done]. injection Hlex as <-.
  destruct (fs_check ms a mode) as [[]|]; [|done]. split_and!; try done. exists rms. split; [done|].
  by destruct (fs_check rms real mode) as [[]|].
Qed.
Lemma resolve_mounts_elem x ms rms q :
  mapR (resolve_mount x) ms = Ok rms -> q ∈ rms ->
  exists m, m ∈ ms /\ resolve_symlinks (mount_path m) x = Ok (mount_path q) /\ mount_mode q = mount_mode m.
Proof.
  revert rms. induction ms as [|m ms IH]; cbn [mapR]; intros rms H Hq; [injection H as <-; by apply elem_of_nil in Hq|].
  destruct (resolve_mount x m) as [q'|] eqn:Hm; [|done]. destruct (mapR _ ms) as [l|] eqn:Hl; [|done].
  injection H as <-. apply elem_of_cons in Hq as [->|Hq].
  - exists m. split; [by left|]. unfold resolve_mount in Hm.
    destruct (resolve_symlinks (mount_path m) x); [|done]. by injection Hm as <-.
  - destruct (IH _ eq_refl Hq) as (m' & ? & ?). exists m'. split; [by right|done].
Qed.

(** Inside the mounts twice: as written, and where it really leads. *)
Definition inside (ms : list Mount) (x : X) (mode : FsMode) (path real : string) : Prop :=
  exists lex m q, normalize_path path = Ok lex /\ fs_check ms lex mode = Ok tt /\
    resolve_symlinks lex x = Ok real /\ m ∈ ms /\ mode_le mode (mount_mode m) = true /\
    resolve_symlinks (mount_path m) x = Ok q /\ path_starts_with real q = true.
Lemma resolve_inside ms path mode x r : resolve ms path mode x = Ok r -> inside ms x mode path (resolved r).
Proof.
  intros (Hn & Hc & Hr & rms & Hms & (q & Hq & Hpre & Hle)%fs_check_mount)%fs_resolve_inv.
  destruct (resolve_mounts_elem _ _ _ _ Hms Hq) as (m & Hm & Hreal & Heq).
  exists (lexical r), m, (mount_path q). rewrite Heq in Hle. naive_solver.
Qed.

(** C15: the native host reads and writes only inside the mounts of the policy.
    What a successful read returns is the content of a file that the policy's mounts cover, with
    a sufficient mode, both as the path is written and where its symbolic links really lead; a
    write either changes nothing and fails, or is one write to such a file under a read-write
    mount. *)
Theorem native_files_confined ms path bytes x :
  (forall content, (native_read_file ms path x).2 = Ok content ->
     exists real, inside ms x Ro path real /\ os_read real x = Ok content) /\
  (let '(x', r) := native_write_file ms path bytes x in
   (x' = x /\ exists e, r = Err e) \/
   exists real w, inside ms x Rw path real /\ os_write real bytes x = (x', w) /\ r = map_err (map_io path) w).
Proof.
  split.
  - intros content (r & Hr & Hread)%result_bind_Ok. exists (resolved r).
    split; [by apply resolve_inside|]. by destruct (os_read (resolved r) x); [injection Hread as ->|].
  - unfold native_write_file. destruct (resolve ms path Rw x) as [r|e] eqn:Hr; [|by left; split; [|exists e]].
    destruct (os_write (resolved r) bytes x) as [x' w] eqn:Hw. right. exists (resolved r), w.
    split; [by apply resolve_inside|done].
Qed.

(** A link that leads out of the mounts is refused and nothing is touched. *)
Lemma escaping_link_refused ms path bytes x lex real rms :
  normalize_path path = Ok lex -> resolve_symlinks lex x = Ok real ->
  mapR (resolve_mount x) ms = Ok rms -> is_ok (fs_check rms real Rw) = false ->
  native_write_file ms path bytes x = (x, Err (HostDenied (PathDenied path Rw))).
Proof.
  intros Hn Hr Hms Hf. unfold native_write_file, resolve.
  assert (Ha : is_absolute path = true) by (unfold normalize_path in Hn; by destruct (is_absolute path)).
  rewrite Ha, normalize_agrees, Hn by done. cbn -[fs_check resolve_symlinks].
  destruct (fs_check ms lex Rw); [|done]. cbn -[fs_check resolve_symlinks].
  rewrite Hr. cbn -[fs_check]. rewrite Hms. cbn -[fs_check]. by destruct (fs_check rms real Rw).
Qed.
End facts.

(** * A toy filesystem *)

(** [/work] is the user's directory; [/work/out] leads to [/outside], where [/outside/back] leads
    into [/work] again.  The state records the calls that change something. *)
Definition wit_canonicalize (p : string) : result IoError string :=
  if bool_decide (p ∈ ["/"; "/work"; "/work/notes"; "/outside"]) then Ok p
  else if decide (p = "/work/out") then Ok "/outside"
  else if bool_decide (p ∈ ["/work/out/back"; "/outside/back"]) then Ok "/work/notes"
  else Err (IoNotFound "no such file").
Definition wit_os : OsFs (list string) := {|
  os_canonicalize p _ := wit_canonicalize p;
  os_is_symlink p _ := false;
  os_read_link p _ := Err (IoOther "not a link");
  os_metadata p _ := Err (IoNotFound "no such file");
  os_symlink_is_dir p _ := Ok false;
  os_read_dir p _ := Ok [];
  os_read p _ := Ok ("content of " +:+ p);
  os_write p bytes x := (("write " +:+ p) :: x, Ok tt);
  os_remove_dir p x := (("rmdir " +:+ p) :: x, Ok tt);
  os_remove_file p x := (("unlink " +:+ p) :: x, Ok tt)
|}.
Definition wit_mounts : list Mount := [{| mount_path := "/work"; mount_mode := Rw |}].

Example new_file_is_written :
  @native_write_file _ wit_os wit_mounts "/work/a/../b" "" [] = ([], Err (HostDenied (PathDenied "/work/a/../b" Rw))) /\
  @native_write_file _ wit_os wit_mounts "/work/new/b" "" [] = (["write /work/new/b"], Ok tt) /\
  @native_write_file _ wit_os wit_mounts "/work/out/b" "" [] = ([], Err (HostDenied (PathDenied "/work/out/b" Rw))).
Proof. by vm_compute. Qed.

(** Only the place a path leads to in the end is checked, but a removal acts on the path as it is
    written: a link that lies outside every mount, reached through a link inside one, is removed
    when it leads back into a mount. *)
Lemma remove_may_leave_the_mounts :
  @native_remove _ wit_os wit_mounts "/work/out/back" [] = (["unlink /work/out/back"], Ok tt) /\
  wit_canonicalize "/work/out" = Ok "/outside" /\
  is_ok (fs_check wit_mounts "/outside/back" Rw) = false.
Proof. by vm_compute. Qed.
