(* ===== verification/NativeHost.v ===== *)
(** The native host ([crates/host/src/native/mod.rs], [net.rs], [process.rs], [secrets.rs],
    [prompt.rs], [endpoint.rs]) and its stub for remote clients ([remote_client.rs]): programs,
    the network behind an allowlist, secrets as handles, questions to the user.  [reqwest] and the
    spawning of processes are interfaces. *)

From S2P Require Import Prelude Ord Str Utf8 Capability Paths Sandbox Json Redact Data Outside Wire OpenAi Host NativeFs.

Open Scope string_scope.
Open Scope list_scope.

(** * Secrets *)

(** [EnvSecretSource] and [MapSecretSource]: a snapshot of names and values. *)
Record SecretSource : Type := { src_kind : string; src_values : list (string * string) }.
Definition env_from_snapshot (snapshot : list (string * string)) : SecretSource :=
  {| src_kind := "env"; src_values := omap_of_list snapshot |}.
(** The process environment; a variable that is not UTF-8 is skipped. *)
Definition env_from_env (vars : list (string * string)) : SecretSource :=
  env_from_snapshot (List.filter (fun kv => utf8_valid kv.1 && utf8_valid kv.2) vars).
Definition map_source (pairs : list (string * string)) : SecretSource :=
  {| src_kind := "map"; src_values := omap_of_list pairs |}.
Definition src_contains (s : SecretSource) (name : string) : bool := bool_decide (is_Some (omap_get name (src_values s))).
Definition src_get (s : SecretSource) (name : string) : option string := omap_get name (src_values s).

(** [NativeHost::secret]. *)
Definition native_secret (s : SecretSource) (name : string) : result HostError SecretHandle :=
  if src_contains s name then Ok {| sh_name := name; sh_locator := Some (src_kind s +:+ ":" +:+ name) |}
  else Err (UnknownSecret name).

(** The redactor the process shares. *)
Class SharedRedactor (X : Type) : Type := { get_redactor : X -> Redactor; set_redactor : Redactor -> X -> X }.
Class SharedRedactorLaws (X : Type) `{SharedRedactor X} : Prop := {
  get_set_redactor r x : get_redactor (set_redactor r x) = r
}.
(** [NativeHost::resolve_secret]. *)
Definition native_resolve_secret {X} `{SharedRedactor X} (s : SecretSource) (handle : SecretHandle) (x : X)
    : X * result HostError string :=
  match src_get s (sh_name handle) with
  | None => (x, Err (UnknownSecret (sh_name handle)))
  | Some value => (set_redactor (fst (register_named_secret (sh_name handle) value (get_redactor x))) x, Ok value)
  end.

(** * Endpoints *)

(** [endpoint_env_var]; a dash is one byte, so replacing it is byte by byte. *)
Definition endpoint_env_var (endpoint : string) : string :=
  "GRIST_ENDPOINT_" +:+ map_bytes (fun a => if decide (a = "-"%char) then "_"%char else a) (to_ascii_uppercase endpoint) +:+
  "_URL".
Definition endpoint_url_from_lookup (endpoint : string) (lookup : string -> option string) : result HostError string :=
  let var := endpoint_env_var endpoint in
  match lookup var with
  | Some v =>
      if decide (trim v = "")
      then Err (HostNotFound ("environment variable `" +:+ var +:+ "` (endpoint `" +:+ endpoint +:+ "`) is empty"))
      else Ok (trim v)
  | None => Err (HostNotFound ("environment variable `" +:+ var +:+ "` (endpoint `" +:+ endpoint +:+ "`) is not set"))
  end.

(** * The network *)

Record NetConfig : Type := { nc_ca_bundle : option string; nc_system_proxy : bool; nc_connect_timeout : N }.
Definition default_net_config : NetConfig :=
  {| nc_ca_bundle := None; nc_system_proxy := true; nc_connect_timeout := secs 30 |}.
(** [NetConfig::from_env]: the first of the two variables that is set and not empty. *)
Definition net_config_from_env (var : string -> option string) : NetConfig :=
  {| nc_ca_bundle := List.find (fun p => bool_decide (p <> "")) (omap var ["GRIST_CA_BUNDLE"; "SSL_CERT_FILE"]);
     nc_system_proxy := nc_system_proxy default_net_config; nc_connect_timeout := nc_connect_timeout default_net_config |}.

(** What is used of [reqwest]: reading URLs and certificates, building a client, sending; with the cell
    that keeps the client, or the failure, of the first use. *)
Record Url : Type := { url_host : option string; url_port : option N; url_port_or_known_default : option N }.
Class Reqwest (X : Type) : Type := {
  Client : Type;
  parse_url : string -> result string Url;
  read_bundle : string -> X -> result string string;
  from_pem_bundle : string -> result string (list string);
  client_build : NetConfig -> list string -> result string Client;
  client_cell : X -> option (result string Client);
  set_client_cell : result string Client -> X -> X;
  client_send : Client -> HttpRequest -> X -> X * (nat * option (result string HttpResponse))
}.

Section net.
Context {X : Type} {HR : Reqwest X}.

Definition build_client (cfg : NetConfig) (x : X) : result string Client :=
  certs ← match nc_ca_bundle cfg with
          | None => Ok []
          | Some path =>
              pem ← map_err (fun e => "cannot read CA bundle `" +:+ path +:+ "`: " +:+ e) (read_bundle path x);
              map_err (fun e => "cannot parse CA bundle `" +:+ path +:+ "`: " +:+ e) (from_pem_bundle pem)
          end;
  map_err (fun e => "cannot build http client: " +:+ e) (client_build cfg certs).

(** [NativeNet::send].  Response headers and chunks are taken as [reqwest] gives them. *)
Definition native_send (client : Client) (allow : NetAllow) (req : HttpRequest) (x : X)
    : X * (nat * option (result HostError HttpResponse)) :=
  let refused e := (x, (0, Some (Err e))) in
  match parse_url (hq_url req) with
  | Err e => refused (HostNet ("invalid url `" +:+ hq_url req +:+ "`: " +:+ e))
  | Ok url =>
      match net_normalize_host <$> url_host url with
      | None => refused (HostNet ("url `" +:+ hq_url req +:+ "` has no host"))
      | Some host =>
          if negb (host_allowed allow host (url_port_or_known_default url))
          then refused (HostDenied (NetDenied match url_port url with
                                              | Some p => host +:+ ":" +:+ show_u64 p
                                              | None => host
                                              end))
          else let '(x, (n, r)) := client_send client req x in (x, (n, map_err HostNet <$> r))
      end
  end.

(** [NativeHost::network]. *)
Definition native_network (cfg : NetConfig) (policy : NetPolicy) (x : X) : X * result HostError (NetHandle X) :=
  if negb (net_enabled policy) then (x, Err (HostDenied (NetDenied "*")))
  else
    let '(x, client) := match client_cell x with
                        | Some c => (x, c)
                        | None => let c := build_client cfg x in (set_client_cell c x, c)
                        end in
    (x, c ← map_err HostNet client; Ok {| send := native_send c (net_allow policy) |}).
End net.

(** * Processes *)

(** What the operating system makes of a program that is started with exactly this environment. *)
Class OsSpawn (X : Type) : Type := { os_spawn : Command -> X -> X * result IoError (ChildProcess X) }.
(** [native::process::spawn]. *)
Definition native_spawn {X} `{OsSpawn X} (policy : ProcPolicy) (cmd : Command) (x : X)
    : X * result HostError (ChildProcess X) :=
  match check_program (pp_programs policy) (cmd_program cmd) with
  | Err e => (x, Err (HostDenied e))
  | Ok _ =>
      match os_spawn cmd x with
      | (x, Ok child) => (x, Ok child)
      | (x, Err (IoNotFound _)) => (x, Err (HostNotFound ("program `" +:+ cmd_program cmd +:+ "`")))
      | (x, Err (IoOther m)) => (x, Err (HostIo ("spawn `" +:+ cmd_program cmd +:+ "`: " +:+ m)))
      end
  end.

(** * Questions to the user *)

(** [NoUserPrompter] and [ChannelPrompter]: a question goes over a channel and its answer comes
    back over one of its own, unless the client is gone or drops it. *)
Inductive Reply : Type :=
  | Disconnected
  | Dropped
  | Replied (answer : option string).
Definition no_user_ask (req : AskUserRequest) : result HostError UserAnswer :=
  Err (NoUser ("no user is attached to this host (question `" +:+ aq_question_id req +:+ "`)")).
Definition channel_ask (req : AskUserRequest) (reply : Reply) : result HostError UserAnswer :=
  match reply with
  | Disconnected => Err (NoUser "the client is disconnected")
  | Dropped => Err (NoUser ("the client dropped question `" +:+ aq_question_id req +:+ "` without answering"))
  | Replied answer => Ok {| ua_question_id := aq_question_id req; ua_answer := answer |}
  end.
(** The capacity of the channel. *)
Definition channel_capacity (capacity : nat) : nat := Nat.max capacity 1.

(** * The host *)

Section host.
Context {X : Type} {HO : OsFs X} {HR : Reqwest X} {HP : OsSpawn X}.
Variables (secrets : SecretSource) (net : NetConfig) (prompter : AskUserRequest -> X -> X * Call (result HostError UserAnswer)).

Definition native_host : Host X := {|
  host_name := "native";
  read_file := native_read_file;
  write_file := native_write_file;
  list_dir := native_list_dir;
  stat := native_stat;
  remove := native_remove;
  spawn := native_spawn;
  network := native_network net;
  secret name x := (x, native_secret secrets name);
  ask_user := prompter
|}.
End host.

(** [RemoteClientHost]: nothing is implemented yet. *)
Definition NOT_IMPLEMENTED : string := "remote-client host is not implemented until P3".
Definition unimplemented {X A} (x : X) : X * result HostError A := (x, Err (HostIo NOT_IMPLEMENTED)).
Definition remote_client_host {X} : Host X := {|
  host_name := "remote-client";
  read_file _ _ := unimplemented;
  write_file _ _ _ := unimplemented;
  list_dir _ _ := unimplemented;
  stat _ _ := unimplemented;
  remove _ _ := unimplemented;
  spawn _ _ := unimplemented;
  network _ := unimplemented;
  secret _ := unimplemented;
  ask_user _ x := (x, {| call_pending := 0; call_end := Some (Err (HostIo NOT_IMPLEMENTED)) |})
|}.

(** * Facts *)

(** ** The network *)

Section net_facts.
Context {X : Type} {HR : Reqwest X}.

Lemma native_send_spec client allow req x :
  let '(x', (n, r)) := native_send client allow req x in
  (x' = x /\ exists e, r = Some (Err e)) \/
  exists url host, parse_url (hq_url req) = Ok url /\ url_host url = Some host /\
    host_allowed allow (net_normalize_host host) (url_port_or_known_default url) = true /\
    exists r', client_send client req x = (x', (n, r')) /\ r = map_err HostNet <$> r'.
Proof.
  unfold native_send. destruct (parse_url (hq_url req)) as [url|e]; [|by left; eauto].
  destruct (url_host url) as [host|] eqn:Hh; [|by left; eauto]. cbn [fmap option_fmap option_map].
  destruct (host_allowed allow (net_normalize_host host) _) eqn:Ha; cbn [negb]; [|by left; eauto].
  destruct (client_send client req x) as [x' [n r]]. right. exists url, host. split_and!; eauto.
Qed.

(** The atoms a request to a host and a port needs one of. *)
Definition destination (h : string) (port : option N) : list string :=
  h :: match port with Some p => [h +:+ ":" +:+ show_N p] | None => [] end.
Lemma host_allowed_granted caps grants limits pol h port :
  derive_policy_with caps grants limits = Ok pol -> net_enabled (net pol) = true ->
  host_allowed (net_allow (net pol)) h port = true ->
  granted caps grants (Net Any) \/
  exists d, d ∈ destination (net_normalize_host h) port /\ granted caps grants (Net (Hosts [d])).
Proof.
  intros Hd He. unfold host_allowed. destruct (net_allow (net pol)) as [|hs] eqn:Ha.
  { intros _. left. by eapply derived_any_granted. }
  intros [Hin|Hin]%orb_true_iff; right.
  - apply bool_decide_eq_true in Hin. exists (net_normalize_host h). split; [left|].
    by eapply derived_hosts_granted.
  - destruct port as [p|]; [|done]. apply bool_decide_eq_true in Hin. eexists. split; [right; left|].
    by eapply derived_hosts_granted.
Qed.

(** under a policy derived from the grants of a tool the native host
    sends only requests the grants allow.  A disabled network gives no handle at all; through the
    handle, a request is either refused with nothing sent, or its URL names a host that a
    requested and granted atom lets the tool reach, bare or with the port. *)
Theorem requests_stay_within_grants caps grants limits pol cfg x :
  derive_policy_with caps grants limits = Ok pol ->
  match native_network cfg (net pol) x with
  | (x', Err e) => net_enabled (net pol) = false -> x' = x /\ e = HostDenied (NetDenied "*")
  | (_, Ok handle) =>
      lim_network limits = true /\
      forall req y, let '(y', (n, r)) := @send X handle req y in
        (y' = y /\ exists e, r = Some (Err e)) \/
        exists client url host, parse_url (hq_url req) = Ok url /\ url_host url = Some host /\
          (exists r', client_send client req y = (y', (n, r')) /\ r = map_err HostNet <$> r') /\
          (granted caps grants (Net Any) \/
           exists d, d ∈ destination (net_normalize_host (net_normalize_host host)) (url_port_or_known_default url) /\
             granted caps grants (Net (Hosts [d])))
  end.
Proof.
  intros Hd. unfold native_network. destruct (net_enabled (net pol)) eqn:He; cbn [negb]; [|done].
  destruct (match client_cell x with Some c => (x, c) | None => _ end) as [x' [client|e]]; [|done]. cbn.
  split.
  { pose proof Hd as (acc & _ & _ & _ & _ & _ & Hn & _)%derive_inv. rewrite Hn in He.
    destruct (lim_network limits); [done|]. by cbn in He. }
  intros req y. pose proof (native_send_spec client (net_allow (net pol)) req y) as Hs.
  destruct (native_send client _ req y) as [y' [n r]]. destruct Hs as [Hs|(url & host & Hu & Hh & Ha & Hr)]; [by left|].
  right. exists client, url, host. do 3 (split; [done|]). by eapply host_allowed_granted.
Qed.
End net_facts.

(** ** Secrets *)

(** a secret value never leaves the host before the redactor knows
    it: a handle resolves exactly when the source has its name, and then the value, unless it is
    too short to be replaced safely, is among the values the shared redactor replaces; nothing
    that was registered before is forgotten. *)
Theorem resolved_secrets_are_registered {X} {HS : SharedRedactor X} {HL : SharedRedactorLaws X} s handle x x' r :
  native_resolve_secret s handle x = (x', r) ->
  match src_get s (sh_name handle) with
  | None => x' = x /\ r = Err (UnknownSecret (sh_name handle))
  | Some v =>
      r = Ok v /\ ((MIN_SECRET_LEN <= String.length v)%nat -> v ∈ known (get_redactor x')) /\
      ((String.length v < MIN_SECRET_LEN)%nat -> sh_name handle ∈ short (get_redactor x')) /\
      forall k, k ∈ known (get_redactor x) -> k ∈ known (get_redactor x')
  end.
Proof.
  unfold native_resolve_secret. destruct (src_get s (sh_name handle)) as [v|]; [|by intros [= <- <-]].
  intros [= <- <-]. rewrite get_set_redactor. split; [done|]. apply register_named_secret_adds.
Qed.
