(* ===== verification/NativeChild.v ===== *)
(** A child of the native host ([crates/host/src/native/process.rs]): waiting for it up to its
    deadline, ending it by SIGTERM and then SIGKILL, and its output.  The operating system
    is an interface; a wait with a limit gives nothing when the limit passes first, and a wait
    without one gives nothing if the child never exits. *)

From S2P Require Import Prelude Ord Str Capability Sandbox Json Data Outside Wire OpenAi Host.

Open Scope string_scope.
Open Scope list_scope.

Definition TIMEOUT_GRACE : N := secs 1.
Definition READER_DRAIN : N := secs 2.

Inductive Signal : Type := SIGTERM | SIGKILL.
#[export] Instance Signal_eq_dec : EqDecision Signal.
Proof. solve_decision. Defined.
(** [nix::errno::Errno], as far as [send_signal] tells errors apart. *)
Inductive Errno : Type := ESRCH | OtherErrno (m : string).
Record ExitStatus : Type := { es_code : option Z; es_signal : option Z }.
Inductive Pipe : Type := Stdout | Stderr.

(** What the system does for one child.  [os_wait_within] counts from now; [os_reads] are the reads of
    a pipe that return before the limit passes. *)
Class ChildOs (X : Type) : Type := {
  os_kill : N -> Signal -> X -> X * result Errno unit;
  os_wait_until : N -> X -> X * option (result string ExitStatus);
  os_wait_within : N -> X -> X * option (result string ExitStatus);
  os_wait : X -> X * option (result string ExitStatus);
  os_reads : Pipe -> N -> X -> X * list (result string string);
  os_exit_announced : N -> X -> X * bool;
  os_now : X -> N
}.

(** [NativeChild]: [nc_exited] is the [watch] channel, [nc_done] the state, the output once it was
    collected. *)
Record NativeChild : Type := {
  nc_pid : option N;
  nc_timeout : N;
  nc_started : N;
  nc_exited : bool;
  nc_done : option ProcessOutput
}.
Definition child_new (pid : option N) (policy : ProcPolicy) (started : N) : NativeChild :=
  {| nc_pid := pid; nc_timeout := pp_timeout policy; nc_started := started; nc_exited := false; nc_done := None |}.

(** The task of [Reader::spawn]: it ends at the end of the pipe or at an error. *)
Fixpoint reader_loop (buf : string) (reads : list (result string string)) : string :=
  match reads with
  | Ok (String _ _ as chunk) :: reads => reader_loop (buf +:+ chunk) reads
  | Ok EmptyString :: _ | Err _ :: _ | [] => buf
  end.

Section child.
Context {X : Type} {HO : ChildOs X}.
Context (show_kill_error : N -> Signal -> string -> string).

Definition send_signal (pid : N) (sig : Signal) (x : X) : X * result HostError unit :=
  match os_kill pid sig x with
  | (x, Ok _) | (x, Err ESRCH) => (x, Ok tt)
  | (x, Err (OtherErrno e)) => (x, Err (HostIo (show_kill_error pid sig e)))
  end.
Definition signal_child (c : NativeChild) (sig : Signal) (x : X) : X * result HostError unit :=
  match nc_pid c with Some pid => send_signal pid sig x | None => (x, Ok tt) end.
Definition wait_error (r : result string ExitStatus) : result HostError ExitStatus :=
  map_err (fun e => HostIo ("wait: " +:+ e)) r.

(** [escalate]; [None] is a wait that never returns. *)
Definition escalate (c : NativeChild) (grace : N) (x : X) : X * option (result HostError ExitStatus) :=
  match signal_child c SIGTERM x with
  | (x, Err e) => (x, Some (Err e))
  | (x, Ok _) =>
      match os_wait_within grace x with
      | (x, Some r) => (x, Some (wait_error r))
      | (x, None) =>
          match signal_child c SIGKILL x with
          | (x, Err e) => (x, Some (Err e))
          | (x, Ok _) => let '(x, r) := os_wait x in (x, wait_error <$> r)
          end
      end
  end.
(** [collect], up to the exit status: whether the deadline passed, and the status. *)
Definition exit_status (c : NativeChild) (x : X) : X * option (bool * result HostError ExitStatus) :=
  match os_wait_until (nc_started c + nc_timeout c) x with
  | (x, Some r) => (x, Some (false, wait_error r))
  | (x, None) => let '(x, r) := escalate c TIMEOUT_GRACE x in (x, pair true <$> r)
  end.
Definition set_exited (c : NativeChild) : NativeChild :=
  {| nc_pid := nc_pid c; nc_timeout := nc_timeout c; nc_started := nc_started c; nc_exited := true; nc_done := nc_done c |}.
Definition set_done (out : ProcessOutput) (c : NativeChild) : NativeChild :=
  {| nc_pid := nc_pid c; nc_timeout := nc_timeout c; nc_started := nc_started c; nc_exited := nc_exited c; nc_done := Some out |}.
(** [Reader::finish]: after two seconds what was read so far is taken. *)
Definition finish (p : Pipe) (x : X) : X * string := let '(x, reads) := os_reads p READER_DRAIN x in (x, reader_loop "" reads).
(** The rest of [collect]: the exit is announced, the readers are given a while, the output put
    together. *)
Definition output_of (c : NativeChild) (timed_out : bool) (status : ExitStatus) (x : X) : X * ProcessOutput :=
  let '(x, stdout) := finish Stdout x in
  let '(x, stderr) := finish Stderr x in
  (x, {| out_exit_code := es_code status; out_signal := es_signal status; out_stdout := stdout; out_stderr := stderr;
         out_timed_out := timed_out; out_duration := os_now x - nc_started c |}).
(** [ChildProcess::wait]. *)
Definition wait (c : NativeChild) (x : X) : NativeChild * X * option (result HostError ProcessOutput) :=
  match nc_done c with
  | Some out => (c, x, Some (Ok out))
  | None =>
      match exit_status c x with
      | (x, None) => (c, x, None)
      | (x, Some (_, Err e)) => (c, x, Some (Err e))
      | (x, Some (timed_out, Ok status)) =>
          let '(x, out) := output_of c timed_out status x in
          (set_done out (set_exited c), x, Some (Ok out))
      end
  end.
(** [ChildProcess::terminate]; a concurrent [wait] may announce the exit within the grace. *)
Definition terminate (c : NativeChild) (grace : N) (x : X) : X * result HostError unit :=
  match nc_pid c with
  | None => (x, Ok tt)
  | Some pid =>
      if nc_exited c then (x, Ok tt)
      else match send_signal pid SIGTERM x with
           | (x, Err e) => (x, Err e)
           | (x, Ok _) =>
               match os_exit_announced grace x with
               | (x, true) => (x, Ok tt)
               | (x, false) => send_signal pid SIGKILL x
               end
           end
  end.

(** * Properties *)

(** A second call returns the same output, and asks the system nothing. *)
Lemma wait_again c x c' x' out : wait c x = (c', x', Some (Ok out)) -> forall y, wait c' y = (c', y, Some (Ok out)).
Proof.
  unfold wait. destruct (nc_done c) as [out0|] eqn:Hd.
  - intros [= <- <- <-] y. by rewrite Hd.
  - destruct (exit_status c x) as [x1 [[t [status|e]]|]]; [|done|done].
    destruct (output_of c t status x1) as [x2 out2]. intros [= <- <- <-] y. done.
Qed.
(** Once an output was collected the child is known to be gone, and [terminate] signals nobody. *)
Definition announced (c : NativeChild) : Prop := is_Some (nc_done c) -> nc_exited c = true.
Lemma wait_announces c x c' x' r : announced c -> wait c x = (c', x', r) -> announced c'.
Proof.
  unfold wait, announced. destruct (nc_done c) as [out0|] eqn:Hd; intros Ha.
  - intros [= <- _ _]. by rewrite Hd.
  - destruct (exit_status c x) as [x1 [[t [status|e]]|]]; [|intros [= <- _ _]; by rewrite Hd..].
    destruct (output_of c t status x1) as [x2 out2]. by intros [= <- _ _].
Qed.
Lemma terminate_after_exit c grace x : nc_exited c = true -> terminate c grace x = (x, Ok tt).
Proof. unfold terminate. intros ->. by destruct (nc_pid c). Qed.
(** [timed_out] tells whether the deadline of the policy passed before the child exited. *)
Lemma timed_out_tells_of_the_deadline c x c' x' out :
  nc_done c = None -> wait c x = (c', x', Some (Ok out)) ->
  out_timed_out out = true <-> (os_wait_until (nc_started c + nc_timeout c) x).2 = None.
Proof.
  unfold wait. intros ->. unfold exit_status. destruct (os_wait_until _ x) as [x1 [r|]]; cbn.
  - destruct (wait_error r) as [status|e]; [|done]. unfold output_of.
    destruct (finish Stdout _) as [x2 so]. destruct (finish Stderr _) as [x3 se].
    intros [= <- <- <-]. done.
  - destruct (escalate c _ x1) as [x2 [[status|e]|]]; cbn; [|done|done]. unfold output_of.
    destruct (finish Stdout _) as [x3 so]. destruct (finish Stderr _) as [x4 se].
    intros [= <- <- <-]. done.
Qed.
(** A child that was sent SIGKILL exits, as the system documents; then every [wait] returns. *)
Lemma wait_returns c x : is_Some (nc_pid c) ->
  (forall pid (x x' : X), os_kill pid SIGKILL x = (x', Ok tt) \/ os_kill pid SIGKILL x = (x', Err ESRCH) -> is_Some (os_wait x').2) ->
  is_Some (wait c x).2.
Proof.
  intros [pid Hpid] Hkill. unfold wait. destruct (nc_done c); [by eexists|].
  assert (H : is_Some (exit_status c x).2).
  { unfold exit_status. destruct (os_wait_until _ x) as [x1 [r|]]; [by eexists|]. unfold escalate, signal_child. rewrite Hpid.
    destruct (send_signal pid SIGTERM x1) as [x2 [u|e]]; [|by eexists].
    destruct (os_wait_within _ x2) as [x3 [r|]]; [by eexists|]. unfold send_signal.
    pose proof (Hkill pid x3) as Hk. destruct (os_kill pid SIGKILL x3) as [x4 [[]|[|e]]]; [| |by eexists];
      (destruct (Hk x4) as [r Hr]; [auto|]); destruct (os_wait x4) as [x5 r5]; cbn in Hr; subst r5; by eexists. }
  destruct (exit_status c x) as [x1 o]. destruct H as [[t [status|e]] Ho]; cbn in Ho; subst o; [|by eexists].
  destruct (output_of c t status x1) as [x2 out]. by eexists.
Qed.
End child.
