(* ===== verification/BaseTools.v ===== *)
(** The six base tools ([crates/sandbox/src/tools]): [read], [write] and [edit] through the host,
    [bash] and [run_script] through the sandbox backend, [python] through a session process. *)

From S2P Require Import Prelude Ord Str Utf8 Capability Paths Sandbox Json Strict Codec Redact Data Outside Wire OpenAi.
From S2P Require Import Host Launch RpcSession NativeFs.

Open Scope string_scope.
Open Scope list_scope.

(** * Paths of the tools *)

(** [lexical_normalize]; [..] at the root stays there. *)
Fixpoint collapse (out : string) (cs : list component) : string :=
  match cs with
  | [] => out
  | RootDir :: cs => collapse "/" cs
  | CurDir :: cs => collapse out cs
  | ParentDir :: cs => collapse (default out (path_parent out)) cs
  | Normal seg :: cs => collapse (path_join out seg) cs
  end.
Definition lexical_normalize (path : string) : string :=
  let out := collapse "" (path_components path) in if decide (out = "") then "/" else out.
(** A relative directory is resolved against the one of the process, if that is known. *)
Definition normalize_workdir (current_dir : option string) (workdir : string) : string :=
  lexical_normalize (if is_absolute workdir then workdir
                     else match current_dir with Some cwd => path_join cwd workdir | None => workdir end).
Definition resolve_path (workdir input : string) : string :=
  lexical_normalize (if is_absolute input then input else path_join workdir input).

(** * Inputs *)

Definition require_str (input : json) (key : string) : result ToolError string :=
  match jget key input with
  | Some (JStr s) => Ok s
  | Some _ => Err (InvalidInput ("`" +:+ key +:+ "` must be a string"))
  | None => Err (InvalidInput ("`" +:+ key +:+ "` is required"))
  end.
Definition opt_str (input : json) (key : string) : result ToolError (option string) :=
  match jget key input with
  | None | Some JNull => Ok None
  | Some (JStr s) => Ok (Some s)
  | Some _ => Err (InvalidInput ("`" +:+ key +:+ "` must be a string"))
  end.
Definition opt_u64 (input : json) (key : string) : result ToolError (option N) :=
  match jget key input with
  | None | Some JNull => Ok None
  | Some v => match as_u64 v with
              | Some n => Ok (Some n)
              | None => Err (InvalidInput ("`" +:+ key +:+ "` must be a non-negative integer"))
              end
  end.
Definition opt_bool (input : json) (key : string) : result ToolError (option bool) :=
  match jget key input with
  | None | Some JNull => Ok None
  | Some (JBool b) => Ok (Some b)
  | Some _ => Err (InvalidInput ("`" +:+ key +:+ "` must be a boolean"))
  end.
Definition opt_str_list (input : json) (key : string) : result ToolError (list string) :=
  let wrong := InvalidInput ("`" +:+ key +:+ "` must be an array of strings") in
  match jget key input with
  | None | Some JNull => Ok []
  | Some (JArr items) => mapR (fun v => ok_or wrong (as_str v)) items
  | Some _ => Err wrong
  end.

(** * Errors and outputs *)

Definition host_err (e : HostError) : ToolError :=
  match e with
  | HostDenied p => Denied (show_policy_error p)
  | HostCancelled => ToolCancelled
  | HostNotFound p => ToolFailed ("not found: " +:+ p)
  | other => ToolFailed (show_host_error other)
  end.
Definition sandbox_err (e : SandboxError) : ToolError :=
  match e with
  | SandboxTimeout d => ToolTimeout d
  | SandboxCancelled => ToolCancelled
  | Launch m => if contains "program not permitted" m then Denied m else ToolFailed (show_sandbox_error e)
  | other => ToolFailed (show_sandbox_error other)
  end.

(** [Duration::as_millis() as u64]. *)
Definition as_millis (d : N) : N := ((d / 1000000) mod 2 ^ 64)%N.
Definition opt_int (o : option Z) : json := match o with Some z => value_of_int z | None => JNull end.
Definition output_json (out : ProcessOutput) : json :=
  jobj [("exit_code", opt_int (out_exit_code out)); ("signal", opt_int (out_signal out));
        ("stdout", JStr (from_utf8_lossy (out_stdout out))); ("stderr", JStr (from_utf8_lossy (out_stderr out)));
        ("timed_out", JBool (out_timed_out out)); ("duration_ms", JNum (PosInt (as_millis (out_duration out))))].

(** [JSON Schema] of a property and of an input. *)
Definition property (ty description : string) (more : list (string * json)) : json :=
  jobj ([("type", JStr ty); ("description", JStr description)] ++ more).
Definition input_schema (properties : list (string * json)) (required : list string) : json :=
  jobj [("type", JStr "object"); ("properties", jobj properties); ("required", JArr (JStr <$> required));
        ("additionalProperties", JBool false)].
Definition at_least_one : list (string * json) := [("minimum", JNum (PosInt 1))].
Definition path_property : json := property "string" "File path; relative paths resolve against the working directory." [].

(** * What the tools hold *)

(** The half of [SandboxBackend] the tools use. *)
Record Launcher (X : Type) : Type := {
  launcher_name : string;
  launch_stateless : SandboxPolicy -> Command -> X -> X * Call (result SandboxError ProcessOutput)
}.
Arguments launcher_name {X} _.
Arguments launch_stateless {X} _ _ _ _.

(** An invocation that ends with its first poll, and one that waits for a call. *)
Definition invoked_at_once (r : result ToolError ToolResult) : Invocation :=
  {| inv_pending := []; inv_last := []; inv_end := Some r |}.
Definition invoked_after {A} (c : Call A) (f : A -> result ToolError ToolResult) : Invocation :=
  {| inv_pending := replicate (call_pending c) []; inv_last := []; inv_end := f <$> call_end c |}.

Section tools.
Context {X : Type}.
Implicit Types (ctx : ToolContext X) (input : json) (x : X) (workdir : string).

(** * [read] *)

Definition DEFAULT_LIMIT : N := 2000.
(** [str::lines]: a line ends with a newline, or a carriage return and a newline. *)
Definition strip_cr (line : string) : string :=
  match rsplit_once "013"%char line with Some (l, "") => l | _ => line end.
Fixpoint lines_of (pieces : list string) : list string :=
  match pieces with
  | [] => []
  | [last] => if decide (last = "") then [] else [last]
  | line :: pieces => strip_cr line :: lines_of pieces
  end.
Definition lines (text : string) : list string := lines_of (split_char newline text).

(** [number_lines]: the number right-aligned in six columns. *)
Fixpoint align_right (width : nat) (s : string) : string :=
  match width with
  | O => s
  | S w => if (String.length s <? width)%nat then " " +:+ align_right w s else s
  end.
Fixpoint number_lines (ls : list string) (first : N) : string :=
  match ls with
  | [] => ""
  | line :: ls => align_right 6 (show_u64 first) +:+ String "009" line +:+ String newline "" +:+ number_lines ls (first + 1)
  end.

(** The lines shown of a text: those from [offset] on, at most [limit]; [limit] may be as large as
    a [u64] is, so the end saturates. *)
Definition page (all : list string) (offset limit : N) : list string :=
  let total := N.of_nat (length all) in
  let start := N.min (offset - 1) total in
  let end_ := N.min (N.min u64_max (start + limit)) total in
  take (N.to_nat (end_ - start)) (drop (N.to_nat start) all).
Definition read_text (path text : string) (offset limit : N) : json :=
  let all := lines text in
  let page := page all offset limit in
  jobj [("content", JStr (number_lines page offset)); ("lines", JNum (PosInt (N.of_nat (length all))));
        ("truncated", JBool (length page <? length all)%nat)].

(** The text of a file, as the in-process tools read it. *)
Definition read_utf8 (host : Host X) (ctx : ToolContext X) (path : string) (x : X) : X * result ToolError string :=
  let '(x, bytes) := read_file host (fs (tcx_policy _ ctx)) path x in
  (x, bytes ← map_err host_err bytes;
      if utf8_valid bytes then Ok bytes else Err (ToolFailed (path +:+ " is not valid UTF-8 text"))).

Definition read_args workdir input : result ToolError (string * N * N) :=
  path ← require_str input "path";
  offset ← opt_u64 input "offset";
  let offset := default 1%N offset in
  if (offset =? 0)%N then Err (InvalidInput "`offset` is 1-based; 0 is not a line")
  else
    limit ← opt_u64 input "limit";
    let limit := default DEFAULT_LIMIT limit in
    if (limit =? 0)%N then Err (InvalidInput "`limit` must be at least 1")
    else Ok (resolve_path workdir path, offset, limit).
Definition read_invoke (host : Host X) workdir ctx input x : X * Invocation :=
  match read_args workdir input with
  | Err e => (x, invoked_at_once (Err e))
  | Ok (path, offset, limit) =>
      let '(x, text) := read_utf8 host ctx path x in
      (x, invoked_at_once (text ← text; Ok (RValue (read_text path text offset limit))))
  end.
Definition read_tool (host : Host X) workdir : Tool X := {|
  tool_name := "read";
  tool_description := "Read a text file from the working directory and return it with line numbers. " +:+
    "Use `offset` (1-based line) and `limit` to page through long files.";
  tool_schema := input_schema
    [("path", path_property);
     ("offset", property "integer" "First line to return (1-based). Default 1." at_least_one);
     ("limit", property "integer" "Maximum number of lines to return. Default 2000." at_least_one)] ["path"];
  tool_kind := Stateless;
  tool_capabilities := [Fs workdir Ro];
  tool_session_command := None;
  tool_invoke := read_invoke host workdir
|}.

(** * [write] *)

Definition write_args workdir input : result ToolError (string * string) :=
  path ← require_str input "path";
  content ← require_str input "content";
  Ok (resolve_path workdir path, content).
Definition write_invoke (host : Host X) workdir ctx input x : X * Invocation :=
  match write_args workdir input with
  | Err e => (x, invoked_at_once (Err e))
  | Ok (path, content) =>
      let '(x, w) := write_file host (fs (tcx_policy _ ctx)) path content x in
      (x, invoked_at_once
            (_ ← map_err host_err w; Ok (RValue (jobj [("bytes", JNum (PosInt (N.of_nat (String.length content))))]))))
  end.
Definition write_tool (host : Host X) workdir : Tool X := {|
  tool_name := "write";
  tool_description := "Write a file in the working directory, creating it or replacing its whole content.";
  tool_schema := input_schema
    [("path", path_property); ("content", property "string" "The complete new content of the file." [])]
    ["path"; "content"];
  tool_kind := Stateless;
  tool_capabilities := [Fs workdir Rw];
  tool_session_command := None;
  tool_invoke := write_invoke host workdir
|}.

(** * [edit] *)

(** [str::replacen(old, new, 1)], for a text to look for that is not empty. *)
Fixpoint replace_first (old new text : string) : string :=
  match text with
  | EmptyString => ""
  | String a rest =>
      if starts_with old text then new +:+ str_drop (String.length old) text
      else String a (replace_first old new rest)
  end.
(** What an edit makes of a text, and how many occurrences it replaced. *)
Definition edit_text (path old new : string) (replace_all_ : bool) (text : string) : result ToolError (string * N) :=
  let count := matches_count old text in
  if (count =? 0)%N then Err (InvalidInput ("`old_string` was not found in " +:+ path))
  else if (1 <? count)%N && negb replace_all_ then
    Err (InvalidInput ("`old_string` occurs " +:+ show_u64 count +:+ " times in " +:+ path +:+
      "; add more context to make it unique or set `replace_all`"))
  else if replace_all_ then Ok (replace_all old new text, count)
  else Ok (replace_first old new text, 1%N).
Definition edit_args workdir input : result ToolError (string * string * string * bool) :=
  path ← require_str input "path";
  old ← require_str input "old_string";
  new ← require_str input "new_string";
  all ← opt_bool input "replace_all";
  if decide (old = "") then Err (InvalidInput "`old_string` must not be empty")
  else Ok (resolve_path workdir path, old, new, default false all).
Definition edit_invoke (host : Host X) workdir ctx input x : X * Invocation :=
  match edit_args workdir input with
  | Err e => (x, invoked_at_once (Err e))
  | Ok (path, old, new, all) =>
      let '(x, text) := read_utf8 host ctx path x in
      match text ≫= edit_text path old new all with
      | Err e => (x, invoked_at_once (Err e))
      | Ok (replaced, n) =>
          let '(x, w) := write_file host (fs (tcx_policy _ ctx)) path replaced x in
          (x, invoked_at_once (_ ← map_err host_err w; Ok (RValue (jobj [("replacements", JNum (PosInt n))]))))
      end
  end.
Definition edit_tool (host : Host X) workdir : Tool X := {|
  tool_name := "edit";
  tool_description := "Replace an exact string in a file. `old_string` must match exactly once (include enough " +:+
    "surrounding context to make it unique) unless `replace_all` is true.";
  tool_schema := input_schema
    [("path", path_property);
     ("old_string", property "string" "Exact text to find. Must be non-empty." []);
     ("new_string", property "string" "Replacement text." []);
     ("replace_all", property "boolean" "Replace every occurrence instead of requiring exactly one. Default false." [])]
    ["path"; "old_string"; "new_string"];
  tool_kind := Stateless;
  tool_capabilities := [Fs workdir Rw];
  tool_session_command := None;
  tool_invoke := edit_invoke host workdir
|}.

(** * [bash] *)

Definition opt_dir workdir (cwd : option string) : string := match cwd with Some c => resolve_path workdir c | None => workdir end.
(** The policy of one call: a timeout of its own may only be shorter. *)
Definition lower_timeout (policy : SandboxPolicy) (timeout_secs : option N) : result ToolError SandboxPolicy :=
  match timeout_secs with
  | None => Ok policy
  | Some n =>
      if (n =? 0)%N || (timeout policy <? secs n)%N
      then Err (InvalidInput ("`timeout_secs` must be between 1 and " +:+ show_u64 (timeout policy / 1000000000) +:+
                              " (the sandbox timeout)"))
      else Ok {| mounts := mounts policy; scratch_tmpfs_mb := scratch_tmpfs_mb policy; net := net policy;
                 timeout := secs n; env_allowlist := env_allowlist policy; programs := programs policy |}
  end.
Definition bash_command (cwd : string) (args : list string) : Command :=
  {| cmd_program := "bash"; cmd_args := args; cmd_cwd := Some cwd; cmd_env := []; cmd_stdin := None |}.
Definition bash_args workdir (policy : SandboxPolicy) input : result ToolError (SandboxPolicy * Command) :=
  command ← require_str input "command";
  cwd ← opt_str input "cwd";
  timeout_secs ← opt_u64 input "timeout_secs";
  policy ← lower_timeout policy timeout_secs;
  Ok (policy, bash_command (opt_dir workdir cwd) ["-c"; command]).
Definition bash_invoke (sandbox : Launcher X) workdir ctx input x : X * Invocation :=
  match bash_args workdir (tcx_policy _ ctx) input with
  | Err e => (x, invoked_at_once (Err e))
  | Ok (policy, cmd) =>
      let '(x, c) := launch_stateless sandbox policy cmd x in
      (x, invoked_after c (fun r => out ← map_err sandbox_err r; Ok (RValue (output_json out))))
  end.
Definition bash_tool (sandbox : Launcher X) workdir : Tool X := {|
  tool_name := "bash";
  tool_description := "Run one shell command with bash in a fresh sandbox rooted at the working directory. " +:+
    "Shell state does not persist between calls (each call starts a new shell); files do. " +:+
    "Returns exit code, stdout and stderr.";
  tool_schema := input_schema
    [("command", property "string" "The command line to run with `bash -c`." []);
     ("cwd", property "string" ("Working directory for the command; relative to the working directory. " +:+
                                "Default: the working directory.") []);
     ("timeout_secs", property "integer" ("Wall-clock limit in seconds. May only lower the session's " +:+
                                          "sandbox timeout.") at_least_one)]
    ["command"];
  tool_kind := Stateless;
  tool_capabilities := [Fs workdir Rw; Proc "bash"];
  tool_session_command := None;
  tool_invoke := bash_invoke sandbox workdir
|}.

(** * [python] *)

(** The source of the REPL server, which is Python, and a call into the session process. *)
Context (repl_server_source : string).
Context (session_call : SessionProcess X -> RpcRequest -> X -> X * Call (result SandboxError RpcResponse)).
Context {HJ : JsonText}.

Definition python_result (r : result SandboxError RpcResponse) : result ToolError ToolResult :=
  match r with
  | Ok (RpcResult v) => Ok (RValue v)
  | Ok (RpcErr code message data) =>
      Err (ToolFailed ("python session protocol error " +:+ show_Z code +:+ ": " +:+ message +:+
        match data with Some d => " (" +:+ to_string d +:+ ")" | None => "" end))
  | Err (SandboxTimeout d) => Err (ToolTimeout d)
  | Err SandboxCancelled => Err ToolCancelled
  | Err e => Err (ToolFailed ("python session: " +:+ show_sandbox_error e))
  end.
Definition python_invoke ctx input x : X * Invocation :=
  match require_str input "code" with
  | Err e => (x, invoked_at_once (Err e))
  | Ok code =>
      match tcx_session _ ctx with
      | None => (x, invoked_at_once (Err (ToolFailed "no session process for a stateless tool")))
      | Some session =>
          let '(x, c) := session_call session {| rpc_method := "eval"; rpc_params := jobj [("code", JStr code)] |} x in
          (x, invoked_after c python_result)
      end
  end.
Definition python_tool workdir : Tool X := {|
  tool_name := "python";
  tool_description := "Run Python code in a persistent interpreter. Variables, imports and functions persist " +:+
    "across calls within this session (they are lost when the session is suspended or the " +:+
    "interpreter is restarted). Returns captured stdout/stderr, the value of a trailing " +:+
    "expression, and a structured error if the code raised.";
  tool_schema := input_schema
    [("code", property "string" ("Python source to execute. If the last statement is an expression its repr is " +:+
                                 "returned as `value`.") [])] ["code"];
  tool_kind := Session;
  tool_capabilities := [Fs workdir Rw; Proc "python3"];
  tool_session_command := Some {| cmd_program := "python3"; cmd_args := ["-c"; repl_server_source];
                                  cmd_cwd := Some workdir; cmd_env := []; cmd_stdin := None |};
  tool_invoke := python_invoke
|}.

(** * [run_script] *)

(** [outcome_of]; [elapsed] is a duration. *)
Definition no_output (timed_out : bool) (ms : N) (more : list (string * json)) : json :=
  jobj ([("exit_code", JNull); ("signal", JNull); ("stdout", JStr ""); ("stderr", JStr "");
         ("timed_out", JBool timed_out); ("duration_ms", JNum (PosInt ms))] ++ more).
Definition outcome_of (r : result SandboxError ProcessOutput) (elapsed : N) : TaskOutcome :=
  let ms := as_millis elapsed in
  let '(content, is_error) :=
    match r with
    | Ok out => (output_json out, negb (bool_decide (out_exit_code out = Some 0%Z)) || out_timed_out out)
    | Err (SandboxTimeout d) =>
        (no_output true ms [("error", JStr ("timed out after " +:+ show_u64 (d / 1000000000) +:+ " s"))], true)
    | Err SandboxCancelled => (no_output false ms [("cancelled", JBool true)], true)
    | Err e => (no_output false ms [("error", JStr (show_sandbox_error e))], true)
    end in
  {| oc_content := Json content; oc_is_error := is_error; oc_artifact_handles := [] |}.

(** The launch runs on a task of its own, [detach]ed from the invocation; the future registered
    for the task resolves with the [outcome_of] the launch, and dropping it stops the process. *)
Context (detach : TaskId -> SandboxPolicy -> Command -> X -> X).

Definition run_script_args workdir input : result ToolError (string * list string * string) :=
  path ← require_str input "path";
  args ← opt_str_list input "args";
  cwd ← opt_str input "cwd";
  Ok (resolve_path workdir path, args, opt_dir workdir cwd).
Definition run_script_invoke (own : string) (sandbox : Launcher X) workdir ctx input x : X * Invocation :=
  if negb (bool_decide (launcher_name sandbox = own)) then
    (x, invoked_at_once (Err (ToolFailed ("run_script was built with the `" +:+ own +:+ "` backend but the kernel runs `" +:+
                                          launcher_name sandbox +:+ "`"))))
  else
    match run_script_args workdir input with
    | Err e => (x, invoked_at_once (Err e))
    | Ok (path, args, cwd) =>
        let argv := path :: args in
        let id := task_id_of (tcx_turn _ ctx) (tcx_tool_use_id _ ctx) in
        let x := detach id (tcx_policy _ ctx) (bash_command cwd argv) x in
        (x, {| inv_pending := []; inv_last := [id];
               inv_end := Some (Ok (RTask {|
                 th_id := id; th_status := TRunning; th_eta := None;
                 th_check_hint := Some (jobj [("path", JStr path); ("sandbox", JStr own)]);
                 th_description := Some (join " " argv) |})) |})
    end.
Definition run_script_tool (own : string) (sandbox : Launcher X) workdir : Tool X := {|
  tool_name := "run_script";
  tool_description := "Run a script in the background and return immediately with a task id. Use it for " +:+
    "anything that takes longer than a minute; keep working and you will be told when it " +:+
    "finishes, with its exit code and output. The script runs as `bash <path> <args>` in a " +:+
    "fresh sandbox rooted at the working directory.";
  tool_schema := input_schema
    [("path", property "string" "Script path; relative paths resolve against the working directory." []);
     ("args", jobj [("type", JStr "array"); ("items", jobj [("type", JStr "string")]);
                    ("description", JStr "Arguments passed to the script.")]);
     ("cwd", property "string" "Working directory for the script. Default: the working directory." [])] ["path"];
  tool_kind := Stateless;
  tool_capabilities := [Fs workdir Rw; Proc "bash"];
  tool_session_command := None;
  tool_invoke := run_script_invoke own sandbox workdir
|}.

(** * All of them *)

Definition base_tools (host : Host X) (own : string) (sandbox : Launcher X) (current_dir : option string) (workdir : string)
    : list (Tool X) :=
  let workdir := normalize_workdir current_dir workdir in
  [read_tool host workdir; write_tool host workdir; edit_tool host workdir; bash_tool sandbox workdir;
   run_script_tool own sandbox workdir; python_tool workdir].
Definition tool_decl (t : Tool X) : string * ToolKind * list Capability := (tool_name t, tool_kind t, tool_capabilities t).
End tools.

(** [tool_decls]. *)
Definition tool_decls (current_dir : option string) (workdir : string) : list (string * ToolKind * list Capability) :=
  let workdir := normalize_workdir current_dir workdir in
  [("read", Stateless, [Fs workdir Ro]); ("write", Stateless, [Fs workdir Rw]); ("edit", Stateless, [Fs workdir Rw]);
   ("bash", Stateless, [Fs workdir Rw; Proc "bash"]); ("run_script", Stateless, [Fs workdir Rw; Proc "bash"]);
   ("python", Session, [Fs workdir Rw; Proc "python3"])].
