(* ===== verification/ToolProofs.v ===== *)
(** What the base tools do: where they read and write, what an edit changes, what a page of a file
    shows, under which policy a command runs. *)

From S2P Require Import Prelude Ord Str Utf8 Capability Paths Sandbox Json Strict Codec Redact Data Outside Wire OpenAi.
From S2P Require Import Host Launch RpcSession NativeFs NativeHost BaseTools.

Open Scope string_scope.
Open Scope list_scope.

(** * Resolved paths *)

Lemma split_char_render segs :
  Forall seg_ok segs -> segs <> [] -> split_char "/" (render segs) = "" :: segs.
Proof.
  intros Hs Hne. unfold render. change ("/" +:+ join "/" segs) with ("" +:+ String "/" (join "/" segs)).
  rewrite split_char_app by done. f_equal. apply split_join; [done|].
  eapply Forall_impl; [done|]. by intros ? [? _].
Qed.
Definition piece (w : string) : string * option component := (w, Some (Normal w)).
Lemma path_pieces_render segs :
  Forall seg_ok segs -> segs <> [] -> path_pieces (render segs) = ("", Some RootDir) :: (piece <$> segs).
Proof.
  intros Hs Hne. unfold path_pieces. rewrite split_char_render by done.
  assert (is_absolute (render segs) = true) as -> by (apply starts_with_spec; by eexists). f_equal.
  clear Hne. induction Hs as [|w segs Hw Hs IH]; [done|]. rewrite !fmap_cons, IH. unfold piece at 2.
  by rewrite (body_component_ok _ Hw).
Qed.
Lemma trim_pieces_piece segs l : trim_pieces ((piece <$> segs) ++ ("", Some RootDir) :: l) = (piece <$> segs) ++ ("", Some RootDir) :: l.
Proof. by destruct segs. Qed.
Lemma path_parent_render segs seg :
  Forall seg_ok segs -> seg_ok seg -> path_parent (render (segs ++ [seg])) = Some (render segs).
Proof.
  intros Hs Hseg. unfold path_parent.
  assert (Hall : Forall seg_ok (segs ++ [seg])) by (apply Forall_app; split; [done|by constructor]).
  rewrite path_pieces_render; [|done|by destruct segs].
  change (("", Some RootDir) :: (piece <$> (segs ++ [seg]))) with ([("", Some RootDir)] ++ (piece <$> (segs ++ [seg]))).
  rewrite fmap_app, app_assoc, reverse_app.
  change (reverse (piece <$> [seg])) with [(seg, Some (Normal seg))]. cbn [app trim_pieces].
  rewrite reverse_involutive. f_equal. unfold pieces_path. cbn [app trim_pieces].
  rewrite reverse_cons, <- fmap_reverse, trim_pieces_piece, reverse_app, <- fmap_reverse, reverse_involutive.
  change (reverse [("", Some RootDir)]) with [("", Some RootDir)]. cbn [app].
  destruct segs as [|w segs]; [done|].
  assert (Hfst : forall l : list string, (piece <$> l).*1 = l) by (intros l; by induction l as [|v l IH]; cbn; [|rewrite IH]).
  cbn [fmap list_fmap]. fold (piece <$> segs). cbn [fst piece]. by rewrite Hfst.
Qed.
Lemma path_parent_root : path_parent (render []) = None.
Proof. reflexivity. Qed.

Lemma collapse_render cs segs :
  Forall seg_ok segs -> (forall seg, Normal seg ∈ cs -> seg_ok seg) -> RootDir ∉ cs ->
  exists segs', Forall seg_ok segs' /\ collapse (render segs) cs = render segs'.
Proof.
  revert segs. induction cs as [|c cs IH]; intros segs Hs Hcs Hr; [by exists segs|].
  assert (Hcs' : forall seg, Normal seg ∈ cs -> seg_ok seg) by (intros; apply Hcs; by right).
  assert (Hr' : RootDir ∉ cs) by set_solver.
  destruct c as [| | |seg]; cbn [collapse]; [set_solver|by apply IH| |].
  - destruct segs as [|seg segs _] using rev_ind; [rewrite path_parent_root; by apply (IH [])|].
    apply Forall_app in Hs as [Hs Hseg]. rewrite path_parent_render by (done || by inversion Hseg). by apply IH.
  - rewrite path_join_render by (try done; apply Hcs; by left). apply IH; [|done..].
    apply Forall_app. split; [done|]. constructor; [apply Hcs; by left|constructor].
Qed.
Lemma lexical_normalize_normal p :
  is_absolute p = true -> exists segs, Forall seg_ok segs /\ lexical_normalize p = render segs.
Proof.
  intros Ha. unfold lexical_normalize. destruct (path_components p) as [|c cs] eqn:Hc.
  { exists []. done. }
  assert (c = RootDir) as ->.
  { unfold path_components in Hc. rewrite Ha in Hc. by destruct (split_char "/" p); simplify_eq. }
  cbn [collapse]. destruct (collapse_render cs []) as (segs & Hs & Heq); [done| |by eapply root_only_first|].
  - intros seg Hin. apply (path_components_segs p). rewrite Hc. by right.
  - exists segs. split; [done|]. change "/" with (render []). rewrite Heq. by rewrite decide_False.
Qed.

Lemma path_join_absolute p q : is_absolute p = true -> is_absolute (path_join p q) = true.
Proof.
  intros Hp. unfold path_join. destruct (is_absolute q) eqn:Hq; [done|].
  rewrite decide_False by (by intros ->).
  apply starts_with_spec in Hp as [r ->]. unfold path_push. case_match; apply starts_with_spec; eexists; by rewrite !str_app_assoc.
Qed.
(** The path a tool acts on is absolute, without [.] or [..], whatever the model writes. *)
Lemma resolve_path_normal workdir input :
  is_absolute workdir = true -> normalize_path (resolve_path workdir input) = Ok (resolve_path workdir input).
Proof.
  intros Hw. apply normal_path_form. unfold resolve_path.
  destruct (lexical_normalize_normal (if is_absolute input then input else path_join workdir input)) as (segs & Hs & Heq).
  - destruct (is_absolute input) eqn:Hi; [done|by apply path_join_absolute].
  - by exists segs.
Qed.

(** * Occurrences *)

Lemma split_str_nonempty k n s : split_str k n s <> [].
Proof.
  revert n. induction s as [|a s IH]; intros [|n]; cbn [split_str]; try done.
  case_match; [done|]. pose proof (IH 0) as H0. by destruct (split_str k 0 s).
Qed.
Lemma join_cons_nonempty sep p l : l <> [] -> join sep (p :: l) = p +:+ sep +:+ join sep l.
Proof. by destruct l. Qed.
(** The pieces, with the matches put back, are the text. *)
Lemma join_split_str k n s : k <> "" -> join k (split_str k n s) = str_drop n s.
Proof.
  intros Hk. revert n. induction s as [|a s IH]; intros [|n]; cbn [split_str]; try done.
  destruct (starts_with k (String a s)) eqn:Hst.
  - rewrite join_cons_nonempty by apply split_str_nonempty. rewrite str_app_nil, IH.
    apply starts_with_spec in Hst as [r Hr]. destruct k as [|c k]; [done|].
    rewrite str_app_cons in Hr. injection Hr as <- ->. cbn [String.length]. rewrite Nat.sub_succ, Nat.sub_0_r, str_drop_app.
    done.
  - specialize (IH 0). cbn [str_drop] in *. destruct (split_str k 0 s) as [|p ps] eqn:E; [by apply split_str_nonempty in E|].
    rewrite <- IH.
    destruct ps as [|q ps]; [done|]. by rewrite (join_cons_nonempty k (String a p)), (join_cons_nonempty k p) by done.
Qed.
Lemma str_drop_0 s : str_drop 0 s = s.
Proof. by destruct s. Qed.
Lemma replace_first_split k new s p q ps :
  k <> "" -> split_str k 0 s = p :: q :: ps -> replace_first k new s = p +:+ new +:+ join k (q :: ps).
Proof.
  intros Hk. revert p. induction s as [|a s IH]; intros p; cbn [split_str replace_first]; [done|].
  destruct (starts_with k (String a s)) eqn:Hst.
  - intros [= <- Hq]. rewrite str_app_nil, <- Hq, join_split_str by done. f_equal.
    apply starts_with_spec in Hst as [r Hr]. destruct k as [|c k]; [done|]. cbn [String.length str_drop].
    by rewrite Nat.sub_succ, Nat.sub_0_r.
  - destruct (split_str k 0 s) as [|p' ps'] eqn:E; [done|]. intros [= <- ->].
    by rewrite (IH p' eq_refl), str_app_cons.
Qed.
(** The first match is the leftmost occurrence. *)
Lemma split_str_leftmost k s p q ps a b :
  split_str k 0 s = p :: q :: ps -> s = a +:+ k +:+ b -> (String.length p <= String.length a)%nat.
Proof.
  revert p a. induction s as [|c s IH]; intros p a; cbn [split_str]; [done|].
  destruct (starts_with k (String c s)) eqn:Hst; [intros [= <- _] _; simpl; lia|].
  destruct (split_str k 0 s) as [|p' ps'] eqn:E; [done|]. intros [= <- ->] Hs.
  destruct a as [|d a].
  - exfalso. apply not_true_iff_false in Hst. apply Hst, starts_with_spec. by exists b.
  - rewrite str_app_cons in Hs. injection Hs as <- Hs. simpl. apply le_n_S. by eapply IH.
Qed.

Lemma matches_count_zero k s : k <> "" -> matches_count k s = 0%N <-> contains k s = false.
Proof.
  intros Hk. split.
  - intros H. destruct (contains k s) eqn:Hc; [|done]. pose proof (matches_count_pos k s Hk Hc). lia.
  - intros H. unfold matches_count. by rewrite split_str_no_match.
Qed.
Lemma str_app_inj_r_drop a b c d :
  a +:+ b = c +:+ d -> (String.length a <= String.length c)%nat -> b = str_drop (String.length a) c +:+ d.
Proof.
  revert c. induction a as [|x a IH]; intros c; [cbn [String.length]; by rewrite str_drop_0|].
  destruct c as [|y c]; [simpl; lia|]. rewrite !str_app_cons. intros [= <- H] Hl. simpl in *. apply IH; [done|lia].
Qed.

(** C9: an edit does what it was asked or nothing at all.  Without
    [replace_all] it succeeds only when every occurrence of the text to find overlaps the leftmost
    one, and then exactly that one is replaced and every other byte is kept; it fails when the text
    does not occur, or occurs at two places apart.  With [replace_all] the text is cut at the
    matches from left to right, no piece contains another, and the pieces are put together again
    around the new text. *)
Theorem edit_changes_one_occurrence path old new text :
  old <> "" ->
  match edit_text path old new false text with
  | Ok (text', n) =>
      n = 1%N /\ exists pre post, text = pre +:+ old +:+ post /\ text' = pre +:+ new +:+ post /\
        forall a b, text = a +:+ old +:+ b ->
          (String.length pre <= String.length a < String.length pre + String.length old)%nat
  | Err _ => contains old text = false \/ exists a b c, text = a +:+ old +:+ b +:+ old +:+ c
  end /\
  match edit_text path old new true text with
  | Ok (text', n) =>
      exists pieces, text = join old pieces /\ text' = join new pieces /\
        Forall (fun p => contains old p = false) pieces /\ length pieces = S (N.to_nat n) /\ n <> 0%N
  | Err _ => contains old text = false
  end.
Proof.
  intros Ho. unfold edit_text.
  pose proof (join_split_str old 0 text Ho) as Hj. rewrite str_drop_0 in Hj.
  pose proof (split_str_clean old 0 text Ho) as Hclean.
  pose proof (split_str_nonempty old 0 text) as Hne.
  destruct (N.eqb_spec (matches_count old text) 0) as [Hz|Hz].
  { apply matches_count_zero in Hz; [|done]. split; [by left|done]. }
  unfold matches_count in *.
  destruct (split_str old 0 text) as [|p [|q ps]] eqn:Hs; [done|cbn in Hz; lia|].
  assert (Htext : text = p +:+ old +:+ join old (q :: ps)) by (rewrite <- Hj at 1; by rewrite join_cons_nonempty).
  split.
  - rewrite andb_true_r. destruct (N.ltb_spec 1 (N.of_nat (length (p :: q :: ps) - 1))) as [Hlt|Hge].
    + right. destruct ps as [|r ps]; [cbn in Hlt; lia|].
      exists p, q, (join old (r :: ps)). rewrite Htext. by rewrite (join_cons_nonempty old q).
    + split; [done|]. destruct ps as [|r ps]; [|cbn in Hge; lia]. exists p, q. cbn [join] in Htext.
      split; [done|]. split; [by rewrite (replace_first_split old new text p q [])|].
      intros a b Hab. split; [by eapply split_str_leftmost|].
      destruct (Nat.lt_ge_cases (String.length a) (String.length p + String.length old)) as [|Hfar]; [done|exfalso].
      apply Forall_cons in Hclean as [_ [Hq _]%Forall_cons].
      rewrite Htext, <- str_app_assoc in Hab. rewrite <- str_length_app in Hfar.
      apply str_app_inj_r_drop in Hab; [|done].
      assert (Hc : contains old q = true) by (apply contains_spec; by eexists _, b). congruence.
  - rewrite andb_false_r. exists (p :: q :: ps). split; [by rewrite Hj|]. split; [unfold replace_all; by rewrite Hs|].
    split; [done|]. split; [rewrite Nnat.Nat2N.id; simpl; lia|done].
Qed.

Lemma edit_changes_one_occurrence_witness :
  edit_text "/w/a" "x = 1" "x = 2" false "a; x = 1; b" = Ok ("a; x = 2; b", 1%N) /\
  is_ok (edit_text "/w/a" "b" "c" false "abab") = false /\
  exists pre post, "a; x = 1; b" = pre +:+ "x = 1" +:+ post.
Proof.
  assert (He : edit_text "/w/a" "x = 1" "x = 2" false "a; x = 1; b" = Ok ("a; x = 2; b", 1%N)) by (lazy; reflexivity).
  split; [exact He|]. split; [lazy; reflexivity|].
  pose proof (proj1 (edit_changes_one_occurrence "/w/a" "x = 1" "x = 2" "a; x = 1; b" ltac:(discriminate))) as H.
  destruct H as (_ & pre & post & H & _). exists pre, post. exact H.
Defined.

(** "[old_string] must occur exactly once": the occurrences that overlap a match are not counted. *)
Example overlapping_occurrences_accepted :
  edit_text "/w/a" "aa" "b" false "xaaay" = Ok ("xbay", 1%N) /\
  "xaaay" = "x" +:+ "aa" +:+ "ay" /\ "xaaay" = "xa" +:+ "aa" +:+ "y".
Proof. by lazy. Qed.

(** * Reading and writing *)

Section confined.
Context {X : Type} {HO : OsFs X} {HR : Reqwest X} {HP : OsSpawn X}.
Variables (secrets : SecretSource) (net : NetConfig)
  (prompter : AskUserRequest -> X -> X * Call (result HostError UserAnswer)).
Implicit Types (x : X) (ctx : ToolContext X).
Notation host := (native_host secrets net prompter).

(** Nothing changed, or one write of a file the grants of the tool let it write. *)
Definition one_granted_write (caps grants : list Capability) (pol : SandboxPolicy) (x x' : X) : Prop :=
  x' = x \/ exists path real bytes w, granted caps grants (Fs path Rw) /\ inside (mounts pol) x Rw path real /\
    os_write real bytes x = (x', w).
Lemma native_write_granted caps grants limits pol path bytes x :
  derive_policy_with caps grants limits = Ok pol -> normalize_path path = Ok path ->
  one_granted_write caps grants pol x (native_write_file (mounts pol) path bytes x).1.
Proof.
  intros Hd Hn. unfold native_write_file. destruct (resolve (mounts pol) path Rw x) as [r|e] eqn:Hr; [|by left].
  destruct (os_write (resolved r) bytes x) as [x' w] eqn:Hw. right. exists path, (resolved r), bytes, w.
  split; [|by split; [apply resolve_inside|]].
  apply fs_resolve_inv in Hr as (Hn' & Hc & _). rewrite Hn in Hn'. injection Hn' as Hn'.
  rewrite Hn'. by eapply derived_fs_granted.
Qed.
Lemma read_utf8_keeps ctx path x : (read_utf8 host ctx path x).1 = x.
Proof. reflexivity. Qed.

(** C14: on the native host, and under a policy derived from their grants,
    the in-process tools do to the filesystem exactly nothing, or one write of a file that a
    requested and granted atom lets the tool write, inside a mount of the policy both as the path is
    written and where its links lead. That holds for every input the model makes up; whatever it is,
    the tool answers at its first poll. *)
Theorem base_tools_stay_within_grants caps grants limits pol workdir ctx input x t :
  derive_policy_with caps grants limits = Ok pol -> is_absolute workdir = true -> tcx_policy _ ctx = pol ->
  t ∈ [read_tool host workdir; write_tool host workdir; edit_tool host workdir] ->
  let '(x', inv) := tool_invoke t ctx input x in
  one_granted_write caps grants pol x x' /\ inv_pending inv = [] /\ exists r, inv_end inv = Some r.
Proof.
  intros Hd Hw <- Ht.
  assert (Hread : forall path, exists text, read_utf8 host ctx path x = (x, text)) by (intros; by eexists).
  apply elem_of_cons in Ht as [->|[->|[->|[]%elem_of_nil]%elem_of_cons]%elem_of_cons].
  - cbn [tool_invoke read_tool]. unfold read_invoke. destruct (read_args workdir input) as [[[path o] l]|e].
    + destruct (Hread path) as [text ->]. split; [by left|by eauto].
    + split; [by left|by eauto].
  - cbn [tool_invoke write_tool]. unfold write_invoke. destruct (write_args workdir input) as [[path content]|e] eqn:Ha.
    + destruct (write_file host _ path content x) as [x' w] eqn:Hwr. split; [|by eauto].
      apply result_bind_Ok in Ha as (p & _ & (c & _ & [= <- <-])%result_bind_Ok).
      pose proof (native_write_granted _ _ _ _ _ c x Hd (resolve_path_normal workdir p Hw)) as H.
      cbn in Hwr. unfold fs in Hwr. by rewrite Hwr in H.
    + split; [by left|by eauto].
  - cbn [tool_invoke edit_tool]. unfold edit_invoke. destruct (edit_args workdir input) as [[[[path old] new] all]|e] eqn:Ha.
    + destruct (Hread path) as [text ->]. destruct (text ≫= edit_text path old new all) as [[replaced n]|e];
        [|split; [by left|by eauto]].
      destruct (write_file host _ path replaced x) as [x' w] eqn:Hwr. split; [|by eauto].
      apply result_bind_Ok in Ha as (p & _ & (o & _ & (nw & _ & (a & _ & Ha)%result_bind_Ok)%result_bind_Ok)%result_bind_Ok).
      case_decide; [done|]. injection Ha as <- <- <- <-.
      pose proof (native_write_granted _ _ _ _ _ replaced x Hd (resolve_path_normal workdir p Hw)) as H'.
      cbn in Hwr. unfold fs in Hwr. by rewrite Hwr in H'.
    + split; [by left|by eauto].
Qed.
End confined.

Definition wit_reqwest : Reqwest (list string) := {|
  Client := unit;
  parse_url u := if bool_decide (u = "https://api.example/v1")
                 then Ok {| url_host := Some "api.example"; url_port := None; url_port_or_known_default := Some 443%N |}
                 else Err "relative URL without a base";
  read_bundle _ _ := Err "no such file";
  from_pem_bundle _ := Ok [];
  client_build _ _ := Ok tt;
  client_cell _ := None;
  set_client_cell _ x := x;
  client_send _ req x := (("sent " +:+ hq_url req) :: x, (0, Some (Err "connection reset")))
|}.
Definition wit_spawn : OsSpawn (list string) := {|
  os_spawn cmd x := (("spawned " +:+ cmd_program cmd) :: x,
                     Ok {| child_polls x := (x, []); child_terminate _ x := (x, Ok tt) |})
|}.
Definition wit_host : Host (list string) :=
  @native_host _ wit_os wit_reqwest wit_spawn (map_source [("API_KEY", "sk-0123456789")]) default_net_config
    (fun req x => (x, at_once (no_user_ask req))).
Definition wit_limits_off : SandboxLimits :=
  {| lim_timeout := secs 60; lim_scratch_tmpfs_mb := 16; lim_env_allowlist := ["PATH"]; lim_network := true |}.
Definition wit_tool_policy : SandboxPolicy :=
  {| mounts := wit_mounts; scratch_tmpfs_mb := 16; net := {| net_enabled := true; net_allow := Hosts ["api.example:443"] |};
     timeout := secs 60; env_allowlist := ["PATH"]; programs := ["bash"] |}.
Definition wit_atoms : list Capability := [Fs "/work" Rw; Net (Hosts ["api.example:443"]); Proc "bash"].
Lemma wit_tool_policy_derived : derive_policy_with wit_atoms wit_atoms wit_limits_off = Ok wit_tool_policy.
Proof. lazy. reflexivity. Qed.
Definition wit_ctx : ToolContext (list string) :=
  {| tcx_session_id := "s1"; tcx_turn := 1; tcx_tool_use_id := "c1"; tcx_policy := wit_tool_policy; tcx_session := None |}.

Lemma base_tools_stay_within_grants_witness :
  tool_invoke (write_tool wit_host "/work") wit_ctx (jobj [("path", JStr "new/../b"); ("content", JStr "hi")]) [] =
    (["write /work/b"], invoked_at_once (Ok (RValue (jobj [("bytes", JNum (PosInt 2))])))) /\
  @one_granted_write _ wit_os wit_atoms wit_atoms wit_tool_policy [] ["write /work/b"].
Proof.
  assert (Hrun : tool_invoke (write_tool wit_host "/work") wit_ctx
      (jobj [("path", JStr "new/../b"); ("content", JStr "hi")]) [] =
    (["write /work/b"], invoked_at_once (Ok (RValue (jobj [("bytes", JNum (PosInt 2))]))))) by (lazy; reflexivity).
  split; [exact Hrun|].
  assert (Hin : write_tool wit_host "/work" ∈
      [read_tool wit_host "/work"; write_tool wit_host "/work"; edit_tool wit_host "/work"]) by (right; left).
  pose proof (@base_tools_stay_within_grants _ wit_os wit_reqwest wit_spawn (map_source [("API_KEY", "sk-0123456789")])
    default_net_config (fun req x => (x, at_once (no_user_ask req))) wit_atoms wit_atoms wit_limits_off wit_tool_policy
    "/work" wit_ctx (jobj [("path", JStr "new/../b"); ("content", JStr "hi")]) [] _
    wit_tool_policy_derived eq_refl eq_refl Hin) as H.
  fold wit_host in H. rewrite Hrun in H. exact (proj1 H).
Defined.

(** * Requests and secrets, on the toy host *)

Lemma requests_stay_within_grants_witness :
  let handle := {| send := @native_send _ wit_reqwest tt (Hosts ["api.example:443"]) |} in
  @native_network _ wit_reqwest default_net_config (Sandbox.net wit_tool_policy) [] = ([], Ok handle) /\
  @send _ handle {| hq_url := "https://api.example/v1"; hq_headers := []; hq_body := ""; hq_timeout := None |} [] =
    (["sent https://api.example/v1"], (0, Some (Err (HostNet "connection reset")))) /\
  lim_network wit_limits_off = true.
Proof.
  intros handle.
  assert (E : @native_network _ wit_reqwest default_net_config (Sandbox.net wit_tool_policy) [] = ([], Ok handle))
    by reflexivity.
  pose proof (@requests_stay_within_grants _ wit_reqwest wit_atoms wit_atoms wit_limits_off wit_tool_policy
    default_net_config [] wit_tool_policy_derived) as H.
  rewrite E in H. split; [exact E|]. split; [lazy; reflexivity|]. exact (proj1 H).
Defined.

Definition wit_redactor_state : SharedRedactor Redactor := {| get_redactor r := r; set_redactor r _ := r |}.
Lemma wit_redactor_state_laws : @SharedRedactorLaws Redactor wit_redactor_state.
Proof. by split. Qed.
Lemma resolved_secrets_are_registered_witness :
  let r0 := {| known := []; patterns := []; short := [] |} in
  let '(r1, v) := @native_resolve_secret _ wit_redactor_state (map_source [("API_KEY", "sk-0123456789")])
    {| sh_name := "API_KEY"; sh_locator := None |} r0 in
  v = Ok "sk-0123456789" /\ "sk-0123456789" ∈ known r1.
Proof.
  intros r0.
  destruct (@native_resolve_secret _ wit_redactor_state (map_source [("API_KEY", "sk-0123456789")])
    {| sh_name := "API_KEY"; sh_locator := None |} r0) as [r1 v] eqn:H.
  pose proof (@resolved_secrets_are_registered _ wit_redactor_state wit_redactor_state_laws _ _ _ _ _ H) as Hr.
  destruct Hr as (Hv & Hk & _). split; [exact Hv|]. apply Hk. apply (bool_decide_unpack _). lazy. exact I.
Defined.

(** * Commands *)

(** A command of the model runs under the policy of the tool, with at most a shorter timeout. *)
Lemma bash_narrows workdir policy input policy' cmd :
  bash_args workdir policy input = Ok (policy', cmd) ->
  mounts policy' = mounts policy /\ Sandbox.net policy' = Sandbox.net policy /\ programs policy' = programs policy /\
  env_allowlist policy' = env_allowlist policy /\ (timeout policy' <= timeout policy)%N /\
  cmd_program cmd = "bash" /\ cmd_env cmd = [] /\ exists command, cmd_args cmd = ["-c"; command].
Proof.
  unfold bash_args. intros (c & _ & (cwd & _ & (t & _ & (p & Hp & [= <- <-])%result_bind_Ok)%result_bind_Ok)%result_bind_Ok)%result_bind_Ok.
  unfold lower_timeout in Hp. destruct t as [n|]; [|injection Hp as <-; split_and!; try done; by eexists].
  destruct ((n =? 0)%N || (timeout policy <? secs n)%N) eqn:Hn; [done|]. injection Hp as <-. cbn.
  apply orb_false_iff in Hn as [_ Hn]. split_and!; try done; [|by eexists]. apply N.ltb_ge in Hn. exact Hn.
Qed.
(** A program the policy does not list is a denial to the model, not a failure. *)
Lemma refused_program_is_denied policy cmd e :
  launch_check_program policy cmd = Err e -> exists m, sandbox_err e = Denied m.
Proof.
  unfold launch_check_program. destruct (bool_decide (programs policy = []) || _); [done|]. case_match; [done|].
  intros [= <-]. unfold sandbox_err. cbn [contains starts_with]. eexists.
  assert (Hc : forall t, contains "program not permitted" ("program not permitted: `" +:+ t) = true)
    by (intros t; apply contains_spec; exists "", (": `" +:+ t); done).
  by rewrite Hc.
Qed.
(** A task is reported as failed unless the script ran to its end and exited with 0. *)
Lemma outcome_is_error r elapsed :
  oc_is_error (outcome_of r elapsed) = false <-> exists out, r = Ok out /\ out_exit_code out = Some 0%Z /\ out_timed_out out = false.
Proof.
  unfold outcome_of. destruct r as [out|[]]; cbn; try (split; [done|intros (? & [=] & _)]).
  rewrite orb_false_iff, negb_false_iff, bool_decide_eq_true. naive_solver.
Qed.
(** The declarations are those of the tools. *)
Lemma tool_decls_are_the_tools {X} source call (HJ : JsonText) detach (host : Host X) own sandbox dir workdir :
  tool_decl <$> base_tools source call detach host own sandbox dir workdir = tool_decls dir workdir.
Proof. reflexivity. Qed.

(** * Pages *)

Lemma number_lines_app a b first :
  number_lines (a ++ b) first = number_lines a first +:+ number_lines b (first + N.of_nat (length a)).
Proof.
  revert first. induction a as [|l a IH]; intros first; cbn [app number_lines length]; [by rewrite N.add_0_r|].
  rewrite IH. replace (first + 1 + N.of_nat (length a))%N with (first + N.of_nat (S (length a)))%N by lia.
  rewrite <- !str_app_assoc. done.
Qed.
Lemma page_length all offset limit :
  (1 <= offset)%N -> (offset - 1 + limit <= u64_max)%N ->
  N.of_nat (length (page all offset limit)) = N.min limit (N.of_nat (length all) - (offset - 1)).
Proof. intros Ho Hu. unfold page. rewrite length_take, length_drop. lia. Qed.
Lemma page_app all offset l1 l2 :
  (1 <= offset)%N -> (offset - 1 + l1 + l2 <= u64_max)%N ->
  page all offset (l1 + l2) = page all offset l1 ++ page all (offset + l1) l2.
Proof.
  intros Ho Hu. unfold page. set (total := N.of_nat (length all)).
  set (s := N.min (offset - 1) total).
  destruct (N.le_gt_cases (offset - 1) total) as [Hle|Hgt].
  - replace (N.min (offset + l1 - 1) total) with (N.min (s + l1) total) by lia.
    set (e := N.min (s + l1) total).
    replace (N.to_nat (N.min (N.min u64_max (s + (l1 + l2))) total - s))
      with (N.to_nat (e - s) + N.to_nat (N.min (e + l2) total - e))%nat by lia.
    replace (N.min (N.min u64_max (s + l1)) total - s)%N with (e - s)%N by lia.
    replace (N.min (N.min u64_max (e + l2)) total - e)%N with (N.min (e + l2) total - e)%N by lia.
    rewrite <- take_take_drop. f_equal. rewrite drop_drop. f_equal. f_equal. lia.
  - assert (Hnil : forall n, take n (drop (N.to_nat total) all) = [])
      by (intros n; rewrite drop_ge by lia; by destruct n).
    replace (N.min (offset + l1 - 1) total) with total by lia. replace s with total by lia. by rewrite !Hnil.
Qed.
(** Reading on where a page ended shows what one longer page would have shown. *)
Lemma read_pages_compose text offset l1 l2 :
  (1 <= offset)%N -> (offset - 1 + l1 + l2 <= u64_max)%N ->
  number_lines (page (lines text) offset (l1 + l2)) offset =
  number_lines (page (lines text) offset l1) offset +:+ number_lines (page (lines text) (offset + l1) l2) (offset + l1).
Proof.
  intros Ho Hu. rewrite page_app, number_lines_app by done. f_equal.
  pose proof (page_length (lines text) offset l1 Ho ltac:(lia)) as H1.
  pose proof (page_length (lines text) (offset + l1) l2 ltac:(lia) ltac:(lia)) as H2.
  destruct (page (lines text) (offset + l1) l2) as [|line ls]; [done|]. cbn [length] in H2.
  f_equal. lia.
Qed.
