(* ===== verification/AskUser.v ===== *)
(** The [ask_user] tool ([crates/host/src/ask_user.rs]), and its agreement with what the kernel logs
    of a question and its answer. *)

From S2P Require Import Prelude Ord Str Utf8 Capability Sandbox Json Strict Codec Data Event Outside Wire OpenAi Turn.
From S2P Require Import Host BaseTools.

Open Scope string_scope.
Open Scope list_scope.

Section tool.
Context {X : Type}.
Implicit Types (ctx : ToolContext X) (input : json) (x : X).

Definition map_host_err (e : HostError) : ToolError :=
  match e with
  | HostCancelled => ToolCancelled
  | HostDenied p => Denied (show_policy_error p)
  | other => ToolFailed (show_host_error other)
  end.
Definition parse_input input : result ToolError (string * list string * bool) :=
  obj ← ok_or (InvalidInput "input must be an object") (as_object input);
  question ← ok_or (InvalidInput "`question` must be a string") (omap_get "question" obj ≫= as_str);
  if decide (trim question = "") then Err (InvalidInput "`question` is empty")
  else
    options ← match omap_get "options" obj with
              | None | Some JNull => Ok []
              | Some (JArr items) =>
                  mapR (fun v => ok_or (InvalidInput "`options` must be an array of strings") (as_str v)) items
              | Some _ => Err (InvalidInput "`options` must be an array of strings")
              end;
    allow_free_text ← match omap_get "allow_free_text" obj with
                      | None | Some JNull => Ok true
                      | Some (JBool b) => Ok b
                      | Some _ => Err (InvalidInput "`allow_free_text` must be a boolean")
                      end;
    if negb allow_free_text && bool_decide (options = [])
    then Err (InvalidInput "`allow_free_text: false` requires at least one option")
    else Ok (question, options, allow_free_text).
Definition answer_json (a : UserAnswer) : json :=
  jobj [("question_id", JStr (ua_question_id a)); ("declined", JBool (bool_decide (ua_answer a = None)));
        ("answer", match ua_answer a with Some s => JStr s | None => JNull end)].
Definition ask_user_invoke (host : Host X) ctx input x : X * Invocation :=
  match parse_input input with
  | Err e => (x, invoked_at_once (Err e))
  | Ok (question, options, allow_free_text) =>
      let req := {| aq_question_id := "q" +:+ show_u64 (tcx_turn _ ctx) +:+ "-" +:+ tcx_tool_use_id _ ctx;
                    aq_question := question; aq_options := options; aq_allow_free_text := allow_free_text |} in
      let '(x, c) := ask_user host req x in
      (x, invoked_after c (fun r => a ← map_err map_host_err r; Ok (RValue (answer_json a))))
  end.
Definition ask_user_tool (host : Host X) : Tool X := {|
  tool_name := ASK_USER_TOOL_NAME;
  tool_description := "Ask the user a question and wait for the answer. Use it when the task is ambiguous or " +:+
    "needs a decision only the user can make; never to ask for permission. Provide `options` " +:+
    "for a fixed choice; the answer is `null` when the user declines.";
  tool_schema := input_schema
    [("question", property "string" "The question to ask." []);
     ("options", jobj [("type", JStr "array"); ("items", jobj [("type", JStr "string")]);
                       ("description", JStr "Optional fixed choices.")]);
     ("allow_free_text", property "boolean" "Whether a free-text answer is accepted alongside `options`."
                           [("default", JBool true)])] ["question"];
  tool_kind := Stateless;
  tool_capabilities := [];
  tool_session_command := None;
  tool_invoke := ask_user_invoke host
|}.
End tool.

(** * What the kernel logs *)

Lemma strings_field_items {E} items l (e : E) :
  mapR (fun v => ok_or e (as_str v)) items = Ok l ->
  List.flat_map (fun x => match as_str x with Some s => [s] | None => [] end) items = l.
Proof.
  revert l. induction items as [|v items IH]; cbn [mapR List.flat_map]; intros l H; [by injection H as <-|].
  destruct (as_str v) as [s|]; [|done]. cbn [ok_or] in H. destruct (mapR _ items) as [l'|]; [|done].
  injection H as <-. cbn. by rewrite (IH l').
Qed.

(** the log tells what the user was asked and said.  For an input the tool
    accepts, the [ask_user] event has the question, the options and the question id of the request
    the tool poses, and whether free text is accepted whenever the input says so; and for the
    answer the tool returns, the [user_answer] event has the answer, or none and that the user
    declined. *)
Theorem ask_user_log_agrees turn call question options free :
  parse_input (tc_input call) = Ok (question, options, free) ->
  (exists p, ask_user_event turn call = EvAskUser p /\
    aup_question p = question /\ aup_options p = options /\
    aup_question_id p = "q" +:+ show_u64 turn +:+ "-" +:+ tc_tool_use_id call /\
    (is_Some (bool_field "allow_free_text" (tc_input call)) -> aup_allow_free_text p = free)) /\
  forall a origin, exists p, user_answer_event turn call (json_output (answer_json a) false origin) = EvUserAnswer p /\
    uap_answer p = ua_answer a /\ uap_declined p = bool_decide (ua_answer a = None).
Proof.
  intros H. split.
  - unfold parse_input in H. destruct (tc_input call) as [| | | | |obj] eqn:Hin; try done. cbn [as_object ok_or] in H.
    apply result_bind_Ok in H as (o & [= <-] & H). apply result_bind_Ok in H as (q & Hq & H).
    case_decide; [done|]. apply result_bind_Ok in H as (opts & Hopts & H). apply result_bind_Ok in H as (fr & Hfr & H).
    destruct (negb fr && bool_decide (opts = [])); [done|]. injection H as -> -> ->.
    eexists. split; [reflexivity|]. rewrite Hin. cbn [aup_question aup_options aup_question_id aup_allow_free_text].
    unfold str_field, strings_field, bool_field. cbn [jget]. split_and!.
    + destruct (omap_get "question" obj ≫= as_str) as [q|] eqn:E; [|done]. injection Hq as <-.
      done.
    + destruct (omap_get "options" obj) as [[]|]; try done; try (by injection Hopts as <-).
      cbn. by eapply strings_field_items.
    + done.
    + destruct (omap_get "allow_free_text" obj) as [[]|]; try done; try (by intros [? ?]).
      intros _. by injection Hfr as <-.
  - intros a origin. destruct a as [id [s|]]; eexists; (split; [reflexivity|]); done.
Qed.

Lemma ask_user_log_agrees_witness :
  let call := {| tc_tool_use_id := "c1"; tc_name := "ask_user";
                 tc_input := jobj [("question", JStr "Both?"); ("options", JArr [JStr "yes"; JStr "no"])] |} in
  parse_input (tc_input call) = Ok ("Both?", ["yes"; "no"], true) /\
  exists p, ask_user_event 3 call = EvAskUser p /\ aup_options p = ["yes"; "no"].
Proof.
  intros call.
  assert (H : parse_input (tc_input call) = Ok ("Both?", ["yes"; "no"], true)) by (lazy; reflexivity).
  split; [exact H|].
  destruct (proj1 (ask_user_log_agrees 3 call _ _ _ H)) as (p & Hp & _ & Ho & _). exists p. split; [exact Hp|exact Ho].
Defined.

(** A question that does not say whether free text is accepted is posed as accepting it, and logged
    as not accepting it. *)
Lemma logged_free_text_differs :
  let call := {| tc_tool_use_id := "c1"; tc_name := "ask_user"; tc_input := jobj [("question", JStr "Which?")] |} in
  parse_input (tc_input call) = Ok ("Which?", [], true) /\
  exists p, ask_user_event 3 call = EvAskUser p /\ aup_allow_free_text p = false.
Proof. intros call. split; [by lazy|]. by eexists. Qed.
