(* ===== verification/Manifest.v ===== *)
(** The manifest of an out-of-process extension ([crates/ext/src/manifest.rs]) and the errors of the extension
    API ([crates/ext/src/error.rs]): strict parsing of [extension.toml], placeholders, capability
    atoms, the tools and their schemas. *)

From S2P Require Import Prelude Ord Str Utf8 Capability Paths Sandbox Json Data Outside Toml.

Open Scope string_scope.
Open Scope list_scope.

(** [ExtError]; an error of the system or of a parser is its text.  [ExtPanics] is not one of the
    source's variants: the call panics there. *)
Inductive ExtError : Type :=
  | ExtDuplicateExtension (name : string)
  | ExtDuplicateTool (name : string)
  | ExtDuplicateMiddleware (name : string)
  | ExtInvalidToolName (name : string)
  | ExtReservedPrefix (name : string)
  | ExtUnknownMiddleware (name : string)
  | ExtMiddlewareConfig (name message : string)
  | ExtIo (path source : string)
  | ExtParse (path message : string)
  | ExtInvalid (path key message : string)
  | ExtExceedsGrants (extension cap : string)
  | ExtPolicy (extension message : string)
  | ExtDuplicateManifest (name first second : string)
  | ExtProbe (extension message : string)
  | ExtPanics.
Definition show_ext_error (e : ExtError) : string :=
  match e with
  | ExtDuplicateExtension n => "duplicate extension `" +:+ n +:+ "`"
  | ExtDuplicateTool n => "duplicate tool `" +:+ n +:+ "`"
  | ExtDuplicateMiddleware n => "duplicate middleware `" +:+ n +:+ "`"
  | ExtInvalidToolName n => "invalid tool name `" +:+ n +:+ "`"
  | ExtReservedPrefix n =>
      "tool `" +:+ n +:+ "` uses a reserved prefix (`mcp.` and `ext.` are not for compiled tools)"
  | ExtUnknownMiddleware n => "no compiled extension provides middleware `" +:+ n +:+ "`"
  | ExtMiddlewareConfig n m => "middleware `" +:+ n +:+ "`: " +:+ m
  | ExtIo p s => from_utf8_lossy p +:+ ": " +:+ s
  | ExtParse p m => from_utf8_lossy p +:+ ": " +:+ m
  | ExtInvalid p k m => from_utf8_lossy p +:+ ": `" +:+ k +:+ "`: " +:+ m
  | ExtExceedsGrants n c => "extension `" +:+ n +:+ "` requires `" +:+ c +:+ "`, which the profile does not grant"
  | ExtPolicy n m => "extension `" +:+ n +:+ "`: " +:+ m
  | ExtDuplicateManifest n a b =>
      "extension `" +:+ n +:+ "` is loaded twice (" +:+ from_utf8_lossy a +:+ " and " +:+ from_utf8_lossy b +:+ ")"
  | ExtProbe n m => "extension `" +:+ n +:+ "` probe: " +:+ m
  | ExtPanics => ""
  end.

Definition MANIFEST_FILE : string := "extension.toml".
Definition MANIFEST_SCHEMA_VERSION : Z := 1.
Definition EXT_TOOL_PREFIX : string := "ext.".

Record Placeholders : Type := { ph_workdir : string; ph_home : string }.
Record ToolSpec : Type := { ts_name : string; ts_description : string; ts_input_schema : json }.
Record Manifest : Type := {
  mf_dir : string;
  mf_hash : string;
  mf_name : string;
  mf_version : string;
  mf_description : option string;
  mf_kind : ToolKind;
  mf_command : list string;
  mf_cwd : string;
  mf_capabilities : list Capability;
  mf_tools : list ToolSpec
}.
(** [Manifest::tool_name]. *)
Definition ext_tool_name (extension tool : string) : string := EXT_TOOL_PREFIX +:+ extension +:+ "." +:+ tool.

(** [is_ident]. *)
Definition ident_byte (c : ascii) : bool :=
  is_ascii_lowercase c || is_ascii_digit c || bool_decide (c = "_"%char) || bool_decide (c = "-"%char).
Definition is_ident (s : string) : bool :=
  match s with EmptyString => false | String a s => is_ascii_lowercase a && all_bytes ident_byte s end.

(** [CapabilityParseError]'s text. *)
Definition show_parse_error (e : CapabilityParseError) : string :=
  match e with
  | UnknownPrefix s => "unknown capability prefix in `" +:+ s +:+ "`"
  | BadPath s => "fs path must be absolute, normalized, without `..`: `" +:+ s +:+ "`"
  | EmptyName s => "empty name in `" +:+ s +:+ "`"
  end.

(** [serde_json::to_value] of a TOML value. *)
Fixpoint toml_to_value (v : toml) : json :=
  match v with
  | TString s => JStr s
  | TInteger i => json_int i
  | TFloat f => if is_finite f then JNum (Float f) else JNull
  | TBoolean b => JBool b
  | TDatetime d => JObj [("$__toml_private_datetime", JStr d)]
  | TArray l => JArr (toml_to_value <$> l)
  | TTable t => JObj (omap_of_list ((fun kv => (kv.1, toml_to_value kv.2)) <$> t))
  end.

Section parser.
Context (path dir : string) (ph : Placeholders).
Notation R := (result ExtError).

Definition invalid (key message : string) : ExtError := ExtInvalid path key message.
Definition closed (t : Table) (prefix : string) (allowed : list string) : R unit :=
  match head (List.filter (fun k => negb (bool_decide (k ∈ allowed))) t.*1) with
  | Some k => Err (invalid (prefix +:+ k) "unknown key")
  | None => Ok tt
  end.
Definition tstr (t : Table) (prefix key : string) : R (option string) :=
  match omap_get key t with
  | None => Ok None
  | Some (TString s) => Ok (Some s)
  | Some _ => Err (invalid (prefix +:+ key) "must be a string")
  end.
Definition req_str (t : Table) (prefix key : string) : R string :=
  o ← tstr t prefix key;
  match o with
  | Some s => if decide (trim s = "") then Err (invalid (prefix +:+ key) "must not be empty") else Ok s
  | None => Err (invalid (prefix +:+ key) "is required")
  end.
Definition tstr_list (t : Table) (key : string) : R (list string) :=
  match omap_get key t with
  | None => Ok []
  | Some (TArray items) => mapR (fun i => ok_or (invalid key "must be a list of strings") (toml_str i)) items
  | Some _ => Err (invalid key "must be a list of strings")
  end.

(** [expand]: a leading placeholder only. *)
Definition bindings : list (string * string) :=
  [("${ext}", dir); ("${workdir}", ph_workdir ph); ("${home}", ph_home ph)].
Definition bound (s : string) : string * string :=
  match head (omap (fun b => rest ← strip_prefix b.1 s; Some (from_utf8_lossy b.2, rest)) bindings) with
  | Some hr => hr
  | None => ("", s)
  end.
Definition expand (key s : string) : R string :=
  let '(hd, rest) := bound s in
  if contains "${" rest then
    Err (invalid key ("`" +:+ s +:+ "`: only a leading ${ext}, ${workdir} or ${home} placeholder is allowed"))
  else Ok (hd +:+ rest).

(** The loops of [manifest] that number their items. *)
Fixpoint map_from {A B} (f : nat -> A -> R B) (i : nat) (l : list A) : R (list B) :=
  match l with
  | [] => Ok []
  | a :: l => b ← f i a; bs ← map_from f (S i) l; Ok (b :: bs)
  end.

Definition kind_of (ext : Table) : R ToolKind :=
  k ← req_str ext "extension." "kind";
  if decide (k = "stateless") then Ok Stateless
  else if decide (k = "session") then Ok Session
  else Err (invalid "extension.kind" ("must be " +:+ dquote +:+ "stateless" +:+ dquote +:+ " or " +:+ dquote +:+ "session" +:+ dquote)).
Definition check_runtime (ext : Table) : R unit :=
  r ← tstr ext "extension." "runtime";
  match r with
  | None => Ok tt
  | Some r =>
      if decide (r = "process") then Ok tt
      else if decide (r = "wasm") then
        Err (invalid "extension.runtime" (dquote +:+ "wasm" +:+ dquote +:+ " is reserved (ADR-0001) and not implemented"))
      else Err (invalid "extension.runtime" ("must be " +:+ dquote +:+ "process" +:+ dquote))
  end.
Definition command_of (ext : Table) : R (list string) :=
  items ← map_err (fun _ => invalid "extension.command" "must be a list of strings") (tstr_list ext "command");
  command ← map_from (fun i s => expand ("extension.command[" +:+ show_index i +:+ "]") s) 0 items;
  match command with
  | [] | "" :: _ => Err (invalid "extension.command" "must name a program")
  | _ => Ok command
  end.
Definition cwd_of (ext : Table) : R string :=
  raw ← tstr ext "extension." "cwd";
  cwd ← expand "extension.cwd" (default "${workdir}" raw);
  if negb (is_absolute cwd) || bool_decide (ParentDir ∈ path_components cwd)
  then Err (invalid "extension.cwd" "must be an absolute path without `..`")
  else Ok cwd.

(** One entry of [capabilities], as the canonical string the set holds. *)
Definition cap_entry (i : nat) (s : string) : R string :=
  let key := "extension.capabilities[" +:+ show_index i +:+ "]" in
  match split_once ":" s with
  | None => Err (invalid key ("`" +:+ s +:+ "` is not a capability atom"))
  | Some (prefix, operand) =>
      if negb (bool_decide (prefix ∈ ["fs.ro"; "fs.rw"; "net"; "proc"])) then
        Err (invalid key ("`" +:+ s +:+ "`: an extension may require only fs.ro, fs.rw, net and proc atoms"))
      else
        operand ← expand key operand;
        cap ← map_err (fun e => invalid key ("`" +:+ s +:+ "`: " +:+ show_parse_error e)) (from_str (prefix +:+ ":" +:+ operand));
        Ok (display cap)
  end.
Definition own_dir : R Capability :=
  p ← map_err (fun e => invalid "extension" ("directory: " +:+ show_parse_error e)) (normalize_path dir);
  Ok (Fs p Ro).
(** The set's strings are read back; the source expects that to succeed and panics otherwise. *)
Definition read_back (caps : list string) : R (list Capability) := mapR (fun s => map_err (fun _ => ExtPanics) (from_str s)) caps.
Definition capabilities_of (ext : Table) (program : string) : R (list Capability) :=
  strs ← map_err (fun _ => invalid "extension.capabilities" "must be a list of strings") (tstr_list ext "capabilities");
  entries ← map_from cap_entry 0 strs;
  own ← own_dir;
  capabilities ← read_back (oset_of_list (entries ++ [display own]));
  wanted ← map_err (fun e => invalid "extension.command[0]" ("`" +:+ program +:+ "`: " +:+ show_parse_error e))
             (from_str ("proc:" +:+ program));
  if bool_decide (wanted ∈ capabilities) then Ok capabilities
  else Err (invalid "extension.capabilities"
              ("must include `" +:+ display wanted +:+ "` (the program in `command`)")).

(** ** The tools *)

Context {HJ : JsonText} {HF : FileSystem} (canonicalize : string -> result string string).

Definition inside_component (c : component) : bool := match c with Normal _ | CurDir => true | _ => false end.
Definition schema_file (key file : string) : R json :=
  if is_absolute file || negb (forallb inside_component (path_components file)) then
    Err (invalid key "must be a relative path inside the extension directory")
  else
    let p := path_join dir file in
    if match canonicalize p with Ok real => negb (path_starts_with real dir) | Err _ => false end then
      Err (invalid key "must stay inside the extension directory")
    else
      bytes ← map_err (ExtIo p) (fs_read p);
      map_err (ExtParse p) (from_str_json bytes).
Definition tool_schema_of (tt : Table) (p : string) : R json :=
  file ← tstr tt p "schema_file";
  match omap_get "input_schema" tt, file with
  | Some (TTable s), None => Ok (toml_to_value (TTable s))
  | Some _, None => Err (invalid (p +:+ "input_schema") "must be a table")
  | None, Some file => schema_file (p +:+ "schema_file") file
  | None, None => Err (invalid (p +:+ "input_schema") "one of `input_schema` or `schema_file` is required")
  | Some _, Some _ => Err (invalid (p +:+ "schema_file") "give `input_schema` or `schema_file`, not both")
  end.
Definition tool_spec (extension : string) (names : list string) (i : nat) (v : toml) : R ToolSpec :=
  let at_ := "tools[" +:+ show_index i +:+ "]" in
  let p := at_ +:+ "." in
  match v with
  | TTable t =>
      _ ← closed t p ["name"; "description"; "input_schema"; "schema_file"];
      name ← req_str t p "name";
      let full := ext_tool_name extension name in
      if negb (is_ident name) || negb (is_valid_tool_name full) then
        Err (invalid (p +:+ "name") ("must match [a-z][a-z0-9_-]* and `" +:+ full +:+ "` must be at most 64 characters"))
      else if bool_decide (name ∈ names) then Err (invalid (p +:+ "name") ("duplicate tool `" +:+ name +:+ "`"))
      else
        description ← req_str t p "description";
        schema ← tool_schema_of t p;
        if bool_decide (jget "type" schema = Some (JStr "object")) then
          Ok {| ts_name := name; ts_description := description; ts_input_schema := schema |}
        else Err (invalid (p +:+ "input_schema")
                    ("must be a JSON Schema object with " +:+ dquote +:+ "type" +:+ dquote +:+ ": " +:+ dquote +:+ "object" +:+ dquote))
  | _ => Err (invalid at_ "must be a table")
  end.
Fixpoint tool_specs (extension : string) (names : list string) (i : nat) (l : list toml) : R (list ToolSpec) :=
  match l with
  | [] => Ok []
  | v :: l =>
      t ← tool_spec extension names i v;
      ts ← tool_specs extension (ts_name t :: names) (S i) l;
      Ok (t :: ts)
  end.
Definition tools_of (t : Table) (extension : string) : R (list ToolSpec) :=
  match omap_get "tools" t with
  | Some (TArray (v :: l)) => tool_specs extension [] 0 (v :: l)
  | Some (TArray []) | None => Err (invalid "tools" "at least one [[tools]] entry is required")
  | Some _ => Err (invalid "tools" "must be an array of tables")
  end.

(** [Parser::manifest]. *)
Definition extension_keys : list string :=
  ["name"; "version"; "description"; "kind"; "runtime"; "command"; "cwd"; "capabilities"].
Definition check_version (t : Table) : R unit :=
  match omap_get "schema_version" t with
  | Some (TInteger i) => if decide (i = MANIFEST_SCHEMA_VERSION) then Ok tt else Err (invalid "schema_version" "must be 1")
  | Some _ => Err (invalid "schema_version" "must be 1")
  | None => Err (invalid "schema_version" "is required")
  end.
Definition manifest (t : Table) (hash : string) : R Manifest :=
  _ ← closed t "" ["schema_version"; "extension"; "tools"];
  _ ← check_version t;
  match omap_get "extension" t with
  | None => Err (invalid "extension" "is required")
  | Some (TTable ext) =>
      _ ← closed ext "extension." extension_keys;
      name ← req_str ext "extension." "name";
      if negb (is_ident name) then Err (invalid "extension.name" "must match [a-z][a-z0-9_-]*")
      else
        version ← req_str ext "extension." "version";
        description ← tstr ext "extension." "description";
        kind ← kind_of ext;
        _ ← check_runtime ext;
        command ← command_of ext;
        cwd ← cwd_of ext;
        capabilities ← capabilities_of ext (default "" (head command));
        tools ← tools_of t name;
        Ok {| mf_dir := dir; mf_hash := hash; mf_name := name; mf_version := version; mf_description := description;
              mf_kind := kind; mf_command := command; mf_cwd := cwd; mf_capabilities := capabilities;
              mf_tools := tools |}
  | Some _ => Err (invalid "extension" "must be a table")
  end.
End parser.

(** [Manifest::load]. *)
Definition load {HP : Platform} {HJ : JsonText} {HF : FileSystem} (canonicalize : string -> result string string)
    (given : string) (ph : Placeholders) : result ExtError Manifest :=
  dir ← map_err (ExtIo given) (canonicalize given);
  let path := path_join dir MANIFEST_FILE in
  bytes ← map_err (ExtIo path) (fs_read path);
  if utf8_valid bytes then
    table ← map_err (ExtParse path) (parse_table bytes);
    manifest path dir ph canonicalize table (of_bytes bytes)
  else Err (ExtParse path (utf8_error bytes)).

(** * What an accepted manifest is *)

Definition host_reach (c : Capability) : Prop :=
  match c with Fs _ _ | Net _ | Proc _ => True | Capability.Tool _ | Spawn _ | Secret _ => False end.

Section well_formed.
Context {HJ : JsonText} {HF : FileSystem} (canonicalize : string -> result string string).
Context (path dir : string) (ph : Placeholders).

Record tool_ok (extension : string) (t : ToolSpec) : Prop := {
  tok_ident : is_ident (ts_name t) = true;
  tok_name : is_valid_tool_name (ext_tool_name extension (ts_name t)) = true;
  tok_schema : jget "type" (ts_input_schema t) = Some (JStr "object")
}.
Record manifest_ok (m : Manifest) : Prop := {
  mok_name : is_ident (mf_name m) = true;
  mok_reach : Forall host_reach (mf_capabilities m);
  mok_own : exists p, normalize_path (mf_dir m) = Ok p /\ Fs p Ro ∈ mf_capabilities m;
  mok_program : exists program c, head (mf_command m) = Some program /\ program <> "" /\
    from_str ("proc:" +:+ program) = Ok c /\ c ∈ mf_capabilities m;
  mok_cwd : is_absolute (mf_cwd m) = true /\ ParentDir ∉ path_components (mf_cwd m);
  mok_tools : mf_tools m <> [] /\ NoDup (ts_name <$> mf_tools m) /\ Forall (tool_ok (mf_name m)) (mf_tools m)
}.

Lemma map_from_Forall {A B} (P : B -> Prop) (f : nat -> A -> result ExtError B) l i bs :
  (forall i a b, f i a = Ok b -> P b) -> map_from f i l = Ok bs -> Forall P bs.
Proof.
  intros Hf. revert i bs. induction l as [|a l IH]; intros i bs; cbn [map_from]; [by intros [= <-]|].
  intros (b & Hb & (bs' & Hbs & [= <-])%result_bind_Ok)%result_bind_Ok. constructor; [by eapply Hf|by eapply IH].
Qed.

(** Reading an atom with one of the four prefixes gives one of the three kinds. *)
Lemma from_str_reach s c : from_str s = Ok c -> (exists p q, split_once ":" s = Some (p, q) /\ p ∈ ["fs.ro"; "fs.rw"; "net"; "proc"]) ->
  host_reach c.
Proof.
  intros H (p & q & Hs & Hp). unfold from_str in H. rewrite Hs in H. rewrite !elem_of_cons in Hp.
  destruct Hp as [->|[->|[->|[->|?%elem_of_nil]]]]; [| | | |done]; repeat (rewrite decide_False in H by discriminate);
    rewrite decide_True in H by done.
  - unfold parse_fs in H. case_decide; [done|]. apply result_bind_Ok in H as (? & _ & [= <-]). done.
  - unfold parse_fs in H. case_decide; [done|]. apply result_bind_Ok in H as (? & _ & [= <-]). done.
  - unfold parse_net in H. case_decide; [done|]. case_decide; [by injection H as <-|].
    apply result_bind_Ok in H as (? & _ & [= <-]). done.
  - apply result_bind_Ok in H as (? & _ & H). apply result_bind_Ok in H as (? & _ & [= <-]). done.
Qed.
Lemma display_prefix c : host_reach c ->
  exists p q, split_once ":" (display c) = Some (p, q) /\ p ∈ ["fs.ro"; "fs.rw"; "net"; "proc"].
Proof.
  destruct c as [q []|[|hs]|q| | |]; try done; intros _;
    (eexists _, _; split; [reflexivity|]); rewrite !elem_of_cons; auto 6.
Qed.
Lemma cap_entry_reach i s d : cap_entry path dir ph i s = Ok d -> exists c, d = display c /\ host_reach c.
Proof.
  unfold cap_entry. destruct (split_once ":" s) as [[prefix operand]|]; [|done].
  destruct (bool_decide _) eqn:Hp; cbn [negb]; [|done]. apply bool_decide_eq_true in Hp.
  intros (op & _ & (c & Hc%map_err_Ok & [= <-])%result_bind_Ok)%result_bind_Ok. exists c. split; [done|].
  eapply from_str_reach; [exact Hc|]. exists prefix, op. split; [|done].
  rewrite !elem_of_cons in Hp. destruct Hp as [->|[->|[->|[->|Hn]]]]; try reflexivity. by apply elem_of_nil in Hn.
Qed.

Lemma own_capability own caps capabilities :
  own_dir path dir = Ok own -> read_back (oset_of_list (caps ++ [display own])) = Ok capabilities ->
  exists p, normalize_path dir = Ok p /\ own = Fs p Ro /\ own ∈ capabilities.
Proof.
  intros (p & Hp%map_err_Ok & [= <-])%result_bind_Ok Hr. exists p. split; [done|]. split; [done|].
  apply mapR_Ok in Hr. assert (Hin : display (Fs p Ro) ∈ oset_of_list (caps ++ [display (Fs p Ro)])).
  { apply oset_of_list_spec, elem_of_app. right. by apply list_elem_of_singleton. }
  apply list_elem_of_lookup in Hin as [i Hi]. destruct (Forall2_lookup_l _ _ _ _ _ Hr Hi) as (c & Hc & Hf).
  apply map_err_Ok in Hf. rewrite from_str_display in Hf.
  - injection Hf as <-. by apply list_elem_of_lookup_2 in Hc.
  - apply normalize_path_spec in Hp as (segs & -> & ?). by apply normalize_path_render.
Qed.
Lemma capabilities_of_ok ext program capabilities :
  capabilities_of path dir ph ext program = Ok capabilities ->
  Forall host_reach capabilities /\ (exists p, normalize_path dir = Ok p /\ Fs p Ro ∈ capabilities) /\
  exists c, from_str ("proc:" +:+ program) = Ok c /\ c ∈ capabilities.
Proof.
  unfold capabilities_of. intros (strs & _ & (entries & He & (own & Ho & (caps & Hr & (wanted & Hw%map_err_Ok & H)
    %result_bind_Ok)%result_bind_Ok)%result_bind_Ok)%result_bind_Ok)%result_bind_Ok.
  destruct (bool_decide _) eqn:Hin; [|done]. injection H as <-. apply bool_decide_eq_true in Hin.
  destruct (own_capability own entries caps Ho Hr) as (p & Hp & -> & Hown). split_and!; [|by exists p|by exists wanted].
  apply Forall_forall. intros c Hc. apply mapR_Ok in Hr. apply list_elem_of_lookup in Hc as [i Hi].
  destruct (Forall2_lookup_r _ _ _ _ _ Hr Hi) as (d & Hd & Hf). apply map_err_Ok in Hf.
  eapply from_str_reach; [exact Hf|]. apply list_elem_of_lookup_2 in Hd. apply oset_of_list_spec, elem_of_app in Hd.
  assert (Hs : exists c0, d = display c0 /\ host_reach c0).
  { destruct Hd as [Hd| ->%list_elem_of_singleton]; [|by exists (Fs p Ro)].
    pose proof (map_from_Forall (fun d => exists c0, d = display c0 /\ host_reach c0) _ _ _ _ cap_entry_reach He) as Hall.
    by apply (proj1 (Forall_forall _ _) Hall). }
  destruct Hs as (c0 & -> & Hc0). by apply display_prefix.
Qed.
Lemma tool_specs_ok extension names i l ts :
  tool_specs path dir canonicalize extension names i l = Ok ts ->
  NoDup (ts_name <$> ts) /\ (forall t, t ∈ ts -> ts_name t ∉ names) /\ Forall (tool_ok extension) ts /\ length ts = length l.
Proof.
  revert names i ts. induction l as [|v l IH]; intros names i ts; cbn [tool_specs].
  { intros [= <-]. split; [constructor|]. split; [by intros t ?%elem_of_nil|]. by split. }
  intros (t & Ht & (ts' & Hts & [= <-])%result_bind_Ok)%result_bind_Ok.
  destruct (IH _ _ _ Hts) as (Hn & Hout & Hok & Hlen). clear IH Hts.
  assert (Hone : ts_name t ∉ names /\ tool_ok extension t).
  { unfold tool_spec in Ht. destruct v as [| | | | | |tt]; try done.
    apply result_bind_Ok in Ht as (u & _ & Ht). apply result_bind_Ok in Ht as (name & _ & Ht).
    destruct (is_ident name) eqn:Hid; [|done]. destruct (is_valid_tool_name _) eqn:Hv; [|done]. cbn [negb orb] in Ht.
    destruct (bool_decide (name ∈ names)) eqn:Hnm; [done|]. apply bool_decide_eq_false in Hnm.
    apply result_bind_Ok in Ht as (d & _ & Ht). apply result_bind_Ok in Ht as (schema & _ & Ht).
    destruct (bool_decide (jget _ _ = _)) eqn:Hj; [|done]. apply bool_decide_eq_true in Hj.
    by injection Ht as <-. }
  destruct Hone as [Ht1 Ht2]. split_and!.
  - rewrite fmap_cons. constructor; [|done]. intros (t' & He & Ht')%list_elem_of_fmap. apply (Hout t' Ht'). rewrite He. left.
  - intros t' [->|Ht']%elem_of_cons; [done|]. intros Hin. apply (Hout t' Ht'). by right.
  - by constructor.
  - cbn [length]. by rewrite Hlen.
Qed.

Lemma manifest_is_ok t hash m :
  manifest path dir ph canonicalize t hash = Ok m -> manifest_ok m.
Proof.
  unfold manifest. intros (u1 & _ & (u2 & _ & H)%result_bind_Ok)%result_bind_Ok.
  destruct (omap_get "extension" t) as [[| | | | | |ext]|]; try done.
  apply result_bind_Ok in H as (u3 & _ & H). apply result_bind_Ok in H as (name & _ & H).
  destruct (is_ident name) eqn:Hid; [|done]. cbn [negb] in H.
  apply result_bind_Ok in H as (version & _ & H). apply result_bind_Ok in H as (description & _ & H).
  apply result_bind_Ok in H as (kind & _ & H). apply result_bind_Ok in H as (u4 & _ & H).
  apply result_bind_Ok in H as (command & Hcmd & H). apply result_bind_Ok in H as (cwd & Hcwd & H).
  apply result_bind_Ok in H as (capabilities & Hcaps & H). apply result_bind_Ok in H as (tools & Htools & [= <-]).
  apply capabilities_of_ok in Hcaps as (Hreach & Hown & c & Hc & Hin).
  split; cbn [mf_capabilities mf_dir mf_command mf_cwd mf_tools mf_name]; [done|done|done| | |].
  - unfold command_of in Hcmd. apply result_bind_Ok in Hcmd as (items & _ & Hcmd).
    apply result_bind_Ok in Hcmd as (cmd & _ & Hcmd). destruct cmd as [|[|a s] cmd]; try done. injection Hcmd as <-.
    eexists _, c. split; [reflexivity|]. by split.
  - unfold cwd_of in Hcwd. apply result_bind_Ok in Hcwd as (raw & _ & Hcwd). apply result_bind_Ok in Hcwd as (d & _ & Hcwd).
    destruct (is_absolute d) eqn:Ha; [|done]. cbn [negb orb] in Hcwd.
    destruct (bool_decide _) eqn:Hd; [done|]. apply bool_decide_eq_false in Hd. by injection Hcwd as <-.
  - unfold tools_of in Htools. destruct (omap_get "tools" t) as [[| | | | |[|v l]|]|]; try done.
    apply tool_specs_ok in Htools as (Hn & _ & Hok & Hlen). split; [|done]. intros ->. done.
Qed.

(** C22: an accepted manifest is what the launcher may build tools from.  Its
    capabilities reach only files, networks and programs, and name its own directory, for reading,
    and the program it starts (so the check of the program has a list to enforce); it runs in an
    absolute directory without [..]; and it serves at least one tool, each under a distinct valid
    name with the schema of an object. *)
Theorem manifest_well_formed t hash m :
  manifest path dir ph canonicalize t hash = Ok m -> manifest_ok m.
Proof. apply manifest_is_ok. Qed.
End well_formed.

(** ** What loading gives *)

Lemma load_ok {HP : Platform} {HJ : JsonText} {HF : FileSystem} canonicalize given ph m :
  load canonicalize given ph = Ok m -> manifest_ok m.
Proof.
  unfold load. intros (dir & _ & (bytes & _ & H)%result_bind_Ok)%result_bind_Ok.
  destruct (utf8_valid bytes); [|done]. apply result_bind_Ok in H as (t & _ & H). by eapply manifest_is_ok.
Qed.
Lemma is_ident_no_dot s : is_ident s = true -> has_char "." s = false.
Proof.
  destruct s as [|a s]; [done|]. cbn [is_ident]. intros [Ha Hs]%andb_true_iff. rewrite has_char_cons.
  rewrite (has_char_false ident_byte) by done. rewrite orb_false_r. apply bool_decide_eq_false. by intros ->.
Qed.
(** The name of a tool determines its extension. *)
Lemma ext_tool_name_inj e e' t t' : is_ident e = true -> is_ident e' = true ->
  ext_tool_name e t = ext_tool_name e' t' -> e = e' /\ t = t'.
Proof.
  intros He%is_ident_no_dot He'%is_ident_no_dot Heq. assert (Heq' : e +:+ String "." t = e' +:+ String "." t').
  { apply (f_equal (strip_prefix EXT_TOOL_PREFIX)) in Heq. unfold ext_tool_name in Heq. rewrite !strip_prefix_app in Heq.
    by injection Heq. }
  clear Heq. assert (H1 := split_once_app "." e t He). assert (H2 := split_once_app "." e' t' He').
  rewrite Heq', H2 in H1. by injection H1.
Qed.

(** ** Witness *)

Definition wit_no_files : FileSystem :=
  {| fs_read _ := Err "no such file"; fs_is_file _ := false; fs_is_dir _ := false;
     parse_table _ := Err ""; show_f64 _ := "" |}.
Definition wit_no_json : JsonText := {| to_string _ := ""; from_str_json _ := Err "" |}.
Definition wit_manifest_table (caps : list string) : Table :=
  [("extension", TTable
     [("capabilities", TArray (TString <$> caps)); ("command", TArray [TString "python3"; TString "${ext}/server.py"]);
      ("kind", TString "stateless"); ("name", TString "text_stats"); ("version", TString "0.1.0")]);
   ("schema_version", TInteger 1);
   ("tools", TArray [TTable [("description", TString "counts"); ("input_schema", TTable [("type", TString "object")]);
                             ("name", TString "count")]])].
Definition wit_placeholders : Placeholders := {| ph_workdir := "/work"; ph_home := "/home/u" |}.
Definition wit_manifest (caps : list string) : result ExtError Manifest :=
  @manifest "/ext/ts/extension.toml" "/ext/ts" wit_placeholders wit_no_json wit_no_files Ok (wit_manifest_table caps) "b3:0".

Lemma manifest_well_formed_witness :
  match wit_manifest ["fs.ro:${workdir}"; "proc:python3"] with
  | Ok m => mf_command m = ["python3"; "/ext/ts/server.py"] /\
            mf_capabilities m = [Fs "/ext/ts" Ro; Fs "/work" Ro; Proc "python3"] /\ manifest_ok m
  | Err _ => False
  end.
Proof.
  destruct (wit_manifest ["fs.ro:${workdir}"; "proc:python3"]) as [m|e] eqn:H.
  - assert (E : Some (mf_command m, mf_capabilities m) =
      Some (["python3"; "/ext/ts/server.py"], [Fs "/ext/ts" Ro; Fs "/work" Ro; Proc "python3"])).
    { transitivity (match wit_manifest ["fs.ro:${workdir}"; "proc:python3"] with
                    | Ok m => Some (mf_command m, mf_capabilities m) | Err _ => None end); [by rewrite H|reflexivity]. }
    injection E as -> ->. split; [done|]. split; [done|]. unfold wit_manifest in H. exact (manifest_well_formed _ _ _ _ _ _ _ H).
  - discriminate H.
Defined.

(** The atoms are kept as strings and read back, which the source takes to succeed; a host that is
    not normal after one normalisation can be refused the second time, and the call panics. *)
Example odd_host_panics : wit_manifest ["net:. ."; "proc:python3"] = Err ExtPanics.
Proof. reflexivity. Qed.
