(* ===== verification/Extensions.v ===== *)
(** The two tiers of extensions: compiled ones ([crates/ext/src/compiled.rs]) and out-of-process ones, whose
    manifests are admitted against the grants of the profile ([crates/ext/src/loader.rs]) and whose tools
    are processes ([crates/ext/src/process.rs]). *)

From S2P Require Import Prelude Ord Str Utf8 Capability Paths Sandbox Json Strict Codec Redact Data Event State Outside Wire OpenAi.
From S2P Require Import Registry Toml Host Launch RpcSession NativeFs BaseTools ToolProofs Manifest.

Open Scope string_scope.
Open Scope list_scope.

(** * The compiled tier *)

Definition RESERVED_TOOL_PREFIXES : list string := ["mcp."; "ext."].

(** What the tools of a session are built against; [ss_sandbox] is the half of the backend that
    tools hold. *)
Record SessionSetup (X : Type) : Type := { ss_workdir : string; ss_sandbox : Launcher X }.
Arguments ss_workdir {X} _.
Arguments ss_sandbox {X} _.
Record Extension (X : Type) : Type := {
  xt_name : string;
  xt_tools : SessionSetup X -> list (Tool X);
  xt_middleware_names : list string;
  xt_middleware : string -> json -> result ExtError (Middleware X)
}.
Arguments xt_name {X} _.
Arguments xt_tools {X} _ _.
Arguments xt_middleware_names {X} _.
Arguments xt_middleware {X} _ _ _.

Section compiled.
Context {X : Type}.

(** [ExtensionSet] is its list of extensions. *)
Definition ExtensionSet : Type := list (Extension X).
Definition set_middleware_names (s : ExtensionSet) : list string := oset_of_list (s ≫= xt_middleware_names).
Definition add_extension (s : ExtensionSet) (e : Extension X) : result ExtError ExtensionSet :=
  if existsb (fun e' => bool_decide (xt_name e' = xt_name e)) s then Err (ExtDuplicateExtension (xt_name e))
  else match head (List.filter (fun n => bool_decide (n ∈ set_middleware_names s)) (xt_middleware_names e)) with
       | Some dup => Err (ExtDuplicateMiddleware dup)
       | None => Ok (s ++ [e])
       end.
Definition check_compiled_tool_name (name : string) : result ExtError unit :=
  if negb (is_valid_tool_name name) then Err (ExtInvalidToolName name)
  else if existsb (fun p => starts_with p name) RESERVED_TOOL_PREFIXES then Err (ExtReservedPrefix name)
  else Ok tt.
Fixpoint check_tools (seen : list string) (ts : list (Tool X)) : result ExtError (list (Tool X)) :=
  match ts with
  | [] => Ok []
  | t :: ts =>
      _ ← check_compiled_tool_name (tool_name t);
      if bool_decide (tool_name t ∈ seen) then Err (ExtDuplicateTool (tool_name t))
      else ts ← check_tools (tool_name t :: seen) ts; Ok (t :: ts)
  end.
(** [ExtensionSet::tools]. *)
Definition set_tools (s : ExtensionSet) (setup : SessionSetup X) : result ExtError (list (Tool X)) :=
  check_tools [] (s ≫= fun e => xt_tools e setup).
(** [DeclOnlyBackend] and [ExtensionSet::tool_decls]. *)
Definition decl_only_backend : Launcher X := {|
  launcher_name := "decl-only";
  launch_stateless _ _ x :=
    (x, {| call_pending := 0; call_end := Some (Err (Host.Launch "declaration-only backend cannot launch")) |})
|}.
Definition set_tool_decls (s : ExtensionSet) (workdir : string) : result ExtError (list (string * ToolKind * list Capability)) :=
  ts ← set_tools s {| ss_workdir := workdir; ss_sandbox := decl_only_backend |};
  Ok (tool_decl <$> (ts : list (Tool X))).
(** [ExtensionSet::middleware_entry]. *)
Definition middleware_entry (s : ExtensionSet) (name : string) (priority : Z) (source : MiddlewareSource) (config : json)
    (config_hash : option string) : result ExtError (MiddlewareEntry X) :=
  e ← ok_or (ExtUnknownMiddleware name)
        (head (List.filter (fun e => bool_decide (name ∈ xt_middleware_names e)) s));
  m ← (xt_middleware e name config : result ExtError (Middleware X));
  Ok {| mw_name := name; mw_priority := priority; mw_source := source; mw_config_hash := config_hash;
        mw_middleware := m |}.

(** * Process tools *)

Definition CALL_METHOD : string := "tools/call".
Record ProcessTool : Type := {
  pt_name : string;
  pt_local_name : string;
  pt_extension : string;
  pt_description : string;
  pt_schema : json;
  pt_kind : ToolKind;
  pt_capabilities : list Capability;
  pt_program : string;
  pt_args : list string;
  pt_cwd : string
}.
(** [ProcessTool::new]; the command of a manifest is not empty. *)
Definition process_tool_new (m : Manifest) (spec : ToolSpec) : ProcessTool := {|
  pt_name := ext_tool_name (mf_name m) (ts_name spec); pt_local_name := ts_name spec; pt_extension := mf_name m;
  pt_description := ts_description spec; pt_schema := ts_input_schema spec; pt_kind := mf_kind m;
  pt_capabilities := mf_capabilities m; pt_program := default "" (head (mf_command m)); pt_args := tail (mf_command m);
  pt_cwd := mf_cwd m
|}.
Definition process_command (t : ProcessTool) : Command :=
  {| cmd_program := pt_program t; cmd_args := pt_args t; cmd_cwd := Some (pt_cwd t); cmd_env := []; cmd_stdin := None |}.
Definition call_params (t : ProcessTool) (input : json) : json :=
  jobj [("name", JStr (pt_local_name t)); ("arguments", input)].

(** [rpc_response]. *)
Definition rpc_response (v : json) : RpcResponse :=
  match jget "error" v with
  | Some err =>
      RpcErr (default (-32603)%Z (jget "code" err ≫= as_i64)) (default "" (jget "message" err ≫= as_str))
        (match jget "data" err with Some JNull => None | d => d end)
  | None => RpcResult (default JNull (jget "result" v))
  end.

(** [call_result]. *)
Definition malformed (extension why : string) : ToolError :=
  ToolFailed ("extension `" +:+ extension +:+ "` returned a malformed tools/call result: " +:+ why).
Definition content_item (extension : string) (item : json) : result ToolError string :=
  match jget "type" item ≫= as_str, jget "text" item with
  | Some ty, text =>
      match decide (ty = "text"), text with
      | left _, Some (JStr t) => Ok t
      | _, _ => Err (malformed extension ("content type `" +:+ ty +:+ "` is not supported (text only)"))
      end
  | None, _ => Err (malformed extension "a content item has no `type`")
  end.
Definition call_result (extension : string) (value : json) : result ToolError ToolResult :=
  obj ← ok_or (malformed extension "not an object") (as_object value);
  texts ← match omap_get "content" obj with
          | None => Ok []
          | Some content =>
              items ← ok_or (malformed extension "`content` is not an array") (as_array content);
              mapR (content_item extension) items
          end;
  if bool_decide (omap_get "isError" obj = Some (JBool true)) then
    Err (ToolFailed (match texts with [] => "the tool reported an error" | _ => join (String newline "") texts end))
  else
    match omap_get "structuredContent" obj with
    | Some structured => Ok (RValue structured)
    | None =>
        match texts with
        | [] => Err (malformed extension "neither `content` nor `structuredContent`")
        | _ => Ok (RBlocks (Text <$> texts))
        end
    end.

Context {HJ : JsonText}.

(** [ProcessTool::sandbox_err] and [ProcessTool::result]. *)
Definition process_sandbox_err (t : ProcessTool) (e : SandboxError) : ToolError :=
  match e with
  | SandboxTimeout d => ToolTimeout d
  | SandboxCancelled => ToolCancelled
  | Host.Launch m =>
      if contains "program not permitted" m then Denied m
      else ToolFailed ("extension `" +:+ pt_extension t +:+ "`: " +:+ show_sandbox_error e)
  | other => ToolFailed ("extension `" +:+ pt_extension t +:+ "`: " +:+ show_sandbox_error other)
  end.
Definition process_result (t : ProcessTool) (r : RpcResponse) : result ToolError ToolResult :=
  match r with
  | RpcResult v => call_result (pt_extension t) v
  | RpcErr code message data =>
      Err (ToolFailed ("extension `" +:+ pt_extension t +:+ "` protocol error " +:+ show_Z code +:+ ": " +:+ message +:+
        match data with Some d => " (" +:+ to_string d +:+ ")" | None => "" end))
  end.
(** The call of a stateless tool: its request line and what its output is. *)
Definition stateless_line (t : ProcessTool) (input : json) : string :=
  to_string (jobj [("jsonrpc", JStr "2.0"); ("id", JNum (PosInt 1)); ("method", JStr CALL_METHOD);
                   ("params", call_params t input)]) +:+ String newline "".
Definition is_answer (v : json) : bool :=
  bool_decide (jget "id" v = Some (JNum (PosInt 1))) || bool_decide (is_Some (jget "error" v)).
Definition answer_in (stdout : string) : option json :=
  head (List.filter is_answer
    (omap (fun l => match from_str_json (trim l) with Ok v => Some v | Err _ => None end) (lines (from_utf8_lossy stdout)))).
(** [Option<i32>]'s debug text. *)
Definition debug_opt_int (o : option Z) : string :=
  match o with Some z => "Some(" +:+ show_Z z +:+ ")" | None => "None" end.
Definition stateless_result (t : ProcessTool) (out : ProcessOutput) : result ToolError ToolResult :=
  match answer_in (out_stdout out) with
  | Some v => process_result t (rpc_response v)
  | None =>
      Err (ToolFailed ("extension `" +:+ pt_extension t +:+ "` gave no response (exit code " +:+
        debug_opt_int (out_exit_code out) +:+ ", signal " +:+ debug_opt_int (out_signal out) +:+ "); stderr: " +:+
        trim_end (from_utf8_lossy (out_stderr out))))
  end.
Definition call_stateless (sandbox : Launcher X) (t : ProcessTool) (ctx : ToolContext X) (input : json) (x : X) : X * Invocation :=
  let cmd := process_command t in
  let cmd := {| cmd_program := cmd_program cmd; cmd_args := cmd_args cmd; cmd_cwd := cmd_cwd cmd; cmd_env := cmd_env cmd;
                cmd_stdin := Some (stateless_line t input) |} in
  let '(x, c) := launch_stateless sandbox (tcx_policy _ ctx) cmd x in
  (x, invoked_after c (fun r => out ← map_err (process_sandbox_err t) r; stateless_result t out)).

(** A call into a session process. *)
Context (session_call : SessionProcess X -> RpcRequest -> X -> X * Call (result SandboxError RpcResponse)).
Definition process_invoke (sandbox : Launcher X) (t : ProcessTool) (ctx : ToolContext X) (input : json) (x : X) : X * Invocation :=
  match pt_kind t with
  | Stateless => call_stateless sandbox t ctx input x
  | Session =>
      match tcx_session _ ctx with
      | None => (x, invoked_at_once (Err (ToolFailed "no session process for a stateless tool")))
      | Some session =>
          let '(x, c) := session_call session {| rpc_method := CALL_METHOD; rpc_params := call_params t input |} x in
          (x, invoked_after c (fun r => resp ← map_err (process_sandbox_err t) r; process_result t resp))
      end
  end.
Definition process_tool (sandbox : Launcher X) (t : ProcessTool) : Tool X := {|
  tool_name := pt_name t;
  tool_description := pt_description t;
  tool_schema := pt_schema t;
  tool_kind := pt_kind t;
  tool_capabilities := pt_capabilities t;
  tool_session_command := match pt_kind t with Session => Some (process_command t) | Stateless => None end;
  tool_invoke := process_invoke sandbox t
|}.
End compiled.
Arguments ExtensionSet X : clear implicits.

(** * Loading and admission *)

(** [policy_for]. *)
Definition policy_for (m : Manifest) (grants : list Capability) (limits : SandboxLimits) : result ExtError SandboxPolicy :=
  map_err (fun e => match e with
                    | Exceeds cap => ExtExceedsGrants (mf_name m) cap
                    | other => ExtPolicy (mf_name m) (show_policy_error other)
                    end) (derive_policy_with (mf_capabilities m) grants limits).
Definition admit_extension (m : Manifest) (grants : list Capability) (limits : SandboxLimits) : result ExtError (list ProcessTool) :=
  _ ← policy_for m grants limits; Ok (process_tool_new m <$> mf_tools m).

Record Loaded : Type := { ld_manifests : list Manifest; ld_tools : list ProcessTool }.
(** [Loaded::tool_atoms]. *)
Definition tool_atoms (l : Loaded) : list Capability := (fun t => Capability.Tool (pt_name t)) <$> ld_tools l.

(** [load_all]; the loader of one directory is an argument. *)
Fixpoint load_dirs (load_dir : string -> result ExtError Manifest) (grants : list Capability) (limits : SandboxLimits)
    (seen : list (string * string)) (dirs : list string) (loaded : Loaded) : result ExtError Loaded :=
  match dirs with
  | [] => Ok loaded
  | dir :: dirs =>
      m ← load_dir dir;
      match omap_get (mf_name m) seen with
      | Some first => Err (ExtDuplicateManifest (mf_name m) first (mf_dir m))
      | None =>
          tools ← admit_extension m grants limits;
          load_dirs load_dir grants limits (omap_insert (mf_name m) (mf_dir m) seen) dirs
            {| ld_manifests := ld_manifests loaded ++ [m]; ld_tools := ld_tools loaded ++ tools |}
      end
  end.
Definition load_all {HP : Platform} {HJ : JsonText} {HF : FileSystem} (canonicalize : string -> result string string)
    (dirs : list string) (ph : Placeholders) (grants : list Capability) (limits : SandboxLimits) : result ExtError Loaded :=
  load_dirs (fun d => load canonicalize d ph) grants limits [] dirs {| ld_manifests := []; ld_tools := [] |}.

(** ** The probe *)

Definition EXT_PROTOCOL_VERSION : string := "2025-06-18".
Record ProbeReport : Type := { pr_server_info : option json; pr_tools : list string }.

Section probe.
Context {X : Type} (backend : SandboxBackend X).
Context (session_call : SessionProcess X -> RpcRequest -> X -> X * Call (result SandboxError RpcResponse)).
Context (version : string).

(** A call of the probe; [None] if the process never answers. *)
Definition probe_call (session : SessionProcess X) (method : string) (params : json) (x : X) : X * option (result string json) :=
  let '(x, c) := session_call session {| rpc_method := method; rpc_params := params |} x in
  (x, (fun r => match r with
                | Ok (RpcResult v) => Ok v
                | Ok (RpcErr code message _) => Err ("`" +:+ method +:+ "` → error " +:+ show_Z code +:+ ": " +:+ message)
                | Err e => Err ("`" +:+ method +:+ "`: " +:+ show_sandbox_error e)
                end) <$> call_end c).
Definition probe_init : json :=
  jobj [("protocolVersion", JStr EXT_PROTOCOL_VERSION); ("capabilities", JObj []);
        ("clientInfo", jobj [("name", JStr "grist"); ("version", JStr version)])].
Definition listed_tools (l : json) : result string (list string) :=
  items ← ok_or "`tools/list` result has no `tools` array" (jget "tools" l ≫= as_array);
  Ok (omap (fun t => jget "name" t ≫= as_str) (items : list json)).
Definition probe_session (session : SessionProcess X) (x : X) : X * option (result string ProbeReport) :=
  let '(x, init) := probe_call session "initialize" probe_init x in
  match init with
  | None => (x, None)
  | Some (Err e) => (x, Some (Err e))
  | Some (Ok init) =>
      let '(x, l) := probe_call session "tools/list" (JObj []) x in
      match l with
      | None => (x, None)
      | Some (Err e) => (x, Some (Err e))
      | Some (Ok l) =>
          (x, Some (tools ← listed_tools l; Ok {| pr_server_info := jget "serverInfo" init; pr_tools := tools |}))
      end
  end.
Definition missing_tool (m : Manifest) (report : ProbeReport) : option ToolSpec :=
  head (List.filter (fun t => negb (bool_decide (ts_name t ∈ pr_tools report))) (mf_tools m)).
Definition probe (m : Manifest) (grants : list Capability) (limits : SandboxLimits) (x : X)
    : X * option (result ExtError ProbeReport) :=
  let fail := ExtProbe (mf_name m) in
  match policy_for m grants limits with
  | Err e => (x, Some (Err e))
  | Ok policy =>
      let cmd := {| cmd_program := default "" (head (mf_command m)); cmd_args := tail (mf_command m);
                    cmd_cwd := Some (mf_cwd m); cmd_env := []; cmd_stdin := None |} in
      let '(x, launched) := launch_session backend policy cmd x in
      match launched with
      | Err e => (x, Some (Err (fail e)))
      | Ok session =>
          match probe_session session x with
          | (x, None) => (x, None)
          | (x, Some r) =>
              let x := terminate session x in
              (x, Some (report ← map_err fail r;
                        match missing_tool m report with
                        | Some t => Err (fail ("tool `" +:+ ts_name t +:+ "` is in the manifest but not in `tools/list` ([" +:+
                                               join ", " (debug_str <$> pr_tools report) +:+ "])"))
                        | None => Ok report
                        end))
          end
      end
  end.
End probe.

(** * What admission promises *)

(** Tools admitted for a manifest. *)
Record admitted (grants : list Capability) (limits : SandboxLimits) (m : Manifest) (t : ProcessTool) : Prop := {
  adm_manifest : manifest_ok m;
  adm_name : exists spec, spec ∈ mf_tools m /\ pt_name t = ext_tool_name (mf_name m) (ts_name spec);
  adm_capabilities : pt_capabilities t = mf_capabilities m;
  adm_policy : exists pol, derive_policy_with (mf_capabilities m) grants limits = Ok pol;
  adm_program : head (mf_command m) = Some (pt_program t)
}.

Lemma policy_for_ok m grants limits pol :
  policy_for m grants limits = Ok pol -> derive_policy_with (mf_capabilities m) grants limits = Ok pol.
Proof. apply map_err_Ok. Qed.
Lemma admit_spec m grants limits ts : manifest_ok m -> admit_extension m grants limits = Ok ts ->
  NoDup (pt_name <$> ts) /\ Forall (admitted grants limits m) ts.
Proof.
  intros Hm. unfold admit_extension. intros (pol & Hp%policy_for_ok & [= <-])%result_bind_Ok.
  destruct (mok_tools m Hm) as (_ & Hn & _). split.
  - rewrite <- list_fmap_compose. replace (_ <$> _) with (ext_tool_name (mf_name m) <$> (ts_name <$> mf_tools m))
      by (rewrite <- list_fmap_compose; by apply list_fmap_ext). apply NoDup_fmap_2_strong; [|done].
    intros a b _ _ H. by apply ext_tool_name_inj in H as [_ ->]; [|apply Hm..].
  - apply Forall_fmap, Forall_forall. intros spec Hspec. split; [done|by exists spec|done|by exists pol|].
    cbn. destruct (mok_program m Hm) as (p & _ & Hc & _). by rewrite Hc.
Qed.

Definition loaded_ok (grants : list Capability) (limits : SandboxLimits) (seen : list (string * string)) (l : Loaded) : Prop :=
  NoDup (pt_name <$> ld_tools l) /\
  forall t, t ∈ ld_tools l -> exists m, m ∈ ld_manifests l /\ omap_get (mf_name m) seen <> None /\ admitted grants limits m t.
Lemma load_dirs_ok load_dir grants limits dirs seen l l' :
  (forall d m, load_dir d = Ok m -> manifest_ok m) ->
  loaded_ok grants limits seen l -> load_dirs load_dir grants limits seen dirs l = Ok l' ->
  exists seen', loaded_ok grants limits seen' l'.
Proof.
  intros Hload. revert seen l. induction dirs as [|d dirs IH]; intros seen l Hl; cbn [load_dirs]; [intros [= <-]; by exists seen|].
  intros (m & Hm%Hload & H)%result_bind_Ok. destruct (omap_get (mf_name m) seen) eqn:Hs; [done|].
  apply result_bind_Ok in H as (ts & Ht & H). destruct (admit_spec _ _ _ _ Hm Ht) as [Hn Hts]. eapply IH; [|exact H].
  destruct Hl as [Hnl Hold]. rewrite Forall_forall in Hts. split; cbn [ld_tools ld_manifests].
  - rewrite fmap_app. apply NoDup_app. split; [done|]. split; [|done]. intros n (t & -> & Hin)%list_elem_of_fmap (t' & He & Hin')%list_elem_of_fmap.
    destruct (Hold t Hin) as (m1 & _ & Hm1 & [Ha1 (sp & _ & Hsp) _ _ _]). destruct (Hts t' Hin') as [Ha2 (sp' & _ & Hsp') _ _ _].
    rewrite Hsp, Hsp' in He. apply ext_tool_name_inj in He as [He _]; [|apply Ha1|apply Ha2]. by rewrite He in Hm1.
  - intros t [Hin|Hin]%elem_of_app.
    + destruct (Hold t Hin) as (m1 & ? & Hm1 & ?). exists m1. split; [by apply elem_of_app; left|]. split; [|done].
      rewrite omap_get_insert. by case_decide.
    + exists m. split; [apply elem_of_app; right; left|]. split; [|by apply Hts]. rewrite omap_get_insert. by rewrite decide_True.
Qed.

(** Compiled tools keep away from the reserved prefixes. *)
Lemma check_tools_names {X} seen (ts ts' : list (Tool X)) :
  check_tools seen ts = Ok ts' ->
  ts' = ts /\ NoDup (tool_name <$> ts) /\ (forall t, t ∈ ts -> tool_name t ∉ seen) /\
  Forall (fun t => is_valid_tool_name (tool_name t) = true /\ starts_with EXT_TOOL_PREFIX (tool_name t) = false) ts.
Proof.
  revert seen ts'. induction ts as [|t ts IH]; intros seen ts'; cbn [check_tools].
  { intros [= <-]. split; [done|]. split; [constructor|]. split; [by intros t ?%elem_of_nil|done]. }
  intros (u & Hc & H)%result_bind_Ok. destruct (bool_decide _) eqn:Hs; [done|]. apply bool_decide_eq_false in Hs.
  apply result_bind_Ok in H as (ts1 & Ht & [= <-]). destruct (IH _ _ Ht) as (-> & Hn & Hout & Hall).
  unfold check_compiled_tool_name in Hc. destruct (is_valid_tool_name _) eqn:Hv; [|done]. cbn [negb existsb] in Hc.
  destruct (existsb _ _) eqn:Hp; [done|]. cbn [existsb RESERVED_TOOL_PREFIXES] in Hp.
  apply orb_false_iff in Hp as [_ Hp]. apply orb_false_iff in Hp as [Hp _]. split; [done|]. split_and!.
  - rewrite fmap_cons. constructor; [|done]. intros (t' & He & Hin)%list_elem_of_fmap. apply (Hout t' Hin). rewrite He. left.
  - intros t' [->|Hin]%elem_of_cons; [done|]. intros Hin'. apply (Hout t' Hin). by right.
  - by constructor.
Qed.

Lemma from_str_proc p c : from_str ("proc:" +:+ p) = Ok c -> exists q, c = Proc q.
Proof.
  unfold from_str. cbn [split_once String.append]. repeat (rewrite decide_False by discriminate).
  intros H. change (split_once ":" ("proc:" +:+ p)) with (Some ("proc", p)) in H. cbv iota beta in H.
  repeat (rewrite decide_False in H by discriminate). rewrite decide_True in H by done.
  apply result_bind_Ok in H as (? & _ & H). apply result_bind_Ok in H as (q & _ & [= <-]). by exists q.
Qed.

Section admission.
Context {HP : Platform} {HJ : JsonText} {HF : FileSystem}.

(** C21: an out-of-process extension gets nothing the profile does not grant.
    If loading the directories of a session succeeds, every capability of every loaded tool is a
    file, network or program atom that a granted atom covers, and the policy the kernel derives for
    the tool is one the check already derived (so registering it cannot fail for its grants), with
    a list of programs that holds the one the tool starts; the names of the tools are distinct, and
    none of them is the name of a compiled tool. *)
Theorem extensions_within_grants canonicalize dirs ph grants limits loaded :
  load_all canonicalize dirs ph grants limits = Ok loaded ->
  (forall t, t ∈ ld_tools loaded ->
     Forall (fun c => host_reach c /\ covered_by c grants = true) (pt_capabilities t) /\
     exists pol, derive_policy_with (pt_capabilities t) grants limits = Ok pol /\ programs pol <> []) /\
  NoDup (pt_name <$> ld_tools loaded) /\
  forall (X : Type) (s : ExtensionSet X) setup ts, set_tools s setup = Ok ts ->
    forall t t', t ∈ ts -> t' ∈ ld_tools loaded -> tool_name t <> pt_name t'.
Proof.
  intros H. apply load_dirs_ok in H as (seen & Hn & Hall); [|by intros; eapply load_ok|split; [constructor|by intros ? ?%elem_of_nil]].
  split; [|split; [done|]].
  - intros t Ht. destruct (Hall t Ht) as (m & _ & _ & [Hok _ Hc (pol & Hp) Hprog]). rewrite Hc.
    destruct (derive_inv _ _ _ _ Hp) as (acc & _ & Hcomp & Hcov & _ & Hprogs & _). split.
    + apply Forall_forall. intros c Hin. pose proof (mok_reach m Hok) as Hr. rewrite Forall_forall in Hr, Hcov.
      specialize (Hr c Hin). specialize (Hcov c Hin). split; [done|]. by destruct c.
    + exists pol. split; [done|]. rewrite Hprogs. destruct (mok_program m Hok) as (p & c & _ & _ & Hfrom & Hin).
      destruct (from_str_proc _ _ Hfrom) as [q ->]. apply (complete_programs _ _ Hcomp) in Hin. intros Hnil.
      rewrite Hnil in Hin. by apply elem_of_nil in Hin.
  - intros X s setup ts Hs t t' Ht Ht' He. apply check_tools_names in Hs as (-> & _ & _ & Hpre).
    rewrite Forall_forall in Hpre. destruct (Hpre t Ht) as [_ Hno]. destruct (Hall t' Ht') as (m & _ & _ & [_ (sp & _ & Hsp) _ _ _]).
    rewrite He, Hsp in Hno. unfold ext_tool_name in Hno.
    assert (Hyes : starts_with EXT_TOOL_PREFIX (EXT_TOOL_PREFIX +:+ mf_name m +:+ "." +:+ ts_name sp) = true)
      by (apply starts_with_spec; by eexists). by rewrite Hyes in Hno.
Qed.
End admission.

(** ** A process per call answers like a process per session *)

Lemma as_u64_one n : as_u64 (JNum n) = Some 1%N -> n = PosInt 1.
Proof. destruct n; cbn; by intros [= ->]. Qed.
(** an extension is free to change its kind.  If the process writes one line
    that a session process's caller would accept as the answer to its first request, a stateless
    tool whose process exits after that line gives the model the very same result. *)
Theorem one_answer_both_kinds {HJ : JsonText} t out line r :
  lines (from_utf8_lossy (out_stdout out)) = [line] -> trim line = line ->
  parse_response line 1 = Ok r -> stateless_result t out = process_result t r.
Proof.
  intros Hl Ht Hp. unfold stateless_result, answer_in. rewrite Hl. cbn [omap list_omap]. rewrite Ht.
  unfold parse_response in Hp. destruct (from_str_json line) as [v|e]; [|done]. cbn [omap].
  assert (Hv : is_answer v = true /\ rpc_response v = r).
  { destruct v as [| | | | |obj]; try done. cbn [as_object] in Hp. unfold is_answer, rpc_response. cbn [jget].
    destruct (omap_get "id" obj) as [[| |n| | |]|], (omap_get "error" obj) as [err|]; cbv iota beta in Hp;
      repeat match type of Hp with context [bool_decide ?P] => destruct (bool_decide P) eqn:Hn end; try done;
      try (injection Hp as <-; split; [by rewrite ?(bool_decide_eq_true_2 (is_Some (Some err))), ?orb_true_r by done|done]).
    all: apply bool_decide_eq_true in Hn; apply as_u64_one in Hn as ->; injection Hp as <-; split; [|done].
    all: by rewrite bool_decide_eq_true_2. }
  destruct Hv as [Ha <-]. cbn [List.filter]. rewrite Ha. done.
Qed.

(** ** Witnesses *)

Definition wit_ext_files : FileSystem :=
  {| fs_read p := if decide (p = "/ext/ts/extension.toml") then Ok "ts" else Err "no such file";
     fs_is_file _ := false; fs_is_dir _ := false;
     parse_table _ := Ok (wit_manifest_table ["fs.ro:${workdir}"; "proc:python3"]); show_f64 _ := "" |}.
Definition wit_loaded (grants : list Capability) : result ExtError Loaded :=
  @load_all toy_platform wit_no_json wit_ext_files Ok ["/ext/ts"] wit_placeholders grants default_limits.

(** The profile grants the working directory, the extension's own and the program. *)
Lemma extensions_within_grants_witness :
  match wit_loaded [Fs "/ext" Ro; Fs "/work" Rw; Proc "python3"] with
  | Ok l => pt_name <$> ld_tools l = ["ext.text_stats.count"] /\ NoDup (pt_name <$> ld_tools l)
  | Err _ => False
  end /\
  wit_loaded [Fs "/work" Rw; Proc "python3"] = Err (ExtExceedsGrants "text_stats" "fs.ro:/ext/ts").
Proof.
  split; [|reflexivity]. destruct (wit_loaded [Fs "/ext" Ro; Fs "/work" Rw; Proc "python3"]) as [l|e] eqn:H; [|discriminate H].
  assert (E : Some (pt_name <$> ld_tools l) = Some ["ext.text_stats.count"]).
  { transitivity (match wit_loaded [Fs "/ext" Ro; Fs "/work" Rw; Proc "python3"] with
                  | Ok l => Some (pt_name <$> ld_tools l) | Err _ => None end); [by rewrite H|reflexivity]. }
  injection E as E. split; [exact E|]. unfold wit_loaded in H. exact (proj1 (proj2 (extensions_within_grants _ _ _ _ _ _ H))).
Defined.

(** A reader of JSON that knows one line. *)
Definition wit_answer_line : string := "{id:1}".
Definition wit_answer_value : json :=
  jobj [("id", JNum (PosInt 1)); ("result", jobj [("content", JArr [jobj [("text", JStr "3"); ("type", JStr "text")]])])].
Definition wit_one_line : JsonText :=
  {| to_string _ := ""; from_str_json s := if decide (s = wit_answer_line) then Ok wit_answer_value else Err "syntax" |}.
Definition wit_process_tool : ProcessTool :=
  {| pt_name := "ext.text_stats.count"; pt_local_name := "count"; pt_extension := "text_stats"; pt_description := "counts";
     pt_schema := JObj []; pt_kind := Stateless; pt_capabilities := [Proc "python3"]; pt_program := "python3"; pt_args := [];
     pt_cwd := "/work" |}.
Lemma one_answer_both_kinds_witness :
  @stateless_result wit_one_line wit_process_tool
    {| out_exit_code := Some 0%Z; out_signal := None; out_stdout := wit_answer_line +:+ String newline ""; out_stderr := "";
       out_timed_out := false; out_duration := 0 |} = Ok (RBlocks [Text "3"]).
Proof.
  rewrite (@one_answer_both_kinds wit_one_line wit_process_tool _ wit_answer_line
    (RpcResult (jobj [("content", JArr [jobj [("text", JStr "3"); ("type", JStr "text")]])]))); reflexivity.
Defined.

(** Where the two kinds differ: an [error] with another identifier is taken as the answer. *)
Example stray_error_is_an_answer :
  is_answer (jobj [("id", JNum (PosInt 7)); ("error", JObj [])]) = true.
Proof. reflexivity. Qed.
