(* ===== verification/Launcher.v ===== *)
(** The launcher ([crates/orchestrator/src/launcher.rs]): from a catalog entry to a kernel.  It resolves the
    profile against the compiled tools, admits the extensions, chooses the sandbox backend and the
    provider, and creates or reopens the session with its record and its log. *)

From Stdlib Require Import Floats.SpecFloat.
From S2P Require Import Prelude Ord Str Utf8 Capability Paths Sandbox Json Strict Codec Redact Data Event State Spill Log FileLog Outside.
From S2P Require Import Wire OpenAi Registry Kernel Turn Lifecycle Toml Atom Schema Merge Profile Catalog Resolve Narrowing Resolution.
From S2P Require Import Host Launch RpcSession NativeFs NativeHost BaseTools ToolProofs AskUser Manifest Extensions.

Open Scope string_scope.
Open Scope list_scope.

Notation tool_name := Outside.tool_name.
Notation tool_kind := Outside.tool_kind.

(** * Options *)

Record LaunchOptions : Type := {
  lo_profiles_dir : string;
  lo_state_dir : string;
  lo_home : string;
  lo_sandbox_override : option string;
  lo_question_capacity : nat;
  lo_delta_capacity : nat
}.

Inductive LaunchError : Type :=
  | LaunchProfile (lines : list string)
  | LaunchBackend (name : string)
  | LaunchConfig (m : string)
  | LaunchUnknownSession (m : string)
  | LaunchIo (m : string)
  | LaunchKernel (e : KernelError)
  | LaunchExtension (e : ExtError).

(** [LaunchOptions::from_env]; [cwd] is the current directory, if it is known. *)
Definition options_from_env {HF : FileSystem} (var : string -> option string) (cwd : option string)
    : result LaunchError LaunchOptions :=
  match var "HOME" with
  | None => Err (LaunchConfig "HOME is not set")
  | Some home =>
      let state_dir := default (path_join home ".grist") (var "GRIST_STATE_DIR") in
      Ok {| lo_profiles_dir := match var "GRIST_PROFILES_DIR" with
                               | Some p => p
                               | None => default (path_join state_dir "profiles") (cwd ≫= discover_profiles_dir)
                               end;
            lo_state_dir := state_dir; lo_home := home;
            lo_sandbox_override := match var "GRIST_SANDBOX_BACKEND" with
                                   | Some s => if utf8_valid s && negb (bool_decide (s = "")) then Some s else None
                                   | None => None
                                   end;
            lo_question_capacity := 8; lo_delta_capacity := 1024 |}
  end.
Definition sessions_dir (o : LaunchOptions) : string := path_join (lo_state_dir o) "sessions".
Definition log_path (o : LaunchOptions) (id : SessionId) : string := path_join (sessions_dir o) (id +:+ ".jsonl").
Definition record_path (o : LaunchOptions) (id : SessionId) : string := path_join (sessions_dir o) (id +:+ ".toml").

(** * Session records *)

Record SessionRecord : Type := {
  rec_session_id : string;
  rec_workdir : string;
  rec_agent : string;
  rec_overrides : Table;
  rec_created_at : string
}.
(** The derived [Deserialize]: unknown keys are ignored, [overrides] has a default. *)
Definition record_of (t : Table) : option SessionRecord :=
  id ← omap_get "session_id" t ≫= toml_str;
  workdir ← omap_get "workdir" t ≫= toml_str;
  agent ← omap_get "agent" t ≫= toml_str;
  overrides ← match omap_get "overrides" t with None => Some [] | Some v => toml_table v end;
  created_at ← omap_get "created_at" t ≫= toml_str;
  Some {| rec_session_id := id; rec_workdir := workdir; rec_agent := agent; rec_overrides := overrides;
          rec_created_at := created_at |}.

(** [Path::extension]. *)
Definition path_extension (p : string) : option string :=
  name ← path_file_name p;
  match rsplit_once "." name with
  | Some (EmptyString, _) | None => None
  | Some (_, ext) => Some ext
  end.
(** [sort_by] the creation time, which is stable. *)
Fixpoint insert_record (r : SessionRecord) (l : list SessionRecord) : list SessionRecord :=
  match l with
  | [] => [r]
  | r' :: l' => match cmp (rec_created_at r) (rec_created_at r') with Gt => r' :: insert_record r l' | _ => r :: l end
  end.
Definition oldest_first (l : list SessionRecord) : list SessionRecord := foldr insert_record [] l.

Section records.
Context {X : Type} {HO : OsFs X} {HF : FileSystem}.
(** The text of [toml]'s error for a text it does not read as a record. *)
Context (record_error : string -> string).

Definition read_to_string (p : string) (x : X) : result string string :=
  bytes ← map_err io_text (os_read p x);
  if utf8_valid bytes then Ok bytes else Err "stream did not contain valid UTF-8".
Definition parse_record (text : string) : option SessionRecord :=
  match parse_table text with Ok t => record_of t | Err _ => None end.
Definition load_record (o : LaunchOptions) (id : SessionId) (x : X) : result LaunchError SessionRecord :=
  let p := record_path o id in
  text ← map_err (fun e => LaunchUnknownSession (from_utf8_lossy p +:+ ": " +:+ e)) (read_to_string p x);
  ok_or (LaunchConfig (from_utf8_lossy p +:+ ": " +:+ record_error text)) (parse_record text).
(** [SessionRecord::list]; a file that is not a record is skipped. *)
Fixpoint read_records (dir : string) (entries : list (result IoError string)) (x : X) : result LaunchError (list SessionRecord) :=
  match entries with
  | [] => Ok []
  | Err e :: _ => Err (LaunchIo (io_text e))
  | Ok name :: entries =>
      let p := path_join dir name in
      if bool_decide (path_extension p = Some "toml") then
        text ← map_err (fun e => LaunchIo (from_utf8_lossy p +:+ ": " +:+ e)) (read_to_string p x);
        rest ← read_records dir entries x;
        Ok (match parse_record text with Some r => r :: rest | None => rest end)
      else read_records dir entries x
  end.
Definition list_records (o : LaunchOptions) (x : X) : result LaunchError (list SessionRecord) :=
  match os_read_dir (sessions_dir o) x with
  | Err (IoNotFound _) => Ok []
  | Err e => Err (LaunchIo (from_utf8_lossy (sessions_dir o) +:+ ": " +:+ io_text e))
  | Ok entries => fmap oldest_first (read_records (sessions_dir o) entries x)
  end.
End records.

(** * The endpoint's host *)

(** [url_host]; [str::split] on a non-empty pattern gives at least one piece. *)
Fixpoint after_scheme (url : string) : option string :=
  match strip_prefix "://" url with
  | Some rest => Some rest
  | None => match url with EmptyString => None | String _ url => after_scheme url end
  end.
Fixpoint before_scheme (s : string) : string :=
  match strip_prefix "://" s with
  | Some _ => ""
  | None => match s with EmptyString => "" | String a s => String a (before_scheme s) end
  end.
Definition first_piece (c : ascii) (s : string) : string := default "" (head (split_char c s)).
Definition last_piece (c : ascii) (s : string) : string := default "" (last (split_char c s)).
Definition endpoint_host (url : string) : option string :=
  rest ← after_scheme url;
  let authority := first_piece "/" (before_scheme rest) in
  let host := last_piece "@" authority in
  let host := match strip_prefix "[" host with Some h => first_piece "]" h | None => host end in
  let host := first_piece ":" host in
  if decide (host = "") then None else Some host.

(** * The build: compiled extensions and the registry *)

(** A compiled tool with the model profile's description. *)
Definition described {X} (t : Tool X) (description : string) : Tool X := {|
  Outside.tool_name := tool_name t; tool_description := description; tool_schema := tool_schema t;
  Outside.tool_kind := tool_kind t; tool_capabilities := tool_capabilities t;
  tool_session_command := tool_session_command t; tool_invoke := tool_invoke t
|}.

Section launcher.
Context {HP : Platform} {HJ : JsonText} {HF : FileSystem} {X : Type}.
(** What the tools are made of: the host, the process's directory, the Python server, a call into a
    session process, a launch that outlives its invocation, and the resolution of symbolic links. *)
Context (host : Host X) (current_dir : option string) (repl_server_source : string).
Context (session_call : SessionProcess X -> RpcRequest -> X -> X * Call (result SandboxError RpcResponse)).
Context (detach : TaskId -> SandboxPolicy -> Command -> X -> X).
Context (canonicalize : string -> result string string).
(** The feature [dev-sandbox-none] and the two backends, each with the half that tools hold. *)
Context (dev_build : bool) (bwrap_backend none_backend : SandboxBackend X * Launcher X).

Definition no_middleware (name : string) (config : json) : result ExtError (Middleware X) := Err (ExtUnknownMiddleware name).
Definition base_extension : Extension X := {|
  xt_name := "base";
  xt_tools setup := base_tools repl_server_source session_call detach host (launcher_name (ss_sandbox setup)) (ss_sandbox setup)
                      current_dir (ss_workdir setup);
  xt_middleware_names := []; xt_middleware := no_middleware
|}.
Definition ask_user_extension : Extension X :=
  {| xt_name := "ask_user"; xt_tools _ := [ask_user_tool host]; xt_middleware_names := []; xt_middleware := no_middleware |}.
(** [compiled_extensions]: the source expects the two additions to succeed. *)
Definition compiled_result : result ExtError (ExtensionSet X) :=
  s ← add_extension [] base_extension; add_extension s ask_user_extension.
Definition compiled_extensions : ExtensionSet X := match compiled_result with Ok s => s | Err _ => [] end.

(** [registry]; the source expects the declarations to be valid. *)
Definition registry (workdir : string) : BuildRegistry := {|
  br_tools := omap_of_list ((fun d => (d.1.1, {| decl_kind := d.1.2; decl_capabilities := d.2 |})) <$>
    match set_tool_decls compiled_extensions workdir with Ok ds => ds | Err _ => [] end);
  br_middleware := set_middleware_names compiled_extensions;
  br_parsers := [];
  br_memory_modules := ["none"];
  br_sandbox_backends := if dev_build then ["bwrap"; "none"] else ["bwrap"];
  br_dev_build := dev_build
|}.

(** [resolve_profile]; resolution always ends with a profile or with diagnostics. *)
Definition resolve_inputs (o : LaunchOptions) (workdir agent : string) (overrides : Table) (resume : bool) : ResolveInputs := {|
  in_profiles_dir := lo_profiles_dir o; in_workdir := workdir; in_home := lo_home o; in_agent := agent;
  in_runtime_overrides := overrides; in_registry := registry workdir; in_resume := resume
|}.
Definition resolve_profile (o : LaunchOptions) (workdir agent : string) (overrides : Table) (resume : bool)
    : result LaunchError Resolve.Resolved :=
  match Narrowing.resolve (resolve_inputs o workdir agent overrides resume) with
  | Ok r => map_err (fun ds => LaunchProfile (show_diagnostic <$> ds)) r
  | Err _ => Err (LaunchProfile [])
  end.

(** * Assembling the kernel's configuration *)

Definition choose_backend (o : LaunchOptions) (inputs : KernelInputs) : result LaunchError (SandboxBackend X * Launcher X) :=
  let name := default (ki_sandbox_backend inputs) (lo_sandbox_override o) in
  if decide (name = "bwrap") then Ok bwrap_backend
  else if decide (name = "none") then (if dev_build then Ok none_backend else Err (LaunchBackend name))
  else Err (LaunchBackend name).

(** The compiled tools the profile allows, in its order. *)
Definition find_tool (name : string) (all : list (Tool X)) : option (Tool X) :=
  head (List.filter (fun t => bool_decide (tool_name t = name)) all).
Definition pick_tool (inputs : KernelInputs) (all : list (Tool X)) (name : string) : result LaunchError (Tool X) :=
  match find_tool name all with
  | None => Err (LaunchConfig ("profile allows tool `" +:+ name +:+ "` but this build has no such tool"))
  | Some t => Ok match omap_get name (ki_tool_descriptions inputs) with Some d => described t d | None => t end
  end.

(** [sort_by_key(|c| c.to_string())], which is stable. *)
Fixpoint insert_cap (c : Capability) (l : list Capability) : list Capability :=
  match l with
  | [] => [c]
  | c' :: l' => match cmp (display c) (display c') with Gt => c' :: insert_cap c l' | _ => c :: l end
  end.
Definition sort_caps (l : list Capability) : list Capability := foldr insert_cap [] l.
Definition session_grants (inputs : KernelInputs) (loaded : Loaded) : list Capability :=
  match ld_tools loaded with
  | [] => ki_grants inputs
  | _ => dedup (sort_caps (ki_grants inputs ++ tool_atoms loaded))
  end.

Definition quirks_profile (inputs : KernelInputs) : QuirksProfile :=
  let q := ki_quirks inputs in
  {| qp_reasoning_field := pq_reasoning_field q; qp_supports_structured_output := pq_supports_structured_output q;
     qp_supports_stream_usage := pq_supports_stream_usage q; qp_strict_tool_schema := pq_strict_tool_schema q;
     qp_auth := pq_auth q; qp_tool_format := ki_tool_format inputs |}.
Definition provider_allow (url : string) : NetAllow :=
  match endpoint_host url with Some h => Hosts [h] | None => Any end.

Context {L : Type} {HA : ArtifactStore X} {HW : WireText} {HS : SecretResolver X}.
Context (show_quirks_error : QuirksError -> string) (endpoint_url : string -> result HostError string).

(** [EndpointConfig::new]. *)
Definition endpoint_new (url : string) : EndpointConfig :=
  {| ep_base_url := url; ep_timeout := Some (secs 120); ep_extra_headers := [] |}.
(** The OpenAI-compatible provider of the profile's endpoint. *)
Definition endpoint_provider (inputs : KernelInputs) (x : X) : X * result LaunchError (Provider X) :=
  match endpoint_url (ki_endpoint inputs) with
  | Err e => (x, Err (LaunchConfig (show_host_error e)))
  | Ok url =>
      match from_profile (quirks_profile inputs) with
      | Err e => (x, Err (LaunchConfig ("model profile quirks: " +:+ show_quirks_error e)))
      | Ok quirks =>
          match network host {| net_enabled := true; net_allow := provider_allow url |} x with
          | (x, Err e) => (x, Err (LaunchConfig ("provider network: " +:+ show_host_error e)))
          | (x, Ok handle) =>
              (x, Ok (openai_provider (HN := handle) (ki_endpoint inputs)
                        (endpoint_new url) quirks))
          end
      end
  end.

(** [assemble]. *)
Definition load_extensions (o : LaunchOptions) (inputs : KernelInputs) (workdir : string) : result LaunchError Loaded :=
  map_err LaunchExtension
    (load_all canonicalize (ki_extension_paths inputs) {| ph_workdir := workdir; ph_home := lo_home o |} (ki_grants inputs)
       (ki_sandbox_limits inputs)).
Definition session_middleware (inputs : KernelInputs) : result LaunchError (list (MiddlewareEntry X)) :=
  map_err LaunchExtension
    (mapR (fun m => middleware_entry compiled_extensions (rmw_name m) (rmw_priority m) (rmw_source m) (rmw_config m) (rmw_config_hash m))
       (List.filter (fun m => negb (bool_decide (rmw_name m = "recorder"))) (ki_middleware inputs))).
Definition session_tools (o : LaunchOptions) (inputs : KernelInputs) (workdir : string) (sandbox : Launcher X)
    : result LaunchError (list (Tool X) * Loaded) :=
  all ← map_err LaunchExtension (set_tools compiled_extensions {| ss_workdir := workdir; ss_sandbox := sandbox |});
  tools ← mapR (pick_tool inputs all) (ki_tools inputs);
  loaded ← load_extensions o inputs workdir;
  Ok ((tools : list (Tool X)) ++ (process_tool session_call sandbox <$> ld_tools loaded), loaded).
Definition assemble (o : LaunchOptions) (inputs : KernelInputs) (workdir : string) (redactor : Redactor) (log : L)
    (provider_override : option (Provider X)) (x : X) : X * result LaunchError (KernelConfig X L) :=
  let prepared :=
    backend ← choose_backend o inputs;
    tools ← session_tools o inputs workdir (snd backend);
    middleware ← session_middleware inputs;
    Ok (backend, tools, middleware) in
  match prepared with
  | Err e => (x, Err e)
  | Ok (backend, (tools, loaded), middleware) =>
      let '(x, provider) := match provider_override with
                            | Some p => (x, Ok p)
                            | None => endpoint_provider inputs x
                            end in
      (x, (fun p => {|
         cfg_tools := tools; cfg_middleware := middleware; cfg_provider := p; cfg_memory_name := "noop";
         cfg_sandbox := fst backend; cfg_event_log := log; cfg_redactor := redactor; cfg_spill := ki_spill inputs;
         cfg_retry := default_retry; cfg_sandbox_limits := ki_sandbox_limits inputs; cfg_migrations := [];
         cfg_model_id := ki_model_id inputs; cfg_model_params := ki_model_params inputs;
         cfg_system_prompt := ki_system_prompt inputs; cfg_grants := session_grants inputs loaded; cfg_delta_sink := true |})
         <$> provider)
  end.

(** * Creating and reopening *)

Definition session_init (id : SessionId) (rd : Resolve.Resolved) (overrides : Table) : SessionInit := {|
  init_session_id := id; init_profiles := rd_active_profiles rd; init_profile_loads := rd_profile_loads rd;
  init_runtime_overrides := if decide (overrides = []) then None else Some (toml_to_json (TTable overrides));
  init_notebook_path := ki_notebook_path (rd_kernel_inputs rd); init_memory := None
|}.
End launcher.

Record Launched (X L : Type) : Type := {
  la_shared : Shared X;
  la_kernel : Kernel X L;
  la_inputs : KernelInputs;
  la_warnings : list string;
  la_log_path : string
}.
Arguments la_shared {X L} _.
Arguments la_kernel {X L} _.
Arguments la_inputs {X L} _.
Arguments la_warnings {X L} _.
Arguments la_log_path {X L} _.

(** The directory of the sessions and the files in it, besides what [OsFs] has: creating the
    directory, and opening a log that is new, or one that exists. *)
Class StateDir (X L : Type) : Type := {
  create_dir_all : string -> X -> X * result string unit;
  create_log : string -> SessionId -> Redactor -> X -> X * result LogError L;
  open_log : string -> SessionId -> Redactor -> X -> X * result LogError L
}.

Section sessions.
Context {HP : Platform} {HJ : JsonText} {HF : FileSystem} {X L : Type} {HOut : Outside X} {HA : ArtifactStore X}
  {HL : EventLog L} {HOs : OsFs X} {HD : StateDir X L}.
(** [assemble] and [resolve_profile] of the build, the redactor a new session starts with, the text
    of a record, of [toml]'s error for a text that is none, and the clock. *)
Context (assemble_build : LaunchOptions -> KernelInputs -> string -> Redactor -> L -> option (Provider X) -> X ->
           X * result LaunchError (KernelConfig X L)).
Context (resolve_build : LaunchOptions -> string -> string -> Table -> bool -> result LaunchError Resolve.Resolved).
Context (new_redactor : Redactor) (record_text : SessionRecord -> result string string) (record_error : string -> string).
Context (now_rfc3339 : X -> X * string).

Definition launched (rd : Resolve.Resolved) (path : string) (sk : Shared X * Kernel X L) : Launched X L := {|
  la_shared := sk.1; la_kernel := sk.2; la_inputs := rd_kernel_inputs rd;
  la_warnings := show_diagnostic <$> rd_warnings rd; la_log_path := path
|}.
(** [create_session]. *)
Definition create_session (o : LaunchOptions) (id : SessionId) (given agent : string) (overrides : Table)
    (provider_override : option (Provider X)) (x : X) : X * result LaunchError (Launched X L) :=
  match os_canonicalize given x with
  | Err e => (x, Err (LaunchConfig ("workdir " +:+ from_utf8_lossy given +:+ ": " +:+ io_text e)))
  | Ok workdir =>
  match resolve_build o workdir agent overrides false with
  | Err e => (x, Err e)
  | Ok rd =>
  match create_dir_all (sessions_dir o) x with
  | (x, Err e) => (x, Err (LaunchIo e))
  | (x, Ok _) =>
  let '(x, created_at) := now_rfc3339 x in
  match record_text {| rec_session_id := id; rec_workdir := workdir; rec_agent := agent; rec_overrides := overrides;
                       rec_created_at := created_at |} with
  | Err e => (x, Err (LaunchConfig e))
  | Ok text =>
  match os_write (record_path o id) text x with
  | (x, Err e) => (x, Err (LaunchIo (io_text e)))
  | (x, Ok _) =>
  match create_log (log_path o id) id new_redactor x with
  | (x, Err e) => (x, Err (LaunchKernel (KernelLog e)))
  | (x, Ok log) =>
  match assemble_build o (rd_kernel_inputs rd) workdir new_redactor log provider_override x with
  | (x, Err e) => (x, Err e)
  | (x, Ok config) =>
  match Lifecycle.create config (session_init id rd overrides) x with
  | (x, _, Err e) => (x, Err (LaunchKernel e))
  | (x, _, Ok sk) => (x, Ok (launched rd (log_path o id) sk))
  end end end end end end end end.
(** [resume_session]. *)
Definition resume_session (o : LaunchOptions) (id : SessionId) (cause : ResumeCause)
    (provider_override : option (Provider X)) (x : X) : X * result LaunchError (Launched X L) :=
  match load_record record_error o id x with
  | Err e => (x, Err e)
  | Ok record =>
  match resolve_build o (rec_workdir record) (rec_agent record) (rec_overrides record) true with
  | Err e => (x, Err e)
  | Ok rd =>
  match open_log (log_path o id) id new_redactor x with
  | (x, Err e) => (x, Err (LaunchKernel (KernelLog e)))
  | (x, Ok log) =>
  match assemble_build o (rd_kernel_inputs rd) (rec_workdir record) new_redactor log provider_override x with
  | (x, Err e) => (x, Err e)
  | (x, Ok config) =>
  match Lifecycle.open config cause x with
  | (x, _, Err e) => (x, Err (LaunchKernel e))
  | (x, _, Ok sk) => (x, Ok (launched rd (log_path o id) sk))
  end end end end end.
End sessions.
