(* ===== verification/LaunchProofs.v ===== *)
(** What a launched session may rely on: a profile that resolves against the build assembles to a
    configuration whose tools the kernel accepts. *)

From S2P Require Import Prelude Ord Str Utf8 Capability Paths Sandbox Json Strict Codec Redact Data Event State Spill Log FileLog Outside.
From S2P Require Import Wire OpenAi Registry Kernel Scenario Turn Lifecycle Toml Atom Schema Merge Profile Catalog Resolve Narrowing Resolution.
From S2P Require Import Host Launch RpcSession NativeFs NativeHost BaseTools ToolProofs AskUser Manifest Extensions Launcher.

Open Scope string_scope.
Open Scope list_scope.

(** * Policies can be hashed *)

Lemma omap_of_list_elem {V} (l : list (string * V)) kv : kv ∈ omap_of_list l -> kv ∈ l.
Proof.
  unfold omap_of_list. assert (H : forall acc, kv ∈ foldl (fun m kv => omap_insert kv.1 kv.2 m) acc l -> kv ∈ acc \/ kv ∈ l).
  { induction l as [|x l IH]; intros acc; cbn [foldl]; [auto|]. intros [Hin|Hin]%IH; [|right; by right].
    apply omap_insert_elem in Hin as [->|Hin]; [right; destruct x; left|by left]. }
  intros Hin. by destruct (H [] Hin) as [?%elem_of_nil|].
Qed.
Lemma exact_jobj fields : Forall (fun kv => exact kv.2) fields -> exact (jobj fields).
Proof.
  rewrite Forall_forall. intros H. apply exact_obj; [apply omap_of_list_sorted|]. apply Forall_forall.
  intros kv Hin. by apply H, omap_of_list_elem.
Qed.
Lemma exact_strings (l : list string) : exact (JArr (JStr <$> l)).
Proof. constructor. apply Forall_fmap, Forall_true. intros s. constructor. Qed.
Lemma policy_hash_total `{Platform} pol :
  (scratch_tmpfs_mb pol <= SAFE)%N -> (timeout pol <= MAX_TIMEOUT)%N -> exists h, policy_hash pol = Ok h.
Proof.
  intros Hs Ht. assert (He : exact (enc SandboxPolicy_codec pol)).
  { cbn. apply exact_jobj. repeat (apply Forall_cons; split; [cbn|]); [..|constructor].
    - constructor. apply Forall_fmap, Forall_true. intros m. cbn. apply exact_jobj. repeat constructor.
    - by constructor.
    - apply exact_jobj. repeat (apply Forall_cons; split; [cbn|]); [constructor| |constructor].
      destruct (net_allow (net pol)); cbn; [constructor|]. apply exact_obj; [repeat constructor|].
      apply Forall_cons. split; [cbn; apply exact_strings|constructor].
    - constructor. cbn. unfold as_secs, SAFE. unfold MAX_TIMEOUT, secs in Ht.
      apply N.Div0.div_le_upper_bound. lia.
    - apply exact_strings.
    - apply exact_strings. }
  unfold policy_hash, of_canonical_json, canonical_json_value. destruct (write_canonical_total _ He) as [s ->]. by eexists.
Qed.

(** * Compiled tools *)

Section build.
Context {HP : Platform} {HJ : JsonText} {HF : FileSystem} {X : Type}.
Context (host : Host X) (current_dir : option string) (repl_server_source : string).
Context (session_call : SessionProcess X -> RpcRequest -> X -> X * Call (result SandboxError RpcResponse)).
Context (detach : TaskId -> SandboxPolicy -> Command -> X -> X).
Notation set := (compiled_extensions host current_dir repl_server_source session_call detach).

(** The additions and the declarations that the source expects to succeed do. *)
Lemma compiled_extensions_valid :
  compiled_result host current_dir repl_server_source session_call detach = Ok set.
Proof. reflexivity. Qed.
Lemma compiled_tools_valid setup : exists ts, set_tools set setup = Ok ts /\
  tool_decl <$> ts = tool_decls current_dir (ss_workdir setup) ++ [(ASK_USER_TOOL_NAME, Stateless, [])].
Proof.
  eexists. split; [reflexivity|]. reflexivity.
Qed.
Lemma compiled_decls_valid workdir :
  set_tool_decls set workdir = Ok (tool_decls current_dir workdir ++ [(ASK_USER_TOOL_NAME, Stateless, [])]).
Proof. reflexivity. Qed.
End build.

(** * What resolution leaves the launcher *)

Lemma oset_sorted_NoDup (l : list string) : oset_sorted l -> NoDup l.
Proof.
  induction 1 as [|x l _ IH Hx]; constructor; [|done]. intros Hin. rewrite Forall_forall in Hx. specialize (Hx x Hin).
  by rewrite cmp_refl in Hx.
Qed.

Section resolved.
Context {HP : Platform} {HF : FileSystem}.

Record launchable (reg : BuildRegistry) (ki : KernelInputs) : Prop := {
  la_tools_distinct : NoDup (ki_tools ki);
  la_tools_known : forall t, t ∈ ki_tools ki -> exists decl, omap_get t (br_tools reg) = Some decl /\
    forall c, c ∈ decl_capabilities decl -> covered_by c (ki_grants ki) = true;
  la_backend_known : ki_sandbox_backend ki ∈ br_sandbox_backends reg;
  la_envelope : exists pol, derive_policy_with (List.filter non_secret (ki_grants ki)) (ki_grants ki) (ki_sandbox_limits ki) = Ok pol
}.

Lemma resolve_stage_registry ctx entry layers st : resolve_stage ctx entry layers = Ok st ->
  exists l, check_registry (in_registry (cx_inputs ctx)) l = Ok tt /\
    rp_tools (sg_profile st) = sorted_strings (list_at (ly_table l) "tools.allow") /\
    ps_backend (rp_sandbox (sg_profile st)) = default "bwrap" (s_at (ly_table l) "sandbox.backend").
Proof.
  unfold resolve_stage. intros ([[mf af] pf] & _ & H)%result_bind_Ok.
  apply result_bind_Ok in H as ([l ro] & _ & H). apply result_bind_Ok in H as ([[grants mcp] subs] & _ & H).
  apply result_bind_Ok in H as (chain & _ & H). apply result_bind_Ok in H as ([] & Hreg & H).
  apply result_bind_Ok in H as (hash & _ & H). apply expand_stage_inv in H as (_ & -> & _). by exists l.
Qed.
Lemma check_registry_ok reg l : check_registry reg l = Ok tt ->
  (forall t, t ∈ list_at (ly_table l) "tools.allow" -> omap_get t (br_tools reg) <> None) /\
  default "bwrap" (s_at (ly_table l) "sandbox.backend") ∈ br_sandbox_backends reg.
Proof.
  unfold check_registry. rewrite errs_of_Ok, !no_errors_app. intros (_ & Hb & Ht & _). split.
  - intros t [i Hi]%list_elem_of_lookup. rewrite no_errors_flat_map in Ht.
    specialize (Ht (i, t) ltac:(apply elem_of_indexed; by exists i)). apply no_errors_complain in Ht; [|done].
    by apply bool_decide_eq_false in Ht.
  - destruct (_ && _); [done|]. apply no_errors_complain in Hb; [|done].
    by apply negb_false_iff, bool_decide_eq_true in Hb.
Qed.
Lemma resolve_launchable inputs rd : Narrowing.resolve inputs = Ok (Ok rd) ->
  launchable (in_registry inputs) (rd_kernel_inputs rd).
Proof.
  intros (ctx & entry & st & Hl%load_ctx_inputs & Hp)%Resolution.resolve_inv. rewrite <- Hl.
  destruct (pd_inputs _ _ _ _ Hp) as (prompt & envelope & hash & He & ->).
  destruct (resolve_stage_registry _ _ _ _ (pd_stage _ _ _ _ Hp)) as (l & Hr & Ht & Hb).
  apply check_registry_ok in Hr as [Hk Hbk]. split; cbn -[covered_by derive_policy_with].
  - rewrite Ht. unfold sorted_strings. destruct (oset_of_list_spec (list_at (ly_table l) "tools.allow")) as [Hs _].
    by apply oset_sorted_NoDup.
  - intros t Hin. assert (Hin' := Hin). rewrite Ht in Hin'. apply elem_of_sorted_strings, Hk in Hin'.
    destruct (omap_get t _) as [decl|] eqn:Hd; [|done]. exists decl. split; [done|]. intros c Hc.
    eapply elem_of_tools_inv; [apply Hp|done..].
  - by rewrite Hb.
  - unfold derive_envelope in He. apply result_bind_Ok in He as (pol & Hpol%map_err_Ok & _). by exists pol.
Qed.
End resolved.

(** * The tools of a session register *)

Lemma decl_names_distinct current_dir workdir :
  NoDup ((fun d => d.1.1) <$> (tool_decls current_dir workdir ++ [(ASK_USER_TOOL_NAME, Stateless, [])])).
Proof. unfold tool_decls. generalize (normalize_workdir current_dir workdir). intros w. cbn. by apply (bool_decide_unpack _). Qed.

Lemma omap_get_of_list_inv {V} k (v : V) (l : list (string * V)) : omap_get k (omap_of_list l) = Some v -> (k, v) ∈ l.
Proof. intros H. by apply omap_of_list_elem, omap_get_elem. Qed.

Lemma covered_by_more c grants grants' :
  (forall g, g ∈ grants -> g ∈ grants') -> covered_by c grants = true -> covered_by c grants' = true.
Proof.
  intros Hin. unfold covered_by. rewrite !existsb_exists. intros (g & Hg%list_elem_of_In & Hn). exists g.
  split; [|done]. by apply list_elem_of_In, Hin.
Qed.
Lemma cap_ok_more grants grants' c : (forall g, g ∈ grants -> g ∈ grants') -> cap_ok grants c -> cap_ok grants' c.
Proof. intros Hin. destruct c; cbn [cap_ok]; try done; by apply covered_by_more. Qed.
Lemma host_reach_cap_ok grants c : host_reach c -> covered_by c grants = true -> cap_ok grants c.
Proof. by destruct c. Qed.

Lemma derive_ok_iff caps grants limits :
  (exists pol, derive_policy_with caps grants limits = Ok pol) <->
  Forall (cap_ok grants) caps /\ Forall (fun n => env_name_is_secret_like n = false) (lim_env_allowlist limits).
Proof.
  unfold derive_policy_with. rewrite <- (derive_caps_ok_iff grants caps derive_acc0).
  rewrite <- (derive_env_ok_iff (lim_env_allowlist limits) []). split.
  - intros (pol & (acc & Ha & (env & He & _)%result_bind_Ok)%result_bind_Ok). split; [by exists acc|by exists env].
  - intros [[acc Ha] [env He]]. rewrite Ha. cbn [mbind result_bind]. rewrite He. by eexists.
Qed.
Lemma insert_cap_elem c d l : d ∈ insert_cap c l <-> d = c \/ d ∈ l.
Proof.
  induction l as [|e l IH]; cbn [insert_cap]; [by rewrite list_elem_of_singleton, elem_of_nil; naive_solver|].
  destruct (cmp _ _); rewrite ?elem_of_cons, ?IH; naive_solver.
Qed.
Lemma session_grants_elem ki loaded c :
  c ∈ session_grants ki loaded <-> c ∈ ki_grants ki \/ (c ∈ tool_atoms loaded).
Proof.
  unfold session_grants, tool_atoms. destruct (ld_tools loaded) as [|t ts] eqn:E; [cbn; rewrite elem_of_nil; naive_solver|].
  rewrite <- E, elem_of_dedup. unfold sort_caps.
  assert (H : forall l, c ∈ foldr insert_cap [] l <-> c ∈ l).
  { induction l as [|d l IH]; [done|]. cbn [foldr]. by rewrite insert_cap_elem, IH, elem_of_cons. }
  rewrite H, elem_of_app. done.
Qed.

Section registers.
Context {HP : Platform} {X : Type}.

(** A tool the kernel accepts under these grants. *)
Record acceptable (grants : list Capability) (t : Tool X) : Prop := {
  acc_name : is_valid_tool_name (tool_name t) = true;
  acc_caps : Forall (cap_ok grants) (tool_capabilities t);
  acc_command : tool_kind t = Session -> is_Some (tool_session_command t)
}.
Lemma acceptable_entries grants limits (ts : list (Tool X)) :
  Forall (fun n => env_name_is_secret_like n = false) (lim_env_allowlist limits) ->
  (lim_scratch_tmpfs_mb limits <= SAFE)%N -> Forall (acceptable grants) ts ->
  exists es, Forall2 (entry_ok grants limits) ts es.
Proof.
  intros Henv Hs H. induction H as [|t ts [Hn Hc Hk] _ [es IH]]; [by exists []|].
  destruct (proj2 (derive_ok_iff (tool_capabilities t) grants limits)) as [pol Hpol]; [done|].
  destruct (derive_inv _ _ _ _ Hpol) as (_ & _ & _ & _ & _ & _ & _ & Ht & Hsc & _).
  destruct (policy_hash_total pol) as [h Hh].
  { rewrite Hsc. unfold SAFE in *. lia. }
  { rewrite Ht. unfold clampN, MIN_TIMEOUT, MAX_TIMEOUT, secs. lia. }
  exists ({| re_tool := t; re_kind := tool_kind t; re_capabilities := tool_capabilities t; re_policy := pol;
             re_policy_hash := h |} :: es). constructor; [|done]. by split_and!.
Qed.
Lemma registry_builds grants limits (ts : list (Tool X)) :
  Forall (fun n => env_name_is_secret_like n = false) (lim_env_allowlist limits) ->
  (lim_scratch_tmpfs_mb limits <= SAFE)%N -> Forall (acceptable grants) ts -> NoDup (tool_name <$> ts) ->
  exists r, build_registry ts grants limits = Ok r /\ reg_definitions r = definition <$> ts.
Proof.
  intros Henv Hs Hts Hn. destruct (acceptable_entries _ _ _ Henv Hs Hts) as [es Hes]. unfold build_registry.
  destruct (build_entries_total grants limits ts es [] [] indexed_nil Hes) as [b Hb].
  { by rewrite app_nil_l, (entry_names _ _ _ _ Hes). }
  rewrite Hb. cbn [mbind result_bind].
  destruct (proj2 (derive_ok_iff (List.filter non_secret grants) grants limits)) as [env He].
  { split; [|done]. apply Forall_forall. intros c [Hin Hns]%list_elem_of_In%List.filter_In.
    destruct c; try done; cbn [cap_ok]; apply existsb_exists; (eexists; split; [exact Hin|apply narrower_than_refl]). }
  rewrite He. cbn [mbind result_bind map_err].
  destruct (derive_inv _ _ _ _ He) as (_ & _ & _ & _ & _ & _ & _ & Ht & Hsc & _).
  destruct (policy_hash_total env) as [h Hh].
  { rewrite Hsc. unfold SAFE in *. lia. }
  { rewrite Ht. unfold clampN, MIN_TIMEOUT, MAX_TIMEOUT, secs. lia. }
  rewrite Hh. eexists. split; [reflexivity|]. cbn [reg_definitions]. rewrite app_nil_l.
  clear -Hes. induction Hes as [|t e ts es (Ht & _) _ IH]; [done|]. rewrite !fmap_cons, <- IH. f_equal. simpl. by rewrite Ht.
Qed.
End registers.

Section session.
Context {HP : Platform} {HJ : JsonText} {HF : FileSystem} {X : Type}.
Context (host : Host X) (current_dir : option string) (repl_server_source : string).
Context (session_call : SessionProcess X -> RpcRequest -> X -> X * Call (result SandboxError RpcResponse)).
Context (detach : TaskId -> SandboxPolicy -> Command -> X -> X).
Context (canonicalize : string -> result string string).
Context (dev_build : bool) (bwrap_backend none_backend : SandboxBackend X * Launcher X).
Notation set := (compiled_extensions host current_dir repl_server_source session_call detach).
Notation reg := (registry host current_dir repl_server_source session_call detach dev_build).
Notation tools_of_session := (session_tools host current_dir repl_server_source session_call detach canonicalize).

Lemma set_tools_are setup ts : set_tools set setup = Ok ts ->
  ts = base_tools repl_server_source session_call detach host (launcher_name (ss_sandbox setup)) (ss_sandbox setup) current_dir
         (ss_workdir setup) ++ [ask_user_tool host].
Proof. intros H. unfold set_tools in H. apply check_tools_names in H as (-> & _). reflexivity. Qed.
Lemma base_tools_reach own sandbox w :
  Forall (fun t => Forall host_reach (tool_capabilities t) /\ (tool_kind t = Session -> is_Some (tool_session_command t)))
    (base_tools repl_server_source session_call detach host own sandbox current_dir w).
Proof.
  unfold base_tools. generalize (normalize_workdir current_dir w). intros wd.
  repeat (apply Forall_cons; split; [split; [cbn; by repeat constructor|cbn; first [done|by eexists]]|]). constructor.
Qed.

(** A compiled tool is the one its declaration in the registry describes. *)
Lemma compiled_tool_declared workdir sandbox ts t decl :
  set_tools set {| ss_workdir := workdir; ss_sandbox := sandbox |} = Ok ts -> t ∈ ts ->
  omap_get (tool_name t) (br_tools (reg workdir)) = Some decl ->
  tool_capabilities t = decl_capabilities decl /\ Forall host_reach (tool_capabilities t) /\
  (tool_kind t = Session -> is_Some (tool_session_command t)).
Proof.
  intros Hts Ht Hd. pose proof Hts as (_ & Hn & _)%check_tools_names. pose proof (set_tools_are _ _ Hts) as E.
  cbn [ss_workdir ss_sandbox] in E. split.
  - unfold registry, br_tools in Hd. rewrite compiled_decls_valid in Hd.
    assert (Hdecl : tool_decl t ∈ tool_decls current_dir workdir ++ [(ASK_USER_TOOL_NAME, Stateless, [])]).
    { rewrite E, elem_of_app in Ht. apply elem_of_app. destruct Ht as [Ht|Ht].
      - left. rewrite <- (tool_decls_are_the_tools repl_server_source session_call HJ detach host (launcher_name sandbox) sandbox).
        by apply list_elem_of_fmap_2.
      - right. apply list_elem_of_singleton in Ht as ->. left. }
    apply omap_get_of_list_inv in Hd. apply list_elem_of_fmap in Hd as ([[n k] caps] & [= Hname ->] & Hin). cbn.
    assert (Heq : (n, k, caps) = tool_decl t) by (by apply (fmap_NoDup_inj (fun d : string * ToolKind * list Capability => d.1.1) _ _ _ (decl_names_distinct current_dir workdir))).
    by injection Heq as _ _ ->.
  - rewrite E, elem_of_app in Ht. destruct Ht as [Ht|Ht].
    + pose proof (base_tools_reach (launcher_name sandbox) sandbox workdir) as H. rewrite Forall_forall in H. by apply H.
    + apply list_elem_of_singleton in Ht as ->. by split.
Qed.
Lemma pick_tool_spec ki (all : list (Tool X)) name t : pick_tool ki all name = Ok t ->
  tool_name t = name /\ exists t0, t0 ∈ all /\ tool_name t0 = name /\ tool_capabilities t = tool_capabilities t0 /\
    tool_kind t = tool_kind t0 /\ tool_session_command t = tool_session_command t0.
Proof.
  unfold pick_tool, find_tool. destruct (head _) as [t0|] eqn:Hh; [|done].
  assert (Hin : t0 ∈ List.filter (fun t => bool_decide (tool_name t = name)) all).
  { destruct (List.filter _ _); [done|]. injection Hh as ->. left. }
  apply list_elem_of_In, List.filter_In in Hin as [Hin Hn%bool_decide_eq_true]. apply list_elem_of_In in Hin.
  intros [= <-]. destruct (omap_get name _); cbn; (split; [done|]); by exists t0.
Qed.
Lemma picked_tools ki (all ts : list (Tool X)) : mapR (pick_tool ki all) (ki_tools ki) = Ok ts ->
  tool_name <$> ts = ki_tools ki /\ forall t, t ∈ ts -> exists name, name ∈ ki_tools ki /\ pick_tool ki all name = Ok t.
Proof.
  intros H%mapR_Ok. split.
  - induction H as [|n t ns ts Hp _ IH]; [done|]. rewrite fmap_cons, IH. f_equal. by apply pick_tool_spec in Hp as [-> _].
  - intros t [i Hi]%list_elem_of_lookup. destruct (Forall2_lookup_r _ _ _ _ _ H Hi) as (n & Hn & Hp). exists n.
    split; [by eapply list_elem_of_lookup_2|done].
Qed.

Lemma session_tools_acceptable o ki workdir sandbox ts loaded :
  launchable (reg workdir) ki -> tools_of_session o ki workdir sandbox = Ok (ts, loaded) ->
  Forall (acceptable (session_grants ki loaded)) ts /\ NoDup (tool_name <$> ts) /\
  tool_name <$> ts = ki_tools ki ++ (pt_name <$> ld_tools loaded).
Proof.
  intros [Hdist Hknown _ _] (all & Hall%map_err_Ok & (picked & Hpick & (ld & Hld%map_err_Ok & [= <- <-])%result_bind_Ok)
    %result_bind_Ok)%result_bind_Ok.
  destruct (picked_tools _ _ _ Hpick) as [Hnames Hin]. pose proof Hall as (_ & _ & _ & Hvalid)%check_tools_names.
  pose proof (set_tools_are _ _ Hall) as E. unfold load_all in Hld.
  apply load_dirs_ok in Hld as (seen & Hn & Hld); [|by intros; eapply load_ok|split; [constructor|by intros ? ?%elem_of_nil]].
  assert (Hsub : forall g, g ∈ ki_grants ki -> g ∈ session_grants ki ld) by (intros g Hg; apply session_grants_elem; by left).
  assert (Hnm : tool_name <$> (process_tool session_call sandbox <$> ld_tools ld) = pt_name <$> ld_tools ld)
    by (rewrite <- list_fmap_compose; by apply list_fmap_ext).
  assert (Hv : forall t, t ∈ picked -> is_valid_tool_name (tool_name t) = true /\ starts_with EXT_TOOL_PREFIX (tool_name t) = false).
  { intros t (name & _ & (-> & t0 & Ht0 & <- & _)%pick_tool_spec)%Hin. rewrite Forall_forall in Hvalid.
    apply Hvalid. cbn [ss_workdir ss_sandbox] in E. rewrite E in Ht0. exact Ht0. }
  split; [|split].
  - apply Forall_app. split; apply Forall_forall.
    + intros t Ht. pose proof (Hv t Ht) as [Hvn _]. destruct (Hin t Ht) as (name & Hname & Hp).
      destruct (pick_tool_spec _ _ _ _ Hp) as (_ & t0 & Ht0 & Hn0 & Hc & Hk & Hcmd).
      destruct (Hknown name Hname) as (decl & Hd & Hcov). rewrite <- Hn0 in Hd.
      destruct (compiled_tool_declared _ _ _ _ _ Hall Ht0 Hd) as (Hc0 & Hr & Hs). split; [done| |by rewrite Hk, Hcmd].
      rewrite Hc. apply Forall_forall. intros c Hcin. rewrite Forall_forall in Hr. apply (cap_ok_more (ki_grants ki)); [done|].
      apply host_reach_cap_ok; [by apply Hr|]. apply Hcov. by rewrite <- Hc0.
    + intros t (pt & -> & Hpt)%list_elem_of_fmap. destruct (Hld pt Hpt) as (m & _ & _ & [Hm (sp & Hsp & Hspn) Hcaps [pol Hpol] _]).
      split.
      * cbn. rewrite Hspn. destruct (mok_tools m Hm) as (_ & _ & Ht). rewrite Forall_forall in Ht. apply (Ht sp Hsp).
      * cbn [process_tool tool_capabilities]. rewrite Hcaps.
        destruct (derive_inv _ _ _ _ Hpol) as (_ & _ & _ & Hcov & _). eapply Forall_impl; [exact Hcov|].
        intros c. by apply cap_ok_more.
      * cbn. destruct (pt_kind pt); [done|by eexists].
  - rewrite fmap_app, Hnm, Hnames. apply NoDup_app. split; [done|]. split; [|done].
    intros n Hn1 (pt & -> & Hpt)%list_elem_of_fmap. rewrite <- Hnames in Hn1. apply list_elem_of_fmap in Hn1 as (t & He & Ht).
    destruct (Hv t Ht) as [_ Hp]. destruct (Hld pt Hpt) as (m & _ & _ & [_ (sp & _ & Hspn) _ _ _]).
    rewrite <- He, Hspn in Hp. unfold ext_tool_name in Hp.
    assert (Hy : starts_with EXT_TOOL_PREFIX (EXT_TOOL_PREFIX +:+ mf_name m +:+ "." +:+ ts_name sp) = true)
      by (apply starts_with_spec; by eexists). by rewrite Hy in Hp.
  - by rewrite fmap_app, Hnm, Hnames.
Qed.

Context {L : Type} {HA : ArtifactStore X} {HW : WireText} {HS : SecretResolver X}.
Context (show_quirks_error : QuirksError -> string) (endpoint_url : string -> result HostError string).
Notation assembled := (assemble (L := L) host current_dir repl_server_source session_call detach canonicalize dev_build
  bwrap_backend none_backend show_quirks_error endpoint_url).
Notation resolved := (resolve_profile host current_dir repl_server_source session_call detach dev_build).

(** C3: a profile that resolves against the build never fails later for its
    tools.  If the launcher resolves a catalog entry and assembles a configuration from it, the
    kernel builds its tool registry: every allowed tool exists in the build, its capabilities are
    within the grants the kernel checks again, no extension's tool takes a compiled tool's name,
    every name is valid and every session tool has a command.  The model is offered the allowed
    tools in the profile's order, then those of the extensions; what the kernel is granted beyond
    the profile is the use of those extension tools; and tools run without isolation only in a
    development build. *)
Theorem resolved_session_registers o workdir agent overrides resume rd redactor (log : L) provider x x' cfg :
  resolved o workdir agent overrides resume = Ok rd ->
  assembled o (rd_kernel_inputs rd) workdir redactor log provider x = (x', Ok cfg) ->
  (lim_scratch_tmpfs_mb (ki_sandbox_limits (rd_kernel_inputs rd)) <= SAFE)%N ->
  exists r loaded, build_registry (cfg_tools cfg) (cfg_grants cfg) (cfg_sandbox_limits cfg) = Ok r /\
    load_extensions canonicalize o (rd_kernel_inputs rd) workdir = Ok loaded /\
    td_name <$> reg_definitions r = ki_tools (rd_kernel_inputs rd) ++ (pt_name <$> ld_tools loaded) /\
    (forall c, c ∈ cfg_grants cfg -> c ∈ ki_grants (rd_kernel_inputs rd) \/ c ∈ tool_atoms loaded) /\
    (cfg_sandbox cfg = bwrap_backend.1 \/ dev_build = true /\ cfg_sandbox cfg = none_backend.1).
Proof.
  unfold resolve_profile. intros Hr Ha Hs.
  destruct (Narrowing.resolve (resolve_inputs host current_dir repl_server_source session_call detach dev_build o workdir agent overrides resume))
    as [[rd0|ds]|u] eqn:Hres; [|done..]. cbn in Hr. injection Hr as ->.
  apply resolve_launchable in Hres. cbn [resolve_inputs in_registry] in Hres.
  unfold assemble in Ha. destruct (choose_backend _ _ _ o (rd_kernel_inputs rd)) as [backend|e] eqn:Hb; [|done].
  cbn [mbind result_bind] in Ha. destruct (tools_of_session o (rd_kernel_inputs rd) workdir backend.2) as [[ts loaded]|e] eqn:Ht; [|done].
  cbn [mbind result_bind] in Ha. destruct (session_middleware _ _ _ _ _ _) as [mw|e]; [|done]. cbn [mbind result_bind] in Ha.
  destruct (match provider with Some p => _ | None => _ end) as [x1 [p|e]]; [|done]. injection Ha as _ <-.
  cbn [cfg_tools cfg_grants cfg_sandbox_limits cfg_sandbox].
  destruct (session_tools_acceptable _ _ _ _ _ _ Hres Ht) as (Hacc & Hn & Hnames).
  destruct (la_envelope _ _ Hres) as [pol Hpol].
  destruct (registry_builds (session_grants (rd_kernel_inputs rd) loaded) (ki_sandbox_limits (rd_kernel_inputs rd)) ts) as (r & Hreg & Hdefs).
  { apply (proj1 (derive_ok_iff _ _ _) (ex_intro _ pol Hpol)). }
  { done. } { done. } { done. }
  exists r, loaded. split; [done|]. split_and!.
  - unfold session_tools in Ht. apply result_bind_Ok in Ht as (? & _ & Ht). apply result_bind_Ok in Ht as (? & _ & Ht).
    apply result_bind_Ok in Ht as (ld & Hld & Ht). by injection Ht as _ <-.
  - rewrite Hdefs, <- Hnames, <- list_fmap_compose. by apply list_fmap_ext.
  - intros c Hc. by apply session_grants_elem.
  - unfold choose_backend in Hb. case_decide; [injection Hb as <-; by left|]. case_decide; [|done].
    destruct dev_build; [|done]. injection Hb as <-. by right.
Qed.
End session.

#[local] Existing Instance toy_platform.
#[local] Existing Instance toy_json.

(** * A build over scripted processes *)

Definition la_fs : FileSystem := {|
  fs_read p := ok_or "No such file or directory (os error 2)"
                 (if decide (p = "/w/.grist/agent.toml") then None else wit_file p);
  fs_is_file p := negb (bool_decide (p = "/w/.grist/agent.toml")) && bool_decide (is_Some (wit_file p));
  fs_is_dir _ := true;
  parse_table text := Ok (wit_tables text);
  show_f64 _ := "0.5" |}.
Definition la_options : LaunchOptions := {|
  lo_profiles_dir := "/p"; lo_state_dir := "/home/u/.grist"; lo_home := "/home/u"; lo_sandbox_override := None;
  lo_question_capacity := 8; lo_delta_capacity := 1024 |}.
Definition la_launcher : Launcher script :=
  {| launcher_name := "bwrap"; launch_stateless _ _ x := (x, {| call_pending := 0; call_end := None |}) |}.
Definition la_call (p : SessionProcess script) (r : RpcRequest) (x : script) : script * Call (result SandboxError RpcResponse) :=
  (x, {| call_pending := 0; call_end := None |}).
#[local] Instance la_wire : WireText := {| block_to_string _ := ""; base64_encode b := b |}.
#[local] Instance la_secrets : SecretResolver script := {| resolve_secret name x := (x, Err (HostIo name)) |}.
Notation la_resolve := (resolve_profile (HF := la_fs) remote_client_host (Some "/") EmptyString la_call (fun _ _ _ x => x)
  false la_options "/w" "default" [] false).
Notation la_assembled rd := (assemble (HF := la_fs) (HW := la_wire) (HS := la_secrets) remote_client_host (Some "/") EmptyString
  la_call (fun _ _ _ x => x) Ok false (wit_sandbox, la_launcher) (wit_sandbox, la_launcher) (fun _ => EmptyString) Ok la_options
  (rd_kernel_inputs rd) "/w" plain_redactor wit_log (Some (wit_provider (Ok wit_calls))) []).
Lemma la_run_ok : exists rd x' cfg, la_resolve = Ok rd /\ la_assembled rd = (x', Ok cfg) /\
  (lim_scratch_tmpfs_mb (ki_sandbox_limits (rd_kernel_inputs rd)) <= SAFE)%N.
Proof.
  assert (H : match la_resolve with
              | Ok rd => match la_assembled rd with
                         | (_, Ok cfg) => (lim_scratch_tmpfs_mb (ki_sandbox_limits (rd_kernel_inputs rd)) <=? SAFE)%N
                         | _ => false
                         end
              | _ => false
              end = true) by (lazy; reflexivity).
  destruct la_resolve as [rd|e]; [|discriminate H].
  destruct (la_assembled rd) as [x' [cfg|e]] eqn:Ha; [|discriminate H].
  exists rd, x', cfg. split; [reflexivity|]. split; [exact Ha|]. by apply N.leb_le.
Qed.

(** An agent that is allowed [read] alone, in a production build. *)
Lemma resolved_session_registers_witness : exists rd x' cfg r,
  la_resolve = Ok rd /\ la_assembled rd = (x', Ok cfg) /\
  build_registry (cfg_tools cfg) (cfg_grants cfg) (cfg_sandbox_limits cfg) = Ok r /\ cfg_sandbox cfg = wit_sandbox.
Proof.
  destruct la_run_ok as (rd & x' & cfg & Hr & Ha & Hs). exists rd, x', cfg.
  destruct (resolved_session_registers _ _ _ _ _ _ _ _ _ _ _ _ _ _ _ _ _ _ _ _ _ _ _ Hr Ha Hs)
    as (r & _ & Hb & _ & _ & _ & Hk). exists r. split; [exact Hr|]. split; [exact Ha|]. split; [exact Hb|].
  destruct Hk as [Hk|[_ Hk]]; exact Hk.
Defined.

(** * The provider's network *)

(** An IPv6 endpoint leaves no host name, so the provider may reach every host; and a host in
    capitals is allowed as it is written, while requests ask for it in lower case, so none passes. *)
Example ipv6_endpoint_opens_the_network : provider_allow "http://[::1]:8080/v1" = Any.
Proof. reflexivity. Qed.
Lemma lowercase_no_A s t : to_ascii_lowercase s <> String "A" t.
Proof.
  destruct s as [|c s]; [done|]. unfold to_ascii_lowercase. cbn [map_bytes]. intros [= H _]. revert H.
  destruct c as [[] [] [] [] [] [] [] []]; vm_compute; discriminate.
Qed.
Example capital_host_never_reached :
  forall host port, host_allowed (provider_allow "https://API.example/v1") host port = false.
Proof.
  intros host port. change (provider_allow _) with (Hosts ["API.example"]). unfold host_allowed, net_normalize_host.
  set (h := trim_end_matches "." (trim host)). pose proof (lowercase_no_A h) as Hh.
  assert (Hx : forall x, x <> EmptyString -> to_ascii_lowercase h +:+ x = "API.example" -> exists y, x = String "A" y).
  { intros x Hx He. destruct (to_ascii_lowercase h) as [|c t] eqn:E; [by eexists|]. injection He as -> _. destruct (Hh t). reflexivity. }
  apply orb_false_iff. split.
  - apply bool_decide_eq_false. intros H%list_elem_of_singleton. by apply (Hh "PI.example").
  - destruct port as [p|]; [|done]. apply bool_decide_eq_false. intros H%list_elem_of_singleton.
    destruct (Hx (":" +:+ show_N p)) as [y Hy]; [done| |discriminate Hy]. exact H.
Qed.
