(* ===== verification/AcpProject.v ===== *)
(** What a client sees of a session ([crates/orchestrator/src/acp/project.rs]): the projection of
    logged events and streaming deltas onto the updates of the Agent Client Protocol, whose record
    types are built here with the fields the program sets. *)

From S2P Require Import Prelude Ord Str Utf8 Capability Sandbox Json Strict Codec Data Event State Outside Accumulate BaseTools.

Open Scope string_scope.
Open Scope list_scope.

(** * Updates *)

Inductive AcpToolKind : Type := AcpRead | AcpEdit | AcpExecute | AcpOther.
Inductive AcpToolStatus : Type := AcpInProgress | AcpCompleted | AcpFailed.

(** The variants of [SessionUpdate] the projection builds; [shown] is a tool call's text content. *)
Inductive SessionUpdate : Type :=
  | UserMessageChunk (text : string)
  | AgentMessageChunk (text : string)
  | AgentThoughtChunk (text : string)
  | AcpToolCall (id title : string) (kind : AcpToolKind) (status : AcpToolStatus) (raw_input : json)
  | AcpToolCallUpdate (id : string) (status : AcpToolStatus) (raw_output : json) (shown : option string).

Definition tool_kind (name : string) : AcpToolKind :=
  if decide (name = "read") then AcpRead
  else if decide (name ∈ ["write"; "edit"]) then AcpEdit
  else if decide (name ∈ ["bash"; "run_script"; "python"]) then AcpExecute
  else AcpOther.

(** [s.chars().take(n)]. *)
Fixpoint take_chars (n : nat) (s : string) : string :=
  match n, s with
  | S n, String _ _ => str_take (head_char s).2 s +:+ take_chars n (str_drop (head_char s).2 s)
  | _, _ => ""
  end.
Definition first_line (s : string) : string := take_chars 80 (default "" (head (lines s))).
Definition title_keys : list string := ["path"; "command"; "code"; "question"].
Definition title (name : string) (input : json) : string :=
  match head (omap (fun k => jget k input ≫= as_str) title_keys) with
  | Some s => if decide (first_line s = "") then name else name +:+ ": " +:+ first_line s
  | None => name
  end.

Definition block_text (b : ContentBlock) : option string := match b with Text t => Some t | _ => None end.
Definition response_update (b : ContentBlock) : option SessionUpdate :=
  match b with
  | Text t => Some (AgentMessageChunk t)
  | Thinking t _ => Some (AgentThoughtChunk t)
  | _ => None
  end.
Definition result_output (c : ToolResultContent) : json * option string :=
  match c with
  | Json v => (v, None)
  | Blocks blocks =>
      let joined := omap block_text blocks in
      (enc (clist ContentBlock_codec) blocks,
       if decide (joined = []) then None else Some (join (String newline "") joined))
  end.
Definition finished (is_error : bool) : AcpToolStatus := if is_error then AcpFailed else AcpCompleted.

Definition updates_for (body : EventBody) (include_text : bool) : list SessionUpdate :=
  match body with
  | EvUserMessage p => UserMessageChunk <$> omap block_text (umsg_content p)
  | EvModelResponse p => if include_text then omap response_update (mresp_content p) else []
  | EvToolCall p =>
      [AcpToolCall (tcall_tool_use_id p) (title (tcall_name p) (tcall_input p)) (tool_kind (tcall_name p))
         AcpInProgress (tcall_input p)]
  | EvToolResult p =>
      let '(raw, shown) := result_output (tres_content p) in
      [AcpToolCallUpdate (tres_tool_use_id p) (finished (tres_is_error p)) raw shown]
  | EvTaskUpdate p =>
      if is_terminal (tupd_status p) then
        let is_error := match tupd_outcome p with Some o => oc_is_error o | None => false end in
        [AcpToolCallUpdate ("task:" +:+ tupd_task_id p) (finished is_error) (enc TaskUpdatePayload_codec p) None]
      else []
  | _ => []
  end.
Definition delta_update (d : ModelDelta) : option SessionUpdate :=
  match d with
  | TextDelta _ t => Some (AgentMessageChunk t)
  | ThinkingDelta _ t => Some (AgentThoughtChunk t)
  | _ => None
  end.

(** * The projector *)

Record Projector : Type := { streamed : bool }.
Definition projector_new : Projector := {| streamed := false |}.
Definition is_request (b : EventBody) : bool := match b with EvModelRequest _ => true | _ => false end.
Definition is_response (b : EventBody) : bool := match b with EvModelResponse _ => true | _ => false end.

Definition project_event (body : EventBody) (p : Projector) : Projector * list SessionUpdate :=
  let p := if is_request body then {| streamed := false |} else p in
  let out := updates_for body (negb (streamed p)) in
  (if is_response body then {| streamed := false |} else p, out).
Definition project_delta (d : ModelDelta) (p : Projector) : Projector * option SessionUpdate :=
  let u := delta_update d in
  (match u with Some _ => {| streamed := true |} | None => p end, u).

(** What the projection task receives, in the order it receives it, and what it sends. *)
Inductive Item : Type := Logged (body : EventBody) | Streamed (d : ModelDelta).
Definition project_item (i : Item) (p : Projector) : Projector * list SessionUpdate :=
  match i with
  | Logged b => project_event b p
  | Streamed d => let '(p, u) := project_delta d p in (p, match u with Some u => [u] | None => [] end)
  end.
Fixpoint project (items : list Item) (p : Projector) : Projector * list SessionUpdate :=
  match items with
  | [] => (p, [])
  | i :: items =>
      let '(p, us) := project_item i p in
      let '(p, more) := project items p in
      (p, us ++ more)
  end.

(** * What a client reads *)

Definition agent_text (us : list SessionUpdate) : string :=
  foldr (fun u s => match u with AgentMessageChunk t => t +:+ s | _ => s end) "" us.
Definition agent_thoughts (us : list SessionUpdate) : string :=
  foldr (fun u s => match u with AgentThoughtChunk t => t +:+ s | _ => s end) "" us.
Definition content_text (bs : list ContentBlock) : string :=
  foldr (fun b s => match b with Text t => t +:+ s | _ => s end) "" bs.
Definition content_thoughts (bs : list ContentBlock) : string :=
  foldr (fun b s => match b with Thinking t _ => t +:+ s | _ => s end) "" bs.
Definition deltas_of (items : list Item) : list ModelDelta :=
  omap (fun i => match i with Streamed d => Some d | Logged _ => None end) items.
Definition chats (ds : list ModelDelta) : bool := existsb (fun d => bool_decide (is_Some (delta_update d))) ds.

Lemma agent_text_app us us' : agent_text (us ++ us') = agent_text us +:+ agent_text us'.
Proof. induction us as [|u us IH]; [done|]. simpl. destruct u; rewrite ?IH, ?str_app_assoc; done. Qed.
Lemma agent_thoughts_app us us' : agent_thoughts (us ++ us') = agent_thoughts us +:+ agent_thoughts us'.
Proof. induction us as [|u us IH]; [done|]. simpl. destruct u; rewrite ?IH, ?str_app_assoc; done. Qed.

Lemma response_shows bs :
  agent_text (omap response_update bs) = content_text bs /\ agent_thoughts (omap response_update bs) = content_thoughts bs.
Proof. induction bs as [|b bs [IH1 IH2]]; [done|]. destruct b; (split; [exact IH1 || exact (f_equal (String.append _) IH1)|exact IH2 || exact (f_equal (String.append _) IH2)]). Qed.

(** Events that are neither a model request nor a response show the client no answer. *)
Definition between (i : Item) : Prop :=
  match i with Logged b => is_request b = false /\ is_response b = false | Streamed _ => True end.
Lemma other_events_say_nothing b incl :
  is_response b = false -> agent_text (updates_for b incl) = "" /\ agent_thoughts (updates_for b incl) = "".
Proof.
  intros Hb. destruct b; simpl in *; try done.
  - induction (umsg_content p) as [|c cs [IH1 IH2]]; [done|]. destruct c; simpl; auto.
  - by destruct (result_output _).
  - by destruct (is_terminal _).
Qed.

Lemma project_app xs ys p :
  project (xs ++ ys) p = let '(p, us) := project xs p in let '(p, more) := project ys p in (p, us ++ more).
Proof.
  revert p. induction xs as [|i xs IH]; intros p; cbn [app project]; [by destruct (project ys p)|].
  destruct (project_item i p) as [p1 u1]. rewrite IH. destruct (project xs p1) as [p2 u2].
  destruct (project ys p2) as [p3 u3]. by rewrite app_assoc.
Qed.

Lemma project_between items p : Forall between items ->
  exists us, project items p = ({| streamed := streamed p || chats (deltas_of items) |}, us) /\
  agent_text us = texts (deltas_of items) /\ agent_thoughts us = thoughts (deltas_of items).
Proof.
  intros H. revert p. induction H as [|i items Hi H IH]; intros p.
  { exists []. destruct p as [b]. cbn. by rewrite orb_false_r. }
  destruct i as [b|d]; cbn [between] in Hi.
  - destruct Hi as [Hq Hr]. cbn [project project_item project_event]. unfold project_event. rewrite Hq, Hr.
    destruct (IH p) as (us & -> & Ht & Hth). eexists. split; [reflexivity|].
    destruct (other_events_say_nothing b (negb (streamed p)) Hr) as [E1 E2].
    rewrite agent_text_app, agent_thoughts_app, E1, E2. done.
  - cbn [project project_item project_delta]. unfold project_delta.
    destruct d; simpl; match goal with |- context [project items ?q] => destruct (IH q) as (us & -> & Ht & Hth) end;
      (eexists; split; [simpl; rewrite ?orb_true_r; reflexivity|]); simpl; by rewrite ?Ht, ?Hth.
Qed.

(** A conversation as the projection task receives it: rounds of a request, anything but another
    request or response, and the response, the deltas of a round being those that spell its
    response, or none that shows. *)
Inductive conversation : list Item -> list ModelResponsePayload -> Prop :=
  | over items : Forall between items -> chats (deltas_of items) = false -> conversation items []
  | round before q middle r rest rs :
      Forall between before -> chats (deltas_of before) = false -> Forall between middle ->
      (chats (deltas_of middle) = true ->
         texts (deltas_of middle) = content_text (mresp_content r) /\
         thoughts (deltas_of middle) = content_thoughts (mresp_content r)) ->
      conversation rest rs ->
      conversation (before ++ [Logged (EvModelRequest q)] ++ middle ++ [Logged (EvModelResponse r)] ++ rest) (r :: rs).

Lemma silent_deltas ds : chats ds = false -> texts ds = "" /\ thoughts ds = "".
Proof. induction ds as [|d ds IH]; [done|]. destruct d; simpl; try done; intros Hc%IH; done. Qed.

(** C27: in a [conversation], the client reads every answer of the model exactly once: the text and
    the thoughts that the updates spell are those of its responses, in order and without
    repetition, whether a response was streamed as deltas before it was logged or arrives with its
    event alone.  A [conversation] is what the projection task receives when no delta that shows
    is handled before the event of its request, and those handled between a request and its response
    spell that response or show nothing.  The task does not ensure the first:
    [overtaken_request_repeats_the_text] has the text shown twice without it. *)
Theorem answers_shown_once items rs p :
  conversation items rs ->
  agent_text (project items p).2 = foldr (fun r s => content_text (mresp_content r) +:+ s) "" rs /\
  agent_thoughts (project items p).2 = foldr (fun r s => content_thoughts (mresp_content r) +:+ s) "" rs.
Proof.
  intros H. revert p. induction H as [items Hi Hc|before q middle r rest rs Hb Hcb Hm Hs Hrest IH]; intros p.
  - destruct (project_between items p Hi) as (us & -> & Et & Eth). cbn [snd]. rewrite Et, Eth. by apply silent_deltas.
  - destruct (project_between before p Hb) as (us & Eb & Et & Eth). destruct (silent_deltas _ Hcb) as [Z1 Z2].
    destruct (project_between middle {| streamed := false |} Hm) as (um & Em & Mt & Mth).
    destruct (project rest {| streamed := false |}) as [pr ur] eqn:Hr. specialize (IH {| streamed := false |}). rewrite Hr in IH.
    assert (Hw : project (before ++ [Logged (EvModelRequest q)] ++ middle ++ [Logged (EvModelResponse r)] ++ rest) p =
      (pr, us ++ um ++ updates_for (EvModelResponse r) (negb (chats (deltas_of middle))) ++ ur)).
    { rewrite project_app, Eb. cbn [app project project_item]. unfold project_event at 1. cbn [is_request is_response].
      rewrite project_app, Em. cbn [app project project_item]. unfold project_event. cbn [is_request is_response streamed orb].
      by rewrite Hr. }
    rewrite Hw. cbn [snd foldr] in *. destruct IH as [<- <-].
    rewrite !agent_text_app, !agent_thoughts_app, Et, Eth, Mt, Mth, Z1, Z2. cbn [String.append updates_for].
    destruct (chats (deltas_of middle)) eqn:Hch; cbn [negb].
    + destruct (Hs eq_refl) as [-> ->]. done.
    + destruct (silent_deltas _ Hch) as [-> ->]. destruct (response_shows (mresp_content r)) as [-> ->]. done.
Qed.

(** ** Witness *)

Definition wit_request : EventBody := EvModelRequest {|
  mreq_turn := 1; mreq_request_hash := ""; mreq_checkpoint_hash := ""; mreq_model_id := "m"; mreq_profiles := wit_profiles;
  mreq_system_prompt_hash := ""; mreq_prompt_blocks := []; mreq_message_count := 1; mreq_tool_names := [];
  mreq_params_hash := "" |}.
Definition wit_answer (bs : list ContentBlock) : ModelResponsePayload := {|
  mresp_turn := 1; mresp_request_hash := ""; mresp_response_hash := ""; mresp_raw_response_hash := "";
  mresp_model_id := "m"; mresp_stop_reason := EndTurn;
  mresp_usage := {| us_input_tokens := 1; us_output_tokens := 1; us_cache_read_tokens := None; us_reasoning_tokens := None |};
  mresp_content := bs; mresp_attempts := 1 |}.
Definition wit_items : list Item :=
  [wit_request; wit_request] ≫= fun q =>
  [Logged q; Streamed (TextDelta 0 "hel"); Streamed (ThinkingDelta 1 "hm"); Streamed (TextDelta 0 "lo");
   Logged (EvModelResponse (wit_answer [Thinking "hm" None; Text "hello"]))].

Lemma answers_shown_once_witness :
  agent_text (project wit_items projector_new).2 = "hellohello" /\
  agent_thoughts (project wit_items projector_new).2 = "hmhm".
Proof.
  assert (H : forall n, conversation (mjoin (replicate n [Logged wit_request; Streamed (TextDelta 0 "hel");
    Streamed (ThinkingDelta 1 "hm"); Streamed (TextDelta 0 "lo");
    Logged (EvModelResponse (wit_answer [Thinking "hm" None; Text "hello"]))]))
    (replicate n (wit_answer [Thinking "hm" None; Text "hello"]))).
  { induction n as [|n IH]; [by apply over|].
    eapply (round [] _ [Streamed (TextDelta 0 "hel"); Streamed (ThinkingDelta 1 "hm"); Streamed (TextDelta 0 "lo")]);
      [done|done|by repeat constructor|done|exact IH]. }
  exact (answers_shown_once _ _ projector_new (H 2)).
Defined.

(** * Where the projection depends on the order of its two sources *)

(** The task prefers deltas to events, so the first deltas of a response can come before the event
    of its request, which then forgets that anything was streamed: the client reads the text twice. *)
Example overtaken_request_repeats_the_text :
  agent_text (project [Streamed (TextDelta 0 "hi"); Logged wit_request; Logged (EvModelResponse (wit_answer [Text "hi"]))]
    projector_new).2 = "hihi".
Proof. reflexivity. Qed.

(** The end of a task is shown under an identifier of its own, so unless a model chose it for a tool
    call, no call the client was shown is completed by it. *)
Lemma task_update_completes_no_call t c us :
  In us (updates_for (EvTaskUpdate t) true) -> (forall s, tcall_tool_use_id c <> "task:" +:+ s) ->
  forall incl cs, In cs (updates_for (EvToolCall c) incl) ->
  match us, cs with AcpToolCallUpdate i _ _ _, AcpToolCall i' _ _ _ _ => i <> i' | _, _ => False end.
Proof.
  cbn. destruct (is_terminal _); [|done]. intros [<-|[]] Hn incl cs [<-|[]]. intros He. by apply (Hn (tupd_task_id t)).
Qed.
