(* ===== verification/Driver.v ===== *)
(** One session's kernel behind a command channel ([crates/orchestrator/src/acp/session.rs]): the task that owns
    the kernel and serves the commands of the protocol handlers one after the other. *)

From S2P Require Import Prelude Ord Str Capability Sandbox Json Strict Codec Data Event State Redact Spill Log FileLog.
From S2P Require Import Outside Registry Kernel Frame Scenario Tasks Retry Turn Answers Lifecycle Sessions Exits.

Open Scope string_scope.
Open Scope list_scope.

(** [grist.rs: StatusResponse]. *)
Record StatusResponse : Type := {
  sr_status : SessionStatus;
  sr_turn : N;
  sr_pending_task_ids : list TaskId;
  sr_in_process_wakers : N;
  sr_log_path : string
}.

Inductive Cmd : Type :=
  | Prompt (m : Message)
  | Resume (cause : ResumeCause)
  | Status
  | End.

Section driver.
Context {HP : Platform} {HJ : JsonText} {X L : Type} {HO : Outside X} {HL : EventLog L} {HA : ArtifactStore X}.
Context (sh : Shared X).
Notation K := (Kernel X L).

(** What a command is answered with; no stop ([None]) is a run that still goes on when the fuel is
    spent, and its command has no answer yet. *)
Inductive CmdReply : Type :=
  | Ran (r : result KernelError RunStop)
  | Snapshot (s : StatusResponse)
  | Ended (r : result KernelError unit).

(** [run_through]. *)
Fixpoint run_through (fuel : nat) : M K KernelError (option RunStop) :=
  match fuel with
  | O => mret None
  | S fuel =>
      stop ← run sh (S fuel);
      match stop with
      | Some (StopSuspended s) => if (0 <? su_in_process_wakers s)%N then run_through fuel else mret (Some (StopSuspended s))
      | stop => mret stop
      end
  end.
Definition status_of (log_path : string) (k : K) : StatusResponse :=
  let open := open_tasks (k_state k) in
  {| sr_status := st_session_status (k_state k); sr_turn := st_turn (k_state k);
     sr_pending_task_ids := sort_ids (tk_id <$> open);
     sr_in_process_wakers := (N.of_nat (length (List.filter tk_in_process_waker open)) mod 2 ^ 32)%N;
     sr_log_path := log_path |}.

(** One command of [drive]'s loop: what the driven call does and how it is answered. *)
Definition prompt (m : Message) (fuel : nat) : M K KernelError (option RunStop) :=
  enqueue_user_message m ;; run_through fuel.
Definition resume_with (cause : ResumeCause) (fuel : nat) : M K KernelError (option RunStop) :=
  status ← get_status;
  match status with
  | Suspended | Failed => resume cause ;; run_through fuel
  | _ => run_through fuel
  end.
Definition answer_run (p : K * result KernelError (option RunStop)) : K * option CmdReply :=
  (p.1, match p.2 with
        | Ok (Some stop) => Some (Ran (Ok stop))
        | Ok None => None
        | Err e => Some (Ran (Err e))
        end).
Definition serve (log_path : string) (fuel : nat) (cmd : Cmd) (k : K) : K * option CmdReply :=
  match cmd with
  | Prompt m => answer_run (prompt m fuel k)
  | Resume cause => answer_run (resume_with cause fuel k)
  | Status => (k, Some (Snapshot (status_of log_path k)))
  | End => let '(k, r) := end_session k in (k, Some (Ended r))
  end.
Definition is_end (c : Cmd) : bool := match c with End => true | _ => false end.

(** [drive]: the commands in the order the channel holds them; the last component is what the
    channel still holds when the task ends, whose senders hear nothing.  A run that goes on keeps
    the commands behind it waiting. *)
Fixpoint drive (log_path : string) (fuel : nat) (cmds : list Cmd) (k : K) : K * list CmdReply * list Cmd :=
  match cmds with
  | [] => (k, [], [])
  | cmd :: cmds =>
      let '(k, r) := serve log_path fuel cmd k in
      match r with
      | None => (k, [], cmds)
      | Some r =>
          if is_end cmd then (k, [r], cmds)
          else let '(k, rs, dropped) := drive log_path fuel cmds k in (k, r :: rs, dropped)
      end
  end.
End driver.

(** * Where a driven run stops *)

Section stops.
Context {HP : Platform} {HJ : JsonText} {X L : Type} {HO : Outside X} {HL : EventLog L} {HA : ArtifactStore X}
  {HC : Clock} {HLL : EventLogLaws L}.
Context (sh : Shared X).
Notation K := (Kernel X L).

(** The kernel is where the stop says. *)
Definition stopped (stop : RunStop) (k : K) : Prop :=
  match stop with
  | StopIdle => st_session_status (k_state k) = Idle
  | StopSuspended s => st_session_status (k_state k) = Suspended /\ s = suspension k
  | StopDone => False
  | StopFailed c => st_session_status (k_state k) = Failed /\ c = error_class_of k
  end.

Lemma turn_outcome_stopped o (k : K) : outcome_holds o k ->
  match o with
  | Continue => True
  | TurnIdle | TurnCancelled => stopped StopIdle k
  | TurnSuspended s => stopped (StopSuspended s) k
  | TurnFailed c => stopped (StopFailed c) k
  end.
Proof.
  destruct o; cbn.
  - done.
  - by intros [[H _ _] _].
  - by intros ([H _ _] & _ & -> & _).
  - intros ([H _ _] & Hc & _). unfold error_class_of. by rewrite Hc.
  - by intros [H _ _].
Qed.
Lemma waited_stopped fuel from (k k' : K) stop :
  (forall (k k' : K) stop, run sh fuel k = (k', Ok (Some stop)) -> stopped stop k') ->
  (item ← try_recv;
   match item with
   | None => run (L := L) sh fuel
   | Some first =>
       apply_inbound_batch first from ;;
       status ← get_status;
       match status with
       | Running | Created => run sh fuel
       | Idle => mret (Some StopIdle)
       | Suspended => s ← gets suspension; mret (Some (StopSuspended s))
       | Failed => c ← gets error_class_of; mret (Some (StopFailed c))
       | Done => throw KernelDone
       end
   end) k = (k', Ok (Some stop)) -> stopped stop k'.
Proof.
  intros IH (item & k1 & _ & H)%bind_ok. destruct item as [first|]; [|by eapply IH].
  apply bind_ok in H as (? & k2 & _ & H). apply bind_ok in H as (status & k3 & [= <- <-] & H).
  destruct (st_session_status (k_state k2)) eqn:Hs; try done; try (by eapply IH).
  - by injection H as <- <-.
  - by injection H as <- <-.
  - by injection H as <- <-.
Qed.
Lemma run_stopped fuel (k k' : K) stop : run sh fuel k = (k', Ok (Some stop)) -> stopped stop k'.
Proof.
  revert k k' stop. induction fuel as [|fuel IH]; [done|]. intros k k' stop. cbn [run].
  intros (status & k1 & [= <- <-] & H)%bind_ok. destruct (st_session_status (k_state k)); try done; try (by eapply waited_stopped).
  apply bind_ok in H as (o & k2 & Ho & H). apply run_turn_inv in Ho as (_ & Ho & _).
  apply turn_outcome_stopped in Ho. destruct o; try (by injection H as <- <-). by eapply IH.
Qed.
Lemma run_through_stopped fuel (k k' : K) stop : run_through sh fuel k = (k', Ok (Some stop)) ->
  stopped stop k' /\ match stop with StopSuspended s => su_in_process_wakers s = 0%N | _ => True end.
Proof.
  revert k. induction fuel as [|fuel IH]; intros k; cbn [run_through]; [done|].
  intros (r & k1 & Hr & H)%bind_ok. destruct r as [s0|]; [|done].
  destruct s0 as [|s| |c]; try (injection H as <- <-; split; [by eapply run_stopped|done]).
  destruct (0 <? su_in_process_wakers s)%N eqn:Hw; [by eapply IH|]. injection H as <- <-.
  split; [by eapply run_stopped|]. apply N.ltb_ge in Hw. lia.
Qed.

(** the answer to a prompt or a resume that stopped says where the
    session is.  The status a client then asks for is the one the answer means; a session reported
    as suspended waits for no task of this process (every such wait was driven through) and for
    exactly the tasks reported; a failure carries the error class the kernel recorded; and no run
    stops by ending the session. *)
Theorem reply_tells_where_it_stopped path fuel cmd (k k' : K) stop :
  serve sh path fuel cmd k = (k', Some (Ran (Ok stop))) ->
  let st := status_of path k' in
  match stop with
  | StopIdle => sr_status st = Idle
  | StopSuspended s => sr_status st = Suspended /\ sr_in_process_wakers st = 0%N /\
      sr_pending_task_ids st = su_pending_task_ids s
  | StopDone => False
  | StopFailed c => sr_status st = Failed /\ c = error_class_of k'
  end.
Proof.
  intros H. assert (Hr : stopped stop k' /\ match stop with StopSuspended s => su_in_process_wakers s = 0%N | _ => True end).
  { destruct cmd as [m|cause| |]; cbn [serve] in H; [| |done|by destruct (end_session k)];
      unfold answer_run in H; injection H as Hk H.
    - destruct (prompt sh m fuel k) as [k1 [[s|]|e]] eqn:Hp; try done. cbn in *. subst. injection H as ->.
      apply bind_ok in Hp as (? & k2 & _ & Hp). by eapply run_through_stopped.
    - destruct (resume_with sh cause fuel k) as [k1 [[s|]|e]] eqn:Hp; try done. cbn in *. subst. injection H as ->.
      apply bind_ok in Hp as (status & k2 & [= <- <-] & Hp).
      destruct (st_session_status (k_state k)); try (by eapply run_through_stopped);
        apply bind_ok in Hp as (? & k3 & _ & Hp); by eapply run_through_stopped. }
  destruct Hr as [Hs Hw]. cbn. destruct stop as [|s| |c]; cbn in Hs; [done| |done|done].
  destruct Hs as [Hs ->]. unfold suspension in Hw |- *. cbn in Hw |- *. rewrite Hw. done.
Qed.

(** ** Every command has its answer *)

Definition answers_cmd (c : Cmd) (r : CmdReply) : Prop :=
  match c, r with
  | Prompt _, Ran _ | Resume _, Ran _ | Status, Snapshot _ | End, Ended _ => True
  | _, _ => False
  end.
Lemma run_through_grows fuel : steps (grows (X := X) (L := L)) (run_through sh fuel).
Proof.
  pose proof (run_grows (L := L) sh) as Hrun. induction fuel as [|fuel IH]; [cbn [run_through]; steps_tac|].
  cbn [run_through]. apply steps_bind; [apply _|apply Hrun|]. intros [[| | |]|]; [steps_tac| |steps_tac..].
  case_match; [exact IH|steps_tac].
Qed.
Lemma serve_grows path fuel c (k : K) : log_grows (k_log k) (k_log (serve sh path fuel c k).1).
Proof.
  destruct c as [m|cause| |]; cbn [serve answer_run fst].
  - assert (Hs : steps (grows (X := X) (L := L)) (prompt sh m fuel)).
    { apply steps_bind; [apply _| |intros ?; apply run_through_grows]. intros k0. unfold enqueue_user_message. by case_decide. }
    apply Hs.
  - assert (Hs : steps (grows (X := X) (L := L)) (resume_with sh cause fuel)).
    { apply steps_bind; [apply _|by intros ?|]. intros status.
      assert (Hr : steps (grows (X := X) (L := L)) (resume cause ;; run_through sh fuel)).
      { apply steps_bind; [apply _|exact (perform_grows sh (OpResume cause))|]. intros ?; apply run_through_grows. }
      destruct status; first [exact Hr|apply run_through_grows]. }
    apply Hs.
  - done.
  - pose proof (perform_grows sh OpEnd k) as He. cbn [perform] in He. by destruct (end_session k).
Qed.
Lemma serve_answers path fuel c (k : K) r : (serve sh path fuel c k).2 = Some r -> answers_cmd c r.
Proof.
  destruct c as [m|cause| |]; cbn [serve answer_run snd].
  - destruct (prompt sh m fuel k).2 as [[?|]|?]; intros H; by simplify_eq.
  - destruct (resume_with sh cause fuel k).2 as [[?|]|?]; intros H; by simplify_eq.
  - by intros [= <-].
  - destruct (end_session k). by intros [= <-].
Qed.
(** The run of the command goes on when the fuel is spent, and leaves the kernel at [k']. *)
Definition goes_on (fuel : nat) (c : Cmd) (k k' : K) : Prop :=
  match c with
  | Prompt m => prompt sh m fuel k = (k', Ok None)
  | Resume cause => resume_with sh cause fuel k = (k', Ok None)
  | Status | End => False
  end.
Lemma serve_waits path fuel c (k k' : K) : serve sh path fuel c k = (k', None) -> goes_on fuel c k k'.
Proof.
  destruct c as [m|cause| |]; cbn [serve goes_on]; [| |done|by destruct (end_session k)]; unfold answer_run.
  - destruct (prompt sh m fuel k) as [k1 [[?|]|?]]; cbn; intros H; by simplify_eq.
  - destruct (resume_with sh cause fuel k) as [k1 [[?|]|?]]; cbn; intros H; by simplify_eq.
Qed.

(** C26: the commands of a session are answered in the order they were sent, each exactly once and
    with an answer of its own kind.  Only two things leave a command without one: a prompt or a
    resume whose run, from where the commands served before it left the session, still goes on when
    the fuel is spent, behind which everything waits; and the end of the session, after which nothing is
    served.  A status or an end that is reached is always answered.  Whatever was served only
    appended to the log. *)
Theorem commands_served_in_order path fuel cmds (k k' : K) rs dropped :
  drive sh path fuel cmds k = (k', rs, dropped) ->
  log_grows (k_log k) (k_log k') /\
  exists served, Forall2 answers_cmd served rs /\
  ((cmds = served /\ End ∉ served /\ dropped = []) \/
   (exists before, served = before ++ [End] /\ End ∉ before /\ cmds = served ++ dropped) \/
   (exists c kc, cmds = served ++ c :: dropped /\ End ∉ served /\
      drive sh path fuel served k = (kc, rs, []) /\ goes_on fuel c kc k')).
Proof.
  revert k rs. induction cmds as [|c cmds IH]; intros k rs; cbn [drive].
  { intros [= <- <- <-]. split; [done|]. exists []. split; [constructor|]. left. split; [done|]. by split; [apply not_elem_of_nil|]. }
  pose proof (serve_grows path fuel c k) as Hg. pose proof (serve_answers path fuel c k) as Ha.
  destruct (serve sh path fuel c k) as [k1 [r|]] eqn:Hserve; cbn [fst snd] in *.
  - specialize (Ha r eq_refl). destruct (is_end c) eqn:He.
    + intros [= <- <- <-]. split; [done|]. exists [c]. split; [by repeat constructor|]. right; left. exists [].
      destruct c; try done. by split; [|split; [apply not_elem_of_nil|]].
    + assert (Hc : c <> End) by (by intros ->).
      destruct (drive sh path fuel cmds k1) as [[k2 rs1] dropped1] eqn:Hd. intros [= <- <- <-].
      destruct (IH _ _ Hd) as (Hg2 & served & Hf & Hs). split; [by etrans|]. exists (c :: served). split; [by constructor|].
      assert (Hin : forall l, End ∉ l -> End ∉ c :: l) by (intros l Hl [?|?]%elem_of_cons; [by apply Hc|done]).
      destruct Hs as [(-> & Hn & ->)|[(before & -> & Hn & ->)|(c' & kc & -> & Hn & Hrun & Hgo)]].
      * left. split; [done|]. by split; [apply Hin|].
      * right; left. exists (c :: before). split; [done|]. by split; [apply Hin|].
      * right; right. exists c', kc. split_and!; [done|by apply Hin| |done]. cbn [drive]. by rewrite Hserve, He, Hrun.
  - intros [= <- <- <-]. split; [done|]. exists []. split; [constructor|]. right; right. exists c, k.
    split_and!; [done|apply not_elem_of_nil|done|by eapply serve_waits].
Qed.
End stops.

(** ** Witnesses *)

#[local] Existing Instance toy_platform.
#[local] Existing Instance wit_clock.
#[local] Existing Instance toy_json.

(** The session waits for its task; the task's update arrives while the driver waits for it. *)
Definition wit_driven : Kernel script MemoryEventLog :=
  wit_kernel_at (with_status Idle wit_state) (replicate 17 [] ++ [[SigTaskUpdate wit_update]]).
Definition wit_served : Shared script := wit_shared (Ok (wit_response [Text "done"])) [wit_entry].

Lemma reply_tells_where_it_stopped_witness :
  sr_status (status_of "/log" (serve wit_served "/log" 6 (Prompt (user_text "go")) wit_driven).1) = Idle.
Proof.
  assert (H : (serve wit_served "/log" 6 (Prompt (user_text "go")) wit_driven).2 = Some (Ran (Ok StopIdle)))
    by (lazy; reflexivity).
  apply pair_of in H. exact (reply_tells_where_it_stopped _ _ _ _ _ _ _ H).
Defined.
Lemma commands_served_in_order_witness :
  let out := drive wit_served "/log" 6 [Status; Prompt (user_text "go"); End; Status] wit_driven in
  log_grows (k_log wit_driven) (k_log out.1.1) /\ length out.1.2 = 3 /\ out.2 = [Status].
Proof.
  intros out. assert (Ho : forall p : Kernel script MemoryEventLog * list CmdReply * list Cmd, p = (p.1.1, p.1.2, p.2))
    by (by intros [[??]?]).
  split; [exact (proj1 (commands_served_in_order _ _ _ _ _ _ _ _ (Ho out)))|]. split; lazy; reflexivity.
Defined.
