(* ===== verification/AcpServer.v ===== *)
(** The protocol server ([crates/orchestrator/src/acp/agent.rs]): the registry of live sessions, the handlers
    of one connection, and the tasks they spawn, as a machine whose steps interleave freely. *)

From Stdlib Require Import Floats.SpecFloat.
From stdpp Require Import gmap.
From S2P Require Import Prelude Ord Str Utf8 Sse Capability Sandbox Json Strict Codec Data Event State Redact Spill Log FileLog.
From S2P Require Import Outside Registry Kernel Scenario Turn Lifecycle Toml Profile Resolve Host Launcher AcpProject Driver.

Open Scope string_scope.
Open Scope list_scope.

(** * Requests and answers *)

Record ServerOptions : Type := { so_single_session : bool; so_default_agent : string }.

(** The errors of the protocol, by the constructor that makes them, and their [data]. *)
Inductive AcpErrorCode : Type := InvalidRequest | InvalidParams | InternalError | ResourceNotFound (uri : string).
Record AcpError : Type := { ae_code : AcpErrorCode; ae_data : option json }.
Definition grist_data (v : json) : option json := Some (jobj [("grist", v)]).
Definition internal (msg : string) : AcpError := {| ae_code := InternalError; ae_data := grist_data (JStr msg) |}.
Definition not_found (id : string) : AcpError := {| ae_code := ResourceNotFound id; ae_data := None |}.
Definition one_session_only : AcpError :=
  {| ae_code := InvalidRequest; ae_data := grist_data (JStr "this process serves exactly one session (D4)") |}.
Definition already_open : AcpError :=
  {| ae_code := InvalidRequest; ae_data := grist_data (JStr "session is already open in this process") |}.

(** The blocks of a prompt; only text and links say something here. *)
Inductive AcpBlock : Type := BText (text : string) | BResourceLink (uri : string) | BOther.
Inductive Request : Type :=
  | RqInitialize
  | RqNew (cwd : string) (meta : option json)
  | RqPrompt (session : string) (blocks : list AcpBlock)
  | RqClose (session : string)
  | RqList
  | RqLoad (session : string)
  | RqResume (session : string)
  | RqSubscribe (session : string) (kinds : option (list string))
  | RqUnsubscribe (session : string)
  | RqCancel (session : string) (scope : CancelScope)
  | RqStatus (session : string).
Inductive StopReason : Type := EndTurn | StopCancelled.
Record SessionInfo : Type := { si_id : string; si_cwd : string; si_title : string; si_updated_at : string }.
Inductive Answer : Type :=
  | AInitialized
  | ANew (session : string)
  | AStopped (r : StopReason)
  | AClosed
  | AListed (l : list SessionInfo)
  | AOpened
  | ADone
  | AStatus (s : StatusResponse)
  | AError (e : AcpError).

(** [prompt_text]. *)
Definition block_words (b : AcpBlock) : option string :=
  match b with BText t => Some t | BResourceLink uri => Some uri | BOther => None end.
Definition prompt_text (blocks : list AcpBlock) : string := join (String newline "") (omap block_words blocks).

(** [session_meta]; [table_of_json] reads a JSON value as a TOML table. *)
Definition session_meta (table_of_json : json -> result string Table) (meta : option json) (default_agent : string)
    : result AcpError (string * Table) :=
  let grist : option json := meta ≫= jget "grist" in
  let agent := default default_agent ((grist ≫= jget "agent") ≫= as_str) in
  match (grist ≫= jget "profile_overrides" : option json) with
  | None | Some JNull => Ok (agent, [])
  | Some v =>
      pair agent <$> map_err (fun e => {| ae_code := InvalidParams; ae_data := grist_data (JStr ("profile_overrides: " +:+ e)) |})
                       (table_of_json v)
  end.

(** [stop_response]. *)
Definition stop_response (stop : RunStop) (cancelled : bool) : Answer :=
  match stop with
  | StopIdle | StopDone => AStopped (if cancelled then StopCancelled else EndTurn)
  | StopSuspended _ => AStopped EndTurn
  | StopFailed error_class =>
      AError {| ae_code := InternalError;
                ae_data := grist_data (jobj [("status", JStr "failed"); ("error_class", JStr error_class);
                                             ("resumable", JBool true)]) |}
  end.

(** [session/list]: what a client sees of a record. *)
Definition session_info (r : SessionRecord) : SessionInfo := {|
  si_id := rec_session_id r; si_cwd := rec_workdir r;
  si_title := rec_agent r +:+ " · " +:+ Utf8.from_utf8_lossy (rec_workdir r); si_updated_at := rec_created_at r
|}.

(** ** Questions ([question_task]) *)

Inductive ElicitationSchema : Type := AnyText | OneOf (options : list string).
Definition elicitation (req : AskUserRequest) : string * ElicitationSchema :=
  if decide (aq_options req = []) then (aq_question req, AnyText)
  else if aq_allow_free_text req then
    (aq_question req +:+ String newline "" +:+ "Options: " +:+ join ", " (aq_options req), AnyText)
  else (aq_question req, OneOf (aq_options req)).
Inductive ContentValue : Type :=
  | CvString (s : string)
  | CvInteger (i : Z)
  | CvNumber (f : spec_float)
  | CvBoolean (b : bool)
  | CvStrings (l : list string)
  | CvOther (v : json).
(** What comes back: the form's content if the user accepted it. *)
Inductive ElicitationOutcome : Type := Accepted (content : option (list (string * ContentValue))) | Declined | NoResponse.
Definition value_text (show_f64 : spec_float -> string) (json_text : json -> string) (v : ContentValue) : string :=
  match v with
  | CvString s => s
  | CvInteger i => show_Z i
  | CvNumber f => show_f64 f
  | CvBoolean b => if b then "true" else "false"
  | CvStrings l => join ", " l
  | CvOther v => json_text v
  end.
Definition elicited (show_f64 : spec_float -> string) (json_text : json -> string) (o : ElicitationOutcome) : option string :=
  match o with
  | Accepted content => value_text show_f64 json_text <$> (content ≫= omap_get "answer")
  | Declined | NoResponse => None
  end.

(** * The machine *)

(** How far a call into a driver has come: it waits for room in the channel, then for the reply,
    then it has the reply, or knows that the driver is gone. *)
Inductive Stage : Type := Sending | Waiting | Answered (r : option CmdReply).
(** The three awaits of [reopen]: it looks for the session, counts the sessions, launches. *)
Inductive ReopenStage : Type := RsFind | RsCount | RsLaunch.

(** A spawned task and the request it has to answer; a call names its session by the address of
    the [Live] it holds. *)
Inductive Task : Type :=
  | TNew (rq : nat) (id : SessionId) (cwd agent : string) (overrides : Table)
  | TCall (rq addr : nat) (cmd : Cmd) (stage : Stage)
  | TList (rq : nat)
  | TReopen (rq : nat) (id : SessionId) (replay : bool) (stage : ReopenStage).
Definition task_rq (t : Task) : nat :=
  match t with TNew rq _ _ _ _ | TCall rq _ _ _ | TList rq | TReopen rq _ _ _ => rq end.
Definition creating (t : Task) : bool := match t with TNew _ _ _ _ _ | TReopen _ _ _ _ => true | _ => false end.

(** What the connection receives and sends, in order. *)
Inductive Act : Type :=
  | Received (rq : nat) (r : Request)
  | Noticed (session : string)
  | Replied (rq : nat) (a : Answer)
  | Updated (session : SessionId) (u : SessionUpdate)
  | Forwarded (session : SessionId) (e : Event).

Section server.
Context {HP : Platform} {HJ : JsonText} {X L : Type} {HO : Outside X} {HL : EventLog L} {HA : ArtifactStore X}.

(** A live session and its driver: the kernel ([None] once the driver's task has ended), the
    commands in its channel, each with the request whose task awaits the reply, and what the
    projector task shares with the handlers. *)
Record Live : Type := {
  lv_id : SessionId;
  lv_sh : Shared X;
  lv_log_path : string;
  lv_kernel : option (Kernel X L);
  lv_queue : list (nat * Cmd);
  lv_subscription : option (option (list string));
  lv_cancel_requested : bool;
  lv_projector : Projector
}.
(** The registry maps ids to addresses; a session that leaves it lives on while a task holds it. *)
Record Server : Type := {
  sv_sessions : gmap string nat;
  sv_heap : list Live;
  sv_tasks : list Task;
  sv_received : nat;
  sv_trace : list Act
}.
Definition server_new : Server :=
  {| sv_sessions := ∅; sv_heap := []; sv_tasks := []; sv_received := 0; sv_trace := [] |}.

Definition with_kernel (k : option (Kernel X L)) (q : list (nat * Cmd)) (lv : Live) : Live := {|
  lv_id := lv_id lv; lv_sh := lv_sh lv; lv_log_path := lv_log_path lv; lv_kernel := k; lv_queue := q;
  lv_subscription := lv_subscription lv; lv_cancel_requested := lv_cancel_requested lv; lv_projector := lv_projector lv |}.
Definition set_subscription (sub : option (option (list string))) (lv : Live) : Live := {|
  lv_id := lv_id lv; lv_sh := lv_sh lv; lv_log_path := lv_log_path lv; lv_kernel := lv_kernel lv; lv_queue := lv_queue lv;
  lv_subscription := sub; lv_cancel_requested := lv_cancel_requested lv; lv_projector := lv_projector lv |}.
Definition set_cancel_requested (c : bool) (lv : Live) : Live := {|
  lv_id := lv_id lv; lv_sh := lv_sh lv; lv_log_path := lv_log_path lv; lv_kernel := lv_kernel lv; lv_queue := lv_queue lv;
  lv_subscription := lv_subscription lv; lv_cancel_requested := c; lv_projector := lv_projector lv |}.
Definition set_projector (p : Projector) (lv : Live) : Live := {|
  lv_id := lv_id lv; lv_sh := lv_sh lv; lv_log_path := lv_log_path lv; lv_kernel := lv_kernel lv; lv_queue := lv_queue lv;
  lv_subscription := lv_subscription lv; lv_cancel_requested := lv_cancel_requested lv; lv_projector := p |}.
(** [KernelHandle::cancel] between two commands; during one it is among the signals of the run. *)
Definition cancel_kernel (scope : CancelScope) (lv : Live) : Live :=
  with_kernel (Kernel.cancel scope <$> lv_kernel lv) (lv_queue lv) lv.

Definition say (a : Act) (s : Server) : Server := {|
  sv_sessions := sv_sessions s; sv_heap := sv_heap s; sv_tasks := sv_tasks s; sv_received := sv_received s;
  sv_trace := sv_trace s ++ [a] |}.
Definition reply (rq : nat) (a : Answer) : Server -> Server := say (Replied rq a).
Definition spawn_task (t : Task) (s : Server) : Server := {|
  sv_sessions := sv_sessions s; sv_heap := sv_heap s; sv_tasks := sv_tasks s ++ [t]; sv_received := sv_received s;
  sv_trace := sv_trace s |}.
Definition set_tasks (ts : list Task) (s : Server) : Server := {|
  sv_sessions := sv_sessions s; sv_heap := sv_heap s; sv_tasks := ts; sv_received := sv_received s; sv_trace := sv_trace s |}.
Definition set_sessions (m : gmap string nat) (s : Server) : Server := {|
  sv_sessions := m; sv_heap := sv_heap s; sv_tasks := sv_tasks s; sv_received := sv_received s; sv_trace := sv_trace s |}.
Definition on_live (addr : nat) (f : Live -> Live) (s : Server) : Server := {|
  sv_sessions := sv_sessions s; sv_heap := alter f addr (sv_heap s); sv_tasks := sv_tasks s; sv_received := sv_received s;
  sv_trace := sv_trace s |}.
(** [Server::get], [Server::count], [Server::adopt]. *)
Definition get (id : string) (s : Server) : option nat := sv_sessions s !! id.
Definition count (s : Server) : nat := size (sv_sessions s).
Definition live_of (l : Launched X L) : Live := {|
  lv_id := sh_session_id (la_shared l); lv_sh := la_shared l; lv_log_path := la_log_path l; lv_kernel := Some (la_kernel l);
  lv_queue := []; lv_subscription := None; lv_cancel_requested := false; lv_projector := projector_new |}.
Definition adopt (l : Launched X L) (s : Server) : Server := {|
  sv_sessions := <[lv_id (live_of l) := length (sv_heap s)]> (sv_sessions s); sv_heap := sv_heap s ++ [live_of l];
  sv_tasks := sv_tasks s; sv_received := sv_received s; sv_trace := sv_trace s |}.

(** ** The handlers *)

Context (opts : ServerOptions) (table_of_json : json -> result string Table).
Context (show_kernel_error : KernelError -> string) (show_launch_error : LaunchError -> string).

Definition launch_err (e : LaunchError) : AcpError :=
  match e with
  | LaunchUnknownSession m => {| ae_code := ResourceNotFound m; ae_data := grist_data (JStr "unknown session") |}
  | LaunchProfile lines =>
      {| ae_code := InvalidParams; ae_data := grist_data (jobj [("profile", JArr (JStr <$> lines))]) |}
  | other => internal (show_launch_error other)
  end.
Definition kernel_err (e : KernelError) : AcpError := internal ("kernel: " +:+ show_kernel_error e).

(** One handler per request; what it does before it returns to the dispatch loop. *)
Definition handle_new (uuid : string) (rq : nat) (cwd : string) (meta : option json) (s : Server) : Server :=
  if so_single_session opts && (0 <? count s)%nat then reply rq (AError one_session_only) s
  else match session_meta table_of_json meta (so_default_agent opts) with
       | Err e => reply rq (AError e) s
       | Ok (agent, overrides) => spawn_task (TNew rq ("s_" +:+ uuid) cwd agent overrides) s
       end.
Definition on_session (rq : nat) (id : string) (s : Server) (f : nat -> Server) : Server :=
  match get id s with None => reply rq (AError (not_found id)) s | Some addr => f addr end.
Definition handle_prompt (rq : nat) (id : string) (blocks : list AcpBlock) (s : Server) : Server :=
  on_session rq id s (fun addr =>
    let text := prompt_text blocks in
    if decide (trim text = "") then
      reply rq (AError {| ae_code := InvalidParams; ae_data := grist_data (JStr "prompt has no text") |}) s
    else spawn_task (TCall rq addr (Prompt (user_text text)) Sending) (on_live addr (set_cancel_requested false) s)).
Definition handle_close (rq : nat) (id : string) (s : Server) : Server :=
  on_session rq id s (fun addr =>
    spawn_task (TCall rq addr End Sending) (set_sessions (delete id (sv_sessions s)) s)).
Definition handle_subscribe (rq : nat) (id : string) (kinds : option (list string)) (s : Server) : Server :=
  on_session rq id s (fun addr =>
    let kinds := match kinds with Some [] => None | k => k end in
    reply rq ADone (on_live addr (set_subscription (Some kinds)) s)).
Definition handle_unsubscribe (rq : nat) (id : string) (s : Server) : Server :=
  on_session rq id s (fun addr => reply rq ADone (on_live addr (set_subscription None) s)).
Definition handle_cancel (rq : nat) (id : string) (scope : CancelScope) (s : Server) : Server :=
  on_session rq id s (fun addr =>
    let s := match scope with ScopeTurn => on_live addr (set_cancel_requested true) s | _ => s end in
    reply rq ADone (on_live addr (cancel_kernel scope) s)).
Definition handle_status (rq : nat) (id : string) (s : Server) : Server :=
  on_session rq id s (fun addr => spawn_task (TCall rq addr Status Sending) s).
(** [agent_component]; [uuid] is the one drawn for a new session. *)
Definition handle (uuid : string) (rq : nat) (r : Request) (s : Server) : Server :=
  match r with
  | RqInitialize => reply rq AInitialized s
  | RqNew cwd meta => handle_new uuid rq cwd meta s
  | RqPrompt id blocks => handle_prompt rq id blocks s
  | RqClose id => handle_close rq id s
  | RqList => spawn_task (TList rq) s
  | RqLoad id => spawn_task (TReopen rq id true RsFind) s
  | RqResume id => spawn_task (TReopen rq id false RsFind) s
  | RqSubscribe id kinds => handle_subscribe rq id kinds s
  | RqUnsubscribe id => handle_unsubscribe rq id s
  | RqCancel id scope => handle_cancel rq id scope s
  | RqStatus id => handle_status rq id s
  end.
(** A request arrives; it is answered through the responder [sv_received]. *)
Definition receive (uuid : string) (r : Request) (s : Server) : Server :=
  let rq := sv_received s in
  handle uuid rq r {| sv_sessions := sv_sessions s; sv_heap := sv_heap s; sv_tasks := sv_tasks s; sv_received := S rq;
                      sv_trace := sv_trace s ++ [Received rq r] |}.
(** [session/cancel]. *)
Definition notice (id : string) (s : Server) : Server :=
  let s := say (Noticed id) s in
  match get id s with
  | None => s
  | Some addr => on_live addr (fun lv => cancel_kernel ScopeTurn (set_cancel_requested true lv)) s
  end.

(** ** The tasks *)

(** How a call ends; a driver's reply is of the command's own kind. *)
Definition call_answer (cmd : Cmd) (r : option CmdReply) (cancelled : bool) : Answer :=
  match cmd, r with
  | End, None | End, Some (Ended (Ok _)) => AClosed
  | End, Some (Ended (Err e)) => AError (kernel_err e)
  | Status, Some (Snapshot s) => AStatus s
  | _, Some (Ran (Ok stop)) => stop_response stop cancelled
  | _, Some (Ran (Err e)) => AError (kernel_err e)
  | _, _ => AError (internal "session has ended")
  end.
(** [history]: every line of the log, shown in full. *)
Definition history (bytes : result LogError string) : result AcpError (list SessionUpdate) :=
  map_err (fun e => internal ("log: " +:+ show_log_error e))
    (r ← (b ← bytes; file_snapshot b);
     Ok ((ln_event <$> sn_lines r) ≫= fun e => updates_for (ev_body e) true)).
(** The channel of a driver holds 16 commands. *)
Definition CHANNEL : nat := 16.

(** What creating or reopening a session can lead to, and what listing the records can: the rest of
    the process decides. *)
Context (creates : SessionId -> string -> string -> Table -> result LaunchError (Launched X L) -> Prop).
Context (reopens : SessionId -> result LaunchError (Launched X L) -> Prop).

(** A step of a task: what it becomes, if it goes on, and the server after it. *)
Inductive task_step : Task -> Server -> option Task -> Server -> Prop :=
  | ts_created rq id cwd agent overrides s l :
      creates id cwd agent overrides (Ok l) ->
      task_step (TNew rq id cwd agent overrides) s None (reply rq (ANew (sh_session_id (la_shared l))) (adopt l s))
  | ts_not_created rq id cwd agent overrides s e :
      creates id cwd agent overrides (Err e) ->
      task_step (TNew rq id cwd agent overrides) s None (reply rq (AError (launch_err e)) s)
  | ts_sent rq addr cmd s lv :
      sv_heap s !! addr = Some lv -> is_Some (lv_kernel lv) -> (length (lv_queue lv) < CHANNEL)%nat ->
      task_step (TCall rq addr cmd Sending) s (Some (TCall rq addr cmd Waiting))
        (on_live addr (fun lv => with_kernel (lv_kernel lv) (lv_queue lv ++ [(rq, cmd)]) lv) s)
  | ts_gone rq addr cmd s lv :
      sv_heap s !! addr = Some lv -> lv_kernel lv = None ->
      task_step (TCall rq addr cmd Sending) s (Some (TCall rq addr cmd (Answered None))) s
  | ts_answered rq addr cmd r s lv :
      sv_heap s !! addr = Some lv ->
      task_step (TCall rq addr cmd (Answered r)) s None (reply rq (call_answer cmd r (lv_cancel_requested lv)) s)
  | ts_listed rq s (records : result LaunchError (list SessionRecord)) :
      task_step (TList rq) s None
        (reply rq (match records with Ok l => AListed (session_info <$> l) | Err e => AError (launch_err e) end) s)
  | ts_found rq id replay s :
      task_step (TReopen rq id replay RsFind) s
        (match get id s with Some _ => None | None => Some (TReopen rq id replay RsCount) end)
        (match get id s with Some _ => reply rq (AError already_open) s | None => s end)
  | ts_counted rq id replay s :
      task_step (TReopen rq id replay RsCount) s
        (if so_single_session opts && (0 <? count s)%nat then None else Some (TReopen rq id replay RsLaunch))
        (if so_single_session opts && (0 <? count s)%nat then reply rq (AError one_session_only) s else s)
  | ts_not_reopened rq id replay s e :
      reopens id (Err e) ->
      task_step (TReopen rq id replay RsLaunch) s None (reply rq (AError (launch_err e)) s)
  | ts_no_history rq id s l bytes e :
      reopens id (Ok l) -> history bytes = Err e ->
      task_step (TReopen rq id true RsLaunch) s None (reply rq (AError e) s)
  | ts_reopened rq id (replay : bool) s l bytes us :
      reopens id (Ok l) -> (if replay then history bytes = Ok us else us = []) ->
      task_step (TReopen rq id replay RsLaunch) s None
        (reply rq AOpened (adopt l (foldl (fun s u => say (Updated id u) s) s us))).

(** ** The drivers and the projectors *)

Definition wake (rq : nat) (r : option CmdReply) (t : Task) : Task :=
  match t with
  | TCall rq' addr cmd Waiting => if decide (rq = rq') then TCall rq' addr cmd (Answered r) else t
  | _ => t
  end.
Definition wake_all (rqs : list nat) (t : Task) : Task := foldr (fun rq => wake rq None) t rqs.
(** The driver at [addr] answered its first command with [r]; with the last one, or when every
    sender is gone, its task ends, and whatever its channel still holds is dropped. *)
Definition driver_served (addr : nat) (lv : Live) (rq : nat) (q : list (nat * Cmd)) (ended : bool) (k : Kernel X L)
    (r : CmdReply) (s : Server) : Server :=
  let woken := wake rq (Some r) <$> sv_tasks s in
  if ended then set_tasks (wake_all (fst <$> q) <$> woken) (on_live addr (fun _ => with_kernel None [] lv) s)
  else set_tasks woken (on_live addr (fun _ => with_kernel (Some k) q lv) s).
(** An event is forwarded to who subscribed to its kind. *)
Definition wanted (lv : Live) (e : Event) : bool :=
  match lv_subscription lv with
  | None => false
  | Some None => true
  | Some (Some kinds) => bool_decide (kind (ev_body e) ∈ kinds)
  end.
Definition say_all (l : list Act) (s : Server) : Server := foldl (fun s a => say a s) s l.
(** [project_task]: one delta or one event. *)
Definition projected_delta (addr : nat) (lv : Live) (d : ModelDelta) (s : Server) : Server :=
  let '(p, u) := project_delta d (lv_projector lv) in
  say_all (match u with Some u => [Updated (lv_id lv) u] | None => [] end) (on_live addr (set_projector p) s).
Definition projected_event (addr : nat) (lv : Live) (e : Event) (s : Server) : Server :=
  let '(p, us) := project_event (ev_body e) (lv_projector lv) in
  say_all ((Updated (lv_id lv) <$> us) ++ (if wanted lv e then [Forwarded (lv_id lv) e] else []))
    (on_live addr (set_projector p) s).

(** [allowed] limits what the client sends; the steps of the process itself are not limited. *)
Inductive step (allowed : Server -> Request -> Prop) : Server -> Server -> Prop :=
  | st_receive uuid r s : allowed s r -> step allowed s (receive uuid r s)
  | st_notice id s : step allowed s (notice id s)
  | st_task l t r s t' s' :
      sv_tasks s = l ++ t :: r -> task_step t s t' s' -> step allowed s (set_tasks (l ++ option_list t' ++ r) s')
  | st_serve addr lv k rq cmd q fuel k' rep s :
      sv_heap s !! addr = Some lv -> lv_kernel lv = Some k -> lv_queue lv = (rq, cmd) :: q ->
      serve (lv_sh lv) (lv_log_path lv) fuel cmd k = (k', Some rep) ->
      step allowed s (driver_served addr lv rq q (is_end cmd) k' rep s)
  | st_dropped addr lv s :
      sv_heap s !! addr = Some lv -> lv_queue lv = [] ->
      (forall id, sv_sessions s !! id <> Some addr) -> (forall rq cmd stage, TCall rq addr cmd stage ∉ sv_tasks s) ->
      step allowed s (on_live addr (with_kernel None []) s)
  | st_delta addr lv d s : sv_heap s !! addr = Some lv -> step allowed s (projected_delta addr lv d s)
  | st_event addr lv e s : sv_heap s !! addr = Some lv -> step allowed s (projected_event addr lv e s).
Definition reachable (allowed : Server -> Request -> Prop) : Server -> Prop := rtc (step allowed) server_new.
Definition anything (s : Server) (r : Request) : Prop := True.
(** A client that waits for the answer before it creates or opens another session. *)
Definition creates_session (r : Request) : bool := match r with RqNew _ _ | RqLoad _ | RqResume _ => true | _ => false end.
Definition one_at_a_time (s : Server) (r : Request) : Prop :=
  creates_session r = true -> Forall (fun t => creating t = false) (sv_tasks s).
End server.
