(* ===== verification/AcpRequests.v ===== *)
(** The protocol server keeps its promises: what holds of every reachable state of the machine of
    AcpServer.v, by one invariant that every step keeps, and three runs in which the server falls
    short of what it means to do. *)

From stdpp Require Import gmap.
From S2P Require Import Prelude Ord Str Utf8 Sse Capability Sandbox Json Strict Codec Data Event State Redact Spill Log FileLog.
From S2P Require Import Outside Registry Kernel Scenario Turn Lifecycle Toml Profile Resolve Host Launcher AcpProject Driver AcpServer.

Open Scope string_scope.
Open Scope list_scope.

Ltac open_handler :=
  cbn [handle]; unfold handle_new, handle_prompt, handle_close, handle_subscribe, handle_unsubscribe, handle_cancel,
    handle_status, on_session.

(** * Every request is answered once *)

Definition answered (tr : list Act) : list nat := omap (fun a => match a with Replied rq _ => Some rq | _ => None end) tr.
Lemma answered_app tr tr' : answered (tr ++ tr') = answered tr ++ answered tr'.
Proof. apply omap_app. Qed.

(** A cancellation of a session's turn, as the client asks for it. *)
Definition cancels (session : string) (a : Act) : Prop :=
  match a with
  | Noticed id => id = session
  | Received _ (RqCancel id ScopeTurn) => id = session
  | _ => False
  end.
(** The request that a call into a session's driver serves. *)
Definition asks (session : string) (cmd : Cmd) (r : Request) : Prop :=
  match r, cmd with
  | RqPrompt id blocks, Prompt m => id = session /\ m = user_text (prompt_text blocks)
  | RqClose id, End => id = session
  | RqStatus id, Status => id = session
  | _, _ => False
  end.
(** The client cancelled the session after it sent [r], the request [rq]. *)
Definition cancelled_since (rq : nat) (r : Request) (session : string) (tr : list Act) : Prop :=
  exists before after a, tr = before ++ Received rq r :: after /\ a ∈ after /\ cancels session a.
Lemma cancelled_since_app rq r session tr new : cancelled_since rq r session tr -> cancelled_since rq r session (tr ++ new).
Proof.
  intros (before & after & a & -> & Ha & Hc). exists before, (after ++ new), a. rewrite <- app_assoc. split; [done|].
  split; [|done]. apply elem_of_app. by left.
Qed.
Lemma cancelled_since_new rq r session tr new a :
  Received rq r ∈ tr -> a ∈ new -> cancels session a -> cancelled_since rq r session (tr ++ new).
Proof.
  intros (before & after & ->)%list_elem_of_split Ha Hc. exists before, (after ++ new), a. rewrite <- app_assoc.
  split; [done|]. split; [|done]. apply elem_of_app. by right.
Qed.

(** An answer that a run was cancelled follows a cancellation that follows the prompt. *)
Definition cancelled_prompt (rq : nat) (tr : list Act) : Prop :=
  exists session blocks, cancelled_since rq (RqPrompt session blocks) session tr.
Definition trace_ok (tr : list Act) : Prop :=
  forall pre rq post, tr = pre ++ Replied rq (AStopped StopCancelled) :: post -> cancelled_prompt rq pre.
Lemma trace_ok_snoc tr a :
  trace_ok tr -> (forall rq, a = Replied rq (AStopped StopCancelled) -> cancelled_prompt rq tr) -> trace_ok (tr ++ [a]).
Proof.
  intros Htr Ha pre rq post He. destruct post as [|b post _] using rev_ind.
  - apply app_inj_tail in He as [-> ->]. by apply Ha.
  - rewrite app_comm_cons, app_assoc in He. apply app_inj_tail in He as [-> _]. by eapply Htr.
Qed.
Definition no_stop (a : Act) : Prop := match a with Replied _ (AStopped _) => False | _ => True end.
Lemma trace_ok_quiet tr new : trace_ok tr -> Forall no_stop new -> trace_ok (tr ++ new).
Proof.
  intros Htr H. induction new as [|a new IH] using rev_ind; [by rewrite app_nil_r|].
  apply Forall_app in H as [H Ha]. rewrite Forall_singleton in Ha. rewrite app_assoc. apply trace_ok_snoc; [by apply IH|].
  intros rq ->. exact (False_ind _ Ha).
Qed.

Section requests.
Context {HP : Platform} {HJ : JsonText} {X L : Type} {HO : Outside X} {HL : EventLog L} {HA : ArtifactStore X}.
Context {HC : Clock} {HLL : EventLogLaws L}.
Context (opts : ServerOptions) (table_of_json : json -> result string Table).
Context (show_kernel_error : KernelError -> string) (show_launch_error : LaunchError -> string).
Context (creates : SessionId -> string -> string -> Table -> result LaunchError (Launched X L) -> Prop).
Context (reopens : SessionId -> result LaunchError (Launched X L) -> Prop).
Notation Live := (Live (X := X) (L := L)).
Notation Server := (Server (X := X) (L := L)).
Notation handled := (handle opts table_of_json).
Notation task_steps := (task_step opts show_kernel_error show_launch_error creates reopens).
Notation server_step := (step opts table_of_json show_kernel_error show_launch_error creates reopens).
Notation server_reachable := (reachable opts table_of_json show_kernel_error show_launch_error creates reopens).

(** ** The requests and who holds them *)

Definition held (s : Server) : list nat := task_rq <$> sv_tasks s.
Definition accounted (s : Server) (rqs : list nat) : Prop := answered (sv_trace s) ++ held s ≡ₚ rqs.

Lemma handle_accounted uuid rq r (s : Server) rqs : accounted s rqs -> accounted (handled uuid rq r s) (rqs ++ [rq]).
Proof.
  assert (Hr : forall a (s : Server), accounted s rqs -> accounted (reply rq a s) (rqs ++ [rq])).
  { intros a s0 H. unfold accounted, held, reply, say in *. cbn. rewrite answered_app. cbn.
    rewrite <- H, <- !app_assoc. f_equiv. apply Permutation_app_comm. }
  assert (Hs : forall t (s : Server), task_rq t = rq -> accounted s rqs -> accounted (spawn_task t s) (rqs ++ [rq])).
  { intros t s0 Ht H. unfold accounted, held, spawn_task in *. cbn. by rewrite fmap_app, app_assoc, H, <- Ht. }
  assert (Hl : forall addr f (s : Server), accounted s rqs -> accounted (on_live addr f s) rqs) by done.
  intros H. destruct r; open_handler; repeat case_match; eauto.
Qed.
Lemma task_step_accounted t (s s' : Server) t' : task_steps t s t' s' ->
  sv_tasks s' = sv_tasks s /\ sv_received s' = sv_received s /\
  answered (sv_trace s') ++ (task_rq <$> option_list t') ≡ₚ answered (sv_trace s) ++ [task_rq t].
Proof.
  assert (Hf : forall id us (s : Server), let s' := foldl (fun s u => say (Updated id u) s) s us in
    sv_tasks s' = sv_tasks s /\ sv_received s' = sv_received s /\ answered (sv_trace s') = answered (sv_trace s)).
  { intros id us. induction us as [|u us IH]; intros s0; [done|]. cbn. destruct (IH (say (Updated id u) s0)) as (-> & -> & ->).
    cbn. by rewrite answered_app, app_nil_r. }
  intros H. destruct H; cbn; rewrite ?answered_app, ?app_nil_r; try by split_and!.
  - destruct (get id s); cbn; rewrite ?answered_app, ?app_nil_r; by split_and!.
  - destruct (_ && _); cbn; rewrite ?answered_app, ?app_nil_r; by split_and!.
  - destruct (Hf id us s) as (H1 & H2 & H3). rewrite H3. by split_and!.
Qed.

(** ** What holds of every state *)

(** A call reaches the session its request names; a waiting one is in the channel of a driver that
    runs; and the flag of a session with a prompt under way is set by a cancellation since. *)
Definition call_ok (s : Server) (t : Task) : Prop :=
  match t with
  | TCall rq addr cmd stage => exists lv r,
      sv_heap s !! addr = Some lv /\ Received rq r ∈ sv_trace s /\ asks (lv_id lv) cmd r /\
      (forall m, cmd = Prompt m -> lv_cancel_requested lv = true -> cancelled_since rq r (lv_id lv) (sv_trace s)) /\
      (stage = Waiting -> is_Some (lv_kernel lv) /\ (rq, cmd) ∈ lv_queue lv) /\
      (forall rep, stage = Answered (Some rep) -> answers_cmd cmd rep)
  | _ => True
  end.
Definition registry_ok (s : Server) : Prop :=
  forall id addr, get id s = Some addr -> exists lv, sv_heap s !! addr = Some lv /\ lv_id lv = id.
Record inv (s : Server) : Prop := {
  inv_registry : registry_ok s;
  inv_calls : forall t, t ∈ sv_tasks s -> call_ok s t;
  inv_queues : forall addr lv, sv_heap s !! addr = Some lv -> NoDup (fst <$> lv_queue lv) /\
    forall rq cmd, (rq, cmd) ∈ lv_queue lv -> TCall rq addr cmd Waiting ∈ sv_tasks s;
  inv_trace : trace_ok (sv_trace s)
}.

(** Changes that leave the drivers and their channels alone, as most do. *)
Record live_le (new : list Act) (lv lv' : Live) : Prop := {
  le_id : lv_id lv' = lv_id lv;
  le_queue : lv_queue lv' = lv_queue lv;
  le_kernel : is_Some (lv_kernel lv) -> is_Some (lv_kernel lv');
  le_flag : lv_cancel_requested lv' = true ->
    lv_cancel_requested lv = true \/ exists a, a ∈ new /\ cancels (lv_id lv) a
}.
Definition quiet (new : list Act) (h h' : list Live) : Prop :=
  (forall addr lv, h !! addr = Some lv -> exists lv', h' !! addr = Some lv' /\ live_le new lv lv') /\
  (forall addr lv', h !! addr = None -> h' !! addr = Some lv' -> lv_queue lv' = []).
Lemma live_le_refl new lv : live_le new lv lv.
Proof. split; auto. Qed.
Lemma live_le_trans new lv1 lv2 lv3 : live_le new lv1 lv2 -> live_le new lv2 lv3 -> live_le new lv1 lv3.
Proof.
  intros [H1 H2 H3 H4] [G1 G2 G3 G4]. split; [congruence|congruence|auto|]. intros [H|H]%G4; [by apply H4|].
  right. by rewrite <- H1.
Qed.
Lemma quiet_refl new h : quiet new h h.
Proof. split; [|congruence]. intros addr lv H. exists lv. split; [done|apply live_le_refl]. Qed.
Lemma quiet_trans new h1 h2 h3 : quiet new h1 h2 -> quiet new h2 h3 -> quiet new h1 h3.
Proof.
  intros [H1 H2] [G1 G2]. split.
  - intros addr lv (lv2 & (lv3 & H3 & Hle)%G1 & Hle2)%H1. exists lv3. split; [done|exact (live_le_trans _ _ _ _ Hle2 Hle)].
  - intros addr lv' Hn H3. destruct (h2 !! addr) as [lv2|] eqn:E; [|exact (G2 _ _ E H3)].
    destruct (G1 _ _ E) as (lv3 & Hlv3 & Hle). simplify_eq. rewrite (le_queue _ _ _ Hle). exact (H2 _ _ Hn E).
Qed.
Lemma quiet_alter new f addr h :
  (forall lv, h !! addr = Some lv -> live_le new lv (f lv)) -> quiet new h (alter f addr h).
Proof.
  intros Hf. split.
  - intros a lv Hlv. destruct (decide (addr = a)) as [->|Hne].
    + exists (f lv). rewrite list_lookup_alter_eq, Hlv. by split; [|apply Hf].
    + exists lv. rewrite list_lookup_alter_ne by done. by split; [|apply live_le_refl].
  - intros a lv' Hn. destruct (decide (addr = a)) as [->|Hne]; [by rewrite list_lookup_alter_eq, Hn|].
    rewrite list_lookup_alter_ne by done. congruence.
Qed.
Lemma quiet_snoc new h lv : lv_queue lv = [] -> quiet new h (h ++ [lv]).
Proof.
  intros Hq. split.
  - intros a lv0 Ha. exists lv0. split; [by apply lookup_app_l_Some|apply live_le_refl].
  - intros a lv' Hn H. apply lookup_app_Some in H as [H|[_ H]]; [congruence|].
    apply list_lookup_singleton_Some in H as [_ <-]. done.
Qed.

Lemma call_ok_quiet new (s s' : Server) t :
  quiet new (sv_heap s) (sv_heap s') -> sv_trace s' = sv_trace s ++ new -> call_ok s t -> call_ok s' t.
Proof.
  intros [Hq _] Ht. destruct t as [|rq addr cmd stage| |]; try done. cbn.
  intros (lv & r & Hlv & Hr & Ha & Hc & Hw & Hrep). destruct (Hq _ _ Hlv) as (lv' & Hlv' & [E1 E2 E3 E4]).
  exists lv', r. rewrite Ht, E1, E2. split; [done|]. split; [apply elem_of_app; by left|]. split; [done|].
  split; [|split; [|done]].
  - intros m Hm [Hf|(a & Hin & Hca)]%E4; [by eapply cancelled_since_app, Hc|by eapply cancelled_since_new].
  - intros [Hk Hin]%Hw. by split; [apply E3|].
Qed.
Lemma inv_quiet new (s s' : Server) :
  inv s -> quiet new (sv_heap s) (sv_heap s') -> sv_trace s' = sv_trace s ++ new -> trace_ok (sv_trace s') ->
  registry_ok s' -> (forall t, t ∈ sv_tasks s' -> t ∈ sv_tasks s \/ call_ok s' t) ->
  (forall rq addr cmd, TCall rq addr cmd Waiting ∈ sv_tasks s -> TCall rq addr cmd Waiting ∈ sv_tasks s') -> inv s'.
Proof.
  intros [_ Hcalls Hqueues _] Hq Ht Htr Hreg Htasks Hwait. split; [done| | |done].
  - intros t [Hin|]%Htasks; [|done]. eapply call_ok_quiet; [done|done|by apply Hcalls].
  - intros addr lv' Hlv'. destruct (sv_heap s !! addr) as [lv|] eqn:E.
    + destruct (proj1 Hq _ _ E) as (lv2 & Hlv2 & Hle). simplify_eq. rewrite (le_queue _ _ _ Hle).
      destruct (Hqueues _ _ E) as [Hn Hin]. split; [done|]. intros rq cmd H%Hin. by apply Hwait.
    + rewrite (proj2 Hq _ _ E Hlv'). split; [constructor|]. by intros rq cmd ?%elem_of_nil.
Qed.
Lemma registry_ok_quiet new (s s' : Server) :
  registry_ok s -> quiet new (sv_heap s) (sv_heap s') ->
  (forall id addr, get id s' = Some addr -> get id s = Some addr) -> registry_ok s'.
Proof.
  intros Hreg [Hq _] Hs id addr (lv & Hlv & <-)%Hs%Hreg. destruct (Hq _ _ Hlv) as (lv' & Hlv' & Hle). exists lv'.
  split; [done|apply Hle].
Qed.

(** ** The handlers keep it *)

Definition sends (rq : nat) (r : Request) (s : Server) (t : Task) : Prop :=
  match t with
  | TCall rq' addr cmd stage => rq' = rq /\ stage = Sending /\ exists lv, sv_heap s !! addr = Some lv /\
      asks (lv_id lv) cmd r /\ forall m, cmd = Prompt m -> lv_cancel_requested lv = false
  | _ => True
  end.
Record shape (new : list Act) (s s' : Server) (added : Task -> Prop) : Prop := {
  sp_quiet : quiet new (sv_heap s) (sv_heap s');
  sp_trace : exists extra, sv_trace s' = sv_trace s ++ extra /\ Forall no_stop extra;
  sp_tasks : exists ts, sv_tasks s' = sv_tasks s ++ ts /\ Forall added ts;
  sp_registry : forall id addr, get id s' = Some addr -> get id s = Some addr
}.
Lemma shape_reply new (s s' : Server) added rq a :
  quiet new (sv_heap s) (sv_heap s') -> sv_trace s' = sv_trace s -> sv_tasks s' = sv_tasks s -> sv_sessions s' = sv_sessions s ->
  no_stop (Replied rq a) -> shape new s (reply rq a s') added.
Proof.
  intros Hq Ht Hts Hs Ha. split; cbn.
  - done.
  - exists [Replied rq a]. rewrite Ht. by split; [|constructor].
  - exists []. by rewrite Hts, app_nil_r.
  - intros id addr. unfold get. cbn. by rewrite Hs.
Qed.
Lemma shape_spawn new (s s' : Server) (added : Task -> Prop) t :
  quiet new (sv_heap s) (sv_heap s') -> sv_trace s' = sv_trace s -> sv_tasks s' = sv_tasks s ->
  (forall id addr, get id s' = Some addr -> get id s = Some addr) -> added t -> shape new s (spawn_task t s') added.
Proof.
  intros Hq Ht Hts Hs Ha. split; cbn.
  - done.
  - exists []. rewrite Ht, app_nil_r. by split; [|constructor].
  - exists [t]. rewrite Hts. by split; [|constructor].
  - exact Hs.
Qed.
Lemma live_le_cancel new scope lv : live_le new lv (cancel_kernel scope lv).
Proof. split; cbn; auto. intros [k ->]. by eexists. Qed.
Lemma live_le_flag new lv a : a ∈ new -> cancels (lv_id lv) a -> live_le new lv (set_cancel_requested true lv).
Proof. intros Hin Hc. split; cbn; auto. intros _. right. by exists a. Qed.
Lemma live_le_subscription new sub lv : live_le new lv (set_subscription sub lv).
Proof. split; cbn; auto. Qed.
Lemma live_le_projector new p lv : live_le new lv (set_projector p lv).
Proof. split; cbn; auto. Qed.
Lemma live_le_unflag new lv : live_le new lv (set_cancel_requested false lv).
Proof. split; cbn; auto. done. Qed.

Lemma handle_shape uuid rq r (s : Server) :
  registry_ok s -> shape [Received rq r] s (handled uuid rq r s) (sends rq r (handled uuid rq r s)).
Proof.
  intros Hreg.
  assert (Hrep : forall a added, no_stop (Replied rq a) -> shape [Received rq r] s (reply rq a s) added)
    by (intros; by apply shape_reply; try done; apply quiet_refl).
  assert (Hlive : forall id addr f a, get id s = Some addr -> (forall lv, lv_id lv = id -> live_le [Received rq r] lv (f lv)) ->
    no_stop (Replied rq a) -> forall added, shape [Received rq r] s (reply rq a (on_live addr f s)) added).
  { intros id addr f a Hg Hf Ha added. apply shape_reply; try done. apply quiet_alter. intros lv Hlv. apply Hf.
    destruct (Hreg _ _ Hg) as (lv' & Hlv' & <-). congruence. }
  assert (Hcall : forall id addr cmd, get id s = Some addr -> (forall m, cmd <> Prompt m) -> asks id cmd r ->
    forall (s' : Server), sv_heap s' = sv_heap s -> sv_trace s' = sv_trace s -> sv_tasks s' = sv_tasks s ->
    (forall id addr, get id s' = Some addr -> get id s = Some addr) ->
    shape [Received rq r] s (spawn_task (TCall rq addr cmd Sending) s') (sends rq r (spawn_task (TCall rq addr cmd Sending) s'))).
  { intros id addr cmd Hg Hp Ha s' Hh Ht Hts Hs. apply shape_spawn; try done; [rewrite Hh; apply quiet_refl|].
    destruct (Hreg _ _ Hg) as (lv & Hlv & <-). cbn. split; [done|]. split; [done|]. exists lv. rewrite Hh.
    split; [done|]. split; [done|]. intros m ->. by destruct (Hp m). }
  assert (Hsp : forall t added, (added t : Prop) -> shape [Received rq r] s (spawn_task t s) added)
    by (intros; apply shape_spawn; try done; apply quiet_refl).
  destruct r as [|cwd meta|id blocks|id| |id|id|id kinds|id|id scope|id]; open_handler; try by apply Hsp.
  - by apply Hrep.
  - destruct (_ && _); [by apply Hrep|]. destruct (session_meta _ _ _) as [[agent overrides]|e]; [by apply Hsp|by apply Hrep].
  - destruct (get id s) as [addr|] eqn:Hg; [|by apply Hrep]. case_decide; [by apply Hrep|].
    destruct (Hreg _ _ Hg) as (lv & Hlv & Hid). apply shape_spawn; try done.
    + apply quiet_alter. intros. apply live_le_unflag.
    + cbn. split; [done|]. split; [done|]. exists (set_cancel_requested false lv).
      rewrite list_lookup_alter_eq, Hlv. by split_and!.
  - destruct (get id s) as [addr|] eqn:Hg; [|by apply Hrep]. apply (Hcall id); try done.
    intros id' addr'. unfold get. cbn. by intros [_ H]%lookup_delete_Some.
  - destruct (get id s) as [addr|] eqn:Hg; [|by apply Hrep]. apply (Hlive id); try done. intros. apply live_le_subscription.
  - destruct (get id s) as [addr|] eqn:Hg; [|by apply Hrep]. apply (Hlive id); try done. intros. apply live_le_subscription.
  - destruct (get id s) as [addr|] eqn:Hg; [|by apply Hrep].
    destruct scope; [|apply (Hlive id); try done; intros; apply live_le_cancel..].
    apply shape_reply; try done. cbn. eapply quiet_trans; [apply quiet_alter|apply quiet_alter; intros; apply live_le_cancel].
    intros lv Hlv. destruct (Hreg _ _ Hg) as (lv' & Hlv' & Hid). apply (live_le_flag _ _ (Received rq (RqCancel id ScopeTurn))).
    + left.
    + cbn. congruence.
  - destruct (get id s) as [addr|] eqn:Hg; [|by apply Hrep]. by apply (Hcall id).
Qed.
Lemma receive_inv uuid r (s : Server) : inv s -> inv (receive opts table_of_json uuid r s).
Proof.
  intros Hi. unfold receive.
  set (s0 := {| sv_sessions := _; sv_heap := _; sv_tasks := _; sv_received := _; sv_trace := _ |}).
  destruct (handle_shape uuid (sv_received s) r s0 (inv_registry s Hi)) as [Hq (extra & Ht & Hns) (ts & Hts & Ha) Hs].
  set (s' := handled _ _ _ _) in *. assert (Htr : sv_trace s' = sv_trace s ++ (Received (sv_received s) r :: extra)).
  { rewrite Ht. unfold s0. cbn. by rewrite <- app_assoc. }
  assert (Hq' : quiet (Received (sv_received s) r :: extra) (sv_heap s) (sv_heap s')).
  { destruct Hq as [Hq Hn]. split; [|done]. intros addr lv (lv' & Hlv' & [E1 E2 E3 E4])%Hq. exists lv'. split; [done|].
    split; try done. intros [H|(a & Hin & Hc)]%E4; [by left|]. right. exists a. split; [|done].
    apply list_elem_of_singleton in Hin as ->. left. }
  eapply inv_quiet; [done|done|done|..].
  - rewrite Htr. apply trace_ok_quiet; [apply Hi|]. by constructor.
  - eapply registry_ok_quiet; [apply (inv_registry s Hi)|done|exact Hs].
  - intros t Hin. rewrite Hts in Hin. apply elem_of_app in Hin as [Hin|Hin]; [by left|right].
    rewrite Forall_forall in Ha. specialize (Ha _ Hin). destruct t as [|rq addr cmd stage| |]; try done.
    destruct Ha as (-> & -> & lv & Hlv & Has & Hf). exists lv, r. split; [done|]. rewrite Htr.
    split; [apply elem_of_app; right; left|]. split; [done|]. split; [|by split].
    intros m Hm. by rewrite (Hf _ Hm).
  - intros. rewrite Hts. apply elem_of_app. by left.
Qed.
Lemma notice_inv id (s : Server) : inv s -> inv (notice id s).
Proof.
  intros Hi. unfold notice. change (get id (say (Noticed id) s)) with (get id s).
  assert (Ht : trace_ok (sv_trace s ++ [Noticed id])) by (apply trace_ok_quiet; [apply Hi|by constructor]).
  destruct (get id s) as [addr|] eqn:Hg; cycle 1.
  { eapply (inv_quiet [Noticed id]); try done; [apply quiet_refl|apply (inv_registry s Hi)|by left]. }
  assert (Hq : quiet [Noticed id] (sv_heap s)
    (alter (fun lv => cancel_kernel ScopeTurn (set_cancel_requested true lv)) addr (sv_heap s))).
  { apply quiet_alter. intros lv Hlv. destruct (inv_registry s Hi _ _ Hg) as (lv' & Hlv' & Hid).
    eapply live_le_trans; [apply (live_le_flag _ _ (Noticed id)); [left|cbn; congruence]|apply live_le_cancel]. }
  eapply (inv_quiet [Noticed id]); try done; [|by left]. eapply registry_ok_quiet; [apply (inv_registry s Hi)|done|done].
Qed.
Lemma say_all_inv l (s : Server) : Forall no_stop l -> inv s -> inv (say_all l s).
Proof.
  unfold say_all. revert s. induction l as [|a l IH]; intros s Hl Hi; [done|]. apply Forall_cons in Hl as [Ha Hl]. cbn [foldl].
  apply IH; [done|]. eapply (inv_quiet [a]); try done.
  - apply quiet_refl.
  - apply trace_ok_quiet; [apply Hi|by constructor].
  - apply (inv_registry s Hi).
  - by left.
Qed.
Lemma on_live_inv addr f (s : Server) : inv s -> (forall lv, live_le [] lv (f lv)) -> inv (on_live addr f s).
Proof.
  intros Hi Hf. assert (Hq : quiet [] (sv_heap s) (alter f addr (sv_heap s))) by (apply quiet_alter; intros; apply Hf).
  eapply (inv_quiet []); try done; cbn; rewrite ?app_nil_r; try done; [apply Hi| |by left].
  eapply registry_ok_quiet; [apply (inv_registry s Hi)|done|done].
Qed.

(** ** The tasks keep it *)

Lemma tasks_unique (s : Server) t t' :
  NoDup (held s) -> t ∈ sv_tasks s -> t' ∈ sv_tasks s -> task_rq t = task_rq t' -> t = t'.
Proof. apply fmap_NoDup_inj. Qed.
Lemma sent_inv l rq addr cmd r (s : Server) lv :
  inv s -> NoDup (held s) -> sv_tasks s = l ++ TCall rq addr cmd Sending :: r ->
  sv_heap s !! addr = Some lv -> is_Some (lv_kernel lv) ->
  inv (set_tasks (l ++ [TCall rq addr cmd Waiting] ++ r)
         (on_live addr (fun lv => with_kernel (lv_kernel lv) (lv_queue lv ++ [(rq, cmd)]) lv) s)).
Proof.
  intros Hi Hn Htasks Hlv Hk. set (push lv := with_kernel (lv_kernel lv) (lv_queue lv ++ [(rq, cmd)]) lv).
  assert (Hin : TCall rq addr cmd Sending ∈ sv_tasks s) by (rewrite Htasks; apply elem_of_app; right; left).
  assert (Hh : forall a lv0, sv_heap s !! a = Some lv0 -> alter push addr (sv_heap s) !! a = Some (if decide (addr = a) then push lv0 else lv0)).
  { intros a lv0 Ha. case_decide as E; [subst a; by rewrite list_lookup_alter_eq, Ha|by rewrite list_lookup_alter_ne]. }
  split; cbn.
  - intros id a (lv0 & H0 & Hid)%(inv_registry s Hi). eexists. split; [by apply Hh|]. by case_decide.
  - intros t Ht. assert (Hcase : t ∈ sv_tasks s \/ t = TCall rq addr cmd Waiting).
    { rewrite Htasks. revert Ht. rewrite !elem_of_app, !elem_of_cons. naive_solver. }
    destruct Hcase as [Ht'| ->].
    + pose proof (inv_calls s Hi _ Ht') as Hok. destruct t as [|rq2 a2 cmd2 st2| |]; try done.
      destruct Hok as (lv2 & r2 & H1 & H2 & H3 & H4 & H5 & H6). eexists _, r2. split; [by apply Hh|].
      case_decide as E; [|by split_and!]. cbn. split_and!; try done. intros Hw. destruct (H5 Hw) as [Hk2 Hq2].
      split; [done|]. apply elem_of_app. by left.
    + destruct (inv_calls s Hi _ Hin) as (lv2 & r2 & H1 & H2 & H3 & H4 & H5 & H6). simplify_eq.
      eexists _, r2. split; [by apply Hh|]. rewrite decide_True by done. cbn. split_and!; try done.
      intros _. split; [done|]. apply elem_of_app. right. left.
  - assert (Hold : forall a lv0 rq2 cmd2, sv_heap s !! a = Some lv0 -> (rq2, cmd2) ∈ lv_queue lv0 ->
      TCall rq2 a cmd2 Waiting ∈ l ++ TCall rq addr cmd Waiting :: r).
    { intros a lv0 rq2 cmd2 Ha Hq. destruct (inv_queues s Hi a lv0 Ha) as [_ H]. specialize (H _ _ Hq).
      revert H. rewrite Htasks, !elem_of_app, !elem_of_cons. naive_solver. }
    intros a lv' Ha'. destruct (sv_heap s !! a) as [lv0|] eqn:Ha; cycle 1.
    { destruct (decide (addr = a)) as [->|E]; [congruence|]. rewrite list_lookup_alter_ne in Ha' by done. congruence. }
    rewrite (Hh _ _ Ha) in Ha'. injection Ha' as <-. destruct (inv_queues s Hi a lv0 Ha) as [Hnd Hq].
    case_decide as E; [subst a; simplify_eq|by split; [|intros; by eapply Hold]]. cbn. split.
    + rewrite fmap_app. apply NoDup_app. split; [done|]. split; [|apply NoDup_singleton].
      intros rq2 ([rq3 cmd3] & He & H3)%list_elem_of_fmap E%list_elem_of_singleton. cbn in He, E. subst rq2 rq3.
      apply Hq in H3. by pose proof (tasks_unique s _ _ Hn Hin H3 eq_refl).
    + intros rq2 cmd2 [H|[= -> ->]%list_elem_of_singleton]%elem_of_app; [by eapply Hold|].
      apply elem_of_app. right. left.
  - apply Hi.
Qed.

Lemma call_answer_cancelled cmd r c : (forall rep, r = Some rep -> answers_cmd cmd rep) ->
  call_answer show_kernel_error cmd r c = AStopped StopCancelled ->
  c = true /\ match cmd with Prompt _ | Resume _ => True | Status | End => False end.
Proof.
  intros Hr. destruct r as [rep|]; [specialize (Hr _ eq_refl)|clear Hr; by destruct cmd].
  destruct cmd, rep as [[[]|]| |[]]; cbn in *; try done; by destruct c.
Qed.
Lemma trace_after id us (s : Server) :
  let s' := foldl (fun s u => say (Updated id u) s) s us in
  sv_trace s' = sv_trace s ++ (Updated id <$> us) /\ sv_heap s' = sv_heap s /\ sv_sessions s' = sv_sessions s.
Proof.
  revert s. induction us as [|u us IH]; intros s; [cbn; by rewrite app_nil_r|]. cbn.
  destruct (IH (say (Updated id u) s)) as (-> & -> & ->). cbn. by rewrite <- app_assoc.
Qed.
Lemma registry_ok_adopt (s s' : Server) ln :
  registry_ok s -> sv_heap s' = sv_heap s -> sv_sessions s' = sv_sessions s -> registry_ok (adopt ln s').
Proof.
  intros Hreg Hh Hs id addr. unfold get. cbn. rewrite Hh, Hs. intros [[<- <-]|[_ H]]%lookup_insert_Some.
  - exists (live_of ln). split; [|done]. by rewrite lookup_app_r, Nat.sub_diag by done.
  - destruct (Hreg id addr H) as (lv & Hlv & Hid). exists lv. split; [by apply lookup_app_l_Some|done].
Qed.
Definition is_waiting (t : Task) : bool := match t with TCall _ _ _ Waiting => true | _ => false end.

(** A task that is not waiting for a reply takes a step that leaves the drivers alone. *)
Lemma replaced_inv new l t r (s s' : Server) t' :
  inv s -> sv_tasks s = l ++ t :: r -> is_waiting t = false -> quiet new (sv_heap s) (sv_heap s') ->
  sv_trace s' = sv_trace s ++ new -> trace_ok (sv_trace s') -> registry_ok s' ->
  (forall t1, t' = Some t1 -> call_ok s' t1) -> inv (set_tasks (l ++ option_list t' ++ r) s').
Proof.
  intros Hi Htasks Hw Hq Ht Htr Hreg Hok'. eapply inv_quiet; [exact Hi|exact Hq|exact Ht|exact Htr|exact Hreg|..]; cbn.
  - intros t0. rewrite Htasks, !elem_of_app, elem_of_cons. intros [H|[H|H]]; [by left; left| |by left; right; right].
    right. destruct t' as [t1|]; [|by apply elem_of_nil in H]. apply list_elem_of_singleton in H as ->. by apply Hok'.
  - intros rq addr cmd. rewrite Htasks, !elem_of_app, elem_of_cons. intros [H|[<-|H]]; [by left|by cbn in Hw|right; by right].
Qed.
Lemma replied_inv rq a l t r (s : Server) :
  inv s -> sv_tasks s = l ++ t :: r -> is_waiting t = false ->
  (a = AStopped StopCancelled -> cancelled_prompt rq (sv_trace s)) -> inv (set_tasks (l ++ option_list None ++ r) (reply rq a s)).
Proof.
  intros Hi Htasks Hw Ha. eapply (replaced_inv [Replied rq a]); try done; [apply quiet_refl| |apply Hi].
  cbn. apply trace_ok_snoc; [apply Hi|]. intros rq' [= -> ->]. by apply Ha.
Qed.
Lemma untouched_inv l t r (s : Server) t1 :
  inv s -> sv_tasks s = l ++ t :: r -> is_waiting t = false -> call_ok s t1 -> inv (set_tasks (l ++ option_list (Some t1) ++ r) s).
Proof.
  intros Hi Htasks Hw Hok. eapply (replaced_inv []); try done; rewrite ?app_nil_r; try done; [apply quiet_refl|apply Hi|apply Hi|].
  by intros t2 [= <-].
Qed.
Lemma adopted_inv new rq a l t r (s s0 : Server) ln :
  inv s -> sv_tasks s = l ++ t :: r -> is_waiting t = false -> Forall no_stop (new ++ [Replied rq a]) ->
  sv_trace s0 = sv_trace s ++ new -> sv_heap s0 = sv_heap s -> sv_sessions s0 = sv_sessions s ->
  inv (set_tasks (l ++ option_list None ++ r) (reply rq a (adopt ln s0))).
Proof.
  intros Hi Htasks Hw Hns Ht Hh Hs. eapply (replaced_inv (new ++ [Replied rq a])); try done.
  - cbn. rewrite Hh. by apply quiet_snoc.
  - cbn. by rewrite Ht, app_assoc.
  - cbn. rewrite Ht, <- app_assoc. apply trace_ok_quiet; [apply Hi|done].
  - exact (registry_ok_adopt s s0 ln (inv_registry s Hi) Hh Hs).
Qed.

Lemma task_inv l t r (s s' : Server) t' :
  inv s -> NoDup (held s) -> sv_tasks s = l ++ t :: r -> task_steps t s t' s' ->
  inv (set_tasks (l ++ option_list t' ++ r) s').
Proof.
  intros Hi Hn Htasks Hstep.
  assert (Hok : call_ok s t) by (apply (inv_calls s Hi); rewrite Htasks; apply elem_of_app; right; left).
  destruct Hstep as [rq id cwd agent overrides s ln Hc|rq id cwd agent overrides s e Hc|rq addr cmd s lv Hlv Hk Hlen
    |rq addr cmd s lv Hlv Hk|rq addr cmd rep s lv Hlv|rq s records|rq id replay s|rq id replay s|rq id replay s e Hr
    |rq id s ln bytes e Hr Hh|rq id replay s ln bytes us Hr Hh].
  - eapply (adopted_inv []); try done; [by constructor|by rewrite app_nil_r].
  - eapply replied_inv; done.
  - by apply (sent_inv l rq addr cmd r s lv).
  - eapply untouched_inv; try done. destruct Hok as (lv' & r0 & H1 & H2 & H3 & H4 & _ & _). by exists lv', r0.
  - eapply replied_inv; try done. destruct Hok as (lv' & r0 & H1 & H2 & H3 & H4 & _ & H6). simplify_eq.
    intros [Hc Hcmd]%call_answer_cancelled; [|naive_solver].
    destruct cmd as [m| | |]; try done; cbn in H3; [|by destruct r0].
    destruct r0; try done. destruct H3 as [-> _]. eexists _, _. by eapply H4.
  - eapply replied_inv; try done. by destruct records.
  - destruct (get id s); [by eapply replied_inv|by eapply untouched_inv].
  - destruct (_ && _); [by eapply replied_inv|by eapply untouched_inv].
  - eapply replied_inv; done.
  - eapply replied_inv; done.
  - destruct (trace_after id us s) as (H1 & H2 & H3). eapply (adopted_inv (Updated id <$> us)); try done.
    apply Forall_app. split; [|by constructor]. by apply Forall_fmap, Forall_true.
Qed.

(** ** The drivers keep it *)

Lemma wake_rq rq r t : task_rq (wake rq r t) = task_rq t.
Proof. destruct t as [|? ? ? []| |]; try done. cbn. by case_decide. Qed.
Lemma wake_all_rq rqs t : task_rq (wake_all rqs t) = task_rq t.
Proof. induction rqs as [|rq rqs IH]; [done|]. cbn. by rewrite wake_rq. Qed.
Lemma wake_all_spec rqs t : wake_all rqs t =
  match t with
  | TCall rq addr cmd Waiting => if decide (rq ∈ rqs) then TCall rq addr cmd (Answered None) else t
  | _ => t
  end.
Proof.
  induction rqs as [|rq0 rqs IH]; [by destruct t as [|? ? ? []| |]|].
  cbn. fold (wake_all rqs t). rewrite IH. destruct t as [|rq addr cmd []| |]; try done.
  destruct (decide (rq ∈ rqs)) as [H|H]; cbn.
  - rewrite decide_True; [done|by right].
  - case_decide as E; [subst; by rewrite decide_True by left|]. rewrite decide_False; [done|]. by intros [?|?]%elem_of_cons.
Qed.

Section served.
Context (s : Server) (addr : nat) (lv : Live) (k : Kernel X L) (rq : nat) (cmd : Cmd) (q : list (nat * Cmd)) (fuel : nat)
  (k' : Kernel X L) (rep : CmdReply).
Context (Hi : inv s) (Hn : NoDup (held s)).
Context (Hlv : sv_heap s !! addr = Some lv) (Hk : lv_kernel lv = Some k) (Hq : lv_queue lv = (rq, cmd) :: q).
Context (Hserve : serve (lv_sh lv) (lv_log_path lv) fuel cmd k = (k', Some rep)).

Definition after_reply (t : Task) : Task :=
  let t := wake rq (Some rep) t in if is_end cmd then wake_all q.*1 t else t.
Definition live_after : Live := if is_end cmd then with_kernel None [] lv else with_kernel (Some k') q lv.

Lemma queued rq2 cmd2 : (rq2, cmd2) ∈ (rq, cmd) :: q -> TCall rq2 addr cmd2 Waiting ∈ sv_tasks s.
Proof. rewrite <- Hq. by apply (inv_queues s Hi). Qed.
Lemma after_reply_call rq2 a2 cmd2 : TCall rq2 a2 cmd2 Waiting ∈ sv_tasks s ->
  after_reply (TCall rq2 a2 cmd2 Waiting) =
    (if decide (rq2 = rq) then TCall rq2 a2 cmd2 (Answered (Some rep))
     else if is_end cmd && bool_decide (rq2 ∈ q.*1) then TCall rq2 a2 cmd2 (Answered None)
     else TCall rq2 a2 cmd2 Waiting).
Proof.
  intros _. unfold after_reply. cbn [wake]. destruct (decide (rq = rq2)) as [->|E].
  - rewrite decide_True by done. destruct (is_end cmd); [|done]. by rewrite wake_all_spec.
  - rewrite decide_False by done. destruct (is_end cmd); [|done]. rewrite wake_all_spec. cbn. by repeat case_decide; case_bool_decide.
Qed.
Lemma after_reply_done t : is_waiting t = false -> after_reply t = t.
Proof. unfold after_reply. destruct t as [|? ? ? []| |]; try done; intros _; cbn [wake]; destruct (is_end cmd); try done; apply wake_all_spec. Qed.

Lemma served_call t : t ∈ sv_tasks s -> call_ok (driver_served addr lv rq q (is_end cmd) k' rep s) (after_reply t).
Proof.
  intros Hin. pose proof (inv_calls s Hi t Hin) as Hok.
  assert (Hheap : forall a lv2, sv_heap s !! a = Some lv2 ->
    sv_heap (driver_served addr lv rq q (is_end cmd) k' rep s) !! a = Some (if decide (addr = a) then live_after else lv2)).
  { intros a lv2 Ha. unfold driver_served, live_after. destruct (is_end cmd); cbn;
      (case_decide as E; [subst a; by rewrite list_lookup_alter_eq, Ha|by rewrite list_lookup_alter_ne]). }
  assert (Htr : sv_trace (driver_served addr lv rq q (is_end cmd) k' rep s) = sv_trace s)
    by (unfold driver_served; by destruct (is_end cmd)).
  assert (Hlive : lv_id live_after = lv_id lv /\ lv_cancel_requested live_after = lv_cancel_requested lv)
    by (unfold live_after; by destruct (is_end cmd)).
  destruct Hlive as [Hid Hfl]. destruct t as [|rq2 a2 cmd2 st2| |]; try (by rewrite after_reply_done).
  destruct Hok as (lv2 & r2 & H1 & H2 & H3 & H4 & H5 & H6).
  (* Whatever the call's stage becomes, it stays with its session and its request. *)
  assert (Hstage : forall st3,
    (st3 = Waiting -> is_Some (lv_kernel (if decide (addr = a2) then live_after else lv2)) /\
       (rq2, cmd2) ∈ lv_queue (if decide (addr = a2) then live_after else lv2)) ->
    (forall rep', st3 = Answered (Some rep') -> answers_cmd cmd2 rep') ->
    call_ok (driver_served addr lv rq q (is_end cmd) k' rep s) (TCall rq2 a2 cmd2 st3)).
  { intros st3 Hw Hr. eexists _, r2. rewrite Htr. split; [by apply Hheap|]. split; [done|].
    case_decide as E; [subst a2; simplify_eq; rewrite Hid, Hfl|]; by split_and!. }
  destruct (is_waiting (TCall rq2 a2 cmd2 st2)) eqn:Hst;
    [|rewrite after_reply_done by done; apply Hstage; [by intros ->|exact H6]].
  destruct st2; try done.
  rewrite after_reply_call by done. destruct (H5 eq_refl) as [Hk2 Hq2]. destruct (decide (rq2 = rq)) as [E|E].
  - subst rq2. apply Hstage; [done|]. intros rep' [= <-].
    assert (Heq : TCall rq a2 cmd2 Waiting = TCall rq addr cmd Waiting) by (apply (tasks_unique s); try done; apply queued; left).
    injection Heq as -> ->. eapply serve_answers. by rewrite Hserve.
  - destruct (is_end cmd && bool_decide (rq2 ∈ q.*1)) eqn:Hd; [by apply Hstage|]. apply Hstage; [intros _|done].
    case_decide as Ea; [|done]. subst a2. simplify_eq. rewrite Hq in Hq2. apply elem_of_cons in Hq2 as [[= -> _]|Hq2]; [done|].
    unfold live_after. destruct (is_end cmd); [|by split; [eexists|]].
    cbn in Hd. apply bool_decide_eq_false in Hd. destruct Hd. apply list_elem_of_fmap. by exists (rq2, cmd2).
Qed.
Lemma driver_served_inv : inv (driver_served addr lv rq q (is_end cmd) k' rep s).
Proof.
  assert (Htasks : sv_tasks (driver_served addr lv rq q (is_end cmd) k' rep s) = after_reply <$> sv_tasks s).
  { unfold driver_served, after_reply. destruct (is_end cmd); cbn; [|done]. by rewrite <- list_fmap_compose. }
  assert (Hheap : sv_heap (driver_served addr lv rq q (is_end cmd) k' rep s) = alter (fun _ => live_after) addr (sv_heap s)).
  { unfold driver_served, live_after. by destruct (is_end cmd). }
  destruct (inv_queues s Hi _ _ Hlv) as [Hnd _]. rewrite Hq in Hnd. apply NoDup_cons in Hnd as [Hnot Hnd]. cbn in Hnot.
  assert (Hkeep : forall a lv2 rq2 cmd2, sv_heap s !! a = Some lv2 -> (rq2, cmd2) ∈ lv_queue lv2 -> rq2 <> rq ->
    (is_end cmd = true -> a <> addr) -> TCall rq2 a cmd2 Waiting ∈ after_reply <$> sv_tasks s).
  { intros a lv2 rq2 cmd2 Ha Hin Hne He. destruct (inv_queues s Hi _ _ Ha) as [_ H]. specialize (H _ _ Hin).
    apply list_elem_of_fmap. exists (TCall rq2 a cmd2 Waiting). split; [|done]. rewrite after_reply_call, decide_False by done.
    destruct (is_end cmd) eqn:Hend; [|done]. cbn. rewrite bool_decide_eq_false_2; [done|].
    intros ([rq3 cmd3] & Heq & H3)%list_elem_of_fmap. cbn in Heq. subst rq3.
    assert (H4 : TCall rq2 addr cmd3 Waiting ∈ sv_tasks s) by (apply queued; by right).
    pose proof (tasks_unique s _ _ Hn H H4 eq_refl) as [= -> _]. by apply He. }
  split.
  - intros id a Hg. replace (get id _) with (get id s) in Hg by (unfold driver_served; by destruct (is_end cmd)).
    apply (inv_registry s Hi) in Hg as (lv2 & H2 & <-). rewrite Hheap. destruct (decide (addr = a)) as [->|E].
    + rewrite list_lookup_alter_eq, H2. eexists. split; [done|]. simplify_eq. unfold live_after. by destruct (is_end cmd).
    + rewrite list_lookup_alter_ne by done. by exists lv2.
  - intros t Ht. rewrite Htasks in Ht. apply list_elem_of_fmap in Ht as (t0 & -> & Ht0). by apply served_call.
  - intros a lv' Ha. rewrite Htasks. rewrite Hheap in Ha. destruct (decide (addr = a)) as [<-|E].
    + rewrite list_lookup_alter_eq, Hlv in Ha. injection Ha as <-. unfold live_after. destruct (is_end cmd) eqn:Hend; cbn.
      * split; [constructor|]. by intros ? ? ?%elem_of_nil.
      * split; [done|]. intros rq2 cmd2 Hin. eapply Hkeep; [exact Hlv|rewrite Hq; by right| |done].
        intros ->. apply Hnot, list_elem_of_fmap. by exists (rq, cmd2).
    + rewrite list_lookup_alter_ne in Ha by done. destruct (inv_queues s Hi _ _ Ha) as [Hnd2 Hin2]. split; [done|].
      intros rq2 cmd2 Hin. eapply Hkeep; [exact Ha|done| |by intros _ ->]. intros ->. apply Hin2 in Hin.
      assert (Hf : TCall rq addr cmd Waiting ∈ sv_tasks s) by (apply queued; left).
      by pose proof (tasks_unique s _ _ Hn Hin Hf eq_refl) as [= -> _].
  - replace (sv_trace _) with (sv_trace s) by (unfold driver_served; by destruct (is_end cmd)). apply Hi.
Qed.
End served.

(** ** Every step keeps it *)

Lemma dropped_inv addr lv (s : Server) :
  inv s -> sv_heap s !! addr = Some lv -> lv_queue lv = [] -> (forall rq cmd stage, TCall rq addr cmd stage ∉ sv_tasks s) ->
  inv (on_live addr (with_kernel None []) s).
Proof.
  intros Hi Hlv Hq Hfree.
  assert (Hh : forall a lv2, sv_heap s !! a = Some lv2 -> alter (with_kernel None []) addr (sv_heap s) !! a =
    Some (if decide (addr = a) then with_kernel None [] lv2 else lv2)).
  { intros a lv2 Ha. case_decide as E; [subst a; by rewrite list_lookup_alter_eq, Ha|by rewrite list_lookup_alter_ne]. }
  split; cbn.
  - intros id a (lv0 & H0 & Hid)%(inv_registry s Hi). eexists. split; [by apply Hh|]. by case_decide.
  - intros t Ht. pose proof (inv_calls s Hi t Ht) as Hok. destruct t as [|rq a cmd st| |]; try done.
    destruct Hok as (lv2 & r2 & H1 & Hok). exists lv2, r2. split; [|done]. cbn. rewrite (Hh _ _ H1), decide_False; [done|].
    intros ->. by apply (Hfree rq cmd st).
  - intros a lv' Ha. destruct (sv_heap s !! a) as [lv2|] eqn:E; cycle 1.
    { destruct (decide (addr = a)) as [->|]; [congruence|]. rewrite list_lookup_alter_ne in Ha by done. congruence. }
    rewrite (Hh _ _ E) in Ha. injection Ha as <-. case_decide; [|by apply (inv_queues s Hi)].
    cbn. split; [constructor|]. by intros ? ? ?%elem_of_nil.
  - apply Hi.
Qed.
Definition wf (s : Server) : Prop := inv s /\ accounted s (seq 0 (sv_received s)).
Lemma wf_held s : wf s -> NoDup (held s).
Proof.
  intros [_ H]. assert (Hn : NoDup (answered (sv_trace s) ++ held s)) by (unfold accounted in H; rewrite H; apply NoDup_seq).
  apply NoDup_app in Hn as (_ & _ & Hn). exact Hn.
Qed.
Lemma say_all_accounted l (s : Server) rqs :
  answered l = [] -> accounted s rqs -> accounted (say_all l s) rqs.
Proof.
  unfold say_all, accounted, held. revert s. induction l as [|a l IH]; intros s Hl Ha; [done|]. cbn [foldl].
  cbn in Hl. destruct a; try done; apply IH; try done; cbn; by rewrite answered_app, app_nil_r.
Qed.
Lemma handle_received uuid rq r (s : Server) : sv_received (handled uuid rq r s) = sv_received s.
Proof. destruct r; open_handler; repeat case_match; reflexivity. Qed.
Lemma say_all_received l (s : Server) : sv_received (say_all l s) = sv_received s.
Proof. unfold say_all. revert s. induction l as [|a l IH]; intros s; [done|]. cbn [foldl]. by rewrite IH. Qed.

Lemma projected_wf addr f l (s : Server) :
  (forall lv, live_le [] lv (f lv)) -> answered l = [] -> Forall no_stop l -> wf s -> wf (say_all l (on_live addr f s)).
Proof.
  intros Hf Hl Hs [Hi Ha]. split; [by apply say_all_inv, on_live_inv|]. rewrite say_all_received. by apply say_all_accounted.
Qed.
Lemma step_wf allowed (s s' : Server) : server_step allowed s s' -> wf s -> wf s'.
Proof.
  intros Hstep Hwf. pose proof (wf_held s Hwf) as Hn. destruct Hwf as [Hi Ha].
  destruct Hstep as [uuid r s _|id s|l t r s t' s' Htasks Ht|addr lv k rq cmd q fuel k' rep s Hlv Hk Hq Hserve
    |addr lv s Hlv Hq _ Hfree|addr lv d s Hlv|addr lv e s Hlv].
  - split; [by apply receive_inv|]. unfold receive. rewrite handle_received. cbn [sv_received]. rewrite seq_S. cbn.
    apply handle_accounted. unfold accounted, held in *. cbn. by rewrite answered_app, app_nil_r.
  - split; [by apply notice_inv|]. unfold notice. change (get id (say (Noticed id) s)) with (get id s).
    unfold accounted, held in *. destruct (get id s); cbn; by rewrite answered_app, app_nil_r.
  - split; [by eapply task_inv|]. destruct (task_step_accounted _ _ _ _ Ht) as (Hts & Hr & Hacc).
    unfold accounted, held in *. cbn. rewrite Hr, <- Ha, Htasks. rewrite !fmap_app. cbn.
    rewrite (Permutation_app_comm (task_rq <$> l)), !app_assoc, Hacc, <- !app_assoc. f_equiv. cbn.
    rewrite (Permutation_app_comm (task_rq <$> r)). by rewrite Permutation_middle.
  - split; [by eapply driver_served_inv|]. unfold accounted, held, driver_served in *.
    replace (sv_received _) with (sv_received s) by (by destruct (is_end cmd)). rewrite <- Ha.
    assert (Hmap : forall (f : Task -> Task) (ts : list Task), (forall t, task_rq (f t) = task_rq t) -> task_rq <$> (f <$> ts) = task_rq <$> ts).
    { intros f ts Hf. rewrite <- list_fmap_compose. apply list_fmap_ext. intros i t _. apply Hf. }
    destruct (is_end cmd); cbn; by rewrite !Hmap by (intros; first [apply wake_rq|apply wake_all_rq]).
  - split; [by eapply dropped_inv|]. done.
  - unfold projected_delta. destruct (project_delta d (lv_projector lv)) as [p u].
    apply projected_wf; [intros; apply live_le_projector|by destruct u|destruct u; by repeat constructor|done].
  - unfold projected_event. destruct (project_event (ev_body e) (lv_projector lv)) as [p us].
    apply projected_wf; [intros; apply live_le_projector| | |done].
    + rewrite answered_app. assert (H : answered (Updated (lv_id lv) <$> us) = []) by (by induction us).
      rewrite H. by destruct (wanted lv e).
    + apply Forall_app. split; [by apply Forall_fmap, Forall_true|]. destruct (wanted lv e); by repeat constructor.
Qed.
Lemma reachable_wf allowed s : server_reachable allowed s -> wf s.
Proof.
  assert (H0 : wf server_new).
  { split; [|exact (Permutation_refl [])]. split; cbn; try done.
    - by intros t ?%elem_of_nil.
    - intros pre rq post H. destruct pre; discriminate H. }
  unfold reachable. intros H. assert (H' : forall s0, wf s0 -> rtc (server_step allowed) s0 s -> wf s); [|by apply (H' server_new)].
  clear H H0. intros s0 H0 H. induction H as [|s0 s1 s2 Hs _ IH]; [done|]. by apply IH, (step_wf _ _ _ Hs).
Qed.

(** * What clients may rely on *)

Definition can_step (t : Task) (s : Server) : Prop := exists t' s', task_steps t s t' s'.
Definition driver_busy (t : Task) (s : Server) : Prop :=
  match t with
  | TCall _ addr _ _ => exists lv k rq cmd q,
      sv_heap s !! addr = Some lv /\ lv_kernel lv = Some k /\ lv_queue lv = (rq, cmd) :: q
  | _ => False
  end.
Lemma task_can_step t (s : Server) :
  (forall id cwd agent overrides, exists r, creates id cwd agent overrides r) -> (forall id, exists r, reopens id r) ->
  call_ok s t -> can_step t s \/ driver_busy t s.
Proof.
  intros Hc Hr Hok. destruct t as [rq id cwd agent overrides|rq addr cmd st|rq|rq id replay st].
  - left. destruct (Hc id cwd agent overrides) as [[ln|e] H]; eexists _, _; [by eapply ts_created|by eapply ts_not_created].
  - destruct Hok as (lv & r & Hlv & _ & _ & _ & Hw & _). destruct st as [| |rep].
    + destruct (lv_kernel lv) as [k|] eqn:Hk; [|left; eexists _, _; by eapply ts_gone].
      destruct (lv_queue lv) as [|[rq1 cmd1] q] eqn:Hq; [|right; by exists lv, k, rq1, cmd1, q].
      left. eexists _, _. eapply ts_sent; [exact Hlv|by rewrite Hk|]. rewrite Hq. cbn. unfold CHANNEL. lia.
    + right. destruct (Hw eq_refl) as [[k Hk] Hin]. destruct (lv_queue lv) as [|[rq1 cmd1] q] eqn:Hq; [by apply elem_of_nil in Hin|].
      by exists lv, k, rq1, cmd1, q.
    + left. eexists _, _. by eapply ts_answered.
  - left. exists None. eexists. exact (ts_listed _ _ _ _ _ rq s (Ok [])).
  - left. destruct st; [eexists _, _; by apply ts_found|eexists _, _; by apply ts_counted|].
    destruct (Hr id) as [[ln|e] H]; [|eexists _, _; by eapply ts_not_reopened].
    destruct replay; [|eexists _, _; by eapply (ts_reopened _ _ _ _ _ rq id false s ln (Ok "") [])].
    eexists _, _. by eapply (ts_no_history _ _ _ _ _ rq id s ln (Err (LogIo ""))).
Qed.

(** C2: however the handlers, the spawned tasks, the drivers and the projectors
    interleave, no request is answered twice and none is lost.  The requests answered and those
    that a task still holds are together exactly the requests received; every task can take its
    next step unless its session's driver is running and has a command to serve; and a call under
    way is for the session that its request names. *)
Theorem requests_answered_once (s : Server) :
  (forall id cwd agent overrides, exists r, creates id cwd agent overrides r) -> (forall id, exists r, reopens id r) ->
  server_reachable anything s ->
  answered (sv_trace s) ++ held s ≡ₚ seq 0 (sv_received s) /\
  Forall (fun t => can_step t s \/ driver_busy t s) (sv_tasks s) /\
  forall rq addr cmd stage, TCall rq addr cmd stage ∈ sv_tasks s -> exists lv r,
    sv_heap s !! addr = Some lv /\ Received rq r ∈ sv_trace s /\ asks (lv_id lv) cmd r.
Proof.
  intros Hc Hr [Hi Ha]%reachable_wf. split; [exact Ha|]. split.
  - apply Forall_forall. intros t Ht. by apply task_can_step, (inv_calls s Hi).
  - intros rq addr cmd stage Ht. destruct (inv_calls s Hi _ Ht) as (lv & r & H1 & H2 & H3 & _). by exists lv, r.
Qed.

(** C24: a prompt is answered as cancelled only if the client
    cancelled that session's turn after it sent the prompt: by [session/cancel], or by
    [_grist/cancel] with the scope of a turn, never by a cancellation of a tool or a task, of
    another session, or from before the prompt. *)
Theorem cancelled_answers_follow_cancellations allowed (s : Server) pre rq post :
  server_reachable allowed s -> sv_trace s = pre ++ Replied rq (AStopped StopCancelled) :: post ->
  exists session blocks before after a,
    pre = before ++ Received rq (RqPrompt session blocks) :: after /\ a ∈ after /\ cancels session a.
Proof.
  intros [Hi _]%reachable_wf He. destruct (inv_trace s Hi _ _ _ He) as (session & blocks & before & after & a & H).
  by exists session, blocks, before, after, a.
Qed.

(** ** One session per process *)

Definition launching (t : Task) : bool := match t with TNew _ _ _ _ _ | TReopen _ _ _ RsLaunch => true | _ => false end.
Record single (s : Server) : Prop := {
  sg_creating : length (List.filter creating (sv_tasks s)) <= 1;
  sg_sessions : count s <= 1;
  sg_launching : existsb launching (sv_tasks s) = true -> count s = 0
}.

Lemma filter_none {A} (f : A -> bool) l : Forall (fun t => f t = false) l -> List.filter f l = [].
Proof. induction 1 as [|t l Ht _ IH]; [done|]. cbn. by rewrite Ht. Qed.
Lemma creating_none (s : Server) : Forall (fun t => creating t = false) (sv_tasks s) -> existsb launching (sv_tasks s) = false.
Proof. induction 1 as [|t l Ht _ IH]; [done|]. cbn. rewrite IH. by destruct t. Qed.
Lemma existsb_none l : List.filter creating l = [] -> existsb launching l = false.
Proof. induction l as [|t l IH]; [done|]. cbn. destruct t as [| | |? ? ? []]; cbn; auto; done. Qed.
Lemma count_insert id a (m : gmap string nat) : size m = 0 -> size (<[id := a]> m) <= 1.
Proof. intros ->%map_size_empty_iff. rewrite insert_empty, map_size_singleton. lia. Qed.
Lemma single_same (s s' : Server) :
  sv_sessions s' = sv_sessions s -> (creating <$> sv_tasks s') = (creating <$> sv_tasks s) ->
  (launching <$> sv_tasks s') = (launching <$> sv_tasks s) -> single s -> single s'.
Proof.
  assert (Hf : forall (f : Task -> bool) l l', f <$> l = f <$> l' -> length (List.filter f l) = length (List.filter f l') /\ existsb f l = existsb f l').
  { intros f. induction l as [|t l IH]; intros [|t' l'] H; try done. injection H as Ht Hl. destruct (IH _ Hl) as [H1 H2].
    cbn. rewrite Ht, H2. destruct (f t'); cbn; by rewrite ?H1. }
  intros Hs [Hc _]%Hf [_ Hl]%Hf [H1 H2 H3]. unfold count in *. split; unfold count; by rewrite ?Hs, ?Hc, ?Hl.
Qed.

Section one.
Context (Hsingle : so_single_session opts = true).

Lemma receive_single uuid r (s : Server) : one_at_a_time s r -> single s -> single (receive opts table_of_json uuid r s).
Proof using Hsingle.
  intros Hone Hs.
  assert (Hcall : forall t (s' : Server), creating t = false -> sv_tasks s' = sv_tasks s ++ [t] -> count s' <= count s -> single s').
  { intros t s' Hnt Ht Hcount. destruct Hs as [H1 H2 H3]. assert (Hl : launching t = false) by (by destruct t).
    split; [|lia|]; rewrite Ht.
    - rewrite List.filter_app. cbn. by rewrite Hnt, app_nil_r.
    - rewrite existsb_app. cbn. rewrite Hl, !orb_false_r. intros H%H3. lia. }
  assert (Hreply : forall (s' : Server), sv_sessions s' = sv_sessions s -> sv_tasks s' = sv_tasks s -> single s').
  { intros s' H1 H2. eapply single_same; [exact H1|by rewrite H2|by rewrite H2|done]. }
  assert (Hcreate : forall t (s' : Server), creating t = true -> creates_session r = true -> (launching t = true -> count s = 0) ->
    sv_sessions s' = sv_sessions s -> sv_tasks s' = sv_tasks s ++ [t] -> single s').
  { intros t s' Ht Hr Hl Hss Hts. specialize (Hone Hr). pose proof (creating_none s Hone) as Hno.
    split; unfold count in *; rewrite ?Hss, ?Hts.
    - rewrite List.filter_app, (filter_none _ _ Hone). cbn. by rewrite Ht.
    - apply Hs.
    - rewrite existsb_app, Hno. cbn. rewrite orb_false_r. exact Hl. }
  unfold receive. set (rq := sv_received s).
  set (s0 := {| sv_sessions := _; sv_heap := _; sv_tasks := _; sv_received := _; sv_trace := _ |}).
  assert (Hget : forall id, get id s0 = get id s) by done. destruct r as [|cwd meta|id blocks|id| |id|id|id kinds|id|id scope|id]; open_handler;
    rewrite ?Hget; try (by apply Hreply).
  - change (count s0) with (count s). rewrite Hsingle. destruct (0 <? count s)%nat eqn:Hc; cbn [andb]; [by apply Hreply|].
    apply Nat.ltb_ge in Hc. destruct (session_meta _ _ _) as [[agent overrides]|e]; [|by apply Hreply].
    eapply (Hcreate (TNew rq ("s_" +:+ uuid) cwd agent overrides)); try done. intros _. lia.
  - destruct (get id s); [|by apply Hreply]. case_decide; [by apply Hreply|].
    eapply (Hcall (TCall _ _ _ _)); [done|reflexivity|apply Nat.le_refl].
  - destruct (get id s); [|by apply Hreply].
    eapply (Hcall (TCall _ _ _ _)); [done|reflexivity|]. unfold count. cbn.
    rewrite map_size_delete. destruct (sv_sessions s !! id); cbn; lia.
  - eapply (Hcall (TList rq)); [done|reflexivity|apply Nat.le_refl].
  - by eapply (Hcreate (TReopen rq id true RsFind)).
  - by eapply (Hcreate (TReopen rq id false RsFind)).
  - destruct (get id s); by apply Hreply.
  - destruct (get id s); by apply Hreply.
  - destruct (get id s); [|by apply Hreply]. destruct scope; by apply Hreply.
  - destruct (get id s); [|by apply Hreply]. eapply (Hcall (TCall _ _ _ _)); [done|reflexivity|apply Nat.le_refl].
Qed.

Lemma single_task l t r (s s' : Server) (t' : option Task) :
  sv_tasks s = l ++ t :: r -> sv_sessions s' = sv_sessions s ->
  (forall t1, t' = Some t1 -> creating t1 = true -> creating t = true /\ (launching t1 = true -> launching t = true \/ count s = 0)) ->
  single s -> single (set_tasks (l ++ option_list t' ++ r) s').
Proof using.
  intros Hts Hss Ht [H1 H2 H3]. rewrite Hts in H1, H3. rewrite List.filter_app, length_app in H1. rewrite existsb_app in H3.
  cbn in H1, H3. split; unfold count in *; cbn; rewrite ?Hss; try done.
  - rewrite !List.filter_app, !length_app. destruct t' as [t1|]; cbn; [|destruct (creating t); cbn in *; lia].
    specialize (Ht t1 eq_refl). destruct (creating t1); [|destruct (creating t); cbn in *; lia].
    destruct (Ht eq_refl) as [Hc _]. rewrite Hc in H1. cbn in *. lia.
  - rewrite !existsb_app. intros H. destruct (existsb launching l); [by apply H3|]. destruct (existsb launching r) eqn:Hr.
    { apply H3. by rewrite orb_true_r. }
    destruct t' as [t1|]; [|done]. cbn in H. rewrite !orb_false_r in H. specialize (Ht t1 eq_refl).
    destruct Ht as [_ Hl]; [by destruct t1 as [| | |? ? ? []]|]. destruct (Hl H) as [Hlt|]; [|done]. apply H3. by rewrite Hlt.
Qed.
Lemma single_adopted l t r (s s' : Server) ln :
  sv_tasks s = l ++ t :: r -> creating t = true -> launching t = true -> sv_sessions s' = sv_sessions s ->
  single s -> single (set_tasks (l ++ r) (adopt ln s')).
Proof using.
  intros Hts Hc Hl Hss [H1 H2 H3]. rewrite Hts in H1, H3. rewrite List.filter_app, length_app in H1. cbn in H1. rewrite Hc in H1.
  cbn in H1. assert (Hnone : List.filter creating l = [] /\ List.filter creating r = []) by (split; apply nil_length_inv; lia).
  destruct Hnone as [Hl0 Hr0]. assert (Hcount : count s = 0).
  { apply H3. rewrite existsb_app. cbn. rewrite Hl. by rewrite orb_true_r. }
  split; unfold count in *; cbn; rewrite ?Hss.
  - rewrite List.filter_app, Hl0, Hr0. cbn. lia.
  - by apply count_insert.
  - rewrite existsb_app, (existsb_none _ Hl0), (existsb_none _ Hr0). done.
Qed.
Lemma step_single (s s' : Server) : server_step one_at_a_time s s' -> single s -> single s'.
Proof using Hsingle.
  intros Hstep Hs. destruct Hstep as [uuid r s Hone|id s|l t r s t' s' Htasks Ht|addr lv k rq cmd q fuel k' rep s Hlv Hk Hq Hserve
    |addr lv s Hlv Hq _ Hfree|addr lv d s Hlv|addr lv e s Hlv].
  - by apply receive_single.
  - unfold notice. change (get id (say (Noticed id) s)) with (get id s). destruct (get id s); by apply (single_same s).
  - assert (Hsame : sv_sessions s' = sv_sessions s -> t' = None -> single (set_tasks (l ++ option_list t' ++ r) s')).
    { intros H ->. by eapply single_task. }
    destruct Ht as [rq id cwd agent overrides s ln Hc|rq id cwd agent overrides s e Hc|rq addr cmd s lv Hlv Hk Hlen
      |rq addr cmd s lv Hlv Hk|rq addr cmd rep s lv Hlv|rq s records|rq id replay s|rq id replay s|rq id replay s e Hr
      |rq id s ln bytes e Hr Hh|rq id replay s ln bytes us Hr Hh]; try (by apply Hsame).
    + apply (single_same (set_tasks (l ++ r) (adopt ln s))); [reflexivity..|]. by eapply (single_adopted l _ r s s).
    + eapply single_task; [done|done| |done]. by intros t1 [= <-].
    + eapply single_task; [done|done| |done]. by intros t1 [= <-].
    + destruct (get id s); eapply single_task; try done. by intros t1 [= <-].
    + rewrite Hsingle. destruct (0 <? count s)%nat eqn:Hc; cbn [andb]; eapply single_task; try done. intros t1 [= <-] _.
      split; [done|]. intros _. right. apply Nat.ltb_ge in Hc. lia.
    + destruct (trace_after id us s) as (_ & _ & H3).
      apply (single_same (set_tasks (l ++ r) (adopt ln (foldl (fun s u => say (Updated id u) s) s us)))); [reflexivity..|].
      by eapply (single_adopted l _ r s).
  - unfold driver_served. assert (Hw : forall rq r t, creating (wake rq r t) = creating t /\ launching (wake rq r t) = launching t).
    { intros rq0 r0 t. destruct t as [|? ? ? []| |]; try done. cbn. by case_decide. }
    assert (Hwa : forall rqs t, creating (wake_all rqs t) = creating t /\ launching (wake_all rqs t) = launching t).
    { intros rqs t. induction rqs as [|rq0 rqs IH]; [done|]. cbn. by rewrite !(proj1 (Hw _ _ _)), !(proj2 (Hw _ _ _)). }
    apply (single_same s); try done; destruct (is_end cmd); cbn; rewrite <- ?list_fmap_compose; try done;
      apply list_fmap_ext; intros i t _; cbn; by rewrite ?(proj1 (Hwa _ _)), ?(proj2 (Hwa _ _)), ?(proj1 (Hw _ _ _)), ?(proj2 (Hw _ _ _)).
  - by apply (single_same s).
  - unfold projected_delta. destruct (project_delta d (lv_projector lv)) as [p u]. destruct u; by apply (single_same s).
  - unfold projected_event. destruct (project_event (ev_body e) (lv_projector lv)) as [p us].
    assert (Hsay : forall l (s0 : Server), single s0 -> single (say_all l s0)).
    { unfold say_all. induction l as [|a l IH]; intros s0 H0; [done|]. cbn [foldl]. apply IH. by apply (single_same s0). }
    apply Hsay. by apply (single_same s).
Qed.
End one.

(** a process that is to serve one session never has two in its registry,
    provided the client waits for the answer to a request that creates or opens a session before
    it sends another of these; whatever else it sends meanwhile, and however the tasks interleave. *)
Theorem one_session_per_process (s : Server) :
  so_single_session opts = true -> server_reachable one_at_a_time s -> count s <= 1.
Proof.
  intros Ho H. assert (Hs : single s); [|apply Hs].
  assert (H' : forall s0, single s0 -> rtc (server_step one_at_a_time) s0 s -> single s).
  { intros s0 H0 Hr. induction Hr as [|s0 s1 s2 Hst _ IH]; [done|]. by apply IH, (step_single Ho s0). }
  apply (H' server_new); [|done]. split; unfold count; cbn; rewrite ?map_size_empty; [lia|lia|done].
Qed.
End requests.

(** * A server over scripted processes *)

#[local] Existing Instance toy_platform.
#[local] Existing Instance wit_clock.
#[local] Existing Instance toy_json.

Definition wit_opts : ServerOptions := {| so_single_session := true; so_default_agent := "default" |}.
Definition wit_inputs : KernelInputs := {|
  ki_model_id := "m"; ki_endpoint := "local"; ki_tool_format := "native"; ki_context_length := 8192;
  ki_quirks := {| pq_reasoning_field := "none"; pq_supports_structured_output := true; pq_supports_stream_usage := true;
                  pq_strict_tool_schema := false; pq_auth := "none" |};
  ki_model_params := wit_params; ki_system_prompt := []; ki_middleware := []; ki_grants := []; ki_tools := [];
  ki_tool_descriptions := []; ki_sandbox_backend := "bwrap"; ki_sandbox_limits := wit_limits; ki_spill := default_spill;
  ki_context_budget_tokens := 8192; ki_compaction := {| pco_trigger_at := f64_of_Z 1; pco_target := f64_of_Z 0 |};
  ki_notebook_path := None; ki_notebook := {| pn_path := EmptyString; pn_inject_on_resume := false; pn_max_tokens := 0 |}; ki_envelope_policy := wit_policy;
  ki_sandbox_policy_hash := ""; ki_agents_md_path := "AGENTS.md"; ki_skills_paths := []; ki_extension_paths := [];
  ki_mcp_servers := []; ki_subagents := []; ki_memory := {| pme_module := "none"; pme_config := JNull |}; ki_eval_set := None; ki_catalog_entry := "default" |}.
Definition wit_named (id : SessionId) : Shared script := {|
  sh_session_id := id; sh_memory_name := "noop"; sh_sandbox := wit_sandbox; sh_provider := sh_provider wit_served;
  sh_registry := wit_registry; sh_chain := sh_chain wit_served; sh_profiles := wit_profiles; sh_spill := default_spill;
  sh_retry := sh_retry wit_served; sh_limits := wit_limits; sh_model_id := "m"; sh_model_params := wit_params;
  sh_system_prompt := []; sh_grants := wit_grants; sh_delta_sink := false |}.
Definition wit_launched (id : SessionId) : Launched script MemoryEventLog := {|
  la_shared := wit_named id; la_kernel := wit_driven; la_inputs := wit_inputs; la_warnings := []; la_log_path := "/log" |}.
Definition wit_creates (id : SessionId) (cwd agent : string) (overrides : Table) (r : result LaunchError (Launched script MemoryEventLog)) : Prop :=
  r = Ok (wit_launched id).
Definition wit_reopens (id : SessionId) (r : result LaunchError (Launched script MemoryEventLog)) : Prop := r = Ok (wit_launched id).
Definition no_table (v : json) : result string Table := Err "unsupported".
Notation wit_step := (step wit_opts no_table (fun _ => "kernel error") (fun _ => "launch error") wit_creates wit_reopens).
Notation wit_reachable := (reachable wit_opts no_table (fun _ => "kernel error") (fun _ => "launch error") wit_creates wit_reopens).
Notation wit_receive := (receive wit_opts no_table).
Definition wit_prompt : Request := RqPrompt "s_1" [BText "go"].

(** A run as the list of what happens next, played on the machine. *)
Inductive Move : Type := MReceive (uuid : string) (r : Request) | MNotice (id : string) | MTask (i : nat) | MServe (addr : nat).
Definition play_task (t : Task) (s : Server) : option (option Task * Server (X := script) (L := MemoryEventLog)) :=
  match t with
  | TNew rq id _ _ _ => Some (None, reply rq (ANew id) (adopt (wit_launched id) s))
  | TCall rq addr cmd Sending =>
      lv ← sv_heap s !! addr;
      match lv_kernel lv with
      | Some _ => if (length (lv_queue lv) <? CHANNEL)%nat
                  then Some (Some (TCall rq addr cmd Waiting),
                             on_live addr (fun lv => with_kernel (lv_kernel lv) (lv_queue lv ++ [(rq, cmd)]) lv) s)
                  else None
      | None => Some (Some (TCall rq addr cmd (Answered None)), s)
      end
  | TCall rq addr cmd (Answered r) =>
      lv ← sv_heap s !! addr;
      Some (None, reply rq (call_answer (fun _ => "kernel error") cmd r (lv_cancel_requested lv)) s)
  | TReopen rq id false RsFind =>
      match get id s with
      | Some _ => Some (None, reply rq (AError already_open) s)
      | None => Some (Some (TReopen rq id false RsCount), s)
      end
  | TReopen rq id false RsCount =>
      if (0 <? count s)%nat then Some (None, reply rq (AError one_session_only) s)
      else Some (Some (TReopen rq id false RsLaunch), s)
  | TReopen rq id false RsLaunch => Some (None, reply rq AOpened (adopt (wit_launched id) s))
  | _ => None
  end.
Definition play (allowed : Server -> Request -> bool) (m : Move) (s : Server) : option Server :=
  match m with
  | MReceive uuid r => if allowed s r then Some (wit_receive uuid r s) else None
  | MNotice id => Some (notice id s)
  | MTask i =>
      t ← sv_tasks s !! i;
      '(t', s') ← play_task t s;
      Some (set_tasks (take i (sv_tasks s) ++ option_list t' ++ drop (S i) (sv_tasks s)) s')
  | MServe addr =>
      lv ← sv_heap s !! addr;
      match lv_kernel lv, lv_queue lv with
      | Some k, (rq, cmd) :: q =>
          let '(k', r) := serve (lv_sh lv) (lv_log_path lv) 6 cmd k in
          rep ← r; Some (driver_served addr lv rq q (is_end cmd) k' rep s)
      | _, _ => None
      end
  end.
Fixpoint plays (allowed : Server -> Request -> bool) (ms : list Move) (s : Server) : option Server :=
  match ms with [] => Some s | m :: ms => s' ← play allowed m s; plays allowed ms s' end.
Definition anything_b (s : Server (X := script) (L := MemoryEventLog)) (r : Request) : bool := true.
Definition one_at_a_time_b (s : Server (X := script) (L := MemoryEventLog)) (r : Request) : bool :=
  negb (creates_session r) || forallb (fun t => negb (creating t)) (sv_tasks s).

Lemma play_task_ok t s t' s' : play_task t s = Some (t', s') ->
  task_step wit_opts (fun _ => "kernel error") (fun _ => "launch error") wit_creates wit_reopens t s t' s'.
Proof.
  destruct t as [rq id cwd agent ov|rq addr cmd [| |r]|rq|rq id [] []]; cbn [play_task]; try done.
  - intros [= <- <-]. by apply (ts_created _ _ _ _ _ rq id cwd agent ov s (wit_launched id)).
  - destruct (sv_heap s !! addr) as [lv|] eqn:Hlv; [|done]. cbn [mbind option_bind].
    destruct (lv_kernel lv) as [k|] eqn:Hk; [|intros [= <- <-]; by eapply ts_gone].
    destruct (_ <? _)%nat eqn:Hl; [|done]. intros [= <- <-]. eapply ts_sent; [exact Hlv|by rewrite Hk|by apply Nat.ltb_lt].
  - destruct (sv_heap s !! addr) as [lv|] eqn:Hlv; [|done]. intros [= <- <-]. by eapply ts_answered.
  - pose proof (ts_found wit_opts (fun _ => "kernel error") (fun _ => "launch error") wit_creates wit_reopens rq id false s) as H.
    destruct (get id s); by intros [= <- <-].
  - pose proof (ts_counted wit_opts (fun _ => "kernel error") (fun _ => "launch error") wit_creates wit_reopens rq id false s) as H.
    cbn [wit_opts so_single_session andb] in H. destruct (_ <? _)%nat; by intros [= <- <-].
  - intros [= <- <-]. by apply (ts_reopened _ _ _ _ _ rq id false s (wit_launched id) (Ok "") []).
Qed.
Lemma plays_reachable (allowed : Server -> Request -> Prop) (b : Server -> Request -> bool) ms s :
  (forall s r, b s r = true -> allowed s r) -> plays b ms server_new = Some s -> wit_reachable allowed s.
Proof.
  intros Hb. unfold reachable. generalize (server_new (X := script) (L := MemoryEventLog)) as s0.
  induction ms as [|m ms IH]; intros s0; cbn [plays]; [by intros [= ->]|].
  destruct (play b m s0) as [s1|] eqn:Hm; [|done]. cbn [mbind option_bind]. intros H%IH. eapply rtc_l; [|exact H]. clear H IH.
  destruct m as [uuid r|id|i|addr]; cbn [play] in Hm.
  - destruct (b s0 r) eqn:Hr; [|done]. injection Hm as <-. by apply st_receive, Hb.
  - injection Hm as <-. apply st_notice.
  - destruct (sv_tasks s0 !! i) as [t|] eqn:Ht; [|done]. cbn [mbind option_bind] in Hm.
    destruct (play_task t s0) as [[t' s']|] eqn:Hp; [|done]. injection Hm as <-. eapply st_task; [|by apply play_task_ok].
    by rewrite take_drop_middle.
  - destruct (sv_heap s0 !! addr) as [lv|] eqn:Hlv; [|done]. cbn [mbind option_bind] in Hm.
    destruct (lv_kernel lv) as [k|] eqn:Hk; [|done]. destruct (lv_queue lv) as [|[rq cmd] q] eqn:Hq; [done|].
    destruct (serve _ _ _ _ _) as [k' [rep|]] eqn:Hs; [|done]. injection Hm as <-. by eapply st_serve.
Qed.
Lemma plays_anything ms s : plays anything_b ms server_new = Some s -> wit_reachable anything s.
Proof. by apply plays_reachable. Qed.
Lemma plays_one_at_a_time ms s : plays one_at_a_time_b ms server_new = Some s -> wit_reachable one_at_a_time s.
Proof.
  apply plays_reachable. intros s0 r H Hc. unfold one_at_a_time_b in H. rewrite Hc in H. cbn in H.
  apply Forall_forall. intros t Ht. rewrite forallb_forall in H. apply list_elem_of_In in Ht. by apply negb_true_iff, H.
Qed.
(** The state after a run, with what is read off it. *)
Lemma plays_to {A} b ms (g : Server (X := script) (L := MemoryEventLog) -> A) v :
  g <$> plays b ms server_new = Some v -> exists s, plays b ms server_new = Some s /\ g s = v.
Proof. intros (s & Hs & ->)%fmap_Some. by exists s. Qed.

Definition opened : list Move := [MReceive "1" (RqNew "/w" None); MTask 0].
Definition prompted : list Move := opened ++ [MReceive "2" wit_prompt; MTask 0].

(** ** Where the server falls short *)

(** Two requests for a session, neither of which waits for the other, open two. *)
Example two_sessions_despite_the_limit : exists s : Server (X := script) (L := MemoryEventLog),
  wit_reachable anything s /\ count s = 2.
Proof.
  destruct (plays_to anything_b [MReceive "1" (RqNew "/w" None); MReceive "2" (RqNew "/w" None); MTask 0; MTask 0] count 2)
    as (s & Hs & Hc); [vm_compute; reflexivity|]. exists s. split; [by eapply plays_anything|done].
Qed.
(** A second prompt arrives between the cancellation of the first and its end; the run that was
    cancelled is then answered as if it had ended by itself. *)
Example cancellation_forgotten : exists s : Server (X := script) (L := MemoryEventLog), wit_reachable anything s /\
  sv_trace s = [Received 0 (RqNew "/w" None); Replied 0 (ANew "s_1"); Received 1 wit_prompt; Noticed "s_1";
                Received 2 wit_prompt; Replied 1 (AStopped EndTurn)].
Proof.
  edestruct (plays_to anything_b (prompted ++ [MNotice "s_1"; MReceive "3" wit_prompt; MServe 0; MTask 0]) sv_trace)
    as (s & Hs & Ht); [vm_compute; reflexivity|]. exists s. split; [by eapply plays_anything|exact Ht].
Qed.
(** A session that was closed while it works can be opened again before its driver ends, although
    the process serves one session and the client waits: two kernels then write one log. *)
Definition works (rqs : list nat) (lv : Live (X := script) (L := MemoryEventLog)) : bool :=
  match lv_kernel lv with Some _ => bool_decide ((lv_queue lv).*1 = rqs) | None => false end.
Example two_kernels_on_one_log : exists s : Server (X := script) (L := MemoryEventLog), wit_reachable one_at_a_time s /\
  ((fun lv => (lv_id lv, lv_log_path lv)) <$> sv_heap s) = [("s_1", "/log"); ("s_1", "/log")] /\
  zip_with works [[1]; []] (sv_heap s) = [true; true].
Proof.
  destruct (plays_to one_at_a_time_b
      (prompted ++ [MReceive "3" (RqClose "s_1"); MReceive "4" (RqResume "s_1"); MTask 2; MTask 2; MTask 2])
      (fun s => ((fun lv => (lv_id lv, lv_log_path lv)) <$> sv_heap s, zip_with works [[1]; []] (sv_heap s)))
      ([("s_1", "/log"); ("s_1", "/log")], [true; true])) as (s & Hs & Ht); [vm_compute; reflexivity|].
  exists s. split; [by eapply plays_one_at_a_time|]. by injection Ht.
Qed.

(** ** Witnesses *)

(** A session with a prompt under way. *)
Lemma requests_answered_once_witness : exists s : Server (X := script) (L := MemoryEventLog), sv_received s = 2 /\
  length (sv_tasks s) = 1 /\ answered (sv_trace s) ++ held s ≡ₚ [0; 1].
Proof.
  destruct (plays_to anything_b prompted (fun s => (sv_received s, length (sv_tasks s))) (2, 1)) as (s & Hs & Hv);
    [vm_compute; reflexivity|]. injection Hv as Hr Ht. exists s. split; [exact Hr|]. split; [exact Ht|].
  destruct (requests_answered_once wit_opts no_table (fun _ => "kernel error") (fun _ => "launch error") wit_creates wit_reopens s
    (fun id _ _ _ => ex_intro _ (Ok (wit_launched id)) eq_refl) (fun id => ex_intro _ (Ok (wit_launched id)) eq_refl)
    (plays_anything _ _ Hs)) as [H _].
  rewrite Hr in H. exact H.
Defined.
(** The prompt is cancelled. *)
Lemma cancelled_answers_follow_cancellations_witness : exists session blocks before after a,
  [Received 0 (RqNew "/w" None); Replied 0 (ANew "s_1"); Received 1 wit_prompt; Noticed "s_1"] =
    before ++ Received 1 (RqPrompt session blocks) :: after /\ a ∈ after /\ cancels session a.
Proof.
  destruct (plays_to anything_b (prompted ++ [MNotice "s_1"; MServe 0; MTask 0]) sv_trace
    ([Received 0 (RqNew "/w" None); Replied 0 (ANew "s_1"); Received 1 wit_prompt; Noticed "s_1"] ++
     Replied 1 (AStopped StopCancelled) :: [])) as (s & Hs & Ht); [vm_compute; reflexivity|].
  exact (cancelled_answers_follow_cancellations _ _ _ _ _ _ _ s _ 1 [] (plays_anything _ _ Hs) Ht).
Defined.
(** The second request for a session is refused. *)
Lemma one_session_per_process_witness : exists s : Server (X := script) (L := MemoryEventLog),
  sv_trace s = [Received 0 (RqNew "/w" None); Replied 0 (ANew "s_1"); Received 1 (RqNew "/w" None);
                Replied 1 (AError one_session_only)] /\ count s <= 1.
Proof.
  edestruct (plays_to one_at_a_time_b (opened ++ [MReceive "2" (RqNew "/w" None)]) sv_trace) as (s & Hs & Ht);
    [vm_compute; reflexivity|]. exists s. split; [exact Ht|].
  exact (one_session_per_process wit_opts no_table _ _ _ _ s eq_refl (plays_one_at_a_time _ _ Hs)).
Defined.
