(* ===== verification/Daemon.v ===== *)
(** The supervisor daemon ([crates/orchestrator/src/acp/daemon.rs]): its socket, the environment of
    the kernel processes it starts, and one client connection as a machine whose handlers, spawned
    tasks and kernel processes interleave freely.  What a kernel process answers or sends is
    up to the process; a message that is sent arrives. *)

From Stdlib Require Import Floats.SpecFloat.
From stdpp Require Import gmap.
From S2P Require Import Prelude Ord Str Utf8 Capability Paths Json Data Event Toml Catalog Host NativeFs Launcher AcpProject AcpServer.

Open Scope string_scope.
Open Scope list_scope.

(** [DaemonOptions]. *)
Record DaemonOptions : Type := {
  do_kernel_bin : string;
  do_launch : LaunchOptions;
  do_env : list (string * string)
}.

(** * The socket *)

Section socket.
Context {X : Type} {HO : OsFs X}.
(** What the socket's directory and the socket itself need beyond [OsFs]. *)
Record SocketOs : Type := {
  so_create_dir_all : string -> X -> X * result IoError unit;
  so_set_mode : string -> N -> X -> X * result IoError unit;
  so_listen : string -> X -> X * result IoError unit
}.
Context (os : SocketOs).
Definition socket_dir (socket : string) : option string :=
  match path_parent socket with
  | Some EmptyString | None => None
  | Some dir => Some dir
  end.
Definition make_socket_dir (socket : string) : M X IoError unit :=
  match socket_dir socket with
  | None => mret tt
  | Some dir => fun x =>
      match os_metadata dir x with
      | Ok _ => (x, Ok tt)
      | Err _ => (so_create_dir_all os dir ;; so_set_mode os dir 448 : M X IoError unit) x
      end
  end.
Definition remove_stale_socket (socket : string) : M X IoError unit := fun x =>
  match os_remove_file socket x with
  | (x, Err (IoNotFound _)) | (x, Ok _) => (x, Ok tt)
  | (x, Err e) => (x, Err e)
  end.
(** [bind]; 0700 and 0600 in decimal. *)
Definition bind (socket : string) : M X IoError unit :=
  make_socket_dir socket ;; remove_stale_socket socket ;; so_listen os socket ;; so_set_mode os socket 384.
End socket.
Arguments SocketOs X : clear implicits.

(** [peer_is_us] and the accept loop of [serve]: each accepted stream comes with what the system
    says of its peer; a failure to accept ends the loop. *)
Definition peer_is_us (uid : N) (cred : result IoError N) : result IoError bool := (fun peer => (peer =? uid)%N) <$> cred.
Fixpoint serve {S} (uid : N) (accepted : list (result IoError (S * result IoError N))) : list S * option IoError :=
  match accepted with
  | [] => ([], None)
  | Err e :: _ => ([], Some e)
  | Ok (stream, cred) :: accepted =>
      let '(connections, e) := serve uid accepted in
      match peer_is_us uid cred with
      | Ok true => (stream :: connections, e)
      | Ok false | Err _ => (connections, e)
      end
  end.

(** * The environment of a kernel process ([spawn_kernel]) *)

Definition set_vars (vars : list (string * string)) (env : list (string * string)) : list (string * string) :=
  foldl (fun env kv => omap_insert kv.1 kv.2 env) env vars.
Definition launch_vars (o : LaunchOptions) : list (string * string) :=
  [("GRIST_STATE_DIR", lo_state_dir o); ("GRIST_PROFILES_DIR", lo_profiles_dir o)] ++
  match lo_sandbox_override o with Some b => [("GRIST_SANDBOX_BACKEND", b)] | None => [] end.
Definition kernel_env (opts : DaemonOptions) (inherited : list (string * string)) : list (string * string) :=
  set_vars (do_env opts) (set_vars (launch_vars (do_launch opts)) inherited).

(** * One connection *)

(** What the daemon sends to a kernel process, and what that one sends by itself. *)
Inductive ToKernel : Type :=
  | KInitialize
  | KRequest (rq : nat) (r : Request)
  | KCancel (session : string)
  | KElicited (q : nat) (o : ElicitationOutcome).
Inductive KernelNote : Type :=
  | NoteUpdate (session : SessionId) (u : SessionUpdate)
  | NoteEvent (session : SessionId) (e : Event).

(** A spawned task, or a response to be forwarded; the ones that hold an [Arc] of a process name it
    by its address. *)
Inductive DaemonTask : Type :=
  | DOpening (rq : nat) (r : Request)
  | DInitializing (rq : nat) (r : Request) (addr : nat)
  | DOpened (rq : nat) (r : Request) (addr : nat)
  | DForwarding (rq : nat) (r : Request) (addr : nat)
  | DClosing (rq : nat) (r : Request) (addr : nat)
  | DListing (rq : nat).
Definition dtask_rq (t : DaemonTask) : nat :=
  match t with
  | DOpening rq _ | DInitializing rq _ _ | DOpened rq _ _ | DForwarding rq _ _ | DClosing rq _ _ | DListing rq => rq
  end.
Definition dtask_holds (t : DaemonTask) : option nat :=
  match t with DInitializing _ _ addr | DOpened _ _ addr | DClosing _ _ addr => Some addr | _ => None end.
Definition holds_conn (t : DaemonTask) : bool :=
  match t with DOpening _ _ | DInitializing _ _ _ | DOpened _ _ _ | DListing _ => true | _ => false end.

(** What the connection receives and sends, on the side of the client and of the kernels. *)
Inductive DaemonAct : Type :=
  | DReceived (rq : nat) (r : Request)
  | DNoticed (session : string)
  | DReplied (rq : nat) (a : Answer)
  | DNote (n : KernelNote)
  | DAsked (q : nat) (question : string * ElicitationSchema)
  | DSent (addr : nat) (m : ToKernel)
  | DCame (addr : nat) (rq : nat) (a : Answer).

(** [KernelProc]: its child until it is killed, and the environment it was started with. *)
Record KernelProc : Type := { kp_child : bool; kp_env : list (string * string) }.
Definition kill (p : KernelProc) : KernelProc := {| kp_child := false; kp_env := kp_env p |}.

(** [Conn], the processes it ever started, the tasks under way, the questions the client has not
    answered with the process that asked. *)
Record Conn : Type := {
  cn_sessions : gmap string nat;
  cn_procs : list KernelProc;
  cn_tasks : list DaemonTask;
  cn_questions : list (nat * nat);
  cn_received : nat;
  cn_asked : nat;
  cn_open : bool;
  cn_trace : list DaemonAct
}.
Definition conn_new : Conn := {|
  cn_sessions := ∅; cn_procs := []; cn_tasks := []; cn_questions := []; cn_received := 0; cn_asked := 0; cn_open := true;
  cn_trace := [] |}.
Definition set_map (m : gmap string nat) (c : Conn) : Conn := {|
  cn_sessions := m; cn_procs := cn_procs c; cn_tasks := cn_tasks c; cn_questions := cn_questions c;
  cn_received := cn_received c; cn_asked := cn_asked c; cn_open := cn_open c; cn_trace := cn_trace c |}.
Definition set_procs (ps : list KernelProc) (c : Conn) : Conn := {|
  cn_sessions := cn_sessions c; cn_procs := ps; cn_tasks := cn_tasks c; cn_questions := cn_questions c;
  cn_received := cn_received c; cn_asked := cn_asked c; cn_open := cn_open c; cn_trace := cn_trace c |}.
Definition set_dtasks (ts : list DaemonTask) (c : Conn) : Conn := {|
  cn_sessions := cn_sessions c; cn_procs := cn_procs c; cn_tasks := ts; cn_questions := cn_questions c;
  cn_received := cn_received c; cn_asked := cn_asked c; cn_open := cn_open c; cn_trace := cn_trace c |}.
Definition act (a : DaemonAct) (c : Conn) : Conn := {|
  cn_sessions := cn_sessions c; cn_procs := cn_procs c; cn_tasks := cn_tasks c; cn_questions := cn_questions c;
  cn_received := cn_received c; cn_asked := cn_asked c; cn_open := cn_open c; cn_trace := cn_trace c ++ [a] |}.
Definition respond (rq : nat) (a : Answer) : Conn -> Conn := act (DReplied rq a).
Definition start (t : DaemonTask) (c : Conn) : Conn := set_dtasks (cn_tasks c ++ [t]) c.
(** [Conn::get], [Conn::insert], [Conn::kill_all]; dropping the last [Arc] of a process kills it,
    and [reap] does so for every process that nobody holds.  The map goes with the connection's
    handlers and the last task that holds it. *)
Definition lookup_session (id : string) (c : Conn) : option nat := cn_sessions c !! id.
Definition insert_session (id : string) (addr : nat) (c : Conn) : Conn := set_map (<[id := addr]> (cn_sessions c)) c.
Definition registered (c : Conn) : list nat := (map_to_list (cn_sessions c)).*2.
Definition kill_all (c : Conn) : Conn :=
  set_map ∅ (set_procs (foldl (fun ps addr => alter kill addr ps) (cn_procs c) (registered c)) c).
Definition map_held (c : Conn) : bool := cn_open c || existsb holds_conn (cn_tasks c).
Definition owners (c : Conn) : list nat := (if map_held c then registered c else []) ++ omap dtask_holds (cn_tasks c).
Definition reap (c : Conn) : Conn :=
  set_procs (imap (fun addr p => if decide (addr ∈ owners c) then p else kill p) (cn_procs c)) c.

Definition already_here : AcpError :=
  {| ae_code := InvalidRequest; ae_data := grist_data (JStr "session is already open on this connection") |}.

(** ** The handlers *)

(** A request for an open session goes to its process as it is. *)
Definition forward (rq : nat) (id : string) (r : Request) (c : Conn) : Conn :=
  match lookup_session id c with
  | None => respond rq (AError (not_found id)) c
  | Some addr => start (DForwarding rq r addr) (act (DSent addr (KRequest rq r)) c)
  end.
Definition close_session (rq : nat) (id : string) (c : Conn) : Conn :=
  match lookup_session id c with
  | None => respond rq (AError (not_found id)) c
  | Some addr =>
      start (DClosing rq (RqClose id) addr)
        (act (DSent addr (KRequest rq (RqClose id))) (set_map (delete id (cn_sessions c)) c))
  end.
Definition receive_request (rq : nat) (r : Request) (c : Conn) : Conn :=
  match r with
  | RqInitialize => respond rq AInitialized c
  | RqNew _ _ | RqLoad _ | RqResume _ => start (DOpening rq r) c
  | RqClose id => close_session rq id c
  | RqList => start (DListing rq) c
  | RqPrompt id _ | RqSubscribe id _ | RqUnsubscribe id | RqCancel id _ | RqStatus id => forward rq id r c
  end.
Definition client_sends (r : Request) (c : Conn) : Conn :=
  let rq := cn_received c in
  receive_request rq r {|
    cn_sessions := cn_sessions c; cn_procs := cn_procs c; cn_tasks := cn_tasks c; cn_questions := cn_questions c;
    cn_received := S rq; cn_asked := cn_asked c; cn_open := cn_open c; cn_trace := cn_trace c ++ [DReceived rq r] |}.
(** [session/cancel]. *)
Definition client_cancels (id : string) (c : Conn) : Conn :=
  let c := act (DNoticed id) c in
  match lookup_session id c with None => c | Some addr => act (DSent addr (KCancel id)) c end.
(** A kernel's elicitation request and the client's answer to it. *)
Definition kernel_asks (addr : nat) (question : string * ElicitationSchema) (c : Conn) : Conn :=
  let q := cn_asked c in
  act (DAsked q question) {|
    cn_sessions := cn_sessions c; cn_procs := cn_procs c; cn_tasks := cn_tasks c;
    cn_questions := cn_questions c ++ [(q, addr)]; cn_received := cn_received c; cn_asked := S q; cn_open := cn_open c;
    cn_trace := cn_trace c |}.
Definition client_answers (q addr : nat) (rest : list (nat * nat)) (o : ElicitationOutcome) (c : Conn) : Conn :=
  act (DSent addr (KElicited q o)) {|
    cn_sessions := cn_sessions c; cn_procs := cn_procs c; cn_tasks := cn_tasks c; cn_questions := rest;
    cn_received := cn_received c; cn_asked := cn_asked c; cn_open := cn_open c; cn_trace := cn_trace c |}.
(** [on_close]: the handlers go, and with them the questions. *)
Definition client_closes (c : Conn) : Conn :=
  let c := kill_all c in {|
    cn_sessions := cn_sessions c; cn_procs := cn_procs c; cn_tasks := cn_tasks c; cn_questions := [];
    cn_received := cn_received c; cn_asked := cn_asked c; cn_open := false; cn_trace := cn_trace c |}.

(** ** The tasks *)

(** The answers of a kernel are typed. *)
Definition answers_request (r : Request) (a : Answer) : bool :=
  match r, a with
  | _, AError _ | RqInitialize, AInitialized | RqNew _ _, ANew _ | RqPrompt _ _, AStopped _ | RqClose _, AClosed
  | RqList, AListed _ | RqLoad _, AOpened | RqResume _, AOpened | RqSubscribe _ _, ADone | RqUnsubscribe _, ADone
  | RqCancel _ _, ADone | RqStatus _, AStatus _ => true
  | _, _ => false
  end.
(** The session an opening request named, or the answer to it names. *)
Definition named (r : Request) : option string := match r with RqLoad id | RqResume id => Some id | _ => None end.
Definition opened_session (r : Request) (a : Answer) : option string :=
  match r, a with
  | RqNew _ _, ANew id => Some id
  | RqLoad id, AOpened | RqResume id, AOpened => Some id
  | _, _ => None
  end.
(** [kernel_ready] up to its first [await]: the process is started and sent [initialize]. *)
Definition kernel_started (opts : DaemonOptions) (inherited : list (string * string)) (c : Conn) : Conn :=
  act (DSent (length (cn_procs c)) KInitialize)
    (set_procs (cn_procs c ++ [{| kp_child := true; kp_env := kernel_env opts inherited |}]) c).
Definition opening_refused (r : Request) (c : Conn) : bool :=
  match named r with Some id => bool_decide (is_Some (lookup_session id c)) | None => false end.

Section machine.
Context (opts : DaemonOptions) (inherited : list (string * string)).

(** A step of a task: what it becomes, if it goes on, and the connection after it, before what it
    dropped is reaped. *)
Inductive dtask_step : DaemonTask -> Conn -> option DaemonTask -> Conn -> Prop :=
  | ds_refused rq r c :
      opening_refused r c = true -> dtask_step (DOpening rq r) c None (respond rq (AError already_here) c)
  | ds_not_spawned rq r c e :
      opening_refused r c = false ->
      dtask_step (DOpening rq r) c None
        (respond rq (AError (internal ("spawn " +:+ Utf8.from_utf8_lossy (do_kernel_bin opts) +:+ ": " +:+ e))) c)
  | ds_not_connected rq r c e :
      opening_refused r c = false -> dtask_step (DOpening rq r) c None (respond rq (AError e) c)
  | ds_spawned rq r c :
      opening_refused r c = false ->
      dtask_step (DOpening rq r) c (Some (DInitializing rq r (length (cn_procs c)))) (kernel_started opts inherited c)
  | ds_initialized rq r addr c :
      dtask_step (DInitializing rq r addr) c (Some (DOpened rq r addr)) (act (DSent addr (KRequest rq r)) c)
  | ds_not_initialized rq r addr c e : dtask_step (DInitializing rq r addr) c None (respond rq (AError e) c)
  | ds_opened rq r addr c a id :
      answers_request r a = true -> opened_session r a = Some id ->
      dtask_step (DOpened rq r addr) c None (respond rq a (insert_session id addr (act (DCame addr rq a) c)))
  | ds_not_opened rq r addr c e :
      dtask_step (DOpened rq r addr) c None (respond rq (AError e) (act (DCame addr rq (AError e)) c))
  | ds_forwarded rq r addr c a :
      answers_request r a = true ->
      dtask_step (DForwarding rq r addr) c None (respond rq a (act (DCame addr rq a) c))
  | ds_closed rq r addr c a :
      answers_request r a = true ->
      dtask_step (DClosing rq r addr) c None
        (set_procs (alter kill addr (cn_procs c)) (respond rq a (act (DCame addr rq a) c)))
  | ds_listed rq c (records : result string (list SessionRecord)) :
      dtask_step (DListing rq) c None
        (respond rq (match records with Ok l => AListed (session_info <$> l) | Err e => AError (internal e) end) c).

(** The steps of a connection; once it is closed only its tasks go on, and those that wait for a
    kernel's answer on its behalf may go with it. *)
Inductive dstep : Conn -> Conn -> Prop :=
  | dt_receive r c : cn_open c = true -> dstep c (client_sends r c)
  | dt_notice id c : cn_open c = true -> dstep c (client_cancels id c)
  | dt_task l t r c t' c' :
      cn_tasks c = l ++ t :: r -> dtask_step t c t' c' -> dstep c (reap (set_dtasks (l ++ option_list t' ++ r) c'))
  | dt_note addr n c :
      cn_open c = true -> is_Some (cn_procs c !! addr) -> dstep c (act (DNote n) c)
  | dt_asks addr question c :
      cn_open c = true -> is_Some (cn_procs c !! addr) -> dstep c (kernel_asks addr question c)
  | dt_answered l q addr r o c :
      cn_questions c = l ++ (q, addr) :: r -> dstep c (client_answers q addr (l ++ r) o c)
  | dt_close c : cn_open c = true -> dstep c (reap (client_closes c))
  | dt_abandoned l t r c :
      cn_open c = false -> cn_tasks c = l ++ t :: r -> holds_conn t = false -> dstep c (reap (set_dtasks (l ++ r) c)).
Definition dreachable : Conn -> Prop := rtc dstep conn_new.
End machine.
