(* ===== verification/DaemonProofs.v ===== *)
(** What a connection of the supervisor daemon guarantees, whatever its client and its kernel
    processes do: who owns each process, that requests are answered once, that they reach
    the process of their session, and that a process is asked for one session only, which is what
    [AcpServer]'s guarantee for single-session processes asks of its client. *)

From stdpp Require Import gmap.
From S2P Require Import Prelude Ord Str Utf8 Capability Paths Json Strict Codec Data Event State Spill Log FileLog Outside Registry Kernel Turn Scenario.
From S2P Require Import Toml Catalog Host NativeFs Launcher AcpProject Driver AcpServer AcpRequests Daemon.

Open Scope string_scope.
Open Scope list_scope.

(** * Maps and lists *)

Lemma NoDup_part {A} (l l' : list A) : l ⊆+ l' -> NoDup l' -> NoDup l.
Proof. intros (k & Hk)%submseteq_Permutation. rewrite Hk. by intros [H _]%NoDup_app. Qed.

Lemma registered_insert (m : gmap string nat) id a :
  exists old, (map_to_list (<[id := a]> m)).*2 ++ old ≡ₚ a :: (map_to_list m).*2.
Proof.
  destruct (m !! id) as [b|] eqn:Hb.
  - exists [b]. assert (H : (map_to_list (<[id := a]> m)).*2 ≡ₚ a :: (map_to_list (delete id m)).*2).
    { rewrite <- insert_delete_eq, map_to_list_insert by apply lookup_delete_eq. done. }
    rewrite H. assert (H2 : (map_to_list m).*2 ≡ₚ b :: (map_to_list (delete id m)).*2) by (by rewrite <- (map_to_list_delete m id b Hb)).
    rewrite H2. cbn. f_equiv. by rewrite Permutation_app_comm.
  - exists []. rewrite app_nil_r. by rewrite map_to_list_insert.
Qed.
Lemma registered_delete (m : gmap string nat) id a : m !! id = Some a -> (map_to_list m).*2 ≡ₚ a :: (map_to_list (delete id m)).*2.
Proof. intros H. by rewrite <- (map_to_list_delete m id a H). Qed.
Lemma registered_elem (c : Conn) addr : addr ∈ registered c <-> exists id, lookup_session id c = Some addr.
Proof.
  unfold registered. rewrite list_elem_of_fmap. split.
  - intros ([id a] & -> & H%elem_of_map_to_list). by exists id.
  - intros (id & H). exists (id, addr). split; [done|]. by apply elem_of_map_to_list.
Qed.

(** * Who owns a process *)

Definition alive (c : Conn) (addr : nat) : Prop := exists p, cn_procs c !! addr = Some p /\ kp_child p = true.
(** Everyone who names a process, though the map itself may be gone. *)
Definition all_owners (c : Conn) : list nat := registered c ++ omap dtask_holds (cn_tasks c).
Record owned (c : Conn) : Prop := {
  ow_once : NoDup (all_owners c);
  ow_known : forall addr, addr ∈ all_owners c -> addr < length (cn_procs c);
  ow_alive : forall addr, addr ∈ owners c -> alive c addr;
  ow_owned : forall addr, alive c addr -> addr ∈ owners c
}.
Lemma owners_all c : owners c ⊆+ all_owners c.
Proof. unfold owners, all_owners. destruct (map_held c); [done|]. cbn. apply submseteq_inserts_l. done. Qed.

Lemma reap_alive c addr : alive (reap c) addr <-> alive c addr /\ addr ∈ owners c.
Proof.
  unfold alive, reap. cbn. rewrite list_lookup_imap. destruct (cn_procs c !! addr) as [p|]; cbn; [|naive_solver].
  split.
  - intros (p' & [= <-] & Hp). case_decide as Hin; [|done]. split; [by exists p|done].
  - intros [(p' & [= <-] & Hp) Hin]. exists p. rewrite decide_True by done. done.
Qed.
Lemma reap_length c : length (cn_procs (reap c)) = length (cn_procs c).
Proof. unfold reap. cbn. by rewrite length_imap. Qed.
(** [reap] restores that only owned processes live. *)
Lemma reaped_owned c :
  NoDup (all_owners c) -> (forall addr, addr ∈ all_owners c -> addr < length (cn_procs c)) ->
  (forall addr, addr ∈ owners c -> alive c addr) -> owned (reap c).
Proof.
  intros H1 H2 H3. split.
  - exact H1.
  - intros addr H. rewrite reap_length. by apply H2.
  - intros addr H. apply reap_alive. split; [|exact H]. by apply H3.
  - intros addr [_ H]%reap_alive. exact H.
Qed.
(** Names go away, processes stay as they are for those that are left. *)
Lemma dropped_owned c c' :
  owned c -> all_owners c' ⊆+ all_owners c -> (forall addr, addr ∈ owners c' -> addr ∈ owners c) ->
  length (cn_procs c') = length (cn_procs c) ->
  (forall addr, addr ∈ owners c' -> alive c addr -> alive c' addr) -> owned (reap c').
Proof.
  intros [H1 H2 H3 H4] Hall Hown Hl Ha. apply reaped_owned.
  - by eapply NoDup_part.
  - intros addr H. rewrite Hl. apply H2. by apply (elem_of_submseteq _ _ _ H).
  - intros addr H. apply Ha; [done|]. by apply H3, Hown.
Qed.
(** Handlers, which drop nothing. *)
Lemma moved_owned c c' :
  owned c -> all_owners c' ≡ₚ all_owners c -> cn_open c = true -> cn_open c' = true -> cn_procs c' = cn_procs c -> owned c'.
Proof.
  intros [H1 H2 H3 H4] Hall Ho Ho' Hp.
  assert (Hown : forall c, cn_open c = true -> owners c = all_owners c) by (intros c0 H; unfold owners, map_held; by rewrite H).
  assert (Hal : forall addr, alive c' addr <-> alive c addr) by (intros; unfold alive; by rewrite Hp).
  rewrite Hown in H3, H4 by done. split; rewrite ?Hown by done; rewrite ?Hall, ?Hp; try done.
  - intros addr. rewrite Hall. apply H2.
  - intros addr. rewrite Hall, Hal. apply H3.
  - intros addr. rewrite Hall, Hal. apply H4.
Qed.

Lemma omap_holds_replace l (t' : option DaemonTask) r :
  omap dtask_holds (l ++ option_list t' ++ r) ≡ₚ option_list (t' ≫= dtask_holds) ++ omap dtask_holds (l ++ r).
Proof. rewrite !omap_app. destruct t' as [t'|]; cbn; [|done]. destruct (dtask_holds t'); cbn; [|done]. by rewrite Permutation_middle. Qed.
Lemma holds_middle l t r : omap dtask_holds (l ++ t :: r) ≡ₚ option_list (dtask_holds t) ++ omap dtask_holds (l ++ r).
Proof. exact (omap_holds_replace l (Some t) r). Qed.
Lemma held_replace l t (t' : option DaemonTask) r :
  (forall t1, t' = Some t1 -> holds_conn t1 = true -> holds_conn t = true) ->
  existsb holds_conn (l ++ option_list t' ++ r) = true -> existsb holds_conn (l ++ t :: r) = true.
Proof.
  intros H. rewrite !existsb_app. cbn. destruct (existsb holds_conn l); [done|]. cbn.
  destruct (existsb holds_conn r); [by rewrite !orb_true_r|]. rewrite !orb_false_r. destruct t' as [t1|]; [|done]. cbn.
  rewrite orb_false_r. by apply H.
Qed.

Lemma foldl_kill_length (l : list nat) (ps : list KernelProc) : length (foldl (fun ps addr => alter kill addr ps) ps l) = length ps.
Proof. revert ps. induction l as [|a l IH]; intros ps; [done|]. cbn. by rewrite IH, length_alter. Qed.
Lemma foldl_kill_other (l : list nat) (ps : list KernelProc) addr : addr ∉ l -> foldl (fun ps addr => alter kill addr ps) ps l !! addr = ps !! addr.
Proof.
  revert ps. induction l as [|a l IH]; intros ps H; [done|]. apply not_elem_of_cons in H as [H1 H2]. cbn.
  by rewrite IH, list_lookup_alter_ne.
Qed.

Section machine.
Context (opts : DaemonOptions) (inherited : list (string * string)).
Notation dsteps := (dstep opts inherited).
Notation dtask_steps := (dtask_step opts inherited).

Lemma client_sends_owned r c : cn_open c = true -> owned c -> owned (client_sends r c).
Proof.
  intros Ho Hc. assert (Hfw : forall rq id, let c' := forward rq id r
      {| cn_sessions := cn_sessions c; cn_procs := cn_procs c; cn_tasks := cn_tasks c; cn_questions := cn_questions c;
         cn_received := S rq; cn_asked := cn_asked c; cn_open := cn_open c; cn_trace := cn_trace c ++ [DReceived rq r] |} in owned c').
  { intros rq id. unfold forward. destruct (lookup_session id _); apply (moved_owned c); try done.
    unfold all_owners. cbn. by rewrite omap_app, app_nil_r. }
  unfold client_sends. destruct r as [|cwd meta|id bl|session| |id|id|id ks|id|id sc|id]; cbn [receive_request]; try apply Hfw;
    try (apply (moved_owned c); try done; unfold all_owners; cbn; by rewrite omap_app, app_nil_r).
  unfold close_session, lookup_session. cbn. destruct (cn_sessions c !! session) as [addr|] eqn:Hg; [|by apply (moved_owned c)].
  apply (moved_owned c); try done. unfold all_owners, registered. cbn. rewrite (registered_delete _ _ _ Hg), omap_app. cbn.
  by rewrite app_assoc, (Permutation_app_comm _ [addr]).
Qed.

(** A task is replaced by what it becomes. *)
Lemma replaced_owners l t r c t1 c1 :
  cn_tasks c = l ++ t :: r -> cn_open c1 = cn_open c ->
  registered c1 ++ option_list (t1 ≫= dtask_holds) ⊆+ registered c ++ option_list (dtask_holds t) ->
  option_list (t1 ≫= dtask_holds) ⊆+ option_list (dtask_holds t) ->
  (forall t2, t1 = Some t2 -> holds_conn t2 = true -> holds_conn t = true) ->
  let c2 := set_dtasks (l ++ option_list t1 ++ r) c1 in
  all_owners c2 ⊆+ all_owners c /\ forall addr, addr ∈ owners c2 -> addr ∈ owners c.
Proof.
  intros Ht Ho Hreg Hh Hconn c2.
  assert (Hall : all_owners c2 ⊆+ all_owners c).
  { unfold all_owners. cbn. change (registered c2) with (registered c1). rewrite Ht, holds_middle, omap_holds_replace, !app_assoc.
    by apply submseteq_app. }
  split; [exact Hall|]. intros addr. unfold owners. destruct (map_held c2) eqn:Hm.
  - assert (Hm' : map_held c = true).
    { unfold map_held in *. cbn in Hm. rewrite Ho in Hm. destruct (cn_open c); [done|]. cbn in *. rewrite Ht.
      by apply (held_replace l t t1 r). }
    rewrite Hm'. intros H. exact (elem_of_submseteq _ _ _ H Hall).
  - cbn. rewrite omap_holds_replace, Ht. intros Hin. apply elem_of_app. right. rewrite holds_middle.
    eapply elem_of_submseteq; [exact Hin|]. by apply submseteq_app.
Qed.
Lemma task_owned l t r c t' c' : owned c -> cn_tasks c = l ++ t :: r -> dtask_steps t c t' c' ->
  owned (reap (set_dtasks (l ++ option_list t' ++ r) c')).
Proof.
  intros Hc Ht Hs.
  assert (Hend : forall c1 t1, cn_procs c1 = cn_procs c -> cn_open c1 = cn_open c ->
    registered c1 ++ option_list (t1 ≫= dtask_holds) ⊆+ registered c ++ option_list (dtask_holds t) ->
    option_list (t1 ≫= dtask_holds) ⊆+ option_list (dtask_holds t) ->
    (forall t2, t1 = Some t2 -> holds_conn t2 = true -> holds_conn t = true) ->
    owned (reap (set_dtasks (l ++ option_list t1 ++ r) c1))).
  { intros c1 t1 Hp Ho H1 H2 H3. destruct (replaced_owners l t r c t1 c1 Ht Ho H1 H2 H3) as [H4 H5].
    apply (dropped_owned c); try done; unfold alive; cbn; by rewrite Hp. }
  destruct Hs as [| | |rq r0 c Hr| | |rq r0 addr c a id Ha Hid| | |rq r0 addr c a Ha|];
    try (apply Hend; cbn; rewrite ?app_nil_r;
         first [done|by intros t2 [= <-]|apply submseteq_nil_l|by apply submseteq_inserts_r]).
  - set (c2 := set_dtasks _ _). assert (Hall : all_owners c2 ≡ₚ length (cn_procs c) :: all_owners c).
    { unfold all_owners. change (registered c2) with (registered c). unfold c2. cbn [set_dtasks cn_tasks option_list app].
      rewrite Ht, (holds_middle l (DOpening rq r0) r), (holds_middle l (DInitializing rq r0 (length (cn_procs c))) r). cbn. by rewrite Permutation_middle. }
    destruct Hc as [H1 H2 H3 H4].
    assert (Hh : map_held c2 = true) by (unfold map_held; cbn; rewrite existsb_app; cbn; by rewrite !orb_true_r).
    assert (Hh' : map_held c = true) by (unfold map_held; rewrite Ht, existsb_app; cbn; by rewrite !orb_true_r).
    unfold owners in H3. rewrite Hh' in H3. fold (all_owners c) in H3. apply reaped_owned.
    + rewrite Hall. constructor; [|done]. intros Hin%H2. lia.
    + intros addr. cbn. rewrite Hall, length_app, elem_of_cons. intros [->|Hin%H2]; cbn; lia.
    + unfold owners. rewrite Hh. fold (all_owners c2). intros addr. rewrite Hall, elem_of_cons. unfold alive. cbn. intros [->|Hin].
      * eexists. split; [apply list_lookup_middle|]; done.
      * destruct (H3 _ Hin) as (p & Hp & Hk). exists p. split; [by apply lookup_app_l_Some|done].
  - apply Hend; try done; [|by apply submseteq_nil_l]. cbn. rewrite app_nil_r.
    destruct (registered_insert (cn_sessions c) id addr) as (old & H1). unfold registered at 1. cbn.
    rewrite (Permutation_app_comm (registered c)). unfold registered. cbn. rewrite <- H1. by apply submseteq_inserts_r.
  - destruct (replaced_owners l (DClosing rq r0 addr) r c None (set_procs (alter kill addr (cn_procs c)) (respond rq a (act (DCame addr rq a) c))))
      as [H4 H5]; cbn; try done; [apply submseteq_app; [done|apply submseteq_nil_l]|by apply submseteq_nil_l|].
    apply (dropped_owned c); try done; [cbn; apply length_alter|]. intros a' Hin (p & Hp & Hk). exists p. split; [|done]. cbn.
    rewrite list_lookup_alter_ne; [done|]. intros ->. destruct Hc as [Hn _ _ _]. unfold all_owners in Hn.
    rewrite Ht, holds_middle in Hn. cbn in Hn. rewrite <- Permutation_middle in Hn.
    apply NoDup_cons in Hn as [Hn _]. apply Hn.
    pose proof (elem_of_submseteq _ _ _ Hin (owners_all _)) as H. exact H.
Qed.

Lemma kill_all_registered c : registered (kill_all c) = [].
Proof. unfold registered, kill_all. cbn. by rewrite map_to_list_empty. Qed.
Lemma closes_owned c : owned c -> owned (reap (client_closes c)).
Proof.
  intros Hc. assert (Ha : all_owners (client_closes c) = omap dtask_holds (cn_tasks c)).
  { unfold all_owners. change (registered (client_closes c)) with (registered (kill_all c)). by rewrite kill_all_registered. }
  assert (Hown : owners (client_closes c) = omap dtask_holds (cn_tasks c)).
  { unfold owners. change (registered (client_closes c)) with (registered (kill_all c)). rewrite kill_all_registered. by destruct (map_held _). }
  apply (dropped_owned c); try done.
  - rewrite Ha. by apply submseteq_inserts_l.
  - intros addr. rewrite Hown. unfold owners. rewrite elem_of_app. by right.
  - cbn. apply foldl_kill_length.
  - intros addr. rewrite Hown. intros Hin (p & Hp & Hk). exists p. split; [|done]. cbn. rewrite foldl_kill_other; [done|].
    intros Hr. destruct (proj1 (NoDup_app _ _) (ow_once c Hc)) as (_ & Hn & _). by apply (Hn addr).
Qed.
Lemma step_owned c c' : dsteps c c' -> owned c -> owned c'.
Proof.
  intros Hs Hc. destruct Hs as [r c Ho|id c Ho|l t r c t' c' Ht Hs|addr n c Ho _|addr question c Ho _|l q addr r o c Hq|c Ho|l t r c Ho Ht Hh].
  - by apply client_sends_owned.
  - unfold client_cancels. destruct (lookup_session _ _); by apply (moved_owned c).
  - by eapply task_owned.
  - by apply (moved_owned c).
  - by apply (moved_owned c).
  - by destruct Hc.
  - by apply closes_owned.
  - destruct (replaced_owners l t r c None c) as [H1 H2]; try done; [by apply submseteq_app; [|apply submseteq_nil_l]|by apply submseteq_nil_l|].
    by apply (dropped_owned c).
Qed.
Lemma reachable_owned c : dreachable opts inherited c -> owned c.
Proof.
  assert (H0 : owned conn_new).
  { split; cbn; try (intros addr H); try (by apply elem_of_nil in H); [constructor|]. destruct H as (p & Hp & _). done. }
  unfold dreachable. intros H. assert (H' : forall c0, owned c0 -> rtc dsteps c0 c -> owned c); [|by apply (H' conn_new)].
  clear. intros c0 H0 H. induction H as [|c0 c1 c2 Hs _ IH]; [done|]. by apply IH, (step_owned c0).
Qed.
End machine.

(** * Where requests go and where answers come from *)

Definition requests_to (addr : nat) (tr : list DaemonAct) : list (nat * Request) :=
  omap (fun a => match a with
                 | DSent addr' (KRequest rq r) => if decide (addr' = addr) then Some (rq, r) else None
                 | _ => None
                 end) tr.
Lemma requests_to_app addr tr new : requests_to addr (tr ++ new) = requests_to addr tr ++ requests_to addr new.
Proof. apply omap_app. Qed.
(** The open session a request is for. *)
Definition for_session (r : Request) : option string :=
  match r with
  | RqPrompt id _ | RqClose id | RqSubscribe id _ | RqUnsubscribe id | RqCancel id _ | RqStatus id => Some id
  | _ => None
  end.
(** The first request that the process got opened this session, as the process answered. *)
Definition opened_at (addr : nat) (id : string) (tr : list DaemonAct) : Prop :=
  exists rq r a rest, requests_to addr tr = (rq, r) :: rest /\ creates_session r = true /\
    DCame addr rq a ∈ tr /\ opened_session r a = Some id.
Definition serves_one (addr : nat) (tr : list DaemonAct) : Prop :=
  requests_to addr tr = [] \/ exists first rest, requests_to addr tr = first :: rest /\ creates_session first.2 = true /\
    forall rq r, (rq, r) ∈ rest -> exists id, for_session r = Some id /\ opened_at addr id tr.
Definition dtask_ok (t : DaemonTask) (tr : list DaemonAct) : Prop :=
  match t with
  | DOpening rq r => DReceived rq r ∈ tr /\ creates_session r = true
  | DInitializing rq r addr => DReceived rq r ∈ tr /\ creates_session r = true /\ requests_to addr tr = []
  | DOpened rq r addr => DReceived rq r ∈ tr /\ creates_session r = true /\ requests_to addr tr = [(rq, r)]
  | DForwarding rq r addr | DClosing rq r addr =>
      DReceived rq r ∈ tr /\ is_Some (for_session r) /\ (rq, r) ∈ requests_to addr tr
  | DListing rq => DReceived rq RqList ∈ tr
  end.
(** An answer is the daemon's own, an error of an opening, or what a process answered to the very
    request. *)
Definition reply_ok (rq : nat) (a : Answer) (tr : list DaemonAct) : Prop :=
  exists r, DReceived rq r ∈ tr /\
    match for_session r with
    | Some id => a = AError (not_found id) \/ exists addr, (rq, r) ∈ requests_to addr tr /\ DCame addr rq a ∈ tr
    | None => creates_session r = false \/ (exists e, a = AError e) \/
              exists addr id rest, requests_to addr tr = (rq, r) :: rest /\ DCame addr rq a ∈ tr /\ opened_session r a = Some id
    end.

Record routed (c : Conn) : Prop := {
  ro_unborn : forall addr, length (cn_procs c) <= addr -> requests_to addr (cn_trace c) = [];
  ro_served : forall addr, serves_one addr (cn_trace c);
  ro_tasks : forall t, t ∈ cn_tasks c -> dtask_ok t (cn_trace c);
  ro_sessions : forall id addr, lookup_session id c = Some addr -> opened_at addr id (cn_trace c);
  ro_replies : forall rq a, DReplied rq a ∈ cn_trace c -> reply_ok rq a (cn_trace c)
}.

(** ** What more of the trace leaves true *)

Lemma in_more {A} (x : A) tr new : x ∈ tr -> x ∈ tr ++ new.
Proof. intros H. apply elem_of_app. by left. Qed.
Lemma requests_more {x addr tr} new : x ∈ requests_to addr tr -> x ∈ requests_to addr (tr ++ new).
Proof. rewrite requests_to_app. apply in_more. Qed.
Lemma opened_at_more addr id tr new : opened_at addr id tr -> opened_at addr id (tr ++ new).
Proof.
  intros (rq & r & a & rest & H1 & H2 & H3 & H4). exists rq, r, a, (rest ++ requests_to addr new).
  rewrite requests_to_app, H1. split; [done|]. split; [done|]. split; [by apply in_more|done].
Qed.
Lemma reply_ok_more rq a tr new : reply_ok rq a tr -> reply_ok rq a (tr ++ new).
Proof.
  intros (r & Hr & H). exists r. split; [by apply in_more|]. destruct (for_session r).
  - destruct H as [H|(addr & H1 & H2)]; [by left|]. right. exists addr. split; [by apply requests_more|by apply in_more].
  - destruct H as [H|[H|(addr & id & rest & H1 & H2 & H3)]]; [by left|by right; left|]. right. right.
    exists addr, id, (rest ++ requests_to addr new). rewrite requests_to_app, H1. split; [done|]. split; [by apply in_more|done].
Qed.
Lemma serves_one_more addr tr new : requests_to addr new = [] -> serves_one addr tr -> serves_one addr (tr ++ new).
Proof.
  intros Hn [H|(first & rest & H & Hc & Hrest)]; [left|right]; rewrite requests_to_app, H, Hn, ?app_nil_r; [done|].
  exists first, rest. split; [done|]. split; [done|]. intros rq r (id & H1 & H2)%Hrest.
  exists id. split; [done|by apply opened_at_more].
Qed.
(** Only a task that waits to open a session minds what else its process is sent. *)
Definition opening_at (t : DaemonTask) : option nat :=
  match t with DInitializing _ _ addr | DOpened _ _ addr => Some addr | _ => None end.
Lemma dtask_ok_more t tr new :
  (forall addr, opening_at t = Some addr -> requests_to addr new = []) -> dtask_ok t tr -> dtask_ok t (tr ++ new).
Proof.
  destruct t as [rq r|rq r addr|rq r addr|rq r addr|rq r addr|rq]; cbn; intros Hn H.
  - destruct H as [H1 H2]. split; [by apply in_more|done].
  - destruct H as (H1 & H2 & H3). rewrite requests_to_app, H3, (Hn addr eq_refl). split; [by apply in_more|done].
  - destruct H as (H1 & H2 & H3). rewrite requests_to_app, H3, (Hn addr eq_refl). split; [by apply in_more|done].
  - destruct H as (H1 & H2 & H3). split; [by apply in_more|]. split; [done|by apply requests_more].
  - destruct H as (H1 & H2 & H3). split; [by apply in_more|]. split; [done|by apply requests_more].
  - by apply in_more.
Qed.

Lemma creates_no_session r : creates_session r = true -> for_session r = None.
Proof. by destruct r. Qed.
Lemma forwarded_ok rq r addr a id tr :
  DReceived rq r ∈ tr -> for_session r = Some id -> (rq, r) ∈ requests_to addr tr ->
  reply_ok rq a (tr ++ [DCame addr rq a; DReplied rq a]).
Proof.
  intros H1 H2 H3. exists r. rewrite H2. split; [by apply in_more|]. right. exists addr. split; [by apply requests_more|].
  apply elem_of_app. right. left.
Qed.

(** A step that sends no kernel a request. *)
Lemma quiet_routed c c' new :
  routed c -> cn_trace c' = cn_trace c ++ new -> (forall addr, requests_to addr new = []) ->
  length (cn_procs c) <= length (cn_procs c') ->
  (forall t, t ∈ cn_tasks c' -> t ∈ cn_tasks c \/ dtask_ok t (cn_trace c')) ->
  (forall id addr, lookup_session id c' = Some addr -> lookup_session id c = Some addr \/ opened_at addr id (cn_trace c')) ->
  (forall rq a, DReplied rq a ∈ new -> reply_ok rq a (cn_trace c')) -> routed c'.
Proof.
  intros [H1 H2 H3 H4 H5] Ht Hn Hl Htasks Hs Hr. split; rewrite ?Ht in *.
  - intros addr Ha. rewrite requests_to_app, Hn, H1 by lia. done.
  - intros addr. by apply serves_one_more.
  - intros t [H%H3|H]%Htasks; [|done]. by apply dtask_ok_more.
  - intros id addr [H%H4|H]%Hs; [|done]. by apply opened_at_more.
  - intros rq a [H%H5|H]%elem_of_app; [by apply reply_ok_more|by apply Hr].
Qed.
(** A request is sent to [addr]: the first one opens a session, the others are for it; no other
    task waits to open one there. *)
Lemma sent_routed c c' addr rq r :
  routed c -> cn_trace c' = cn_trace c ++ [DSent addr (KRequest rq r)] -> length (cn_procs c') = length (cn_procs c) ->
  addr < length (cn_procs c) ->
  (requests_to addr (cn_trace c) = [] /\ creates_session r = true \/
   exists id, for_session r = Some id /\ opened_at addr id (cn_trace c)) ->
  (forall t, t ∈ cn_tasks c' -> t ∈ cn_tasks c /\ opening_at t <> Some addr \/ dtask_ok t (cn_trace c')) ->
  (forall id a, lookup_session id c' = Some a -> lookup_session id c = Some a) -> routed c'.
Proof.
  intros [H1 H2 H3 H4 H5] Ht Hl Ha Hfirst Htasks Hs. 
  assert (Hreq : forall a, requests_to a [DSent addr (KRequest rq r)] = if decide (addr = a) then [(rq, r)] else []).
  { intros a. cbn. by case_decide. }
  split; rewrite ?Ht in *.
  - intros a H. rewrite requests_to_app, Hreq, H1, decide_False by lia. done.
  - intros a. destruct (decide (addr = a)) as [<-|Hne]; [|apply serves_one_more; [by rewrite Hreq, decide_False|done]].
    right. rewrite requests_to_app, Hreq, decide_True by done. destruct Hfirst as [[Hf Hc]|(id & Hid & Hop)].
    + rewrite Hf. exists (rq, r), []. split; [done|]. split; [done|]. by intros ? ? ?%elem_of_nil.
    + destruct (H2 addr) as [H|(first & rest & H & Hc & Hrest)]; [destruct Hop as (? & ? & ? & ? & Hop & _); congruence|].
      rewrite H. exists first, (rest ++ [(rq, r)]). split; [done|]. split; [done|].
      intros rq' r' [(id' & Hid' & Hop')%Hrest|[= -> ->]%list_elem_of_singleton]%elem_of_app;
        eexists; (split; [done|by apply opened_at_more]).
  - intros t [[H%H3 Hne]|H]%Htasks; [|done]. apply dtask_ok_more; [|done]. intros a Hop. rewrite Hreq. case_decide; congruence.
  - intros id a H%Hs%H4. by apply opened_at_more.
  - intros rq' a [H%H5|H%list_elem_of_singleton]%elem_of_app; [by apply reply_ok_more|done].
Qed.

(** ** Every step keeps it *)

Lemma owner_of_session c id addr : owned c -> lookup_session id c = Some addr ->
  addr < length (cn_procs c) /\ forall t, t ∈ cn_tasks c -> dtask_holds t <> Some addr.
Proof.
  intros [Hn Hk _ _] H. assert (Hr : addr ∈ registered c) by (apply registered_elem; by exists id).
  split; [apply Hk; unfold all_owners; apply elem_of_app; by left|].
  intros t Ht Hh. apply NoDup_app in Hn as (_ & Hn & _). apply (Hn addr Hr). apply list_elem_of_omap. by exists t.
Qed.
Lemma owner_of_task l t r c addr : owned c -> cn_tasks c = l ++ t :: r -> dtask_holds t = Some addr ->
  addr < length (cn_procs c) /\ forall t', t' ∈ l ++ r -> dtask_holds t' <> Some addr.
Proof.
  intros [Hn Hk _ _] Ht Hh. unfold all_owners in *. rewrite Ht, holds_middle, Hh in Hn. cbn in Hn.
  split.
  - apply Hk, elem_of_app. right. apply list_elem_of_omap. exists t. split; [|done]. rewrite Ht. apply elem_of_app. right. left.
  - intros t' Ht' Hh'. apply NoDup_app in Hn as (_ & _ & Hn). apply NoDup_cons in Hn as [Hn _]. apply Hn.
    apply list_elem_of_omap. by exists t'.
Qed.
Lemma opening_holds t addr : opening_at t = Some addr -> dtask_holds t = Some addr.
Proof. by destruct t. Qed.

Lemma replied_routed c rq a : routed c -> reply_ok rq a (cn_trace c) -> routed (respond rq a c).
Proof.
  intros Hc Ha. eapply (quiet_routed c _ [DReplied rq a]); try done; [by left|by left|].
  intros rq' a' [= -> ->]%list_elem_of_singleton. by apply reply_ok_more.
Qed.
Lemma started_routed c t : routed c -> dtask_ok t (cn_trace c) -> routed (start t c).
Proof.
  intros Hc Ht. eapply (quiet_routed c _ []); cbn; rewrite ?app_nil_r; try done; [|by left|by intros ? ? ?%elem_of_nil].
  intros t' [H| ->%list_elem_of_singleton]%elem_of_app; [by left|by right].
Qed.
Lemma to_session_routed c rq r id addr t c' :
  routed c -> owned c -> DReceived rq r ∈ cn_trace c -> for_session r = Some id -> lookup_session id c = Some addr ->
  t = DForwarding rq r addr \/ t = DClosing rq r addr -> cn_procs c' = cn_procs c -> cn_tasks c' = cn_tasks c ->
  cn_trace c' = cn_trace c -> (forall id a, lookup_session id c' = Some a -> lookup_session id c = Some a) ->
  routed (start t (act (DSent addr (KRequest rq r)) c')).
Proof.
  intros Hc How Hrec Hid Hs Ht Hp Hts Htr Hss. destruct (owner_of_session c id addr How Hs) as [Hl Hfree].
  assert (Hin : (rq, r) ∈ requests_to addr (cn_trace c ++ [DSent addr (KRequest rq r)])).
  { rewrite requests_to_app. apply elem_of_app. right. cbn. rewrite decide_True by done. left. }
  apply (sent_routed c _ addr rq r); cbn; rewrite ?Hp, ?Htr, ?Hts; try done.
  - right. exists id. split; [done|]. by apply (ro_sessions c Hc).
  - intros t' [Ht'| ->%list_elem_of_singleton]%elem_of_app.
    + left. split; [done|]. intros H%opening_holds. by apply (Hfree t').
    + right. destruct Ht as [-> | ->]; (split; [by apply in_more|]); rewrite Hid; by split.
Qed.
Lemma handler_routed c rq r : routed c -> owned c -> DReceived rq r ∈ cn_trace c -> routed (receive_request rq r c).
Proof.
  intros Hc How Hrec.
  assert (Hnot : forall id, for_session r = Some id -> routed (respond rq (AError (not_found id)) c)).
  { intros id Hid. apply replied_routed; [done|]. exists r. rewrite Hid. split; [done|by left]. }
  assert (Hfw : forall id, for_session r = Some id -> routed (forward rq id r c)).
  { intros id Hid. unfold forward. destruct (lookup_session id c) as [addr|] eqn:Hs; [|by apply Hnot].
    eapply (to_session_routed c rq r id); eauto. }
  destruct r as [|cwd meta|id bl|id| |id|id|id ks|id|id sc|id]; cbn [receive_request]; try (by apply Hfw);
    try (by apply started_routed).
  - apply replied_routed; [done|]. exists RqInitialize. cbn. split; [done|by left].
  - unfold close_session. destruct (lookup_session id c) as [addr|] eqn:Hs; [|by apply Hnot].
    eapply (to_session_routed c rq (RqClose id) id); eauto. unfold lookup_session. cbn. by intros id' a [_ H]%lookup_delete_Some.
Qed.

Section steps.
Context (opts : DaemonOptions) (inherited : list (string * string)).
Notation dsteps := (dstep opts inherited).

Lemma client_sends_routed r c : cn_open c = true -> owned c -> routed c -> routed (client_sends r c).
Proof.
  intros Ho How Hc. unfold client_sends. apply handler_routed.
  - eapply (quiet_routed c _ [DReceived _ _]); try done; [by left|by left|]. by intros ? ? ?%list_elem_of_singleton.
  - by apply (moved_owned c).
  - cbn. apply elem_of_app. right. left.
Qed.

Lemma task_routed l t r c t' c' : owned c -> routed c -> cn_tasks c = l ++ t :: r -> dtask_step opts inherited t c t' c' ->
  routed (reap (set_dtasks (l ++ option_list t' ++ r) c')).
Proof.
  intros How Hc Ht Hs. assert (Hok : dtask_ok t (cn_trace c)) by (apply (ro_tasks c Hc); rewrite Ht; apply elem_of_app; right; left).
  (* a step that sends no kernel a request *)
  assert (Hquiet : forall c1 t1 new, cn_trace c1 = cn_trace c ++ new -> (forall addr, requests_to addr new = []) ->
    length (cn_procs c) <= length (cn_procs c1) -> (forall t2, t1 = Some t2 -> dtask_ok t2 (cn_trace c1)) ->
    (forall id addr, lookup_session id c1 = Some addr -> lookup_session id c = Some addr \/ opened_at addr id (cn_trace c1)) ->
    (forall rq a, DReplied rq a ∈ new -> reply_ok rq a (cn_trace c1)) ->
    routed (reap (set_dtasks (l ++ option_list t1 ++ r) c1))).
  { intros c1 t1 new H1 H2 H3 H4 H5 H6. eapply (quiet_routed c _ new); try done; [by rewrite reap_length|].
    intros t2 Hin. cbn in Hin. rewrite Ht. destruct t1 as [t1|]; cbn in Hin; rewrite elem_of_app, ?elem_of_cons in Hin |- *.
    - destruct Hin as [?|[-> |?]]; [by left; left|right; by apply H4|by left; right; right].
    - destruct Hin; [by left; left|by left; right; right]. }
  assert (Hend : forall c1 pre rq0 a, cn_trace c1 = cn_trace c ++ (pre ++ [DReplied rq0 a]) ->
    pre = [] \/ (exists addr, pre = [DCame addr rq0 a]) -> length (cn_procs c) <= length (cn_procs c1) ->
    (forall id addr, lookup_session id c1 = Some addr -> lookup_session id c = Some addr \/ opened_at addr id (cn_trace c1)) ->
    reply_ok rq0 a (cn_trace c1) -> routed (reap (set_dtasks (l ++ option_list None ++ r) c1))).
  { intros c1 pre rq0 a H1 H2 H3 H4 H5. eapply Hquiet; [exact H1| |done|done|done|].
    - intros addr. destruct H2 as [-> | [addr' ->]]; done.
    - intros rq1 a1 Hin. assert (Hin' : DReplied rq1 a1 = DReplied rq0 a); [|by injection Hin' as -> ->].
      destruct H2 as [-> | [addr' ->]]; [by apply list_elem_of_singleton in Hin|].
      by apply elem_of_cons in Hin as [?|?%list_elem_of_singleton]. }
  assert (Herr : forall rq0 r0 e tr, DReceived rq0 r0 ∈ cn_trace c -> creates_session r0 = true -> reply_ok rq0 (AError e) (cn_trace c ++ tr)).
  { intros rq0 r0 e tr H1 H2. exists r0. rewrite creates_no_session by done. split; [by apply in_more|]. right. left. by exists e. }
  destruct Hs as [rq r0 c _|rq r0 c e _|rq r0 c e _|rq r0 c Hr|rq r0 addr c|rq r0 addr c e|rq r0 addr c a id Ha Hid|rq r0 addr c e
    |rq r0 addr c a Ha|rq r0 addr c a Ha|rq c records]; cbn in Hok.
  1-3: eapply (Hend _ []); [done|by left|done|by left|eapply Herr; by destruct Hok].
  - eapply (Hquiet _ (Some _)); [done|done|cbn; rewrite length_app; lia| |by left|by intros ? ? ?%list_elem_of_singleton].
    intros t2 [= <-]. destruct Hok as [H1 H2].
    change (dtask_ok (DInitializing rq r0 (length (cn_procs c))) (cn_trace c ++ [DSent (length (cn_procs c)) KInitialize])).
    cbn [dtask_ok]. split; [by apply in_more|]. split; [done|]. rewrite requests_to_app, (ro_unborn c Hc) by done. done.
  - destruct Hok as (H1 & H2 & H3). destruct (owner_of_task l _ r c addr How Ht eq_refl) as [Hl Hfree].
    apply (sent_routed c _ addr rq r0); try done.
    + by rewrite reap_length.
    + left. done.
    + intros t2 Hin. cbn in Hin. rewrite elem_of_app, elem_of_cons in Hin. assert (Hcase : t2 = DOpened rq r0 addr \/ t2 ∈ l ++ r).
      { rewrite elem_of_app. destruct Hin as [?|[?|?]]; auto. }
      destruct Hcase as [-> | H]; [right|left].
      * change (dtask_ok (DOpened rq r0 addr) (cn_trace c ++ [DSent addr (KRequest rq r0)])). cbn [dtask_ok].
        split; [by apply in_more|]. split; [done|]. rewrite requests_to_app, H3. cbn. by rewrite decide_True.
      * split; [|intros Ho%opening_holds; by apply (Hfree t2)]. rewrite Ht. revert H. rewrite !elem_of_app, elem_of_cons. naive_solver.
  - eapply (Hend _ []); [done|by left|done|by left|]. destruct Hok as (H1 & H2 & _). by eapply Herr.
  - destruct Hok as (H1 & H2 & H3). set (c1 := respond _ _ _).
    assert (Htr : cn_trace c1 = cn_trace c ++ [DCame addr rq a; DReplied rq a]) by (cbn; by rewrite <- app_assoc).
    assert (Hcame : DCame addr rq a ∈ cn_trace c1) by (rewrite Htr; apply elem_of_app; right; left).
    assert (Hreq : requests_to addr (cn_trace c1) = [(rq, r0)]) by (by rewrite Htr, requests_to_app, H3).
    eapply (Hend c1 [DCame addr rq a]); [exact Htr|right; by eexists|done| |].
    + intros id' addr'. unfold lookup_session. cbn. intros [[<- <-]|[_ H]]%lookup_insert_Some; [right|by left].
      exists rq, r0, a, []. by split_and!.
    + exists r0. rewrite creates_no_session by done. split; [rewrite Htr; by apply in_more|]. right. right.
      exists addr, id, []. by split_and!.
  - destruct Hok as (H1 & H2 & H3). eapply (Hend _ [DCame addr rq (AError e)]); [cbn; by rewrite <- app_assoc|right; by eexists|done|by left|].
    cbn. rewrite <- app_assoc. by eapply Herr.
  - destruct Hok as (H1 & [id Hid] & H3). eapply (Hend _ [DCame addr rq a]); [cbn; by rewrite <- app_assoc|right; by eexists|done|by left|].
    cbn. rewrite <- app_assoc. by eapply forwarded_ok.
  - destruct Hok as (H1 & [id Hid] & H3). eapply (Hend _ [DCame addr rq a]);
      [cbn; by rewrite <- app_assoc|right; by eexists|cbn; by rewrite length_alter|by left|].
    cbn. rewrite <- app_assoc. by eapply forwarded_ok.
  - eapply (Hend _ []); [done|by left|done|by left|]. exists RqList. cbn. split; [by apply in_more|by left].
Qed.

Lemma step_routed c c' : dsteps c c' -> owned c -> routed c -> routed c'.
Proof.
  intros Hs How Hc. destruct Hs as [r c Ho|id c Ho|l t r c t' c' Ht Hs|addr n c Ho _|addr question c Ho _|l q addr r o c Hq|c Ho|l t r c Ho Ht Hh].
  - by apply client_sends_routed.
  - unfold client_cancels. change (lookup_session id (act (DNoticed id) c)) with (lookup_session id c).
    destruct (lookup_session id c) as [addr|]; [eapply (quiet_routed c _ [DNoticed id; DSent addr (KCancel id)])|eapply (quiet_routed c _ [DNoticed id])];
      try done; try (by left); cbn; rewrite <- ?app_assoc; try done; intros rq a; rewrite !elem_of_cons, elem_of_nil; naive_solver.
  - by eapply task_routed.
  - eapply (quiet_routed c _ [DNote n]); try done; try (by left). by intros ? ? ?%list_elem_of_singleton.
  - eapply (quiet_routed c _ [DAsked _ question]); try done; try (by left). by intros ? ? ?%list_elem_of_singleton.
  - eapply (quiet_routed c _ [DSent addr (KElicited q o)]); try done; try (by left). by intros ? ? ?%list_elem_of_singleton.
  - eapply (quiet_routed c _ []); cbn; rewrite ?app_nil_r; try done; try (by left).
    + rewrite length_imap, foldl_kill_length. done.
    + by intros ? ? ?%elem_of_nil.
  - eapply (quiet_routed c _ []); cbn; rewrite ?app_nil_r; try done; try (by left).
    + by rewrite length_imap.
    + intros t' H. left. rewrite Ht. revert H. rewrite !elem_of_app, elem_of_cons. naive_solver.
    + by intros ? ? ?%elem_of_nil.
Qed.
Lemma reachable_routed c : dreachable opts inherited c -> routed c.
Proof.
  assert (H0 : routed conn_new).
  { split; cbn; try done; [by left|by intros ? ?%elem_of_nil|by intros ? ? ?%elem_of_nil]. }
  intros H. assert (H' : forall c0, owned c0 -> routed c0 -> rtc dsteps c0 c -> routed c);
    [|apply (H' conn_new); [by apply (reachable_owned opts inherited), rtc_refl|done|done]].
  clear. intros c0 Ho0 H0 H. induction H as [|c0 c1 c2 Hs _ IH]; [done|].
  apply IH; [by apply (step_owned opts inherited c0)|by apply (step_routed c0)].
Qed.
End steps.

(** * Every request is answered once *)

Definition replied (tr : list DaemonAct) : list nat := omap (fun a => match a with DReplied rq _ => Some rq | _ => None end) tr.
Lemma replied_app tr tr' : replied (tr ++ tr') = replied tr ++ replied tr'.
Proof. apply omap_app. Qed.
Definition rq_held (c : Conn) : list nat := dtask_rq <$> cn_tasks c.
(** Requests answered and requests held; once the connection is closed some may go unanswered. *)
Record counted (c : Conn) : Prop := {
  ct_part : replied (cn_trace c) ++ rq_held c ⊆+ seq 0 (cn_received c);
  ct_all : cn_open c = true -> replied (cn_trace c) ++ rq_held c ≡ₚ seq 0 (cn_received c)
}.

Lemma receive_request_counted rq r c :
  let c' := receive_request rq r c in
  cn_received c' = cn_received c /\ cn_open c' = cn_open c /\
  replied (cn_trace c') ++ rq_held c' ≡ₚ replied (cn_trace c) ++ rq_held c ++ [rq].
Proof.
  assert (Hr : forall a, replied (cn_trace (respond rq a c)) ++ rq_held (respond rq a c) ≡ₚ replied (cn_trace c) ++ rq_held c ++ [rq]).
  { intros a. cbn. rewrite replied_app, <- app_assoc. f_equiv. apply Permutation_app_comm. }
  assert (Hs : forall t c1, dtask_rq t = rq -> replied (cn_trace c1) = replied (cn_trace c) -> cn_tasks c1 = cn_tasks c ->
    replied (cn_trace (start t c1)) ++ rq_held (start t c1) ≡ₚ replied (cn_trace c) ++ rq_held c ++ [rq]).
  { intros t c1 <- H1 H2. unfold rq_held. change (cn_trace (start t c1)) with (cn_trace c1).
    change (cn_tasks (start t c1)) with (cn_tasks c1 ++ [t]). by rewrite H1, H2, fmap_app. }
  assert (Hsent : forall addr m, replied (cn_trace c ++ [DSent addr m]) = replied (cn_trace c)) by (intros; by rewrite replied_app, app_nil_r).
  destruct r as [|cwd meta|id bl|id| |id|id|id ks|id|id sc|id]; cbn [receive_request];
    unfold forward, close_session; repeat case_match; (split; [done|split; [done|]]); try apply Hr; apply Hs; try done; apply Hsent.
Qed.

Section counting.
Context (opts : DaemonOptions) (inherited : list (string * string)).

Lemma task_counted t c t' c' : dtask_step opts inherited t c t' c' ->
  cn_received c' = cn_received c /\ cn_open c' = cn_open c /\
  replied (cn_trace c') ++ (dtask_rq <$> option_list t') ≡ₚ replied (cn_trace c) ++ [dtask_rq t].
Proof. intros H. destruct H; (split; [done|split; [done|]]); cbn; by rewrite !replied_app, ?app_nil_r. Qed.
Lemma same_counted c c' : counted c -> replied (cn_trace c') = replied (cn_trace c) -> cn_tasks c' = cn_tasks c ->
  cn_received c' = cn_received c -> (cn_open c' = true -> cn_open c = true) -> counted c'.
Proof. intros [H1 H2] H3 H4 H5 H6. split; unfold rq_held; rewrite H3, H4, H5; [done|]. by intros H%H6%H2. Qed.
Lemma step_counted c c' : dstep opts inherited c c' -> counted c -> counted c'.
Proof.
  intros Hs Hc. destruct Hs as [r c Ho|id c Ho|l t r c t' c' Ht Hs|addr n c Ho _|addr question c Ho _|l q addr r o c Hq|c Ho|l t r c Ho Ht Hh].
  - unfold client_sends. edestruct (receive_request_counted (cn_received c) r) as (H1 & H2 & H3).
    assert (Hall : replied (cn_trace (client_sends r c)) ++ rq_held (client_sends r c) ≡ₚ seq 0 (cn_received (client_sends r c))).
    { unfold client_sends. rewrite H3, H1. pose proof (ct_all c Hc Ho) as Hall. unfold rq_held in *.
      cbn [cn_trace cn_tasks cn_received]. by rewrite replied_app, app_nil_r, seq_S, app_assoc, Hall. }
    split; [|done]. change (receive_request _ _ _) with (client_sends r c). by rewrite Hall.
  - apply (same_counted c); try done; unfold client_cancels; destruct (lookup_session _ _); try done; cbn; by rewrite !replied_app, ?app_nil_r.
  - destruct (task_counted _ _ _ _ Hs) as (H1 & H2 & H3). set (c2 := reap _).
    assert (Hall : replied (cn_trace c2) ++ rq_held c2 ≡ₚ replied (cn_trace c) ++ rq_held c).
    { unfold rq_held. cbn. rewrite Ht, !fmap_app. cbn. rewrite (Permutation_app_comm (dtask_rq <$> l)), !app_assoc, H3, <- !app_assoc.
      f_equiv. cbn. rewrite (Permutation_app_comm (dtask_rq <$> r)). by rewrite Permutation_middle. }
    split; rewrite Hall; unfold c2; cbn; rewrite H1, ?H2; apply Hc.
  - apply (same_counted c); try done; cbn; by rewrite !replied_app, ?app_nil_r.
  - apply (same_counted c); try done; cbn; by rewrite !replied_app, ?app_nil_r.
  - apply (same_counted c); try done; cbn; by rewrite !replied_app, ?app_nil_r.
  - by apply (same_counted c).
  - destruct Hc as [H1 _]. split; [|cbn; congruence]. unfold rq_held in *. cbn. rewrite Ht, fmap_app in H1. cbn in H1.
    etrans; [|exact H1]. rewrite fmap_app. apply submseteq_skips_l, submseteq_skips_l. by apply submseteq_cons.
Qed.
Lemma reachable_counted c : dreachable opts inherited c -> counted c.
Proof.
  assert (H0 : counted conn_new) by (split; done). unfold dreachable. intros H.
  assert (H' : forall c0, counted c0 -> rtc (dstep opts inherited) c0 c -> counted c); [|by apply (H' conn_new)].
  clear. intros c0 H0 H. induction H as [|c0 c1 c2 Hs _ IH]; [done|]. by apply IH, (step_counted c0).
Qed.

(** * What a client and the kernel processes may rely on *)

(** C37: however handlers, tasks and kernel processes interleave, a kernel process lives exactly as
    long as someone owns it: the session it is registered for, or the one request that is opening
    or closing its session; no process has two owners.  A closed connection whose tasks are
    done leaves no process behind. *)
Theorem kernel_processes_are_owned c :
  dreachable opts inherited c ->
  NoDup (owners c) /\ (forall addr, alive c addr <-> addr ∈ owners c) /\
  (cn_open c = true -> forall id addr, lookup_session id c = Some addr -> alive c addr) /\
  (cn_open c = false -> cn_tasks c = [] -> forall addr, ~ alive c addr).
Proof.
  intros H%reachable_owned. split; [by eapply NoDup_part, H; apply owners_all|].
  split; [intros addr; split; apply H|]. split.
  - intros Ho id addr Hs. apply H. unfold owners, map_held. rewrite Ho. cbn. apply elem_of_app. left. apply registered_elem. by exists id.
  - intros Ho Ht addr Ha%(ow_owned c H). unfold owners, map_held in Ha. rewrite Ho, Ht in Ha. by apply elem_of_nil in Ha.
Qed.

(** ** The sessions open on a connection, as the trace tells *)

(** An opening request that a process answered opens the session it names, or the answer names, at
    that process; a request to close it ends that. *)
Definition seen_act (st : list Request * gmap string nat) (a : DaemonAct) : list Request * gmap string nat :=
  match a with
  | DReceived _ r => (st.1 ++ [r], match r with RqClose id => delete id st.2 | _ => st.2 end)
  | DCame addr rq a =>
      match r ← st.1 !! rq; opened_session r a with Some id => (st.1, <[id := addr]> st.2) | None => st end
  | _ => st
  end.
Definition seen (tr : list DaemonAct) : list Request * gmap string nat := foldl seen_act ([], ∅) tr.
Definition open_sessions (tr : list DaemonAct) : gmap string nat := (seen tr).2.
Lemma seen_snoc tr a : seen (tr ++ [a]) = seen_act (seen tr) a.
Proof. unfold seen. by rewrite foldl_app. Qed.
Lemma seen_app_idle tr new :
  Forall (fun a => match a with DReceived _ _ | DCame _ _ _ => False | _ => True end) new -> seen (tr ++ new) = seen tr.
Proof.
  intros H. unfold seen. rewrite foldl_app. generalize (foldl seen_act ([], ∅) tr). induction H as [|a new Ha _ IH]; intros st; [done|].
  simpl. rewrite IH. by destruct a.
Qed.

(** The requests are numbered in the order they came, and the map is what the trace tells. *)
Record recorded (c : Conn) : Prop := {
  re_count : length (seen (cn_trace c)).1 = cn_received c;
  re_received : forall rq r, DReceived rq r ∈ cn_trace c <-> (seen (cn_trace c)).1 !! rq = Some r;
  re_sessions : cn_open c = true -> cn_sessions c = open_sessions (cn_trace c)
}.
(** The answer to a request for a session is decided when it arrives: by the process the session is
    open at then, or by the daemon if it is not open. *)
Definition decided (c : Conn) (pre : list DaemonAct) (rq : nat) (r : Request) (id : string) : Prop :=
  match open_sessions pre !! id with
  | None => (forall a, DReplied rq a ∈ cn_trace c -> a = AError (not_found id)) /\ rq ∉ rq_held c
  | Some addr =>
      DSent addr (KRequest rq r) ∈ cn_trace c /\
      (forall a, DReplied rq a ∈ cn_trace c -> DCame addr rq a ∈ cn_trace c) /\
      (forall t, t ∈ cn_tasks c -> dtask_rq t = rq -> t = DForwarding rq r addr \/ t = DClosing rq r addr)
  end.
Definition all_decided (c : Conn) : Prop := forall pre rq r post id,
  cn_trace c = pre ++ DReceived rq r :: post -> for_session r = Some id -> decided c pre rq r id.

Lemma replied_elem rq a tr : DReplied rq a ∈ tr -> rq ∈ replied tr.
Proof. intros H. apply list_elem_of_omap. by exists (DReplied rq a). Qed.
(** A step that receives nothing, and opens nothing. *)
Lemma idle_recorded c c' new :
  recorded c -> cn_trace c' = cn_trace c ++ new ->
  Forall (fun a => match a with DReceived _ _ | DCame _ _ _ => False | _ => True end) new ->
  cn_received c' = cn_received c -> (cn_open c' = true -> cn_open c = true /\ cn_sessions c' = cn_sessions c) -> recorded c'.
Proof.
  intros [H1 H2 H3] Ht Hn Hr Ho. split; unfold open_sessions; rewrite ?Ht, ?seen_app_idle by done.
  - by rewrite Hr.
  - intros rq r. rewrite <- H2, elem_of_app. split; [|by left]. intros [?|Hin]; [done|].
    rewrite Forall_forall in Hn. by apply Hn in Hin.
  - intros [Ho1 ->]%Ho. by apply H3.
Qed.
(** An answer that came to a task. *)
Lemma came_recorded c c' addr rq r a new :
  recorded c -> DReceived rq r ∈ cn_trace c -> cn_trace c' = cn_trace c ++ DCame addr rq a :: new ->
  Forall (fun a => match a with DReceived _ _ | DCame _ _ _ => False | _ => True end) new ->
  cn_received c' = cn_received c -> cn_open c' = cn_open c ->
  cn_sessions c' = match opened_session r a with Some id => <[id := addr]> (cn_sessions c) | None => cn_sessions c end ->
  recorded c'.
Proof.
  intros [H1 H2 H3] Hrec Ht Hn Hr Ho Hs.
  assert (Hseen : seen (cn_trace c') = match opened_session r a with
    | Some id => ((seen (cn_trace c)).1, <[id := addr]> (seen (cn_trace c)).2) | None => seen (cn_trace c) end).
  { rewrite Ht, cons_middle, app_assoc, seen_app_idle, seen_snoc by done. cbn [seen_act]. apply H2 in Hrec. rewrite Hrec.
    cbn [mbind option_bind]. by destruct (opened_session r a). }
  assert (Hfst : (seen (cn_trace c')).1 = (seen (cn_trace c)).1) by (rewrite Hseen; by destruct (opened_session r a)).
  split.
  - by rewrite Hfst, Hr.
  - intros rq' r'. rewrite Hfst, <- H2, Ht, elem_of_app. split; [|by left]. intros [?|Hin]; [done|].
    apply elem_of_cons in Hin as [?|Hin]; [done|]. rewrite Forall_forall in Hn. by apply Hn in Hin.
  - rewrite Ho. intros Hopen. rewrite Hs, (H3 Hopen). unfold open_sessions. rewrite Hseen. by destruct (opened_session r a).
Qed.

(** What is received is decided at once. *)
Lemma receive_recorded rq r c : cn_open c = true -> recorded c -> rq = cn_received c -> recorded (client_sends r c).
Proof.
  intros Hopen [H1 H2 H3] ->. specialize (H3 Hopen).
  assert (Htr : exists new, cn_trace (client_sends r c) = (cn_trace c ++ [DReceived (cn_received c) r]) ++ new /\
    Forall (fun a => match a with DReceived _ _ | DCame _ _ _ => False | _ => True end) new /\
    cn_received (client_sends r c) = S (cn_received c) /\
    cn_sessions (client_sends r c) = match r with RqClose id => delete id (cn_sessions c) | _ => cn_sessions c end).
  { unfold client_sends. destruct r as [|cwd meta|id bl|id| |id|id|id ks|id|id sc|id]; cbn [receive_request];
      unfold forward, close_session, lookup_session; cbn [cn_sessions];
      repeat case_match; try (by eexists [_]; (split; [reflexivity|]); (split; [by repeat constructor|]); split);
      try (by exists []; rewrite app_nil_r).
    eexists [_]. split; [reflexivity|]. split; [by repeat constructor|]. split; [done|]. cbn. symmetry. by apply delete_id. }
  destruct Htr as (new & Ht & Hn & Hr & Hs).
  assert (Hseen : seen (cn_trace (client_sends r c)) =
    ((seen (cn_trace c)).1 ++ [r], match r with RqClose id => delete id (seen (cn_trace c)).2 | _ => (seen (cn_trace c)).2 end)).
  { by rewrite Ht, seen_app_idle, seen_snoc by done. }
  split; unfold open_sessions; rewrite ?Hseen; cbn [fst snd].
  - rewrite length_app, H1, Hr. simpl. lia.
  - intros rq r'. rewrite Ht, !elem_of_app, list_elem_of_singleton, H2, lookup_app_Some, list_lookup_singleton_Some, H1. split.
    + intros [[?|[= -> ->]]|Hin]; [by left|right; split; [lia|split; [lia|done]]|]. rewrite Forall_forall in Hn. by apply Hn in Hin.
    + intros [?|[? [? <-]]]; [by left; left|]. left; right. f_equal. lia.
  - intros _. rewrite Hs. unfold open_sessions in H3. rewrite H3. by destruct r.
Qed.
Lemma split_old {A} (tr new pre post : list A) x : tr ++ new = pre ++ x :: post -> x ∉ new ->
  exists post', tr = pre ++ x :: post'.
Proof.
  intros [(k & -> & Hk)|(k & -> & Hk)]%app_eq_inv Hx.
  - destruct k as [|y k]; [|injection Hk as <- _; by exists k]. destruct Hx. simpl in Hk. rewrite <- Hk. left.
  - destruct Hx. rewrite Hk. apply elem_of_app. right. left.
Qed.
Definition no_receipt (a : DaemonAct) : Prop := match a with DReceived _ _ => False | _ => True end.
Lemma old_split c c' new pre rq r post : cn_trace c' = cn_trace c ++ new -> Forall no_receipt new ->
  cn_trace c' = pre ++ DReceived rq r :: post -> exists post', cn_trace c = pre ++ DReceived rq r :: post'.
Proof.
  intros -> Hn Hs. eapply split_old; [exact Hs|]. rewrite Forall_forall in Hn. by intros H%Hn.
Qed.
(** A step that decides nothing and answers nothing. *)
Lemma idle_decided c c' new : all_decided c -> cn_trace c' = cn_trace c ++ new ->
  Forall (fun a => match a with DReceived _ _ | DReplied _ _ => False | _ => True end) new ->
  (forall t, t ∈ cn_tasks c' -> t ∈ cn_tasks c) -> all_decided c'.
Proof.
  intros Hc Ht Hn Hsub pre rq r post id Hs Hid. destruct (old_split c c' new pre rq r post Ht) as [post' Hs']; [|done|].
  { eapply Forall_impl; [exact Hn|]. by intros []. }
  assert (Hrep : forall rq a, DReplied rq a ∈ cn_trace c' -> DReplied rq a ∈ cn_trace c).
  { intros rq' a. rewrite Ht, elem_of_app. intros [?|H]; [done|]. rewrite Forall_forall in Hn. by apply Hn in H. }
  pose proof (Hc _ _ _ _ _ Hs' Hid) as H. unfold decided in *. destruct (open_sessions pre !! id) as [addr|].
  - destruct H as (H1 & H2 & H3). rewrite Ht. split; [by apply in_more|]. split; [|intros t ?%Hsub; by apply H3].
    intros a Ha. apply in_more, H2, Hrep. by rewrite Ht.
  - destruct H as (H1 & H2). split; [intros a Ha; by apply H1, Hrep|]. intros (t & -> & Hin%Hsub)%list_elem_of_fmap.
    apply H2, list_elem_of_fmap. by exists t.
Qed.

Lemma dtask_step_facts t c t' c1 : dtask_step opts inherited t c t' c1 ->
  (forall t2, t' = Some t2 -> dtask_rq t2 = dtask_rq t) /\
  exists new, cn_trace c1 = cn_trace c ++ new /\ Forall no_receipt new /\
    (forall rq a, DReplied rq a ∈ new -> rq = dtask_rq t) /\
    forall rq r addr, t = DForwarding rq r addr \/ t = DClosing rq r addr ->
      t' = None /\ forall a, DReplied rq a ∈ new -> DCame addr rq a ∈ new.
Proof.
  intros Hs. destruct Hs; (split; [try done; by intros t2 [= <-]|]);
    (eexists; split; [cbn; rewrite <- ?app_assoc; reflexivity|]); (split; [repeat (apply Forall_cons; split; [done|]); apply Forall_nil; done|]);
    (split; [intros rq1 a1 Hin; repeat (apply elem_of_cons in Hin as [Hin|Hin]; [first [discriminate Hin|by injection Hin as -> _]|]); by apply elem_of_nil in Hin|]);
    try (intros rq1 r1 addr1 [Heq|Heq]; discriminate Heq).
  - intros rq1 r1 addr1 [[= -> -> ->]|[=]]. split; [done|]. intros a1 [Hin|[= ->]%list_elem_of_singleton]%elem_of_cons; [done|left].
  - intros rq1 r1 addr1 [[=]|[= -> -> ->]]. split; [done|]. intros a1 [Hin|[= ->]%list_elem_of_singleton]%elem_of_cons; [done|left].
Qed.
Lemma task_decided l t r c t' c1 : all_decided c -> cn_tasks c = l ++ t :: r -> dtask_step opts inherited t c t' c1 ->
  all_decided (reap (set_dtasks (l ++ option_list t' ++ r) c1)).
Proof.
  intros Hc Htasks Hs pre rq r0 post id Hsplit Hid.
  destruct (dtask_step_facts _ _ _ _ Hs) as (Hrq & new & Ht & Hn & Hrep & Hfc).
  set (c' := reap (set_dtasks (l ++ option_list t' ++ r) c1)) in *. assert (Ht' : cn_trace c' = cn_trace c ++ new) by exact Ht.
  destruct (old_split c c' new pre rq r0 post Ht' Hn Hsplit) as [post' Hs'].
  pose proof (Hc _ _ _ _ _ Hs' Hid) as H. unfold decided in *. rewrite Ht'.
  assert (Hin : t ∈ cn_tasks c) by (rewrite Htasks; apply elem_of_app; right; left).
  assert (Hcase : forall t2, t2 ∈ cn_tasks c' -> t2 ∈ cn_tasks c \/ t' = Some t2).
  { intros t2. cbn. rewrite Htasks, !elem_of_app, elem_of_cons. destruct t' as [t3|]; cbn; rewrite ?list_elem_of_singleton, ?elem_of_nil; naive_solver. }
  destruct (open_sessions pre !! id) as [addr|].
  - destruct H as (H1 & H2 & H3). split; [by apply in_more|]. split.
    + intros a [Ha%H2|Ha]%elem_of_app; [by apply in_more|]. apply elem_of_app. right. pose proof (Hrep _ _ Ha) as Heq.
      destruct (Hfc rq r0 addr) as [_ Hcame]; [by apply H3|by apply Hcame].
    + intros t2 [Hold|Hnew]%Hcase Hrq2; [by apply H3|]. destruct (Hfc rq r0 addr) as [Hnone _]; [|congruence].
      apply H3; [done|]. by rewrite <- (Hrq _ Hnew).
  - destruct H as (H1 & H2). split.
    + intros a [Ha|Ha]%elem_of_app; [by apply H1|]. apply Hrep in Ha as ->. destruct H2. apply list_elem_of_fmap. by exists t.
    + intros (t2 & -> & [Hold|Hnew]%Hcase)%list_elem_of_fmap; apply H2, list_elem_of_fmap; [by exists t2|]. exists t. by rewrite (Hrq _ Hnew).
Qed.

Lemma counted_below c rq : counted c -> rq ∈ replied (cn_trace c) \/ rq ∈ rq_held c -> rq < cn_received c.
Proof.
  intros [H _] Hin. assert (rq ∈ seq 0 (cn_received c)) as Hs by (eapply elem_of_submseteq; [|exact H]; by apply elem_of_app).
  apply elem_of_seq in Hs. lia.
Qed.
Lemma sends_decided r c : cn_open c = true -> counted c -> recorded c -> all_decided c -> all_decided (client_sends r c).
Proof.
  intros Hopen Hcount Hre Hc. set (n := cn_received c).
  assert (Hnew : exists new, cn_trace (client_sends r c) = cn_trace c ++ DReceived n r :: new /\ Forall no_receipt new /\
    (forall rq a, DReplied rq a ∈ new -> rq = n) /\
    (forall t, t ∈ cn_tasks (client_sends r c) -> t ∈ cn_tasks c \/ dtask_rq t = n) /\
    forall id, for_session r = Some id -> match cn_sessions c !! id with
      | None => (forall a, DReplied n a ∈ new -> a = AError (not_found id)) /\ cn_tasks (client_sends r c) = cn_tasks c
      | Some addr => DSent addr (KRequest n r) ∈ new /\ (forall a, ~ DReplied n a ∈ new) /\
          forall t, t ∈ cn_tasks (client_sends r c) -> t ∈ cn_tasks c \/ t = DForwarding n r addr \/ t = DClosing n r addr
      end).
  { unfold client_sends. fold n. destruct r as [|cwd meta|id bl|id| |id|id|id ks|id|id sc|id]; cbn [receive_request];
      unfold forward, close_session, lookup_session; cbn [cn_sessions];
      try (destruct (cn_sessions c !! id) as [addr|] eqn:Hg);
      (eexists; split; [cbn; rewrite <- ?app_assoc; reflexivity|]); (split; [by repeat constructor|]);
      (split; [intros rq1 a1; rewrite ?elem_of_cons, elem_of_nil; naive_solver|]);
      (split; [intros t; cbn; rewrite ?elem_of_app, ?list_elem_of_singleton; naive_solver|]);
      intros id0 [= <-]; rewrite Hg; cbn;
      first [ split; [by left|]; split; [intros a1; rewrite ?elem_of_cons, elem_of_nil; naive_solver|];
              intros t; rewrite elem_of_app, list_elem_of_singleton; naive_solver
            | split; [intros a1; rewrite ?elem_of_cons, elem_of_nil; naive_solver|done] ]. }
  destruct Hnew as (new & Ht & Hn & Hrep & Htasks & Hdec). intros pre rq r0 post id Hsplit Hid.
  assert (Hfresh_rep : forall a, ~ DReplied n a ∈ cn_trace c).
  { intros a Ha%replied_elem. pose proof (counted_below c n Hcount (or_introl Ha)). unfold n in *. lia. }
  assert (Hfresh_task : forall t, t ∈ cn_tasks c -> dtask_rq t <> n).
  { intros t Hin Heq. assert (dtask_rq t ∈ rq_held c) as Hh by (apply list_elem_of_fmap; by exists t).
    pose proof (counted_below c _ Hcount (or_intror Hh)). unfold n in *. lia. }
  rewrite cons_middle, app_assoc in Ht.
  assert (Hcases : (exists post', cn_trace c = pre ++ DReceived rq r0 :: post') \/ (pre = cn_trace c /\ rq = n /\ r0 = r)).
  { rewrite Ht in Hsplit. apply split_old in Hsplit as [post' Hsplit]; [|rewrite Forall_forall in Hn; by intros H%Hn].
    apply app_eq_inv in Hsplit as [(k & Hk1 & Hk2)|(k & -> & Hk)].
    - destruct k as [|y k]; [|injection Hk2 as <- Hk2; left; by exists k]. right. rewrite app_nil_r in Hk1. by injection Hk2 as -> ->.
    - destruct k as [|y k]; [right; injection Hk as -> ->; by rewrite app_nil_r|]. injection Hk as _ Hk. by destruct k. }
  destruct Hcases as [[post' Hs']|(-> & -> & ->)].
  - pose proof (Hc _ _ _ _ _ Hs' Hid) as H. assert (Hne : rq <> n).
    { assert (DReceived rq r0 ∈ cn_trace c) as Hin by (rewrite Hs'; apply elem_of_app; right; left).
      apply (re_received c Hre) in Hin. apply lookup_lt_Some in Hin. rewrite (re_count c Hre) in Hin. unfold n. lia. }
    assert (Hrep' : forall a, DReplied rq a ∈ cn_trace (client_sends r c) -> DReplied rq a ∈ cn_trace c).
    { intros a. rewrite Ht, !elem_of_app, list_elem_of_singleton. intros [[?|?]|Ha%Hrep]; done. }
    unfold decided in *. destruct (open_sessions pre !! id) as [addr|].
    + destruct H as (H1 & H2 & H3). rewrite Ht, <- app_assoc. split; [by apply in_more|]. split.
      * intros a Ha. apply in_more, H2, Hrep'. by rewrite Ht, <- app_assoc.
      * intros t [Hin|Hin]%Htasks Hrq; [by apply H3|congruence].
    + destruct H as (H1 & H2). split; [intros a Ha; by apply H1, Hrep'|]. intros (t & -> & [Hin|Hin]%Htasks)%list_elem_of_fmap; [|done].
      apply H2, list_elem_of_fmap. by exists t.
  - specialize (Hdec id Hid). unfold decided. rewrite <- (re_sessions c Hre Hopen).
    destruct (cn_sessions c !! id) as [addr|].
    + destruct Hdec as (H1 & H2 & H3). rewrite Ht, <- app_assoc. split; [apply elem_of_app; right; by right|]. split.
      * intros a [Ha|[Ha|Ha]%elem_of_cons]%elem_of_app; [by apply Hfresh_rep in Ha|done|by apply H2 in Ha].
      * intros t [Hin|Hin]%H3 Hrq; [by apply Hfresh_task in Hin|done].
    + destruct Hdec as (H1 & H2). rewrite Ht, <- app_assoc. split.
      * intros a [Ha|[Ha|Ha]%elem_of_cons]%elem_of_app; [by apply Hfresh_rep in Ha|done|by apply H1].
      * unfold rq_held. rewrite H2. intros (t & Heq & Hin)%list_elem_of_fmap. by apply (Hfresh_task t).
Qed.

Definition idle_act (a : DaemonAct) : Prop := match a with DReceived _ _ | DCame _ _ _ => False | _ => True end.
Lemma not_opening r a : is_Some (for_session r) \/ (exists e, a = AError e) -> opened_session r a = None.
Proof. intros [[id Hid]|[e ->]]; by destruct r. Qed.
Lemma task_recorded l t r c t' c1 : routed c -> recorded c -> cn_tasks c = l ++ t :: r -> dtask_step opts inherited t c t' c1 ->
  recorded (reap (set_dtasks (l ++ option_list t' ++ r) c1)).
Proof.
  intros Hro Hc Ht Hs. assert (Hok : dtask_ok t (cn_trace c)) by (apply (ro_tasks c Hro); rewrite Ht; apply elem_of_app; right; left).
  assert (Hidle : forall x t1 c2, cn_trace c2 = cn_trace c ++ [x] -> idle_act x -> cn_received c2 = cn_received c ->
    cn_open c2 = cn_open c -> cn_sessions c2 = cn_sessions c -> recorded (reap (set_dtasks (l ++ option_list t1 ++ r) c2))).
  { intros x t1 c2 H1 H2 H3 H4 H5. apply (idle_recorded c _ [x]); try done.
    - apply Forall_cons. split; [exact H2|by apply Forall_nil].
    - cbn. by rewrite H4. }
  assert (Hcame : forall addr rq r0 a c2, DReceived rq r0 ∈ cn_trace c ->
    cn_trace c2 = cn_trace c ++ [DCame addr rq a; DReplied rq a] -> cn_received c2 = cn_received c -> cn_open c2 = cn_open c ->
    cn_sessions c2 = match opened_session r0 a with Some id => <[id := addr]> (cn_sessions c) | None => cn_sessions c end ->
    recorded (reap (set_dtasks (l ++ option_list None ++ r) c2))).
  { intros addr rq r0 a c2 H1 H2 H3 H4 H5. apply (came_recorded c _ addr rq r0 a [DReplied rq a]); try done.
    apply Forall_cons. by split; [|apply Forall_nil]. }
  destruct Hs; try (by eapply Hidle); cbn in Hok; destruct Hok as (Hrec & Hk & _);
    (eapply Hcame; [exact Hrec|cbn; by rewrite <- app_assoc|done|done|]); cbn.
  - by rewrite H0.
  - rewrite not_opening; [done|right; by eexists].
  - rewrite not_opening; [done|by left].
  - rewrite not_opening; [done|by left].
Qed.

Lemma step_recorded c c' : dstep opts inherited c c' -> routed c -> recorded c -> recorded c'.
Proof.
  intros Hs Hro Hc. assert (Hidle : forall new c', cn_trace c' = cn_trace c ++ new -> Forall idle_act new ->
    cn_received c' = cn_received c -> (cn_open c' = true -> cn_open c = true /\ cn_sessions c' = cn_sessions c) -> recorded c').
  { intros new c2. by apply idle_recorded. }
  destruct Hs as [r c Ho|id c Ho|l t r c t' c' Ht Hs|addr n c Ho _|addr question c Ho _|l q addr r o c Hq|c Ho|l t r c Ho Ht Hh].
  - by eapply receive_recorded.
  - unfold client_cancels. destruct (lookup_session _ _) as [addr|].
    + apply (Hidle [DNoticed id; DSent addr (KCancel id)]); [cbn; by rewrite <- app_assoc| |done|done].
      repeat (apply Forall_cons; split; [done|]). by apply Forall_nil.
    + apply (Hidle [DNoticed id]); [done| |done|done]. apply Forall_cons. by split; [|apply Forall_nil].
  - by eapply task_recorded.
  - apply (Hidle [DNote n]); [done| |done|done]. apply Forall_cons. by split; [|apply Forall_nil].
  - apply (Hidle [DAsked (cn_asked c) question]); [done| |done|done]. apply Forall_cons. by split; [|apply Forall_nil].
  - apply (Hidle [DSent addr (KElicited q o)]); [done| |done|done]. apply Forall_cons. by split; [|apply Forall_nil].
  - apply (Hidle []); [cbn; by rewrite app_nil_r|by apply Forall_nil|done|done].
  - apply (Hidle []); [cbn; by rewrite app_nil_r|by apply Forall_nil|done|]. cbn. by rewrite Ho.
Qed.
Lemma step_decided c c' : dstep opts inherited c c' -> counted c -> recorded c -> all_decided c -> all_decided c'.
Proof.
  intros Hs Hco Hre Hc.
  destruct Hs as [r c Ho|id c Ho|l t r c t' c' Ht Hs|addr n c Ho _|addr question c Ho _|l q addr r o c Hq|c Ho|l t r c Ho Ht Hh].
  - by apply sends_decided.
  - unfold client_cancels. destruct (lookup_session _ _) as [addr|].
    + apply (idle_decided c _ [DNoticed id; DSent addr (KCancel id)]); [done|cbn; by rewrite <- app_assoc| |done].
      repeat (apply Forall_cons; split; [done|]). by apply Forall_nil.
    + apply (idle_decided c _ [DNoticed id]); [done|done| |done]. apply Forall_cons. by split; [|apply Forall_nil].
  - by eapply task_decided.
  - apply (idle_decided c _ [DNote n]); [done|done| |done]. apply Forall_cons. by split; [|apply Forall_nil].
  - apply (idle_decided c _ [DAsked (cn_asked c) question]); [done|done| |done]. apply Forall_cons. by split; [|apply Forall_nil].
  - apply (idle_decided c _ [DSent addr (KElicited q o)]); [done|done| |done]. apply Forall_cons. by split; [|apply Forall_nil].
  - apply (idle_decided c _ []); [done|cbn; by rewrite app_nil_r|by apply Forall_nil|done].
  - apply (idle_decided c _ []); [done|cbn; by rewrite app_nil_r|by apply Forall_nil|]. intros t1. cbn. rewrite Ht, !elem_of_app, elem_of_cons. tauto.
Qed.
Lemma reachable_decided c : dreachable opts inherited c -> recorded c /\ all_decided c.
Proof.
  assert (Hr0 : recorded conn_new) by (split; [done|intros rq r; split; [by intros ?%elem_of_nil|done]|done]).
  assert (Hd0 : all_decided conn_new) by (intros [|] ? ? ? ? [=]).
  intros H. assert (H' : forall c0, owned c0 -> routed c0 -> counted c0 -> recorded c0 -> all_decided c0 ->
      rtc (dstep opts inherited) c0 c -> recorded c /\ all_decided c).
  { clear. intros c0 Ho Hr Hn H1 H2 H. induction H as [|c0 c1 c2 Hs _ IH]; [done|].
    apply IH; [by eapply step_owned|by eapply step_routed|by eapply step_counted|by eapply step_recorded|by eapply step_decided]. }
  apply (H' conn_new); [apply (reachable_owned opts inherited), rtc_refl|apply (reachable_routed opts inherited), rtc_refl|apply reachable_counted, rtc_refl|done|done|done].
Qed.
(** A request for a session that a process was sent is for the session it opened. *)
Lemma sent_to_its_process c addr rq r id : routed c -> DSent addr (KRequest rq r) ∈ cn_trace c -> for_session r = Some id ->
  opened_at addr id (cn_trace c).
Proof.
  intros Hr Hsent Hid. assert (Hin : (rq, r) ∈ requests_to addr (cn_trace c)).
  { apply list_elem_of_omap. exists (DSent addr (KRequest rq r)). split; [done|]. by rewrite decide_True. }
  destruct (ro_served c Hr addr) as [Hn|(first & rest & He & Hcr & Hrest)]; [rewrite Hn in Hin; by apply elem_of_nil in Hin|].
  rewrite He in Hin. apply elem_of_cons in Hin as [<-|Hin]; [cbn in Hcr; by rewrite (creates_no_session _ Hcr) in Hid|].
  destruct (Hrest _ _ Hin) as (id' & Hid' & Hop). congruence.
Qed.
(** What is received on an open connection is answered or waits to be. *)
Lemma answered_or_held c rq r : counted c -> recorded c -> cn_open c = true -> DReceived rq r ∈ cn_trace c ->
  (exists a, DReplied rq a ∈ cn_trace c) \/ rq ∈ rq_held c.
Proof.
  intros Hco Hre Ho Hin. assert (Hlt : rq < cn_received c).
  { rewrite <- (re_count c Hre). by apply (lookup_lt_Some _ _ r), (re_received c Hre). }
  assert (Hs : rq ∈ seq 0 (cn_received c)) by (apply elem_of_seq; lia).
  rewrite <- (ct_all c Hco Ho), elem_of_app in Hs. destruct Hs as [(x & Hx & Heq)%list_elem_of_omap|?]; [left|by right].
  destruct x; try discriminate Heq. injection Heq as ->. by eexists.
Qed.

(** C36: while a connection is open, the requests answered and the requests that a task or a kernel
    process still has to answer are together exactly those received; none is ever answered twice,
    and none but those received.  A request for a session that is open on the connection when it
    arrives ([open_sessions], as the openings answered and the closings received before it tell) is
    forwarded unchanged to the process that opened this session, and the only answer it can get is
    the one that process gives to this very request; it is answered that there is no such session
    only if, and always if, the session was not open then. *)
Theorem daemon_answers_with_the_kernels_answer c :
  dreachable opts inherited c ->
  (cn_open c = true -> replied (cn_trace c) ++ rq_held c ≡ₚ seq 0 (cn_received c)) /\ NoDup (replied (cn_trace c)) /\
  (forall rq a, DReplied rq a ∈ cn_trace c -> exists r, DReceived rq r ∈ cn_trace c) /\
  forall before rq r after id, cn_trace c = before ++ DReceived rq r :: after -> for_session r = Some id ->
    match open_sessions before !! id with
    | Some addr =>
        opened_at addr id (cn_trace c) /\ DSent addr (KRequest rq r) ∈ cn_trace c /\
        forall a, DReplied rq a ∈ cn_trace c -> DCame addr rq a ∈ cn_trace c
    | None =>
        (forall a, DReplied rq a ∈ cn_trace c -> a = AError (not_found id)) /\
        (cn_open c = true -> DReplied rq (AError (not_found id)) ∈ cn_trace c)
    end.
Proof.
  intros H. pose proof (reachable_counted c H) as [H1 H2]. pose proof (reachable_routed opts inherited c H) as Hr.
  destruct (reachable_decided c H) as [Hre Hd]. split; [done|]. split.
  { apply (NoDup_part _ (seq 0 (cn_received c))); [|apply NoDup_seq]. etrans; [|exact H1]. by apply submseteq_inserts_r. }
  split; [intros rq a (r & Hrec & _)%(ro_replies c Hr); by exists r|].
  intros before rq r after id Hs Hid. specialize (Hd _ _ _ _ _ Hs Hid). unfold decided in Hd.
  destruct (open_sessions before !! id) as [addr|].
  - destruct Hd as (Hsent & Hcame & _). split; [|by split]. by apply (sent_to_its_process c addr rq r).
  - destruct Hd as [Ha Hnot]. split; [done|]. intros Ho. destruct (answered_or_held c rq r) as [[a Hin]|Hin]; try done.
    + rewrite Hs. apply elem_of_app. right. left.
    + by rewrite <- (Ha a Hin).
Qed.
End counting.

(** ** A kernel process behind the daemon *)

Section kernel.
Context {HP : Platform} {HJ : JsonText} {X L : Type} {HO : Outside X} {HL : EventLog L} {HA : ArtifactStore X}.
Context {HC : Clock} {HLL : EventLogLaws L}.
Context (sopts : ServerOptions) (table_of_json : json -> result string Table).
Context (show_kernel_error : KernelError -> string) (show_launch_error : LaunchError -> string).
Context (creates : SessionId -> string -> string -> Table -> result LaunchError (Launched X L) -> Prop).
Context (reopens : SessionId -> result LaunchError (Launched X L) -> Prop).
Context (opts : DaemonOptions) (inherited : list (string * string)).
Notation Server := (Server (X := X) (L := L)).
Notation server_step := (step sopts table_of_json show_kernel_error show_launch_error creates reopens).
Notation server_reachable := (reachable sopts table_of_json show_kernel_error show_launch_error creates reopens).

(** What the process at [addr] is sent: [initialize], then the requests of the daemon, in order. *)
Definition from_daemon (addr : nat) (tr : list DaemonAct) (s : Server) (r : Request) : Prop :=
  match sv_received s with
  | 0 => r = RqInitialize
  | S n => exists rq, requests_to addr tr !! n = Some (rq, r)
  end.
Definition idle_at_first (s : Server) : Prop := sv_received s <= 1 -> sv_tasks s = [].

Lemma say_all_tasks l (s : Server) : sv_tasks (say_all l s) = sv_tasks s.
Proof. unfold say_all. revert s. induction l as [|a l IH]; intros s; [done|]. cbn [foldl]. by rewrite IH. Qed.
Lemma one_opening_at_a_time addr tr (s : Server) r :
  serves_one addr tr -> idle_at_first s -> from_daemon addr tr s r -> one_at_a_time s r.
Proof.
  unfold idle_at_first, from_daemon. intros Hs Hi Hr Hc. destruct (sv_received s) as [|[|n]].
  - by subst r.
  - rewrite Hi by lia. constructor.
  - destruct Hr as (rq & Hr). destruct Hs as [H|(first & rest & H & _ & Hrest)]; rewrite H in Hr; [done|].
    change (rest !! n = Some (rq, r)) in Hr. apply list_elem_of_lookup_2 in Hr. destruct (Hrest _ _ Hr) as (id & Hid & _). by rewrite (creates_no_session _ Hc) in Hid.
Qed.
Lemma from_daemon_step addr tr (s s' : Server) :
  serves_one addr tr -> idle_at_first s -> server_step (from_daemon addr tr) s s' ->
  server_step one_at_a_time s s' /\ idle_at_first s'.
Proof.
  intros Hs Hi Hst. destruct Hst as [uuid r s Hr|id s|l t r s t' s' Htasks Ht|a lv k rq cmd q fuel k' rep s Hlv Hk Hq Hserve
    |a lv s Hlv Hq Hreg Hfree|a lv d s Hlv|a lv e s Hlv].
  - split; [by apply st_receive, (one_opening_at_a_time addr tr)|]. unfold idle_at_first, receive.
    rewrite handle_received. cbn [sv_received]. intros Hle. assert (H0 : sv_received s = 0) by lia.
    unfold from_daemon in Hr. rewrite H0 in Hr. subst r. cbn. apply Hi. lia.
  - split; [apply st_notice|]. unfold idle_at_first, notice. by destruct (get id _).
  - split; [by eapply st_task|]. intros Hle. destruct (task_step_accounted _ _ _ _ _ _ _ _ _ Ht) as (_ & Hrec & _).
    cbn in Hle. rewrite Hrec in Hle. rewrite (Hi Hle) in Htasks. by destruct l.
  - split; [by eapply st_serve|]. unfold idle_at_first, driver_served.
    destruct (is_end cmd); cbn; intros Hle; by rewrite (Hi Hle).
  - split; [by eapply st_dropped|]. exact Hi.
  - split; [by eapply st_delta|]. unfold idle_at_first, projected_delta. destruct (project_delta _ _) as [p u].
    by rewrite say_all_received, say_all_tasks.
  - split; [by eapply st_event|]. unfold idle_at_first, projected_event. destruct (project_event _ _) as [p us].
    by rewrite say_all_received, say_all_tasks.
Qed.

(** C25: whatever clients send, a kernel process behind the daemon is asked to open one session
    and is then sent requests for this session only, so that, started to serve a single
    session as [grist_kernel] is, it never has two. *)
Theorem kernel_process_serves_one_session c addr (s : Server) :
  dreachable opts inherited c -> so_single_session sopts = true ->
  server_reachable (from_daemon addr (cn_trace c)) s -> serves_one addr (cn_trace c) /\ count s <= 1.
Proof.
  intros Hc Ho Hs. pose proof (ro_served c (reachable_routed opts inherited c Hc) addr) as Hone. split; [done|].
  assert (H' : forall s0, idle_at_first s0 -> single s0 -> rtc (server_step (from_daemon addr (cn_trace c))) s0 s -> single s).
  { clear Hs. intros s0 Hi H0 Hr. induction Hr as [|s0 s1 s2 Hst _ IH]; [done|].
    destruct (from_daemon_step _ _ _ _ Hone Hi Hst) as [Hst' Hi']. apply IH; [done|]. by eapply step_single. }
  assert (Hsg : single s); [|apply Hsg]. apply (H' server_new); [done| |done].
  split; unfold count; cbn; rewrite ?map_size_empty; [lia|lia|done].
Qed.
End kernel.

(** * The socket and the environment *)

(** After [bind] the socket has mode 0600, the last thing that was done to it. *)
Lemma bind_restricts_the_socket {X} {HOs : OsFs X} (os : SocketOs X) (mode : string -> X -> option N) socket x x' :
  (forall p m x x', so_set_mode os p m x = (x', Ok tt) -> mode p x' = Some m) ->
  bind os socket x = (x', Ok tt) -> mode socket x' = Some 384%N.
Proof.
  intros Hm. unfold bind.
  unfold mbind, M_bind. destruct (make_socket_dir os socket x) as [x1 [u|e]]; [|done].
  destruct (remove_stale_socket socket x1) as [x2 [u'|e]]; [|done]. cbn.
  destruct (so_listen os socket x2) as [x3 [u2|e]]; [|done]. cbn. apply Hm.
Qed.
(** The accept loop serves the streams of this user, and no other. *)
Lemma serve_admits_only_us {S} uid (accepted : list (result IoError (S * result IoError N))) stream :
  stream ∈ (serve uid accepted).1 -> Ok (stream, Ok uid) ∈ accepted.
Proof.
  induction accepted as [|[[st cred]|e] accepted IH]; cbn; [by intros ?%elem_of_nil| |by intros ?%elem_of_nil].
  destruct (serve uid accepted) as [connections e]. cbn in IH. destruct cred as [peer|e']; cbn; [|right; by apply IH].
  destruct (N.eqb_spec peer uid) as [->|_]; cbn; [|right; by apply IH].
  intros [->|Hin]%elem_of_cons; [left|right; by apply IH].
Qed.

Lemma get_set_vars vars env v : v ∉ vars.*1 -> omap_get v (set_vars vars env) = omap_get v env.
Proof.
  unfold set_vars. revert env. induction vars as [|[k x] vars IH]; intros env H; [done|]. apply not_elem_of_cons in H as [H1 H2].
  cbn. rewrite IH by done. rewrite omap_get_insert. by rewrite decide_False.
Qed.
Definition launch_names : list string := ["HOME"; "GRIST_STATE_DIR"; "GRIST_PROFILES_DIR"; "GRIST_SANDBOX_BACKEND"].
(** A kernel process works with the daemon's own options, wherever it is started, if the extra
    environment leaves the launcher's variables alone. *)
Lemma kernel_starts_with_the_daemons_options {HF : FileSystem} opts env cwd cwd' :
  options_from_env (fun v => omap_get v env) cwd = Ok (do_launch opts) ->
  (forall v, v ∈ launch_names -> v ∉ (do_env opts).*1) ->
  options_from_env (fun v => omap_get v (kernel_env opts env)) cwd' = Ok (do_launch opts).
Proof.
  intros Ho Hn. unfold options_from_env in *. unfold kernel_env.
  rewrite !(get_set_vars (do_env opts)) by (apply Hn, list_elem_of_In; cbn; tauto).
  set (o := do_launch opts) in *. unfold launch_vars, set_vars. cbn [foldl fst snd app].
  destruct (omap_get "HOME" env) as [home|] eqn:Hh; [|done]. injection Ho as <-. cbn [lo_state_dir lo_profiles_dir lo_sandbox_override].
  set (b := match omap_get "GRIST_SANDBOX_BACKEND" env with Some _ => _ | None => _ end).
  assert (Hb : b = None \/ exists s, b = Some s /\ utf8_valid s && negb (bool_decide (s = "")) = true).
  { unfold b. destruct (omap_get "GRIST_SANDBOX_BACKEND" env) as [s|]; [|by left].
    destruct (utf8_valid s && _) eqn:E; [right; by exists s|by left]. }
  destruct Hb as [Hb|(s & Hb & Hs)]; rewrite Hb; cbn [foldl fst snd]; rewrite !omap_get_insert;
    repeat match goal with |- context [decide (?x = ?y)] => destruct (decide (x = y)); [try discriminate|try congruence] end;
    rewrite Hh.
  - fold b. by rewrite Hb.
  - by rewrite Hs.
Qed.

(** * Runs *)

(** A run as the list of what happens next; the answer is the one a kernel gives. *)
Inductive DMove : Type := DmReceive (r : Request) | DmNotice (id : string) | DmTask (i : nat) (a : Answer) | DmClose.
Definition wit_daemon : DaemonOptions := {|
  do_kernel_bin := "/bin/grist-kernel";
  do_launch := {| lo_profiles_dir := "/p"; lo_state_dir := "/s"; lo_home := "/h"; lo_sandbox_override := None;
                  lo_question_capacity := 8; lo_delta_capacity := 1024 |};
  do_env := [] |}.
Definition play_dtask (t : DaemonTask) (a : Answer) (c : Conn) : option (option DaemonTask * Conn) :=
  match t with
  | DOpening rq r =>
      if opening_refused r c then Some (None, respond rq (AError already_here) c)
      else Some (Some (DInitializing rq r (length (cn_procs c))), kernel_started wit_daemon [] c)
  | DInitializing rq r addr => Some (Some (DOpened rq r addr), act (DSent addr (KRequest rq r)) c)
  | DOpened rq r addr =>
      if answers_request r a then
        id ← opened_session r a; Some (None, respond rq a (insert_session id addr (act (DCame addr rq a) c)))
      else None
  | DForwarding rq r addr => if answers_request r a then Some (None, respond rq a (act (DCame addr rq a) c)) else None
  | DClosing rq r addr =>
      if answers_request r a then
        Some (None, set_procs (alter kill addr (cn_procs c)) (respond rq a (act (DCame addr rq a) c)))
      else None
  | DListing rq => None
  end.
Definition play_daemon (m : DMove) (c : Conn) : option Conn :=
  match m with
  | DmReceive r => if cn_open c then Some (client_sends r c) else None
  | DmNotice id => if cn_open c then Some (client_cancels id c) else None
  | DmTask i a =>
      t ← cn_tasks c !! i;
      '(t', c') ← play_dtask t a c;
      Some (reap (set_dtasks (take i (cn_tasks c) ++ option_list t' ++ drop (S i) (cn_tasks c)) c'))
  | DmClose => if cn_open c then Some (reap (client_closes c)) else None
  end.
Fixpoint plays_daemon (ms : list DMove) (c : Conn) : option Conn :=
  match ms with [] => Some c | m :: ms => c' ← play_daemon m c; plays_daemon ms c' end.
Lemma play_dtask_ok t a c t' c' : play_dtask t a c = Some (t', c') -> dtask_step wit_daemon [] t c t' c'.
Proof.
  destruct t as [rq r|rq r addr|rq r addr|rq r addr|rq r addr|rq]; cbn [play_dtask].
  - destruct (opening_refused r c) eqn:E; intros [= <- <-]; [by apply ds_refused|by apply ds_spawned].
  - intros [= <- <-]. apply ds_initialized.
  - destruct (answers_request r a) eqn:E; [|done]. destruct (opened_session r a) as [id|] eqn:Ho; [|done].
    intros [= <- <-]. by apply ds_opened.
  - destruct (answers_request r a) eqn:E; [|done]. intros [= <- <-]. by apply ds_forwarded.
  - destruct (answers_request r a) eqn:E; [|done]. intros [= <- <-]. by apply ds_closed.
  - done.
Qed.
Lemma plays_daemon_reachable ms c : plays_daemon ms conn_new = Some c -> dreachable wit_daemon [] c.
Proof.
  unfold dreachable. generalize conn_new as c0. induction ms as [|m ms IH]; intros c0; cbn [plays_daemon]; [by intros [= ->]|].
  destruct (play_daemon m c0) as [c1|] eqn:Hm; [|done]. cbn [mbind option_bind]. intros H%IH. eapply rtc_l; [|exact H]. clear H IH.
  destruct m as [r|id|i a|]; cbn [play_daemon] in Hm.
  - destruct (cn_open c0) eqn:E; [|done]. injection Hm as <-. by apply dt_receive.
  - destruct (cn_open c0) eqn:E; [|done]. injection Hm as <-. by apply dt_notice.
  - destruct (cn_tasks c0 !! i) as [t|] eqn:Ht; [|done]. cbn [mbind option_bind] in Hm.
    destruct (play_dtask t a c0) as [[t' c']|] eqn:Hp; [|done]. injection Hm as <-. eapply dt_task; [|by eapply play_dtask_ok].
    by rewrite take_drop_middle.
  - destruct (cn_open c0) eqn:E; [|done]. injection Hm as <-. by apply dt_close.
Qed.
Lemma plays_daemon_to {A} ms (g : Conn -> A) v :
  g <$> plays_daemon ms conn_new = Some v -> exists c, plays_daemon ms conn_new = Some c /\ g c = v.
Proof. intros (c & Hc & ->)%fmap_Some. by exists c. Qed.
Definition lives (c : Conn) : list bool := kp_child <$> cn_procs c.

(** Two requests to load a session, the second before the first is answered, both start a kernel on
    its log; both are answered that it is open, and the process of the first is killed. *)
Definition both_loading : list DMove :=
  [DmReceive (RqLoad "s"); DmReceive (RqLoad "s"); DmTask 0 ADone; DmTask 0 ADone; DmTask 1 ADone; DmTask 1 ADone].
Example two_kernels_for_one_session : exists c1 c2,
  dreachable wit_daemon [] c1 /\ lives c1 = [true; true] /\
  (forall addr, addr < 2 -> exists rq, requests_to addr (cn_trace c1) = [(rq, RqLoad "s")]) /\
  dreachable wit_daemon [] c2 /\ lives c2 = [false; true] /\
  DReplied 0 AOpened ∈ cn_trace c2 /\ DReplied 1 AOpened ∈ cn_trace c2.
Proof.
  destruct (plays_daemon_to both_loading (fun c => (lives c, requests_to 0 (cn_trace c), requests_to 1 (cn_trace c)))
    ([true; true], [(0, RqLoad "s")], [(1, RqLoad "s")])) as (c1 & H1 & E1); [vm_compute; reflexivity|].
  destruct (plays_daemon_to (both_loading ++ [DmTask 0 AOpened; DmTask 0 AOpened])
    (fun c => (lives c, replied (cn_trace c), List.filter (fun a => match a with DReplied _ _ => true | _ => false end) (cn_trace c)))
    ([false; true], [0; 1], [DReplied 0 AOpened; DReplied 1 AOpened])) as (c2 & H2 & E2); [vm_compute; reflexivity|].
  injection E1 as E11 E12 E13. injection E2 as E21 _ E23.
  exists c1, c2. split; [by eapply plays_daemon_reachable|]. split; [done|]. split.
  { intros [|[|addr]] Ha; [by exists 0|by exists 1|lia]. }
  split; [by eapply plays_daemon_reachable|]. split; [done|].
  assert (Hin : forall a, a ∈ [DReplied 0 AOpened; DReplied 1 AOpened] -> a ∈ cn_trace c2).
  { intros a Ha. rewrite <- E23 in Ha. by apply list_elem_of_In, filter_In in Ha as [Ha%list_elem_of_In _]. }
  split; apply Hin; [left|right; left].
Qed.

(** ** Witnesses *)

Definition wit_goes : Request := RqPrompt "s_1" [BText "go"].
Definition one_open : list DMove := [DmReceive (RqNew "/w" None); DmTask 0 ADone; DmTask 0 ADone; DmTask 0 (ANew "s_1")].
(** A session that was opened and is in use. *)
Lemma kernel_processes_are_owned_witness : exists c, lives c = [true] /\ NoDup (owners c) /\ alive c 0.
Proof.
  destruct (plays_daemon_to (one_open ++ [DmReceive wit_goes]) (fun c => (lives c, lookup_session "s_1" c, cn_open c)) ([true], Some 0, true))
    as (c & Hc & E); [vm_compute; reflexivity|]. injection E as E1 E2 E3.
  destruct (kernel_processes_are_owned wit_daemon [] c (plays_daemon_reachable _ _ Hc)) as (H1 & _ & H3 & _).
  exists c. split; [exact E1|]. split; [exact H1|exact (H3 E3 "s_1" 0 E2)].
Defined.
(** The prompt is answered, in the words of the kernel that opened its session; a prompt for another
    session is answered that there is none. *)
Lemma daemon_answers_with_the_kernels_answer_witness : exists c, replied (cn_trace c) = [0; 1; 2] /\
  DCame 0 1 (AStopped EndTurn) ∈ cn_trace c /\ DReplied 2 (AError (not_found "s_2")) ∈ cn_trace c.
Proof.
  set (opening := [DReceived 0 (RqNew "/w" None); DSent 0 KInitialize; DSent 0 (KRequest 0 (RqNew "/w" None));
    DCame 0 0 (ANew "s_1"); DReplied 0 (ANew "s_1")] : list DaemonAct).
  set (prompting := [DReceived 1 wit_goes; DSent 0 (KRequest 1 wit_goes); DCame 0 1 (AStopped EndTurn);
    DReplied 1 (AStopped EndTurn)] : list DaemonAct).
  set (unknown := [DReplied 2 (AError (not_found "s_2"))] : list DaemonAct).
  destruct (plays_daemon_to (one_open ++ [DmReceive wit_goes; DmTask 0 (AStopped EndTurn); DmReceive (RqStatus "s_2")])
    (fun c => (cn_open c, cn_trace c)) (true, opening ++ prompting ++ DReceived 2 (RqStatus "s_2") :: unknown)) as (c & Hc & E);
    [vm_compute; reflexivity|]. injection E as E0 E.
  destruct (daemon_answers_with_the_kernels_answer wit_daemon [] c (plays_daemon_reachable _ _ Hc)) as (_ & _ & _ & H).
  exists c. split; [rewrite E; reflexivity|]. split.
  - destruct (H opening 1 wit_goes (tail prompting ++ DReceived 2 (RqStatus "s_2") :: unknown) "s_1" E eq_refl) as (_ & _ & Hcame).
    apply (Hcame (AStopped EndTurn)). rewrite E. apply list_elem_of_In. cbn. tauto.
  - destruct (H (opening ++ prompting) 2 (RqStatus "s_2") unknown "s_2" E eq_refl) as (_ & Hreply). exact (Hreply E0).
Defined.

#[local] Existing Instance toy_platform.
#[local] Existing Instance wit_clock.
#[local] Existing Instance toy_json.
Definition opens_once (s : Server (X := script) (L := MemoryEventLog)) (r : Request) : bool :=
  match sv_received s, r with
  | 0, RqInitialize => true
  | 1, RqNew cwd None => bool_decide (cwd = "/w")
  | _, _ => false
  end.
(** The server that the daemon started, with the session it was asked for. *)
Lemma kernel_process_serves_one_session_witness : exists c (s : Server (X := script) (L := MemoryEventLog)),
  serves_one 0 (cn_trace c) /\ answered (sv_trace s) = [0; 1] /\ count s <= 1.
Proof.
  destruct (plays_daemon_to one_open (fun c => requests_to 0 (cn_trace c)) [(0, RqNew "/w" None)]) as (c & Hc & Ec); [vm_compute; reflexivity|].
  destruct (plays_to opens_once [MReceive "0" RqInitialize; MReceive "1" (RqNew "/w" None); MTask 0] (fun s => answered (sv_trace s)) [0; 1])
    as (s & Hs & Es); [vm_compute; reflexivity|].
  assert (Hall : forall s r, opens_once s r = true -> from_daemon 0 (cn_trace c) s r).
  { intros s0 r. unfold opens_once, from_daemon. destruct (sv_received s0) as [|[|n]]; destruct r as [|cwd [m|]| | | | | | | | |]; try done.
    intros H%bool_decide_eq_true. exists 0. by rewrite Ec, H. }
  destruct (kernel_process_serves_one_session wit_opts no_table (fun _ => "kernel error") (fun _ => "launch error") wit_creates wit_reopens
    wit_daemon [] c 0 s (plays_daemon_reachable _ _ Hc) eq_refl (plays_reachable _ opens_once _ _ Hall Hs)) as [H1 H2].
  exists c, s. split; [exact H1|]. split; [exact Es|exact H2].
Defined.
