(* ===== verification/Connect.v ===== *)
(** The forwarder ([crates/orchestrator/src/acp/connect.rs]): bytes pumped both ways between a client's
    stdio and the daemon's socket until either side closes. *)

From S2P Require Import Prelude Ord Str NativeFs.

Open Scope string_scope.
Open Scope list_scope.

Inductive Target : Type := TargetUnix (path : string) | TargetTcp (addr : string).

(** One direction of [tokio::io::copy]: the chunks still to come, the end of the list being the end
    of the stream and a failure one of reading or writing; what was written so far. *)
Record Copy : Type := { cp_coming : list (result IoError string); cp_written : string }.
Inductive Progress : Type := Goes (c : Copy) | Ends (r : result IoError N) (c : Copy).
Definition copy_step (c : Copy) : Progress :=
  match cp_coming c with
  | [] => Ends (Ok (N.of_nat (String.length (cp_written c)))) c
  | Err e :: rest => Ends (Err e) {| cp_coming := rest; cp_written := cp_written c |}
  | Ok chunk :: rest => Goes {| cp_coming := rest; cp_written := cp_written c +:+ chunk |}
  end.

Inductive Side : Type := Up | Down.
(** [pump]: the two copies run side by side in the order of [schedule]; the first to end ends both.
    The result is the counts, and what each side had been sent by then; [None]: neither ended yet. *)
Fixpoint pump (schedule : list Side) (up down : Copy) : option (result IoError (N * N)) * Copy * Copy :=
  match schedule with
  | [] => (None, up, down)
  | Up :: schedule =>
      match copy_step up with
      | Goes up => pump schedule up down
      | Ends r up => (Some ((fun n => (n, 0%N)) <$> r), up, down)
      end
  | Down :: schedule =>
      match copy_step down with
      | Goes down => pump schedule up down
      | Ends r down => (Some ((fun n => (0%N, n)) <$> r), up, down)
      end
  end.
(** [forward] on Unix; [connect] opens the stream, whose reads are [incoming]. *)
Definition forward (connect : Target -> result IoError (list (result IoError string))) (target : Target)
    (input : list (result IoError string)) (schedule : list Side) : option (result IoError (N * N)) * Copy * Copy :=
  let fresh coming := {| cp_coming := coming; cp_written := "" |} in
  match connect target with
  | Err e => (Some (Err e), fresh input, fresh [])
  | Ok incoming => pump schedule (fresh input) (fresh incoming)
  end.

(** ** Bytes go through unchanged *)

Definition chunks (l : list (result IoError string)) : string :=
  foldr (fun r s => match r with Ok c => c +:+ s | Err _ => s end) "" l.
(** What a copy has written and what is still to come make up what was sent. *)
Definition whole (c : Copy) : string := cp_written c +:+ chunks (cp_coming c).
Lemma copy_step_whole c : match copy_step c with Goes c' | Ends _ c' => whole c' = whole c end.
Proof.
  unfold copy_step, whole. destruct (cp_coming c) as [|[chunk|e] rest] eqn:E; cbn; rewrite ?E; try done.
  by rewrite str_app_assoc.
Qed.
Lemma pump_whole schedule up down r up' down' :
  pump schedule up down = (r, up', down') -> whole up' = whole up /\ whole down' = whole down.
Proof.
  revert up down. induction schedule as [|[] schedule IH]; intros up down; cbn [pump]; [by intros [= _ <- <-]| |].
  - pose proof (copy_step_whole up) as Hw. destruct (copy_step up) as [up1|r1 up1].
    + intros [H1 H2]%IH. by rewrite H1.
    + by intros [= _ <- <-].
  - pose proof (copy_step_whole down) as Hw. destruct (copy_step down) as [down1|r1 down1].
    + intros [H1 H2]%IH. by rewrite H2.
    + by intros [= _ <- <-].
Qed.
(** Either side is sent a prefix of what the other sent, unchanged; a forwarder that ends well tells
    the length of what went through on the side that closed, and all of it did. *)
Lemma forward_is_transparent connect target input incoming schedule r up down :
  connect target = Ok incoming -> forward connect target input schedule = (r, up, down) ->
  (exists rest, chunks input = cp_written up +:+ rest) /\ (exists rest, chunks incoming = cp_written down +:+ rest) /\
  forall n m, r = Some (Ok (n, m)) ->
    n = N.of_nat (String.length (chunks input)) /\ m = 0%N /\ cp_written up = chunks input \/
    n = 0%N /\ m = N.of_nat (String.length (chunks incoming)) /\ cp_written down = chunks incoming.
Proof.
  unfold forward. intros ->. intros H. destruct (pump_whole _ _ _ _ _ _ H) as [Hu Hd]. cbn in Hu, Hd.
  split; [by eexists|]. split; [by eexists|]. intros n m ->. unfold whole in Hu, Hd. cbn in Hu, Hd. revert H Hu Hd.
  set (up0 := {| cp_coming := input; cp_written := "" |}). set (down0 := {| cp_coming := incoming; cp_written := "" |}).
  generalize up0, down0. clear up0 down0. induction schedule as [|[] schedule IH]; intros up0 down0; cbn [pump]; [done| |].
  - destruct (copy_step up0) as [up1|r1 up1] eqn:E; [by apply IH|]. unfold copy_step in E.
    destruct (cp_coming up0) as [|[chunk|e] rest] eqn:Ec; [|done|by injection E as <- <-].
    injection E as <- <-. cbn. intros [= <- <- <- <-] Hu Hd. left. rewrite Ec in Hu. cbn in Hu.
    rewrite str_app_nil_r in Hu. by rewrite Hu.
  - destruct (copy_step down0) as [down1|r1 down1] eqn:E; [by apply IH|]. unfold copy_step in E.
    destruct (cp_coming down0) as [|[chunk|e] rest] eqn:Ec; [|done|by injection E as <- <-].
    injection E as <- <-. cbn. intros [= <- <- <- <-] Hu Hd. right. rewrite Ec in Hd. cbn in Hd.
    rewrite str_app_nil_r in Hd. by rewrite Hd.
Qed.
